(* ===== verification/_CoqProject ===== *)
-Q . S2P
Prelude.v
Float64.v
Text.v
Limits.v
Json.v
Serialize.v
Ids.v
Caps.v
Domain.v
Validation.v
Policy.v
Responses.v
Runtime.v
Samples.v
ReviewHalf.v
Verify.v
FanOut.v
Files.v
Review.v
Gate.v
Classify.v
Compare.v
Decide.v
Find.v
Rerank.v
Screen.v
Score.v
Matching.v
Extract.v
Arguments.v
Schema.v
Toolset.v
Retry.v
Provider.v
Definitions.v
PyStrings.v
Redact.v
Regex.v
Credential.v
Calibration.v
Cache.v
Utf8.v
Paths.v
FileState.v
FileJudge.v
Glob.v
FilesJudge.v
GitDiff.v
GateRange.v
Hook.v
Ask.v
Dialect.v
DialectSpec.v
DialectGrammar.v
JsonText.v
JsonEdit.v
JsonLocate.v
JsonWrite.v
JsonEditSpec.v
InstallRedact.v
InstallFs.v
Layout.v
Documents.v
Engine.v
EnginePlan.v
EngineRun.v
Http.v
Adapters.v
ProviderCall.v
Settings.v
KeyFile.v
Resolver.v
Server.v
Doctor.v
Worker.v
Cli.v
Identity.v
InstallCli.v
Frames.v
Broker.v
