(* ===== verification/Prelude.v ===== *)
(** * jev-judge-mcp: the judging server, verified

    jev-judge-mcp is an MCP server whose tools put semantic questions to the Jev judgment service and
    turn its answers into decisions an agent may act on: [auto] (act), [review] (look first) or
    [escalate] (stop).  This development models the tools, the layers they share, the command hooks,
    the clients of the judgment service, the start of the server, the installer, the cache and the
    calibration command, and the broker through which confined agents of the evaluations reach the
    service, and proves what their decisions promise.  Every file under [src/] named below is relative
    to [src/src/jev_judge_mcp/], those of [evals/] to [src/].

    ** How the program works and where each part is modelled

    A call enters the kernel ([tools/toolset.py], [Toolset]), which looks the tool up, parses the
    arguments against the tool's schema ([tools/arguments.py]: the parser in [Arguments], the schema
    compiler in [Schema]; the published schemas and the registry in [Definitions]) and runs the
    tool's handler.  A handler prepares items (safe ids: [ids.py], [Ids]; text windows: [text.py],
    [Text]; caps and the cut ledger: [limits.py], [validation/caps.py], [Limits], [Caps]), builds a
    state and typed questions ([domain/], [Json] and [Domain]), asks the provider once per request
    ([tools/base.py], [Runtime]; retries: [providers/retry.py] and [providers/base.py], [Retry];
    the reply envelope: [Provider]; replays: [cache.py], [Cache]), validates the raw answers
    ([validation/], [Validation]), hands them to the policy ([policy/], [Policy]) and frames a payload
    ([responses.py], [Responses]; rendered by [serialize.py], [Serialize]).

    The handlers that judge caller text are one file each: [Review] and [Gate] (with the rubric of
    [tools/review_half.py] in [ReviewHalf] and the file-list path of [tools/files.py] in [Files] and
    [FanOut]), [Verify], [Classify], [Compare], [Decide], [Find], [Rerank], [Screen], [Score] and
    [Extract] (with the scan and the execution port of [extract/] in [Matching]; the pool of worker
    processes behind the port, [extract/worker.py], is the step relation of [Worker]).

    The handlers that read the workspace stand on [FileState] ([tools/file_state.py]: scope, secret
    stores, the read and its refusals) over [Paths] (the [pathlib] functions the code calls and the
    file system as a record of operations) and [Utf8] (decoding): [FileJudge]
    ([tools/file_judge.py]), [Glob] and [FilesJudge] ([tools/files_judge.py]), [GitDiff]
    ([git_diff.py]) and [GateRange] ([tools/gate_range.py], a client of [Gate]), [Ask]
    ([tools/ask_state.py], [tools/ask.py], a client of [FileState], [FileJudge] and [Hook]).

    A request leaves through [Adapters] ([providers/compatible.py], [openrouter.py], [cloudflare.py],
    [typesafe.py]: what each adapter sends, to which origin, and how its reply is read) over [Http]
    (headers, floats, [Retry-After], JSON as [domain/json.py] decodes it); [ProviderCall] composes an
    adapter with the attempts of [Retry] and gives the handlers the runtime they assume.  Which adapter
    it is comes from the environment: [Settings] ([settings.py]), [KeyFile] ([keyfile.py],
    [fsutil.py]) and [Resolver] ([providers/resolver.py]).  [Server] ([server.py], [http_auth.py],
    [stdio.py]) has the gates of a start, the bearer token and the call of a tool; [Doctor]
    ([doctor.py], [setup.py]) the two commands that report on the configuration and store a key.

    The command hooks, processes of their own, are [Hook] ([hook.py], [hook_render.py],
    [hook_runtime.py], [hook_screen.py], [hook_compact.py]).  What leaves the
    process is redacted by [Redact] ([errors.py]) and [Credential] ([credential_literal.py],
    [redact_action.py]), whose patterns run on the matcher of [Regex].  [Calibration] is the
    calibrate command.  The command line is [Cli] ([cli.py]: [judge], [gate] and the completion hook, on
    the shell tokens of [Cli.Shlex]), and the version it and the server report [Identity]
    ([identity.py]).  [PyStrings] has the string functions all of them use; [Samples] the concrete
    calls the witnesses run.

    The translator of caller patterns from the ECMAScript dialect to Python's is [Dialect]
    ([extract/dialect.py]); [DialectSpec] gives both languages a meaning and [DialectGrammar] ties the
    parser to the grammar of patterns.

    The installer adds the server to the configuration of each coding agent.  [Engine]
    ([install/engine.py]) detects, selects, plans, applies and reports; it stands on [Documents] (where
    a client keeps its entry), [Layout] (where its files are and what an entry launches), [InstallFs]
    (the disk, the system calls and the guarded writes), [InstallRedact] (what is hidden) and
    [JsonEdit] ([install/jsonedit.py]: one key of a commented JSON document set or removed in place).
    [JsonText] is the decoder and encoder of [json] with the documents and their layout, [JsonLocate]
    and [JsonWrite] the lemmas of the passes of the editor; [JsonEditSpec], [EnginePlan]
    and [EngineRun] have the theorems.  [InstallCli] ([install/cli.py], [install/verify.py]) is the
    command around the engine: the key, the prompts, and the handshake with the server it wrote.

    The agents of the evaluations run without a network; [Broker] ([evals/confinement/broker.py],
    [shim.py]) has the process that holds the credentials and the forwarder inside the container, and
    [Frames] ([evals/confinement/protocol.py]) the frames between them.

    ** How state and operations correspond

    A Python [str] is its list of code points ([text]); a dict is an association list in insertion
    order ([dict], with [dset] for assignment and [dmerge] for [update] and [**]); a JSON value is
    [Json.value]; a Python float is an IEEE binary64 number computed with integers ([Float64]), so
    thresholds compare as they do at run time and every definition evaluates.  A handler is a
    computation of [Runtime.M]: it threads the log of provider requests and may raise ([exn]).  The
    provider is the field [rt_ask] of the runtime, from the index of a request and the request to a
    reply or an exception; [json_replies] says that its replies are decoded JSON objects (distinct
    keys).  A single-ask handler is split as the code reads: what it prepares, [questions_of],
    [state_of], the rows, [reply], and [handle] that composes them.  Handlers take the record of
    their parsed arguments; [Definitions] reads that record out of the parsed dict, and
    [published_calls_typed] shows that the schema leaves nothing to be missing.  A hook is a function
    from the event's text to its exit code, output and requests.  The installer is a computation of
    [InstallFs.M]: it threads a disk (nodes and links by the text of their path), an exception keeps
    the changes made before it, a system call fails as [fault] says, and other programs may change
    the disk where the code reads it again ([rival], the hooks of a request).

    ** What the theorems show

    - Decisions are sound ([Gate], [Review], [Verify], [Classify], [Extract], [Compare], [Screen]):
      an [auto] or [pass] implies that the provider was asked, its answers validated, thresholds met,
      nothing relevant was cut and no claim rests on a caller's own note.
    - Answers are faithful ([Decide], [Find], [Rerank], [Score], [Extract], [FileJudge],
      [FilesJudge], [Ask]): what is returned was offered or is verbatim text, rankings are stable
      permutations, counts add up, every file is answered or named as skipped, and an answer is valid
      for its question or withheld.
    - What may be read, sent and run is guarded ([FileState], [FileJudge], [FilesJudge], [GitDiff],
      [GateRange], [Ask]): only readable files in scope, never a secret store, redacted; only ranges of
      commits or trees; a command only through its gate, as a non-interference theorem.
    - The hooks never allow aloud, and their silence is earned ([Hook], [Cli]); the decision of the command
      line is the headline the handler computed ([Cli.decision_is_headline]).
    - The validators, the schema compiler, the argument parser, the hunk check, the reason codes, the
      question builder and the envelope are equivalent to specifications stated without their
      control flow.
    - Concurrency and retries: the fan-out of file reviews refines the sequential pass on every
      schedule and terminates; a provider call sends a bounded number of requests; the cache replays
      what was answered and evicts the oldest.
    - The provider ([Adapters], [ProviderCall], [Resolver]): credentials and states go to the origin that
      was configured and to no other, redirects included; an evaluation is what the endpoint answered
      to what was asked; a call ends within its attempts; the provider selected is the one meant.
    - The worker pool stays within its bounds, ends every call, outlives none of its processes, and
      answers a call with what was matched for it ([Worker]).
    - A start is guarded ([Server]): no unauthenticated service on an open host, no short secret; the key
      file holds what was verified and reads back ([KeyFile], [Doctor]).
    - Redaction removes what it names and keeps the rest ([Redact], [Credential]); the calibration
      search is optimal and its certificate means what it says ([Calibration]).
    - A translated pattern means what the caller's pattern means, and the parser of the dialect stops
      on every input ([DialectGrammar]).
    - The installer changes exactly its entry ([JsonEditSpec], [EnginePlan]), leaves what
      is not its own ([EngineRun.foreign_entries_kept]), writes nothing without consent, never writes
      over a change it has not seen ([EngineRun.write_one_guarded]), installs everything it planned
      when it says so ([EngineRun.run_installs]) and prints no secret ([InstallCli.install_hides_key]); a
      server that passes its check is the one that was written ([InstallCli.verify_command_sound]).
    - The reported version tells builds apart, and finding it reads nothing outside git's directories
      ([Identity]).
    - Frames round trip in whatever pieces they arrive ([Frames]); the broker sends out only allowed
      requests of live runs, sends back no credential, and a permitted request goes through unchanged
      ([Broker]).
    - The text layer: UTF-16 windows, UTF-8, JSON quoting and number formatting against their
      references; the split suggestion of [Ask] is the shortest in order.

    ** Fuel

    Loops that are not structural carry fuel with a theorem that it is enough: the suffix search of
    [Ids] and [Rerank] (one more than the used ids), the scan of [Matching] (two more than the
    units), the attempts of [Retry] ([max_attempts]), the digits of an integer (its bits).  The
    decoder of [Utf8] has the number of bytes, each step taking one; the matcher of [Regex] recurses on
    the pattern and needs none.  The scan of [JsonText] has twice the length of the text, the span of a
    value in [JsonEdit] twice its length and two, both proved enough; the fuel of
    [Dialect.disjunction] is the depth of groups, at most the length of the pattern.  A read of a
    frame's body has its length, each read taking a byte ([Frames.recv_chunks_stream]); refs have git's
    eight links and one.  The depth of the interpreter's stack is not modelled.

    ** What is not modelled, and why

    Parameters, because their code is not under [src/] or is a process boundary: the network
    under the HTTP clients ([Adapters.Net], which follows redirects as httpx documents), the URL parser
    and the SDK of TypeSafe, Python's [re] engine for caller patterns, what a worker process answers, the
    readers of pydantic, sockets, the clock, the random
    sample and [log2] of the retry loop, the file system ([Paths.World], with [settled] for a size
    that [stat] and the read agree on), git ([GitDiff.Git]), the process of a command
    ([Ask.CommandRun]), a hook's provider ([Hook.Wiring]), the Unicode tables
    ([PyStrings.Unicode]), [urlsplit], SHA-256, the JSON decoder and the sums of the C library.
    [Extract] takes [dialect.translate] as an argument.  Telemetry and logging only observe.  The cache
    and the in-flight semaphore of [Runtime.ask] are part of the provider parameter of the handlers;
    [Cache] models the former on its own, and [Redact] the redactor that [Retry] takes.  A caller
    timeout is not modelled: no tool passes one.  The group of tasks of [FilesJudge.handle] is the
    sequence of its asks.

    Of the installer: [tomlkit] and [tomllib] ([Documents.Tomlkit]; dates in a TOML entry are outside
    the values), [plistlib], [difflib], [repr], the metadata of the installed distribution, the names
    of temporary files ([InstallFs.Host]) and the process that checks a server are parameters; the
    directories on the way to a file are no links, and asking whether a path exists does not fail.
    The option parsers of the commands are parameters too.

    Time in [Worker] is nondeterminism: a deadline may pass at any step.  The loops of the transports
    and the writing of frames, logging, telemetry ([telemetry.py]), the schemas of the four workspace
    tools in the registry, and the requests the SDK of TypeSafe makes by itself are left out.  So are the
    threads and sockets of the broker and the shim: a connection is a sequence of pieces of bytes, and
    connections share nothing that changes.  The rest of [evals/] (the studies, their charts and scores,
    the containers they launch) and the release scripts drive live services and processes; nothing of
    the server runs through them. *)
From stdpp Require Export prelude gmap strings.
From Stdlib Require Export ZArith Lia Permutation Sorted.

(** ** Python strings

    A Python [str] is the sequence of its code points (lone surrogates included), so a text
    is a list of integers.  [u] turns an ASCII literal of the source into a text. *)
Abbreviation text := (list Z).

Definition u (s : string) : text :=
  (fun a => Z.of_N (Ascii.N_of_ascii a)) <$> String.list_ascii_of_string s.
Arguments u : simpl never.

(** One double-quote character, which the literals below cannot spell. *)
Definition dq : text := [34%Z].

(** [str(n)] of a Python int: its decimal digits, most significant first.  The fuel is the
    number of bits, which bounds the number of digits. *)
Fixpoint digits_go (fuel : nat) (n : Z) (acc : text) : text :=
  match fuel with
  | O => acc
  | S fuel' =>
    let acc' := (48 + n mod 10)%Z :: acc in
    if (n <? 10)%Z then acc' else digits_go fuel' (n / 10)%Z acc'
  end.

Definition digits (n : Z) : text := digits_go (S (Z.to_nat (Z.log2 n))) n [].

Definition str_of_Z (n : Z) : text :=
  if (n <? 0)%Z then 45%Z :: digits (- n) else digits n.
Definition str_of_nat (n : nat) : text := str_of_Z (Z.of_nat n).
Arguments str_of_Z : simpl never.
Arguments str_of_nat : simpl never.

(** [int(text)] of ASCII digits. *)
Definition is_digit (c : Z) : bool := (48 <=? c)%Z && (c <=? 57)%Z.
Definition digit_step (a c : Z) : Z := (a * 10 + (c - 48))%Z.
Definition int_of_digits (t : text) : Z := fold_left digit_step t 0%Z.

(** [sep.join(parts)]. *)
Fixpoint join (sep : text) (parts : list text) : text :=
  match parts with
  | [] => []
  | [t] => t
  | t :: parts' => t ++ sep ++ join sep parts'
  end.

(** ** Option helpers *)
Definition or_else {A} (o : option A) (d : A) : A :=
  match o with Some a => a | None => d end.

Definition is_none {A} (o : option A) : bool :=
  match o with Some _ => false | None => true end.

(** ** Results

    Python code that raises returns [Raise e]; [let?] is the sequencing of the source's
    statements. *)
Inductive result (E A : Type) : Type :=
| Ok (a : A)
| Raise (e : E).
Arguments Ok {E A} _.
Arguments Raise {E A} _.

Definition rbind {E A B} (m : result E A) (f : A -> result E B) : result E B :=
  match m with Ok a => f a | Raise e => Raise e end.

Declare Scope dev_scope.
Delimit Scope dev_scope with dev.
Notation "'let?' x := m 'in' k" := (rbind m (fun x => k))
  (at level 10, x pattern, m at level 100, k at level 200) : dev_scope.
Open Scope dev_scope.

Fixpoint rmap {E A B} (f : A -> result E B) (l : list A) : result E (list B) :=
  match l with
  | [] => Ok []
  | a :: l' => let? b := f a in let? bs := rmap f l' in Ok (b :: bs)
  end.

(** ** Insertion-ordered dictionaries

    A Python [dict] with text keys is the list of its items in insertion order; [dset] keeps the
    position of a key it overwrites, as Python does. *)
Abbreviation dict A := (list (list Z * A)).

Fixpoint dget {A} (k : text) (d : dict A) : option A :=
  match d with
  | [] => None
  | (k', v) :: d' => if bool_decide (k = k') then Some v else dget k d'
  end.

Fixpoint dset {A} (k : text) (v : A) (d : dict A) : dict A :=
  match d with
  | [] => [(k, v)]
  | (k', v') :: d' => if bool_decide (k = k') then (k', v) :: d' else (k', v') :: dset k v d'
  end.

Definition dkeys {A} (d : dict A) : list text := d.*1.
Definition dvalues {A} (d : dict A) : list A := d.*2.
Definition dhas {A} (k : text) (d : dict A) : bool := negb (is_none (dget k d)).

(** [{**d, **d'}] and [d.update(d')]. *)
Definition dmerge {A} (d d' : dict A) : dict A :=
  fold_left (fun acc kv => dset kv.1 kv.2 acc) d' d.

(** ** Stable sorting

    [sorted(l, key=..., reverse=...)] is stable: an element moves only past elements it must
    strictly precede.  [before a b] says that [a] must come strictly before [b]. *)
Section StableSort.
Context {A : Type} (before : A -> A -> bool).

Fixpoint insert_sorted (a : A) (l : list A) : list A :=
  match l with
  | [] => [a]
  | b :: l' => if before b a then b :: insert_sorted a l' else a :: l
  end.

Definition stable_sort (l : list A) : list A := foldr insert_sorted [] l.
End StableSort.

(** ** Counting and enumerating *)
Definition count_if {A} (p : A -> bool) (l : list A) : Z :=
  Z.of_nat (length (List.filter p l)).

Definition sum_Z (l : list Z) : Z := fold_right Z.add 0%Z l.

Definition sum_over {A} (f : A -> Z) (l : list A) : Z := sum_Z (f <$> l).

(** [enumerate(l)]. *)
Definition enumerate {A} (l : list A) : list (nat * A) := combine (seq 0 (length l)) l.

Definition mem {A} `{EqDecision A} (x : A) (l : list A) : bool := bool_decide (x ∈ l).

(** ** Tactics *)

(** Case analysis on every [match]/[if] scrutinee of the goal or of a hypothesis. *)
Ltac case_match_in H :=
  match type of H with context [ match ?x with _ => _ end ] => destruct x eqn:?; try discriminate end.

Ltac split_and_all :=
  repeat match goal with H : _ /\ _ |- _ => destruct H end.

(** Turn boolean connectives and decisions of the context into propositions. *)
Ltac bool_to_prop :=
  repeat match goal with
  | H : _ && _ = true |- _ => apply andb_prop in H; destruct H
  | H : _ || _ = false |- _ => apply orb_false_iff in H; destruct H
  | H : negb _ = true |- _ => apply negb_true_iff in H
  | H : negb _ = false |- _ => apply negb_false_iff in H
  | H : bool_decide _ = true |- _ => apply bool_decide_eq_true_1 in H
  | H : bool_decide _ = false |- _ => apply bool_decide_eq_false_1 in H
  | H : (_ <? _)%Z = true |- _ => apply Z.ltb_lt in H
  | H : (_ <? _)%Z = false |- _ => apply Z.ltb_ge in H
  | H : (_ <=? _)%Z = true |- _ => apply Z.leb_le in H
  | H : (_ <=? _)%Z = false |- _ => apply Z.leb_gt in H
  | H : (_ =? _)%Z = true |- _ => apply Z.eqb_eq in H
  | H : (_ =? _)%Z = false |- _ => apply Z.eqb_neq in H
  end.

(** ** Lemmas on results *)
Lemma rbind_Ok {E A B} (m : result E A) (f : A -> result E B) b :
  rbind m f = Ok b <-> exists a, m = Ok a /\ f a = Ok b.
Proof. destruct m; simpl; split; [by eauto|by intros (?&[= <-]&?)|done|by intros (?&[=]&?)]. Qed.

Lemma rbind_not_at {E A B} (m : result E A) (f : A -> result E B) e :
  m <> Raise e -> (forall a, m = Ok a -> f a <> Raise e) -> rbind m f <> Raise e.
Proof. intros Hm Hf. destruct m as [a|e']; [by apply Hf|]. intros [= ->]. by apply Hm. Qed.
Lemma rbind_not {E A B} (m : result E A) (f : A -> result E B) e : m <> Raise e -> (forall a, f a <> Raise e) -> rbind m f <> Raise e.
Proof. intros Hm Hf. by apply rbind_not_at. Qed.

Lemma rmap_Ok {E A B} (f : A -> result E B) l bs :
  rmap f l = Ok bs <-> Forall2 (fun a b => f a = Ok b) l bs.
Proof.
  revert bs; induction l as [|a l IH]; intros bs; simpl.
  - split; [intros [= <-]; constructor | by intros ->%Forall2_nil_inv_l].
  - rewrite rbind_Ok. setoid_rewrite rbind_Ok. split.
    + intros (b & Hb & bs' & Hbs' & [= <-]). constructor; [done|]. by apply IH.
    + inversion 1; subst. eexists; split; [done|]. eexists; split; [by apply IH|done].
Qed.

Lemma rmap_length {E A B} (f : A -> result E B) l bs :
  rmap f l = Ok bs -> length bs = length l.
Proof. intros H%rmap_Ok. symmetry. by eapply Forall2_length. Qed.

(** ** Lemmas on dictionaries *)
Section DictFacts.
Context {A : Type}.
Implicit Types (d : dict A) (k : text).

Lemma dget_dset_eq k v d : dget k (dset k v d) = Some v.
Proof.
  induction d as [|[k' v'] d IH]; simpl; [by rewrite bool_decide_eq_true_2|].
  case_bool_decide; simpl; [by rewrite bool_decide_eq_true_2|by rewrite bool_decide_eq_false_2].
Qed.

Lemma dget_dset_ne k k' v d : k <> k' -> dget k (dset k' v d) = dget k d.
Proof.
  intros Hne. induction d as [|[k2 v2] d IH]; simpl.
  - by rewrite bool_decide_eq_false_2.
  - case_bool_decide; simpl; repeat case_bool_decide; naive_solver.
Qed.

Lemma dget_elem k v d : dget k d = Some v -> (k, v) ∈ d.
Proof.
  induction d as [|[k' v'] d IH]; simpl; [done|].
  case_bool_decide; intros ?; [simplify_eq; left | right; auto].
Qed.

Lemma dget_None k d : dget k d = None <-> k ∉ dkeys d.
Proof.
  unfold dkeys. induction d as [|[k' v'] d IH]; simpl.
  - split; [intros _; apply not_elem_of_nil|done].
  - rewrite not_elem_of_cons. case_bool_decide; naive_solver.
Qed.

Lemma dget_is_Some k d : k ∈ dkeys d <-> exists v, dget k d = Some v.
Proof.
  destruct (dget k d) eqn:E.
  - split; [eauto|]. intros _. apply dget_elem in E. unfold dkeys.
    apply list_elem_of_fmap. by exists (k, a).
  - apply dget_None in E. naive_solver.
Qed.

Lemma dhas_spec k d : dhas k d = true <-> k ∈ dkeys d.
Proof.
  unfold dhas. rewrite dget_is_Some. destruct (dget k d); naive_solver.
Qed.

Lemma elem_dget k v d : NoDup (dkeys d) -> (k, v) ∈ d -> dget k d = Some v.
Proof.
  induction d as [|[k' v'] d IH]; simpl; [by intros _ H%elem_of_nil|].
  intros [Hni Hnd]%NoDup_cons [Heq|Hin]%elem_of_cons.
  - simplify_eq. by rewrite bool_decide_eq_true_2.
  - rewrite bool_decide_eq_false_2; [by apply IH|]. intros ->. apply Hni.
    apply list_elem_of_fmap. by exists (k', v).
Qed.

Lemma dkeys_dset k v d :
  dkeys (dset k v d) = if dhas k d then dkeys d else dkeys d ++ [k].
Proof.
  unfold dhas, dkeys. induction d as [|[k' v'] d IH]; simpl; [done|].
  case_bool_decide; simpl; [done|]. unfold fmap in IH. rewrite IH. by destruct (dget k d).
Qed.

Lemma dget_dmerge_notin k d d' : k ∉ dkeys d' -> dget k (dmerge d d') = dget k d.
Proof.
  unfold dmerge, dkeys. revert d. induction d' as [|[k' v'] d' IH]; intros d; simpl; [done|].
  rewrite not_elem_of_cons. intros [Hne Hni]. rewrite IH by done. by apply dget_dset_ne.
Qed.

Lemma NoDup_dset k v d : NoDup (dkeys d) -> NoDup (dkeys (dset k v d)).
Proof.
  intros Hnd. rewrite dkeys_dset. unfold dhas. destruct (dget k d) eqn:E; simpl; [done|].
  apply dget_None in E. apply NoDup_app. split; [done|]. split; [|apply NoDup_singleton].
  intros x Hx ->%list_elem_of_singleton. done.
Qed.

Lemma NoDup_dmerge d d' : NoDup (dkeys d) -> NoDup (dkeys (dmerge d d')).
Proof.
  unfold dmerge. revert d. induction d' as [|[k v] d' IH]; intros d Hd; simpl; [done|].
  by apply IH, NoDup_dset.
Qed.

Lemma dget_dmerge_has k v d d' :
  NoDup (dkeys d') -> dget k d' = Some v -> dget k (dmerge d d') = Some v.
Proof.
  unfold dmerge, dkeys. revert d. induction d' as [|[k' v'] d' IH]; intros d; simpl; [done|].
  intros [Hni Hnd]%NoDup_cons. case_bool_decide as Hk.
  - intros [= ->]. subst. pose proof (dget_dmerge_notin k' (dset k' v d) d' Hni) as Hm.
    unfold dmerge in Hm. rewrite Hm. apply dget_dset_eq.
  - by apply IH.
Qed.

Lemma dset_new k v d : k ∉ dkeys d -> dset k v d = d ++ [(k, v)].
Proof.
  unfold dkeys. induction d as [|[k' v'] d IH]; simpl; [done|]. intros [Hne Hni]%not_elem_of_cons.
  rewrite bool_decide_eq_false_2 by done. by rewrite IH.
Qed.

Lemma dmerge_nil_r d : dmerge d [] = d.
Proof. done. Qed.

End DictFacts.

(** ** Dictionary comprehensions

    [{f(x): g(x) for x in l}] over distinct keys is the list of its items. *)
Lemma fold_dset_app {A B} (f : B -> text) (g : B -> A) (l : list B) (acc : dict A) :
  NoDup (dkeys acc ++ (f <$> l)) ->
  fold_left (fun d x => dset (f x) (g x) d) l acc = acc ++ ((fun x => (f x, g x)) <$> l).
Proof.
  revert acc. induction l as [|x l IH]; intros acc Hnd; simpl; [by rewrite app_nil_r|].
  assert (f x ∉ dkeys acc) as Hx.
  { apply NoDup_app in Hnd as (_ & Hd & _). intros Hin. apply (Hd _ Hin). rewrite fmap_cons. left. }
  rewrite dset_new by done. rewrite IH.
  - by rewrite <- app_assoc.
  - unfold dkeys. rewrite fmap_app, <- app_assoc. exact Hnd.
Qed.

Lemma dmerge_app {A} (d d' : dict A) : NoDup (dkeys d ++ dkeys d') -> dmerge d d' = d ++ d'.
Proof.
  intros H. unfold dmerge. rewrite (fold_dset_app fst snd) by exact H. f_equal.
  clear H. induction d' as [|[k v] d' IH]; [done|]. rewrite fmap_cons. by f_equal.
Qed.

Lemma fold_dset_get {A B} (f : B -> text) (g : B -> A) (l : list B) (acc : dict A) b :
  NoDup (f <$> l) -> b ∈ l -> dget (f b) (fold_left (fun d x => dset (f x) (g x) d) l acc) = Some (g b).
Proof.
  revert acc. induction l as [|x l IH]; intros acc Hnd Hb; [by apply elem_of_nil in Hb|].
  rewrite fmap_cons in Hnd. apply NoDup_cons in Hnd as [Hni Hnd]. simpl.
  apply elem_of_cons in Hb as [->|Hb]; [|by apply IH].
  assert (forall l' acc', f x ∉ (f <$> l') ->
    dget (f x) (fold_left (fun d y => dset (f y) (g y) d) l' acc') = dget (f x) acc') as Hk.
  { clear. induction l' as [|y l' IH]; intros acc' Hn; simpl; [done|]. rewrite fmap_cons in Hn.
    apply not_elem_of_cons in Hn as [Hne Hn]. rewrite IH by done. by apply dget_dset_ne. }
  rewrite Hk by done. apply dget_dset_eq.
Qed.

(** ** Lemmas on stable sorting *)
Section StableSortFacts.
Context {A : Type} (before : A -> A -> bool).

Lemma insert_sorted_perm a l : Permutation (insert_sorted before a l) (a :: l).
Proof.
  induction l as [|b l IH]; simpl; [done|]. destruct (before b a); [|done].
  rewrite IH. apply Permutation_swap.
Qed.

Lemma stable_sort_perm l : Permutation (stable_sort before l) l.
Proof.
  induction l as [|a l IH]; simpl; [done|].
  rewrite insert_sorted_perm. by constructor.
Qed.

Lemma stable_sort_length l : length (stable_sort before l) = length l.
Proof. apply Permutation_length, stable_sort_perm. Qed.

(** The order that the output respects: no later element must precede an earlier one. *)
Definition in_order (a b : A) : Prop := before b a = false.

Context (P : A -> Prop).
Hypothesis before_trans :
  forall a b c, P a -> P b -> P c -> before b a = false -> before c b = false -> before c a = false.
Hypothesis before_asym : forall a b, P a -> P b -> before a b = true -> before b a = false.

Lemma insert_sorted_sorted a l :
  P a -> Forall P l -> StronglySorted in_order l -> StronglySorted in_order (insert_sorted before a l).
Proof.
  intros Pa. induction l as [|b l IH]; simpl; intros HP Hs.
  - repeat constructor.
  - apply Forall_cons in HP as [Pb HPl]. inversion Hs as [|? ? Hs' Hall]; subst.
    destruct (before b a) eqn:E.
    + constructor; [by apply IH|]. rewrite insert_sorted_perm. constructor; [|done].
      unfold in_order. by apply before_asym.
    + constructor; [done|]. constructor; [done|].
      apply Forall_forall. intros x Hx. unfold in_order.
      eapply (before_trans a b x); [done|done| |done|].
      * eapply Forall_forall in HPl; eauto.
      * eapply Forall_forall in Hall; eauto.
Qed.

Lemma stable_sort_sorted l : Forall P l -> StronglySorted in_order (stable_sort before l).
Proof.
  induction l as [|a l IH]; simpl; intros HP; [constructor|].
  apply Forall_cons in HP as [Pa HP].
  apply insert_sorted_sorted; [done| |by apply IH]. by rewrite stable_sort_perm.
Qed.

(** Stability: restricted to a class of elements none of which must precede another, the output
    lists the class in input order. *)
Lemma insert_sorted_stable (c : A -> bool) a l :
  (forall x y, c x = true -> c y = true -> before x y = false) ->
  List.filter c (insert_sorted before a l) = List.filter c (a :: l).
Proof.
  intros Hc. induction l as [|b l IH]; simpl; [done|].
  destruct (before b a) eqn:E; [|done]. simpl. rewrite IH. simpl.
  destruct (c b) eqn:Eb, (c a) eqn:Ea; try done. by rewrite (Hc b a) in E.
Qed.

Lemma stable_sort_stable (c : A -> bool) l :
  (forall x y, c x = true -> c y = true -> before x y = false) ->
  List.filter c (stable_sort before l) = List.filter c l.
Proof.
  intros Hc. induction l as [|a l IH]; [done|].
  simpl stable_sort. rewrite insert_sorted_stable by done. simpl. by rewrite IH.
Qed.
End StableSortFacts.

Lemma StronglySorted_weaken {A} (R R' : A -> A -> Prop) l :
  (forall a b, a ∈ l -> b ∈ l -> R a b -> R' a b) -> StronglySorted R l -> StronglySorted R' l.
Proof.
  intros Hw Hs. induction Hs as [|a l Hs IH Ha]; constructor.
  - apply IH. intros x y Hx Hy. apply Hw; by right.
  - apply Forall_forall. intros x Hx. eapply Forall_forall in Ha; [|done]. apply Hw; [left|by right|done].
Qed.

(** ** The first best element of a non-empty list *)
Section Best.
Context {A : Type} (before : A -> A -> bool) (P : A -> Prop).
Hypothesis not_before_trans :
  forall a b c, P a -> P b -> P c -> before a b = false -> before b c = false -> before a c = false.
Hypothesis before_asym : forall a b, P a -> P b -> before a b = true -> before b a = false.
Hypothesis before_irrefl : forall a, P a -> before a a = false.

Lemma fold_best first rest :
  Forall P (first :: rest) ->
  let best := fold_left (fun b a => if before a b then a else b) rest first in
  best ∈ first :: rest /\ Forall (fun a => before a best = false) (first :: rest).
Proof.
  revert first. induction rest as [|a rest IH]; intros first [Pf Pr]%Forall_cons; simpl.
  - split; [left|]. constructor; [by apply before_irrefl|constructor].
  - apply Forall_cons in Pr as [Pa Pr].
    destruct (IH (if before a first then a else first)) as [Hin Hall].
    { constructor; [by destruct (before a first)|done]. }
    set (best := fold_left _ rest _) in *.
    assert (P best) as Pb.
    { eapply Forall_forall; [|exact Hin]. constructor; [by destruct (before a first)|done]. }
    apply Forall_cons in Hall as [Hb Hall]. destruct (before a first) eqn:E; split.
    + apply elem_of_cons in Hin as [->|?]; [right; left|by do 2 right].
    + constructor; [|by constructor]. apply (not_before_trans first a best); auto.
    + apply elem_of_cons in Hin as [->|?]; [left|by do 2 right].
    + constructor; [done|]. constructor; [|done]. apply (not_before_trans a first best); auto.
Qed.
End Best.

(** ** Lemmas on counting *)
Section CountFacts.
Context {A : Type}.

Lemma count_if_cons (p : A -> bool) a l :
  count_if p (a :: l) = ((if p a then 1 else 0) + count_if p l)%Z.
Proof. unfold count_if. simpl. destruct (p a); simpl; lia. Qed.

Lemma count_if_bounds (p : A -> bool) l : (0 <= count_if p l <= Z.of_nat (length l))%Z.
Proof. induction l as [|a l IH]; [done|]. rewrite count_if_cons. simpl. destruct (p a); lia. Qed.

Lemma count_if_zero (p : A -> bool) l :
  count_if p l = 0%Z <-> Forall (fun a => p a = false) l.
Proof.
  induction l as [|a l IH]; [done|]. rewrite count_if_cons, Forall_cons.
  pose proof (count_if_bounds p l). destruct (p a); naive_solver lia.
Qed.
End CountFacts.

Lemma sum_over_cons {A} (f : A -> Z) a l : sum_over f (a :: l) = (f a + sum_over f l)%Z.
Proof. done. Qed.

Lemma sum_over_zero {A} (f : A -> Z) l : (forall a, f a = 0%Z) -> sum_over f l = 0%Z.
Proof. intros Hf. induction l as [|a l IH]; [done|]. by rewrite sum_over_cons, Hf, IH. Qed.

(** ** Lemmas on decimal digits *)
Section DigitFacts.
Open Scope Z_scope.

Lemma digits_go_parse fuel n acc :
  0 <= n < 2 ^ Z.of_nat fuel -> (0 < fuel)%nat ->
  fold_left digit_step (digits_go fuel n acc) 0 = fold_left digit_step acc n.
Proof.
  revert n acc. induction fuel as [|fuel IH]; intros n acc Hn Hf; [lia|]. simpl.
  destruct (n <? 10) eqn:E; bool_to_prop.
  - simpl. unfold digit_step at 2. rewrite Z.mod_small by lia. f_equal. lia.
  - destruct fuel as [|fuel].
    { exfalso. change (2 ^ Z.of_nat 1) with 2 in Hn. lia. }
    rewrite IH; [|split; [apply Z.div_pos; lia|]|lia].
    + simpl. f_equal. unfold digit_step.
      pose proof (Z.div_mod n 10 ltac:(lia)). lia.
    + apply Z.div_lt_upper_bound; [lia|]. rewrite Nat2Z.inj_succ, Z.pow_succ_r in Hn by lia. lia.
Qed.

Lemma int_of_digits_digits n : 0 <= n -> int_of_digits (digits n) = n.
Proof.
  intros Hn. unfold int_of_digits, digits. rewrite digits_go_parse; [done| |lia].
  split; [done|]. rewrite Nat2Z.inj_succ, Z2Nat.id by apply Z.log2_nonneg.
  destruct (Z.eq_dec n 0) as [->|]; [done|]. apply Z.log2_spec. lia.
Qed.

Lemma digits_go_digit fuel n acc :
  0 <= n -> Forall (fun c => is_digit c = true) acc ->
  Forall (fun c => is_digit c = true) (digits_go fuel n acc).
Proof.
  revert n acc. induction fuel as [|fuel IH]; intros n acc Hn Hacc; simpl; [done|].
  assert (Forall (fun c => is_digit c = true) ((48 + n mod 10) :: acc)) as Hacc'.
  { constructor; [|done]. pose proof (Z.mod_pos_bound n 10 ltac:(lia)).
    unfold is_digit. apply andb_true_intro. rewrite !Z.leb_le. lia. }
  destruct (_ <? _); [done|]. apply IH; [apply Z.div_pos; lia|done].
Qed.

Lemma digits_digit n : 0 <= n -> Forall (fun c => is_digit c = true) (digits n).
Proof. intros. by apply digits_go_digit. Qed.

Lemma digits_go_nonempty fuel n acc : acc <> [] \/ (0 < fuel)%nat -> digits_go fuel n acc <> [].
Proof.
  revert n acc. induction fuel as [|fuel IH]; intros n acc H; simpl; [naive_solver lia|].
  destruct (_ <? _); [done|]. apply IH. by left.
Qed.

Lemma digits_nonempty n : digits n <> [].
Proof. unfold digits. apply digits_go_nonempty. right. lia. Qed.

#[export] Instance str_of_Z_inj : Inj (=) (=) str_of_Z.
Proof.
  intros n m. unfold str_of_Z.
  destruct (n <? 0) eqn:En, (m <? 0) eqn:Em; bool_to_prop; intros H.
  - simplify_eq. apply (f_equal int_of_digits) in H. rewrite !int_of_digits_digits in H by lia. lia.
  - pose proof (digits_digit m ltac:(lia)) as Hd. rewrite <- H in Hd. by apply Forall_cons in Hd as [? _].
  - pose proof (digits_digit n ltac:(lia)) as Hd. rewrite H in Hd. by apply Forall_cons in Hd as [? _].
  - apply (f_equal int_of_digits) in H. by rewrite !int_of_digits_digits in H by lia.
Qed.

#[export] Instance str_of_nat_inj : Inj (=) (=) str_of_nat.
Proof. intros n m H%str_of_Z_inj. lia. Qed.

Lemma str_of_nat_digits n : str_of_nat n = digits (Z.of_nat n).
Proof. unfold str_of_nat, str_of_Z. by rewrite (proj2 (Z.ltb_ge _ _)) by lia. Qed.

Lemma int_of_str_of_nat n : int_of_digits (str_of_nat n) = Z.of_nat n.
Proof. rewrite str_of_nat_digits. apply int_of_digits_digits. lia. Qed.
End DigitFacts.

Lemma mem_spec {A} `{EqDecision A} (x : A) l : mem x l = true <-> x ∈ l.
Proof. unfold mem. apply bool_decide_eq_true. Qed.

Lemma enumerate_length {A} (l : list A) : length (enumerate l) = length l.
Proof. unfold enumerate. rewrite length_combine, length_seq. lia. Qed.

Lemma combine_S {A} (l1 : list nat) (l2 : list A) :
  combine (S <$> l1) l2 = (fun p => (S p.1, p.2)) <$> combine l1 l2.
Proof.
  revert l2. induction l1 as [|x l1 IH]; intros [|y l2]; [done..|].
  rewrite fmap_cons. simpl combine. rewrite fmap_cons. by rewrite IH.
Qed.

Lemma fmap_enumerate_cons {A B} (f : nat * A -> B) a l :
  f <$> enumerate (a :: l) = f (0%nat, a) :: ((fun p => f (S p.1, p.2)) <$> enumerate l).
Proof.
  unfold enumerate. simpl length. rewrite <- cons_seq, <- fmap_S_seq. simpl combine.
  rewrite fmap_cons, combine_S, <- list_fmap_compose. done.
Qed.

Lemma combine_fst {A B} (l : list A) (l' : list B) : length l' = length l -> (combine l l').*1 = l.
Proof. revert l'. induction l as [|a l IH]; intros [|b l'] [=]; simpl; [done|]. f_equal. by apply IH. Qed.

Lemma combine_snd {A B} (l : list A) (l' : list B) : length l' = length l -> (combine l l').*2 = l'.
Proof. revert l'. induction l as [|a l IH]; intros [|b l'] [=]; simpl; [done|]. f_equal. by apply IH. Qed.

Lemma combine_lookup {A B} (l : list A) (l' : list B) i a b :
  l !! i = Some a -> l' !! i = Some b -> combine l l' !! i = Some (a, b).
Proof.
  revert l' i. induction l as [|x l IH]; intros [|y l'] [|i] Ha Hb; try done; simpl in *; [by simplify_eq|].
  by apply IH.
Qed.

Lemma enumerate_fst {A} (l : list A) : (enumerate l).*1 = seq 0 (length l).
Proof. unfold enumerate. apply combine_fst. by rewrite length_seq. Qed.

Lemma enumerate_snd {A} (l : list A) : (enumerate l).*2 = l.
Proof. unfold enumerate. apply combine_snd. by rewrite length_seq. Qed.

Create HintDb dev.
#[export] Hint Resolve stable_sort_perm NoDup_dset : dev.

Lemma enumerate_lookup {A} (l : list A) i a : l !! i = Some a -> enumerate l !! i = Some (i, a).
Proof.
  intros Ha. apply combine_lookup; [|done]. apply (lookup_seq_lt 0). by eapply lookup_lt_Some.
Qed.

Lemma enumerate_elem {A} (l : list A) i a : (i, a) ∈ enumerate l <-> l !! i = Some a.
Proof.
  split; [|intros H; apply list_elem_of_lookup; exists i; by apply enumerate_lookup].
  intros (k & Hk)%list_elem_of_lookup.
  assert (exists b, l !! k = Some b) as [b Hb].
  { apply lookup_lt_is_Some. apply lookup_lt_Some in Hk. by rewrite enumerate_length in Hk. }
  pose proof (enumerate_lookup l k b Hb) as H. rewrite H in Hk. by injection Hk as <- <-.
Qed.
