(* ===== verification/Float64.v ===== *)
(** * Binary64 arithmetic

    Python's [float] as the IEEE binary64 numbers of the Standard Library's [SpecFloat]
    (precision 53, maximal exponent 1024, round to nearest even, one NaN).  Everything is pure
    integer arithmetic, so thresholds such as [0.01 + 1e-12] are the exact doubles the program
    compares against, and every comparison computes.  The theorems establish the order laws the
    policy proofs use: comparisons away from NaN form a total preorder. *)
From S2P Require Import Prelude.
From Stdlib Require Export SpecFloat.
Open Scope Z_scope.

Abbreviation float := spec_float.
Definition prec : Z := 53.
Definition emax : Z := 1024.

(** ** Construction *)

(** [float(n)] of an int: the nearest double, infinite past the range. *)
Definition f_of_Z (n : Z) : float := binary_normalize prec emax n 0 false.

(** The double nearest to [n / d]: how a decimal literal or decimal text is read. *)
Definition f_ratio (n : Z) (d : positive) : float :=
  match n with
  | 0 => S754_zero false
  | Zpos p => SFdiv prec emax (S754_finite false p 0) (S754_finite false d 0)
  | Zneg p => SFdiv prec emax (S754_finite true p 0) (S754_finite false d 0)
  end.

Definition f_zero : float := S754_zero false.
Definition f_one : float := f_of_Z 1.
Definition f_inf : float := S754_infinity false.

(** ** Arithmetic *)
Definition fadd : float -> float -> float := SFadd prec emax.
Definition fsub : float -> float -> float := SFsub prec emax.
Definition fmul : float -> float -> float := SFmul prec emax.
Definition fdiv : float -> float -> float := SFdiv prec emax.
Definition fabs : float -> float := SFabs.

(** ** Comparison and classification *)
Definition feqb : float -> float -> bool := SFeqb.
Definition fltb : float -> float -> bool := SFltb.
Definition fleb : float -> float -> bool := SFleb.
Definition fgeb (x y : float) : bool := fleb y x.
Definition fgtb (x y : float) : bool := fltb y x.

(** [math.isnan], [math.isfinite]. *)
Definition is_nan (x : float) : bool := match x with S754_nan => true | _ => false end.
Definition is_finite (x : float) : bool :=
  match x with S754_zero _ | S754_finite _ _ _ => true | _ => false end.

(** Python's two-argument [max]/[min] keep the first argument unless the second is strictly
    greater/smaller. *)
Definition py_max (x y : float) : float := if fgtb y x then y else x.
Definition py_min (x y : float) : float := if fltb y x then y else x.

(** [max(values)] of a non-empty sequence, [min(values)] likewise: the first extremum. *)
Definition max_list (x : float) (l : list float) : float := fold_left py_max l x.
Definition min_list (x : float) (l : list float) : float := fold_left py_min l x.

(** A finite double is [num / den] exactly, up to its sign. *)
Definition fsign (x : float) : bool :=
  match x with
  | S754_zero s | S754_infinity s | S754_finite s _ _ => s
  | S754_nan => false
  end.

Definition fratio (x : float) : Z * Z :=
  match x with
  | S754_finite _ m e =>
    if 0 <=? e then (Zpos m * 2 ^ e, 1) else (Zpos m, 2 ^ (- e))
  | _ => (0, 1)
  end.

(** The integer nearest to [num / den], ties to even: how Python's [round] and its formats round the exact
    value of a double. *)
Definition round_half_even (num den : Z) : Z :=
  let q := num / den in
  match 2 * (num mod den) ?= den with
  | Lt => q
  | Gt => q + 1
  | Eq => if Z.even q then q else q + 1
  end.

(** [f"{x:.2f}"] of a finite double. *)
Definition fixed2 (x : float) : text :=
  let '(num, den) := fratio x in
  let n := round_half_even (num * 100) den in
  (if fsign x then u "-" else []) ++ digits (n / 100) ++ u "." ++ [48 + n / 10 mod 10; 48 + n mod 10].

(** ** The order behind the comparisons

    [fkey] sends a non-NaN double to a triple compared lexicographically. *)
Definition fkey (x : float) : Z * Z * Z :=
  match x with
  | S754_nan => (3, 0, 0)
  | S754_infinity s => (if s then -2 else 2, 0, 0)
  | S754_zero _ => (0, 0, 0)
  | S754_finite false m e => (1, e, Zpos m)
  | S754_finite true m e => (-1, - e, Zneg m)
  end.

Definition klt (a b : Z * Z * Z) : Prop :=
  a.1.1 < b.1.1 \/ (a.1.1 = b.1.1 /\ (a.1.2 < b.1.2 \/ (a.1.2 = b.1.2 /\ a.2 < b.2))).

Definition knum (x : float) : Prop := is_nan x = false.

#[export] Instance float_eq_dec : EqDecision float.
Proof. solve_decision. Defined.

Lemma fltb_key x y : knum x -> knum y -> fltb x y = true <-> klt (fkey x) (fkey y).
Proof.
  unfold knum, fltb, SFltb, klt.
  destruct x as [[]|[]| |[] m e], y as [[]|[]| |[] m' e']; simpl; try done; intros _ _;
    try (split; [done|lia]); try (split; [lia|done]);
    change (Pos.compare_cont Eq m m') with (Pos.compare m m');
    destruct (Z.compare_spec e e'); try (split; [done|lia]); try (split; [lia|done]);
    destruct (Pos.compare_spec m m'); simpl; split; try done; lia.
Qed.

Lemma fleb_key x y : knum x -> knum y -> fleb x y = true <-> ~ klt (fkey y) (fkey x).
Proof.
  unfold knum, fleb, SFleb, klt.
  destruct x as [[]|[]| |[] m e], y as [[]|[]| |[] m' e']; simpl; try done; intros _ _;
    try (split; [done|lia]); try (split; [lia|done]);
    change (Pos.compare_cont Eq m m') with (Pos.compare m m');
    destruct (Z.compare_spec e e'); try (split; [done|lia]); try (split; [lia|done]);
    destruct (Pos.compare_spec m m'); simpl; split; try done; lia.
Qed.

Lemma fleb_num x y : fleb x y = true -> knum x /\ knum y.
Proof. by destruct x as [[]|[]| |[] m e], y as [[]|[]| |[] m' e']. Qed.

Lemma fltb_num x y : fltb x y = true -> knum x /\ knum y.
Proof. by destruct x as [[]|[]| |[] m e], y as [[]|[]| |[] m' e']. Qed.

Lemma finite_num x : is_finite x = true -> knum x.
Proof. by destruct x. Qed.

(** ** Order laws *)
Lemma fltb_irrefl x : fltb x x = false.
Proof.
  destruct (is_nan x) eqn:N; [by destruct x|].
  apply not_true_is_false. rewrite fltb_key by done. unfold klt. lia.
Qed.

Lemma fleb_refl x : knum x -> fleb x x = true.
Proof. intros. rewrite fleb_key by done. unfold klt. lia. Qed.

Lemma fleb_trans x y z : fleb x y = true -> fleb y z = true -> fleb x z = true.
Proof.
  intros H1 H2. destruct (fleb_num _ _ H1), (fleb_num _ _ H2).
  rewrite fleb_key in * by done. unfold klt in *. lia.
Qed.

Lemma fltb_fleb_trans x y z : fltb x y = true -> fleb y z = true -> fltb x z = true.
Proof.
  intros H1 H2. destruct (fltb_num _ _ H1), (fleb_num _ _ H2).
  rewrite fltb_key in * by done. rewrite fleb_key in * by done. unfold klt in *. lia.
Qed.

Lemma fleb_fltb_trans x y z : fleb x y = true -> fltb y z = true -> fltb x z = true.
Proof.
  intros H1 H2. destruct (fleb_num _ _ H1), (fltb_num _ _ H2).
  rewrite fltb_key in * by done. rewrite fleb_key in * by done. unfold klt in *. lia.
Qed.

Lemma fltb_fleb x y : fltb x y = true -> fleb x y = true.
Proof.
  intros H. destruct (fltb_num _ _ H).
  rewrite fltb_key in H by done. rewrite fleb_key by done. unfold klt in *. lia.
Qed.

Lemma fltb_trans x y z : fltb x y = true -> fltb y z = true -> fltb x z = true.
Proof. intros H1 H2%fltb_fleb. by eapply fltb_fleb_trans. Qed.

(** Away from NaN, "not less" is "at least"; with NaN both fail. *)
Lemma fltb_false x y : knum x -> knum y -> fltb x y = false <-> fleb y x = true.
Proof.
  intros. rewrite fleb_key, <- not_true_iff_false, fltb_key by done. done.
Qed.

Lemma fleb_negb x y : knum x -> knum y -> fleb y x = negb (fltb x y).
Proof.
  intros. destruct (fltb x y) eqn:E; simpl; [|by apply fltb_false].
  apply not_true_iff_false. intros Hle. apply fltb_key in E; [|done|done]. by apply fleb_key in Hle.
Qed.

Lemma fleb_false x y : knum x -> knum y -> fleb x y = false <-> fltb y x = true.
Proof.
  intros. rewrite fltb_key, <- not_true_iff_false, fleb_key by done. unfold klt. lia.
Qed.

Lemma fltb_fleb_absurd x y : fltb x y = true -> fleb y x = false.
Proof.
  intros H. destruct (fltb_num _ _ H). by apply fleb_false.
Qed.

Lemma fleb_fltb_absurd x y : fleb x y = true -> fltb y x = false.
Proof.
  intros H. destruct (fleb_num _ _ H). by apply fltb_false.
Qed.

Lemma feqb_spec x y : feqb x y = fleb x y && fleb y x.
Proof.
  destruct (is_nan x) eqn:N; [by destruct x|]. destruct (is_nan y) eqn:N'; [by destruct x, y|].
  unfold feqb, fleb, SFeqb, SFleb.
  destruct x as [[]|[]| |[] m e], y as [[]|[]| |[] m' e']; simpl; try done;
    change (Pos.compare_cont Eq m m') with (Pos.compare m m');
    change (Pos.compare_cont Eq m' m) with (Pos.compare m' m);
    rewrite (Z.compare_antisym e e'), (Pos.compare_antisym m m');
    destruct (Z.compare e e'), (Pos.compare m m'); done.
Qed.

(** ** Extrema *)
Lemma py_max_ub_l x y : knum x -> fleb x (py_max x y) = true.
Proof.
  intros. unfold py_max, fgtb. destruct (fltb x y) eqn:E; [by apply fltb_fleb|by apply fleb_refl].
Qed.

Lemma py_max_ub_r x y : knum x -> knum y -> fleb y (py_max x y) = true.
Proof.
  intros. unfold py_max, fgtb. destruct (fltb x y) eqn:E; [by apply fleb_refl|].
  by apply fltb_false.
Qed.

Lemma py_max_case x y : py_max x y = x \/ py_max x y = y.
Proof. unfold py_max. destruct (fgtb y x); auto. Qed.

Lemma py_min_case x y : py_min x y = x \/ py_min x y = y.
Proof. unfold py_min. destruct (fltb y x); auto. Qed.

Lemma py_min_lb_l x y : knum x -> fleb (py_min x y) x = true.
Proof.
  intros. unfold py_min. destruct (fltb y x) eqn:E; [by apply fltb_fleb|by apply fleb_refl].
Qed.

Lemma py_min_lb_r x y : knum x -> knum y -> fleb (py_min x y) y = true.
Proof.
  intros. unfold py_min. destruct (fltb y x) eqn:E; [by apply fleb_refl|].
  by apply fltb_false.
Qed.

Lemma max_list_spec x l :
  Forall knum (x :: l) ->
  max_list x l ∈ x :: l /\ Forall (fun y => fleb y (max_list x l) = true) (x :: l).
Proof.
  revert x. induction l as [|y l IH]; intros x; rewrite !Forall_cons; simpl.
  - intros [Hx _]. split; [left|]. split; [by apply fleb_refl|constructor].
  - intros [Hx [Hy Hl]]. change (max_list x (y :: l)) with (max_list (py_max x y) l).
    assert (knum (py_max x y)) as Hxy by (destruct (py_max_case x y) as [-> | ->]; done).
    destruct (IH (py_max x y)) as [Hin [Hle Hall]%Forall_cons]; [by constructor|].
    split.
    + apply elem_of_cons in Hin as [Hin|Hin]; [|by do 2 right].
      rewrite Hin. destruct (py_max_case x y) as [-> | ->]; [left|right; left].
    + split; [|split]; [| |done].
      * eapply fleb_trans; [by apply (py_max_ub_l x y)|done].
      * eapply fleb_trans; [by apply (py_max_ub_r x y)|done].
Qed.

Lemma min_list_spec x l :
  Forall knum (x :: l) ->
  min_list x l ∈ x :: l /\ Forall (fun y => fleb (min_list x l) y = true) (x :: l).
Proof.
  revert x. induction l as [|y l IH]; intros x; rewrite !Forall_cons; simpl.
  - intros [Hx _]. split; [left|]. split; [by apply fleb_refl|constructor].
  - intros [Hx [Hy Hl]]. change (min_list x (y :: l)) with (min_list (py_min x y) l).
    assert (knum (py_min x y)) as Hxy by (destruct (py_min_case x y) as [-> | ->]; done).
    destruct (IH (py_min x y)) as [Hin [Hle Hall]%Forall_cons]; [by constructor|].
    split.
    + apply elem_of_cons in Hin as [Hin|Hin]; [|by do 2 right].
      rewrite Hin. destruct (py_min_case x y) as [-> | ->]; [left|right; left].
    + split; [|split]; [| |done].
      * eapply fleb_trans; [done|by apply (py_min_lb_l x y)].
      * eapply fleb_trans; [done|by apply (py_min_lb_r x y)].
Qed.

(** ** The exact value of a finite double *)
Lemma fratio_pos x : 0 <= (fratio x).1 /\ 0 < (fratio x).2.
Proof.
  destruct x as [| | |s m e]; simpl; try lia. destruct (0 <=? e) eqn:E; bool_to_prop; simpl.
  - split; [|lia]. apply Z.mul_nonneg_nonneg; [lia|]. apply Z.pow_nonneg. lia.
  - split; [lia|]. apply Z.pow_pos_nonneg; lia.
Qed.

(** ** Rounding keeps the sign and never makes a NaN *)

(** A double of sign [s] that is a number. *)
Definition signed (s : bool) (x : float) : Prop := knum x /\ fsign x = s.

Lemma shr_1_nonneg mrs : 0 <= shr_m mrs -> 0 <= shr_m (shr_1 mrs).
Proof. destruct mrs as [[|[p|p|]|p] r s]; simpl; lia. Qed.

Lemma iter_pos_inv {A} (P : A -> Prop) (f : A -> A) n x :
  (forall y, P y -> P (f y)) -> P x -> P (iter_pos f n x).
Proof. intros Hf. revert x. induction n; simpl; auto. Qed.

Lemma shr_nonneg mrs e n : 0 <= shr_m mrs -> 0 <= shr_m (shr mrs e n).1.
Proof.
  intros H. destruct n; simpl; try done.
  apply (iter_pos_inv (fun r => 0 <= shr_m r)); [apply shr_1_nonneg|done].
Qed.

Lemma shr_fexp_nonneg m e l : 0 <= m -> 0 <= shr_m (shr_fexp prec emax m e l).1.
Proof. intros H. apply shr_nonneg. destruct l as [|[]]; done. Qed.

Lemma round_nearest_even_nonneg m l : 0 <= m -> 0 <= round_nearest_even m l.
Proof. destruct l as [|[]]; simpl; try destruct (Z.even m); lia. Qed.

Lemma binary_round_aux_signed s m e l : 0 <= m -> signed s (binary_round_aux prec emax s m e l).
Proof.
  intros H. unfold binary_round_aux.
  pose proof (shr_fexp_nonneg m e l H) as H1.
  destruct (shr_fexp prec emax m e l) as [r1 e1]. simpl in H1.
  pose proof (shr_fexp_nonneg _ e1 loc_Exact
    (round_nearest_even_nonneg _ (loc_of_shr_record r1) H1)) as H2.
  destruct (shr_fexp prec emax _ e1 loc_Exact) as [r2 e2]. simpl in H2.
  destruct (shr_m r2); [done|destruct (_ <=? _); done|lia].
Qed.

Lemma binary_round_signed s m e : signed s (binary_round prec emax s m e).
Proof.
  unfold binary_round. destruct (shl_align m e _). by apply binary_round_aux_signed.
Qed.

Lemma binary_normalize_signed m e : 0 <= m -> signed false (binary_normalize prec emax m e false).
Proof. destruct m; simpl; intros; [done|apply binary_round_signed|lia]. Qed.

Lemma binary_normalize_num m e s : knum (binary_normalize prec emax m e s).
Proof. destruct m; simpl; [done|apply binary_round_signed..]. Qed.

Lemma f_of_Z_num n : knum (f_of_Z n).
Proof. apply binary_normalize_num. Qed.

(** Non-negative means: a number, zero or positive. *)
Definition nonneg (x : float) : bool := fleb f_zero x.

Lemma nonneg_signed x : signed false x -> nonneg x = true.
Proof. by destruct x as [[]|[]| |[] m e]; intros []. Qed.

Lemma nonneg_cases x :
  nonneg x = true -> (exists s, x = S754_zero s) \/ x = S754_infinity false \/
    exists m e, x = S754_finite false m e.
Proof. destruct x as [[]|[]| |[] m e]; simpl; try done; eauto. Qed.

Lemma fadd_nonneg x y : nonneg x = true -> nonneg y = true -> nonneg (fadd x y) = true.
Proof.
  intros Hx Hy.
  destruct (nonneg_cases x Hx) as [[s ->]|[->|(m & e & ->)]], (nonneg_cases y Hy) as [[s' ->]|[->|(m' & e' & ->)]];
    try done; try (by destruct s, s').
  apply nonneg_signed. apply binary_normalize_signed. simpl. lia.
Qed.

Lemma fmul_nonneg x y :
  nonneg x = true -> nonneg y = true -> is_finite x = true -> is_finite y = true ->
  nonneg (fmul x y) = true.
Proof.
  intros Hx Hy.
  destruct (nonneg_cases x Hx) as [[s ->]|[->|(m & e & ->)]], (nonneg_cases y Hy) as [[s' ->]|[->|(m' & e' & ->)]]; try done.
  intros _ _. apply nonneg_signed. by apply binary_round_aux_signed.
Qed.

Lemma fsub_num x y : knum x -> is_finite y = true -> knum (fsub x y).
Proof.
  destruct x as [[]|[]| |[] m e], y as [[]|[]| |[] m' e']; try done; intros _ _;
    apply binary_normalize_num.
Qed.

Lemma fabs_nonneg x : knum x -> nonneg (fabs x) = true.
Proof. by destruct x as [[]|[]| |[] m e]. Qed.

Lemma nonneg_num x : nonneg x = true -> knum x.
Proof. by intros []%fleb_num. Qed.

(** ** The unit interval *)

(** A finite double in [0, 1]. *)
Definition in_unit (p : float) : Prop :=
  is_finite p = true /\ fleb f_zero p = true /\ fleb p f_one = true.

Lemma in_unit_nonneg p : in_unit p -> nonneg p = true.
Proof. by intros (_ & H & _). Qed.

Lemma in_unit_num p : in_unit p -> knum p.
Proof. intros (H & _). by apply finite_num. Qed.

Lemma unit_of_bounds p : fleb f_zero p = true -> fleb p f_one = true -> in_unit p.
Proof. intros H0 H1. split; [|done]. by destruct p as [[]|[]| |[] m e]. Qed.

Lemma fdiv_nonneg x m e :
  nonneg x = true -> is_finite x = true -> nonneg (fdiv x (S754_finite false m e)) = true.
Proof.
  intros Hx Fx. destruct (nonneg_cases x Hx) as [[s ->]|[->|(m' & e' & ->)]]; [by destruct s|done|].
  apply nonneg_signed. unfold fdiv, SFdiv, SFdiv_core_binary. simpl.
  match goal with |- context [Z.div_eucl ?a ?b] => pose proof (Z_div_mod a b ltac:(lia)) as Hd;
    assert (0 <= a) as Ha; [|destruct (Z.div_eucl a b) as [q r]] end.
  { destruct (_ - _) as [|p|p] eqn:E; [lia| |lia]. apply Z.shiftl_nonneg. lia. }
  apply binary_round_aux_signed. destruct Hd as [Heq Hr]. nia.
Qed.

(** ** Canonical doubles: the exponent order is the value order *)
Definition canonical (x : float) : bool := valid_binary prec emax x.

Lemma digits2_pos_bounds m : 2 ^ (Z.pos (digits2_pos m) - 1) <= Z.pos m < 2 ^ Z.pos (digits2_pos m).
Proof.
  induction m as [m IH|m IH|]; simpl digits2_pos; [| |done].
  all: rewrite Pos2Z.inj_succ, Z.pow_succ_r by lia.
  all: replace (Z.succ (Z.pos (digits2_pos m)) - 1) with (Z.succ (Z.pos (digits2_pos m) - 1)) by lia.
  all: rewrite Z.pow_succ_r by lia; lia.
Qed.

Lemma bounded_mantissa m e : bounded prec emax m e = true -> Z.pos m < 2 ^ 53.
Proof.
  unfold bounded, canonical_mantissa, fexp, emin. intros H. bool_to_prop.
  pose proof (digits2_pos_bounds m) as [_ Hm]. unfold prec, emax in *.
  eapply Z.lt_le_trans; [done|]. apply Z.pow_le_mono_r; lia.
Qed.

Lemma bounded_normal m e m' e' :
  bounded prec emax m e = true -> bounded prec emax m' e' = true -> e < e' -> 2 ^ 52 <= Z.pos m'.
Proof.
  unfold bounded, canonical_mantissa, fexp, emin. intros H H' Hlt. bool_to_prop.
  pose proof (digits2_pos_bounds m') as [Hm _]. unfold prec, emax in *.
  eapply Z.le_trans; [|done]. apply Z.pow_le_mono_r; lia.
Qed.

(** The mantissas of two canonical positive doubles, aligned, are ordered as the doubles are. *)
Lemma aligned_le m e m' e' :
  bounded prec emax m e = true -> bounded prec emax m' e' = true ->
  fleb (S754_finite false m e) (S754_finite false m' e') = true ->
  Z.pos m * 2 ^ (e - Z.min e e') <= Z.pos m' * 2 ^ (e' - Z.min e e').
Proof.
  intros Hb Hb' Hle. apply fleb_key in Hle; [|done|done]. unfold klt in Hle. simpl in Hle.
  destruct (Z.lt_trichotomy e e') as [Hlt|[->|Hgt]].
  - rewrite Z.min_l, Z.sub_diag by lia. change (2 ^ 0) with 1.
    pose proof (bounded_mantissa m e Hb). pose proof (bounded_normal m e m' e' Hb Hb' Hlt).
    assert (2 ^ 1 <= 2 ^ (e' - e)) by (apply Z.pow_le_mono_r; lia).
    change (2 ^ 53) with (2 ^ 52 * 2) in *. nia.
  - rewrite Z.min_id, Z.sub_diag. lia.
  - lia.
Qed.

Lemma shl_align_fst m e e' : e' <= e -> Z.pos (fst (shl_align m e e')) = Z.pos m * 2 ^ (e - e').
Proof.
  intros H. unfold shl_align. destruct (e' - e) as [|p|p] eqn:E; [|lia|].
  - replace (e - e') with 0 by lia. simpl. lia.
  - replace (e - e') with (Z.pos p) by lia. simpl.
    assert (forall n x, Z.pos (Pos.iter xO x n) = Z.pos x * 2 ^ Z.pos n) as Hiter; [|apply Hiter].
    clear. induction n as [|n IH] using Pos.peano_ind; intros x; [simpl; lia|].
    rewrite Pos.iter_succ, Pos2Z.inj_succ, Z.pow_succ_r by lia.
    change (Z.pos (Pos.iter xO x n)~0) with (2 * Z.pos (Pos.iter xO x n)). rewrite IH. lia.
Qed.

Lemma fsub_nonneg x y :
  canonical x = true -> canonical y = true -> is_finite x = true -> is_finite y = true ->
  nonneg y = true -> fleb y x = true -> nonneg (fsub x y) = true.
Proof.
  intros Cx Cy Fx Fy Hy Hle.
  assert (nonneg x = true) as Hx by (by eapply fleb_trans).
  destruct (nonneg_cases x Hx) as [[s ->]|[->|(m & e & ->)]], (nonneg_cases y Hy) as [[s' ->]|[->|(m' & e' & ->)]]; try done.
  - by destruct s, s'.
  - apply nonneg_signed. apply binary_normalize_signed. simpl.
    pose proof (aligned_le m' e' m e Cy Cx Hle) as Ha. rewrite Z.min_comm in Ha.
    rewrite <- !shl_align_fst in Ha by lia. lia.
Qed.

#[export] Hint Resolve fleb_refl fltb_fleb finite_num fltb_fleb_absurd fleb_fltb_absurd : dev.
#[export] Hint Resolve py_max_ub_l py_max_ub_r py_min_lb_l py_min_lb_r : dev.
