(* ===== verification/Text.v ===== *)
(** * Text measured in UTF-16 units

    Models [text.py] ([length], [truncate], [head]) and the unit-space conversions of
    [extract/dialect.py] ([to_units], [from_units]).  A text is a list of code points; a UTF-16
    unit is an integer below 2^16.  The main result is that [head] is JavaScript's
    [text.slice(0, n)] on the unit sequence, except that a split surrogate pair is dropped. *)
From S2P Require Import Prelude.
Open Scope Z_scope.

Module Utf16.

(** ** Code points and units *)
Definition is_high (c : Z) : bool := (0xD800 <=? c) && (c <? 0xDC00).
Definition is_low (c : Z) : bool := (0xDC00 <=? c) && (c <? 0xE000).
Definition is_code_point (c : Z) : bool := (0 <=? c) && (c <=? 0x10FFFF).
Definition is_unit (c : Z) : bool := (0 <=? c) && (c <=? 0xFFFF).

Definition cp_units (c : Z) : Z := if 0xFFFF <? c then 2 else 1.

(** The units of one code point: itself, or its surrogate pair. *)
Definition cp_to_units (c : Z) : list Z :=
  if 0xFFFF <? c then
    [0xD800 + Z.shiftr (c - 0x10000) 10; 0xDC00 + Z.land (c - 0x10000) 0x3FF]
  else [c].

Arguments cp_to_units : simpl never.

Definition to_units (t : text) : list Z := concat (cp_to_units <$> t).

Definition join_pair (h l : Z) : Z := 0x10000 + Z.shiftl (h - 0xD800) 10 + (l - 0xDC00).

Fixpoint from_units (us : list Z) : text :=
  match us with
  | [] => []
  | h :: us' =>
    match us' with
    | l :: us'' => if is_high h && is_low l then join_pair h l :: from_units us'' else h :: from_units us'
    | [] => [h]
    end
  end.

(** ** text.py *)

(** The number of UTF-16 code units. *)
Definition length (t : text) : Z := sum_Z (cp_units <$> t).

(** The loop of [head]: how many leading characters fit in [max_units] when [units] are used. *)
Fixpoint head_cut (max_units units : Z) (t : text) : nat :=
  match t with
  | [] => 0
  | c :: t' =>
    let units' := units + cp_units c in
    if max_units <? units' then 0 else S (head_cut max_units units' t')
  end.

Definition head (t : text) (max_units : Z) : text :=
  let cut := head_cut max_units 0 t in
  let result := take cut t in
  match last result, t !! cut with
  | Some h, Some l => if is_high h && is_low l then removelast result else result
  | _, _ => result
  end.

(** [" […truncated]"]. *)
Definition TRUNCATION_MARKER : text := u " [" ++ [0x2026] ++ u "truncated]".

Definition truncate (t : text) (max_units : Z) : text :=
  if length t <=? max_units then t else head t max_units ++ TRUNCATION_MARKER.

(** ** The reference: JavaScript's slice on units *)
Definition js_slice (n : nat) (us : list Z) : list Z := take n us.

(** The slice without a high surrogate whose low half the cut removed. *)
Definition slice_whole (n : nat) (us : list Z) : list Z :=
  let s := js_slice n us in
  match last s, us !! n with
  | Some h, Some l => if is_high h && is_low l then removelast s else s
  | _, _ => s
  end.

(** ** Facts *)
Lemma cp_units_pos c : 1 <= cp_units c <= 2.
Proof. unfold cp_units. destruct (_ <? _); lia. Qed.

Lemma cp_to_units_length c : Z.of_nat (List.length (cp_to_units c)) = cp_units c.
Proof. unfold cp_to_units, cp_units. by destruct (_ <? _). Qed.

Lemma length_nil : length [] = 0.
Proof. done. Qed.

Lemma length_cons c t : length (c :: t) = cp_units c + length t.
Proof. done. Qed.

Lemma length_app t t' : length (t ++ t') = length t + length t'.
Proof. induction t; [done|]. simpl. rewrite !length_cons. lia. Qed.

Lemma length_nonneg t : 0 <= length t.
Proof. induction t as [|c t IH]; [done|]. rewrite length_cons. pose proof (cp_units_pos c). lia. Qed.

Lemma length_lower t : Z.of_nat (List.length t) <= length t.
Proof.
  induction t as [|c t IH]; [done|]. rewrite length_cons. pose proof (cp_units_pos c). simpl. lia.
Qed.

Lemma to_units_cons c t : to_units (c :: t) = cp_to_units c ++ to_units t.
Proof. done. Qed.

Lemma to_units_one c : to_units [c] = cp_to_units c.
Proof. unfold to_units. simpl. apply app_nil_r. Qed.

Lemma to_units_app t t' : to_units (t ++ t') = to_units t ++ to_units t'.
Proof. unfold to_units. by rewrite fmap_app, concat_app. Qed.

Lemma to_units_length t : Z.of_nat (List.length (to_units t)) = length t.
Proof.
  induction t as [|c t IH]; [done|].
  rewrite to_units_cons, List.length_app, Nat2Z.inj_add, IH, cp_to_units_length. done.
Qed.

(** The pair of an astral code point is a high then a low surrogate. *)
Lemma astral_units c :
  0xFFFF < c <= 0x10FFFF ->
  exists h l, cp_to_units c = [h; l] /\ is_high h = true /\ is_low l = true /\ join_pair h l = c.
Proof.
  intros Hc. unfold cp_to_units. replace (0xFFFF <? c) with true by (symmetry; apply Z.ltb_lt; lia).
  do 2 eexists. split; [done|].
  rewrite Z.shiftr_div_pow2 by lia.
  change 0x3FF with (Z.ones 10). rewrite Z.land_ones by lia.
  assert (0 <= (c - 0x10000) / 2 ^ 10 < 0x400) as Hd.
  { split; [apply Z.div_pos; lia|]. apply Z.div_lt_upper_bound; lia. }
  pose proof (Z.mod_pos_bound (c - 0x10000) (2 ^ 10) ltac:(lia)) as Hm.
  pose proof (Z.div_mod (c - 0x10000) (2 ^ 10) ltac:(lia)) as Hdm.
  unfold is_high, is_low, join_pair. rewrite Z.shiftl_mul_pow2 by lia.
  change (2 ^ 10) with 1024 in *.
  split; [|split]; [apply andb_true_intro; split..|].
  all: rewrite ?Z.leb_le, ?Z.ltb_lt; lia.
Qed.

Lemma bmp_units c : c <= 0xFFFF -> cp_to_units c = [c].
Proof. intros H. unfold cp_to_units. by replace (0xFFFF <? c) with false by (symmetry; apply Z.ltb_ge; lia). Qed.

(** ** The cut of [head] *)
Lemma head_cut_fits n k t :
  k <= n -> k + length (take (head_cut n k t) t) <= n.
Proof.
  revert k; induction t as [|c t IH]; intros k Hk; simpl; [rewrite length_nil; lia|].
  destruct (n <? k + cp_units c) eqn:E; bool_to_prop; simpl; [rewrite length_nil; lia|].
  rewrite length_cons. specialize (IH (k + cp_units c) ltac:(lia)). lia.
Qed.

Lemma head_cut_maximal n k t c :
  t !! head_cut n k t = Some c -> n < k + length (take (head_cut n k t) t) + cp_units c.
Proof.
  revert k; induction t as [|c' t IH]; intros k; simpl; [done|].
  destruct (n <? k + cp_units c') eqn:E; bool_to_prop; simpl.
  - intros [= ->]. rewrite length_nil. lia.
  - intros H%IH. rewrite length_cons. lia.
Qed.

Lemma head_cut_all n k t : k + length t <= n -> head_cut n k t = List.length t.
Proof.
  revert k; induction t as [|c t IH]; intros k; simpl; [done|].
  rewrite length_cons. pose proof (length_nonneg t). intros.
  replace (n <? k + cp_units c) with false by (symmetry; apply Z.ltb_ge; lia).
  f_equal. apply IH. lia.
Qed.

Lemma removelast_prefix {A} (l : list A) : removelast l `prefix_of` l.
Proof.
  induction l as [|a l IH]; [done|]. destruct l as [|b l]; [by exists [a]|].
  change (removelast (a :: b :: l)) with (a :: removelast (b :: l)). by apply prefix_cons.
Qed.

Lemma head_prefix t n : head t n `prefix_of` t.
Proof.
  unfold head. set (r := take _ t).
  assert (r `prefix_of` t) by (exists (drop (head_cut n 0 t) t); symmetry; apply take_drop).
  destruct (last r), (t !! head_cut n 0 t); try done. destruct (_ && _); [|done].
  etrans; [apply removelast_prefix|done].
Qed.

Lemma last_snoc_inv {A} (l : list A) a : last l = Some a -> l = removelast l ++ [a].
Proof.
  intros H. destruct l as [|b l' _] using rev_ind; [done|].
  rewrite last_snoc in H. simplify_eq. by rewrite removelast_last.
Qed.

Lemma high_units c : is_high c = true -> cp_to_units c = [c].
Proof.
  unfold is_high. intros H. bool_to_prop. unfold cp_to_units.
  by replace (0xFFFF <? c) with false by (symmetry; apply Z.ltb_ge; lia).
Qed.

Lemma high_not_low c : is_high c = true -> is_low c = false.
Proof.
  unfold is_high, is_low. intros H. bool_to_prop. apply andb_false_iff. left. apply Z.leb_gt. lia.
Qed.

(** The last unit of a text: a high surrogate only when its last code point is one. *)
Lemma last_units t h :
  Forall (fun c => is_code_point c = true) t ->
  last (to_units t) = Some h -> is_high h = true -> last t = Some h.
Proof.
  destruct t as [|c t' _] using rev_ind; [done|].
  rewrite Forall_app, Forall_singleton. intros [_ Hc].
  rewrite to_units_app, last_snoc. intros Hl Hh.
  rewrite to_units_one in Hl.
  unfold is_code_point in Hc. bool_to_prop.
  destruct (decide (c <= 0xFFFF)).
  - rewrite bmp_units in Hl by done. by rewrite last_snoc in Hl.
  - destruct (astral_units c) as (h' & l & Hu & _ & Hlow & _); [lia|].
    rewrite Hu, (app_assoc _ [h'] [l]), last_snoc in Hl. simplify_eq.
    by rewrite high_not_low in Hlow.
Qed.

(** What surrounds the cut: the kept units, and the next unit of the sequence. *)
Lemma units_at_cut n t :
  0 <= n -> n < length t ->
  exists c rest, t !! head_cut n 0 t = Some c /\ t = take (head_cut n 0 t) t ++ c :: rest /\
    (length (take (head_cut n 0 t) t) = n \/
     (length (take (head_cut n 0 t) t) = n - 1 /\ 0xFFFF < c)).
Proof.
  intros H0 Hn. destruct (t !! head_cut n 0 t) as [c|] eqn:E.
  - exists c, (drop (S (head_cut n 0 t)) t). split; [done|]. split; [by rewrite take_drop_middle|].
    pose proof (head_cut_fits n 0 t H0). pose proof (head_cut_maximal n 0 t c E).
    unfold cp_units in *. destruct (0xFFFF <? c) eqn:E'; bool_to_prop; lia.
  - apply lookup_ge_None in E. pose proof (head_cut_fits n 0 t H0) as Hf.
    rewrite take_ge in Hf by done. lia.
Qed.

Lemma removelast_to_units t h :
  is_high h = true -> last t = Some h -> to_units (removelast t) = removelast (to_units t).
Proof.
  intros Hh Hl. rewrite (last_snoc_inv t h Hl) at 2.
  rewrite to_units_app. rewrite to_units_one, high_units by done.
  by rewrite removelast_last.
Qed.

Lemma to_units_hd c rest : exists u us, to_units (c :: rest) = u :: us /\ (cp_to_units c = [c] -> u = c).
Proof.
  rewrite to_units_cons. unfold cp_to_units. destruct (0xFFFF <? c); simpl; eauto.
  do 2 eexists; split; [done|]. intros [= ? ?].
Qed.

Lemma last_to_units_of_high t h : is_high h = true -> last t = Some h -> last (to_units t) = Some h.
Proof.
  intros Hh Hl. rewrite (last_snoc_inv t h Hl), to_units_app, to_units_one.
  by rewrite high_units, last_snoc.
Qed.

Lemma astral_hd_not_low c rest u us :
  0xFFFF < c <= 0x10FFFF -> to_units (c :: rest) = u :: us -> is_low u = false /\ is_low c = false.
Proof.
  intros Hc. destruct (astral_units c Hc) as (h & l & Hu & Hh & _ & _).
  rewrite to_units_cons, Hu. intros [= <- _]. split; [by apply high_not_low|].
  unfold is_low. apply andb_false_iff. right. apply Z.ltb_ge. lia.
Qed.

(** Cut at a character boundary: both sides test the same pair of surrogates. *)
Lemma whole_at_boundary p c rest u us :
  Forall (fun c => is_code_point c = true) (p ++ c :: rest) ->
  to_units (c :: rest) = u :: us ->
  to_units (match last p with
            | Some h => if is_high h && is_low c then removelast p else p
            | None => p
            end)
  = match last (to_units p) with
    | Some h => if is_high h && is_low u then removelast (to_units p) else to_units p
    | None => to_units p
    end.
Proof.
  intros Hwf Hu. apply Forall_app in Hwf as [Hp [Hc _]%Forall_cons].
  assert (is_low u = is_low c) as ->.
  { unfold is_code_point in Hc. bool_to_prop. destruct (decide (c <= 0xFFFF)).
    - rewrite to_units_cons, bmp_units in Hu by done. by simplify_eq/=.
    - by destruct (astral_hd_not_low c rest u us) as [-> ->]; [lia| |]. }
  destruct (is_low c); [|destruct (last p), (last (to_units p)); by rewrite ?andb_false_r].
  destruct (last p) as [h|] eqn:El.
  - rewrite andb_true_r. destruct (is_high h) eqn:Hh.
    + rewrite (last_to_units_of_high p h), Hh by done. by eapply removelast_to_units.
    + destruct (last (to_units p)) as [h'|] eqn:El'; [|done].
      rewrite andb_true_r. destruct (is_high h') eqn:Hh'; [|done].
      apply (last_units p h' Hp El') in Hh' as H. simplify_eq. congruence.
  - apply last_None in El. by subst.
Qed.

Lemma slice_whole_app_exact us vs u :
  slice_whole (List.length us) (us ++ u :: vs) =
  match last us with
  | Some h => if is_high h && is_low u then removelast us else us
  | None => us
  end.
Proof.
  unfold slice_whole, js_slice. rewrite take_app_length, lookup_app_r, Nat.sub_diag by done. done.
Qed.

Lemma head_all t n : length t <= n -> head t n = t.
Proof.
  intros H. unfold head. rewrite head_cut_all by lia. rewrite take_ge by done.
  rewrite (lookup_ge_None_2 t) by done. by destruct (last t).
Qed.

Lemma head_at_boundary p c rest n :
  p ++ c :: rest = p ++ c :: rest -> head_cut n 0 (p ++ c :: rest) = List.length p ->
  head (p ++ c :: rest) n =
  match last p with
  | Some h => if is_high h && is_low c then removelast p else p
  | None => p
  end.
Proof.
  intros _ E. unfold head. rewrite E, take_app_length, lookup_app_r, Nat.sub_diag by done. done.
Qed.

(** [head] is the unit slice, with a split pair dropped whole. *)
Lemma head_units_gen t n :
  Forall (fun c => is_code_point c = true) t -> 0 <= n ->
  to_units (head t n) = slice_whole (Z.to_nat n) (to_units t).
Proof.
  intros Hwf H0. destruct (decide (length t <= n)) as [Hle|Hgt].
  { rewrite head_all by done. unfold slice_whole, js_slice. pose proof (to_units_length t).
    rewrite take_ge, (lookup_ge_None_2 (to_units t)) by lia. by destruct (last _). }
  destruct (units_at_cut n t H0 ltac:(lia)) as (c & rest & Hl & Ht & Hcase).
  set (p := take (head_cut n 0 t) t) in *.
  assert (head_cut n 0 t = List.length p) as Ecut.
  { unfold p. rewrite length_take. apply lookup_lt_Some in Hl. lia. }
  rewrite Ht in Ecut, Hwf |- *. rewrite head_at_boundary by done.
  rewrite to_units_app. pose proof (to_units_length p) as Hlen.
  destruct Hcase as [Hn|[Hn Hc]].
  - destruct (to_units_hd c rest) as (u0 & us & Hu & _).
    rewrite Hu. replace (Z.to_nat n) with (List.length (to_units p)) by lia.
    rewrite slice_whole_app_exact. by eapply whole_at_boundary.
  - apply Forall_app in Hwf as [_ [Hcp _]%Forall_cons].
    unfold is_code_point in Hcp. bool_to_prop.
    destruct (astral_units c ltac:(lia)) as (h & l & Hu & Hh & Hlow & _).
    destruct (astral_hd_not_low c rest h (l :: to_units rest)) as [_ Hnl]; [lia| |].
    { by rewrite to_units_cons, Hu. }
    rewrite to_units_cons, Hu. simpl app.
    replace (Z.to_nat n) with (List.length (to_units p ++ [h])) by (rewrite List.length_app; simpl; lia).
    replace (to_units p ++ h :: l :: to_units rest) with ((to_units p ++ [h]) ++ l :: to_units rest)
      by by rewrite <- app_assoc.
    rewrite slice_whole_app_exact, last_snoc, Hh, Hlow, removelast_last. simpl.
    rewrite Hnl. destruct (last p); [|done]. by rewrite andb_false_r.
Qed.

Lemma slice_whole_length n us :
  (n <= List.length us)%nat ->
  Z.of_nat n - 1 <= Z.of_nat (List.length (slice_whole n us)) <= Z.of_nat n.
Proof.
  intros Hn. unfold slice_whole, js_slice.
  assert (List.length (take n us) = n) as Hl by (rewrite length_take; lia).
  revert Hl. generalize (take n us) as s. intros s Hl.
  destruct (last s) as [h|] eqn:E; [|lia]. apply last_snoc_inv in E.
  remember (removelast s) as r eqn:Er. clear Er. subst s.
  rewrite List.length_app in *. simpl in *.
  destruct (us !! n); [destruct (_ && _)|]; rewrite ?List.length_app; simpl; lia.
Qed.

Lemma head_length t n :
  Forall (fun c => is_code_point c = true) t -> 0 <= n -> n < length t ->
  n - 1 <= length (head t n) <= n.
Proof.
  intros Hwf H0 Hn. rewrite <- to_units_length, head_units_gen by done.
  pose proof (to_units_length t). pose proof (slice_whole_length (Z.to_nat n) (to_units t) ltac:(lia)). lia.
Qed.

Lemma truncate_id t n : length t <= n -> truncate t n = t.
Proof. intros H. unfold truncate. by rewrite (proj2 (Z.leb_le _ _)). Qed.

Lemma truncate_cut t n : n < length t -> truncate t n = head t n ++ TRUNCATION_MARKER.
Proof. intros H. unfold truncate. by rewrite (proj2 (Z.leb_gt _ _)). Qed.

Lemma marker_length : length TRUNCATION_MARKER = 13.
Proof. reflexivity. Qed.

(** ** Unit-space round trip *)
Lemma from_to_units_gen t :
  Forall (fun c => is_code_point c = true) t ->
  (forall i h l, t !! i = Some h -> t !! S i = Some l -> is_high h && is_low l = false) ->
  from_units (to_units t) = t.
Proof.
  induction t as [|c t IH]; [done|]. rewrite Forall_cons. intros [Hc Ht] Hpair.
  assert (from_units (to_units t) = t) as IHt.
  { apply IH; [done|]. intros i h l. apply (Hpair (S i)). }
  unfold is_code_point in Hc. bool_to_prop. rewrite to_units_cons.
  destruct (decide (c <= 0xFFFF)).
  - rewrite bmp_units by done.
    destruct t as [|c' t]; [done|]. destruct (to_units_hd c' t) as (u0 & us & Hu & Hbmp).
    rewrite Hu in IHt |- *. cbn [app]. cbn [from_units].
    assert (is_high c && is_low u0 = false) as ->; [|by f_equal].
    apply Forall_cons in Ht as [Hc' _]. unfold is_code_point in Hc'. bool_to_prop.
    destruct (decide (c' <= 0xFFFF)) as [Hb|Hb].
    + rewrite Hbmp; [by apply (Hpair 0%nat)|]. by apply bmp_units.
    + destruct (astral_hd_not_low c' t u0 us) as [-> _]; [lia|done|]. apply andb_false_r.
  - destruct (astral_units c ltac:(lia)) as (h & l & -> & Hh & Hl & Hj).
    cbn [app from_units]. rewrite Hh, Hl. cbn [andb]. by rewrite Hj, IHt.
Qed.

Lemma pair_units h l :
  is_high h = true -> is_low l = true -> cp_to_units (join_pair h l) = [h; l].
Proof.
  unfold is_high, is_low. intros Hh Hl. bool_to_prop. unfold cp_to_units, join_pair.
  rewrite Z.shiftl_mul_pow2 by lia. change (2 ^ 10) with 1024.
  rewrite (proj2 (Z.ltb_lt _ _)) by lia.
  replace (0x10000 + (h - 0xD800) * 1024 + (l - 0xDC00) - 0x10000) with ((h - 0xD800) * 1024 + (l - 0xDC00)) by lia.
  rewrite Z.shiftr_div_pow2 by lia. change 0x3FF with (Z.ones 10). rewrite Z.land_ones by lia. change (2 ^ 10) with 1024.
  rewrite Z.div_add_l by lia. rewrite Z.div_small by lia.
  rewrite (Z.add_comm ((h - 0xD800) * 1024)), Z.mod_add, Z.mod_small by lia. f_equal; [lia|]. f_equal. lia.
Qed.

(** Every string of units is the unit space of the text it stands for. *)
Lemma to_from_units us : Forall (fun c => is_unit c = true) us -> to_units (from_units us) = us.
Proof.
  remember (List.length us) as n eqn:Hn. revert us Hn. induction n as [n IH] using lt_wf_ind.
  intros [|h us] -> Hus; [done|]. apply Forall_cons in Hus as [Hh Hus].
  assert (h <= 0xFFFF) as Hle by (unfold is_unit in Hh; bool_to_prop; lia).
  destruct us as [|l us]; [cbn [from_units]; by rewrite to_units_cons, bmp_units by done|].
  cbn [from_units]. destruct (is_high h && is_low l) eqn:E.
  - apply andb_prop in E as [E1 E2]. rewrite to_units_cons, pair_units by done. cbn [app].
    apply Forall_cons in Hus as [_ Hus]. do 2 f_equal. eapply IH; [|reflexivity|exact Hus]. simpl. lia.
  - rewrite to_units_cons, bmp_units by done. cbn [app]. f_equal.
    change (match us with
            | [] => [l]
            | l0 :: us'' => if is_high l && is_low l0 then join_pair l l0 :: from_units us'' else l :: from_units us
            end) with (from_units (l :: us)).
    eapply IH; [|reflexivity|exact Hus]. simpl. lia.
Qed.

Lemma to_units_unit t : Forall (fun c => is_code_point c = true) t -> Forall (fun c => is_unit c = true) (to_units t).
Proof.
  induction t as [|c t IH]; [constructor|]. intros [Hc Ht]%Forall_cons. rewrite to_units_cons.
  apply Forall_app. split; [|by apply IH]. unfold is_code_point in Hc. bool_to_prop.
  destruct (decide (c <= 0xFFFF)).
  - rewrite bmp_units by done. constructor; [unfold is_unit; lia|constructor].
  - destruct (astral_units c ltac:(lia)) as (h & l & -> & Hh & Hl & _). unfold is_high, is_low in *.
    bool_to_prop. constructor; [unfold is_unit; lia|]. constructor; [unfold is_unit; lia|constructor].
Qed.

(** ** Properties *)

(** Cutting a text is JavaScript's slice of its UTF-16 code units, except that a surrogate pair is
    never split: for a string of code points, the units of [head t n] are the first [n] units without a
    high surrogate whose low half was cut; so a cut keeps a prefix, never exceeds [n] units and loses
    at most one more than it must; and [truncate] leaves what fits and marks what it cuts. *)
Theorem head_is_js_slice t n :
  Forall (fun c => is_code_point c = true) t -> 0 <= n ->
  to_units (head t n) = slice_whole (Z.to_nat n) (to_units t) /\
  head t n `prefix_of` t /\
  length (head t n) <= n /\
  (length t <= n -> head t n = t /\ truncate t n = t) /\
  (n < length t -> n - 1 <= length (head t n) /\ truncate t n = head t n ++ TRUNCATION_MARKER).
Proof.
  intros Hwf H0. split_and!.
  - by apply head_units_gen.
  - apply head_prefix.
  - destruct (decide (length t <= n)) as [Hle|Hgt]; [by rewrite head_all|].
    pose proof (head_length t n Hwf H0 ltac:(lia)). lia.
  - intros Hle. split; [by apply head_all|by apply truncate_id].
  - intros Hlt. pose proof (head_length t n Hwf H0 Hlt). split; [lia|by apply truncate_cut].
Qed.

(** A pair across the cut is dropped whole. *)
Lemma head_is_js_slice_witness :
  to_units (head [97; 0x1F600; 98] 2) = slice_whole 2 (to_units [97; 0x1F600; 98]) /\ head [97; 0x1F600; 98] 2 = [97].
Proof.
  destruct (head_is_js_slice [97; 0x1F600; 98] 2) as [H _]; [repeat constructor|lia|]. split; [exact H|reflexivity].
Defined.

End Utf16.
