(* ===== verification/Limits.v ===== *)
(** * The frozen input caps

    Models [limits.py]: one record per caps class and its value.  Text bounds are UTF-16 units;
    [None] marks a cap left open.  The tools' theorems state what the caps bound. *)
From S2P Require Import Prelude.
Open Scope Z_scope.

Record CandidatesCaps := { cand_min_items : Z; cand_max_items : Z; cand_text_units : Z }.

Record VerifyCaps := {
  ver_claims_min : Z; ver_claims_max : option Z; ver_claim_units : option Z;
  ver_evidence_min : Z; ver_evidence_max : option Z }.

Record ScreenCaps := { scr_text_min : Z; scr_text_max : option Z; scr_purpose_max : option Z }.

Record FindCaps := {
  find_top_k_min : Z; find_top_k_max : Z; find_top_k_default : Z; find_query_min : Z }.

Record ClassifyCaps := {
  cls_items_min : Z; cls_items_max : Z; cls_item_units : Z;
  cls_classes_min : Z; cls_classes_max : Z; cls_class_description_units : Z;
  cls_item_class_pairs : Z }.

Record DecideCaps := {
  dec_decision_min : Z; dec_decision_max : Z;
  dec_evidence_min : Z; dec_evidence_max : Z;
  dec_priorities_min : Z; dec_priorities_max : Z;
  dec_candidates_min : Z; dec_candidates_max : Z;
  dec_candidate_id_max : Z;
  dec_candidate_description_min : Z; dec_candidate_description_max : Z;
  dec_requirements_min : Z; dec_requirements_max : Z;
  dec_requirement_min : Z; dec_requirement_max : Z }.

Record RerankCaps := {
  rr_query_min : Z; rr_query_max : Z; rr_aggregate_candidate_units : Z;
  rr_top_k_min : Z; rr_top_k_max : Z }.

Record CompareCaps := {
  cmp_passage_min : Z; cmp_passage_max : Z; cmp_aspects_min : Z; cmp_aspects_max : Z;
  cmp_aspect_min : Z; cmp_aspect_max : Z }.

Record ExtractCaps := {
  ext_document_min : Z; ext_document_max : Z; ext_fields_min : Z; ext_fields_max : Z;
  ext_field_id_max : Z; ext_pattern_min : Z; ext_pattern_max : Z; ext_flags_max : Z;
  ext_description_min : Z; ext_description_max : Z;
  ext_candidates_per_field : Z; ext_candidate_units : Z; ext_aggregate_candidate_units : Z;
  ext_regex_timeout_ms : Z; ext_pool_size_max : Z; ext_queue_bound_per_slot : Z }.

Record ReviewCaps := { rev_doc_units : Z }.

Record GateCaps := {
  gate_claims_min : Z; gate_claims_max : Z; gate_claim_units : Z; gate_evidence_items : Z;
  gate_aggregate_evidence_units : Z; gate_doc_units : Z; gate_files_max : Z }.

Record ScoreCaps := {
  sco_levels_min : Z; sco_levels_max : Z; sco_level_units_min : Z; sco_level_units_max : Z;
  sco_subject_min : Z; sco_subject_max : Z; sco_context_max : Z }.

Record FileJudgeCaps := {
  fj_file_units_max : Z; fj_instructions_units_max : Z;
  fj_choice_options_min : Z; fj_choice_options_max : Z; fj_choice_option_units_max : Z;
  fj_score_levels_min : Z; fj_score_levels_max : Z; fj_score_level_units_max : Z;
  fj_binary_sniff_bytes : Z }.

Record AskCaps := {
  ask_questions_min : Z; ask_questions_max : Z; ask_files_max : Z; ask_state_units_max : Z;
  ask_command_output_units_max : Z; ask_request_units_max : Z; ask_command_timeout_seconds : Z }.

Record FilesJudgeCaps := {
  fsj_files_max : Z; fsj_patterns_max : Z; fsj_file_units_max : Z; fsj_binary_sniff_bytes : Z;
  fsj_discovery_max : Z; fsj_skip_rows_max : Z }.

Definition CANDIDATES : CandidatesCaps :=
  {| cand_min_items := 1; cand_max_items := 250; cand_text_units := 2000 |}.

Definition VERIFY : VerifyCaps :=
  {| ver_claims_min := 1; ver_claims_max := None; ver_claim_units := None;
     ver_evidence_min := 1; ver_evidence_max := None |}.

Definition SCREEN : ScreenCaps :=
  {| scr_text_min := 1; scr_text_max := None; scr_purpose_max := None |}.

Definition FIND : FindCaps :=
  {| find_top_k_min := 1; find_top_k_max := 50; find_top_k_default := 5; find_query_min := 1 |}.

Definition SANITIZE_ID_UNITS : Z := 64.

Definition CLASSIFY : ClassifyCaps :=
  {| cls_items_min := 1; cls_items_max := 64; cls_item_units := 2000;
     cls_classes_min := 2; cls_classes_max := 250; cls_class_description_units := 2000;
     cls_item_class_pairs := 8000 |}.

Definition DECIDE : DecideCaps :=
  {| dec_decision_min := 1; dec_decision_max := 1500;
     dec_evidence_min := 1; dec_evidence_max := 12000;
     dec_priorities_min := 1; dec_priorities_max := 2000;
     dec_candidates_min := 2; dec_candidates_max := 6;
     dec_candidate_id_max := 64;
     dec_candidate_description_min := 1; dec_candidate_description_max := 2000;
     dec_requirements_min := 0; dec_requirements_max := 3;
     dec_requirement_min := 1; dec_requirement_max := 500 |}.

Definition RERANK : RerankCaps :=
  {| rr_query_min := 1; rr_query_max := 2000; rr_aggregate_candidate_units := 100000;
     rr_top_k_min := 1; rr_top_k_max := 250 |}.

Definition COMPARE : CompareCaps :=
  {| cmp_passage_min := 1; cmp_passage_max := 20000; cmp_aspects_min := 0; cmp_aspects_max := 10;
     cmp_aspect_min := 1; cmp_aspect_max := 200 |}.

Definition EXTRACT : ExtractCaps :=
  {| ext_document_min := 1; ext_document_max := 50000; ext_fields_min := 1; ext_fields_max := 32;
     ext_field_id_max := 64; ext_pattern_min := 1; ext_pattern_max := 500; ext_flags_max := 8;
     ext_description_min := 1; ext_description_max := 2000;
     ext_candidates_per_field := 20; ext_candidate_units := 2000;
     ext_aggregate_candidate_units := 50000;
     ext_regex_timeout_ms := 1000; ext_pool_size_max := 8; ext_queue_bound_per_slot := 8 |}.

Definition REVIEW : ReviewCaps := {| rev_doc_units := 50000 |}.

Definition GATE : GateCaps :=
  {| gate_claims_min := 1; gate_claims_max := 16; gate_claim_units := 2000;
     gate_evidence_items := 16; gate_aggregate_evidence_units := 200000;
     gate_doc_units := 50000; gate_files_max := 64 |}.

Definition SCORE : ScoreCaps :=
  {| sco_levels_min := 2; sco_levels_max := 10; sco_level_units_min := 1;
     sco_level_units_max := 200; sco_subject_min := 1; sco_subject_max := 1500;
     sco_context_max := 12000 |}.

Definition FILE_JUDGE : FileJudgeCaps :=
  {| fj_file_units_max := 100000; fj_instructions_units_max := 2000;
     fj_choice_options_min := 2; fj_choice_options_max := 250; fj_choice_option_units_max := 2000;
     fj_score_levels_min := 2; fj_score_levels_max := 10; fj_score_level_units_max := 200;
     fj_binary_sniff_bytes := 8000 |}.

Definition ASK : AskCaps :=
  {| ask_questions_min := 1; ask_questions_max := 20; ask_files_max := 20;
     ask_state_units_max := 20000; ask_command_output_units_max := 30000;
     ask_request_units_max := 120000; ask_command_timeout_seconds := 30 |}.

(** The two read caps are [FILE_JUDGE]'s values, not copies. *)
Definition FILES_JUDGE : FilesJudgeCaps :=
  {| fsj_files_max := 64; fsj_patterns_max := 32;
     fsj_file_units_max := fj_file_units_max FILE_JUDGE;
     fsj_binary_sniff_bytes := fj_binary_sniff_bytes FILE_JUDGE;
     fsj_discovery_max := 512; fsj_skip_rows_max := 64 |}.

Arguments GATE : simpl never.
Arguments REVIEW : simpl never.
