(* ===== verification/Json.v ===== *)
(** * Parsed JSON values

    Models [domain/json.py]: the values the program handles, and the shape questions it asks of
    them.  A [value] is a Python object of parsed-JSON shape; an object keeps its keys in insertion
    order.  [bool] is not a number here, as in the source. *)
From S2P Require Import Prelude Float64.
Open Scope Z_scope.

Inductive value : Type :=
| VNone
| VBool (b : bool)
| VInt (z : Z)
| VFloat (f : float)
| VStr (t : text)
| VList (l : list value)
| VDict (d : list (text * value)).

(** Shorthands for building payloads. *)
Definition vs (s : string) : value := VStr (u s).
Definition vopt (o : option value) : value := or_else o VNone.
Definition vnum (n : nat) : value := VInt (Z.of_nat n).

(** [isinstance(value, dict)] with its content. *)
Definition is_json_object (v : value) : option (dict value) :=
  match v with VDict d => Some d | _ => None end.

Definition as_str (v : value) : option text :=
  match v with VStr t => Some t | _ => None end.

(** [v == n] for an int [n]: a [bool] is an int, and a float compares by value. *)
Definition equals_int (n : Z) (v : value) : bool :=
  match v with VInt z => z =? n | VBool b => Z.b2z b =? n | VFloat f => feqb f (f_of_Z n) | _ => false end.

(** [float(n)] of an int raises [OverflowError] past the range: [None]. *)
Definition float_of_int (n : Z) : option float :=
  match f_of_Z n with S754_infinity _ => None | f => Some f end.

Definition as_number (v : value) : option float :=
  match v with
  | VInt n =>
    match float_of_int n with
    | Some f => Some f
    | None => Some (S754_infinity (negb (0 <? n)))
    end
  | VFloat f => Some f
  | _ => None
  end.

(** [d.get(k)] on a Python dict of objects: a missing key reads as [None]. *)
Definition get (k : text) (d : dict value) : value := or_else (dget k d) VNone.

(** [value == "s"] for a string literal. *)
Definition is_str (s : text) (v : value) : bool :=
  match v with VStr t => bool_decide (t = s) | _ => false end.

(** Python truth value. *)
Definition truthy (v : value) : bool :=
  match v with
  | VNone => false
  | VBool b => b
  | VInt z => negb (z =? 0)
  | VFloat f => negb (feqb f f_zero)
  | VStr t => negb (bool_decide (t = []))
  | VList l => match l with [] => false | _ => true end
  | VDict d => match d with [] => false | _ => true end
  end.

(** ** Facts *)

(** Every object of a decoded value has distinct keys. *)
Fixpoint wf_value (v : value) : Prop :=
  match v with
  | VList l => fold_right (fun v P => wf_value v /\ P) True l
  | VDict d => NoDup (dkeys d) /\ fold_right (fun kv P => wf_value kv.2 /\ P) True d
  | _ => True
  end.

Lemma get_wf k d : wf_value (VDict d) -> wf_value (get k d).
Proof.
  simpl. intros [_ Hd]. unfold get. destruct (dget k d) as [v|] eqn:E; [|done].
  apply dget_elem in E. simpl.
  induction d as [|[k' v'] d IH]; [by apply elem_of_nil in E|].
  simpl in Hd. destruct Hd as [Hv Hd].
  apply elem_of_cons in E as [[= -> ->]|E]; [done|auto].
Qed.

Lemma as_number_VFloat f : as_number (VFloat f) = Some f.
Proof. done. Qed.

Lemma is_str_spec s v : is_str s v = true <-> v = VStr s.
Proof. destruct v; simpl; rewrite ?bool_decide_eq_true; naive_solver. Qed.

(** The check of [wf_value]. *)
Fixpoint wf_check (v : value) : bool :=
  match v with
  | VList l => forallb wf_check l
  | VDict d => bool_decide (NoDup (dkeys d)) && forallb (fun kv => wf_check kv.2) d
  | _ => true
  end.

Fixpoint wf_check_sound (v : value) : wf_check v = true -> wf_value v.
Proof.
  destruct v as [| | | | |l|d]; simpl; try done.
  - induction l as [|v l IH]; simpl; [done|]. intros [Hv Hl]%andb_prop.
    split; [by apply wf_check_sound|by apply IH].
  - intros [Hnd%bool_decide_eq_true_1 Hd]%andb_prop. split; [exact Hnd|]. clear Hnd. revert Hd.
    induction d as [|[k v] d IH]; simpl; [done|]. intros [Hv Hl]%andb_prop.
    split; [by apply wf_check_sound|by apply IH].
Qed.

(** ** Induction over values *)
Section ValueInduction.
Context (P : value -> Prop)
  (Hnone : P VNone) (Hbool : forall b, P (VBool b)) (Hint : forall z, P (VInt z)) (Hfloat : forall f, P (VFloat f))
  (Hstr : forall t, P (VStr t)) (Hlist : forall l, Forall P l -> P (VList l))
  (Hdict : forall d, Forall (fun kv => P kv.2) d -> P (VDict d)).

Fixpoint value_induction (v : value) : P v :=
  match v with
  | VNone => Hnone
  | VBool b => Hbool b
  | VInt z => Hint z
  | VFloat f => Hfloat f
  | VStr t => Hstr t
  | VList l =>
    Hlist l ((fix go l : Forall P l :=
      match l with [] => Forall_nil_2 _ | w :: l' => Forall_cons_2 _ w l' (value_induction w) (go l') end) l)
  | VDict d =>
    Hdict d ((fix go d : Forall (fun kv => P kv.2) d :=
      match d with [] => Forall_nil_2 _ | kv :: d' => Forall_cons_2 _ kv d' (value_induction kv.2) (go d') end) d)
  end.
End ValueInduction.

(** Induction with the hypothesis for the values inside an object's values, too. *)
Lemma value_induction_nested (P : value -> Prop) :
  (forall s, match s with
             | VDict d => Forall (fun kv => P kv.2 /\ match kv.2 with
                                   | VDict subs => Forall (fun sub => P sub.2) subs
                                   | VList l => Forall P l
                                   | _ => True
                                   end) d
             | _ => True
             end -> P s) -> forall s, P s.
Proof.
  intros HP s.
  enough (P s /\ match s with VDict d => Forall (fun kv => P kv.2) d | VList l => Forall P l | _ => True end) as [? _]
    by done.
  induction s as [|b|z|f|t|l IH|d IH] using value_induction; try (split; [by apply HP|done]).
  - split; [by apply HP|]. eapply Forall_impl; [exact IH|]. by intros v [? _].
  - split; [|eapply Forall_impl; [exact IH|]; by intros kv [? _]]. apply HP.
    eapply Forall_impl; [exact IH|]. intros kv [Hk Hin]. split; [done|]. by destruct kv.2.
Qed.

Lemma wf_dict_elem d k v : wf_value (VDict d) -> (k, v) ∈ d -> wf_value v.
Proof.
  intros Hwf Hin. pose proof (get_wf k d Hwf) as H. unfold get in H.
  destruct Hwf as [Hnd _]. by rewrite (elem_dget k v d Hnd Hin) in H.
Qed.

Lemma wf_list_elem l v : wf_value (VList l) -> v ∈ l -> wf_value v.
Proof.
  simpl. induction l as [|w l IH]; [by intros _ ?%elem_of_nil|].
  intros [Hw Hl] [->|Hin]%elem_of_cons; [done|by apply IH].
Qed.

Lemma wf_list_snoc l v : wf_value (VList l) -> wf_value v -> wf_value (VList (l ++ [v])).
Proof. simpl. intros Hl Hv. induction l as [|w l IH]; simpl in *; [by split|]. destruct Hl. split; [done|by apply IH]. Qed.

Lemma wf_dict_dset d k v : wf_value (VDict d) -> wf_value v -> wf_value (VDict (dset k v d)).
Proof.
  intros [Hnd Hd] Hv. split; [by apply NoDup_dset|]. clear Hnd. induction d as [|[k' w] d IH]; simpl in *; [by split|].
  destruct Hd as [Hw Hd]. case_bool_decide; simpl; split; auto.
Qed.
