(* ===== verification/Serialize.v ===== *)
(** * JavaScript-compatible serialization

    Models [serialize.py]: [Number::toString], [toFixed], [toLocaleString('en-US')], JSON string
    quoting, JS own-property key order, and [JSON.stringify] over parsed-JSON values.  Python's
    [repr] of a float is the builtin it is: the shortest decimal that reads back as the same
    double, nearest to it among the shortest ([repr_digits]).  [Decimal.quantize] is exact integer
    rounding. *)
From S2P Require Import Prelude Float64 Text Json.
Open Scope Z_scope.

(** ** Key order *)
Definition MAX_ARRAY_INDEX : Z := 2 ^ 32 - 2.

Definition is_array_index (key : text) : bool :=
  if negb (forallb is_digit key) || bool_decide (key = [])
     || ((1 <? Z.of_nat (length key)) && bool_decide (head key = Some 48)) then false
  else int_of_digits key <=? MAX_ARRAY_INDEX.

Definition js_key_order (keys : list text) : list text :=
  let indices := List.filter is_array_index keys in
  let others := List.filter (fun k => negb (is_array_index k)) keys in
  stable_sort (fun a b => int_of_digits a <? int_of_digits b) indices ++ others.

(** ** repr: shortest round-trip digits *)

(** The double nearest to [d * 10^q]: how a decimal literal is read. *)
Definition decimal_value (d q : Z) : float :=
  if 0 <=? q then f_ratio (d * 10 ^ q) 1 else f_ratio d (Z.to_pos (10 ^ (- q))).

(** Whether [num / den < 10^n]. *)
Definition below_pow (num den n : Z) : bool :=
  if 0 <=? n then num <? den * 10 ^ n else num * 10 ^ (- n) <? den.

Fixpoint first_pow (fuel : nat) (num den n : Z) : Z :=
  match fuel with
  | O => n
  | S fuel' => if below_pow num den n then n else first_pow fuel' num den (n + 1)
  end.

(** The position of the decimal point: [10^(n-1) <= num/den < 10^n].  The search starts below the
    estimate given by the binary exponent. *)
Definition decimal_point (num den : Z) : Z :=
  let est := (Z.log2 num - Z.log2 den) * 30103 / 100000 - 1 in
  first_pow 8 num den est.

(** [num/den * 10^s] as an integer part and whether the rest is below, at or above one half. *)
Definition scaled (num den s : Z) : Z * comparison :=
  let num' := if 0 <=? s then num * 10 ^ s else num in
  let den' := if 0 <=? s then den else den * 10 ^ (- s) in
  (num' / den', (2 * (num' mod den') ?= den')).

(** The one or two nearest [k]-digit candidates, the nearer first. *)
Definition candidates_at (num den n k : Z) : list Z :=
  let '(lo, half) := scaled num den (k - n) in
  match half with
  | Lt => [lo; lo + 1]
  | Gt => [lo + 1; lo]
  | Eq => if Z.even lo then [lo; lo + 1] else [lo + 1; lo]
  end.

Fixpoint shortest_from (fuel : nat) (x : float) (num den n k : Z) : Z * Z :=
  match List.filter (fun d => feqb (decimal_value d (n - k)) x) (candidates_at num den n k) with
  | d :: _ => (d, n - k)
  | [] =>
    match fuel with
    | O => ((scaled num den (k - n)).1, n - k)
    | S fuel' => shortest_from fuel' x num den n (k + 1)
    end
  end.

Fixpoint strip_zeros (fuel : nat) (d q : Z) : Z * Z :=
  match fuel with
  | O => (d, q)
  | S fuel' => if (d mod 10 =? 0) && negb (d =? 0) then strip_zeros fuel' (d / 10) (q + 1) else (d, q)
  end.

(** Significant digits [d], without trailing zeros, and the exponent [q]: [x] reads as [d * 10^q].
    Seventeen digits determine a double. *)
Definition repr_digits (x : float) : Z * Z :=
  let '(num, den) := fratio x in
  let n := decimal_point num den in
  let '(d, q) := shortest_from 16 (fabs x) num den n 1 in
  strip_zeros 400 d q.

(** ** Number::toString *)
Definition zeros (n : Z) : text := repeat 48 (Z.to_nat n).

Definition number_to_string (x : float) : text :=
  if is_nan x then u "NaN"
  else if feqb x f_zero then u "0"
  else if negb (is_finite x) then if fgtb x f_zero then u "Infinity" else u "-Infinity"
  else
    let sign := if fltb x f_zero then u "-" else [] in
    let '(d, q) := repr_digits x in
    let ds := digits d in
    let k := Z.of_nat (length ds) in
    let n := k + q in
    if (k <=? n) && (n <=? 21) then sign ++ ds ++ zeros (n - k)
    else if (0 <? n) && (n <=? 21) then
      sign ++ take (Z.to_nat n) ds ++ u "." ++ drop (Z.to_nat n) ds
    else if (-6 <? n) && (n <=? 0) then sign ++ u "0." ++ zeros (- n) ++ ds
    else
      let e := n - 1 in
      let hd := take 1 ds ++ (if 1 <? k then u "." ++ drop 1 ds else []) in
      sign ++ hd ++ u "e" ++ (if 0 <=? e then u "+" else u "-") ++ digits (Z.abs e).

(** ** toFixed *)

(** [quantize] with ROUND_HALF_UP of [num/den] to [d] places, as an integer count of units of
    [10^-d]. *)
Definition round_half_up (num den d : Z) : Z := (2 * num * 10 ^ d + den) / (2 * den).

Definition pad_left (k : nat) (t : text) : text := repeat 48 (k - length t) ++ t.

(** [format(Decimal, 'f')] of [n * 10^-d]. *)
Definition fixed_text (n d : Z) : text :=
  let ds := pad_left (S (Z.to_nat d)) (digits n) in
  let whole := take (length ds - Z.to_nat d) ds in
  let fraction := drop (length ds - Z.to_nat d) ds in
  whole ++ (if d =? 0 then [] else u "." ++ fraction).

Inductive fixed_error := FixedDigitsRange.

Definition TO_FIXED_LIMIT : float := f_of_Z (10 ^ 21).

Definition to_fixed (x : float) (d : Z) : result fixed_error text :=
  if negb ((0 <=? d) && (d <=? 100)) then Raise FixedDigitsRange
  else if negb (is_finite x) then Ok (number_to_string x)
  else
    let sign := if fltb x f_zero then u "-" else [] in
    let magnitude := fabs x in
    if fgeb magnitude TO_FIXED_LIMIT then Ok (sign ++ number_to_string magnitude)
    else
      let '(num, den) := fratio magnitude in
      Ok (sign ++ fixed_text (round_half_up num den d) d).

(** [float(text)] of a text [to_fixed] writes below 10^21: an optional sign, digits, and a fraction. *)
Fixpoint split_point (t : text) : text * text :=
  match t with
  | [] => ([], [])
  | c :: t' => if c =? 46 then ([], t') else let '(whole, fraction) := split_point t' in (c :: whole, fraction)
  end.

Definition float_of_fixed (t : text) : option float :=
  let '(negative, t) := match t with c :: t' => if c =? 45 then (true, t') else (false, t) | [] => (false, t) end in
  let '(whole, fraction) := split_point t in
  let ds := whole ++ fraction in
  if bool_decide (ds = []) || negb (forallb is_digit ds) then None
  else
    let x := f_ratio (int_of_digits ds) (Pos.pow 10 (Pos.of_nat (length fraction))) in
    Some (if negative then SFopp x else x).

(** [float(to_fixed(x, 4))]; [shown_unit] excludes the defaults for a probability. *)
Definition shown (x : float) : float :=
  match to_fixed x 4 with Ok t => or_else (float_of_fixed t) f_zero | Raise _ => f_zero end.

(** [to_fixed(value)]: two digits, which is never out of range. *)
Definition to_fixed2 (x : float) : text :=
  match to_fixed x 2 with Ok t => t | Raise _ => [] end.

(** ** toLocaleString('en-US') *)

(** [f"{n:,}"]: groups of three from the right. *)
Fixpoint group3 (fuel : nat) (rev_digits : text) : list text :=
  match fuel with
  | O => []
  | S fuel' =>
    match rev_digits with
    | [] => []
    | _ => rev (take 3 rev_digits) :: group3 fuel' (drop 3 rev_digits)
    end
  end.

Definition grouped (n : Z) : text :=
  let ds := digits n in join (u ",") (rev (group3 (length ds) (rev ds))).

Definition rstrip_zeros (t : text) : text :=
  rev ((fix go l := match l with 48 :: l' => go l' | _ => l end) (rev t)).

Definition neg_sign (x : float) : bool := fsign x.

(** The shortest digits, rounded half up at three places. *)
Definition js_number_to_locale_string_en_us (x : float) : text :=
  if is_nan x then u "NaN"
  else if negb (is_finite x) then if fgtb x f_zero then [0x221E] else u "-" ++ [0x221E]
  else
    let sign := if neg_sign x then u "-" else [] in
    let '(d, q) := if feqb x f_zero then (0, 0) else repr_digits x in
    let n := if 0 <=? q then round_half_up (d * 10 ^ q) 1 3 else round_half_up d (10 ^ (- q)) 3 in
    let fraction := rstrip_zeros (pad_left 3 (digits (n mod 1000))) in
    sign ++ grouped (n / 1000) ++ (if bool_decide (fraction = []) then [] else u "." ++ fraction).

(** An int renders as the double JS would hold. *)
Definition locale_int (n : Z) : text := js_number_to_locale_string_en_us (f_of_Z n).

(** ** JSON strings *)
Definition hex_digit (n : Z) : Z := if n <? 10 then 48 + n else 87 + n.
Definition hex4 (c : Z) : text :=
  [hex_digit (c / 4096 mod 16); hex_digit (c / 256 mod 16); hex_digit (c / 16 mod 16); hex_digit (c mod 16)].

(** [_escape] of one character: the short escapes, [\uXXXX] for the other controls and for a lone
    surrogate, the character itself otherwise. *)
Definition escape_char (c : Z) : text :=
  if c =? 34 then [92; 34]
  else if c =? 92 then [92; 92]
  else if c =? 8 then [92; 98]
  else if c =? 12 then [92; 102]
  else if c =? 10 then [92; 110]
  else if c =? 13 then [92; 114]
  else if c =? 9 then [92; 116]
  else if (c <? 32) || Utf16.is_high c || Utf16.is_low c then [92; 117] ++ hex4 c
  else [c].

(** The substitution scans left to right; a surrogate pair held as two code points is one
    character. *)
Fixpoint escape (t : text) : text :=
  match t with
  | [] => []
  | c :: t' =>
    match t' with
    | l :: t'' =>
      if Utf16.is_high c && Utf16.is_low l then Utf16.join_pair c l :: escape t''
      else escape_char c ++ escape t'
    | [] => escape_char c
    end
  end.

Definition quote (t : text) : text := dq ++ escape t ++ dq.

(** ** JSON.stringify *)
Definition to_double (v : value) : option float := as_number v.

(** One number: NaN and the infinities print [null]. *)
Definition number_text (f : float) : text :=
  if is_finite f then number_to_string f else u "null".

(** Members in JS property order. *)
Definition ordered_members (members : dict text) : dict text :=
  omap (fun k => (fun t => (k, t)) <$> dget k members) (js_key_order (dkeys members)).

Fixpoint stringify_at (indent : option text) (v : value) : text :=
  match v with
  | VNone => u "null"
  | VBool b => if b then u "true" else u "false"
  | VInt _ | VFloat _ =>
    match to_double v with Some f => number_text f | None => u "null" end
  | VStr t => quote t
  | VDict d =>
    let inner := (fun i => i ++ u "  ") <$> indent in
    let members := ordered_members (List.map (fun kv => (kv.1, stringify_at inner kv.2)) d) in
    match members with
    | [] => u "{}"
    | _ =>
      match indent, inner with
      | Some i, Some j =>
        u "{" ++ [10]
        ++ join (u "," ++ [10]) ((fun kv => j ++ quote kv.1 ++ u ": " ++ kv.2) <$> members)
        ++ [10] ++ i ++ u "}"
      | _, _ => u "{" ++ join (u ",") ((fun kv => quote kv.1 ++ u ":" ++ kv.2) <$> members) ++ u "}"
      end
    end
  | VList l =>
    let inner := (fun i => i ++ u "  ") <$> indent in
    match l with
    | [] => u "[]"
    | _ =>
      match indent, inner with
      | Some i, Some j =>
        u "[" ++ [10]
        ++ join (u "," ++ [10]) ((fun t => j ++ t) <$> List.map (stringify_at inner) l)
        ++ [10] ++ i ++ u "]"
      | _, _ => u "[" ++ join (u ",") (List.map (stringify_at None) l) ++ u "]"
      end
    end
  end.

Definition stringify (v : value) : text := stringify_at (Some []) v.
Definition stringify_compact (v : value) : text := stringify_at None v.

(** ** Reference reader of a JSON string literal

    [unquote] reads a literal the way [JSON.parse] does: a raw quote or control ends it. *)
Definition hex_value (c : Z) : option Z :=
  if is_digit c then Some (c - 48)
  else if (97 <=? c) && (c <=? 102) then Some (c - 87)
  else None.

Definition hex4_value (a b c d : Z) : option Z :=
  match hex_value a, hex_value b, hex_value c, hex_value d with
  | Some a', Some b', Some c', Some d' => Some (a' * 4096 + b' * 256 + c' * 16 + d')
  | _, _, _, _ => None
  end.

Definition short_escape (e : Z) : option Z :=
  if e =? 34 then Some 34 else if e =? 92 then Some 92 else if e =? 98 then Some 8
  else if e =? 102 then Some 12 else if e =? 110 then Some 10 else if e =? 114 then Some 13
  else if e =? 116 then Some 9 else None.

(** The characters up to the closing quote, which must end the text. *)
Fixpoint unescape (t : text) : option text :=
  match t with
  | [] => None
  | c :: t' =>
    if c =? 34 then match t' with [] => Some [] | _ => None end
    else if c =? 92 then
      match t' with
      | e :: t'' =>
        if e =? 117 then
          match t'' with
          | h1 :: h2 :: h3 :: h4 :: t3 =>
            match hex4_value h1 h2 h3 h4 with Some v => cons v <$> unescape t3 | None => None end
          | _ => None
          end
        else match short_escape e with Some v => cons v <$> unescape t'' | None => None end
      | [] => None
      end
    else if c <? 32 then None
    else cons c <$> unescape t'
  end.

Definition unquote (t : text) : option text :=
  match t with
  | c :: t' => if c =? 34 then unescape t' else None
  | [] => None
  end.

(** The string JS holds for [t]: surrogate pairs held as two code points are one character. *)
Fixpoint joined (t : text) : text :=
  match t with
  | [] => []
  | c :: t' =>
    match t' with
    | l :: t'' =>
      if Utf16.is_high c && Utf16.is_low l then Utf16.join_pair c l :: joined t'' else c :: joined t'
    | [] => [c]
    end
  end.

(** ** Facts: key order *)
Lemma filter_split_perm {A} (p : A -> bool) l :
  Permutation (List.filter p l ++ List.filter (fun a => negb (p a)) l) l.
Proof.
  induction l as [|a l IH]; [done|]. simpl. destruct (p a); simpl.
  - by constructor.
  - by rewrite <- Permutation_middle, IH.
Qed.

Lemma filter_negb_nil {A} (p : A -> bool) l :
  List.filter p (List.filter (fun a => negb (p a)) l) = [].
Proof. induction l as [|a l IH]; [done|]. simpl. destruct (p a) eqn:E; simpl; by rewrite ?E. Qed.

Lemma filter_all {A} (p : A -> bool) l : Forall (fun a => p a = true) l -> List.filter p l = l.
Proof. induction 1 as [|a l Ha _ IH]; [done|]. simpl. by rewrite Ha, IH. Qed.

Lemma js_key_order_perm keys : Permutation (js_key_order keys) keys.
Proof.
  unfold js_key_order. rewrite stable_sort_perm. apply filter_split_perm.
Qed.

Lemma js_key_order_indices_sorted keys :
  StronglySorted (fun a b => int_of_digits a <= int_of_digits b)
    (List.filter is_array_index (js_key_order keys)).
Proof.
  unfold js_key_order. rewrite List.filter_app.
  set (lt := fun a b => int_of_digits a <? int_of_digits b).
  set (idx := List.filter is_array_index keys).
  assert (Forall (fun k => is_array_index k = true) (stable_sort lt idx)) as Hall.
  { rewrite stable_sort_perm. apply Forall_forall. intros x Hx. apply list_elem_of_In in Hx.
    by apply filter_In in Hx as [_ ?]. }
  rewrite filter_negb_nil.
  rewrite app_nil_r.
  rewrite filter_all by done.
  assert (StronglySorted (in_order lt) (stable_sort lt idx)) as Hs.
  { apply (stable_sort_sorted lt (fun _ => True)); unfold lt; [| |by apply Forall_true].
    - intros a b c _ _ _ H1 H2. bool_to_prop. apply Z.ltb_ge. lia.
    - intros a b _ _ H1. bool_to_prop. apply Z.ltb_ge. lia. }
  induction Hs as [|k l Hs' IH Hk]; [constructor|]. apply Forall_cons in Hall as [_ Hall].
  constructor; [by apply IH|]. eapply Forall_impl; [done|].
  intros k'. unfold in_order, lt. intros H. bool_to_prop. lia.
Qed.

Lemma dkeys_ordered_members members : dkeys (ordered_members members) = js_key_order (dkeys members).
Proof.
  unfold ordered_members.
  assert (Forall (fun k => k ∈ dkeys members) (js_key_order (dkeys members))) as H.
  { rewrite js_key_order_perm. by apply Forall_forall. }
  induction (js_key_order (dkeys members)) as [|k ks IH]; [done|].
  apply Forall_cons in H as [Hk H]. simpl.
  apply dget_is_Some in Hk as [v ->]. simpl. f_equal. by apply IH.
Qed.

(** ** Facts: toFixed *)
Lemma round_half_up_spec num den d :
  0 < den -> let n := round_half_up num den d in
  den * (2 * n - 1) <= 2 * (num * 10 ^ d) < den * (2 * n + 1).
Proof.
  intros Hden n. unfold n, round_half_up.
  pose proof (Z.div_mod (2 * num * 10 ^ d + den) (2 * den) ltac:(lia)) as Hdm.
  pose proof (Z.mod_pos_bound (2 * num * 10 ^ d + den) (2 * den) ltac:(lia)). lia.
Qed.

Lemma round_half_up_nonneg num den d : 0 <= num -> 0 < den -> 0 <= d -> 0 <= round_half_up num den d.
Proof. intros. unfold round_half_up. apply Z.div_pos; [|lia]. pose proof (Z.pow_nonneg 10 d ltac:(lia)). nia. Qed.

Lemma fold_digits_zeros k t : int_of_digits (repeat 48 k ++ t) = int_of_digits t.
Proof. unfold int_of_digits. induction k as [|k IH]; [done|]. apply IH. Qed.

Lemma pad_left_length k t : (k <= length (pad_left k t))%nat.
Proof. unfold pad_left. rewrite length_app, repeat_length. lia. Qed.

Lemma fixed_text_shape n d :
  0 <= n -> 0 <= d -> exists whole fraction,
    fixed_text n d = whole ++ (if d =? 0 then [] else u "." ++ fraction) /\
    whole <> [] /\ Z.of_nat (length fraction) = d /\
    int_of_digits (whole ++ fraction) = n /\
    Forall (fun c => is_digit c = true) (whole ++ fraction).
Proof.
  intros Hn Hd. unfold fixed_text. set (ds := pad_left _ _).
  exists (take (length ds - Z.to_nat d) ds), (drop (length ds - Z.to_nat d) ds).
  assert (S (Z.to_nat d) <= length ds)%nat by apply pad_left_length.
  split; [done|]. split; [|split; [|split]].
  - intros H'%(f_equal length). rewrite length_take in H'. simpl in H'. lia.
  - rewrite length_drop. lia.
  - rewrite take_drop. unfold ds, pad_left. rewrite fold_digits_zeros. by apply int_of_digits_digits.
  - rewrite take_drop. unfold ds, pad_left. apply Forall_app. split; [|by apply digits_digit].
    apply Forall_forall. intros x Hx%list_elem_of_In%repeat_spec. by subst.
Qed.

Lemma split_point_fixed whole fraction :
  Forall (fun c => is_digit c = true) whole -> split_point (whole ++ u "." ++ fraction) = (whole, fraction).
Proof.
  induction whole as [|c whole IH]; intros H; [done|]. apply Forall_cons in H as [Hc H].
  cbn [app split_point].
  assert (c =? 46 = false) as -> by (unfold is_digit in Hc; lia).
  by rewrite IH.
Qed.

(** A probability is shown as the double nearest to its value rounded half up to four places. *)
Lemma shown_unit p :
  in_unit p -> let n := round_half_up (fratio (fabs p)).1 (fratio (fabs p)).2 4 in
  to_fixed p 4 = Ok (fixed_text n 4) /\ float_of_fixed (fixed_text n 4) = Some (f_ratio n 10000) /\
  shown p = f_ratio n 10000.
Proof.
  intros Hp n. destruct Hp as (Hfin & H0 & H1).
  assert (to_fixed p 4 = Ok (fixed_text n 4)) as Hfixed.
  { unfold to_fixed. cbn [andb negb Z.leb]. rewrite Hfin. cbn [negb].
    rewrite (fleb_fltb_absurd f_zero p H0).
    assert (fgeb (fabs p) TO_FIXED_LIMIT = false) as ->.
    { apply fltb_fleb_absurd. eapply fleb_fltb_trans; [|exact (eq_refl : fltb f_one TO_FIXED_LIMIT = true)].
      by destruct p as [[]|[]| |[] m e]. }
    unfold n. by destruct (fratio (fabs p)). }
  destruct (fratio_pos (fabs p)) as [Hn Hd].
  destruct (fixed_text_shape n 4) as (whole & fraction & Ht & Hne & Hlen & Hint & Hdig);
    [by apply round_half_up_nonneg|done|].
  assert (float_of_fixed (fixed_text n 4) = Some (f_ratio n 10000)) as Hparse.
  { rewrite Ht. change (4 =? 0) with false. cbv iota. unfold float_of_fixed.
    apply Forall_app in Hdig as [Hw Hf].
    destruct whole as [|c whole]; [done|]. apply Forall_cons in Hw as [Hc Hw].
    cbn [app]. assert (c =? 45 = false) as -> by (unfold is_digit in Hc; lia).
    change (c :: whole ++ u "." ++ fraction) with ((c :: whole) ++ u "." ++ fraction).
    rewrite split_point_fixed by by constructor.
    rewrite bool_decide_eq_false_2 by done.
    assert (forallb is_digit ((c :: whole) ++ fraction) = true) as ->.
    { apply forallb_forall. intros x Hx%list_elem_of_In.
      assert (Forall (fun c => is_digit c = true) ((c :: whole) ++ fraction)) as Hall.
      { apply Forall_app. split; [by constructor|done]. }
      by eapply Forall_forall in Hx; [|exact Hall]. }
    cbn [orb negb]. rewrite Hint. replace (length fraction) with 4%nat by lia. done. }
  split_and!; [done|done|]. unfold shown. by rewrite Hfixed, Hparse.
Qed.

(** ** Facts: quoting *)
Lemma hex_value_digit n : 0 <= n < 16 -> hex_value (hex_digit n) = Some n.
Proof.
  intros H. unfold hex_digit, hex_value, is_digit.
  destruct (Z.ltb_spec n 10); repeat match goal with |- context [?a <=? ?b] => destruct (Z.leb_spec a b) end;
    simpl; try lia; f_equal; lia.
Qed.

Lemma hex4_roundtrip c rest :
  0 <= c <= 0xFFFF -> exists h1 h2 h3 h4, hex4 c ++ rest = h1 :: h2 :: h3 :: h4 :: rest /\
    hex4_value h1 h2 h3 h4 = Some c.
Proof.
  intros Hc. do 4 eexists. split; [done|]. unfold hex4_value.
  rewrite !hex_value_digit by (apply Z.mod_pos_bound; lia). f_equal.
  pose proof (Z.div_mod c 16 ltac:(lia)). pose proof (Z.div_mod (c / 16) 16 ltac:(lia)).
  pose proof (Z.div_mod (c / 256) 16 ltac:(lia)). pose proof (Z.div_mod (c / 4096) 16 ltac:(lia)).
  rewrite !Z.div_div in * by lia. simpl in *.
  assert (c / 65536 = 0) as E by (apply Z.div_small; lia). change (4096 * 16) with 65536 in *.
  change (16 * 16) with 256 in *. change (256 * 16) with 4096 in *. lia.
Qed.

Lemma unescape_char c rest :
  Utf16.is_code_point c = true -> unescape (escape_char c ++ rest) = cons c <$> unescape rest.
Proof.
  intros Hcp. unfold Utf16.is_code_point in Hcp. bool_to_prop. unfold escape_char.
  repeat match goal with |- context [if (c =? ?n) then _ else _] =>
    destruct (c =? n) eqn:?; [bool_to_prop; subst; done|] end.
  bool_to_prop.
  destruct ((c <? 32) || _ || _) eqn:E.
  - assert (0 <= c <= 0xFFFF) as Hc.
    { unfold Utf16.is_high, Utf16.is_low in E. rewrite !orb_true_iff, !andb_true_iff, !Z.ltb_lt, !Z.leb_le in E. lia. }
    destruct (hex4_roundtrip c rest Hc) as (h1 & h2 & h3 & h4 & Hr & Hv).
    rewrite <- app_assoc, Hr. simpl. by rewrite Hv.
  - bool_to_prop. simpl. rewrite (proj2 (Z.eqb_neq c 34)), (proj2 (Z.eqb_neq c 92)) by done.
    by rewrite (proj2 (Z.ltb_ge c 32)) by done.
Qed.

Lemma join_pair_range h l :
  Utf16.is_high h = true -> Utf16.is_low l = true -> 0x10000 <= Utf16.join_pair h l <= 0x10FFFF.
Proof.
  unfold Utf16.is_high, Utf16.is_low, Utf16.join_pair. intros. bool_to_prop.
  rewrite Z.shiftl_mul_pow2 by lia. lia.
Qed.

Lemma unescape_escape t :
  Forall (fun c => Utf16.is_code_point c = true) t ->
  unescape (escape t ++ dq) = Some (joined t).
Proof.
  remember (length t) as n eqn:En. revert t En.
  induction n as [n IH] using lt_wf_ind. intros [|c [|l t]] -> Hwf; [done| |].
  - apply Forall_cons in Hwf as [Hc _]. simpl. by rewrite unescape_char.
  - apply Forall_cons in Hwf as [Hc Hwf]. apply Forall_cons in Hwf as Hwf'. destruct Hwf' as [Hl Ht].
    change (escape (c :: l :: t)) with
      (if Utf16.is_high c && Utf16.is_low l then Utf16.join_pair c l :: escape t else escape_char c ++ escape (l :: t)).
    change (joined (c :: l :: t)) with
      (if Utf16.is_high c && Utf16.is_low l then Utf16.join_pair c l :: joined t else c :: joined (l :: t)).
    destruct (_ && _) eqn:E.
    + bool_to_prop. pose proof (join_pair_range c l ltac:(done) ltac:(done)).
      cbn [app unescape]. rewrite (proj2 (Z.eqb_neq _ 34)), (proj2 (Z.eqb_neq _ 92)), (proj2 (Z.ltb_ge _ 32)) by lia.
      by rewrite (IH (length t)) by (simpl; lia || done).
    + rewrite <- app_assoc, unescape_char by done.
      by rewrite (IH (length (l :: t))) by (simpl; lia || done).
Qed.

Lemma joined_units t : Utf16.to_units (joined t) = Utf16.to_units t.
Proof.
  remember (length t) as n eqn:En. revert t En.
  induction n as [n IH] using lt_wf_ind. intros [|c [|l t]] ->; [done|done|].
  change (joined (c :: l :: t)) with
    (if Utf16.is_high c && Utf16.is_low l then Utf16.join_pair c l :: joined t else c :: joined (l :: t)).
  destruct (Utf16.is_high c && Utf16.is_low l) eqn:E.
  - apply andb_prop in E as [Hc Hl]. rewrite !Utf16.to_units_cons, Utf16.pair_units by done.
    rewrite (IH (length t)) by (simpl; lia || done).
    assert (Utf16.cp_to_units c = [c]) as -> by (apply Utf16.bmp_units; unfold Utf16.is_high in Hc; bool_to_prop; lia).
    assert (Utf16.cp_to_units l = [l]) as -> by (apply Utf16.bmp_units; unfold Utf16.is_low in Hl; bool_to_prop; lia).
    done.
  - rewrite !(Utf16.to_units_cons c). f_equal. apply (IH (length (l :: t))); simpl; lia || done.
Qed.

(** ** Properties *)

(** A quoted text reads back: for every string of code points (lone surrogates included) the JSON
    literal [quote] writes is read by a strict JSON string reader, which escapes nothing early and
    leaves nothing over, as a string with the same UTF-16 code units; the text itself when no
    surrogate pair is held as two code points. *)
Theorem quote_roundtrip t :
  Forall (fun c => Utf16.is_code_point c = true) t ->
  exists t', unquote (quote t) = Some t' /\ Utf16.to_units t' = Utf16.to_units t /\
    ((forall i h l, t !! i = Some h -> t !! S i = Some l -> Utf16.is_high h && Utf16.is_low l = false) -> t' = t).
Proof.
  intros Hwf. exists (joined t). split_and!.
  - unfold unquote, quote. cbn [app dq]. change (34 =? 34) with true. cbv iota. by apply unescape_escape.
  - apply joined_units.
  - induction t as [|c t IH]; intros Hp; [done|]. apply Forall_cons in Hwf as [_ Hwf].
    assert (joined t = t) as Ht by (apply IH; [done|]; intros i h l; apply (Hp (S i))).
    destruct t as [|l t]; [done|].
    change (joined (c :: l :: t)) with
      (if Utf16.is_high c && Utf16.is_low l then Utf16.join_pair c l :: joined t else c :: joined (l :: t)).
    by rewrite (Hp 0%nat c l eq_refl eq_refl), Ht.
Qed.

Lemma quote_roundtrip_witness :
  exists t', unquote (quote [34; 10; 0xD800; 97]) = Some t' /\ t' = [34; 10; 0xD800; 97].
Proof.
  destruct (quote_roundtrip [34; 10; 0xD800; 97]) as (t' & H & _); [repeat constructor|].
  exists t'. split; [exact H|]. vm_compute in H. injection H as <-. reflexivity.
Defined.

(** C0 [to_fixed] rounds the exact binary value: for a finite double below 10^21 and [d] places, the
    text is the sign, digits and exactly [d] fraction digits, and the number they spell is within
    half a unit of the last place of the value, a tie going away from zero. *)
Theorem to_fixed_rounds x d :
  is_finite x = true -> fgeb (fabs x) TO_FIXED_LIMIT = false -> 0 <= d <= 100 ->
  exists whole fraction n,
    to_fixed x d = Ok ((if fltb x f_zero then u "-" else []) ++ whole ++ (if d =? 0 then [] else u "." ++ fraction)) /\
    whole <> [] /\ Z.of_nat (length fraction) = d /\
    Forall (fun c => is_digit c = true) (whole ++ fraction) /\ int_of_digits (whole ++ fraction) = n /\
    let '(num, den) := fratio (fabs x) in
    0 < den /\ den * (2 * n - 1) <= 2 * (num * 10 ^ d) < den * (2 * n + 1).
Proof.
  intros Hf Hl Hd. destruct (fratio_pos (fabs x)) as [Hn Hden].
  destruct (fratio (fabs x)) as [num den] eqn:Er. cbn [fst snd] in *.
  destruct (fixed_text_shape (round_half_up num den d) d) as (whole & fraction & Ht & Hne & Hlen & Hint & Hdig);
    [apply round_half_up_nonneg; lia|lia|].
  exists whole, fraction, (round_half_up num den d).
  split; [|split; [exact Hne|split; [exact Hlen|split; [exact Hdig|split; [exact Hint|split; [lia|]]]]]].
  - unfold to_fixed. rewrite (proj2 (Z.leb_le 0 d)), (proj2 (Z.leb_le d 100)) by lia. cbn [andb negb].
    rewrite Hf. cbn [negb]. rewrite Hl, Er, Ht. reflexivity.
  - apply round_half_up_spec. lia.
Qed.

(** 1.005 is below the decimal it is written as, so it rounds down. *)
Lemma to_fixed_rounds_witness :
  to_fixed (f_ratio 1005 1000) 2 = Ok (u "1.00") /\ exists n, n = 100 /\
    exists whole fraction, int_of_digits (whole ++ fraction) = n /\ length fraction = 2%nat.
Proof.
  split; [vm_compute; reflexivity|].
  destruct (to_fixed_rounds (f_ratio 1005 1000) 2 eq_refl eq_refl ltac:(lia))
    as (whole & fraction & n & Heq & _ & Hlen & _ & Hint & Hb).
  exists n. split; [|exists whole, fraction; split; [exact Hint|lia]].
  destruct (fratio (fabs (f_ratio 1005 1000))) as [num den] eqn:E. vm_compute in E. injection E as <- <-.
  destruct Hb as [_ Hb]. lia.
Defined.
