(* ===== verification/Ids.v ===== *)
(** * Safe and unique ids

    Models [ids.py]: [sanitize_id] and [ensure_unique_ids].  An item is a dictionary of strings
    (the schemas the callers parse allow nothing else). *)
From S2P Require Import Prelude Limits.
Open Scope Z_scope.

Abbreviation item := (list (list Z * list Z)).

Definition MAX_ID_LENGTH : Z := SANITIZE_ID_UNITS.

(** [[A-Za-z0-9_.-]]. *)
Definition is_safe (c : Z) : bool :=
  ((65 <=? c) && (c <=? 90)) || ((97 <=? c) && (c <=? 122)) || ((48 <=? c) && (c <=? 57))
  || (c =? 95) || (c =? 46) || (c =? 45).

(** [_UNSAFE.sub("_", raw)]: each maximal run of unsafe characters becomes one underscore.
    [in_run] says the previous character was unsafe. *)
Fixpoint collapse (in_run : bool) (t : text) : text :=
  match t with
  | [] => []
  | c :: t' =>
    if is_safe c then c :: collapse false t'
    else if in_run then collapse true t' else 95 :: collapse true t'
  end.

(** [strip("_")]. *)
Fixpoint lstrip_underscore (t : text) : text :=
  match t with
  | c :: t' => if c =? 95 then lstrip_underscore t' else t
  | [] => []
  end.

Definition strip_underscore (t : text) : text :=
  rev (lstrip_underscore (rev (lstrip_underscore t))).

Definition sanitize_id (raw : text) : text :=
  take (Z.to_nat MAX_ID_LENGTH) (strip_underscore (collapse false raw)).

Record UniqueIds := { ui_items : list item; ui_renamed : dict text }.

(** The suffix loop of one item: [while new_id in used].  [None] when the fuel runs out, which
    [next_id_total] excludes for fuel above the number of used ids. *)
Fixpoint next_id (fuel : nat) (used : gset text) (base new_id : text) (suffix : Z) : option text :=
  match fuel with
  | O => None
  | S fuel' =>
    if bool_decide (new_id ∈ used)
    then next_id fuel' used base (base ++ u "_" ++ str_of_Z suffix) (suffix + 1)
    else Some new_id
  end.

(** The fuel every use passes: one more than the ids in use. *)
Definition fresh_id_from (start : nat) (used : gset text) (base : text) : text :=
  or_else (next_id (S (size used)) used base base (Z.of_nat start)) base.

Definition fresh_id (used : gset text) (base : text) : text := fresh_id_from 1 used base.

Definition raw_id_of (it : item) : text := or_else (dget (u "id") it) [].

Definition base_id (fallback_prefix : text) (index : nat) (it : item) : text :=
  let base := sanitize_id (raw_id_of it) in
  if bool_decide (base = []) then fallback_prefix ++ str_of_nat index else base.

Fixpoint unique_ids_from (fallback_prefix : text) (index : nat) (items : list item)
    (used : gset text) (renamed : dict text) : UniqueIds :=
  match items with
  | [] => {| ui_items := []; ui_renamed := renamed |}
  | it :: items' =>
    let raw_id := raw_id_of it in
    let new_id := fresh_id used (base_id fallback_prefix index it) in
    let renamed' :=
      if negb (bool_decide (raw_id = [])) && negb (bool_decide (raw_id = new_id))
      then dset raw_id new_id renamed else renamed in
    let rest := unique_ids_from fallback_prefix (S index) items' ({[new_id]} ∪ used) renamed' in
    {| ui_items := dset (u "id") new_id it :: ui_items rest; ui_renamed := ui_renamed rest |}
  end.

Definition ensure_unique_ids (items : list item) (fallback_prefix : text) : UniqueIds :=
  unique_ids_from fallback_prefix 0 items ∅ [].

(** [item["id"]] of an item that went through [ensure_unique_ids]. *)
Definition id_of (it : item) : text := or_else (dget (u "id") it) (u "None").

(** The names the suffix loop tries, in order. *)
Definition tried (start : nat) (base : text) (k : nat) : text :=
  match k with O => base | S k' => base ++ u "_" ++ str_of_nat (start + k') end.

(** ** The suffix loop terminates *)
#[export] Instance tried_inj start base : Inj (=) (=) (tried start base).
Proof.
  intros [|n] [|m]; unfold tried; [done| | |].
  - intros H%(f_equal length). rewrite !length_app in H. simpl in H. lia.
  - intros H%(f_equal length). rewrite !length_app in H. simpl in H. lia.
  - intros H%app_inv_head%app_inv_head%str_of_nat_inj. f_equal. lia.
Qed.

Lemma next_id_None start fuel used base k :
  next_id fuel used base (tried start base k) (Z.of_nat (start + k)) = None ->
  forall i, (i < fuel)%nat -> tried start base (k + i) ∈ used.
Proof.
  revert k. induction fuel as [|fuel IH]; intros k; cbn [next_id]; [intros _ i; lia|].
  case_bool_decide as Hin; [|done]. intros H [|i] Hi; [by rewrite Nat.add_0_r|].
  rewrite <- Nat.add_succ_comm. apply IH; [|lia]. rewrite <- H. f_equal. lia.
Qed.

Lemma next_id_total start used base : exists x, next_id (S (size used)) used base base (Z.of_nat start) = Some x.
Proof.
  destruct (next_id (S (size used)) used base base (Z.of_nat start)) as [x|] eqn:E; [by exists x|]. exfalso.
  assert (forall i, (i < S (size used))%nat -> tried start base (0 + i) ∈ used) as Hall.
  { apply next_id_None. rewrite Nat.add_0_r. exact E. }
  set (l := tried start base <$> seq 0 (S (size used))).
  assert (NoDup l) as Hnd by (apply NoDup_fmap_2; [apply _|apply NoDup_seq]).
  assert (list_to_set l ⊆ used) as Hsub.
  { intros x. rewrite elem_of_list_to_set. intros (i & -> & Hi)%list_elem_of_fmap.
    apply elem_of_seq in Hi. apply (Hall i). lia. }
  apply subseteq_size in Hsub. rewrite size_list_to_set in Hsub by done.
  unfold l in Hsub. rewrite length_fmap, length_seq in Hsub. lia.
Qed.

Lemma next_id_fresh fuel used base new_id suffix x :
  next_id fuel used base new_id suffix = Some x -> x ∉ used.
Proof.
  revert new_id suffix. induction fuel as [|fuel IH]; intros new_id suffix; simpl; [done|].
  case_bool_decide; [apply IH|]. by intros [= <-].
Qed.

Lemma fresh_id_from_fresh start used base : fresh_id_from start used base ∉ used.
Proof.
  unfold fresh_id_from. destruct (next_id_total start used base) as [x Hx]. rewrite Hx. simpl.
  by eapply next_id_fresh.
Qed.

Lemma fresh_id_fresh used base : fresh_id used base ∉ used.
Proof. apply fresh_id_from_fresh. Qed.

Lemma fresh_id_unused used base : base ∉ used -> fresh_id used base = base.
Proof. intros H. unfold fresh_id, fresh_id_from. simpl. by rewrite bool_decide_eq_false_2. Qed.

(** ** ensure_unique_ids *)
Lemma unique_ids_from_ids prefix index items used renamed :
  let out := ui_items (unique_ids_from prefix index items used renamed) in
  NoDup (id_of <$> out) /\ Forall (fun it => id_of it ∉ used) out.
Proof.
  revert index used renamed. induction items as [|it items IH]; intros index used renamed; simpl.
  - split; constructor.
  - set (new_id := fresh_id used _). match goal with |- context [unique_ids_from _ _ _ _ ?r] => set (r' := r) end.
    destruct (IH (S index) ({[new_id]} ∪ used) r') as [Hnd Hall].
    assert (id_of (dset (u "id") new_id it) = new_id) as Hid by (unfold id_of; by rewrite dget_dset_eq).
    split.
    + simpl. rewrite Hid. apply NoDup_cons. split; [|done].
      intros (it' & Heq & Hin)%list_elem_of_fmap. eapply Forall_forall in Hall; [|done]. set_solver.
    + constructor; [rewrite Hid; apply fresh_id_fresh|].
      eapply Forall_impl; [done|]. simpl. set_solver.
Qed.

Lemma unique_ids_from_length prefix index items used renamed :
  length (ui_items (unique_ids_from prefix index items used renamed)) = length items.
Proof.
  revert index used renamed. induction items as [|it items IH]; intros; simpl; [done|]. by rewrite IH.
Qed.

Lemma ensure_unique_ids_length items prefix :
  length (ui_items (ensure_unique_ids items prefix)) = length items.
Proof. apply unique_ids_from_length. Qed.

Lemma ensure_unique_ids_NoDup items prefix :
  NoDup (id_of <$> ui_items (ensure_unique_ids items prefix)).
Proof. apply unique_ids_from_ids. Qed.

(** Only the [id] of an item changes. *)
Lemma unique_ids_from_other prefix index items used renamed :
  Forall2 (fun it out => forall k, k <> u "id" -> dget k out = dget k it)
    items (ui_items (unique_ids_from prefix index items used renamed)).
Proof.
  revert index used renamed. induction items as [|it items IH]; intros; simpl; constructor; [|apply IH].
  intros k Hk. by apply dget_dset_ne.
Qed.

Lemma ensure_unique_ids_other items prefix :
  Forall2 (fun it out => forall k, k <> u "id" -> dget k out = dget k it)
    items (ui_items (ensure_unique_ids items prefix)).
Proof. apply unique_ids_from_other. Qed.

Lemma ensure_unique_ids_has_id items prefix :
  Forall (fun out => exists i, dget (u "id") out = Some i) (ui_items (ensure_unique_ids items prefix)).
Proof.
  unfold ensure_unique_ids. generalize 0%nat (∅ : gset text) (@nil (text * text)).
  induction items as [|it items IH]; intros index used renamed; [constructor|].
  cbn [unique_ids_from ui_items]. constructor; [|apply IH]. eexists. apply dget_dset_eq.
Qed.

(** ** sanitize_id *)
Lemma collapse_safe b t : Forall (fun c => is_safe c = true) (collapse b t).
Proof.
  revert b. induction t as [|c t IH]; intros b; simpl; [constructor|].
  destruct (is_safe c) eqn:E; [by constructor|]. destruct b; [apply IH|]. by constructor.
Qed.

Lemma lstrip_suffix t : lstrip_underscore t `suffix_of` t.
Proof.
  induction t as [|c t IH]; simpl; [done|]. destruct (_ =? _); [|done]. by apply suffix_cons_r.
Qed.

Lemma strip_safe t : Forall (fun c => is_safe c = true) t -> Forall (fun c => is_safe c = true) (strip_underscore t).
Proof.
  intros H. unfold strip_underscore. apply Forall_rev.
  assert (forall l, Forall (fun c => is_safe c = true) l -> Forall (fun c => is_safe c = true) (lstrip_underscore l)) as Hl.
  { intros l Hl. destruct (lstrip_suffix l) as [k Hk]. rewrite Hk in Hl. by apply Forall_app in Hl as [_ ?]. }
  apply Hl, Forall_rev, Hl, H.
Qed.

Lemma sanitize_id_safe raw :
  Forall (fun c => is_safe c = true) (sanitize_id raw) /\ (length (sanitize_id raw) <= 64)%nat.
Proof.
  unfold sanitize_id. split.
  - apply Forall_take, strip_safe, collapse_safe.
  - rewrite length_take. change (Z.to_nat MAX_ID_LENGTH) with 64%nat. lia.
Qed.

(** A safe id without edge underscores, within the bound, is kept as it is. *)
Lemma collapse_id t : Forall (fun c => is_safe c = true) t -> collapse false t = t.
Proof. induction 1 as [|c t Hc _ IH]; simpl; [done|]. by rewrite Hc, IH. Qed.

Lemma lstrip_id t : head t <> Some 95 -> lstrip_underscore t = t.
Proof.
  destruct t as [|c t]; simpl; [done|]. intros H.
  destruct (c =? 95) eqn:E; [bool_to_prop; by subst|done].
Qed.

Lemma sanitize_id_id t :
  Forall (fun c => is_safe c = true) t -> head t <> Some 95 -> last t <> Some 95 ->
  (length t <= 64)%nat -> sanitize_id t = t.
Proof.
  intros Hs Hh Hl Hlen. unfold sanitize_id, strip_underscore.
  rewrite collapse_id, (lstrip_id t), (lstrip_id (rev t)), rev_involutive.
  - apply take_ge. done.
  - destruct t as [|c t' _] using rev_ind; [done|]. rewrite rev_app_distr. by rewrite last_snoc in Hl.
  - done.
  - done.
Qed.

(** ** Properties *)
Lemma digits_safe n : Forall (fun c => is_safe c = true) (str_of_nat n).
Proof.
  rewrite str_of_nat_digits. eapply Forall_impl; [apply digits_digit; lia|].
  intros c. unfold is_digit, is_safe. intros H. bool_to_prop. lia.
Qed.

Lemma next_id_safe fuel used base new_id suffix x :
  Forall (fun c => is_safe c = true) base -> Forall (fun c => is_safe c = true) new_id -> 0 <= suffix ->
  next_id fuel used base new_id suffix = Some x -> Forall (fun c => is_safe c = true) x.
Proof.
  intros Hb. revert new_id suffix. induction fuel as [|fuel IH]; intros new_id suffix Hn Hs; cbn [next_id]; [done|].
  case_bool_decide; [|by intros [= <-]]. apply IH; [|lia].
  apply Forall_app. split; [done|]. apply Forall_app. split; [vm_compute; by repeat constructor|].
  rewrite <- (Z2Nat.id suffix) by done. apply digits_safe.
Qed.

Lemma fresh_id_safe used base : Forall (fun c => is_safe c = true) base -> Forall (fun c => is_safe c = true) (fresh_id used base).
Proof.
  intros Hb. unfold fresh_id, fresh_id_from. destruct (next_id_total 1 used base) as [x Hx]. rewrite Hx. cbn [or_else].
  eapply next_id_safe; [exact Hb|exact Hb| |exact Hx]. lia.
Qed.

Lemma unique_ids_from_safe prefix index items used renamed :
  Forall (fun c => is_safe c = true) prefix ->
  Forall (fun out => Forall (fun c => is_safe c = true) (id_of out)) (ui_items (unique_ids_from prefix index items used renamed)).
Proof.
  intros Hp. revert index used renamed. induction items as [|it items IH]; intros index used renamed; [constructor|].
  cbn [unique_ids_from ui_items]. constructor; [|apply IH]. unfold id_of at 1. rewrite dget_dset_eq. cbn [or_else].
  apply fresh_id_safe. unfold base_id. case_bool_decide; [|apply sanitize_id_safe].
  apply Forall_app. split; [done|apply digits_safe].
Qed.

(** Every list of items a tool sends carries safe, distinct ids: [ensure_unique_ids] keeps the
    items' number, order and every field but [id], gives each a non-missing id made of safe
    characters, no two equal, and the suffix search for a free one always ends. *)
Theorem ensure_unique_ids_safe items prefix :
  Forall (fun c => is_safe c = true) prefix ->
  let out := ui_items (ensure_unique_ids items prefix) in
  NoDup (id_of <$> out) /\
  Forall (fun it => (exists i, dget (u "id") it = Some i) /\ Forall (fun c => is_safe c = true) (id_of it)) out /\
  Forall2 (fun it o => forall k, k <> u "id" -> dget k o = dget k it) items out /\
  (forall start used base, exists x, next_id (S (size used)) used base base (Z.of_nat start) = Some x /\ x ∉ used).
Proof.
  intros Hp out. split_and!.
  - apply ensure_unique_ids_NoDup.
  - apply Forall_and. split; [apply ensure_unique_ids_has_id|by apply unique_ids_from_safe].
  - apply ensure_unique_ids_other.
  - intros start used base. destruct (next_id_total start used base) as [x Hx]. exists x.
    split; [exact Hx|by eapply next_id_fresh].
Qed.

(** Two ids that sanitize alike are told apart. *)
Lemma ensure_unique_ids_safe_witness :
  let out := ui_items (ensure_unique_ids [[(u "id", u "a b")]; [(u "id", u "a_b")]; [(u "text", u "t")]] (u "item")) in
  NoDup (id_of <$> out) /\ (id_of <$> out) = [u "a_b"; u "a_b_1"; u "item2"].
Proof.
  destruct (ensure_unique_ids_safe [[(u "id", u "a b")]; [(u "id", u "a_b")]; [(u "text", u "t")]] (u "item"))
    as [H _]; [vm_compute; by repeat constructor|]. split; [exact H|vm_compute; reflexivity].
Defined.
