(* ===== verification/Caps.v ===== *)
(** * Applying a cap

    Models [validation/caps.py]: [exceeds], [cap_text], the per-call [CapLedger] (the set of scopes
    it recorded, threaded as state) and the budget texts. *)
From S2P Require Import Prelude Float64 Text Limits Json Serialize.
Open Scope Z_scope.

(** Strictly over budget: the cap itself is allowed. *)
Definition exceeds (total cap : Z) : bool := cap <? total.

Record CappedText := { capped_value : text; capped_truncated : bool }.

Definition cap_text (t : text) (cap : Z) : CappedText :=
  {| capped_value := Utf16.truncate t cap; capped_truncated := exceeds (Utf16.length t) cap |}.

Inductive CapScope := ScopeContext | ScopeItem.

#[export] Instance CapScope_eq_dec : EqDecision CapScope.
Proof. solve_decision. Defined.

#[export] Instance CapScope_countable : Countable CapScope.
Proof.
  refine (inj_countable' (fun s => match s with ScopeContext => true | ScopeItem => false end)
            (fun b => if b : bool then ScopeContext else ScopeItem) _).
  by intros [].
Defined.

(** ** The ledger: the scopes cut so far *)
Abbreviation ledger := (gset CapScope).

Definition new_ledger : ledger := ∅.

(** [ledger.text(value, cap, scope)]: the cut text and the ledger after it. *)
Definition ledger_text (value : text) (cap : Z) (scope : CapScope) (l : ledger) : text * ledger :=
  let capped := cap_text value cap in
  (capped_value capped, if capped_truncated capped then {[scope]} ∪ l else l).

Definition ledger_note (scope : CapScope) (l : ledger) : ledger := {[scope]} ∪ l.
Definition context_cut (l : ledger) : bool := bool_decide (ScopeContext ∈ l).
Definition scopes (l : ledger) : gset CapScope := l.

(** [[ledger.text(v, cap, scope) for v in values]]. *)
Fixpoint ledger_texts (values : list text) (cap : Z) (scope : CapScope) (l : ledger)
    : list text * ledger :=
  match values with
  | [] => ([], l)
  | v :: values' =>
    let '(t, l1) := ledger_text v cap scope l in
    let '(ts, l2) := ledger_texts values' cap scope l1 in (t :: ts, l2)
  end.

(** ** Budget texts *)
Definition candidate_budget_error (total cap : Z) (remedy : text) : text :=
  u "Batch too large: " ++ str_of_Z total ++ u " candidate characters exceeds the " ++ str_of_Z cap
  ++ u " character budget. " ++ remedy.

Definition classify_budget_error (items classes cap : Z) : text :=
  u "Batch too large: " ++ str_of_Z items ++ u " items x " ++ str_of_Z classes
  ++ u " classes exceeds the " ++ locale_int cap ++ u " item-class budget. Split the batch.".

Definition gate_evidence_items_error (cap : Z) : text :=
  u "evidence exceeds " ++ str_of_Z cap ++ u " items; split the gate or trim the evidence.".

Definition gate_evidence_aggregate_error (cap : Z) : text :=
  u "evidence exceeds the " ++ locale_int cap
  ++ u "-character aggregate budget; split the gate or trim the evidence.".

Definition gate_diff_aggregate_error (cap : Z) : text :=
  u "diff exceeds the " ++ locale_int cap ++ u "-character aggregate budget".

Definition gate_diff_files_error (cap : Z) : text :=
  u "diff exceeds " ++ str_of_Z cap ++ u " files; split the diff or pass fewer files.".

(** ** Facts *)
Lemma ledger_text_scope value cap scope l :
  (ledger_text value cap scope l).2 = (if cap <? Utf16.length value then {[scope]} ∪ l else l).
Proof. done. Qed.

Lemma ledger_text_mono value cap scope l : l ⊆ (ledger_text value cap scope l).2.
Proof. rewrite ledger_text_scope. destruct (_ <? _); set_solver. Qed.

Lemma ledger_texts_mono values cap scope l : l ⊆ (ledger_texts values cap scope l).2.
Proof.
  revert l. induction values as [|v values IH]; intros l; [done|].
  cbn [ledger_texts]. pose proof (ledger_text_mono v cap scope l) as H1.
  destruct (ledger_text v cap scope l) as [t l1]. pose proof (IH l1) as H2.
  destruct (ledger_texts values cap scope l1) as [ts l2]. simpl in *. set_solver.
Qed.

Lemma ledger_texts_values values cap scope l :
  (ledger_texts values cap scope l).1 = (fun v => Utf16.truncate v cap) <$> values.
Proof.
  revert l. induction values as [|v values IH]; intros l; [done|].
  cbn [ledger_texts]. unfold ledger_text at 1. simpl.
  match goal with |- context [ledger_texts values cap scope ?x] => specialize (IH x); destruct (ledger_texts values cap scope x) end.
  simpl in *. by rewrite IH.
Qed.

(** The scope is recorded exactly when some text was over the cap (or it was recorded before). *)
Lemma ledger_texts_scope values cap scope l :
  scope ∈ (ledger_texts values cap scope l).2 <->
  scope ∈ l \/ Exists (fun v => cap < Utf16.length v) values.
Proof.
  revert l. induction values as [|v values IH]; intros l.
  - simpl. rewrite Exists_nil. naive_solver.
  - cbn [ledger_texts]. pose proof (ledger_text_scope v cap scope l) as Hs.
    destruct (ledger_text v cap scope l) as [t l1]. pose proof (IH l1) as H2.
    destruct (ledger_texts values cap scope l1) as [ts l2]. simpl in *. rewrite H2, Hs, Exists_cons.
    destruct (cap <? Utf16.length v) eqn:E; bool_to_prop; set_solver by lia.
Qed.
