(* ===== verification/Domain.v ===== *)
(** * Questions, answers and usage

    Models [domain/questions.py], [domain/answers.py] and [domain/usage.py]: the canonical
    questions with their wire form, and the answers validation produces.  Constructors that raise
    in [__post_init__] are smart constructors returning a result. *)
From S2P Require Import Prelude Float64 Json.
Open Scope Z_scope.

(** ** Answers *)
Definition RUBRIC_SCORE_MAX : Z := 2.

Inductive ConfidenceKind := CkAbsent | CkMalformed | CkNumber.

#[export] Instance ConfidenceKind_eq_dec : EqDecision ConfidenceKind.
Proof. solve_decision. Defined.

Record ChoiceAnswer := {
  choice : text;
  probabilities : dict float;
  confidence : option float;
  confidence_kind_of : ConfidenceKind }.

Inductive value_error :=
| MalformedHasNumber   (* "A malformed confidence has no number." *)
| NumberNeedsValue     (* "A number confidence needs a value." *)
| ScoreNeedsTwoLevels. (* "Score criteria must list at least two levels." *)

(** [ChoiceAnswer.__post_init__]: the kind the object ends up with. *)
Definition choice_post_init (conf : option float) (kind : ConfidenceKind)
    : result value_error ConfidenceKind :=
  match conf with
  | Some _ =>
    match kind with
    | CkMalformed => Raise MalformedHasNumber
    | CkAbsent => Ok CkNumber
    | CkNumber => Ok CkNumber
    end
  | None => match kind with CkNumber => Raise NumberNeedsValue | k => Ok k end
  end.

Definition new_choice_answer (c : text) (ps : dict float) (conf : option float) (kind : ConfidenceKind)
    : result value_error ChoiceAnswer :=
  let? k := choice_post_init conf kind in
  Ok {| choice := c; probabilities := ps; confidence := conf; confidence_kind_of := k |}.

Record ScoreAnswer := { score : float; score_confidence : option float }.

Record RubricAnswer := {
  rubric_score : float; rubric_probabilities : dict float; rubric_confidence : option float }.

(** ** Questions *)
Abbreviation Description := value.

Record ChoiceQuestion := { cq_instructions : Description; cq_criteria : dict Description }.
Record NoulCriteria := { nc_true : Description; nc_false : Description }.
Record NoulQuestion := { nq_instructions : Description; nq_criteria : NoulCriteria }.
Record ScoreQuestion := { sq_instructions : Description; sq_criteria : list Description }.

(** [ScoreQuestion.__post_init__] rejects fewer than two levels. *)
Definition new_score_question (instructions : Description) (criteria : list Description)
    : result value_error ScoreQuestion :=
  if (length criteria <? 2)%nat then Raise ScoreNeedsTwoLevels
  else Ok {| sq_instructions := instructions; sq_criteria := criteria |}.

Inductive Question :=
| QChoice (q : ChoiceQuestion)
| QNoul (q : NoulQuestion)
| QScore (q : ScoreQuestion).

Definition choice_to_wire (q : ChoiceQuestion) : value :=
  VDict [(u "type", vs "choice"); (u "instructions", cq_instructions q);
         (u "criteria", VDict (cq_criteria q))].

Definition criteria_to_wire (c : NoulCriteria) : value :=
  VDict [(u "true", nc_true c); (u "false", nc_false c)].

Definition noul_to_wire (q : NoulQuestion) : value :=
  VDict [(u "type", vs "noul"); (u "instructions", nq_instructions q);
         (u "criteria", criteria_to_wire (nq_criteria q))].

Definition score_to_wire (q : ScoreQuestion) : value :=
  VDict [(u "type", vs "score"); (u "instructions", sq_instructions q);
         (u "criteria", VList (sq_criteria q))].

Definition to_wire (q : Question) : value :=
  match q with
  | QChoice q => choice_to_wire q
  | QNoul q => noul_to_wire q
  | QScore q => score_to_wire q
  end.

Definition questions_to_wire (questions : dict Question) : value :=
  VDict ((fun kv => (kv.1, to_wire kv.2)) <$> questions).

(** Shorthands of the tools: plain-text instructions and criteria. *)
Definition choice_question (instructions : text) (criteria : dict value) : Question :=
  QChoice {| cq_instructions := VStr instructions; cq_criteria := criteria |}.
Definition noul_question (instructions : text) (criteria : NoulCriteria) : Question :=
  QNoul {| nq_instructions := VStr instructions; nq_criteria := criteria |}.

(** ** Usage

    A count is an int or a float; it is kept as the JSON number it arrived as. *)
Record Usage := { input_tokens : value; output_tokens : value }.

Definition no_usage : Usage := {| input_tokens := VInt 0; output_tokens := VInt 0 |}.

Definition usage_to_wire (us : Usage) : value :=
  VDict [(u "input_tokens", input_tokens us); (u "output_tokens", output_tokens us)].

(** ** Facts *)
Lemma questions_to_wire_keys questions d :
  questions_to_wire questions = VDict d -> dkeys d = dkeys questions.
Proof. intros [= <-]. unfold dkeys. rewrite <- list_fmap_compose. by apply list_fmap_ext. Qed.
