(* ===== verification/Validation.v ===== *)
(** * Per-question answer validation

    Models [validation/choice.py], [extract.py], [noul.py], [score.py] and [numbers.py].  An answer
    is whatever JSON the provider returned; validation rejects it ([None]) or returns the typed
    answer.  Sums are taken one double add at a time in JS key order, as the source does. *)
From S2P Require Import Prelude Float64 Json Domain Serialize.
Open Scope Z_scope.

(** ** numbers.py *)
Definition unit_interval (v : value) : option float :=
  match as_number v with
  | Some n =>
    if negb (is_finite n) || fltb n f_zero || fgtb n f_one then None else Some n
  | None => None
  end.

Definition confidence_kind (answer : dict value) : ConfidenceKind :=
  match get (u "confidence") answer with
  | VNone => CkAbsent
  | v => match unit_interval v with None => CkMalformed | Some _ => CkNumber end
  end.

Definition confidence_of (answer : dict value) : option float :=
  unit_interval (get (u "confidence") answer).

(** ** choice.py *)
Definition PROBABILITY_SUM_TOLERANCE : float := fadd (f_ratio 1 100) (f_ratio 1 (10 ^ 12)).
Definition ARGMAX_TOLERANCE : float := f_ratio 1 (10 ^ 9).

(** The loop that reads every probability, in the answer's key order, and gives up at the first
    bad one. *)
Fixpoint read_probabilities (raw : dict value) : option (dict float) :=
  match raw with
  | [] => Some []
  | (k, v) :: raw' =>
    match unit_interval v with
    | None => None
    | Some p => match read_probabilities raw' with None => None | Some ps => Some ((k, p) :: ps) end
    end
  end.

Definition prob (ps : dict float) (k : text) : float := or_else (dget k ps) f_zero.

Definition js_sum (ps : dict float) : float :=
  fold_left (fun total k => fadd total (prob ps k)) (js_key_order (dkeys ps)) f_zero.

(** [max(probabilities.values())] of a non-empty dictionary. *)
Definition max_value (ps : dict float) : float :=
  match dvalues ps with x :: l => max_list x l | [] => f_zero end.

Definition key_set (keys : list text) : gset text := list_to_set keys.

(** The keys of the probabilities are exactly the expected ones: same number, all expected. *)
Definition keys_match (keys : list text) (expected : gset text) : bool :=
  (length keys =? size expected)%nat && forallb (fun k => bool_decide (k ∈ expected)) keys.

Definition validate_choice (answer : value) (expected_keys : list text) : option ChoiceAnswer :=
  match is_json_object answer with
  | None => None
  | Some d =>
    match get (u "choice") d, is_json_object (get (u "probabilities") d) with
    | VStr c, Some raw =>
      let expected := key_set expected_keys in
      if negb (bool_decide (c ∈ expected)) || negb (keys_match (dkeys raw) expected) then None
      else
        match read_probabilities raw with
        | None => None
        | Some ps =>
          if fgtb (fabs (fsub (js_sum ps) f_one)) PROBABILITY_SUM_TOLERANCE then None
          else if fltb (prob ps c) (fsub (max_value ps) ARGMAX_TOLERANCE) then None
          else
            (* [ChoiceAnswer(...)]: the constructor never raises here, see
               [validate_choice_post_init]. *)
            match new_choice_answer c ps (confidence_of d) (confidence_kind d) with
            | Ok a => Some a
            | Raise _ => None
            end
        end
    | _, _ => None
    end
  end.

Definition sorted_desc (l : list float) : list float := stable_sort (fun a b => fgtb a b) l.

(** [margin]: top probability minus the runner-up; no mapping counts as the empty one. *)
Definition margin (ps : option (dict float)) : float :=
  match sorted_desc (dvalues (or_else ps [])) with
  | x :: y :: _ => fsub x y
  | _ => f_zero
  end.

Definition top_probability (a : ChoiceAnswer) : float := prob (probabilities a) (choice a).

(** ** extract.py *)
Definition EXTRACT_SUM_TOLERANCE : float := f_ratio 1 100.

Definition validate_extract_choice (answer : value) (expected_keys : list text) : option ChoiceAnswer :=
  match is_json_object answer with
  | None => None
  | Some d =>
    let raw := or_else (is_json_object (get (u "probabilities") d)) [] in
    match get (u "choice") d with
    | VStr c =>
      let expected := key_set expected_keys in
      if negb (bool_decide (c ∈ expected)) || negb (keys_match (dkeys raw) expected) then None
      else
        match read_probabilities raw with
        | None => None
        | Some ps =>
          if negb (fleb (fabs (fsub (js_sum ps) f_one)) EXTRACT_SUM_TOLERANCE) then None
          else if negb (fgeb (prob ps c) (fsub (max_value ps) ARGMAX_TOLERANCE)) then None
          else
            match new_choice_answer c ps (confidence_of d) CkAbsent with
            | Ok a => Some a
            | Raise _ => None
            end
        end
    | _ => None
    end
  end.

(** ** noul.py *)
Definition validate_noul (answer : value) : option float :=
  match is_json_object answer with
  | None => None
  | Some d => unit_interval (get (u "noul") d)
  end.

(** ** score.py *)
Definition MAX_SCORE : Z := RUBRIC_SCORE_MAX.

(** A finite number in [0, top]. *)
Definition score_in (top : Z) (v : value) : option float :=
  match as_number v with
  | Some s =>
    if negb (is_finite s) || fltb s f_zero || fgtb s (f_of_Z top) then None else Some s
  | None => None
  end.

Definition validate_score (answer : value) : option ScoreAnswer :=
  match is_json_object answer with
  | None => None
  | Some d =>
    match score_in MAX_SCORE (get (u "score") d) with
    | None => None
    | Some s => Some {| score := s; score_confidence := confidence_of d |}
    end
  end.

Definition level_keys (level_count : nat) : list text := str_of_nat <$> seq 0 level_count.

Definition validate_rubric_answer (answer : value) (level_count : nat) : option RubricAnswer :=
  match is_json_object answer with
  | None => None
  | Some d =>
    match score_in (Z.of_nat level_count - 1) (get (u "score") d) with
    | None => None
    | Some s =>
      let conf := confidence_of d in
      match is_json_object (get (u "probabilities") d) with
      | None => None
      | Some raw =>
        let expected := key_set (level_keys level_count) in
        if negb (length (dkeys raw) =? level_count)%nat
           || existsb (fun k => negb (bool_decide (k ∈ expected))) (dkeys raw) then None
        else
          match read_probabilities raw with
          | None => None
          | Some ps =>
            if fgtb (fabs (fsub (js_sum ps) f_one)) PROBABILITY_SUM_TOLERANCE then None
            else Some {| rubric_score := s; rubric_probabilities := ps; rubric_confidence := conf |}
          end
      end
    end
  end.

(** ** What an accepted answer satisfies *)

Lemma tolerance_num : knum PROBABILITY_SUM_TOLERANCE.
Proof. by vm_compute. Qed.

Lemma argmax_tolerance_finite : is_finite ARGMAX_TOLERANCE = true.
Proof. by vm_compute. Qed.

Lemma unit_interval_spec v p :
  unit_interval v = Some p <-> as_number v = Some p /\ in_unit p.
Proof.
  unfold unit_interval, in_unit. destruct (as_number v) as [n|]; [|by split; [|intros [? _]]].
  destruct (is_finite n) eqn:F; simpl; [|by split; [|intros [[= ->] [? _]]; congruence]].
  pose proof (finite_num _ F) as N. unfold fgtb.
  pose proof (fleb_negb n f_zero N eq_refl) as H1. pose proof (fleb_negb f_one n eq_refl N) as H2.
  destruct (fltb n f_zero), (fltb f_one n); simpl in *;
    (split; [intros [= <-]; done|intros [[= <-] ?]; split_and_all; congruence]).
Qed.

Lemma read_probabilities_spec raw ps :
  read_probabilities raw = Some ps <->
  Forall2 (fun kv kp => kv.1 = kp.1 /\ unit_interval kv.2 = Some kp.2) raw ps.
Proof.
  revert ps. induction raw as [|[k v] raw IH]; intros ps; simpl.
  - split; [intros [= <-]; constructor|by intros ->%Forall2_nil_inv_l].
  - destruct (unit_interval v) as [p|] eqn:E; [|split; [done|inversion 1; simpl in *; split_and_all; congruence]].
    destruct (read_probabilities raw) as [qs|]; split.
    + intros [= <-]. constructor; [done|]. by apply IH.
    + inversion 1 as [|? [k' p'] ? qs' [Hk Hp] Hq]; simplify_eq/=. apply IH in Hq. congruence.
    + done.
    + inversion 1 as [|? [k' p'] ? qs' [Hk Hp] Hq]; simplify_eq/=. by apply IH in Hq.
Qed.

Lemma read_probabilities_keys raw ps : read_probabilities raw = Some ps -> dkeys ps = dkeys raw.
Proof.
  intros H%read_probabilities_spec. unfold dkeys.
  induction H as [|[? ?] [? ?] ? ? [? _]]; simpl in *; [done|]. unfold fmap in *. congruence.
Qed.

Lemma read_probabilities_unit raw ps : read_probabilities raw = Some ps -> Forall in_unit (dvalues ps).
Proof.
  intros H%read_probabilities_spec. unfold dvalues.
  induction H as [|? ? ? ? [_ Hu]]; simpl in *; constructor; [|done].
  by apply unit_interval_spec in Hu as [_ ?].
Qed.

Lemma prob_nonneg ps k : Forall in_unit (dvalues ps) -> nonneg (prob ps k) = true.
Proof.
  intros Hu. unfold prob. destruct (dget k ps) as [p|] eqn:E; [|done].
  apply dget_elem in E. apply in_unit_nonneg. eapply Forall_forall in Hu; [done|].
  apply list_elem_of_fmap. by exists (k, p).
Qed.

Lemma fold_sum_nonneg ps l acc :
  Forall in_unit (dvalues ps) -> nonneg acc = true ->
  nonneg (fold_left (fun total k => fadd total (prob ps k)) l acc) = true.
Proof.
  intros Hu. revert acc. induction l as [|k l IH]; intros acc Ha; simpl; [done|].
  apply IH, fadd_nonneg; [done|by apply prob_nonneg].
Qed.

Lemma js_sum_distance_num ps :
  Forall in_unit (dvalues ps) -> knum (fabs (fsub (js_sum ps) f_one)).
Proof.
  intros Hu. apply nonneg_num, fabs_nonneg, fsub_num; [|done].
  apply nonneg_num. by apply fold_sum_nonneg.
Qed.

Lemma max_value_spec ps :
  ps <> [] -> Forall in_unit (dvalues ps) ->
  max_value ps ∈ dvalues ps /\ Forall (fun p => fleb p (max_value ps) = true) (dvalues ps).
Proof.
  intros Hne Hu. unfold max_value. destruct (dvalues ps) as [|x l] eqn:E.
  { by destruct ps as [|[k p] ps]. }
  apply max_list_spec. eapply Forall_impl; [done|]. apply in_unit_num.
Qed.

Lemma keys_match_spec keys expected :
  NoDup keys ->
  keys_match keys (key_set expected) = true <-> forall k, k ∈ keys <-> k ∈ expected.
Proof.
  intros Hnd. unfold keys_match.
  assert (size (list_to_set keys : gset text) = length keys) as Hsz by by apply size_list_to_set.
  assert (forall k, k ∈ key_set expected <-> k ∈ expected) as Hks.
  { intros k. unfold key_set. apply elem_of_list_to_set. }
  assert (forallb (fun k => bool_decide (k ∈ key_set expected)) keys = true <->
          forall k, k ∈ keys -> k ∈ expected) as Hall.
  { rewrite forallb_forall. setoid_rewrite bool_decide_eq_true. setoid_rewrite Hks.
    by setoid_rewrite <- list_elem_of_In. }
  rewrite andb_true_iff, Nat.eqb_eq, Hall. split.
  - intros [Hlen Hsub] k. split; [apply Hsub|]. intros Hk.
    assert ((list_to_set keys : gset text) ≡ key_set expected) as Heq.
    { apply set_subseteq_size_equiv; [|lia]. intros x. rewrite elem_of_list_to_set, Hks. apply Hsub. }
    rewrite <- Hks, <- Heq, elem_of_list_to_set in Hk. done.
  - intros Heq. split; [|naive_solver].
    rewrite <- Hsz. f_equal. apply leibniz_equiv. intros x. rewrite elem_of_list_to_set, Hks. apply Heq.
Qed.

(** The contract of an accepted choice answer: the choice is expected, the probabilities have
    exactly the expected keys, each number in the unit interval, their sum is within [limit] of 1,
    and the chosen probability is within the tie tolerance of the maximum. *)
Record WellFormed (limit : float) (expected : list text) (c : text) (raw : dict value) (ps : dict float) : Prop := {
  wf_choice : c ∈ expected;
  wf_keys : forall k, k ∈ dkeys raw <-> k ∈ expected;
  wf_values : Forall2 (fun kv kp => kv.1 = kp.1 /\ unit_interval kv.2 = Some kp.2) raw ps;
  wf_sum : fleb (fabs (fsub (js_sum ps) f_one)) limit = true;
  wf_top : fleb (fsub (max_value ps) ARGMAX_TOLERANCE) (prob ps c) = true }.

Lemma wf_read limit expected c raw ps :
  WellFormed limit expected c raw ps -> read_probabilities raw = Some ps.
Proof. intros []. by apply read_probabilities_spec. Qed.

Lemma wf_nonempty limit expected c raw ps : WellFormed limit expected c raw ps -> ps <> [].
Proof.
  intros Hwf ->. pose proof (wf_read _ _ _ _ _ Hwf) as Hr%read_probabilities_keys.
  destruct Hwf as [Hc Hk _ _ _]. apply Hk in Hc. rewrite <- Hr in Hc. by apply elem_of_nil in Hc.
Qed.

Lemma chosen_probability_num ps c : Forall in_unit (dvalues ps) -> knum (prob ps c).
Proof. intros. by apply nonneg_num, prob_nonneg. Qed.

Lemma max_value_finite ps : Forall in_unit (dvalues ps) -> ps <> [] -> in_unit (max_value ps).
Proof.
  intros Hu Hne. destruct (max_value_spec ps Hne Hu) as [Hin _]. by eapply Forall_forall in Hin.
Qed.

(** The constructor never raises on what validation passes it: the recorded kind and the number
    always agree. *)
Lemma confidence_of_kind d :
  choice_post_init (confidence_of d) (confidence_kind d) = Ok (confidence_kind d).
Proof.
  unfold confidence_of, confidence_kind, choice_post_init.
  destruct (get (u "confidence") d) eqn:E; simpl; try done;
    by destruct (unit_interval _) as [?|].
Qed.

Lemma confidence_of_absent d : exists k, choice_post_init (confidence_of d) CkAbsent = Ok k.
Proof. unfold choice_post_init. destruct (confidence_of d); eauto. Qed.

Lemma validate_choice_post_init c ps d :
  new_choice_answer c ps (confidence_of d) (confidence_kind d) =
  Ok {| choice := c; probabilities := ps; confidence := confidence_of d;
        confidence_kind_of := confidence_kind d |}.
Proof. unfold new_choice_answer. by rewrite confidence_of_kind. Qed.

Section Accepted.
Context (expected : list text) (c : text) (d raw : dict value) (ps : dict float).
Context (Hwf : WellFormed PROBABILITY_SUM_TOLERANCE expected c raw ps).
Context (Hchoice : get (u "choice") d = VStr c) (Hraw : get (u "probabilities") d = VDict raw).
Context (Hnd : NoDup (dkeys raw)).

Lemma validate_choice_accepts :
  validate_choice (VDict d) expected =
  Some {| choice := c; probabilities := ps; confidence := confidence_of d;
          confidence_kind_of := confidence_kind d |}.
Proof.
  pose proof (wf_read _ _ _ _ _ Hwf) as Hr. pose proof (read_probabilities_unit _ _ Hr) as Hu.
  pose proof (max_value_finite _ Hu (wf_nonempty _ _ _ _ _ Hwf)) as Hm.
  destruct Hwf as [Hc Hk _ Hs Ht].
  unfold validate_choice, is_json_object. rewrite Hchoice, Hraw, Hr.
  rewrite (proj2 (keys_match_spec _ _ Hnd) Hk), bool_decide_eq_true_2 by by apply elem_of_list_to_set.
  cbn [negb orb]. unfold fgtb. rewrite (fleb_fltb_absurd _ _ Hs).
  rewrite (fleb_fltb_absurd _ _ Ht). by rewrite validate_choice_post_init.
Qed.
End Accepted.

Lemma validate_choice_inv d expected a :
  wf_value (VDict d) -> validate_choice (VDict d) expected = Some a ->
  exists raw,
    get (u "choice") d = VStr (choice a) /\ get (u "probabilities") d = VDict raw /\
    NoDup (dkeys raw) /\
    WellFormed PROBABILITY_SUM_TOLERANCE expected (choice a) raw (probabilities a) /\
    confidence a = confidence_of d /\ confidence_kind_of a = confidence_kind d.
Proof.
  intros Hwf. unfold validate_choice, is_json_object.
  destruct (get (u "choice") d) as [| | | |c| |] eqn:Hc; try done.
  pose proof (get_wf (u "probabilities") d Hwf) as Hwp.
  destruct (get (u "probabilities") d) as [| | | | | |raw] eqn:Hraw; try done.
  destruct Hwp as [Hnd _].
  destruct (negb _ || negb _) eqn:Hk; [done|].
  destruct (read_probabilities raw) as [ps|] eqn:Hr; [|done].
  destruct (fgtb _ _) eqn:Hs; [done|]. destruct (fltb (prob ps c) _) eqn:Ht; [done|].
  rewrite validate_choice_post_init. intros [= <-]. simpl.
  pose proof (read_probabilities_unit _ _ Hr) as Hu. bool_to_prop.
  match goal with K : keys_match _ _ = true |- _ => rename K into Hkm end.
  pose proof (proj1 (keys_match_spec _ _ Hnd) Hkm) as Hkeys.
  match goal with K : c ∈ key_set _ |- _ => apply elem_of_list_to_set in K; rename K into Hin end.
  assert (ps <> []) as Hne.
  { intros ->. apply read_probabilities_keys in Hr. apply Hkeys in Hin. rewrite <- Hr in Hin.
    by apply elem_of_nil in Hin. }
  exists raw. split_and!; [reflexivity|reflexivity|exact Hnd| |reflexivity|reflexivity]. simpl.
  constructor; [exact Hin|exact Hkeys|by apply read_probabilities_spec| |].
  - rewrite fleb_negb; [|exact tolerance_num|by apply js_sum_distance_num].
    unfold fgtb in Hs. by rewrite Hs.
  - rewrite fleb_negb; [by rewrite Ht|by apply chosen_probability_num|].
    apply fsub_num; [|exact argmax_tolerance_finite]. by apply in_unit_num, max_value_finite.
Qed.


(** ** Extract's own validation *)
Lemma extract_tolerance_le : fleb EXTRACT_SUM_TOLERANCE PROBABILITY_SUM_TOLERANCE = true.
Proof. by vm_compute. Qed.

Lemma validate_extract_choice_inv d expected a :
  wf_value (VDict d) -> validate_extract_choice (VDict d) expected = Some a ->
  exists raw,
    get (u "choice") d = VStr (choice a) /\ get (u "probabilities") d = VDict raw /\
    NoDup (dkeys raw) /\
    WellFormed EXTRACT_SUM_TOLERANCE expected (choice a) raw (probabilities a) /\
    confidence a = confidence_of d.
Proof.
  intros Hwf. unfold validate_extract_choice. cbn [is_json_object].
  destruct (get (u "choice") d) as [| | | |c| |] eqn:Hc; try done.
  pose proof (get_wf (u "probabilities") d Hwf) as Hwp.
  set (raw := or_else (is_json_object (get (u "probabilities") d)) []).
  destruct (negb _ || negb _) eqn:Hk; [done|].
  destruct (read_probabilities raw) as [ps|] eqn:Hr; [|done].
  destruct (negb (fleb _ _)) eqn:Hs; [done|]. destruct (negb (fgeb _ _)) eqn:Ht; [done|].
  unfold new_choice_answer. destruct (confidence_of_absent d) as [k ->]. intros [= <-]. simpl.
  assert (NoDup (dkeys raw)) as Hnd.
  { subst raw. destruct (get (u "probabilities") d); simpl; try constructor. by destruct Hwp. }
  bool_to_prop.
  match goal with K : keys_match _ _ = true |- _ => rename K into Hkm end.
  pose proof (proj1 (keys_match_spec _ _ Hnd) Hkm) as Hkeys.
  match goal with K : c ∈ key_set _ |- _ => apply elem_of_list_to_set in K; rename K into Hin end.
  exists raw. split_and!; [reflexivity| |exact Hnd| |reflexivity].
  - subst raw. destruct (get (u "probabilities") d); simpl in *; [..|reflexivity];
      apply Hkeys in Hin; by apply elem_of_nil in Hin.
  - constructor; [exact Hin|exact Hkeys|by apply read_probabilities_spec|exact Hs|exact Ht].
Qed.

Lemma WellFormed_weaken limit limit' expected c raw ps :
  fleb limit limit' = true -> WellFormed limit expected c raw ps -> WellFormed limit' expected c raw ps.
Proof. intros Hle []. constructor; try assumption. by eapply fleb_trans. Qed.

(** Extract accepts only what the shared validator accepts, with the same choice, probabilities and
    confidence. *)
Lemma validate_extract_choice_refines answer expected a :
  wf_value answer -> validate_extract_choice answer expected = Some a ->
  exists a', validate_choice answer expected = Some a' /\
    choice a' = choice a /\ probabilities a' = probabilities a /\ confidence a' = confidence a.
Proof.
  intros Hwf Hv. destruct answer as [| | | | | |d]; try done.
  destruct (validate_extract_choice_inv d expected a Hwf Hv) as (raw & Hc & Hr & Hnd & Hok & Hcf).
  apply (WellFormed_weaken _ _ _ _ _ _ extract_tolerance_le) in Hok.
  pose proof (validate_choice_accepts expected _ d raw _ Hok Hc Hr Hnd) as Ha.
  eexists; split; [exact Ha|]. simpl. by rewrite Hcf.
Qed.

(** ** The other answers *)
Lemma validate_noul_unit answer p : validate_noul answer = Some p -> in_unit p.
Proof.
  unfold validate_noul. destruct (is_json_object answer); [|done].
  by intros [_ ?]%unit_interval_spec.
Qed.

Lemma confidence_of_unit d p : confidence_of d = Some p -> in_unit p.
Proof. by intros [_ ?]%unit_interval_spec. Qed.

Lemma score_in_bounds top v s :
  score_in top v = Some s -> is_finite s = true /\ fleb f_zero s = true /\ fleb s (f_of_Z top) = true.
Proof.
  unfold score_in. destruct (as_number v) as [n|]; [|done].
  destruct (is_finite n) eqn:F; simpl; [|done]. pose proof (finite_num _ F) as N. unfold fgtb.
  destruct (fltb n f_zero) eqn:L; simpl; [done|]. destruct (fltb (f_of_Z top) n) eqn:G; [done|].
  intros [= <-]. split; [done|]. split.
  - rewrite fleb_negb; [by rewrite L|done|done].
  - rewrite fleb_negb; [by rewrite G|apply f_of_Z_num|done].
Qed.

Lemma validate_score_bounds answer a :
  validate_score answer = Some a ->
  is_finite (score a) = true /\ fleb f_zero (score a) = true /\ fleb (score a) (f_of_Z 2) = true /\
  (forall c, score_confidence a = Some c -> in_unit c).
Proof.
  unfold validate_score. destruct (is_json_object answer) as [d|]; [|done].
  destruct (score_in MAX_SCORE (get (u "score") d)) as [s|] eqn:E; [|done]. intros [= <-]. simpl.
  apply score_in_bounds in E as (? & ? & ?). split_and!; [done..|]. apply confidence_of_unit.
Qed.

Lemma level_keys_NoDup n : NoDup (level_keys n).
Proof. apply NoDup_fmap_2; [apply _|apply NoDup_seq]. Qed.

Lemma level_keys_length n : length (level_keys n) = n.
Proof. unfold level_keys. by rewrite length_fmap, length_seq. Qed.

Lemma level_keys_elem n k : k ∈ level_keys n <-> exists i, (i < n)%nat /\ k = str_of_nat i.
Proof.
  unfold level_keys. rewrite list_elem_of_fmap. split.
  - intros (i & -> & Hi%elem_of_seq). exists i. split; [lia|done].
  - intros (i & Hi & ->). exists i. split; [done|]. apply elem_of_seq. lia.
Qed.

(** The rubric's key test is the shared one: exactly the keys ["0"] to ["n-1"]. *)
Lemma rubric_keys_match n keys :
  (negb (length keys =? n)%nat || existsb (fun k => negb (bool_decide (k ∈ key_set (level_keys n)))) keys)
  = negb (keys_match keys (key_set (level_keys n))).
Proof.
  unfold keys_match, key_set. rewrite size_list_to_set, level_keys_length by apply level_keys_NoDup.
  rewrite negb_andb. f_equal. clear. induction keys as [|k keys IH]; simpl; [done|].
  by rewrite IH, negb_andb.
Qed.

Lemma validate_rubric_answer_sound answer n a :
  wf_value answer -> validate_rubric_answer answer n = Some a ->
  fleb f_zero (rubric_score a) = true /\ fleb (rubric_score a) (f_of_Z (Z.of_nat n - 1)) = true /\
  NoDup (dkeys (rubric_probabilities a)) /\
  (forall k, k ∈ dkeys (rubric_probabilities a) <-> exists i, (i < n)%nat /\ k = str_of_nat i) /\
  Forall in_unit (dvalues (rubric_probabilities a)) /\
  fleb (fabs (fsub (js_sum (rubric_probabilities a)) f_one)) PROBABILITY_SUM_TOLERANCE = true /\
  (forall c, rubric_confidence a = Some c -> in_unit c).
Proof.
  intros Hwf. unfold validate_rubric_answer. destruct answer as [| | | | | |d]; try done. cbn [is_json_object].
  destruct (score_in _ _) as [s|] eqn:Es; [|done].
  pose proof (get_wf (u "probabilities") d Hwf) as Hwp.
  destruct (get (u "probabilities") d) as [| | | | | |raw]; try done. cbn [is_json_object].
  destruct Hwp as [Hnd _]. rewrite rubric_keys_match.
  destruct (negb _) eqn:Hk; [done|]. destruct (read_probabilities raw) as [ps|] eqn:Hr; [|done].
  destruct (fgtb _ _) eqn:Hs; [done|]. intros [= <-]. simpl.
  apply score_in_bounds in Es as (_ & ? & ?). apply negb_false_iff in Hk.
  pose proof (proj1 (keys_match_spec _ _ Hnd) Hk) as Hkeys.
  pose proof (read_probabilities_unit _ _ Hr) as Hu.
  rewrite (read_probabilities_keys _ _ Hr). split_and!; [done..| |done| |apply confidence_of_unit].
  - intros k. rewrite Hkeys. apply level_keys_elem.
  - unfold fgtb in Hs. rewrite fleb_negb; [by rewrite Hs|exact tolerance_num|by apply js_sum_distance_num].
Qed.

(** ** margin *)
Lemma sorted_desc_sorted l :
  Forall knum l -> StronglySorted (fun a b => fleb b a = true) (sorted_desc l).
Proof.
  intros Hl. unfold sorted_desc.
  assert (Forall knum (stable_sort (fun a b => fgtb a b) l)) as Hs by by rewrite stable_sort_perm.
  eapply (StronglySorted_weaken (in_order (fun a b => fgtb a b))).
  - intros a b Ha Hb. unfold in_order, fgtb. intros Hab.
    eapply Forall_forall in Ha; [|exact Hs]. eapply Forall_forall in Hb; [|exact Hs].
    by rewrite fleb_negb, Hab.
  - apply (stable_sort_sorted _ knum); [| |done].
    + unfold fgtb. intros a b c Na Nb Nc Hab Hbc.
      assert (fleb c a = true) as Hca.
      { eapply fleb_trans; [apply fltb_false; [| |exact Hbc]; done|]. by apply fltb_false. }
      by apply fleb_fltb_absurd.
    + unfold fgtb. intros a b Na Nb Hab. apply fltb_fleb in Hab. by apply fleb_fltb_absurd.
Qed.

(** ** Witness *)
Definition sample_choice : dict value :=
  [(u "choice", vs "b"); (u "probabilities", VDict [(u "a", VFloat (f_ratio 1 4)); (u "b", VFloat (f_ratio 3 4))]);
   (u "confidence", VFloat (f_ratio 9 10))].

