(* ===== verification/Policy.v ===== *)
(** * Policy: judgments to actions

    Models the package [policy/]: thresholds, actions and how they combine, claim policy and the
    gate's reason codes, jev_extract's field decision, ranking, patch review and screening.  All of
    it is pure; every comparison is a double comparison. *)
From S2P Require Import Prelude Float64 Json Serialize Ids.
Open Scope Z_scope.

(** ** actions.py *)
Inductive Action := Auto | Review | Escalate.

#[export] Instance Action_eq_dec : EqDecision Action.
Proof. solve_decision. Defined.

Definition action_text (a : Action) : text :=
  match a with Auto => u "auto" | Review => u "review" | Escalate => u "escalate" end.

(** [Decision] is the two-tier action, a subset of the same strings. *)
Abbreviation Decision := Action (only parsing).

Inductive FailClosedTool :=
| FcVerify | FcClassify | FcCompare | FcReview | FcGate | FcExtract | FcDecide | FcFind | FcRerank.

(** The token: an action, or [status] when the invalid row has no action key. *)
Inductive FailClosedToken := TokAction (a : Action) | TokStatus.

Definition fail_closed (tool : FailClosedTool) : FailClosedToken :=
  match tool with
  | FcReview | FcGate => TokAction Escalate
  | FcVerify | FcClassify | FcCompare => TokAction Review
  | FcExtract | FcDecide | FcFind | FcRerank => TokStatus
  end.

Definition verify_action (confidence auto_accept : float) : Decision :=
  if fgeb confidence auto_accept then Auto else Review.

Definition classification_decision (top_probability margin auto_accept minimum_margin : float) : Decision :=
  if fgeb top_probability auto_accept && fgeb margin minimum_margin then Auto else Review.

Definition require_complete_context (action : Action) (truncated : bool) : Action :=
  if truncated && bool_decide (action = Auto) then Review else action.

Definition worst_action (actions : list Action) : Action :=
  if mem Escalate actions then Escalate
  else if mem Review actions then Review
  else Auto.

(** ** thresholds.py *)
Definition POLICY_VERSION : text := u "2".
Definition DEFAULT_AUTO_ACCEPT : float := f_ratio 8 10.
Definition DEFAULT_REVIEW_AT_CAP : float := f_ratio 5 10.
Definition DEFAULT_COMPOSITE_FLOOR : float := f_ratio 7 10.
Definition DEFAULT_CLASSIFY_AUTO_ACCEPT : float := f_ratio 85 100.
Definition DEFAULT_MINIMUM_MARGIN : float := f_ratio 5 10.
Definition DEFAULT_SCREEN_BLOCK_AT : float := f_ratio 75 100.
Definition DEFAULT_SCREEN_REVIEW_AT : float := f_ratio 25 100.
Definition SCREEN_SUBSTANCE_SKIP_BELOW : float := f_ratio 3 10.
Definition SCREEN_RELEVANCE_SKIP_BELOW : float := f_ratio 3 10.
Definition EXISTS_FOUND_AT : float := f_ratio 7 10.
Definition EXISTS_ABSENT_BELOW : float := f_ratio 35 100.

Definition THRESHOLD_INVARIANT_MESSAGE : text :=
  u "Thresholds must satisfy 0 <= review_at <= auto_accept <= 1.".

Record PolicyThresholds := { auto_accept : float; review_at : float }.

(** A broken pair is a value with its message, not an exception. *)
Record ThresholdInvariant := { message : text }.

Definition validate_policy_thresholds (auto_accept review_at : float) : option ThresholdInvariant :=
  if negb (is_finite auto_accept) || negb (is_finite review_at)
     || fltb auto_accept f_zero || fgtb auto_accept f_one
     || fltb review_at f_zero || fgtb review_at f_one
     || fgtb review_at auto_accept
  then Some {| message := THRESHOLD_INVARIANT_MESSAGE |}
  else None.

Definition resolve_policy_thresholds (auto_accept : float) (review_at : option float)
    : PolicyThresholds + ThresholdInvariant :=
  let resolved := or_else review_at (py_min DEFAULT_REVIEW_AT_CAP auto_accept) in
  match validate_policy_thresholds auto_accept resolved with
  | Some refused => inr refused
  | None => inl {| auto_accept := auto_accept; review_at := resolved |}
  end.

(** ** claims.py *)
Inductive ClaimVerdict := Verified | Contradicted | Unsupported.

#[export] Instance ClaimVerdict_eq_dec : EqDecision ClaimVerdict.
Proof. solve_decision. Defined.

Definition verdict_text (v : ClaimVerdict) : text :=
  match v with
  | Verified => u "verified" | Contradicted => u "contradicted" | Unsupported => u "unsupported"
  end.

Inductive GateReason :=
| IncompleteContext | InvalidResponse | ReviewEscalated | ReviewRequired
| ClaimsContradicted | ClaimsUnsupported | ClaimConfidenceLow | ClaimConfidenceBelowAutoAccept
| CallerNoteOnly | Accepted.

#[export] Instance GateReason_eq_dec : EqDecision GateReason.
Proof. solve_decision. Defined.

Definition GATE_REASON_CODES : list GateReason :=
  [IncompleteContext; InvalidResponse; ReviewEscalated; ReviewRequired; ClaimsContradicted;
   ClaimsUnsupported; ClaimConfidenceLow; ClaimConfidenceBelowAutoAccept; CallerNoteOnly; Accepted].

Definition reason_text (r : GateReason) : text :=
  match r with
  | IncompleteContext => u "incomplete_context"
  | InvalidResponse => u "invalid_response"
  | ReviewEscalated => u "review_escalated"
  | ReviewRequired => u "review_required"
  | ClaimsContradicted => u "claims_contradicted"
  | ClaimsUnsupported => u "claims_unsupported"
  | ClaimConfidenceLow => u "claim_confidence_low"
  | ClaimConfidenceBelowAutoAccept => u "claim_confidence_below_auto_accept"
  | CallerNoteOnly => u "caller_note_only"
  | Accepted => u "accepted"
  end.

(** The first evidence item with that id. *)
Definition find_item (id : text) (evidence : list item) : option item :=
  List.find (fun entry => bool_decide (id_of entry = id)) evidence.

Definition is_caller_note (entry : item) : bool :=
  bool_decide (dget (u "kind") entry = Some (u "caller_note")).

Definition note_blocks_auto (action : Action) (support : option text) (evidence : list item) : bool :=
  match action, support with
  | Auto, Some s => match find_item s evidence with Some entry => is_caller_note entry | None => false end
  | _, _ => false
  end.

Definition verify_claim_action (confidence : option float) (auto_accept : float)
    (source : option text) (evidence : list item) : Action :=
  let action := match confidence with None => Review | Some c => verify_action c auto_accept end in
  if note_blocks_auto action source evidence then Review else action.

Definition claim_action (verdict : ClaimVerdict) (confidence : option float)
    (auto_accept review_at : float) : Action :=
  match confidence with
  | None => Escalate
  | Some c =>
    if fltb c review_at then Escalate
    else if bool_decide (verdict = Contradicted) && fgeb c auto_accept then Escalate
    else if bool_decide (verdict = Verified) && fgeb c auto_accept then Auto else Review
  end.

Definition gate_claim_action (verdict : ClaimVerdict) (confidence : option float)
    (thresholds : PolicyThresholds) (truncated : bool) (source : option text) (evidence : list item)
    : Action :=
  let action := require_complete_context
    (claim_action verdict confidence (auto_accept thresholds) (review_at thresholds)) truncated in
  if note_blocks_auto action source evidence then Review else action.

Record ClaimJudgment := { verdict : ClaimVerdict; judged_confidence : option float }.

(** One conditional append of [codes.append]. *)
Definition when (b : bool) (r : GateReason) : list GateReason := if b then [r] else [].

(** A valid claim with unknown confidence counts as confidence -1. *)
Definition counted_confidence (c : ClaimJudgment) : float := or_else (judged_confidence c) (f_of_Z (-1)).

Definition gate_reason_codes (truncated : bool) (review_action : Action) (review_invalid : bool)
    (claims : list (option ClaimJudgment)) (action : Action) (thresholds : PolicyThresholds)
    (caller_note : bool) : list GateReason :=
  let valid := omap id claims in
  let confidences := counted_confidence <$> valid in
  when truncated IncompleteContext
  ++ when (review_invalid || (length valid <? length claims)%nat) InvalidResponse
  ++ when (bool_decide (review_action = Escalate)) ReviewEscalated
  ++ when (bool_decide (review_action = Review)) ReviewRequired
  ++ when (existsb (fun c => bool_decide (verdict c = Contradicted)) valid) ClaimsContradicted
  ++ when (existsb (fun c => bool_decide (verdict c = Unsupported)) valid) ClaimsUnsupported
  ++ when (existsb (fun c => fltb c (review_at thresholds)) confidences) ClaimConfidenceLow
  ++ when (existsb (fun c => fleb (review_at thresholds) c && fltb c (auto_accept thresholds)) confidences)
       ClaimConfidenceBelowAutoAccept
  ++ when caller_note CallerNoteOnly
  ++ when (bool_decide (action = Auto)) Accepted.

Record RequirementCheck := { candidate : text; requirement : nat; answer : text }.

Definition contradicts_recommendation (checks : list RequirementCheck) (recommended : text) : list nat :=
  requirement <$> List.filter
    (fun c => bool_decide (candidate c = recommended) && bool_decide (answer c = u "contradicted")) checks.

(** ** extract.py *)
Inductive ExtractStatus := ExAuto | ExReview | ExNotFound.
Inductive ExtractReasonCode :=
| NoRegexMatches | MatchesTooLong | CandidateLimit | NoneMatched | NoneMatchedAmbiguous.

Definition status_text (s : ExtractStatus) : text :=
  match s with ExAuto => u "auto" | ExReview => u "review" | ExNotFound => u "not_found" end.

Definition extract_reason_text (r : ExtractReasonCode) : text :=
  match r with
  | NoRegexMatches => u "no_regex_matches"
  | MatchesTooLong => u "matches_too_long"
  | CandidateLimit => u "candidate_limit"
  | NoneMatched => u "none_matched"
  | NoneMatchedAmbiguous => u "none_matched_ambiguous"
  end.

Definition EXTRACT_REASON_CODES : list ExtractReasonCode :=
  [NoRegexMatches; MatchesTooLong; CandidateLimit; NoneMatched; NoneMatchedAmbiguous].

Record ExtractJudgment := { none_matched : bool; judged_top : float; judged_gap : float }.

Record ExtractFieldEvidence := {
  too_long : Z; truncated : bool; judgment : option ExtractJudgment }.

Record ExtractFieldDecision := { status : ExtractStatus; reason : option ExtractReasonCode }.

Definition status_of_decision (d : Decision) : ExtractStatus :=
  match d with Auto => ExAuto | _ => ExReview end.

Definition decide_extract_field (evidence : ExtractFieldEvidence) (threshold margin : float)
    : ExtractFieldDecision :=
  match judgment evidence with
  | None =>
    if 0 <? too_long evidence then {| status := ExReview; reason := Some MatchesTooLong |}
    else if truncated evidence then {| status := ExReview; reason := Some CandidateLimit |}
    else {| status := ExNotFound; reason := Some NoRegexMatches |}
  | Some j =>
    if truncated evidence || (0 <? too_long evidence)
    then {| status := ExReview; reason := Some CandidateLimit |}
    else
      let decision := classification_decision (judged_top j) (judged_gap j) threshold margin in
      if none_matched j then
        match decision with
        | Auto => {| status := ExNotFound; reason := Some NoneMatched |}
        | _ => {| status := ExReview; reason := Some NoneMatchedAmbiguous |}
        end
      else {| status := status_of_decision decision; reason := None |}
  end.

(** The loop over the rows' statuses; any object may stand where a status is expected. *)
Fixpoint extract_actions (statuses : list value) : option (list Action) :=
  match statuses with
  | [] => Some []
  | s :: statuses' =>
    if is_str (u "auto") s then cons Auto <$> extract_actions statuses'
    else if is_str (u "review") s || is_str (u "invalid_pattern") s || is_str (u "invalid_response") s
    then cons Review <$> extract_actions statuses'
    else if negb (is_str (u "not_found") s) then None
    else extract_actions statuses'
  end.

Definition extract_call_action (statuses : list value) : option Action :=
  match extract_actions statuses with
  | None => None
  | Some [] => Some Auto
  | Some actions => Some (worst_action actions)
  end.

(** ** ranking.py *)
Inductive ExistsVerdict := Answered | Partial | Absent.

Definition exists_verdict_text (v : ExistsVerdict) : text :=
  match v with Answered => u "answered" | Partial => u "partial" | Absent => u "absent" end.

Definition exists_verdict_at (ex found absent : float) : ExistsVerdict :=
  if fgeb ex found then Answered else if fltb ex absent then Absent else Partial.

Definition exists_verdict (ex : float) : ExistsVerdict :=
  exists_verdict_at ex EXISTS_FOUND_AT EXISTS_ABSENT_BELOW.

(** [sorted(scored, key=lambda pair: pair[0], reverse=True)]: descending, and stable. *)
Definition descending {T} (scored : list (float * T)) : list (float * T) :=
  stable_sort (fun a b => fgtb a.1 b.1) scored.

Definition item_value (it : item) : dict value := (fun kv => (kv.1, VStr kv.2)) <$> it.

(** [str(candidate["id"])]: both callers set the id before ranking. *)
Definition rank_scored (candidates : list item) (probabilities : dict float) : list (float * item) :=
  (fun c => (or_else (dget (id_of c) probabilities) f_zero, c)) <$> candidates.

Definition rank_candidates (candidates : list item) (probabilities : dict float) : list (dict value) :=
  (fun pc => dset (u "probability") (VFloat pc.1) (item_value pc.2))
    <$> descending (rank_scored candidates probabilities).

Definition rerank_scored (candidates : list item) (scores : list float) : list (float * item) :=
  (fun ic => (or_else (scores !! ic.1) f_zero, ic.2)) <$> enumerate candidates.

Definition rerank_by_score (candidates : list item) (scores : list float) : list (dict value) :=
  (fun rc => dset (u "relevance") (VFloat rc.1) (item_value rc.2))
    <$> descending (rerank_scored candidates scores).

(** ** review.py *)
Definition SCALE : float := f_of_Z 2.

Definition WEIGHT_CORRECTNESS : float := f_ratio 4 10.
Definition WEIGHT_SPEC_MATCH : float := f_ratio 3 10.
Definition WEIGHT_TEST_GAP : float := f_ratio 15 100.
Definition WEIGHT_BLAST_RADIUS : float := f_ratio 15 100.

Definition REVIEW_WEIGHTS : dict float :=
  [(u "correctness", WEIGHT_CORRECTNESS); (u "spec_match", WEIGHT_SPEC_MATCH);
   (u "test_gap", WEIGHT_TEST_GAP); (u "blast_radius", WEIGHT_BLAST_RADIUS)].

Definition clamp (value low high : float) : float :=
  if is_nan value then value else py_min high (py_max low value).

Definition unit_score (x : float) : float := clamp (fdiv (clamp x f_zero SCALE) SCALE) f_zero f_one.
Definition unit_inverse (x : float) : float :=
  clamp (fsub f_one (fdiv (clamp x f_zero SCALE) SCALE)) f_zero f_one.

Definition review_composite (correctness spec_match test_gap blast_radius : float) : float :=
  let c := unit_score correctness in
  let s := unit_score spec_match in
  let t := unit_inverse test_gap in
  let b := unit_inverse blast_radius in
  fadd (fadd (fadd (fmul WEIGHT_CORRECTNESS c) (fmul WEIGHT_SPEC_MATCH s)) (fmul WEIGHT_TEST_GAP t))
    (fmul WEIGHT_BLAST_RADIUS b).

Definition min_confidence (confidences : list (option float)) : option float :=
  if existsb is_none confidences then None
  else
    match omap id confidences with
    | [] => Some f_inf
    | x :: l => Some (min_list x l)
    end.

Definition file_list_action (actions : list Action) (unreviewed : bool) : Action :=
  let action := worst_action actions in
  if unreviewed && bool_decide (action = Auto) then Review else action.

Definition review_action (composite safe_to_apply : float) (min_confidence : option float)
    (auto_accept review_at composite_floor : float) : Action :=
  match min_confidence with
  | None => Escalate
  | Some m =>
    if fltb m review_at || fltb safe_to_apply review_at then Escalate
    else if fgeb safe_to_apply auto_accept && fgeb composite composite_floor && fgeb m auto_accept
    then Auto else Review
  end.

(** ** screen.py *)
Inductive ScreenAction := ScPass | ScReview | ScBlock | ScSkip.

#[export] Instance ScreenAction_eq_dec : EqDecision ScreenAction.
Proof. solve_decision. Defined.

Definition screen_action_text (a : ScreenAction) : text :=
  match a with ScPass => u "pass" | ScReview => u "review" | ScBlock => u "block" | ScSkip => u "skip" end.

Record ScreenRecommendation := { sr_action : ScreenAction; sr_reason : text }.

(** [x is not None and x < bound]. *)
Definition below (x : option float) (bound : float) : option float :=
  match x with Some p => if fltb p bound then Some p else None | None => None end.

Definition screen_recommendation (injection block_at review_at : float)
    (relevance substance : option float) : ScreenRecommendation :=
  if fgeb injection block_at then
    {| sr_action := ScBlock;
       sr_reason := u "injection probability " ++ to_fixed2 injection ++ u " >= block threshold "
                    ++ number_to_string block_at |}
  else if fgeb injection review_at then
    {| sr_action := ScReview;
       sr_reason := u "injection probability " ++ to_fixed2 injection ++ u " >= review threshold "
                    ++ number_to_string review_at |}
  else
    match below substance SCREEN_SUBSTANCE_SKIP_BELOW with
    | Some p =>
      {| sr_action := ScSkip;
         sr_reason := u "little substantive content (substance " ++ to_fixed2 p ++ u ")" |}
    | None =>
      match below relevance SCREEN_RELEVANCE_SKIP_BELOW with
      | Some p =>
        {| sr_action := ScSkip;
           sr_reason := u "not relevant to the stated purpose (relevance " ++ to_fixed2 p ++ u ")" |}
      | None => {| sr_action := ScPass; sr_reason := u "no signals above thresholds" |}
      end
    end.

Definition screen_fail_closed : ScreenRecommendation :=
  {| sr_action := ScReview; sr_reason := u "missing or malformed answers; cannot screen safely" |}.

(** ** How actions combine *)

(** auto, then review, then escalate. *)
Definition severity (a : Action) : nat := match a with Auto => 0 | Review => 1 | Escalate => 2 end.

Lemma severity_inj a b : severity a = severity b -> a = b.
Proof. by destruct a, b. Qed.

Lemma worst_action_auto l : worst_action l = Auto <-> Forall (fun a => a = Auto) l.
Proof.
  unfold worst_action, mem. rewrite Forall_forall. case_bool_decide as He; [|case_bool_decide as Hr].
  - split; [done|]. intros Hl. by apply Hl in He.
  - split; [done|]. intros Hl. by apply Hl in Hr.
  - split; [|done]. intros _ [] Hx; done.
Qed.

Lemma worst_action_escalate l : worst_action l = Escalate <-> Escalate ∈ l.
Proof. unfold worst_action, mem. repeat case_bool_decide; done. Qed.

Lemma worst_action_upper a l : a ∈ l -> (severity a <= severity (worst_action l))%nat.
Proof.
  intros Ha. unfold worst_action, mem. repeat case_bool_decide; destruct a; simpl; done || lia.
Qed.

Lemma worst_action_in l : l <> [] -> worst_action l ∈ l.
Proof.
  intros Hne. unfold worst_action, mem. repeat case_bool_decide; [done..|].
  destruct l as [|[] l]; [done|left|..]; set_solver.
Qed.

Lemma worst_action_app l l' : worst_action (l ++ l') = worst_action [worst_action l; worst_action l'].
Proof.
  unfold worst_action, mem. repeat setoid_rewrite elem_of_app.
  destruct (decide (Escalate ∈ l)), (decide (Escalate ∈ l')), (decide (Review ∈ l)), (decide (Review ∈ l'));
    repeat (first [rewrite (bool_decide_eq_true_2 (Escalate ∈ l)) by done
                  |rewrite (bool_decide_eq_false_2 (Escalate ∈ l)) by done]); 
    repeat case_bool_decide; try tauto; set_solver.
Qed.

Lemma worst_action_perm l l' : Permutation l l' -> worst_action l = worst_action l'.
Proof.
  intros Hp. unfold worst_action, mem.
  by rewrite !(bool_decide_ext _ _ (elem_of_Permutation_proper _ _ _ Hp)).
Qed.

Lemma file_list_action_auto l unreviewed :
  file_list_action l unreviewed = Auto <-> unreviewed = false /\ Forall (fun a => a = Auto) l.
Proof.
  unfold file_list_action. rewrite <- worst_action_auto.
  destruct unreviewed, (worst_action l); simpl; naive_solver.
Qed.

Lemma file_list_action_severity l unreviewed :
  (severity (worst_action l) <= severity (file_list_action l unreviewed))%nat.
Proof. unfold file_list_action. destruct unreviewed, (worst_action l); simpl; lia. Qed.

Lemma require_complete_context_auto a b : require_complete_context a b = Auto <-> a = Auto /\ b = false.
Proof. unfold require_complete_context. destruct a, b; simpl; naive_solver. Qed.

Lemma require_complete_context_severity a b :
  (severity a <= severity (require_complete_context a b))%nat.
Proof. destruct a, b; simpl; lia. Qed.

(** ** Thresholds *)
Lemma validate_policy_thresholds_None a r :
  validate_policy_thresholds a r = None <->
  is_finite a = true /\ is_finite r = true /\ fleb f_zero r = true /\ fleb r a = true /\ fleb a f_one = true.
Proof.
  unfold validate_policy_thresholds, fgtb. split.
  - destruct (is_finite a) eqn:Fa; [|done]. destruct (is_finite r) eqn:Fr; [|done]. simpl.
    pose proof (finite_num _ Fa). pose proof (finite_num _ Fr).
    rewrite (fleb_negb r f_zero), (fleb_negb a r), (fleb_negb f_one a) by done.
    destruct (fltb a f_zero), (fltb f_one a), (fltb r f_zero), (fltb f_one r), (fltb a r); done.
  - intros (-> & -> & H0 & Hra & H1). simpl.
    rewrite (fleb_fltb_absurd f_zero a), (fleb_fltb_absurd a f_one), (fleb_fltb_absurd f_zero r),
      (fleb_fltb_absurd r f_one), (fleb_fltb_absurd r a); try done; by eapply fleb_trans.
Qed.

(** ** Claims *)
Lemma claim_action_auto v conf a r :
  claim_action v conf a r = Auto <->
  exists c, conf = Some c /\ v = Verified /\ fltb c r = false /\ fgeb c a = true.
Proof.
  unfold claim_action. destruct conf as [c|]; [|by split; [|intros (? & ? & _)]].
  split.
  - destruct (fltb c r) eqn:E, v, (fgeb c a) eqn:G; try done. eauto.
  - by intros (? & [= <-] & -> & -> & ->).
Qed.

Lemma claim_action_escalate v conf a r :
  claim_action v conf a r = Escalate <->
  conf = None \/ exists c, conf = Some c /\ (fltb c r = true \/ v = Contradicted /\ fgeb c a = true).
Proof.
  unfold claim_action. destruct conf as [c|]; [|by split; [left|]].
  split.
  - destruct (fltb c r) eqn:E, v, (fgeb c a) eqn:G; try done; eauto 10.
  - intros [?|(? & [= <-] & [->|[-> ->]])]; [done..|]. by destruct (fltb c r).
Qed.

(** The cited item, when there is one, is a caller note. *)
Definition cites_caller_note (source : option text) (evidence : list item) : Prop :=
  exists s entry, source = Some s /\ find_item s evidence = Some entry /\
    dget (u "kind") entry = Some (u "caller_note").

Lemma note_blocks_auto_spec source evidence :
  note_blocks_auto Auto source evidence = true <-> cites_caller_note source evidence.
Proof.
  unfold note_blocks_auto, cites_caller_note, is_caller_note. destruct source as [s|]; [|naive_solver].
  destruct (find_item s evidence) as [entry|] eqn:E; [rewrite bool_decide_eq_true|]; naive_solver.
Qed.

Lemma note_blocks_auto_not a source evidence :
  a <> Auto -> note_blocks_auto a source evidence = false.
Proof. by destruct a. Qed.

Lemma gate_claim_action_auto v conf th cut source evidence :
  gate_claim_action v conf th cut source evidence = Auto <->
  claim_action v conf (auto_accept th) (review_at th) = Auto /\ cut = false /\
  ~ cites_caller_note source evidence.
Proof.
  unfold gate_claim_action. rewrite <- note_blocks_auto_spec.
  destruct (require_complete_context _ cut) eqn:E.
  - apply require_complete_context_auto in E as [-> ->].
    destruct (note_blocks_auto Auto source evidence); naive_solver.
  - rewrite note_blocks_auto_not by done. split; [done|]. intros (Ha & Hc & _).
    by rewrite (proj2 (require_complete_context_auto _ _) (conj Ha Hc)) in E.
  - rewrite note_blocks_auto_not by done. split; [done|]. intros (Ha & Hc & _).
    by rewrite (proj2 (require_complete_context_auto _ _) (conj Ha Hc)) in E.
Qed.

(** Neither cut context nor a caller note softens a claim's own action. *)
Lemma gate_claim_action_severity v conf th cut source evidence :
  (severity (claim_action v conf (auto_accept th) (review_at th))
   <= severity (gate_claim_action v conf th cut source evidence))%nat.
Proof.
  unfold gate_claim_action. pose proof (require_complete_context_severity
    (claim_action v conf (auto_accept th) (review_at th)) cut).
  destruct (require_complete_context _ cut) eqn:E; simpl in *; [|done..].
  destruct (match source with Some _ => _ | None => _ end); simpl; lia.
Qed.

Lemma verify_claim_action_auto conf a source evidence :
  verify_claim_action conf a source evidence = Auto <->
  (exists c, conf = Some c /\ fgeb c a = true) /\ ~ cites_caller_note source evidence.
Proof.
  unfold verify_claim_action, verify_action. rewrite <- note_blocks_auto_spec.
  destruct conf as [c|]; [|by split; [|intros [(? & ? & _) _]]].
  split.
  - destruct (fgeb c a) eqn:G; [|done]. destruct (note_blocks_auto Auto source evidence); [done|].
    intros _. split; [by eauto|done].
  - intros [(? & [= <-] & ->) Hn]. by destruct (note_blocks_auto Auto source evidence).
Qed.

(** ** Reason codes *)
Lemma when_elem b r r' : r ∈ when b r' <-> b = true /\ r = r'.
Proof. destruct b; simpl; set_solver. Qed.

Lemma when_sublist b r : when b r `sublist_of` [r].
Proof. destruct b; [done|]. apply sublist_nil_l. Qed.

Lemma gate_reason_codes_sublist cut ra ri claims action th note :
  gate_reason_codes cut ra ri claims action th note `sublist_of` GATE_REASON_CODES.
Proof.
  unfold gate_reason_codes, GATE_REASON_CODES.
  repeat match goal with |- when ?b ?r ++ ?k `sublist_of` ?r :: ?l =>
    apply (sublist_app _ [r] _ l); [apply when_sublist|] end.
  apply when_sublist.
Qed.

Lemma existsb_Exists {A} (p : A -> bool) l : existsb p l = true <-> Exists (fun a => p a = true) l.
Proof.
  rewrite existsb_exists, Exists_exists. by setoid_rewrite <- list_elem_of_In.
Qed.

Lemma omap_id_short {A} (l : list (option A)) :
  (length (omap id l) <? length l)%nat = existsb is_none l.
Proof.
  assert (forall l' : list (option A), (length (omap id l') <= length l')%nat) as Hle.
  { intros l'. induction l' as [|[a|] l' IH]; [done| |].
    - change (omap id (Some a :: l')) with (a :: omap id l'). simpl. lia.
    - change (omap id (None :: l')) with (omap id l'). simpl. lia. }
  induction l as [|[a|] l IH]; [done| |].
  - change (omap id (Some a :: l)) with (a :: omap id l). simpl existsb. rewrite <- IH. done.
  - change (omap id (None :: l)) with (omap id l). simpl. apply Nat.ltb_lt. specialize (Hle l). lia.
Qed.

(** What each code says of the call. *)
Definition reason_holds (cut : bool) (ra : Action) (ri : bool) (claims : list (option ClaimJudgment))
    (action : Action) (th : PolicyThresholds) (note : bool) (r : GateReason) : Prop :=
  let valid := omap id claims in
  match r with
  | IncompleteContext => cut = true
  | InvalidResponse => ri = true \/ Exists (fun c => is_none c = true) claims
  | ReviewEscalated => ra = Escalate
  | ReviewRequired => ra = Review
  | ClaimsContradicted => Exists (fun c => verdict c = Contradicted) valid
  | ClaimsUnsupported => Exists (fun c => verdict c = Unsupported) valid
  | ClaimConfidenceLow => Exists (fun c => fltb (counted_confidence c) (review_at th) = true) valid
  | ClaimConfidenceBelowAutoAccept =>
    Exists (fun c => fleb (review_at th) (counted_confidence c) = true
                     /\ fltb (counted_confidence c) (auto_accept th) = true) valid
  | CallerNoteOnly => note = true
  | Accepted => action = Auto
  end.

Lemma gate_reason_codes_elem cut ra ri claims action th note r :
  r ∈ gate_reason_codes cut ra ri claims action th note <->
  reason_holds cut ra ri claims action th note r.
Proof.
  unfold gate_reason_codes. rewrite omap_id_short. rewrite !elem_of_app, !when_elem.
  rewrite orb_true_iff, !bool_decide_eq_true, !existsb_Exists, !Exists_fmap.
  assert (forall v, Exists (fun c => bool_decide (verdict c = v) = true) (omap id claims) <->
                    Exists (fun c => verdict c = v) (omap id claims)) as Hv.
  { intros v. split; intros Hx; (eapply Exists_impl; [exact Hx|]; intros c; by rewrite bool_decide_eq_true). }
  rewrite !Hv.
  assert (forall p q : ClaimJudgment -> bool,
    Exists (fun c => p c && q c = true) (omap id claims) <->
    Exists (fun c => p c = true /\ q c = true) (omap id claims)) as Hand.
  { intros p q. split; intros Hx; (eapply Exists_impl; [exact Hx|]; intros c; by rewrite andb_true_iff). }
  rewrite (Hand (fun c => fleb (review_at th) (counted_confidence c))
                (fun c => fltb (counted_confidence c) (auto_accept th))).
  destruct r; simpl; intuition congruence.
Qed.

(** ** Patch review *)
Lemma review_action_auto comp safe m a r floor :
  review_action comp safe m a r floor = Auto <->
  exists c, m = Some c /\ fltb c r = false /\ fltb safe r = false /\
    fgeb safe a = true /\ fgeb comp floor = true /\ fgeb c a = true.
Proof.
  unfold review_action. destruct m as [c|]; [|by split; [|intros (? & ? & _)]]. split.
  - destruct (fltb c r) eqn:E1, (fltb safe r) eqn:E2, (fgeb safe a) eqn:E3, (fgeb comp floor) eqn:E4,
      (fgeb c a) eqn:E5; try done. intros _. exists c. auto 10.
  - by intros (? & [= <-] & -> & -> & -> & -> & ->).
Qed.

Lemma review_action_escalate comp safe m a r floor :
  review_action comp safe m a r floor = Escalate <->
  m = None \/ (exists c, m = Some c /\ fltb c r = true) \/ fltb safe r = true.
Proof.
  unfold review_action. destruct m as [c|]; [|by split; [left|]]. split.
  - destruct (fltb c r) eqn:E1, (fltb safe r) eqn:E2; simpl; eauto.
    by destruct (_ && _).
  - intros [?|[(? & [= <-] & ->)| ->]]; [done..|]. by rewrite orb_true_r.
Qed.

(** Comparisons with a bound are monotone in the compared value. *)
Lemma fltb_antitone x y b : fleb x y = true -> fltb y b = true -> fltb x b = true.
Proof. apply fleb_fltb_trans. Qed.

Lemma fgeb_monotone x y b : fleb x y = true -> fgeb x b = true -> fgeb y b = true.
Proof. unfold fgeb. intros H1 H2. by eapply fleb_trans. Qed.

(** More evidence never makes a review more severe: at fixed thresholds, raising the composite, the
    safety probability or the lowest confidence never moves the action of a review towards
    escalation. *)
Theorem review_action_mono comp comp' safe safe' c c' a r floor :
  fleb comp comp' = true -> fleb safe safe' = true -> fleb c c' = true ->
  (severity (review_action comp' safe' (Some c') a r floor)
   <= severity (review_action comp safe (Some c) a r floor))%nat.
Proof.
  intros Hcomp Hsafe Hc. unfold review_action.
  destruct (fltb c' r) eqn:E1; [rewrite (fltb_antitone _ _ _ Hc E1); simpl; lia|].
  destruct (fltb safe' r) eqn:E2; [rewrite (fltb_antitone _ _ _ Hsafe E2), !orb_true_r; simpl; lia|].
  simpl. destruct (fltb c r || fltb safe r); simpl; [destruct (_ && _); simpl; lia|].
  destruct (fgeb safe a) eqn:E3; [rewrite (fgeb_monotone _ _ _ Hsafe E3)|destruct (_ && _); simpl; lia].
  destruct (fgeb comp floor) eqn:E4; [rewrite (fgeb_monotone _ _ _ Hcomp E4)|destruct (_ && _); simpl; lia].
  destruct (fgeb c a) eqn:E5; [rewrite (fgeb_monotone _ _ _ Hc E5); simpl; lia|destruct (_ && _); simpl; lia].
Qed.

Lemma clamp_bounds x low high :
  knum x -> knum low -> knum high -> fleb low high = true ->
  fleb low (clamp x low high) = true /\ fleb (clamp x low high) high = true.
Proof.
  intros Hx Hl Hh Hlh. unfold clamp. rewrite Hx. split.
  - destruct (py_min_case high (py_max low x)) as [-> | ->]; [done|by apply py_max_ub_l].
  - apply py_min_lb_l. done.
Qed.

Lemma clamp_unit x : knum x -> in_unit (clamp x f_zero f_one).
Proof.
  intros Hx. destruct (clamp_bounds x f_zero f_one) as [H0 H1]; [done..|]. by apply unit_of_bounds.
Qed.

Lemma scaled_nonneg x : knum x -> nonneg (fdiv (clamp x f_zero SCALE) SCALE) = true.
Proof.
  intros Hx. destruct (clamp_bounds x f_zero SCALE) as [H0 H1]; [done..|].
  change SCALE with (S754_finite false 4503599627370496 (-51)) at 2.
  apply fdiv_nonneg; [done|]. by destruct (clamp x f_zero SCALE) as [[]|[]| |[] m e].
Qed.


Lemma unit_score_unit x : knum x -> in_unit (unit_score x).
Proof. intros Hx. apply clamp_unit, nonneg_num, scaled_nonneg, Hx. Qed.

Lemma unit_inverse_unit x : knum x -> in_unit (unit_inverse x).
Proof.
  intros Hx. apply clamp_unit. pose proof (scaled_nonneg x Hx) as Hn.
  destruct (nonneg_cases _ Hn) as [[s ->]|[->|(m & e & ->)]]; [by destruct s|done|].
  apply fsub_num; done.
Qed.

Lemma weight_term_nonneg w x :
  nonneg w = true -> is_finite w = true -> in_unit x -> nonneg (fmul w x) = true.
Proof. intros Hw Fw (Fx & Hx & _). by apply fmul_nonneg. Qed.

Lemma review_composite_nonneg c s t b :
  knum c -> knum s -> knum t -> knum b -> nonneg (review_composite c s t b) = true.
Proof.
  intros. unfold review_composite.
  repeat apply fadd_nonneg; (apply weight_term_nonneg; [by vm_compute|by vm_compute|]);
    [by apply unit_score_unit|by apply unit_score_unit|by apply unit_inverse_unit|by apply unit_inverse_unit].
Qed.

Lemma min_confidence_None l : min_confidence l = None <-> None ∈ l.
Proof.
  unfold min_confidence. destruct (existsb is_none l) eqn:E.
  - split; [|done]. intros _. apply existsb_exists in E as ([x|] & Hin & Hx); [done|].
    by apply list_elem_of_In.
  - split; [by destruct (omap id l)|]. intros Hin.
    assert (existsb is_none l = true) as Ht; [|congruence].
    apply existsb_exists. exists None. split; [by apply list_elem_of_In|done].
Qed.

Lemma omap_id_elem {A} (l : list (option A)) a : a ∈ omap id l <-> Some a ∈ l.
Proof.
  rewrite list_elem_of_omap. split; [intros (x & Hx & ?); simpl in *; by subst|]. intros H. by exists (Some a).
Qed.

Lemma min_confidence_lower l m :
  min_confidence l = Some m -> (forall c, Some c ∈ l -> knum c) ->
  (forall c, Some c ∈ l -> fleb m c = true) /\ (Some m ∈ l \/ l = [] /\ m = f_inf).
Proof.
  intros Hm Hnum. unfold min_confidence in Hm. destruct (existsb is_none l) eqn:E; [done|].
  destruct (omap id l) as [|x xs] eqn:Ho; simplify_eq.
  - destruct l as [|[c|] l]; [|done|done]. split; [by intros c ?%elem_of_nil|by right].
  - assert (Forall knum (x :: xs)) as Hk.
    { apply Forall_forall. intros c Hc. rewrite <- Ho in Hc. by apply Hnum, omap_id_elem. }
    destruct (min_list_spec x xs Hk) as [Hin Hall]. rewrite <- Ho in *. split.
    + intros c Hc%omap_id_elem. by eapply Forall_forall in Hall.
    + left. by apply omap_id_elem.
Qed.

(** ** jev_extract's field decision *)
Definition incomplete (ev : ExtractFieldEvidence) : bool := truncated ev || (0 <? too_long ev).

Lemma decide_extract_field_incomplete ev threshold margin :
  incomplete ev = true ->
  status (decide_extract_field ev threshold margin) = ExReview /\
  exists r, reason (decide_extract_field ev threshold margin) = Some r /\
    (r = CandidateLimit \/ r = MatchesTooLong).
Proof.
  unfold incomplete, decide_extract_field. intros Hi.
  destruct (judgment ev) as [j|].
  - rewrite Hi. simpl. eauto.
  - destruct (0 <? too_long ev); simpl; [eauto|]. rewrite orb_false_r in Hi. rewrite Hi. simpl. eauto.
Qed.

Lemma decide_extract_field_auto ev threshold margin :
  status (decide_extract_field ev threshold margin) = ExAuto <->
  incomplete ev = false /\ exists j, judgment ev = Some j /\ none_matched j = false /\
    fgeb (judged_top j) threshold = true /\ fgeb (judged_gap j) margin = true.
Proof.
  split.
  - destruct (incomplete ev) eqn:Hi.
    { by destruct (decide_extract_field_incomplete ev threshold margin Hi) as [-> _]. }
    unfold incomplete in Hi. unfold decide_extract_field, classification_decision.
    destruct (judgment ev) as [j|]; [|by destruct (0 <? _), (truncated ev)].
    rewrite Hi. destruct (none_matched j) eqn:Hn, (fgeb (judged_top j) threshold) eqn:E1,
      (fgeb (judged_gap j) margin) eqn:E2; try done. intros _. eauto 10.
  - intros (Hi & j & Hj & Hn & H1 & H2). unfold incomplete in Hi.
    unfold decide_extract_field, classification_decision. by rewrite Hj, Hi, H1, H2, Hn.
Qed.

Lemma decide_extract_field_not_found ev threshold margin :
  status (decide_extract_field ev threshold margin) = ExNotFound <->
  incomplete ev = false /\
  (judgment ev = None \/ exists j, judgment ev = Some j /\ none_matched j = true /\
    fgeb (judged_top j) threshold = true /\ fgeb (judged_gap j) margin = true).
Proof.
  split.
  - destruct (incomplete ev) eqn:Hi.
    { by destruct (decide_extract_field_incomplete ev threshold margin Hi) as [-> _]. }
    unfold incomplete in Hi. unfold decide_extract_field, classification_decision.
    destruct (judgment ev) as [j|]; [|by eauto].
    rewrite Hi. destruct (none_matched j) eqn:Hn, (fgeb (judged_top j) threshold) eqn:E1,
      (fgeb (judged_gap j) margin) eqn:E2; try done. intros _. eauto 10.
  - intros (Hi & [Hj|(j & Hj & Hn & H1 & H2)]); unfold incomplete in Hi;
      unfold decide_extract_field, classification_decision.
    + rewrite Hj. apply orb_false_iff in Hi as [-> ->]. done.
    + by rewrite Hj, Hi, H1, H2, Hn.
Qed.

(** ** Ranking *)
Lemma descending_perm {T} (l : list (float * T)) : Permutation (descending l) l.
Proof. apply stable_sort_perm. Qed.

Lemma descending_sorted {T} (l : list (float * T)) :
  Forall (fun p => knum p.1) l -> StronglySorted (fun a b => fleb b.1 a.1 = true) (descending l).
Proof.
  intros Hl. assert (Forall (fun p => knum p.1) (descending l)) as Hs by by rewrite descending_perm.
  eapply (StronglySorted_weaken (in_order (fun a b : float * T => fgtb a.1 b.1))).
  - intros a b Ha Hb. unfold in_order, fgtb. intros Hab.
    eapply Forall_forall in Ha; [|exact Hs]. eapply Forall_forall in Hb; [|exact Hs].
    by rewrite fleb_negb, Hab.
  - apply (stable_sort_sorted _ (fun p => knum p.1)); [| |done]; unfold fgtb.
    + intros a b c Na Nb Nc Hab Hbc. apply fleb_fltb_absurd.
      eapply fleb_trans; [apply fltb_false; [| |exact Hbc]; done|]. by apply fltb_false.
    + intros a b Na Nb Hab. by apply fleb_fltb_absurd, fltb_fleb.
Qed.

(** Equal keys keep their order. *)
Lemma descending_stable {T} (l : list (float * T)) p :
  List.filter (fun x => feqb x.1 p) (descending l) = List.filter (fun x => feqb x.1 p) l.
Proof.
  apply stable_sort_stable. intros x y Hx Hy. unfold fgtb. rewrite feqb_spec in Hx, Hy. bool_to_prop.
  apply fleb_fltb_absurd. by eapply fleb_trans.
Qed.

(** ** Screening *)
Lemma screen_pass_iff injection block_at review_at relevance substance :
  sr_action (screen_recommendation injection block_at review_at relevance substance) = ScPass <->
  fgeb injection block_at = false /\ fgeb injection review_at = false /\
  below substance SCREEN_SUBSTANCE_SKIP_BELOW = None /\ below relevance SCREEN_RELEVANCE_SKIP_BELOW = None.
Proof.
  unfold screen_recommendation.
  destruct (fgeb injection block_at), (fgeb injection review_at),
    (below substance SCREEN_SUBSTANCE_SKIP_BELOW), (below relevance SCREEN_RELEVANCE_SKIP_BELOW);
    simpl; split; try done; by intros (? & ? & ? & ?).
Qed.

Lemma screen_block_iff injection block_at review_at relevance substance :
  sr_action (screen_recommendation injection block_at review_at relevance substance) = ScBlock <->
  fgeb injection block_at = true.
Proof.
  unfold screen_recommendation. destruct (fgeb injection block_at), (fgeb injection review_at),
    (below substance SCREEN_SUBSTANCE_SKIP_BELOW), (below relevance SCREEN_RELEVANCE_SKIP_BELOW); done.
Qed.

(** A judged claim that stands under the thresholds. *)
Definition judgment_stands (th : PolicyThresholds) (c : option ClaimJudgment) : Prop :=
  exists j k, c = Some j /\ verdict j = Verified /\ judged_confidence j = Some k /\
    fltb k (review_at th) = false /\ fgeb k (auto_accept th) = true.

Lemma existsb_false {A} (p : A -> bool) l : Forall (fun a => p a = false) l -> existsb p l = false.
Proof. induction 1 as [|a l Ha _ IH]; simpl; [done|]. by rewrite Ha, IH. Qed.

Lemma existsb_fmap {A B} (f : A -> B) (p : B -> bool) l : existsb p (f <$> l) = existsb (fun a => p (f a)) l.
Proof. induction l as [|a l IH]; [done|]. rewrite fmap_cons. simpl. by rewrite IH. Qed.

Lemma judgments_stand_valid th claims :
  Forall (judgment_stands th) claims ->
  existsb is_none claims = false /\
  Forall (fun j => exists k, verdict j = Verified /\ judged_confidence j = Some k /\
    fltb k (review_at th) = false /\ fgeb k (auto_accept th) = true) (omap id claims).
Proof.
  intros Hall. split.
  - apply existsb_false. eapply Forall_impl; [exact Hall|]. by intros c (j & k & -> & _).
  - apply Forall_forall. intros j Hj%omap_id_elem. eapply Forall_forall in Hall; [|exact Hj].
    destruct Hall as (j' & k & [= <-] & ?). by exists k.
Qed.

Lemma gate_reason_codes_accepted claims th :
  Forall (judgment_stands th) claims ->
  gate_reason_codes false Auto false claims Auto th false = [Accepted].
Proof.
  intros [Hn Hall]%judgments_stand_valid. unfold gate_reason_codes. rewrite omap_id_short, Hn.
  assert (forall p, (forall j k, verdict j = Verified -> judged_confidence j = Some k ->
      fltb k (review_at th) = false -> fgeb k (auto_accept th) = true -> p j = false) ->
    existsb p (omap id claims) = false) as Hp.
  { intros p Hp. apply existsb_false. eapply Forall_impl; [exact Hall|].
    intros j (k & ? & ? & ? & ?). by eapply Hp. }
  assert (forall p, existsb p (counted_confidence <$> omap id claims)
                    = existsb (fun j => p (counted_confidence j)) (omap id claims)) as Hm.
  { intros p. apply existsb_fmap. }
  rewrite !Hm, (Hp (fun c => bool_decide (verdict c = Contradicted))),
    (Hp (fun c => bool_decide (verdict c = Unsupported))),
    (Hp (fun j => fltb (counted_confidence j) (review_at th))),
    (Hp (fun j => fleb (review_at th) (counted_confidence j) && fltb (counted_confidence j) (auto_accept th)));
    [done|..]; intros j k Hv Hk Hr Ha; unfold counted_confidence; rewrite ?Hv, ?Hk; simpl.
  - unfold fgeb in Ha. by rewrite (fleb_fltb_absurd _ _ Ha), andb_false_r.
  - done.
  - done.
  - done.
Qed.

(** ** Properties *)
Lemma review_action_mono_witness :
  (severity (review_action f_one (f_ratio 9 10) (Some (f_ratio 9 10)) DEFAULT_AUTO_ACCEPT DEFAULT_REVIEW_AT_CAP DEFAULT_COMPOSITE_FLOOR)
   <= severity (review_action f_zero (f_ratio 9 10) (Some (f_ratio 9 10)) DEFAULT_AUTO_ACCEPT DEFAULT_REVIEW_AT_CAP DEFAULT_COMPOSITE_FLOOR))%nat.
Proof.
  apply (review_action_mono f_zero f_one (f_ratio 9 10) (f_ratio 9 10) (f_ratio 9 10) (f_ratio 9 10)); vm_compute; reflexivity.
Defined.

(** The reason codes of a gate call say exactly what happened: they come in the canonical order
    without repetition, and each code is present if and only if its condition holds of the call. *)
Theorem gate_reason_codes_exact cut ra ri claims action th note :
  gate_reason_codes cut ra ri claims action th note `sublist_of` GATE_REASON_CODES /\
  NoDup (gate_reason_codes cut ra ri claims action th note) /\
  forall r, r ∈ gate_reason_codes cut ra ri claims action th note <-> reason_holds cut ra ri claims action th note r.
Proof.
  pose proof (gate_reason_codes_sublist cut ra ri claims action th note) as Hs. split_and!; [exact Hs| |].
  - eapply sublist_NoDup; [|exact Hs]. apply (bool_decide_unpack _). reflexivity.
  - intros r. apply gate_reason_codes_elem.
Qed.

Lemma default_review_at_unit a :
  fleb f_zero a = true -> fleb a f_one = true ->
  is_finite (py_min DEFAULT_REVIEW_AT_CAP a) = true /\ fleb f_zero (py_min DEFAULT_REVIEW_AT_CAP a) = true /\
  fleb (py_min DEFAULT_REVIEW_AT_CAP a) a = true.
Proof.
  intros H0 H1. pose proof (unit_of_bounds a H0 H1) as (Hf & _ & _). unfold py_min.
  destruct (fltb a DEFAULT_REVIEW_AT_CAP) eqn:E.
  - split_and!; [done|done|by apply fleb_refl, finite_num].
  - split_and!; [reflexivity|reflexivity|]. apply fltb_false; [by apply finite_num|vm_compute; done|exact E].
Qed.

(** A pair of thresholds is used only when it is one: an explicit pair resolves exactly when it is
    finite with 0 <= review_at <= auto_accept <= 1, and then to itself; without a review threshold the
    pair resolves for exactly the accept thresholds in [0, 1], to a review threshold that satisfies
    the invariant; anything else is refused with the invariant's message. *)
Theorem resolve_policy_thresholds_spec a :
  (forall r th, resolve_policy_thresholds a (Some r) = inl th <->
     th = {| auto_accept := a; review_at := r |} /\
     is_finite a = true /\ is_finite r = true /\ fleb f_zero r = true /\ fleb r a = true /\ fleb a f_one = true) /\
  ((exists th, resolve_policy_thresholds a None = inl th) <-> fleb f_zero a = true /\ fleb a f_one = true) /\
  (forall r th, resolve_policy_thresholds a r = inl th ->
     auto_accept th = a /\ fleb f_zero (review_at th) = true /\ fleb (review_at th) a = true /\ fleb a f_one = true) /\
  (forall r refused, resolve_policy_thresholds a r = inr refused -> message refused = THRESHOLD_INVARIANT_MESSAGE).
Proof.
  assert (forall r th, resolve_policy_thresholds a r = inl th ->
    let r' := or_else r (py_min DEFAULT_REVIEW_AT_CAP a) in
    th = {| auto_accept := a; review_at := r' |} /\ is_finite a = true /\ is_finite r' = true /\
    fleb f_zero r' = true /\ fleb r' a = true /\ fleb a f_one = true) as Hinv.
  { intros r th. unfold resolve_policy_thresholds. destruct (validate_policy_thresholds _ _) eqn:E; [done|].
    intros [= <-]. split; [done|]. by apply validate_policy_thresholds_None. }
  split_and!.
  - intros r th. split; [intros H; exact (Hinv (Some r) th H)|]. intros (-> & H). unfold resolve_policy_thresholds. cbn [or_else].
    by rewrite (proj2 (validate_policy_thresholds_None a r) H).
  - split.
    + intros (th & (_ & _ & _ & H0 & Hle & H1)%Hinv). split; [by eapply fleb_trans|done].
    + intros [H0 H1]. destruct (default_review_at_unit a H0 H1) as (Hf & Hr0 & Hra).
      pose proof (unit_of_bounds a H0 H1) as (Hfa & _ & _). unfold resolve_policy_thresholds. cbn [or_else].
      rewrite (proj2 (validate_policy_thresholds_None a _)); [by eexists|done].
  - intros r th (-> & _ & _ & ? & ? & ?)%Hinv. done.
  - intros r refused. unfold resolve_policy_thresholds, validate_policy_thresholds.
    destruct (_ || _); [|done]. by intros [= <-].
Qed.
