(* ===== verification/Responses.v ===== *)
(** * Additive response fields

    Models [responses.py]: the shape of a [diff] argument and the hunk-count check behind it, the
    next checks, the per-claim extra fields, partitions of rows, the rename report and the nearest
    rubric level.  The check [trimmed] is proved against a grammar of hunks. *)
From S2P Require Import Prelude Float64 Text Json Ids Domain Policy.
Open Scope Z_scope.

Definition EXCERPT_UNITS : Z := 200.

(** ** Next checks *)
Definition NEXT_CHECKS (r : GateReason) : text :=
  match r with
  | IncompleteContext => u "Split the diff or pass a file list. A truncated diff is not a pass."
  | InvalidResponse => u "The row is unjudged. Do not treat it as verified."
  | ReviewEscalated => u "Stop. Read action, not verdict."
  | ReviewRequired => u "Confirm this before proceeding. Read action, not verdict."
  | ClaimsContradicted => u "The evidence contradicts a claim. Do not ship that claim."
  | ClaimsUnsupported => u "Read missing_evidence on the claim row. Do not grep verdict."
  | ClaimConfidenceLow => u "Do not grep verified. Read action."
  | ClaimConfidenceBelowAutoAccept => u "The claim is not confident enough to stand. Read action."
  | Accepted => u "The row stands. Proceed."
  | CallerNoteOnly => u "A caller note is not enough for auto. Add a diff or a tool log."
  end.

Definition NO_HUNKS_CHECK : text :=
  u "diff carries no patch hunks: pass the real diff (git diff output, or a [{path, patch}] list) "
  ++ u "so claims can rest on it.".

Definition EXCERPT_CHECK : text :=
  u "diff looks trimmed by hand: a hunk's lines do not match its @@ header. The review scores only "
  ++ u "what it sees, so an excerpt scores low. Pass the real git diff output, or a [{path, patch}] list "
  ++ u "split by concern.".

Definition REVIEW_ONLY_CHECK : text :=
  u "Every claim stands; the patch review did not. Read the review scores: low correctness or "
  ++ u "spec_match on a partial diff means send the full diff; low test_gap confidence means the review "
  ++ u "saw no tests, so pass the log as tests or tests_path (a file list's per-file reviews never see "
  ++ u "evidence); low blast_radius confidence means the diff cannot show callers, so confirm them by "
  ++ u "reading the callers.".

Definition REVIEW_SAW_TESTS_CHECK : text :=
  u "Every claim stands and the review read the tests, yet the patch review did not stand. Read the "
  ++ u "review scores (and file_actions, for a file list), confirm the weak ones by reading the code, and "
  ++ u "do not re-send the same tests.".

Definition REVIEW_CODES : list GateReason := [ReviewEscalated; ReviewRequired].
Definition CLAIM_CODES : list GateReason :=
  [InvalidResponse; ClaimsContradicted; ClaimsUnsupported; ClaimConfidenceLow;
   ClaimConfidenceBelowAutoAccept; CallerNoteOnly].

Inductive DiffShape := ShPatch | ShFileList | ShText | ShExcerpt.

#[export] Instance DiffShape_eq_dec : EqDecision DiffShape.
Proof. solve_decision. Defined.

(** [names & codes] as a truth value. *)
Definition intersects (names codes : list GateReason) : bool := existsb (fun r => mem r codes) names.

Definition next_checks_for (codes : list GateReason) (diff_shape : option DiffShape)
    (review_saw_tests : bool) : list text :=
  (NEXT_CHECKS <$> codes)
  ++ (if intersects codes REVIEW_CODES && negb (intersects codes CLAIM_CODES)
      then [if review_saw_tests then REVIEW_SAW_TESTS_CHECK else REVIEW_ONLY_CHECK] else [])
  ++ (if mem Accepted codes then []
      else match diff_shape with
           | Some ShText => [NO_HUNKS_CHECK]
           | Some ShExcerpt => [EXCERPT_CHECK]
           | _ => []
           end).

(** ** Lines and hunk headers *)

(** [t.split("\n")]: never empty. *)
Fixpoint split_lines (t : text) : list text :=
  match t with
  | [] => [[]]
  | c :: t' =>
    if c =? 10 then [] :: split_lines t'
    else match split_lines t' with l :: ls => (c :: l) :: ls | [] => [[c]] end
  end.

Definition starts_with (p t : text) : bool := bool_decide (p `prefix_of` t).

(** [removesuffix("\r")]. *)
Definition remove_cr (t : text) : text :=
  match last t with Some 13 => removelast t | _ => t end.

(** The zeros of the Unicode decimal-digit ranges, as [re]'s [\d] and [int] read them. *)
Definition DIGIT_ZEROS : list Z :=
  [0x30; 0x660; 0x6f0; 0x7c0; 0x966; 0x9e6; 0xa66; 0xae6; 0xb66; 0xbe6; 0xc66; 0xce6; 0xd66; 0xde6;
   0xe50; 0xed0; 0xf20; 0x1040; 0x1090; 0x17e0; 0x1810; 0x1946; 0x19d0; 0x1a80; 0x1a90; 0x1b50;
   0x1bb0; 0x1c40; 0x1c50; 0xa620; 0xa8d0; 0xa900; 0xa9d0; 0xa9f0; 0xaa50; 0xabf0; 0xff10; 0x104a0;
   0x10d30; 0x11066; 0x110f0; 0x11136; 0x111d0; 0x112f0; 0x11450; 0x114d0; 0x11650; 0x116c0; 0x11730;
   0x118e0; 0x11950; 0x11c50; 0x11d50; 0x11da0; 0x11f50; 0x16a60; 0x16ac0; 0x16b50; 0x1d7ce; 0x1d7d8;
   0x1d7e2; 0x1d7ec; 0x1d7f6; 0x1e140; 0x1e2f0; 0x1e4f0; 0x1e950; 0x1fbf0].

Definition decimal_value (c : Z) : option Z :=
  match List.find (fun z => (z <=? c) && (c <=? z + 9)) DIGIT_ZEROS with
  | Some z => Some (c - z)
  | None => None
  end.

(** The longest run of digits at the start, as values, and the rest. *)
Fixpoint span_digits (t : text) : list Z * text :=
  match t with
  | [] => ([], [])
  | c :: t' =>
    match decimal_value c with
    | Some v => let '(ds, rest) := span_digits t' in (v :: ds, rest)
    | None => ([], t)
    end
  end.

Fixpoint strip_prefix (p t : text) : option text :=
  match p, t with
  | [], _ => Some t
  | a :: p', b :: t' => if a =? b then strip_prefix p' t' else None
  | _ :: _, [] => None
  end.

(** [(?:,(\d+))?]: the group's digits when it takes part. *)
Definition opt_count (t : text) : option (option (list Z) * text) :=
  match strip_prefix (u ",") t with
  | Some t' => match span_digits t' with ([], _) => None | (ds, rest) => Some (Some ds, rest) end
  | None => Some (None, t)
  end.

(** [\d+]. *)
Definition some_digits (t : text) : option text :=
  match span_digits t with ([], _) => None | (_, rest) => Some rest end.

(** [_HUNK_COUNTS.match(line)]: the two optional groups. *)
Definition hunk_counts (line : text) : option (option (list Z) * option (list Z)) :=
  match strip_prefix (u "@@ -") line with None => None | Some t1 =>
  match some_digits t1 with None => None | Some t2 =>
  match opt_count t2 with None => None | Some (g1, t3) =>
  match strip_prefix (u " +") t3 with None => None | Some t4 =>
  match some_digits t4 with None => None | Some t5 =>
  match opt_count t5 with None => None | Some (g2, t6) =>
  match strip_prefix (u " @@") t6 with None => None | Some _ => Some (g1, g2)
  end end end end end end end.

(** [int(digits)] refuses more than 4300 digits. *)
Inductive int_error := IntTooManyDigits (count : nat).
Definition INT_MAX_STR_DIGITS : nat := 4300.

Definition int_of_values (ds : list Z) : result int_error Z :=
  if (INT_MAX_STR_DIGITS <? length ds)%nat then Raise (IntTooManyDigits (length ds))
  else Ok (fold_left (fun a v => a * 10 + v) ds 0).

Definition count_of (group : option (list Z)) : result int_error Z :=
  match group with None => Ok 1 | Some ds => int_of_values ds end.

(** ** [_trimmed] *)

(** What a line inside a hunk takes off the two counts; [None] for a line no hunk holds. *)
Definition body_step (line : text) : option (Z * Z) :=
  if starts_with (u "\") line then Some (0, 0)
  else if starts_with (u " ") line || bool_decide (line = []) then Some (1, 1)
  else if starts_with (u "-") line then Some (1, 0)
  else if starts_with (u "+") line then Some (0, 1)
  else None.

Fixpoint trimmed_loop (lines : list text) (old new : Z) (seen : bool) : result int_error bool :=
  match lines with
  | [] => Ok (negb (old =? 0) || negb (new =? 0))
  | raw :: lines' =>
    let line := remove_cr raw in
    if (old =? 0) && (new =? 0) then
      if starts_with (u "@@ ") line then
        match hunk_counts line with
        | None => Ok true
        | Some (g1, g2) =>
          let? old' := count_of g1 in
          let? new' := count_of g2 in
          trimmed_loop lines' old' new' true
        end
      else if seen && starts_with (u "+") line && negb (starts_with (u "+++ ") line) then Ok true
      else trimmed_loop lines' old new seen
    else
      match body_step line with
      | None => Ok true
      | Some (a, b) =>
        if (old - a <? 0) || (new - b <? 0) then Ok true
        else trimmed_loop lines' (old - a) (new - b) seen
      end
  end.

Definition trimmed (patch : text) : result int_error bool := trimmed_loop (split_lines patch) 0 0 false.

(** ** [diff_shape]: a string, or the patches of a file list *)
Inductive diff_arg := DiffText (t : text) | DiffFiles (files : list item).

Definition HUNK_HEADERS : list text := [u "diff --git "; u "@@ "; u "+++ "; u "--- "; u "Index: "].

Definition is_header_line (line : text) : bool := existsb (fun p => starts_with p line) HUNK_HEADERS.

(** [any(... for patch in patches)]: left to right, stopping at the first hit. *)
Fixpoint any_trimmed (patches : list text) : result int_error bool :=
  match patches with
  | [] => Ok false
  | p :: ps => let? b := trimmed p in if b : bool then Ok true else any_trimmed ps
  end.

Definition diff_shape (diff : diff_arg) : result int_error DiffShape :=
  match diff with
  | DiffFiles files =>
    let? b := any_trimmed (omap (dget (u "patch")) files) in
    Ok (if b : bool then ShExcerpt else ShFileList)
  | DiffText t =>
    if negb (existsb (fun line => is_header_line line || starts_with (u "+") line) (split_lines t))
    then Ok ShText
    else let? b := trimmed t in Ok (if b : bool then ShExcerpt else ShPatch)
  end.

(** ** Renamed ids *)
Definition renamed_ids_field (renamed : dict text) : dict value :=
  match renamed with
  | [] => []
  | _ => [(u "renamed_ids", VDict ((fun kv => (kv.1, VStr kv.2)) <$> renamed))]
  end.

(** [zip(sent, asked[:len(sent)], strict=True)]; the callers' [asked] starts with the sent items. *)
Definition caller_renames (sent asked : list item) : dict text :=
  fold_left (fun renamed ra =>
    match dget (u "id") ra.1 with
    | Some raw_id =>
      if negb (bool_decide (raw_id = [])) && negb (bool_decide (raw_id = id_of ra.2))
      then dset raw_id (id_of ra.2) renamed else renamed
    | None => renamed
    end) (combine sent asked) [].

(** ** Rows *)
Definition stands (action : value) : bool := is_str (u "auto") action.

(** A row's label: its string, or [None]; the rows hold nothing else under the counted keys. *)
Definition label_of (key : text) (row : dict value) : text := or_else (as_str (get key row)) (u "none").

Definition partition (rows : list (dict value)) (key : text) : dict Z :=
  fold_left (fun counts row =>
    let name := label_of key row in
    dset name (or_else (dget name counts) 0 + 1) counts) rows [].

Definition counts_value (counts : dict Z) : value := VDict ((fun kv => (kv.1, VInt kv.2)) <$> counts).

Definition summary_extras (rows : list (dict value)) : dict value :=
  [(u "by_verdict", counts_value (partition rows (u "verdict")));
   (u "by_action", counts_value (partition rows (u "action")))].

(** [text.split("\n", 1)[0]] cut to 200 units; nothing for an absent or empty text. *)
Definition excerpt_of (t : option text) : value :=
  match t with
  | None | Some [] => VNone
  | Some t => VStr (Utf16.head (or_else (hd_error (split_lines t)) []) EXCERPT_UNITS)
  end.

(** [str(item.get(key) or default)]. *)
Definition field_or (key default : text) (it : item) : text :=
  match dget key it with Some (c :: t) => c :: t | _ => default end.

Definition missing_evidence_code (verdict : value) (evidence : list item) : option text :=
  if negb (is_str (u "unsupported") verdict || is_str (u "contradicted") verdict) then None
  else if (length evidence <? 2)%nat then Some (u "single_item_no_source")
  else
    let kinds := field_or (u "kind") (u "raw") <$> evidence in
    let ids := id_of <$> evidence in
    let roles := field_or (u "role") (u "current") <$> evidence in
    if negb (mem (u "diff") ids) && negb (mem (u "diff") kinds) then Some (u "needs_diff")
    else if negb (mem (u "tests") ids) && negb (mem (u "tool_output") kinds) then Some (u "needs_tests")
    else if negb (mem (u "before") roles) || negb (mem (u "after") roles) then Some (u "needs_before_after")
    else None.

Definition str_or_none (o : option text) : value := match o with Some t => VStr t | None => VNone end.

Definition claim_extras (row : dict value) (evidence : list item) (claim_id : option text)
    (supporting : option text) : dict value :=
  let support := match supporting with
                 | Some s => Some s
                 | None => as_str (get (u "supporting_evidence") row)
                 end in
  let cited := match support with Some s => find_item s evidence | None => None end in
  let extras :=
    [(u "stands", VBool (stands (get (u "action") row)));
     (u "evidence_ids", VList (match support with Some s => [VStr s] | None => [] end));
     (u "excerpt", match cited with Some it => excerpt_of (dget (u "text") it) | None => VNone end);
     (u "missing_evidence", str_or_none (missing_evidence_code (get (u "verdict") row) evidence))] in
  let extras := match claim_id with
                | Some id => if dhas (u "id") row then extras else (u "id", VStr id) :: extras
                | None => extras
                end in
  if dhas (u "supporting_evidence") row then extras
  else extras ++ [(u "supporting_evidence", str_or_none support)].

(** ** Rubric levels *)
Definition SCORE_SCALE : list Z := [0; RUBRIC_SCORE_MAX].
Definition LEVELS : list Z := seqZ 0 (RUBRIC_SCORE_MAX + 1).

Definition level_distance (s : float) (level : Z) : float := fabs (fsub (f_of_Z level) s).

(** [(abs(level - s), level) < (abs(level' - s), level')]. *)
Definition closer (s : float) (l l' : Z) : bool :=
  fltb (level_distance s l) (level_distance s l')
  || (feqb (level_distance s l) (level_distance s l') && (l <? l')).

(** [min(levels, key=...)] of a non-empty sequence. *)
Definition nearest_of (s : float) (first : Z) (rest : list Z) : Z :=
  fold_left (fun best l => if closer s l best then l else best) rest first.

Definition nearest_level (s : float) : Z :=
  match LEVELS with l :: ls => nearest_of s l ls | [] => 0 end.

(** ** The grammar of hunks

    A hunk body is the lines under a header until both counts are used up, none over-running. *)
Inductive hunk_body : Z -> Z -> list text -> list text -> Prop :=
| body_done lines : hunk_body 0 0 lines lines
| body_line old new raw lines rest a b :
    ~ (old = 0 /\ new = 0) -> body_step (remove_cr raw) = Some (a, b) ->
    a <= old -> b <= new -> hunk_body (old - a) (new - b) lines rest ->
    hunk_body old new (raw :: lines) rest.

(** An added line outside any hunk, after one was seen. *)
Definition stray_addition (seen : bool) (line : text) : bool :=
  seen && starts_with (u "+") line && negb (starts_with (u "+++ ") line).

(** A whole patch: lines outside hunks, and hunks whose body matches the header's counts. *)
Inductive whole_patch : bool -> list text -> Prop :=
| whole_nil seen : whole_patch seen []
| whole_other seen raw lines :
    starts_with (u "@@ ") (remove_cr raw) = false -> stray_addition seen (remove_cr raw) = false ->
    whole_patch seen lines -> whole_patch seen (raw :: lines)
| whole_hunk seen raw lines g1 g2 old new rest :
    starts_with (u "@@ ") (remove_cr raw) = true ->
    hunk_counts (remove_cr raw) = Some (g1, g2) -> count_of g1 = Ok old -> count_of g2 = Ok new ->
    hunk_body old new lines rest -> whole_patch true rest -> whole_patch seen (raw :: lines).

Lemma hunk_body_shorter old new lines rest :
  hunk_body old new lines rest -> (length rest <= length lines)%nat.
Proof. induction 1; simpl; lia. Qed.

Lemma trimmed_loop_body lines old new :
  trimmed_loop lines old new true = Ok false <->
  exists rest, hunk_body old new lines rest /\ trimmed_loop rest 0 0 true = Ok false.
Proof.
  revert old new. induction lines as [|raw lines IH]; intros old new.
  - split.
    + simpl. intros [= H]. apply orb_false_iff in H as [H1 H2].
      apply negb_false_iff, Z.eqb_eq in H1, H2. subst. exists []. split; [constructor|done].
    + intros (rest & Hb & _). by inversion Hb.
  - destruct ((old =? 0) && (new =? 0)) eqn:Ez.
    + apply andb_prop in Ez as [->%Z.eqb_eq ->%Z.eqb_eq]. split.
      * intros H. exists (raw :: lines). split; [constructor|done].
      * intros (rest & Hb & H). inversion Hb; subst; [done|]. tauto.
    + assert (~ (old = 0 /\ new = 0)) as Hnz by (intros [-> ->]; done).
      simpl. rewrite Ez. destruct (body_step (remove_cr raw)) as [[a b]|] eqn:Es.
      * destruct ((old - a <? 0) || (new - b <? 0)) eqn:Eo.
        -- split; [done|]. intros (rest & Hb & _). inversion Hb; subst; [tauto|].
           rewrite Es in *. simplify_eq. apply orb_true_iff in Eo as [?|?]; bool_to_prop; lia.
        -- apply orb_false_iff in Eo as [Eo1 Eo2]. bool_to_prop. rewrite IH. split.
           ++ intros (rest & Hb & H). exists rest. split; [|done].
              apply (body_line old new raw lines rest a b Hnz Es); [lia|lia|done].
           ++ intros (rest & Hb & H). exists rest. split; [|done].
              inversion Hb; subst; [tauto|]. rewrite Es in *. by simplify_eq.
      * split; [done|]. intros (rest & Hb & _). inversion Hb; subst; [tauto|]. congruence.
Qed.

Lemma trimmed_loop_outside raw lines seen :
  trimmed_loop (raw :: lines) 0 0 seen =
  if starts_with (u "@@ ") (remove_cr raw) then
    match hunk_counts (remove_cr raw) with
    | None => Ok true
    | Some (g1, g2) =>
      let? old := count_of g1 in let? new := count_of g2 in trimmed_loop lines old new true
    end
  else if stray_addition seen (remove_cr raw) then Ok true else trimmed_loop lines 0 0 seen.
Proof. done. Qed.

Lemma whole_patch_trimmed seen lines : whole_patch seen lines -> trimmed_loop lines 0 0 seen = Ok false.
Proof.
  induction 1 as [seen|seen raw lines Hh Hs Hw IH|seen raw lines g1 g2 old new rest Hh Hc Ho Hn Hb Hw IH];
    [done| |]; rewrite trimmed_loop_outside, Hh.
  - by rewrite Hs.
  - rewrite Hc. apply rbind_Ok. exists old. split; [done|]. apply rbind_Ok. exists new. split; [done|].
    apply trimmed_loop_body. by exists rest.
Qed.

Lemma trimmed_whole_patch n seen lines :
  (length lines <= n)%nat -> trimmed_loop lines 0 0 seen = Ok false -> whole_patch seen lines.
Proof.
  revert seen lines. induction n as [|n IH]; intros seen [|raw lines] Hn; simpl in Hn; [constructor|lia|constructor|].
  rewrite trimmed_loop_outside. destruct (starts_with (u "@@ ") (remove_cr raw)) eqn:Hh.
  - destruct (hunk_counts (remove_cr raw)) as [[g1 g2]|] eqn:Hc; [|done].
    intros (old & Ho & (new & Hw & Hl)%rbind_Ok)%rbind_Ok.
    apply trimmed_loop_body in Hl as (rest & Hb & Hl).
    eapply whole_hunk; [done..|]. apply IH; [|done]. apply hunk_body_shorter in Hb. lia.
  - destruct (stray_addition seen (remove_cr raw)) eqn:Hs; [done|]. intros Hl.
    apply whole_other; [done|done|]. apply IH; [lia|done].
Qed.

(** A patch counts as whole exactly when it follows the grammar of unified hunks: every hunk's body
    uses up its header's counts and no more, every header parses, and no added line stands outside a
    hunk after one was seen. *)
Theorem trimmed_spec patch : trimmed patch = Ok false <-> whole_patch false (split_lines patch).
Proof. split; [by eapply trimmed_whole_patch|apply whole_patch_trimmed]. Qed.

(** ** Claim rows *)

(** The keys [claim_extras] may add; every other key of a row stays as it was. *)
Definition EXTRA_KEYS : list text :=
  [u "id"; u "stands"; u "evidence_ids"; u "excerpt"; u "missing_evidence"; u "supporting_evidence"].

Lemma claim_extras_keys row evidence claim_id supporting k :
  k ∈ dkeys (claim_extras row evidence claim_id supporting) -> k ∈ EXTRA_KEYS.
Proof.
  unfold claim_extras. destruct claim_id as [id|]; [destruct (dhas (u "id") row)|];
    destruct (dhas (u "supporting_evidence") row); unfold dkeys; cbn [fmap list_fmap fst app];
    rewrite !elem_of_cons, elem_of_nil; unfold EXTRA_KEYS; rewrite !elem_of_cons, elem_of_nil; tauto.
Qed.

Lemma claim_extras_keep row evidence claim_id supporting k :
  k ∉ EXTRA_KEYS -> get k (dmerge row (claim_extras row evidence claim_id supporting)) = get k row.
Proof.
  intros Hk. unfold get. rewrite dget_dmerge_notin; [done|]. intros Hin. by apply claim_extras_keys in Hin.
Qed.

(** ** Partitions *)
Lemma sum_dset_incr k (d : dict Z) :
  sum_Z (dvalues (dset k (or_else (dget k d) 0 + 1) d)) = sum_Z (dvalues d) + 1.
Proof.
  unfold dvalues, sum_Z. induction d as [|[k' v] d IH]; simpl; [lia|].
  case_bool_decide; simpl; [lia|]. unfold fmap in *. lia.
Qed.

Lemma fold_partition_sum rows key (counts : dict Z) :
  sum_Z (dvalues (fold_left (fun counts row =>
    dset (label_of key row) (or_else (dget (label_of key row) counts) 0 + 1) counts) rows counts))
  = sum_Z (dvalues counts) + Z.of_nat (length rows).
Proof.
  revert counts. induction rows as [|r rows IH]; intros counts; simpl; [lia|].
  rewrite IH, sum_dset_incr. lia.
Qed.

Lemma partition_sum rows key : sum_Z (dvalues (partition rows key)) = Z.of_nat (length rows).
Proof. unfold partition. by rewrite fold_partition_sum. Qed.

Lemma fold_partition_count rows key k (counts : dict Z) :
  or_else (dget k (fold_left (fun counts row =>
    dset (label_of key row) (or_else (dget (label_of key row) counts) 0 + 1) counts) rows counts)) 0
  = or_else (dget k counts) 0 + count_if (fun row => bool_decide (label_of key row = k)) rows.
Proof.
  revert counts. induction rows as [|r rows IH]; intros counts.
  { simpl. unfold count_if. simpl. lia. }
  simpl fold_left. rewrite IH, count_if_cons. case_bool_decide as Hk.
  - subst. rewrite dget_dset_eq. simpl. lia.
  - rewrite dget_dset_ne by done. lia.
Qed.

Lemma partition_count rows key k :
  or_else (dget k (partition rows key)) 0 = count_if (fun row => bool_decide (label_of key row = k)) rows.
Proof. unfold partition. by rewrite fold_partition_count. Qed.

(** Rows that carry one of the labels each are counted once by the labels' counts. *)
Section Labels.
Context (key : text).
Let count (rows : list (dict value)) (s : text) : Z := count_if (fun r => is_str s (get key r)) rows.

Lemma labels_step s row rows labels :
  get key row = VStr s -> NoDup labels ->
  sum_over (count (row :: rows)) labels
  = (if bool_decide (s ∈ labels) then 1 else 0) + sum_over (count rows) labels.
Proof.
  intros Hrow. induction labels as [|s' labels IH]; intros Hnd; [done|].
  apply NoDup_cons in Hnd as [Hni Hnd]. rewrite !sum_over_cons, IH by done. unfold count at 1.
  rewrite count_if_cons, Hrow. cbn [is_str]. fold (count rows s').
  destruct (decide (s = s')) as [->|Hne].
  - rewrite (bool_decide_eq_true_2 (s' = s')), (bool_decide_eq_true_2 (s' ∈ s' :: labels)),
      (bool_decide_eq_false_2 (s' ∈ labels)) by (done || left). lia.
  - rewrite (bool_decide_eq_false_2 (s = s')) by done.
    rewrite (bool_decide_ext (s ∈ s' :: labels) (s ∈ labels)); [lia|]. rewrite elem_of_cons. naive_solver.
Qed.

Lemma labels_partition labels rows :
  NoDup labels -> Forall (fun row => exists s, s ∈ labels /\ get key row = VStr s) rows ->
  sum_over (count rows) labels = Z.of_nat (length rows).
Proof.
  intros Hnd. induction 1 as [|row rows (s & Hs & Hrow) _ IH].
  - by apply sum_over_zero.
  - rewrite (labels_step s) by done. rewrite IH, bool_decide_eq_true_2 by done. simpl. lia.
Qed.
End Labels.

(** ** Renames *)
Lemma caller_renames_sound sent asked k v :
  dget k (caller_renames sent asked) = Some v ->
  exists it out, (it, out) ∈ combine sent asked /\ dget (u "id") it = Some k /\ v = id_of out /\ k <> v.
Proof.
  unfold caller_renames.
  assert (forall l (acc : dict text),
    (forall k v, dget k acc = Some v -> exists it out, (it, out) ∈ combine sent asked /\
       dget (u "id") it = Some k /\ v = id_of out /\ k <> v) ->
    (forall x, x ∈ l -> x ∈ combine sent asked) ->
    dget k (fold_left (fun renamed ra =>
      match dget (u "id") ra.1 with
      | Some raw_id =>
        if negb (bool_decide (raw_id = [])) && negb (bool_decide (raw_id = id_of ra.2))
        then dset raw_id (id_of ra.2) renamed else renamed
      | None => renamed
      end) l acc) = Some v ->
    exists it out, (it, out) ∈ combine sent asked /\ dget (u "id") it = Some k /\ v = id_of out /\ k <> v) as Hgen.
  { induction l as [|[it out] l IH]; intros acc Hacc Hl; simpl; [apply Hacc|].
    assert (forall x, x ∈ l -> x ∈ combine sent asked) as Hl' by (intros x Hx; apply Hl; by right).
    destruct (dget (u "id") it) as [raw|] eqn:Er; [|by apply IH].
    destruct (negb (bool_decide (raw = [])) && negb (bool_decide (raw = id_of out))) eqn:Eb; [|by apply IH].
    apply IH; [|done]. intros k' v'. bool_to_prop. destruct (decide (k' = raw)) as [->|Hne].
    - rewrite dget_dset_eq. intros [= <-]. exists it, out. split; [apply Hl; left|done].
    - rewrite dget_dset_ne by done. apply Hacc. }
  apply Hgen; [done|done].
Qed.

Lemma renamed_ids_field_keys renamed k : k ∈ dkeys (renamed_ids_field renamed) -> k = u "renamed_ids".
Proof.
  destruct renamed; unfold dkeys; simpl; [by intros ?%elem_of_nil|]. by intros ?%list_elem_of_singleton.
Qed.

(** ** Nearest level *)
Section Nearest.
Context (s : float).
Let ok (l : Z) : Prop := knum (level_distance s l).

Lemma closer_false a b :
  ok a -> ok b ->
  closer s a b = false <->
  fleb (level_distance s b) (level_distance s a) = true /\
  (fleb (level_distance s a) (level_distance s b) = true -> b <= a).
Proof.
  intros Na Nb. unfold closer. rewrite orb_false_iff, fltb_false, feqb_spec by done.
  split; intros [H1 H2]; (split; [done|]); rewrite H1, andb_true_r in *.
  - intros H3. rewrite H3 in H2. simpl in H2. by apply Z.ltb_ge.
  - destruct (fleb (level_distance s a) (level_distance s b)); [|done]. simpl. apply Z.ltb_ge. auto.
Qed.

Lemma closer_false_trans a b c :
  ok a -> ok b -> ok c -> closer s a b = false -> closer s b c = false -> closer s a c = false.
Proof.
  intros Na Nb Nc. rewrite !closer_false by done. intros [H1 H2] [H3 H4].
  split; [by eapply fleb_trans|]. intros H5.
  assert (b <= a) by (apply H2; by eapply fleb_trans).
  assert (c <= b) by (apply H4; by eapply fleb_trans). lia.
Qed.

Lemma closer_irrefl a : ok a -> closer s a a = false.
Proof. intros Na. apply closer_false; [done|done|]. split; [by apply fleb_refl|lia]. Qed.

Lemma closer_asym a b : ok a -> ok b -> closer s a b = true -> closer s b a = false.
Proof.
  intros Na Nb Hab. apply closer_false; [done|done|]. unfold closer in Hab.
  apply orb_true_iff in Hab as [Hlt|Heq].
  - split; [by apply fltb_fleb|]. intros Hle. by rewrite (fltb_fleb_absurd _ _ Hlt) in Hle.
  - rewrite feqb_spec in Heq. bool_to_prop. split; [done|lia].
Qed.

Lemma nearest_of_spec first rest :
  Forall ok (first :: rest) ->
  nearest_of s first rest ∈ first :: rest /\
  Forall (fun l => closer s l (nearest_of s first rest) = false) (first :: rest).
Proof.
  apply (fold_best (closer s) ok); [apply closer_false_trans|apply closer_asym|apply closer_irrefl].
Qed.
End Nearest.

Lemma level_distance_num s l : is_finite s = true -> knum (level_distance s l).
Proof. intros Hs. apply nonneg_num, fabs_nonneg, fsub_num; [apply f_of_Z_num|done]. Qed.
