(* ===== verification/Runtime.v ===== *)
(** * What every tool shares

    Models [tools/base.py], [tools/common.py] and the validators as [tools/observed.py] re-exports
    them (a span around the same function, so the functions themselves here).  A handler is a
    computation [M]: it threads the log of requests sent to the provider and may raise.  The
    provider is not code under [src/]'s control: it is the field [rt_ask] of the runtime, which
    maps the index of a call and its request to a reply or an exception. *)
From S2P Require Import Prelude Float64 Text Json Domain Ids Caps Policy.
Open Scope Z_scope.

(** ** Exceptions and replies *)
Inductive exn :=
| ArgumentsError (message : text)
| ToolError (message code : text)
| ProviderConfigError (message : text)
| ProviderTimeoutError (message : text)
| ProviderError (message : text) (status : option Z) (error_type : option text)
| OtherError (message : text).

Record Evaluation := {
  answers : dict value; usage : Usage; ev_provider : text; ev_model : text; request_id : option text }.

Record Request := { rq_state : value; rq_questions : dict Question }.

(** ** The handler monad *)
Definition Log := list Request.
Definition M (A : Type) := Log -> result exn A * Log.

Definition mret {A} (a : A) : M A := fun log => (Ok a, log).
Definition mraise {A} (e : exn) : M A := fun log => (Raise e, log).
Definition mlift {A} (r : result exn A) : M A := fun log => (r, log).
Definition mbind {A B} (m : M A) (f : A -> M B) : M B := fun log =>
  match m log with (Ok a, log') => f a log' | (Raise e, log') => (Raise e, log') end.

Notation "'let!' x := m 'in' k" := (mbind m (fun x => k))
  (at level 10, x pattern, m at level 100, k at level 200) : dev_scope.

Fixpoint mmap {A B} (f : A -> M B) (l : list A) : M (list B) :=
  match l with
  | [] => mret []
  | a :: l' => let! b := f a in let! bs := mmap f l' in mret (b :: bs)
  end.

(** ** The runtime *)
Record Runtime := { rt_model : text; rt_ask : nat -> Request -> result exn Evaluation }.

Definition ask (rt : Runtime) (state : value) (questions : dict Question) : M Evaluation := fun log =>
  let rq := {| rq_state := state; rq_questions := questions |} in
  (rt_ask rt (length log) rq, log ++ [rq]).

(** Replies are decoded JSON objects: their keys are distinct, at every depth. *)
Definition json_replies (rt : Runtime) : Prop :=
  forall n rq ev, rt_ask rt n rq = Ok ev -> wf_value (VDict (answers ev)).

(** ** Results *)
Record ExtractHeadlines := { item_action : option Action; call_action : option Action }.

Record ToolResult := {
  payload : dict value; is_error : bool; action : option Action; item_actions : list Action;
  tr_truncated : ledger; error_code : option text; extract : option ExtractHeadlines }.

(** [ToolResult(payload)] with every default. *)
Definition tool_result (p : dict value) : ToolResult :=
  {| payload := p; is_error := false; action := None; item_actions := []; tr_truncated := ∅;
     error_code := None; extract := None |}.

Definition action_value (a : Action) : value := VStr (action_text a).
Definition opt_float (o : option float) : value := match o with Some f => VFloat f | None => VNone end.
Definition opt_text (o : option text) : value := match o with Some t => VStr t | None => VNone end.
Definition probs_value (ps : dict float) : value := VDict ((fun kv => (kv.1, VFloat kv.2)) <$> ps).
Definition texts_value (l : list text) : value := VList (VStr <$> l).
Definition items_value (l : list item) : value := VList ((fun it => VDict (item_value it)) <$> l).

(** [value in ACTIONS]. *)
Definition action_of_value (v : value) : option Action :=
  match v with
  | VStr t =>
    if bool_decide (t = u "auto") then Some Auto
    else if bool_decide (t = u "review") then Some Review
    else if bool_decide (t = u "escalate") then Some Escalate
    else None
  | _ => None
  end.

Definition caller_actions (values : list value) : list Action := omap action_of_value values.

Definition headline (item_actions : list Action) : option Action :=
  match item_actions with [] => None | _ => Some (worst_action item_actions) end.

(** [{"tool": ..., "model": ..., "provider": ..., **body, "usage": ...}]. *)
Definition frame (tool : text) (evaluation : option Evaluation) (body : dict value) (model : option text)
    : dict value :=
  match evaluation with
  | None =>
    dset (u "usage") VNone
      (dmerge [(u "tool", VStr tool); (u "model", opt_text model); (u "provider", vs "none")] body)
  | Some ev =>
    let framed :=
      dset (u "usage") (usage_to_wire (usage ev))
        (dmerge [(u "tool", VStr tool); (u "model", VStr (ev_model ev));
                 (u "provider", VStr (ev_provider ev))] body) in
    match request_id ev with
    | Some (c :: id) => dset (u "request_id") (VStr (c :: id)) framed
    | _ => framed
    end
  end.

Arguments frame : simpl never.

(** ** Evidence *)
Inductive evidence_arg := EvText (t : text) | EvItem (it : item) | EvItems (items : list item).

Definition evidence_items (raw : evidence_arg) : list item :=
  match raw with
  | EvText t => [[(u "id", u "evidence"); (u "text", t)]]
  | EvItems items => items
  | EvItem it => [it]
  end.

Definition normalize_evidence (raw : evidence_arg) : list item :=
  ui_items (ensure_unique_ids (evidence_items raw) (u "evidence")).

(** ECMAScript white space and line terminators. *)
Definition is_js_whitespace (c : Z) : bool :=
  mem c [0x09; 0x0A; 0x0B; 0x0C; 0x0D; 0x20; 0xA0; 0x1680; 0x2028; 0x2029; 0x202F; 0x205F; 0x3000; 0xFEFF]
  || ((0x2000 <=? c) && (c <? 0x200B)).

Fixpoint js_trim_left (t : text) : text :=
  match t with c :: t' => if is_js_whitespace c then js_trim_left t' else t | [] => [] end.

Definition js_trim (t : text) : text := rev (js_trim_left (rev (js_trim_left t))).

(** [str(item["text"])]: the schemas require the key. *)
Definition text_of (it : item) : text := or_else (dget (u "text") it) [].

Definition has_non_empty_evidence (items : list item) : bool :=
  existsb (fun it => negb (bool_decide (js_trim (text_of it) = []))) items.

(** ** Facts *)
Lemma mbind_Ok {A B} (m : M A) (f : A -> M B) log b log' :
  mbind m f log = (Ok b, log') <-> exists a log1, m log = (Ok a, log1) /\ f a log1 = (Ok b, log').
Proof.
  unfold mbind. destruct (m log) as [[a|e] log1]; split.
  - eauto.
  - by intros (? & ? & [= <- <-] & ?).
  - done.
  - by intros (? & ? & [=] & ?).
Qed.

Lemma mbind_Raise {A B} (m : M A) (f : A -> M B) log e log' :
  mbind m f log = (Raise e, log') <->
  m log = (Raise e, log') \/ exists a log1, m log = (Ok a, log1) /\ f a log1 = (Raise e, log').
Proof.
  unfold mbind. destruct (m log) as [[a|e1] log1]; split.
  - eauto.
  - by intros [[=]|(? & ? & [= <- <-] & ?)].
  - intros [= <- <-]. by left.
  - by intros [[= <- <-]|(? & ? & [=] & ?)].
Qed.

Lemma ask_Ok rt state questions log ev log' :
  ask rt state questions log = (Ok ev, log') <->
  rt_ask rt (length log) {| rq_state := state; rq_questions := questions |} = Ok ev /\
  log' = log ++ [{| rq_state := state; rq_questions := questions |}].
Proof. unfold ask. split; [by intros [= -> <-]|by intros [-> ->]]. Qed.

Lemma action_of_action_value a : action_of_value (action_value a) = Some a.
Proof. by destruct a. Qed.

Lemma caller_actions_cons v l :
  caller_actions (v :: l) =
  match action_of_value v with Some a => a :: caller_actions l | None => caller_actions l end.
Proof. done. Qed.

Lemma caller_actions_action l : caller_actions (action_value <$> l) = l.
Proof.
  induction l as [|a l IH]; [done|]. rewrite fmap_cons, caller_actions_cons, action_of_action_value.
  by rewrite IH.
Qed.

Lemma headline_auto l : headline l = Some Auto -> l <> [] /\ Forall (fun a => a = Auto) l.
Proof. destruct l as [|a l]; [done|]. intros [= H]. split; [done|]. by apply worst_action_auto. Qed.

Lemma headline_worst l w : headline l = Some w -> w ∈ l /\ forall a, a ∈ l -> (severity a <= severity w)%nat.
Proof.
  destruct l as [|a l]; [done|]. intros [= <-]. split; [by apply worst_action_in|].
  intros b Hb. by apply worst_action_upper.
Qed.

(** Evidence kept by the trim test has a character that is not white space. *)
Lemma js_trim_left_nil t : js_trim_left t = [] <-> Forall (fun c => is_js_whitespace c = true) t.
Proof.
  induction t as [|c t IH]; simpl; [split; [constructor|done]|]. rewrite Forall_cons.
  destruct (is_js_whitespace c) eqn:E; [rewrite IH; naive_solver|split; [done|naive_solver]].
Qed.

Lemma js_trim_left_suffix t : exists p, t = p ++ js_trim_left t /\ Forall (fun c => is_js_whitespace c = true) p.
Proof.
  induction t as [|c t (p & Heq & Hp)]; simpl; [by exists []|].
  destruct (is_js_whitespace c) eqn:E; [|by exists []]. exists (c :: p). split; [|by constructor].
  simpl. by rewrite <- Heq.
Qed.

Lemma js_trim_nil t : js_trim t = [] <-> Forall (fun c => is_js_whitespace c = true) t.
Proof.
  unfold js_trim. split.
  - intros H. apply (f_equal (@rev Z)) in H. rewrite rev_involutive in H. simpl in H.
    apply js_trim_left_nil in H. destruct (js_trim_left_suffix t) as (p & -> & Hp).
    apply Forall_app. split; [done|]. apply Forall_rev in H. by rewrite rev_involutive in H.
  - intros H. apply js_trim_left_nil in H. by rewrite H.
Qed.

Lemma has_non_empty_evidence_spec items :
  has_non_empty_evidence items = true <->
  Exists (fun it => Exists (fun c => is_js_whitespace c = false) (text_of it)) items.
Proof.
  unfold has_non_empty_evidence. rewrite existsb_Exists.
  assert (forall t, negb (bool_decide (js_trim t = [])) = true <->
                    Exists (fun c => is_js_whitespace c = false) t) as Ht.
  { intros t. rewrite negb_true_iff, bool_decide_eq_false, js_trim_nil. split.
    - intros Hn. apply not_Forall_Exists in Hn; [|intros c; apply _].
      eapply Exists_impl; [exact Hn|]. intros c. simpl. apply not_true_is_false.
    - intros He Hall. apply Exists_exists in He as (c & Hin & Hc).
      eapply Forall_forall in Hall; [|exact Hin]. simpl in *. congruence. }
  split; intros He; (eapply Exists_impl; [exact He|]; intros it; by rewrite Ht).
Qed.

(** ** Reading a framed payload *)
Section Frame.
Context (tool : text) (ev : option Evaluation) (body : dict value) (model : option text).
Context (Hnd : NoDup (dkeys body)).

(** A body key survives the frame, [usage] and [request_id] apart. *)
Lemma frame_get k v :
  k <> u "usage" -> k <> u "request_id" -> dget k body = Some v ->
  get k (frame tool ev body model) = v.
Proof.
  intros Hu Hr Hk. unfold get, frame. destruct ev as [e|].
  - assert (forall d, dget k (dset (u "usage") (usage_to_wire (usage e)) (dmerge d body)) = Some v) as Hd.
    { intros d. rewrite dget_dset_ne by done. by apply dget_dmerge_has. }
    destruct (request_id e) as [[|c id]|]; rewrite ?(dget_dset_ne k (u "request_id")) by done; by rewrite Hd.
  - rewrite dget_dset_ne by done. by rewrite (dget_dmerge_has k v) by done.
Qed.
End Frame.

Lemma keys_NoDup {A} (d : dict A) : bool_decide (NoDup (dkeys d)) = true -> NoDup (dkeys d).
Proof. apply bool_decide_eq_true_1. Qed.
