(* ===== verification/Samples.v ===== *)
(** * Concrete providers

    Small evaluations and runtimes on which the theorems about handlers are instantiated, and the
    answers they return. *)
From S2P Require Import Prelude Float64 Json Domain Policy Runtime.
Open Scope Z_scope.

Definition percent (n : Z) : value := VFloat (f_ratio n 100).

Definition choice_reply (c : string) (ps : list (string * Z)) (confidence : Z) : value :=
  VDict [(u "choice", vs c); (u "probabilities", VDict ((fun kp => (u kp.1, percent kp.2)) <$> ps));
         (u "confidence", percent confidence)].

Definition noul_reply (n : Z) : value := VDict [(u "noul", percent n)].

Definition score_reply (s : Z) (confidence : Z) : value :=
  VDict [(u "score", VInt s); (u "confidence", percent confidence)].

Definition sample_evaluation (answers : dict value) : Evaluation :=
  {| answers := answers; usage := no_usage; ev_provider := u "typesafe"; ev_model := u "jev";
     request_id := None |}.

(** A provider that always gives the same answers. *)
Definition sample_runtime (answers : dict value) : Runtime :=
  {| rt_model := u "jev"; rt_ask := fun _ _ => Ok (sample_evaluation answers) |}.

Lemma sample_runtime_json answers : wf_check (VDict answers) = true -> json_replies (sample_runtime answers).
Proof. intros H n rq ev [= <-]. by apply wf_check_sound. Qed.

(** Confident answers to the review rubric. *)
Definition review_replies : dict value :=
  [(u "correctness", score_reply 2 95); (u "spec_match", score_reply 2 95); (u "test_gap", score_reply 0 90);
   (u "blast_radius", score_reply 0 90); (u "safe_to_apply", noul_reply 95)].

Definition sample_patch : text := u "@@ -1 +1 @@" ++ [10] ++ u "-a" ++ [10] ++ u "+b".

Definition sample_file (name : string) : list (text * text) := [(u "path", u name); (u "patch", sample_patch)].

(** The call ends in a result headlined [auto]. *)
Definition auto_result (h : result exn ToolResult * Log) : bool :=
  match h.1 with Ok r => bool_decide (action r = Some Auto) | Raise _ => false end.

Lemma auto_result_Ok h : auto_result h = true -> exists r log', h = (Ok r, log') /\ action r = Some Auto.
Proof.
  destruct h as [[r|e] log']; [|done]. intros H%bool_decide_eq_true_1. by exists r, log'.
Qed.

(** The call ends in a result. *)
Definition ok_result (h : result exn ToolResult * Log) : bool :=
  match h.1 with Ok _ => true | Raise _ => false end.

Lemma ok_result_Ok h : ok_result h = true -> exists r log', h = (Ok r, log').
Proof. destruct h as [[r|e] log']; [|done]. intros _. by exists r, log'. Qed.
