(* ===== verification/Verify.v ===== *)
(** * jev_verify

    Models [tools/verify.py]: the questions asked about each claim, the row of each claim, the
    payload and the headline.  Arguments are the parsed ones. *)
From S2P Require Import Prelude Float64 Json Domain Ids Caps Limits Validation Policy Responses Runtime Samples ReviewHalf.
Open Scope Z_scope.

Definition RELATION_TO_VERDICT : dict ClaimVerdict :=
  [(u "supports", Verified); (u "contradicts", Contradicted); (u "says_nothing", Unsupported)].

Definition RELATION_CRITERIA : dict value :=
  [(u "supports", vs "The evidence states the claim or directly implies that it is true");
   (u "contradicts", vs "The evidence states the opposite of the claim or implies that it is false");
   (u "says_nothing", vs "The evidence does not address what the claim asserts, either way")].

Definition NO_SOURCE : value := vs "No single evidence item contains the content the claim depends on".

Definition ROLE_RULE : text :=
  u " A claim is about the current state unless it says otherwise. Use after or current items for that claim,"
  ++ u " not before.".

Definition VERIFY_SUFFIX : text := ROLE_RULE ++ ANTI_INJECTION.

Record Args := { arg_claims : list text; arg_evidence : evidence_arg; arg_auto_accept : option float }.

(** ** Questions *)
Definition relation_key (claim : item) : text := u "relation_" ++ id_of claim.
Definition source_key (claim : item) : text := u "source_" ++ id_of claim.

(** [{str(item["id"]): None for item in evidence}] with the [none] hatch. *)
Definition source_criteria (ids : list text) : dict value :=
  dset (u "none") NO_SOURCE (fold_left (fun d i => dset i VNone d) ids []).

Definition relation_question (claim : item) : Question :=
  choice_question
    (u "How does the evidence relate to claim `" ++ id_of claim ++ u "` (" ++ text_of claim ++ u ")?"
     ++ VERIFY_SUFFIX) RELATION_CRITERIA.

Definition source_question (claim : item) (evidence : list item) : Question :=
  choice_question
    (u "Which evidence item does claim `" ++ id_of claim ++ u "` (" ++ text_of claim ++ u ") rest on?"
     ++ VERIFY_SUFFIX) (source_criteria (id_of <$> evidence)).

Definition several (evidence : list item) : bool := (1 <? length evidence)%nat.

Definition questions_of (claims evidence : list item) : dict Question :=
  fold_left (fun qs claim =>
    let qs := dset (relation_key claim) (relation_question claim) qs in
    if several evidence then dset (source_key claim) (source_question claim evidence) qs else qs)
  claims [].

(** ** Rows *)
Definition source_keys (evidence : list item) : list text := (id_of <$> evidence) ++ [u "none"].

(** [source is not None and source.choice != "none"]. *)
Definition support_of (source : option ChoiceAnswer) : option text :=
  match source with
  | Some s => if bool_decide (choice s = u "none") then None else Some (choice s)
  | None => None
  end.

Definition closed_row (claim : item) (evidence : list item) (closed : Action) : dict value :=
  let row :=
    [(u "id", VStr (id_of claim)); (u "claim", VStr (text_of claim)); (u "verdict", vs "unknown");
     (u "probabilities", VNone); (u "confidence", VNone); (u "status", vs "invalid_response");
     (u "action", action_value closed); (u "supporting_evidence", VNone)] in
  dmerge row (claim_extras row evidence None None).

(** [RELATION_TO_VERDICT[choice]]: a validated choice is a key, see [validated_verdict]. *)
Definition verdict_of (c : text) : value := vopt ((fun v => VStr (verdict_text v)) <$> dget c RELATION_TO_VERDICT).

Definition open_row (claim : item) (evidence : list item) (a : ChoiceAnswer) (source : option ChoiceAnswer)
    (auto_accept : float) : dict value :=
  let support := support_of source in
  let action := verify_claim_action (confidence a) auto_accept (choice <$> source) evidence in
  let row :=
    [(u "id", VStr (id_of claim)); (u "claim", VStr (text_of claim)); (u "verdict", verdict_of (choice a));
     (u "probabilities", probs_value (probabilities a)); (u "confidence", opt_float (confidence a));
     (u "action", action_value action); (u "supporting_evidence", opt_text support)] in
  dmerge row (claim_extras row evidence None support).

Definition is_malformed (a : ChoiceAnswer) : bool := bool_decide (confidence_kind_of a = CkMalformed).

Definition claim_row (answers : dict value) (evidence : list item) (auto_accept : float) (claim : item)
    : dict value :=
  let validated := validate_choice (get (relation_key claim) answers) (dkeys RELATION_TO_VERDICT) in
  let source :=
    if several evidence then validate_choice (get (source_key claim) answers) (source_keys evidence) else None in
  match validated with
  | None => closed_row claim evidence (closed_action FcVerify)
  | Some a =>
    if is_malformed a then closed_row claim evidence (closed_action FcVerify)
    else open_row claim evidence a source auto_accept
  end.

(** [sum(1 for r in results if r[key] == s)]. *)
Definition count_rows (key s : text) (rows : list (dict value)) : value :=
  VInt (count_if (fun r => is_str s (get key r)) rows).

Definition summary (results : list (dict value)) : dict value :=
  dmerge
    [(u "verified", count_rows (u "verdict") (u "verified") results);
     (u "contradicted", count_rows (u "verdict") (u "contradicted") results);
     (u "unsupported", count_rows (u "verdict") (u "unsupported") results);
     (u "needs_review", count_rows (u "action") (u "review") results)]
    (summary_extras results).

(** ** handle *)
Definition auto_accept_of (args : Args) : float := or_else (arg_auto_accept args) DEFAULT_AUTO_ACCEPT.

Definition evidence_of (args : Args) : list item :=
  ui_items (ensure_unique_ids (evidence_items (arg_evidence args)) (u "evidence")).

Definition claims_of (args : Args) : list item :=
  ui_items (ensure_unique_ids ((fun t => [(u "text", t)]) <$> arg_claims args) (u "claim")).

Definition state_of (args : Args) : value := VDict
  [(u "purpose", vs "Verify each claim in claims against the evidence in evidence.");
   (u "claims", items_value (claims_of args)); (u "evidence", items_value (evidence_of args))].

(** The rows, the summary and the headline, once the evaluation is there. *)
Definition rows_of (args : Args) (answers : dict value) : list (dict value) :=
  claim_row answers (evidence_of args) (auto_accept_of args) <$> claims_of args.

Definition reply (args : Args) (evaluation : Evaluation) : ToolResult :=
  let renamed := caller_renames (evidence_items (arg_evidence args)) (evidence_of args) in
  let results := rows_of args (answers evaluation) in
  let item_actions := caller_actions ((fun r => get (u "action") r) <$> results) in
  {| payload := frame (u "jev_verify") (Some evaluation)
       (dmerge [(u "auto_accept", VFloat (auto_accept_of args)); (u "summary", VDict (summary results));
                (u "results", VList (VDict <$> results))]
          (renamed_ids_field renamed)) None;
     is_error := false; action := headline item_actions; item_actions := item_actions;
     tr_truncated := ∅; error_code := None; extract := None |}.

Definition handle (args : Args) (rt : Runtime) : M ToolResult :=
  let! evaluation := ask rt (state_of args) (questions_of (claims_of args) (evidence_of args)) in
  mret (reply args evaluation).

(** ** Facts *)
Lemma extra_key_not k : mem k EXTRA_KEYS = false -> k ∉ EXTRA_KEYS.
Proof. intros H Hin. apply mem_spec in Hin. congruence. Qed.

(** A validated relation is one of the three verdicts. *)
Lemma validated_verdict raw a :
  wf_value raw -> validate_choice raw (dkeys RELATION_TO_VERDICT) = Some a ->
  exists v, dget (choice a) RELATION_TO_VERDICT = Some v /\ verdict_of (choice a) = VStr (verdict_text v).
Proof.
  intros Hwf Hv. destruct raw as [| | | | | |d]; try done.
  apply validate_choice_inv in Hv as (raw & _ & _ & _ & [Hc _ _ _ _] & _); [|done].
  apply dget_is_Some in Hc as [v Hv]. exists v. split; [done|]. unfold verdict_of. by rewrite Hv.
Qed.

(** What a claim's row says and why: either the answer was unusable, or the row is the validated
    answer under the policy's action. *)
Inductive row_of (answers : dict value) (evidence : list item) (auto_accept : float) (claim : item)
    (row : dict value) : Action -> Prop :=
| row_closed :
    (forall a, validate_choice (get (relation_key claim) answers) (dkeys RELATION_TO_VERDICT) = Some a ->
       confidence_kind_of a = CkMalformed) ->
    get (u "verdict") row = vs "unknown" -> get (u "status") row = vs "invalid_response" ->
    row_of answers evidence auto_accept claim row Review
| row_open a v source :
    validate_choice (get (relation_key claim) answers) (dkeys RELATION_TO_VERDICT) = Some a ->
    confidence_kind_of a <> CkMalformed ->
    dget (choice a) RELATION_TO_VERDICT = Some v -> get (u "verdict") row = VStr (verdict_text v) ->
    get (u "probabilities") row = probs_value (probabilities a) ->
    source = (if several evidence
              then validate_choice (get (source_key claim) answers) (source_keys evidence) else None) ->
    row_of answers evidence auto_accept claim row
      (verify_claim_action (confidence a) auto_accept (choice <$> source) evidence).

Lemma claim_row_spec answers evidence auto_accept claim :
  wf_value (VDict answers) ->
  exists act, get (u "action") (claim_row answers evidence auto_accept claim) = action_value act /\
    row_of answers evidence auto_accept claim (claim_row answers evidence auto_accept claim) act.
Proof.
  intros Hwf. unfold claim_row.
  destruct (validate_choice (get (relation_key claim) answers) _) as [a|] eqn:Ev.
  - destruct (is_malformed a) eqn:Em; unfold is_malformed in Em; bool_to_prop.
    + exists Review. unfold closed_row. rewrite claim_extras_keep by by apply extra_key_not.
      split; [reflexivity|]. apply row_closed; [intros a' Ha'; rewrite Ev in Ha'; by simplify_eq| |];
        by rewrite claim_extras_keep by by apply extra_key_not.
    + destruct (validated_verdict _ a (get_wf _ _ Hwf) Ev) as (v & Hv & Hvt).
      unfold open_row. rewrite claim_extras_keep by by apply extra_key_not.
      eexists. split; [reflexivity|]. eapply row_open; [done|done|done| | |done];
        rewrite claim_extras_keep by (by apply extra_key_not); [|reflexivity].
      change (get _ _) with (verdict_of (choice a)) at 1. done.
  - exists Review. unfold closed_row. rewrite claim_extras_keep by by apply extra_key_not.
    split; [reflexivity|]. apply row_closed; [intros a' Ha'; congruence| |];
      by rewrite claim_extras_keep by by apply extra_key_not.
Qed.

(** The actions of the rows, claim by claim. *)
Lemma verify_rows_actions args answers :
  wf_value (VDict answers) ->
  exists acts,
    caller_actions ((fun r => get (u "action") r) <$> rows_of args answers) = acts /\
    Forall2 (fun claim act =>
      row_of answers (evidence_of args) (auto_accept_of args) claim
        (claim_row answers (evidence_of args) (auto_accept_of args) claim) act) (claims_of args) acts.
Proof.
  intros Hwf. unfold rows_of. induction (claims_of args) as [|claim claims (acts & Hacts & Hall)].
  - exists []. split; [reflexivity|constructor].
  - destruct (claim_row_spec answers (evidence_of args) (auto_accept_of args) claim Hwf) as (act & Hact & Hrow).
    exists (act :: acts). rewrite !fmap_cons, caller_actions_cons, Hact, action_of_action_value, Hacts.
    split; [done|]. by constructor.
Qed.

Lemma claims_of_length args : length (claims_of args) = length (arg_claims args).
Proof. unfold claims_of. by rewrite ensure_unique_ids_length, length_fmap. Qed.

(** One request, never another one. *)
Lemma handle_log args rt log : (handle args rt log).2 =
  log ++ [{| rq_state := state_of args; rq_questions := questions_of (claims_of args) (evidence_of args) |}].
Proof. unfold handle, mbind, ask. by destruct (rt_ask _ _ _). Qed.

Lemma verify_handle_Ok args rt log r log' :
  handle args rt log = (Ok r, log') ->
  exists ev, rt_ask rt (length log)
    {| rq_state := state_of args; rq_questions := questions_of (claims_of args) (evidence_of args) |} = Ok ev /\
    r = reply args ev.
Proof.
  unfold handle. intros (ev & log1 & [Hask _]%ask_Ok & Hr)%mbind_Ok. exists ev. split; [done|]. by injection Hr.
Qed.

(** A claim row that stands: its relation answer validated, with a confidence at the threshold, and
    it does not rest on a caller note. *)
Definition claim_stands (answers : dict value) (evidence : list item) (auto_accept : float) (claim : item) : Prop :=
  exists a c source,
    validate_choice (get (relation_key claim) answers) (dkeys RELATION_TO_VERDICT) = Some a /\
    confidence a = Some c /\ fgeb c auto_accept = true /\
    source = (if several evidence
              then validate_choice (get (source_key claim) answers) (source_keys evidence) else None) /\
    ~ cites_caller_note (choice <$> source) evidence.

Lemma row_auto_stands answers evidence auto_accept claim row :
  row_of answers evidence auto_accept claim row Auto -> claim_stands answers evidence auto_accept claim.
Proof.
  intros H. inversion H as [|a v source Ha Hk Hv Hrow Hp Hs Hact]. subst.
  apply verify_claim_action_auto in Hact as [(c & Hc & Hge) Hn].
  eexists a, c, _. split_and!; try done.
Qed.


(** ** The summary counts every claim once *)
Definition VERDICT_LABELS : list text := [u "verified"; u "contradicted"; u "unsupported"; u "unknown"].

Lemma row_verdict answers evidence auto_accept claim :
  wf_value (VDict answers) ->
  exists s, s ∈ VERDICT_LABELS /\ get (u "verdict") (claim_row answers evidence auto_accept claim) = VStr s.
Proof.
  intros Hwf. destruct (claim_row_spec answers evidence auto_accept claim Hwf) as (act & _ & Hrow).
  unfold VERDICT_LABELS. inversion Hrow as [? Hv _ Hact|? v ? _ _ _ Hv _ _ Hact]; rewrite Hv.
  - eexists; split; [|done]. set_solver.
  - exists (verdict_text v). split; [|done]. destruct v; simpl; set_solver.
Qed.

Lemma rows_length args answers : length (rows_of args answers) = length (arg_claims args).
Proof. unfold rows_of. by rewrite length_fmap, claims_of_length. Qed.

(** The summary of jev_verify counts every claim exactly once: the four verdict counts add up to
    the number of claims, and so do the values of [by_verdict] and of [by_action]. *)
Theorem verify_summary_counts args answers :
  wf_value (VDict answers) ->
  sum_over (fun s => count_if (fun r => is_str s (get (u "verdict") r)) (rows_of args answers)) VERDICT_LABELS
    = Z.of_nat (length (arg_claims args)) /\
  sum_Z (dvalues (partition (rows_of args answers) (u "verdict"))) = Z.of_nat (length (arg_claims args)) /\
  sum_Z (dvalues (partition (rows_of args answers) (u "action"))) = Z.of_nat (length (arg_claims args)).
Proof.
  intros Hwf. rewrite !partition_sum, rows_length. split; [|done].
  rewrite labels_partition, rows_length; [done| |].
  - apply (bool_decide_unpack _). by vm_compute.
  - apply Forall_forall. intros row (claim & -> & _)%list_elem_of_fmap. by apply row_verdict.
Qed.

(** ** Concrete call *)
Definition sample_args : Args :=
  {| arg_claims := [u "the sky is blue"];
     arg_evidence := EvItems [[(u "id", u "a"); (u "text", u "blue sky")]; [(u "text", u "note"); (u "kind", u "caller_note")]];
     arg_auto_accept := None |}.

Definition sample_answers : dict value :=
  [(u "relation_claim0", choice_reply "supports" [("supports", 90); ("contradicts", 5); ("says_nothing", 5)] 95);
   (u "source_claim0", choice_reply "a" [("a", 80); ("evidence1", 15); ("none", 5)] 90)].


Lemma verify_summary_counts_witness :
  sum_Z (dvalues (partition (rows_of sample_args sample_answers) (u "verdict"))) = 1.
Proof. refine (proj1 (proj2 (verify_summary_counts sample_args sample_answers _))). apply wf_check_sound. by vm_compute. Defined.
