(* ===== verification/FanOut.v ===== *)
(** * Concurrent reviews of a file list

    Models the task group of [tools/files.py:review_file_list]: one task per fitting file, at most
    [REVIEW_FANOUT] asking at once, the siblings cancelled at the first failure, the recorded
    failure with the lowest index re-raised, results folded in input order.  A task's outcome is a
    parameter; the schedule is the nondeterminism of [step]. *)
From S2P Require Import Prelude.
Open Scope nat_scope.

Definition REVIEW_FANOUT : nat := 8.

Section FanOut.
Context {E A : Type} (tasks : nat) (outcome : nat -> result E A).

Record group := {
  waiting : gset nat;        (* started, not yet through the limiter *)
  asking : gset nat;         (* holding one of the limiter's slots *)
  asked : gmap nat A;        (* [asked[index] = ...] *)
  failures : list (nat * E);
  cancelled : bool }.

Definition start : group :=
  {| waiting := set_seq 0 tasks; asking := ∅; asked := ∅; failures := []; cancelled := false |}.

Inductive step : group -> group -> Prop :=
| step_acquire g i :
    i ∈ waiting g -> size (asking g) < REVIEW_FANOUT ->
    step g {| waiting := waiting g ∖ {[i]}; asking := {[i]} ∪ asking g; asked := asked g;
              failures := failures g; cancelled := cancelled g |}
| step_store g i a :
    i ∈ asking g -> outcome i = Ok a ->
    step g {| waiting := waiting g; asking := asking g ∖ {[i]}; asked := <[i := a]> (asked g);
              failures := failures g; cancelled := cancelled g |}
| step_fail g i e :
    i ∈ asking g -> outcome i = Raise e ->
    step g {| waiting := waiting g; asking := asking g ∖ {[i]}; asked := asked g;
              failures := failures g ++ [(i, e)]; cancelled := true |}
| step_cancel_waiting g i :
    cancelled g = true -> i ∈ waiting g ->
    step g {| waiting := waiting g ∖ {[i]}; asking := asking g; asked := asked g;
              failures := failures g; cancelled := true |}
| step_cancel_asking g i :
    cancelled g = true -> i ∈ asking g ->
    step g {| waiting := waiting g; asking := asking g ∖ {[i]}; asked := asked g;
              failures := failures g; cancelled := true |}.

(** The group exits when no task is left. *)
Definition finished (g : group) : Prop := waiting g = ∅ /\ asking g = ∅.

(** [min(failures, key=lambda failure: failure[0])]: the first of the lowest index. *)
Definition lowest (f : nat * E) (fs : list (nat * E)) : nat * E :=
  fold_left (fun best x => if (x.1 <? best.1)%nat then x else best) fs f.

(** After the group: the failure, or the stored results in input order. *)
Definition folded (g : group) : option (result E (list A)) :=
  match failures g with
  | f :: fs => Some (Raise (lowest f fs).2)
  | [] => Ok <$> mapM (fun i => asked g !! i) (seq 0 tasks)
  end.

(** The sequential pass the fan-out replaced. *)
Definition sequential : result E (list A) := rmap outcome (seq 0 tasks).

(** ** Invariant *)
Record inv (g : group) : Prop := {
  inv_disjoint : waiting g ## asking g;
  inv_bound : size (asking g) <= REVIEW_FANOUT;
  inv_tasks : forall i, i ∈ waiting g \/ i ∈ asking g -> i < tasks;
  inv_asked : forall i a, asked g !! i = Some a -> outcome i = Ok a;
  inv_failures : forall i e, (i, e) ∈ failures g -> i < tasks /\ outcome i = Raise e;
  inv_all : cancelled g = false -> forall i, i < tasks ->
    i ∈ waiting g \/ i ∈ asking g \/ is_Some (asked g !! i);
  inv_cancelled : cancelled g = true <-> failures g <> [] }.

Lemma inv_start : inv start.
Proof.
  constructor; simpl.
  - set_solver.
  - vm_compute. lia.
  - intros i [Hi|Hi]; [apply elem_of_set_seq in Hi; lia|set_solver].
  - intros i a Hi. by rewrite lookup_empty in Hi.
  - intros i e Hi. by apply elem_of_nil in Hi.
  - intros _ i Hi. left. apply elem_of_set_seq. lia.
  - split; [done|]. by intros [].
Qed.

Lemma inv_step g g' : inv g -> step g g' -> inv g'.
Proof.
  intros [Hd Hb Ht Ha Hf Hall Hc] Hs.
  assert (forall i, size (asking g ∖ {[i]}) <= REVIEW_FANOUT) as Hb'.
  { intros i. etrans; [|exact Hb]. apply subseteq_size. set_solver. }
  inversion Hs as [? i Hi Hlt|? i a Hi Ho|? i e Hi Ho|? i Hcc Hi|? i Hcc Hi]; subst; constructor; simpl; try done.
  - set_solver.
  - rewrite size_union, size_singleton by set_solver. lia.
  - intros j [Hj|Hj]; apply Ht; set_solver.
  - intros Hcf j Hj. destruct (Hall Hcf j Hj) as [?|[?|?]]; [|set_solver|auto].
    destruct (decide (j = i)); set_solver.
  - set_solver.
  - intros j [Hj|Hj]; apply Ht; set_solver.
  - intros j b. destruct (decide (i = j)) as [->|]; [rewrite lookup_insert|rewrite lookup_insert_ne by done];
      [|apply Ha]. rewrite decide_True by done. by intros [= <-].
  - intros Hcf j Hj. destruct (decide (i = j)) as [->|Hne].
    + right; right. rewrite lookup_insert, decide_True by done. eauto.
    + rewrite lookup_insert_ne by done. destruct (Hall Hcf j Hj) as [?|[?|?]]; set_solver.
  - set_solver.
  - intros j [Hj|Hj]; apply Ht; set_solver.
  - intros j e' [Hj|Hj]%elem_of_app; [by apply Hf|]. apply list_elem_of_singleton in Hj. simplify_eq. auto.
  - split; [|done]. intros _ Happ. by apply app_nil in Happ as [_ ?].
  - set_solver.
  - intros j [Hj|Hj]; apply Ht; set_solver.
  - rewrite <- Hc. done.
  - set_solver.
  - intros j [Hj|Hj]; apply Ht; set_solver.
  - rewrite <- Hc. done.
Qed.

Lemma inv_reachable g : rtc step start g -> inv g.
Proof.
  revert g. refine (rtc_ind_r (R := step) inv start inv_start _).
  intros y z _ Hs Hi. by eapply inv_step.
Qed.

(** ** Termination and progress *)
Definition work (g : group) : nat := 2 * size (waiting g) + size (asking g).

Lemma size_remove (X : gset nat) i : i ∈ X -> size X = S (size (X ∖ {[i]})).
Proof.
  intros Hi. rewrite size_difference by set_solver. rewrite size_singleton.
  assert (size X <> 0); [|lia]. intros H0%size_empty_inv. set_solver.
Qed.

Lemma step_work g g' : waiting g ## asking g -> step g g' -> work g' < work g.
Proof.
  intros Hd Hs. unfold work.
  inversion Hs as [? i Hi Hlt|? i a Hi Ho|? i e Hi Ho|? i Hcc Hi|? i Hcc Hi]; subst;
    cbn [waiting asking]; pose proof (size_remove _ _ Hi); try lia.
  rewrite (size_union {[i]} (asking g)), size_singleton by set_solver. lia.
Qed.

Lemma step_progress g : inv g -> ~ finished g -> exists g', step g g'.
Proof.
  intros [Hd Hb Ht Ha Hf Hall Hc] Hn. destruct (set_choose_or_empty (asking g)) as [[i Hi]|He].
  - destruct (outcome i) as [a|e] eqn:Ho; eexists; [by eapply step_store|by eapply step_fail].
  - destruct (set_choose_or_empty (waiting g)) as [[i Hi]|Hw].
    + eexists. eapply step_acquire; [done|]. apply leibniz_equiv in He. rewrite He, size_empty.
      unfold REVIEW_FANOUT. lia.
    + exfalso. apply Hn. split; by apply leibniz_equiv.
Qed.

Lemma step_reaches_finished g : inv g -> exists g', rtc step g g' /\ finished g'.
Proof.
  remember (work g) as n eqn:Hn. revert g Hn. induction n as [n IH] using lt_wf_ind. intros g -> Hi.
  destruct (decide (waiting g = ∅ /\ asking g = ∅)) as [Hfin|Hnf]; [by exists g|].
  destruct (step_progress g Hi Hnf) as [g1 Hs].
  destruct (IH (work g1)) with (g := g1) as (g2 & Hr & Hf); [|done|by eapply inv_step|].
  - apply step_work; [|done]. by destruct Hi.
  - exists g2. split; [by eapply rtc_l|done].
Qed.

(** ** The fold agrees with the sequential pass *)
Lemma lowest_spec f fs :
  lowest f fs ∈ f :: fs /\ Forall (fun x => (lowest f fs).1 <= x.1) (f :: fs).
Proof.
  destruct (fold_best (fun x b : nat * E => x.1 <? b.1) (fun _ => True)) with (first := f) (rest := fs)
    as [Hin Hall].
  - intros a b c _ _ _. rewrite !Nat.ltb_ge. lia.
  - intros a b _ _. rewrite Nat.ltb_lt, Nat.ltb_ge. lia.
  - intros a _. rewrite Nat.ltb_ge. lia.
  - by apply Forall_forall.
  - split; [exact Hin|]. eapply Forall_impl; [exact Hall|]. intros x. simpl. by rewrite Nat.ltb_ge.
Qed.

Lemma folded_Ok g :
  inv g -> finished g -> failures g = [] ->
  exists results, folded g = Some (Ok results) /\ sequential = Ok results.
Proof.
  intros [Hd Hb Ht Ha Hf Hall Hc] [Hw Hk] Hnf. unfold folded. rewrite Hnf.
  assert (cancelled g = false) as Hcf by (destruct (cancelled g); [by apply Hc in Hnf|done]).
  assert (forall i, i ∈ seq 0 tasks -> exists a, asked g !! i = Some a /\ outcome i = Ok a) as Hstored.
  { intros i Hi%elem_of_seq. destruct (Hall Hcf i ltac:(lia)) as [Hx|[Hx|[a Hx]]]; [set_solver..|].
    exists a. auto. }
  unfold sequential. revert Hstored. generalize (seq 0 tasks). intros l Hl.
  induction l as [|i l IH]; [by exists []|].
  destruct IH as (rs & Hm & Hr); [intros j Hj; apply Hl; by right|].
  destruct (Hl i ltac:(left)) as (a & Ha1 & Ha2). exists (a :: rs). simpl. rewrite Ha1, Ha2. simpl.
  destruct (mapM _ l) as [rs'|]; [|done]. simpl in *. rewrite Hr. split; [|done]. by simplify_eq.
Qed.

Lemma folded_Raise g :
  inv g -> finished g -> failures g <> [] ->
  exists i e, folded g = Some (Raise e) /\ i < tasks /\ outcome i = Raise e /\
    (forall j e', (j, e') ∈ failures g -> i <= j).
Proof.
  intros [Hd Hb Ht Ha Hf Hall Hc] _ Hne. unfold folded.
  destruct (failures g) as [|f fs] eqn:Efs; [done|].
  destruct (lowest_spec f fs) as [Hin Hmin]. destruct (lowest f fs) as [i e].
  exists i, e. split; [done|]. destruct (Hf i e Hin) as [? ?]. split_and!; [done..|].
  intros j e' Hj. eapply Forall_forall in Hmin; [|exact Hj]. done.
Qed.

Lemma sequential_Raise :
  (exists i e, i < tasks /\ outcome i = Raise e) -> exists e, sequential = Raise e.
Proof.
  intros (i & e & Hi & Ho). unfold sequential. destruct (rmap outcome (seq 0 tasks)) as [rs|e'] eqn:Hr; [|eauto].
  exfalso. apply rmap_Ok in Hr. assert (i ∈ seq 0 tasks) as Hin by (apply elem_of_seq; lia).
  apply list_elem_of_lookup in Hin as [k Hk]. destruct (Forall2_lookup_l _ _ _ _ _ Hr Hk) as (a & _ & Hx).
  congruence.
Qed.

(** C12 Whatever the schedule, a finished fan-out gives what the sequential pass gives: the same
    results in input order when the sequential pass succeeds, and otherwise an error some task
    raised, the recorded one with the lowest index; at no time do more than eight reviews ask. *)
Theorem fan_out_refines_sequential g :
  rtc step start g -> size (asking g) <= REVIEW_FANOUT /\
  (finished g ->
   match sequential with
   | Ok results => folded g = Some (Ok results)
   | Raise _ => exists i e, folded g = Some (Raise e) /\ i < tasks /\ outcome i = Raise e /\
       (forall j e', (j, e') ∈ failures g -> i <= j)
   end).
Proof.
  intros Hr%inv_reachable. split; [by destruct Hr|]. intros Hfin.
  destruct (failures g) as [|f fs] eqn:Efs.
  - destruct (folded_Ok g Hr Hfin Efs) as (rs & Hf & ->). done.
  - assert (failures g <> []) as Hne by by rewrite Efs.
    destruct (folded_Raise g Hr Hfin Hne) as (i & e & Hf & Hi & Ho & Hmin). rewrite <- Efs.
    destruct sequential_Raise as [e' ->]; [by exists i, e|]. by exists i, e.
Qed.

(** C13 The fan-out terminates: every step does work, so no schedule runs for more than two steps
    per task, and from every reachable state the group can finish. *)
Theorem fan_out_terminates g :
  rtc step start g -> work g <= 2 * tasks /\ (forall g', step g g' -> work g' < work g) /\
  exists g', rtc step g g' /\ finished g'.
Proof.
  intros Hr. pose proof (inv_reachable g Hr) as Hi. split_and!.
  - assert (work start = 2 * tasks) as <-.
    { unfold work, start. cbn [waiting asking]. rewrite size_set_seq, (size_empty (C := gset nat)). lia. }
    clear Hi. revert g Hr. refine (rtc_ind_r (R := step) (fun g => work g <= work start) start _ _); [lia|].
    intros y z Hy Hs IH. apply inv_reachable in Hy. destruct Hy. pose proof (step_work y z inv_disjoint0 Hs). lia.
  - intros g' Hs. apply step_work; [by destruct Hi|done].
  - by apply step_reaches_finished.
Qed.
End FanOut.

(** ** A concrete schedule: the second of two reviews fails while the first still asks *)
Definition sample_outcome (i : nat) : result nat nat := if i =? 1 then Raise 7 else Ok i.

Lemma sample_run : exists g, rtc (step sample_outcome) (start 2) g /\ finished g /\ failures g = [(1, 7)].
Proof.
  eexists. split.
  - eapply rtc_l; [apply (step_acquire _ _ 0); [apply (bool_decide_unpack _); reflexivity|vm_compute; lia]|].
    eapply rtc_l; [apply (step_acquire _ _ 1); [apply (bool_decide_unpack _); reflexivity|vm_compute; lia]|].
    eapply rtc_l; [apply (step_fail _ _ 1 7); [apply (bool_decide_unpack _); reflexivity|reflexivity]|].
    eapply rtc_l; [apply (step_cancel_asking _ _ 0); [reflexivity|apply (bool_decide_unpack _); reflexivity]|].
    apply rtc_refl.
  - split; [split|]; reflexivity.
Qed.

Lemma fan_out_refines_sequential_witness : exists g,
  rtc (step sample_outcome) (start 2) g /\ folded 2 g = Some (Raise 7).
Proof.
  destruct sample_run as (g & Hr & Hf & Hfail). exists g. split; [exact Hr|].
  pose proof (proj2 (fan_out_refines_sequential 2 sample_outcome g Hr) Hf) as H. simpl in H.
  destruct H as (i & e & Hfold & Hi & Ho & _). rewrite Hfold.
  destruct i as [|[|i]]; [discriminate|injection Ho as <-; reflexivity|discriminate].
Defined.

Lemma fan_out_terminates_witness : exists g', rtc (step sample_outcome) (start 2) g' /\ finished g'.
Proof. exact (proj2 (proj2 (fan_out_terminates 2 sample_outcome (start 2) (rtc_refl _ _)))). Defined.
