(* ===== verification/Files.v ===== *)
(** * The multi-file diff path

    Models [tools/files.py]: the shape of a file list, its two budgets, one review request per
    fitting file, the worst action per path, and the frame both tools publish.  The requests are
    made in input order here; [FanOut] shows that the concurrent task group gives the same. *)
From S2P Require Import Prelude Float64 Text Limits Json Domain Ids Caps Validation Policy Responses Runtime ReviewHalf.
Open Scope Z_scope.

Record File := { path : text; patch : text }.

(** The schema requires both keys of every item. *)
Definition file_of (it : item) : File :=
  {| path := or_else (dget (u "path") it) []; patch := or_else (dget (u "patch") it) [] |}.

Definition file_patches (diff : diff_arg) : result exn (list File) :=
  match diff with
  | DiffText _ => Raise (ToolError (u "diff file list was not a list") (u "invalid_arguments"))
  | DiffFiles files => Ok (file_of <$> files)
  end.

Definition file_list_refusal (files : list File) (caps : GateCaps) : option text :=
  if exceeds (sum_over (fun f => Utf16.length (patch f)) files) (gate_aggregate_evidence_units caps)
  then Some (gate_diff_aggregate_error (gate_aggregate_evidence_units caps))
  else if exceeds (Z.of_nat (length files)) (gate_files_max caps)
  then Some (gate_diff_files_error (gate_files_max caps))
  else None.

Definition file_actions (reviewed : list (text * Action)) : dict Action :=
  fold_left (fun actions pa =>
    dset pa.1 (match dget pa.1 actions with None => pa.2 | Some current => worst_action [current; pa.2] end)
      actions) reviewed [].

Record FileListReview := {
  halves : list ReviewHalf; evaluations : list Evaluation; reviewed_paths : list text;
  unreviewed : list text; fitting : list File; unhashed_tests : bool; flr_truncated : bool;
  flr_scopes : ledger }.

(** [FileListReview.review_half]: the first file's half under the headline action. *)
Definition flr_review_half (r : FileListReview) (action : Action) : dict value :=
  let payload := match halves r with h :: _ => half_payload h | [] => [] end in
  let payload := dset (u "action") (action_value action) payload in
  let payload := dset (u "score_file") (VStr (or_else (hd_error (reviewed_paths r)) [])) payload in
  let payload := dset (u "reviewed_files") (texts_value (reviewed_paths r)) payload in
  dset (u "file_actions")
    (VDict ((fun pa => (pa.1, action_value pa.2))
              <$> file_actions (combine (reviewed_paths r) (half_action <$> halves r)))) payload.

(** ** review_file_list *)
Definition fits (doc_units : Z) (f : File) : bool := Utf16.length (patch f) <=? doc_units.

Definition file_docs (args : ReviewArgs) (doc_units : Z) (f : File) : ReviewDocs * ledger :=
  review_docs (arg_request args) (patch f) (arg_tests args) doc_units new_ledger.

Definition docs_state (purpose : text) (docs : ReviewDocs) : value :=
  VDict [(u "purpose", VStr purpose); (u "request", VStr (doc_request docs));
         (u "diff", VStr (doc_diff docs)); (u "tests", opt_text (doc_tests docs))].

Definition review_one (args : ReviewArgs) (rt : Runtime) (purpose : text) (doc_units : Z) (f : File) : M Evaluation :=
  ask rt (docs_state purpose (file_docs args doc_units f).1) (review_questions []).

(** The request [review_one] makes. *)
Definition file_request (args : ReviewArgs) (purpose : text) (doc_units : Z) (f : File) : Request :=
  {| rq_state := docs_state purpose (file_docs args doc_units f).1; rq_questions := review_questions [] |}.

Definition half_of (args : ReviewArgs) (settings : ReviewSettings) (doc_units : Z) (fe : File * Evaluation)
    : ReviewHalf :=
  project_review (answers fe.2) settings (context_cut (file_docs args doc_units fe.1).2).

Definition fold_files (args : ReviewArgs) (settings : ReviewSettings) (doc_units : Z)
    (files fitting : list File) (evs : list Evaluation) : FileListReview :=
  let asked := combine fitting evs in
  {| halves := half_of args settings doc_units <$> asked;
     evaluations := snd <$> asked;
     reviewed_paths := (fun fe => path fe.1) <$> asked;
     unreviewed := path <$> List.filter (fun f => negb (fits doc_units f)) files;
     fitting := fitting;
     unhashed_tests := existsb (fun fe => self_reported (file_docs args doc_units fe.1).1 args) asked;
     flr_truncated := existsb (fun fe => context_cut (file_docs args doc_units fe.1).2) asked;
     flr_scopes := ⋃ ((fun fe => (file_docs args doc_units fe.1).2) <$> asked) |}.

Definition review_file_list (files : list File) (args : ReviewArgs) (rt : Runtime) (settings : ReviewSettings)
    (purpose : text) (doc_units : Z) : M FileListReview :=
  let fitting := List.filter (fits doc_units) files in
  let! evs := mmap (review_one args rt purpose doc_units) fitting in
  mret (fold_files args settings doc_units files fitting evs).

(** ** combined *)

(** [sum(values)] of token counts: exact over ints; from the first float on, a compensated double
    sum, as Python 3.12 computes it. *)
Definition as_double (v : value) : float := or_else (as_number v) f_zero.

Fixpoint sum_floats (total c : float) (l : list value) : float :=
  match l with
  | [] => if negb (feqb c f_zero) && is_finite c then fadd total c else total
  | VInt n :: l' => sum_floats (fadd total (as_double (VInt n))) c l'
  | v :: l' =>
    let x := as_double v in
    let t := fadd total x in
    let c' := if fgeb (fabs total) (fabs x) then fadd c (fadd (fsub total t) x)
              else fadd c (fadd (fsub x t) total) in
    sum_floats t c' l'
  end.

Fixpoint sum_counts (total : Z) (l : list value) : value :=
  match l with
  | [] => VInt total
  | VInt n :: l' => sum_counts (total + n) l'
  | v :: l' => VFloat (sum_floats (fadd (as_double (VInt total)) (as_double v)) f_zero l')
  end.

Definition first_request_id (evs : list Evaluation) : option text :=
  hd_error (omap (fun ev => nonempty (request_id ev)) evs).

(** One frame for several asks; [evaluations[0]] exists at every call. *)
Definition combined (evs : list Evaluation) : Evaluation :=
  {| answers := [];
     usage := {| input_tokens := sum_counts 0 ((fun ev => input_tokens (usage ev)) <$> evs);
                 output_tokens := sum_counts 0 ((fun ev => output_tokens (usage ev)) <$> evs) |};
     ev_provider := or_else (ev_provider <$> hd_error evs) [];
     ev_model := or_else (ev_model <$> hd_error evs) [];
     request_id := first_request_id evs |}.

(** ** Facts *)
Lemma mmap_Ok {A B} (f : A -> M B) l log bs log' :
  mmap f l log = (Ok bs, log') -> length bs = length l.
Proof.
  revert log bs log'. induction l as [|a l IH]; intros log bs log'; simpl.
  - by intros [= <- <-].
  - intros (b & log1 & _ & (bs' & log2 & Hl & Hr)%mbind_Ok)%mbind_Ok. injection Hr as <- _.
    simpl. f_equal. by eapply IH.
Qed.

(** The requests are the files' own, in order, and the replies are the runtime's to them. *)
Lemma review_all args rt purpose doc_units files log evs log' :
  mmap (review_one args rt purpose doc_units) files log = (Ok evs, log') ->
  log' = log ++ (file_request args purpose doc_units <$> files) /\
  forall i f ev, files !! i = Some f -> evs !! i = Some ev ->
    rt_ask rt (length log + i)%nat (file_request args purpose doc_units f) = Ok ev.
Proof.
  revert log evs log'. induction files as [|f files IH]; intros log evs log'; simpl.
  - intros [= <- <-]. by rewrite app_nil_r.
  - intros (ev & log1 & [Hask ->]%ask_Ok & (evs' & log2 & Hl & Hr)%mbind_Ok)%mbind_Ok. injection Hr as <- <-.
    apply IH in Hl as [-> Hl]. split; [by rewrite <- app_assoc|].
    intros [|i] f' ev' Hf Hev; simpl in *; [simplify_eq; by rewrite Nat.add_0_r|].
    specialize (Hl i f' ev' Hf Hev). rewrite length_app in Hl. simpl in Hl.
    by rewrite <- Nat.add_assoc in Hl.
Qed.

Lemma mmap_review_log args rt purpose doc_units files log :
  exists done_, (mmap (review_one args rt purpose doc_units) files log).2 = log ++ done_ /\
    (length done_ <= length files)%nat.
Proof.
  revert log. induction files as [|f files IH]; intros log; simpl.
  - exists []. by rewrite app_nil_r.
  - unfold mbind at 1. unfold review_one, ask at 1. destruct (rt_ask rt _ _) as [ev|e] eqn:E.
    + unfold mbind. specialize (IH (log ++ [{| rq_state := docs_state purpose (file_docs args doc_units f).1;
        rq_questions := review_questions [] |}])). unfold review_one in IH.
      destruct (mmap _ files _) as [[bs|e] l']; simpl in *; destruct IH as (d & -> & Hd);
        rewrite <- app_assoc; eexists; (split; [reflexivity|simpl; lia]).
    + simpl. eexists; split; [done|simpl; lia].
Qed.

Lemma mret_log {A} (a : A) log : (mret a log).2 = log.
Proof. done. Qed.

(** *** Actions per path *)
Lemma fold_file_actions_get reviewed (acc : dict Action) p :
  dget p (fold_left (fun actions pa =>
    dset pa.1 (match dget pa.1 actions with None => pa.2 | Some current => worst_action [current; pa.2] end)
      actions) reviewed acc)
  = match dget p acc, snd <$> List.filter (fun pa => bool_decide (pa.1 = p)) reviewed with
    | None, [] => None
    | None, l => Some (worst_action l)
    | Some c, l => Some (worst_action (c :: l))
    end.
Proof.
  revert acc. induction reviewed as [|[q a] reviewed IH]; intros acc; simpl.
  - destruct (dget p acc) as [[]|]; done.
  - rewrite IH. destruct (decide (q = p)) as [->|Hne].
    + rewrite dget_dset_eq, bool_decide_eq_true_2 by done. simpl.
      set (l := snd <$> List.filter _ reviewed).
      destruct (dget p acc) as [c|]; f_equal.
      change (worst_action ([worst_action [c; a]] ++ l) = worst_action ([c; a] ++ l)).
      rewrite worst_action_app, (worst_action_app [c; a]).
      f_equal. f_equal. by destruct c, a.
    + rewrite dget_dset_ne, bool_decide_eq_false_2 by congruence. done.
Qed.

Lemma file_actions_get reviewed p :
  dget p (file_actions reviewed)
  = match snd <$> List.filter (fun pa => bool_decide (pa.1 = p)) reviewed with
    | [] => None
    | l => Some (worst_action l)
    end.
Proof. unfold file_actions. by rewrite fold_file_actions_get. Qed.

Lemma fold_file_actions_values reviewed (acc : dict Action) :
  worst_action (dvalues (fold_left (fun actions pa =>
    dset pa.1 (match dget pa.1 actions with None => pa.2 | Some current => worst_action [current; pa.2] end)
      actions) reviewed acc))
  = worst_action (dvalues acc ++ (snd <$> reviewed)).
Proof.
  revert acc. induction reviewed as [|[q a] reviewed IH]; intros acc; simpl; [by rewrite app_nil_r|].
  rewrite IH, worst_action_app.
  assert (forall d : dict Action, worst_action (dvalues (dset q
    (match dget q d with None => a | Some current => worst_action [current; a] end) d))
    = worst_action (dvalues d ++ [a])) as Hset.
  { clear. intros d. unfold dvalues. induction d as [|[k c] d IH]; [by destruct a|]. simpl.
    case_bool_decide; simpl.
    - change (worst_action ([worst_action [c; a]] ++ d.*2) = worst_action ([c] ++ (d.*2 ++ [a]))).
      rewrite !worst_action_app. destruct c, a, (worst_action d.*2); done.
    - change (worst_action ([c] ++ (dset q (match dget q d with None => a | Some current => worst_action [current; a] end) d).*2)
        = worst_action ([c] ++ (d.*2 ++ [a]))).
      by rewrite (worst_action_app [c]), IH, <- worst_action_app. }
  rewrite Hset, <- worst_action_app, <- app_assoc. done.
Qed.

(** The published mapping names exactly the severity of the headline. *)
Lemma file_actions_worst reviewed :
  worst_action (dvalues (file_actions reviewed)) = worst_action (snd <$> reviewed).
Proof. unfold file_actions. by rewrite fold_file_actions_values. Qed.

Lemma file_list_refusal_None files caps :
  file_list_refusal files caps = None <->
  sum_over (fun f => Utf16.length (patch f)) files <= gate_aggregate_evidence_units caps /\
  Z.of_nat (length files) <= gate_files_max caps.
Proof.
  unfold file_list_refusal, exceeds.
  destruct (gate_aggregate_evidence_units caps <? _) eqn:E1; bool_to_prop; [split; [done|lia]|].
  destruct (gate_files_max caps <? _) eqn:E2; bool_to_prop; split; done || lia.
Qed.

(** *** The reviewed list *)
Lemma review_file_list_Ok files args rt settings purpose doc_units log r log' :
  review_file_list files args rt settings purpose doc_units log = (Ok r, log') ->
  exists evs,
    mmap (review_one args rt purpose doc_units) (List.filter (fits doc_units) files) log = (Ok evs, log') /\
    length evs = length (List.filter (fits doc_units) files) /\
    r = fold_files args settings doc_units files (List.filter (fits doc_units) files) evs.
Proof.
  unfold review_file_list. intros (evs & log1 & Hm & Hr)%mbind_Ok. injection Hr as <- <-.
  exists evs. split; [done|]. split; [by eapply mmap_Ok|done].
Qed.

Lemma fits_false_exists doc_units files :
  path <$> List.filter (fun f => negb (fits doc_units f)) files = [] <->
  Forall (fun f => Utf16.length (patch f) <= doc_units) files.
Proof.
  induction files as [|f files IH]; simpl; [done|]. rewrite Forall_cons. unfold fits at 1.
  destruct (Utf16.length (patch f) <=? doc_units) eqn:E; bool_to_prop; simpl.
  - rewrite IH. naive_solver.
  - split; [done|]. lia.
Qed.

Lemma filter_fits_all doc_units files :
  Forall (fun f => Utf16.length (patch f) <= doc_units) files -> List.filter (fits doc_units) files = files.
Proof.
  induction 1 as [|f fs Hf _ IH]; simpl; [done|].
  assert (fits doc_units f = true) as -> by by apply Z.leb_le. by rewrite IH.
Qed.
