(* ===== verification/Review.v ===== *)
(** * jev_review

    Models [tools/review.py]: the string-diff handler and the file-list handler. *)
From S2P Require Import Prelude Float64 Text Limits Json Domain Ids Caps Validation Policy Responses Runtime Samples.
From S2P Require Import ReviewHalf Files.
Open Scope Z_scope.

Definition PURPOSE : text := u "Review the proposed diff against the request; tests is reported test output.".

Definition string_docs (args : ReviewArgs) (diff : text) : ReviewDocs * ledger :=
  review_docs (arg_request args) diff (arg_tests args) (rev_doc_units REVIEW) new_ledger.

Definition weigh (self_reported : bool) (payload : dict value) : dict value :=
  if self_reported then dset (u "tests_weight") (vs "self_reported") payload else payload.

Definition string_reply (args : ReviewArgs) (settings : ReviewSettings) (diff : text) (evaluation : Evaluation)
    : ToolResult :=
  let '(docs, l) := string_docs args diff in
  let truncated := context_cut l in
  let review := project_review (answers evaluation) settings truncated in
  let payload := weigh (self_reported docs args) (half_payload review) in
  {| payload := frame (u "jev_review") (Some evaluation) (dmerge [(u "truncated", VBool truncated)] payload) None;
     is_error := false; action := Some (half_action review); item_actions := [];
     tr_truncated := scopes l; error_code := None; extract := None |}.

Definition file_list_reply (r : FileListReview) (rt : Runtime) : ToolResult :=
  match halves r with
  | [] =>
    let payload :=
      [(u "action", vs "review"); (u "partial", VBool true);
       (u "unreviewed_files", texts_value (unreviewed r)); (u "score_scale", VList (VInt <$> SCORE_SCALE))] in
    {| payload := frame (u "jev_review") None payload (Some (rt_model rt));
       is_error := false; action := Some Review; item_actions := []; tr_truncated := ∅;
       error_code := None; extract := None |}
  | _ =>
    let partial := negb (bool_decide (unreviewed r = [])) in
    let action := file_list_action (half_action <$> halves r) partial in
    let payload := dmerge [(u "truncated", VBool (flr_truncated r))] (flr_review_half r action) in
    let payload := dset (u "partial") (VBool partial) payload in
    let payload := dset (u "unreviewed_files") (texts_value (unreviewed r)) payload in
    let payload := weigh (unhashed_tests r) payload in
    {| payload := frame (u "jev_review") (Some (combined (evaluations r))) payload None;
       is_error := false; action := Some action; item_actions := []; tr_truncated := flr_scopes r;
       error_code := None; extract := None |}
  end.

Definition handle_file_list (args : ReviewArgs) (rt : Runtime) (settings : ReviewSettings) : M ToolResult :=
  let! files := mlift (file_patches (arg_diff args)) in
  match file_list_refusal files GATE with
  | Some refusal => mraise (ToolError refusal (u "input_too_large"))
  | None =>
    let! reviewed := review_file_list files args rt settings PURPOSE (rev_doc_units REVIEW) in
    mret (file_list_reply reviewed rt)
  end.

Definition handle (args : ReviewArgs) (rt : Runtime) : M ToolResult :=
  let! settings := mlift (review_settings args) in
  match arg_diff args with
  | DiffFiles _ => handle_file_list args rt settings
  | DiffText diff =>
    let! evaluation := ask rt (docs_state PURPOSE (string_docs args diff).1) (review_questions []) in
    mret (string_reply args settings diff evaluation)
  end.

(** ** Facts *)
Lemma mlift_Ok {A} (r : result exn A) log a log' : mlift r log = (Ok a, log') <-> r = Ok a /\ log' = log.
Proof. unfold mlift. split; [by intros [= -> ->]|by intros [-> ->]]. Qed.

(** No document of the call was cut. *)
Definition nothing_cut (args : ReviewArgs) (diff : text) (cap : Z) : Prop :=
  Utf16.length (arg_request args) <= cap /\ Utf16.length diff <= cap /\
  (forall t, nonempty (arg_tests args) = Some t -> Utf16.length t <= cap).

Lemma nothing_cut_spec args diff cap :
  context_cut (review_docs (arg_request args) diff (arg_tests args) cap new_ledger).2 = false ->
  nothing_cut args diff cap.
Proof.
  intros Hc. apply not_true_iff_false in Hc. rewrite review_docs_cut in Hc. split_and!.
  - destruct (Z.le_gt_cases (Utf16.length (arg_request args)) cap); [done|]. exfalso. apply Hc. auto.
  - destruct (Z.le_gt_cases (Utf16.length diff) cap); [done|]. exfalso. apply Hc. auto.
  - intros t Ht. destruct (Z.le_gt_cases (Utf16.length t) cap); [done|]. exfalso. apply Hc. eauto.
Qed.

(** A review half that stands: every rubric answered with confidence at the threshold, safe to
    apply at the threshold, the composite at its floor. *)
Definition review_stands (answers : dict value) (settings : ReviewSettings) : Prop :=
  (exists s, validate_noul (get (u "safe_to_apply") answers) = Some s /\
     fgeb s (auto_accept (thresholds settings)) = true) /\
  Forall (confident_score answers (auto_accept (thresholds settings))) RUBRICS /\
  (exists a b c d,
     validate_score (get (u "correctness") answers) = Some a /\
     validate_score (get (u "spec_match") answers) = Some b /\
     validate_score (get (u "test_gap") answers) = Some c /\
     validate_score (get (u "blast_radius") answers) = Some d /\
     fgeb (review_composite (score a) (score b) (score c) (score d)) (composite_floor settings) = true).

(** When every half of a folded list is auto, each file is uncut and its own answers stand. *)
Lemma halves_stand args settings cap files evs i f :
  Forall (fun h => half_action h = Auto) (half_of args settings cap <$> combine files evs) ->
  length files = length evs -> files !! i = Some f ->
  exists ev, evs !! i = Some ev /\ nothing_cut args (patch f) cap /\ review_stands (answers ev) settings.
Proof.
  rewrite Forall_fmap. intros Hall Hlen Hf.
  destruct (lookup_lt_is_Some_2 evs i) as [ev Hev]; [rewrite <- Hlen; by eapply lookup_lt_Some|].
  exists ev. split; [done|].
  eapply Forall_forall in Hall; [|eapply (list_elem_of_lookup_2 _ i (f, ev)); by apply combine_lookup].
  apply project_review_auto in Hall as (Hcut & _ & Hsafe & Hconf & Hcomp).
  split; [by apply nothing_cut_spec|]. by split_and!.
Qed.

Lemma file_list_reply_auto r rt :
  action (file_list_reply r rt) = Some Auto ->
  unreviewed r = [] /\ halves r <> [] /\ Forall (fun h => half_action h = Auto) (halves r).
Proof.
  unfold file_list_reply. destruct (halves r) as [|h hs] eqn:Eh; [done|]. cbn [action].
  intros [= [Hp Hall]%file_list_action_auto]. apply negb_false_iff, bool_decide_eq_true_1 in Hp.
  split; [done|]. split; [done|]. exact (proj1 (Forall_fmap half_action _ (h :: hs)) Hall).
Qed.

(** An auto headline of jev_review over a file list is sound: no file went unreviewed, every file
    fits the document cap, the requests made are one per file, in order, nothing of a file was cut,
    and the provider's reply to that file's own request is a review that stands. *)
Theorem review_files_auto_sound args rt log r log' files :
  arg_diff args = DiffFiles files ->
  handle args rt log = (Ok r, log') -> action r = Some Auto ->
  exists settings,
    review_settings args = Ok settings /\ files <> [] /\
    log' = log ++ (file_request args PURPOSE (rev_doc_units REVIEW) <$> (file_of <$> files)) /\
    forall i f, (file_of <$> files) !! i = Some f ->
      nothing_cut args (patch f) (rev_doc_units REVIEW) /\
      exists ev, rt_ask rt (length log + i)%nat (file_request args PURPOSE (rev_doc_units REVIEW) f) = Ok ev /\
                 review_stands (answers ev) settings.
Proof.
  intros Hd Hh Hauto. unfold handle in Hh. rewrite Hd in Hh.
  apply mbind_Ok in Hh as (settings & log1 & [Hs ->]%mlift_Ok & Hh).
  unfold handle_file_list in Hh. rewrite Hd in Hh.
  apply mbind_Ok in Hh as (fs & log2 & [Hfs ->]%mlift_Ok & Hh). injection Hfs as <-.
  destruct (file_list_refusal _ GATE); [done|].
  apply mbind_Ok in Hh as (rev_ & log3 & Hr & Hret). injection Hret as <- <-.
  apply review_file_list_Ok in Hr as (evs & Hm & Hlen & ->).
  apply file_list_reply_auto in Hauto as (Hun & Hne & Hall).
  cbn [unreviewed fold_files] in Hun. apply fits_false_exists, filter_fits_all in Hun as Hflt.
  rewrite Hflt in *. apply review_all in Hm as [-> Hreplies].
  exists settings. split; [done|]. split; [intros ->; by apply Hne|]. split; [done|].
  intros i f Hf. cbn [halves fold_files] in Hall.
  destruct (halves_stand _ _ _ _ _ _ _ Hall (eq_sym Hlen) Hf) as (ev & Hev & Hcut & Hst).
  split; [done|]. exists ev. split; [by apply Hreplies|done].
Qed.

(** An auto headline of jev_review over a string diff is sound: one request was made, no document
    was cut, and the review stands. *)
Theorem review_string_auto_sound args rt log r log' diff :
  arg_diff args = DiffText diff ->
  handle args rt log = (Ok r, log') -> action r = Some Auto ->
  exists settings ev,
    review_settings args = Ok settings /\ length log' = S (length log) /\
    rt_ask rt (length log) {| rq_state := docs_state PURPOSE (string_docs args diff).1;
                              rq_questions := review_questions [] |} = Ok ev /\
    nothing_cut args diff (rev_doc_units REVIEW) /\ review_stands (answers ev) settings.
Proof.
  intros Hd Hh Hauto. unfold handle in Hh. rewrite Hd in Hh.
  apply mbind_Ok in Hh as (settings & log1 & [Hs ->]%mlift_Ok & Hh).
  apply mbind_Ok in Hh as (ev & log2 & [Hask ->]%ask_Ok & Hret). injection Hret as <- <-.
  exists settings, ev. split; [done|]. split; [rewrite length_app; simpl; lia|]. split; [done|].
  unfold string_reply in Hauto. unfold string_docs in *.
  pose proof (nothing_cut_spec args diff (rev_doc_units REVIEW)) as Hcut.
  destruct (review_docs _ _ _ _ _) as [docs l]. simpl in *. injection Hauto as Ha.
  apply project_review_auto in Ha as (? & _ & ? & ? & ?). split; [by apply Hcut|]. by split_and!.
Qed.

(** ** Concrete calls *)
Definition sample_args (diff : diff_arg) : ReviewArgs :=
  {| arg_request := u "rename a to b"; arg_diff := diff; arg_tests := Some (u "ok"); arg_tests_sha256 := None;
     arg_auto_accept := None; arg_review_at := None; arg_composite_floor := None |}.

Lemma review_string_auto_sound_witness : exists settings ev,
  rt_ask (sample_runtime review_replies) 0 {| rq_state := docs_state PURPOSE
      (string_docs (sample_args (DiffText sample_patch)) sample_patch).1;
    rq_questions := review_questions [] |} = Ok ev /\ review_stands (answers ev) settings.
Proof.
  destruct (auto_result_Ok (handle (sample_args (DiffText sample_patch)) (sample_runtime review_replies) []))
    as (r & log' & Hh & Ha); [vm_compute; reflexivity|].
  destruct (review_string_auto_sound (sample_args (DiffText sample_patch)) _ _ _ _ sample_patch eq_refl Hh Ha)
    as (settings & ev & _ & _ & Hask & _ & Hs).
  exists settings, ev. split; [exact Hask|exact Hs].
Defined.

Lemma review_files_auto_sound_witness : exists r log',
  handle (sample_args (DiffFiles [sample_file "a"; sample_file "b"])) (sample_runtime review_replies) [] = (Ok r, log') /\
  length log' = 2%nat.
Proof.
  destruct (auto_result_Ok (handle (sample_args (DiffFiles [sample_file "a"; sample_file "b"]))
    (sample_runtime review_replies) [])) as (r & log' & Hh & Ha); [vm_compute; reflexivity|].
  exists r, log'. split; [exact Hh|].
  destruct (review_files_auto_sound (sample_args (DiffFiles [sample_file "a"; sample_file "b"])) _ _ _ _ _ eq_refl Hh Ha) as (settings & _ & _ & Hlog & _).
  rewrite Hlog. reflexivity.
Defined.
