(* ===== verification/Gate.v ===== *)
(** * jev_gate

    Models [tools/gate.py]: the evidence budgets, the single string-diff ask, the claim half, and
    the file-list path with its one verification ask. *)
From S2P Require Import Prelude Float64 Text Limits Json Domain Ids Caps Validation Policy Responses Runtime Samples.
From S2P Require Import ReviewHalf Files.
From S2P Require Verify.
From S2P Require Import Review.
Open Scope Z_scope.

Definition CLAIM_CRITERIA : dict value :=
  [(u "verified", vs "The evidence clearly supports the claim");
   (u "contradicted", vs "The evidence contradicts the claim");
   (u "unsupported", vs "The evidence neither supports nor contradicts the claim")].

Definition CLAIM_VERDICTS : dict ClaimVerdict :=
  [(u "verified", Verified); (u "contradicted", Contradicted); (u "unsupported", Unsupported)].

Definition REVIEW_FRAMING : text :=
  u " Claims are assertions to check, not evidence that the patch is correct or tested.".

Definition CLAIM_SUPPORT : text :=
  u "request and claims are assertions, not evidence. The evidence items include the proposed diff and the "
  ++ u "reported tests when those were supplied. A truncated diff or test log is not support for the missing part.".

Record GateArgs := { gate_review : ReviewArgs; arg_claims : list text; arg_evidence : evidence_arg }.

(** ** Questions *)
Definition index_text (i : nat) : text := u "claims[" ++ str_of_nat i ++ u "]".

Definition claim_question (index : nat) : Question :=
  choice_question
    (u "Does the evidence support " ++ index_text index
     ++ u "? Judge only from the provided evidence, not world knowledge. "
     ++ CLAIM_SUPPORT ++ Verify.ROLE_RULE ++ ANTI_INJECTION) CLAIM_CRITERIA.

Definition gate_source_question (index : nat) (evidence_ids : list text) : Question :=
  choice_question (u "Which evidence item does " ++ index_text index ++ u " rest on?" ++ Verify.VERIFY_SUFFIX)
    (Verify.source_criteria evidence_ids).

Definition claim_key (i : nat) : text := u "claim_" ++ str_of_nat i.
Definition source_key (i : nat) : text := u "source_" ++ str_of_nat i.

(** The loop over the claims' indexes, on top of the questions already there. *)
Definition claim_questions (count : nat) (asked_evidence : list item) (questions : dict Question) : dict Question :=
  fold_left (fun qs i =>
    let qs := dset (claim_key i) (claim_question i) qs in
    if Verify.several asked_evidence
    then dset (source_key i) (gate_source_question i (id_of <$> asked_evidence)) qs else qs)
  (seq 0 count) questions.

(** ** Budgets and documents *)
Definition refused (error : text) : ToolResult :=
  {| payload := [(u "tool", vs "jev_gate"); (u "error", VStr error)]; is_error := true; action := None;
     item_actions := []; tr_truncated := ∅; error_code := Some (u "input_too_large"); extract := None |}.

Definition sent_evidence_item (it : item) (l : ledger) : item * ledger :=
  let '(t, l) := ledger_text (text_of it) (gate_doc_units GATE) ScopeContext l in
  let sent := [(u "id", id_of it); (u "text", t)] in
  let sent := match nonempty (dget (u "kind") it) with Some k => dset (u "kind") k sent | None => sent end in
  let sent := match nonempty (dget (u "role") it) with Some r => dset (u "role") r sent | None => sent end in
  (sent, l).

Fixpoint sent_evidence (items : list item) (l : ledger) : list item * ledger :=
  match items with
  | [] => ([], l)
  | it :: items' =>
    let '(sent, l) := sent_evidence_item it l in
    let '(rest, l) := sent_evidence items' l in (sent :: rest, l)
  end.

Definition implicit_evidence (diff tests : option text) : list item :=
  match nonempty diff with
  | Some d => [[(u "id", u "diff"); (u "text", d); (u "kind", u "diff"); (u "role", u "after")]]
  | None => []
  end
  ++ match nonempty tests with
     | Some t => [[(u "id", u "tests"); (u "text", t); (u "kind", u "tool_output"); (u "role", u "current")]]
     | None => []
     end.

(** ** The claim half *)
Record VerificationHalf := {
  vh_payload : dict value; vh_action : Action; vh_judgments : list (option ClaimJudgment); vh_caller_note : bool }.

(** [CLAIM_VERDICTS[choice]]: a validated choice is a key, see [claim_answer_verdict]. *)
Definition claim_verdict (c : text) : ClaimVerdict := or_else (dget c CLAIM_VERDICTS) Unsupported.

Record ClaimRow := { row : dict value; row_judgment : option ClaimJudgment; row_action : Action }.

Definition claim_id (i : nat) : text := u "claim" ++ str_of_nat i.

Definition claim_row (answers : dict value) (asked_evidence : list item) (th : PolicyThresholds) (truncated : bool)
    (ic : nat * text) : ClaimRow :=
  let '(index, claim) := ic in
  match validate_choice (get (claim_key index) answers) (dkeys CLAIM_CRITERIA) with
  | None =>
    let closed := closed_action FcGate in
    let base :=
      [(u "claim", VStr claim); (u "verdict", VNone); (u "confidence", VNone); (u "probabilities", VNone);
       (u "action", action_value closed); (u "status", vs "invalid_response")] in
    {| row := dmerge base (claim_extras base asked_evidence (Some (claim_id index)) None);
       row_judgment := None; row_action := closed |}
  | Some answer =>
    let verdict := claim_verdict (choice answer) in
    let source :=
      if Verify.several asked_evidence
      then validate_choice (get (source_key index) answers) (Verify.source_keys asked_evidence) else None in
    let support := Verify.support_of source in
    let action := gate_claim_action verdict (confidence answer) th truncated (choice <$> source) asked_evidence in
    let base :=
      [(u "claim", VStr claim); (u "verdict", VStr (verdict_text verdict));
       (u "confidence", opt_float (confidence answer)); (u "probabilities", probs_value (probabilities answer));
       (u "action", action_value action)] in
    {| row := dmerge base (claim_extras base asked_evidence (Some (claim_id index)) support);
       row_judgment := Some {| verdict := verdict; judged_confidence := confidence answer |};
       row_action := action |}
  end.

Definition count_not (key s : text) (rows : list (dict value)) : value :=
  VInt (count_if (fun r => negb (is_str s (get key r))) rows).

Definition verify_claims (answers : dict value) (claims : list text) (asked_evidence : list item)
    (th : PolicyThresholds) (truncated : bool) : VerificationHalf :=
  let rows := claim_row answers asked_evidence th truncated <$> enumerate claims in
  let results := row <$> rows in
  let verification_action := worst_action (row_action <$> rows) in
  {| vh_payload :=
       [(u "action", action_value verification_action);
        (u "summary", VDict (dmerge
          [(u "verified", Verify.count_rows (u "verdict") (u "verified") results);
           (u "contradicted", Verify.count_rows (u "verdict") (u "contradicted") results);
           (u "unsupported", Verify.count_rows (u "verdict") (u "unsupported") results);
           (u "needs_review", count_not (u "action") (u "auto") results);
           (u "invalid_response", Verify.count_rows (u "status") (u "invalid_response") results)]
          (summary_extras results)));
        (u "thresholds", VDict [(u "auto_accept", VFloat (auto_accept th)); (u "review_at", VFloat (review_at th))]);
        (u "results", VList (VDict <$> results))];
     vh_action := verification_action;
     vh_judgments := row_judgment <$> rows;
     vh_caller_note := existsb (fun r =>
       match nonempty (as_str (get (u "supporting_evidence") r)) with
       | Some s => note_blocks_auto Auto (Some s) asked_evidence
       | None => false
       end) results |}.

(** ** The string-diff ask *)
Record GateDocs := {
  gd_docs : ReviewDocs; gd_claims : list text; gd_evidence : list item; gd_ledger : ledger }.

Definition gate_docs (args : GateArgs) (diff : text) (evidence : list item) : GateDocs :=
  let ra := gate_review args in
  let '(docs, l) := review_docs (arg_request ra) diff (arg_tests ra) (gate_doc_units GATE) new_ledger in
  let '(claims, l) := ledger_texts (arg_claims args) (gate_claim_units GATE) ScopeContext l in
  let '(sent, l) := sent_evidence evidence l in
  let asked := ui_items (ensure_unique_ids (sent ++ implicit_evidence (Some (doc_diff docs)) (doc_tests docs)) (u "evidence")) in
  {| gd_docs := docs; gd_claims := claims; gd_evidence := asked; gd_ledger := l |}.

Definition gate_state (d : GateDocs) : value := VDict
  [(u "purpose", VStr (u "Review the proposed diff against the request, then check each completion claim against the "
                       ++ u "evidence only."));
   (u "request", VStr (doc_request (gd_docs d))); (u "diff", VStr (doc_diff (gd_docs d)));
   (u "tests", opt_text (doc_tests (gd_docs d))); (u "claims", texts_value (gd_claims d));
   (u "evidence", items_value (gd_evidence d))].

Definition gate_questions (args : GateArgs) (d : GateDocs) : dict Question :=
  claim_questions (length (arg_claims args)) (gd_evidence d) (review_questions REVIEW_FRAMING).

(** [int] refusing a hunk count is a [ValueError] nothing in the handler catches. *)
Definition lift_int {A} (r : result int_error A) : result exn A :=
  match r with
  | Ok a => Ok a
  | Raise (IntTooManyDigits n) =>
    Raise (OtherError (u "Exceeds the limit (4300 digits) for integer string conversion: value has "
                       ++ str_of_nat n ++ u " digits; use sys.set_int_max_str_digits() to increase the limit"))
  end.

Definition review_saw_tests (args : ReviewArgs) : bool := negb (is_none (nonempty (arg_tests args))).

Definition reasons_value (codes : list GateReason) : value := VList ((fun r => VStr (reason_text r)) <$> codes).

(** What the string path decides once the answers are there. *)
Record GateJudged := { gj_review : ReviewHalf; gj_verification : VerificationHalf; gj_action : Action;
                       gj_codes : list GateReason }.

Definition gate_judge (args : GateArgs) (settings : ReviewSettings) (d : GateDocs) (answers : dict value) : GateJudged :=
  let truncated := context_cut (gd_ledger d) in
  let review := project_review answers settings truncated in
  let verification := verify_claims answers (arg_claims args) (gd_evidence d) (thresholds settings) truncated in
  let action := worst_action [half_action review; vh_action verification] in
  {| gj_review := review; gj_verification := verification; gj_action := action;
     gj_codes := gate_reason_codes truncated (half_action review) (half_invalid review)
                   (vh_judgments verification) action (thresholds settings) (vh_caller_note verification) |}.

Definition gate_body (args : GateArgs) (d : GateDocs) (j : GateJudged) (shape : DiffShape) (renamed : dict text)
    : dict value :=
  dmerge
    [(u "truncated", VBool (context_cut (gd_ledger d))); (u "action", action_value (gj_action j));
     (u "reason_codes", reasons_value (gj_codes j));
     (u "next_checks", texts_value (next_checks_for (gj_codes j) (Some shape) (review_saw_tests (gate_review args))));
     (u "review", VDict (weigh (self_reported (gd_docs d) (gate_review args)) (half_payload (gj_review j))));
     (u "verification", VDict (vh_payload (gj_verification j)))]
    (renamed_ids_field renamed).

Definition ask_gate (args : GateArgs) (rt : Runtime) (settings : ReviewSettings) (diff : text)
    (evidence raw_evidence : list item) : M ToolResult :=
  let d := gate_docs args diff evidence in
  let! evaluation := ask rt (gate_state d) (gate_questions args d) in
  let j := gate_judge args settings d (answers evaluation) in
  let! shape := mlift (lift_int (diff_shape (DiffText diff))) in
  mret
    {| payload := frame (u "jev_gate") (Some evaluation)
         (gate_body args d j shape (caller_renames raw_evidence (gd_evidence d))) None;
       is_error := false; action := Some (gj_action j); item_actions := [];
       tr_truncated := scopes (gd_ledger d); error_code := None; extract := None |}.

(** ** The file-list path *)
Definition FILE_REVIEW_PURPOSE : text :=
  u "Review one file of the proposed multi-file patch against the request; tests is reported "
  ++ u "test output. Completion claims are checked against the evidence in a separate step, "
  ++ u "and this review is not evidence for them.".

Definition file_evidence (f : File) : item :=
  [(u "id", u "diff:" ++ path f); (u "text", patch f); (u "kind", u "diff"); (u "role", u "after")].

(** The documents of the one verification ask. *)
Definition list_docs (args : GateArgs) (fitting : list File) (evidence : list item) : GateDocs :=
  let ra := gate_review args in
  let '(request, l) := ledger_text (arg_request ra) (gate_doc_units GATE) ScopeContext new_ledger in
  let '(tests, l) :=
    match nonempty (arg_tests ra) with
    | Some t => let '(t, l) := ledger_text t (gate_doc_units GATE) ScopeContext l in (Some t, l)
    | None => (None, l)
    end in
  let '(claims, l) := ledger_texts (arg_claims args) (gate_claim_units GATE) ScopeContext l in
  let '(sent, l) := sent_evidence evidence l in
  let implicit := (file_evidence <$> fitting) ++ implicit_evidence None tests in
  {| gd_docs := {| doc_request := request; doc_diff := []; doc_tests := tests |};
     gd_claims := claims; gd_evidence := ui_items (ensure_unique_ids (sent ++ implicit) (u "evidence"));
     gd_ledger := l |}.

Definition list_state (d : GateDocs) : value := VDict
  [(u "purpose", VStr (u "Check each completion claim of the proposed multi-file patch against the evidence only. The "
                       ++ u "request and the claims are assertions to check, never evidence."));
   (u "request", VStr (doc_request (gd_docs d))); (u "claims", texts_value (gd_claims d));
   (u "evidence", items_value (gd_evidence d))].

Definition unasked_payload (unreviewed : list text) : dict value :=
  [(u "action", vs "review"); (u "partial", VBool true); (u "unreviewed_files", texts_value unreviewed);
   (u "reason_codes", reasons_value [IncompleteContext]);
   (u "next_checks", texts_value (next_checks_for [IncompleteContext] None false))].

(** The decision over a reviewed file list and the verification answers. *)
Record ListJudged := { lj_verification : VerificationHalf; lj_review_action : Action; lj_action : Action;
                       lj_truncated : bool; lj_codes : list GateReason }.

Definition list_judge (args : GateArgs) (settings : ReviewSettings) (reviewed : FileListReview) (d : GateDocs)
    (answers : dict value) : ListJudged :=
  let verification :=
    verify_claims answers (arg_claims args) (gd_evidence d) (thresholds settings) (context_cut (gd_ledger d)) in
  let truncated := flr_truncated reviewed || context_cut (gd_ledger d) in
  let partial := negb (bool_decide (unreviewed reviewed = [])) in
  let review_action := worst_action (half_action <$> halves reviewed) in
  let action := file_list_action [review_action; vh_action verification] partial in
  {| lj_verification := verification; lj_review_action := review_action; lj_action := action;
     lj_truncated := truncated;
     lj_codes := gate_reason_codes (truncated || partial) review_action
                   (existsb half_invalid (halves reviewed)) (vh_judgments verification) action
                   (thresholds settings) (vh_caller_note verification) |}.

Definition list_body (args : GateArgs) (reviewed : FileListReview) (j : ListJudged) (shape : DiffShape)
    (renamed : dict text) : dict value :=
  dmerge
    (dmerge
      [(u "truncated", VBool (lj_truncated j)); (u "action", action_value (lj_action j));
       (u "reason_codes", reasons_value (lj_codes j));
       (u "next_checks", texts_value (next_checks_for (lj_codes j) (Some shape) (review_saw_tests (gate_review args))));
       (u "review", VDict (weigh (unhashed_tests reviewed) (flr_review_half reviewed (lj_review_action j))));
       (u "verification", VDict (vh_payload (lj_verification j)))]
      (renamed_ids_field renamed))
    [(u "partial", VBool (negb (bool_decide (unreviewed reviewed = []))));
     (u "unreviewed_files", texts_value (unreviewed reviewed))].

Definition handle_file_list (args : GateArgs) (rt : Runtime) (settings : ReviewSettings)
    (evidence raw_evidence : list item) : M ToolResult :=
  let! files := mlift (file_patches (arg_diff (gate_review args))) in
  match file_list_refusal files GATE with
  | Some refusal => mret (refused refusal)
  | None =>
    let! reviewed :=
      review_file_list files (gate_review args) rt settings FILE_REVIEW_PURPOSE (gate_doc_units GATE) in
    match halves reviewed with
    | [] =>
      mret {| payload := frame (u "jev_gate") None (unasked_payload (unreviewed reviewed)) (Some (rt_model rt));
              is_error := false; action := Some Review; item_actions := []; tr_truncated := ∅;
              error_code := None; extract := None |}
    | _ =>
      let d := list_docs args (fitting reviewed) evidence in
      let! evaluation := ask rt (list_state d) (claim_questions (length (arg_claims args)) (gd_evidence d) []) in
      let j := list_judge args settings reviewed d (answers evaluation) in
      let! shape := mlift (lift_int (diff_shape (arg_diff (gate_review args)))) in
      mret
        {| payload := frame (u "jev_gate") (Some (combined (evaluations reviewed ++ [evaluation])))
             (list_body args reviewed j shape (caller_renames raw_evidence (gd_evidence d))) None;
           is_error := false; action := Some (lj_action j); item_actions := [];
           tr_truncated := flr_scopes reviewed ∪ scopes (gd_ledger d); error_code := None; extract := None |}
    end
  end.

(** ** handle *)
Definition handle (args : GateArgs) (rt : Runtime) : M ToolResult :=
  let! settings := mlift (review_settings (gate_review args)) in
  let raw_evidence := evidence_items (arg_evidence args) in
  let evidence := ui_items (ensure_unique_ids raw_evidence (u "evidence")) in
  if exceeds (Z.of_nat (length evidence)) (gate_evidence_items GATE)
  then mret (refused (gate_evidence_items_error (gate_evidence_items GATE)))
  else if exceeds (sum_over (fun it => Utf16.length (text_of it)) evidence) (gate_aggregate_evidence_units GATE)
  then mret (refused (gate_evidence_aggregate_error (gate_aggregate_evidence_units GATE)))
  else
    match arg_diff (gate_review args) with
    | DiffFiles _ => handle_file_list args rt settings evidence raw_evidence
    | DiffText diff => ask_gate args rt settings diff evidence raw_evidence
    end.

(** ** Facts: documents *)
Lemma sent_evidence_scope items l :
  ScopeContext ∈ (sent_evidence items l).2 <->
  ScopeContext ∈ l \/ Exists (fun it => gate_doc_units GATE < Utf16.length (text_of it)) items.
Proof.
  revert l. induction items as [|it items IH]; intros l.
  - simpl. rewrite Exists_nil. naive_solver.
  - cbn [sent_evidence]. unfold sent_evidence_item.
    pose proof (ledger_text_scope (text_of it) (gate_doc_units GATE) ScopeContext l) as Hs.
    destruct (ledger_text (text_of it) (gate_doc_units GATE) ScopeContext l) as [t l1].
    specialize (IH l1). destruct (sent_evidence items l1) as [rest l2]. cbn [snd] in *.
    rewrite IH, Hs, Exists_cons.
    destruct (gate_doc_units GATE <? Utf16.length (text_of it)) eqn:E; bool_to_prop; set_solver by lia.
Qed.

(** Every document of the string ask fits its cap. *)
Definition documents_fit (args : GateArgs) (diff : text) (evidence : list item) : Prop :=
  nothing_cut (gate_review args) diff (gate_doc_units GATE) /\
  Forall (fun c => Utf16.length c <= gate_claim_units GATE) (arg_claims args) /\
  Forall (fun it => Utf16.length (text_of it) <= gate_doc_units GATE) evidence.

Lemma not_Exists_le {A} (f : A -> Z) (cap : Z) l :
  ~ Exists (fun a => cap < f a) l -> Forall (fun a => f a <= cap) l.
Proof.
  intros Hn. apply Forall_forall. intros a Ha. destruct (Z.le_gt_cases (f a) cap); [done|].
  exfalso. apply Hn, Exists_exists. exists a. split; [done|lia].
Qed.

Lemma gate_docs_cut args diff evidence :
  context_cut (gd_ledger (gate_docs args diff evidence)) = false -> documents_fit args diff evidence.
Proof.
  unfold gate_docs, documents_fit.
  pose proof (nothing_cut_spec (gate_review args) diff (gate_doc_units GATE)) as Hdocs.
  destruct (review_docs _ _ _ _ _) as [docs l1]. cbn [snd] in Hdocs.
  pose proof (ledger_texts_scope (arg_claims args) (gate_claim_units GATE) ScopeContext l1) as Hclaims.
  destruct (ledger_texts _ _ _ l1) as [claims l2]. cbn [snd] in Hclaims.
  pose proof (sent_evidence_scope evidence l2) as Hev.
  destruct (sent_evidence evidence l2) as [sent l3]. cbn [snd] in Hev.
  cbn [gd_ledger]. unfold context_cut in *. intros Hcut%bool_decide_eq_false_1.
  rewrite Hev, Hclaims in Hcut. split_and!.
  - apply Hdocs, bool_decide_eq_false_2. tauto.
  - apply (not_Exists_le Utf16.length). tauto.
  - apply (not_Exists_le (fun it => Utf16.length (text_of it))). tauto.
Qed.

(** ** Facts: claim rows *)
Lemma claim_answer_verdict raw a :
  wf_value raw -> validate_choice raw (dkeys CLAIM_CRITERIA) = Some a ->
  dget (choice a) CLAIM_VERDICTS = Some (claim_verdict (choice a)).
Proof.
  intros Hwf Hv. destruct raw as [| | | | | |d]; try done.
  apply validate_choice_inv in Hv as (raw & _ & _ & _ & [Hc _ _ _ _] & _); [|done].
  change (dkeys CLAIM_CRITERIA) with (dkeys CLAIM_VERDICTS) in Hc.
  apply dget_is_Some in Hc as [v Hv]. unfold claim_verdict. by rewrite Hv.
Qed.

(** A claim that stands: its answer is a validated [verified] with confidence at the threshold, over
    uncut documents, and it does not rest on a caller note. *)
Definition claim_stands (answers : dict value) (asked_evidence : list item) (th : PolicyThresholds) (index : nat) : Prop :=
  exists a c source,
    validate_choice (get (claim_key index) answers) (dkeys CLAIM_CRITERIA) = Some a /\
    claim_verdict (choice a) = Verified /\ confidence a = Some c /\
    fltb c (review_at th) = false /\ fgeb c (auto_accept th) = true /\
    source = (if Verify.several asked_evidence
              then validate_choice (get (source_key index) answers) (Verify.source_keys asked_evidence) else None) /\
    ~ cites_caller_note (choice <$> source) asked_evidence.

Lemma claim_row_auto answers asked th cut ic :
  row_action (claim_row answers asked th cut ic) = Auto ->
  cut = false /\ claim_stands answers asked th ic.1 /\
  judgment_stands th (row_judgment (claim_row answers asked th cut ic)).
Proof.
  destruct ic as [i claim]. unfold claim_row, claim_stands.
  destruct (validate_choice (get (claim_key i) answers) _) as [a|] eqn:Ev; [|done].
  cbn [row_action row_judgment fst]. rewrite Ev.
  intros (Ha & Hcut & Hn)%gate_claim_action_auto. apply claim_action_auto in Ha as (c & Hc & Hv & Hr & Hge).
  split; [done|]. split.
  - exists a, c. eexists. repeat (split; [eassumption || reflexivity|]). exact Hn.
  - eexists _, c. split; [reflexivity|]. by split_and!.
Qed.

Lemma support_cites source asked s :
  nonempty (Verify.support_of source) = Some s -> note_blocks_auto Auto (Some s) asked = true ->
  cites_caller_note (choice <$> source) asked.
Proof.
  unfold Verify.support_of. destruct source as [a|]; [|done]. case_bool_decide; [done|].
  intros Hs Hn%note_blocks_auto_spec. change (choice <$> Some a) with (Some (choice a)).
  assert (s = choice a) as ->; [|done]. unfold nonempty in Hs. destruct (choice a); by simplify_eq.
Qed.

(** The row reports the support the policy saw. *)
Lemma claim_row_support answers asked th cut i claim :
  exists o, get (u "supporting_evidence") (row (claim_row answers asked th cut (i, claim))) = str_or_none o /\
    (o = None \/ exists source, o = Verify.support_of source /\
       source = (if Verify.several asked
                 then validate_choice (get (source_key i) answers) (Verify.source_keys asked) else None)).
Proof.
  unfold claim_row. destruct (validate_choice (get (claim_key i) answers) _) as [a|]; cbn [row].
  - eexists (Verify.support_of _). split; [|right; eexists; split; [reflexivity|reflexivity]].
    destruct (Verify.support_of _); reflexivity.
  - exists None. split; [reflexivity|by left].
Qed.

Lemma row_note_blocked answers asked th cut ic :
  row_action (claim_row answers asked th cut ic) = Auto ->
  match nonempty (as_str (get (u "supporting_evidence") (row (claim_row answers asked th cut ic)))) with
  | Some s => note_blocks_auto Auto (Some s) asked
  | None => false
  end = false.
Proof.
  destruct ic as [i claim]. intros Ha.
  destruct (claim_row_auto _ _ _ _ _ Ha) as (_ & (a & c & source & _ & _ & _ & _ & _ & Hs & Hn) & _).
  destruct (claim_row_support answers asked th cut i claim) as (o & -> & Ho).
  assert (as_str (str_or_none o) = o) as -> by by destruct o.
  destruct (nonempty o) as [s|] eqn:En; [|done].
  destruct Ho as [->|(source' & -> & ->)]; [done|].
  apply not_true_iff_false. intros Hb. apply Hn. rewrite Hs. by eapply support_cites.
Qed.

Lemma verify_claims_auto answers claims asked th cut :
  vh_action (verify_claims answers claims asked th cut) = Auto ->
  (claims <> [] -> cut = false) /\
  Forall (claim_stands answers asked th) (seq 0 (length claims)) /\
  Forall (judgment_stands th) (vh_judgments (verify_claims answers claims asked th cut)) /\
  vh_caller_note (verify_claims answers claims asked th cut) = false.
Proof.
  unfold verify_claims. cbn [vh_action vh_judgments vh_caller_note].
  intros Hall%worst_action_auto. rewrite !Forall_fmap in Hall. split_and!.
  - intros Hne. destruct claims as [|claim claims]; [done|].
    apply Forall_cons in Hall as [Ha _]. by apply claim_row_auto in Ha as [? _].
  - rewrite <- enumerate_fst. apply Forall_fmap. eapply Forall_impl; [exact Hall|].
    intros ic Ha. by apply claim_row_auto in Ha as (_ & ? & _).
  - apply Forall_fmap, Forall_fmap. eapply Forall_impl; [exact Hall|].
    intros ic Ha. by apply claim_row_auto in Ha as (_ & _ & ?).
  - apply existsb_false. apply Forall_fmap, Forall_fmap. eapply Forall_impl; [exact Hall|].
    intros ic Ha. by apply row_note_blocked.
Qed.

(** ** Facts: the decision *)
Lemma gate_judge_auto args settings d answers :
  gj_action (gate_judge args settings d answers) = Auto ->
  context_cut (gd_ledger d) = false /\ review_stands answers settings /\
  Forall (claim_stands answers (gd_evidence d) (thresholds settings)) (seq 0 (length (arg_claims args))) /\
  gj_codes (gate_judge args settings d answers) = [Accepted].
Proof.
  unfold gate_judge. cbn [gj_action gj_codes]. intros Hact. pose proof Hact as Hall.
  apply worst_action_auto in Hall as [Hr [Hv _]%Forall_cons]%Forall_cons.
  pose proof (project_review_auto _ _ _ Hr) as (Hcut & Hinv & Hsafe & Hconf & Hcomp).
  apply verify_claims_auto in Hv as (_ & Hclaims & Hj & Hnote).
  split; [done|]. split; [by split_and!|]. split; [done|].
  rewrite Hact, Hr, Hinv, Hnote, Hcut. rewrite Hcut in Hj. by apply gate_reason_codes_accepted.
Qed.

Lemma gate_body_codes args d j shape renamed :
  NoDup (dkeys (gate_body args d j shape renamed)) /\
  dget (u "reason_codes") (gate_body args d j shape renamed) = Some (reasons_value (gj_codes j)).
Proof.
  unfold gate_body. split.
  - apply NoDup_dmerge. apply (bool_decide_unpack _). reflexivity.
  - rewrite dget_dmerge_notin; [reflexivity|]. by intros ?%renamed_ids_field_keys.
Qed.

Lemma within_budget args (evidence := ui_items (ensure_unique_ids (evidence_items (arg_evidence args)) (u "evidence"))) :
  exceeds (Z.of_nat (length evidence)) (gate_evidence_items GATE) = false ->
  exceeds (sum_over (fun it => Utf16.length (text_of it)) evidence) (gate_aggregate_evidence_units GATE) = false ->
  Z.of_nat (length (evidence_items (arg_evidence args))) <= 16 /\
  sum_over (fun it => Utf16.length (text_of it)) evidence <= 200000.
Proof.
  unfold exceeds. intros H1 H2. bool_to_prop. subst evidence. rewrite ensure_unique_ids_length in H1.
  change (gate_evidence_items GATE) with 16 in H1. change (gate_aggregate_evidence_units GATE) with 200000 in H2.
  split; done.
Qed.

(** The evidence as the gate judges it, before the implicit items. *)
Definition gate_evidence (args : GateArgs) : list item :=
  ui_items (ensure_unique_ids (evidence_items (arg_evidence args)) (u "evidence")).

(** C1 An auto from jev_gate on a string diff is sound: the evidence is within its budgets, exactly
    one request was made, no document of it was cut, the patch review stands, every claim is
    verified at or above [auto_accept] without resting on a caller note, and the reason codes are
    exactly [accepted]. *)
Theorem gate_string_auto_sound args rt log r log' diff :
  arg_diff (gate_review args) = DiffText diff ->
  handle args rt log = (Ok r, log') -> action r = Some Auto ->
  let d := gate_docs args diff (gate_evidence args) in
  exists settings ev,
    review_settings (gate_review args) = Ok settings /\
    Z.of_nat (length (evidence_items (arg_evidence args))) <= 16 /\
    sum_over (fun it => Utf16.length (text_of it)) (gate_evidence args) <= 200000 /\
    rt_ask rt (length log) {| rq_state := gate_state d; rq_questions := gate_questions args d |} = Ok ev /\
    log' = log ++ [{| rq_state := gate_state d; rq_questions := gate_questions args d |}] /\
    documents_fit args diff (gate_evidence args) /\
    review_stands (answers ev) settings /\
    Forall (claim_stands (answers ev) (gd_evidence d) (thresholds settings)) (seq 0 (length (arg_claims args))) /\
    get (u "reason_codes") (payload r) = reasons_value [Accepted].
Proof.
  intros Hd Hh Hauto d. unfold handle in Hh.
  apply mbind_Ok in Hh as (settings & log1 & [Hs ->]%mlift_Ok & Hh).
  fold (gate_evidence args) in Hh.
  destruct (exceeds (Z.of_nat _) _) eqn:E1; [by injection Hh as <- _|].
  destruct (exceeds (sum_over _ _) _) eqn:E2; [by injection Hh as <- _|].
  rewrite Hd in Hh. unfold ask_gate in Hh. fold d in Hh.
  apply mbind_Ok in Hh as (ev & log2 & [Hask ->]%ask_Ok & Hh).
  apply mbind_Ok in Hh as (shape & log3 & [_ ->]%mlift_Ok & Hret). injection Hret as <- <-.
  cbn [action] in Hauto. injection Hauto as Hact.
  destruct (gate_judge_auto _ _ _ _ Hact) as (Hcut & Hrev & Hclaims & Hcodes).
  destruct (within_budget args E1 E2) as [Hb1 Hb2].
  exists settings, ev. split_and!; try done; [by apply gate_docs_cut|].
  cbn [payload]. apply frame_get; [apply gate_body_codes|done|done|].
  rewrite (proj2 (gate_body_codes _ _ _ _ _)). by rewrite Hcodes.
Qed.

(** ** The file-list decision *)
Lemma list_judge_auto args settings fs fit evs d answers0 :
  arg_claims args <> [] -> length evs = length fit ->
  let reviewed := fold_files (gate_review args) settings (gate_doc_units GATE) fs fit evs in
  lj_action (list_judge args settings reviewed d answers0) = Auto ->
  unreviewed reviewed = [] /\ context_cut (gd_ledger d) = false /\
  Forall (fun h => half_action h = Auto) (halves reviewed) /\
  Forall (claim_stands answers0 (gd_evidence d) (thresholds settings)) (seq 0 (length (arg_claims args))) /\
  lj_codes (list_judge args settings reviewed d answers0) = [Accepted].
Proof.
  intros Hne Hlen reviewed Hact. pose proof Hact as Hall. unfold list_judge in Hall. cbn [lj_action] in Hall.
  apply file_list_action_auto in Hall as [Hp [Hr [Hv _]%Forall_cons]%Forall_cons].
  pose proof Hr as Hra. apply worst_action_auto in Hr. rewrite Forall_fmap in Hr.
  apply verify_claims_auto in Hv as (Hcut & Hclaims & Hj & Hnote). specialize (Hcut Hne).
  apply negb_false_iff, bool_decide_eq_true_1 in Hp as Hun.
  split; [done|]. split; [done|]. split; [exact Hr|]. split; [done|].
  unfold list_judge. cbn [lj_codes]. rewrite Hp, Hra, Hnote.
  assert (flr_truncated reviewed = false /\ existsb half_invalid (halves reviewed) = false) as [-> ->].
  { unfold reviewed, fold_files. cbn [flr_truncated halves fold_files].
    unfold reviewed, fold_files in Hr. cbn [halves] in Hr. rewrite Forall_fmap in Hr.
    split; [|rewrite existsb_fmap]; apply existsb_false; (eapply Forall_impl; [exact Hr|]);
      intros fe Ha; by apply project_review_auto in Ha as (? & ? & _). }
  rewrite Hcut in *. cbn [orb].
  unfold list_judge in Hact. cbn [lj_action] in Hact. rewrite Hp, Hra, Hcut in Hact. rewrite Hact.
  by apply gate_reason_codes_accepted.
Qed.

Lemma list_body_codes args reviewed j shape renamed :
  NoDup (dkeys (list_body args reviewed j shape renamed)) /\
  dget (u "reason_codes") (list_body args reviewed j shape renamed) = Some (reasons_value (lj_codes j)).
Proof.
  unfold list_body. split.
  - do 2 apply NoDup_dmerge. apply (bool_decide_unpack _). reflexivity.
  - rewrite dget_dmerge_notin; [|apply (bool_decide_unpack _); reflexivity].
    rewrite dget_dmerge_notin; [reflexivity|]. by intros ?%renamed_ids_field_keys.
Qed.

(** The one request that verifies the claims of a file list. *)
Definition list_request (args : GateArgs) (d : GateDocs) : Request :=
  {| rq_state := list_state d; rq_questions := claim_questions (length (arg_claims args)) (gd_evidence d) [] |}.

(** C2 An auto from jev_gate on a file list is sound: every file fits the document cap, the requests
    made are one review per file, in order, and then one for the claims; nothing of a file was cut
    and the reply to its own request is a review that stands; the reply to the claims request makes
    every claim stand; the codes are exactly [accepted]. *)
Theorem gate_files_auto_sound args rt log r log' files :
  arg_diff (gate_review args) = DiffFiles files -> arg_claims args <> [] ->
  handle args rt log = (Ok r, log') -> action r = Some Auto ->
  let d := list_docs args (file_of <$> files) (gate_evidence args) in
  let request := file_request (gate_review args) FILE_REVIEW_PURPOSE (gate_doc_units GATE) in
  exists settings ev,
    review_settings (gate_review args) = Ok settings /\ files <> [] /\
    log' = log ++ (request <$> (file_of <$> files)) ++ [list_request args d] /\
    (forall i f, (file_of <$> files) !! i = Some f ->
       nothing_cut (gate_review args) (patch f) (gate_doc_units GATE) /\
       exists e, rt_ask rt (length log + i)%nat (request f) = Ok e /\ review_stands (answers e) settings) /\
    rt_ask rt (length log + length files)%nat (list_request args d) = Ok ev /\
    context_cut (gd_ledger d) = false /\
    Forall (claim_stands (answers ev) (gd_evidence d) (thresholds settings)) (seq 0 (length (arg_claims args))) /\
    get (u "reason_codes") (payload r) = reasons_value [Accepted].
Proof.
  intros Hd Hne Hh Hauto. unfold handle in Hh.
  apply mbind_Ok in Hh as (settings & log1 & [Hs ->]%mlift_Ok & Hh).
  fold (gate_evidence args) in Hh.
  destruct (exceeds (Z.of_nat _) _); [by injection Hh as <- _|].
  destruct (exceeds (sum_over _ _) _); [by injection Hh as <- _|].
  rewrite Hd in Hh. unfold handle_file_list in Hh. rewrite Hd in Hh.
  apply mbind_Ok in Hh as (fs & log2 & [Hfs ->]%mlift_Ok & Hh). injection Hfs as <-.
  destruct (file_list_refusal _ GATE); [by injection Hh as <- _|].
  apply mbind_Ok in Hh as (rev_ & log3 & Hr & Hh).
  pose proof (list_judge_auto args settings (file_of <$> files)) as Hjudge.
  remember (gate_doc_units GATE) as cap eqn:Hcap.
  apply review_file_list_Ok in Hr as (evs & Hm & Hlen & ->).
  destruct (halves _) as [|h hs] eqn:Eh; [by injection Hh as <- _|].
  apply mbind_Ok in Hh as (ev & log4 & [Hask ->]%ask_Ok & Hh).
  apply mbind_Ok in Hh as (shape & log5 & [_ ->]%mlift_Ok & Hret). injection Hret as <- <-.
  cbn [action] in Hauto. injection Hauto as Hact.
  destruct (Hjudge _ _ _ _ Hne Hlen Hact) as (Hun & Hcut & Hall & Hclaims & Hcodes).
  cbn [unreviewed fold_files] in Hun. apply fits_false_exists in Hun as Hfit.
  apply filter_fits_all in Hfit. rewrite Hfit in *. cbn [fitting fold_files] in *.
  apply review_all in Hm as [-> Hreplies]. rewrite length_app, !length_fmap in Hask.
  exists settings, ev. split; [done|]. split; [intros ->; by destruct evs|].
  split; [by rewrite <- app_assoc|]. split; [|split_and!; try done].
  - intros i f Hf. cbn [halves fold_files] in Hall.
    destruct (halves_stand _ _ _ _ _ _ _ Hall (eq_sym Hlen) Hf) as (e & He & Hc & Hst).
    split; [done|]. exists e. split; [by apply Hreplies|done].
  - cbn [payload]. apply frame_get; [apply list_body_codes|done|done|].
    rewrite (proj2 (list_body_codes _ _ _ _ _)). by rewrite Hcodes.
Qed.

(** ** What the gate spends *)
Lemma mlift_log {A} (r : result exn A) log : (mlift r log).2 = log.
Proof. done. Qed.

Lemma file_list_spend args rt settings evidence raw_evidence log :
  exists extra, (handle_file_list args rt settings evidence raw_evidence log).2 = log ++ extra /\
    (length extra <= 65)%nat.
Proof.
  unfold handle_file_list, mbind at 1. destruct (mlift _ log) as [[files|e] log1] eqn:El;
    apply (f_equal snd) in El; cbn in El; subst log1; [|exists []; rewrite app_nil_r; split; [done|simpl; lia]].
  destruct (file_list_refusal files GATE) eqn:Er; [exists []; rewrite app_nil_r; split; [done|simpl; lia]|].
  apply file_list_refusal_None in Er as [_ Hmax]. change (gate_files_max GATE) with 64 in Hmax.
  unfold mbind at 1. unfold review_file_list, mbind at 1.
  destruct (mmap_review_log (gate_review args) rt FILE_REVIEW_PURPOSE (gate_doc_units GATE)
    (List.filter (fits (gate_doc_units GATE)) files) log) as (extra & Hlog & Hlen).
  assert (length extra <= length files)%nat as Hle.
  { etrans; [exact Hlen|]. apply filter_length_le. }
  destruct (mmap _ _ log) as [[evs|e] log1]; cbn [snd] in Hlog; subst log1; cbn [mret];
    [|exists extra; split; [done|lia]].
  destruct (halves _); [exists extra; split; [done|lia]|].
  unfold mbind at 1, ask at 1.
  destruct (rt_ask rt _ _); cbn [snd]; rewrite <- app_assoc; eexists; (split;
    [unfold mbind, mlift; try (destruct (lift_int _)); reflexivity|rewrite length_app; simpl; lia]).
Qed.

Lemma ask_gate_spend args rt settings diff evidence raw_evidence log :
  exists rq, (ask_gate args rt settings diff evidence raw_evidence log).2 = log ++ [rq].
Proof.
  unfold ask_gate, mbind at 1, ask. destruct (rt_ask rt _ _); eexists; cbn [snd]; [|reflexivity].
  unfold mbind, mlift. destruct (lift_int _); reflexivity.
Qed.

(** A call the gate refuses: broken thresholds, or a budget. *)
Definition gate_refuses (args : GateArgs) : Prop :=
  (exists e, review_settings (gate_review args) = Raise e) \/
  16 < Z.of_nat (length (evidence_items (arg_evidence args))) \/
  200000 < sum_over (fun it => Utf16.length (text_of it)) (gate_evidence args) \/
  (exists files refusal, arg_diff (gate_review args) = DiffFiles files /\
     file_list_refusal (file_of <$> files) GATE = Some refusal).

(** The gate spends a bounded number of provider requests: none at all on a call it refuses
    (broken thresholds, evidence or file list over a budget), one on a string diff, and never more
    than 65 on a file list. *)
Theorem gate_requests_bounded args rt log :
  exists extra, (handle args rt log).2 = log ++ extra /\ (length extra <= 65)%nat /\
    (gate_refuses args -> extra = []) /\
    (forall diff, arg_diff (gate_review args) = DiffText diff -> (length extra <= 1)%nat).
Proof.
  assert (exists extra, log = log ++ extra /\ (length extra <= 65)%nat /\
    (gate_refuses args -> extra = []) /\
    (forall diff, arg_diff (gate_review args) = DiffText diff -> (length extra <= 1)%nat)) as Hnone.
  { exists []. rewrite app_nil_r. split_and!; [done|simpl; lia|done|simpl; lia]. }
  unfold handle, mbind at 1, mlift at 1. fold (gate_evidence args).
  destruct (review_settings (gate_review args)) as [settings|e] eqn:Es; [|exact Hnone].
  destruct (exceeds (Z.of_nat _) _) eqn:E1; [exact Hnone|].
  destruct (exceeds (sum_over _ _) _) eqn:E2; [exact Hnone|].
  destruct (within_budget args E1 E2) as [Hb1 Hb2]. clear Hnone.
  destruct (arg_diff (gate_review args)) as [diff|files] eqn:Ed.
  - destruct (ask_gate_spend args rt settings diff (gate_evidence args)
      (evidence_items (arg_evidence args)) log) as [rq ->].
    exists [rq]. split_and!; [done|simpl; lia| |simpl; lia].
    intros [[e He]|[Hc|[Hc|(? & ? & ? & _)]]]; [congruence| | |congruence]; exfalso; [lia|].
    unfold gate_evidence in Hc. lia.
  - destruct (file_list_refusal (file_of <$> files) GATE) as [refusal|] eqn:Er.
    + unfold handle_file_list, mbind at 1. rewrite Ed. cbn [mlift file_patches]. rewrite Er.
      exists []. rewrite app_nil_r. split_and!; [done|simpl; lia|done|done].
    + destruct (file_list_spend args rt settings (gate_evidence args)
        (evidence_items (arg_evidence args)) log) as (extra & -> & Hlen).
      exists extra. split_and!; [done|done| |done].
      intros [[e He]|[Hc|[Hc|(fs & r & Hf & Hr)]]]; [congruence|exfalso; lia|exfalso|congruence].
      unfold gate_evidence in Hc. lia.
Qed.

(** ** Concrete calls *)
Definition sample_gate (diff : diff_arg) (evidence : evidence_arg) : GateArgs :=
  {| gate_review := Review.sample_args diff; arg_claims := [u "a is renamed to b"]; arg_evidence := evidence |}.

Definition sample_evidence : evidence_arg := EvItem [(u "id", u "log"); (u "text", u "renamed a to b")].

Definition claim_replies : dict value :=
  [(u "claim_0", choice_reply "verified" [("verified", 90); ("contradicted", 5); ("unsupported", 5)] 95)].

Definition string_answers : dict value :=
  review_replies ++ claim_replies
  ++ [(u "source_0", choice_reply "diff" [("log", 10); ("diff", 85); ("tests", 3); ("none", 2)] 90)].

Lemma gate_string_auto_sound_witness : exists r log',
  handle (sample_gate (DiffText sample_patch) sample_evidence) (sample_runtime string_answers) [] = (Ok r, log') /\
  get (u "reason_codes") (payload r) = reasons_value [Accepted].
Proof.
  destruct (auto_result_Ok (handle (sample_gate (DiffText sample_patch) sample_evidence)
    (sample_runtime string_answers) [])) as (r & log' & Hh & Ha); [vm_compute; reflexivity|].
  exists r, log'. split; [exact Hh|].
  destruct (gate_string_auto_sound (sample_gate (DiffText sample_patch) sample_evidence) _ _ _ _ sample_patch eq_refl Hh Ha)
    as (settings & ev & _ & _ & _ & _ & _ & _ & _ & _ & Hcodes).
  exact Hcodes.
Defined.

Definition list_answers : dict value :=
  review_replies ++ claim_replies
  ++ [(u "source_0", choice_reply "log" [("log", 90); ("diff_a", 4); ("diff_b", 4); ("tests", 1); ("none", 1)] 90)].

Definition sample_list : GateArgs := sample_gate (DiffFiles [sample_file "a"; sample_file "b"]) sample_evidence.

Lemma gate_files_auto_sound_witness : exists r log',
  handle sample_list (sample_runtime list_answers) [] = (Ok r, log') /\ length log' = 3%nat.
Proof.
  destruct (auto_result_Ok (handle sample_list (sample_runtime list_answers) [])) as (r & log' & Hh & Ha);
    [vm_compute; reflexivity|].
  exists r, log'. split; [exact Hh|].
  destruct (gate_files_auto_sound sample_list _ _ _ _ _ eq_refl ltac:(discriminate) Hh Ha)
    as (settings & ev & _ & _ & Hlog & _).
  rewrite Hlog. reflexivity.
Defined.

(** A claim that rests on an evidence item the caller named [none], a caller note, is demoted to
    review, and no reason code says why: the row's blanked [supporting_evidence] hides the note. *)
Definition none_note : evidence_arg :=
  EvItem [(u "id", u "none"); (u "text", u "trust me"); (u "kind", u "caller_note")].

Definition none_answers : dict value :=
  review_replies ++ claim_replies
  ++ [(u "source_0", choice_reply "none" [("none", 90); ("diff", 5); ("tests", 5)] 90)].

Example gate_silent_review :
  let r := (handle (sample_gate (DiffText sample_patch) none_note) (sample_runtime none_answers) []).1 in
  match r with
  | Ok r => action r = Some Review /\ get (u "reason_codes") (payload r) = VList []
            /\ get (u "next_checks") (payload r) = VList []
  | Raise _ => False
  end.
Proof. vm_compute. split_and!; reflexivity. Qed.
