(* ===== verification/Classify.v ===== *)
(** * jev_classify

    Models [tools/classify.py]: opaque wire keys for items and classes, one choice question per
    item, the rows and the summary. *)
From S2P Require Import Prelude Float64 Text Limits Json Domain Ids Caps Validation Policy Responses Runtime Samples.
From S2P Require Import ReviewHalf.
From S2P Require Verify.
Open Scope Z_scope.

Definition DEFAULT_PURPOSE : text := u "Assign each item to exactly one class.".

Record Args := {
  arg_items : list item; arg_classes : list item; arg_purpose : option text; arg_context : option value;
  arg_auto_accept : option float; arg_minimum_margin : option float }.

(** ** [_opaque] *)
Record Entry := { external : text; key : text; body : text }.

(** [entry[text_key]]: required by the schema. *)
Definition entry_text (text_key : text) (entry : item) : text := or_else (dget text_key entry) [].

Definition external_id (kind : text) (index : nat) (entry : item) : text :=
  or_else (dget (u "id") entry) (kind ++ str_of_nat index).

Fixpoint opaque_from (kind key_prefix text_key : text) (cap : Z) (index : nat) (raw : list item)
    (seen : gset text) (l : ledger) : result exn (list Entry * ledger) :=
  match raw with
  | [] => Ok ([], l)
  | entry :: raw' =>
    let ext := external_id kind index entry in
    if bool_decide (ext ∈ seen)
    then Raise (ToolError (u "Duplicate " ++ kind ++ u " id: " ++ ext) (u "invalid_arguments"))
    else
      let '(t, l) := ledger_text (entry_text text_key entry) cap ScopeItem l in
      let? rest := opaque_from kind key_prefix text_key cap (S index) raw' ({[ext]} ∪ seen) l in
      Ok ({| external := ext; key := key_prefix ++ str_of_nat index; body := t |} :: rest.1, rest.2)
  end.

Definition opaque (raw : list item) (kind key_prefix text_key : text) (cap : Z) (l : ledger)
    : result exn (list Entry * ledger) :=
  opaque_from kind key_prefix text_key cap 0 raw ∅ l.

(** ** The request *)
Definition class_keys (classes : list Entry) : list text := key <$> classes.

Definition criteria_of (classes : list Entry) : dict value :=
  fold_left (fun d k => dset k VNone d) (class_keys classes) [].

Definition item_question (classes : list Entry) (it : Entry) : Question :=
  QChoice
    {| cq_instructions := VDict
         [(u "task", vs "Which class does this item belong to?");
          (u "item", VDict [(u "id", VStr (key it)); (u "text", VStr (body it))])];
       cq_criteria := criteria_of classes |}.

Definition questions_of (items classes : list Entry) : dict Question :=
  fold_left (fun d it => dset (key it) (item_question classes it) d) items [].

Definition state_of (args : Args) (classes : list Entry) : value := VDict
  [(u "purpose", VStr (or_else (arg_purpose args) DEFAULT_PURPOSE));
   (u "context", vopt (arg_context args));
   (u "classes", VList ((fun c => VDict [(u "id", VStr (key c)); (u "description", VStr (body c))]) <$> classes))].

(** ** Rows *)
Definition key_to_external (classes : list Entry) : dict text :=
  fold_left (fun d c => dset (key c) (external c) d) classes [].

Definition external_of (classes : list Entry) (k : text) : text :=
  or_else (dget k (key_to_external classes)) k.

Definition external_probabilities (classes : list Entry) (ps : dict float) : dict value :=
  fold_left (fun d c => dset (external c) (VFloat (prob ps (key c))) d) classes [].

Definition invalid_row (it : Entry) : dict value :=
  [(u "id", VStr (external it)); (u "status", vs "invalid_response"); (u "classification", VNone);
   (u "probabilities", VNone); (u "confidence", VNone); (u "margin", VNone);
   (u "decision", action_value (closed_action FcClassify))].

Definition row_decision (a : ChoiceAnswer) (auto_accept minimum_margin : float) : Action :=
  classification_decision (top_probability a) (margin (Some (probabilities a))) auto_accept minimum_margin.

Definition valid_row (classes : list Entry) (it : Entry) (a : ChoiceAnswer) (auto_accept minimum_margin : float)
    : dict value :=
  [(u "id", VStr (external it)); (u "classification", VStr (external_of classes (choice a)));
   (u "probabilities", VDict (external_probabilities classes (probabilities a)));
   (u "confidence", opt_float (confidence a)); (u "margin", VFloat (margin (Some (probabilities a))));
   (u "top_probability", VFloat (top_probability a));
   (u "decision", action_value (row_decision a auto_accept minimum_margin))].

Definition item_row (answers : dict value) (classes : list Entry) (auto_accept minimum_margin : float) (it : Entry)
    : dict value :=
  match validate_choice (get (key it) answers) (class_keys classes) with
  | None => invalid_row it
  | Some a => valid_row classes it a auto_accept minimum_margin
  end.

(** Counts of the rows that carry a class. *)
Definition by_class (results : list (dict value)) : dict Z :=
  fold_left (fun counts r =>
    match get (u "classification") r with
    | VStr c => dset c (or_else (dget c counts) 0 + 1) counts
    | _ => counts
    end) results [].

Definition is_invalid (r : dict value) : bool := is_str (u "invalid_response") (get (u "status") r).

Definition summary (results : list (dict value)) : dict value :=
  [(u "items", vnum (length results));
   (u "auto", Verify.count_rows (u "decision") (u "auto") results);
   (u "review", VInt (count_if (fun r => is_str (u "review") (get (u "decision") r) && negb (is_invalid r)) results));
   (u "invalid_response", VInt (count_if is_invalid results));
   (u "by_class", counts_value (by_class results))].

(** ** handle *)
Definition accept_of (args : Args) : float := or_else (arg_auto_accept args) DEFAULT_CLASSIFY_AUTO_ACCEPT.
Definition margin_of (args : Args) : float := or_else (arg_minimum_margin args) DEFAULT_MINIMUM_MARGIN.

(** Everything before the ask: both lists with opaque keys, within the pair budget. *)
Definition prepare (args : Args) : result exn (list Entry * list Entry * ledger) :=
  let? il := opaque (arg_items args) (u "item") (u "i") (u "text") (cls_item_units CLASSIFY) new_ledger in
  let? cl := opaque (arg_classes args) (u "class") (u "c") (u "description")
               (cls_class_description_units CLASSIFY) il.2 in
  if exceeds (Z.of_nat (length il.1) * Z.of_nat (length cl.1)) (cls_item_class_pairs CLASSIFY)
  then Raise (ToolError (classify_budget_error (Z.of_nat (length il.1)) (Z.of_nat (length cl.1))
                           (cls_item_class_pairs CLASSIFY)) (u "input_too_large"))
  else Ok (il.1, cl.1, cl.2).

Definition rows_of (args : Args) (items classes : list Entry) (answers : dict value) : list (dict value) :=
  item_row answers classes (accept_of args) (margin_of args) <$> items.

Definition reply (args : Args) (items classes : list Entry) (l : ledger) (evaluation : Evaluation) : ToolResult :=
  let results := rows_of args items classes (answers evaluation) in
  let item_actions := caller_actions ((fun r => get (u "decision") r) <$> results) in
  {| payload := frame (u "jev_classify") (Some evaluation)
       [(u "summary", VDict (summary results));
        (u "thresholds", VDict [(u "auto_accept", VFloat (accept_of args));
                                (u "minimum_margin", VFloat (margin_of args))]);
        (u "results", VList (VDict <$> results))] None;
     is_error := false; action := headline item_actions; item_actions := item_actions;
     tr_truncated := scopes l; error_code := None; extract := None |}.

Definition handle (args : Args) (rt : Runtime) : M ToolResult :=
  let! icl := mlift (prepare args) in
  let '(items, classes, l) := icl in
  let! evaluation := ask rt (state_of args classes) (questions_of items classes) in
  mret (reply args items classes l evaluation).

(** ** Facts: opaque keys *)
Lemma opaque_from_spec kind key_prefix text_key cap index raw seen l out :
  opaque_from kind key_prefix text_key cap index raw seen l = Ok out ->
  out.1 = (fun ie => {| external := external_id kind (index + ie.1)%nat ie.2;
                        key := key_prefix ++ str_of_nat (index + ie.1)%nat;
                        body := Utf16.truncate (entry_text text_key ie.2) cap |}) <$> enumerate raw /\
  NoDup (external <$> out.1) /\ Forall (fun e => external e ∉ seen) out.1.
Proof.
  revert index seen l out. induction raw as [|entry raw IH]; intros index seen l out;
    cbn [opaque_from].
  - intros [= <-]. split; [done|]. split; constructor.
  - case_bool_decide as Hs; [done|]. cbn [ledger_text]. unfold ledger_text.
    intros (rest & Hrest & [= <-])%rbind_Ok. apply IH in Hrest as (Heq & Hnd & Hns). cbn [fst].
    split; [|split].
    + rewrite fmap_enumerate_cons. cbn [fst snd]. rewrite Nat.add_0_r. f_equal.
      rewrite Heq. apply list_fmap_ext. intros i [n e] _. cbn [fst snd]. by rewrite Nat.add_succ_r.
    + rewrite fmap_cons. apply NoDup_cons. split; [|done]. cbn [external].
      intros (e & He & Hin)%list_elem_of_fmap. eapply Forall_forall in Hns; [|exact Hin]. set_solver.
    + constructor; [done|]. eapply Forall_impl; [exact Hns|]. simpl. set_solver.
Qed.

Lemma opaque_spec raw kind key_prefix text_key cap l out :
  opaque raw kind key_prefix text_key cap l = Ok out ->
  out.1 = (fun ie => {| external := external_id kind ie.1 ie.2; key := key_prefix ++ str_of_nat ie.1;
                        body := Utf16.truncate (entry_text text_key ie.2) cap |}) <$> enumerate raw /\
  NoDup (external <$> out.1).
Proof. intros (Heq & Hnd & _)%opaque_from_spec. split; [exact Heq|exact Hnd]. Qed.

Lemma opaque_keys raw kind key_prefix text_key cap l out :
  opaque raw kind key_prefix text_key cap l = Ok out ->
  (key <$> out.1) = (fun i => key_prefix ++ str_of_nat i) <$> seq 0 (length raw) /\
  length out.1 = length raw.
Proof.
  intros [-> _]%opaque_spec. split; [|by rewrite length_fmap, enumerate_length].
  rewrite <- list_fmap_compose, <- (enumerate_fst raw), <- list_fmap_compose. done.
Qed.

Lemma opaque_keys_NoDup raw kind key_prefix text_key cap l out :
  opaque raw kind key_prefix text_key cap l = Ok out -> NoDup (key <$> out.1).
Proof.
  intros [-> _]%opaque_keys. apply NoDup_fmap_2; [|apply NoDup_seq].
  intros i j H%app_inv_head. by apply str_of_nat_inj.
Qed.

Lemma external_of_key classes c :
  NoDup (class_keys classes) -> c ∈ classes -> external_of classes (key c) = external c.
Proof.
  intros Hnd Hc. unfold external_of, key_to_external. by rewrite (fold_dset_get key external).
Qed.

(** ** Facts: rows *)
Inductive row_kind (answers : dict value) (classes : list Entry) (accept mm : float) (it : Entry) (r : dict value)
    : Action -> Prop :=
| row_invalid :
    validate_choice (get (key it) answers) (class_keys classes) = None -> r = invalid_row it ->
    row_kind answers classes accept mm it r Review
| row_valid a c :
    validate_choice (get (key it) answers) (class_keys classes) = Some a ->
    c ∈ classes -> choice a = key c -> r = valid_row classes it a accept mm ->
    row_kind answers classes accept mm it r (row_decision a accept mm).

Lemma item_row_kind answers classes accept mm it :
  wf_value (VDict answers) ->
  exists act, get (u "decision") (item_row answers classes accept mm it) = action_value act /\
    row_kind answers classes accept mm it (item_row answers classes accept mm it) act.
Proof.
  intros Hwf. unfold item_row. destruct (validate_choice _ _) as [a|] eqn:Ev.
  - eexists. split; [reflexivity|].
    pose proof (get_wf (key it) answers Hwf) as Hw. pose proof Ev as Ei.
    destruct (get (key it) answers) as [| | | | | |d] eqn:Eg; try done.
    apply validate_choice_inv in Ei as (raw & _ & _ & _ & [Hc _ _ _ _] & _); [|done].
    unfold class_keys in Hc. apply list_elem_of_fmap in Hc as (c & Hc & Hin).
    eapply row_valid; [rewrite Eg; exact Ev|exact Hin|exact Hc|reflexivity].
  - exists Review. split; [reflexivity|]. by apply row_invalid.
Qed.

(** ** Properties *)

(** The ids a list of entries goes by: the caller's, or a generated one. *)
Definition ids_of (kind : text) (raw : list item) : list text :=
  (fun ie => external_id kind ie.1 ie.2) <$> enumerate raw.

Lemma opaque_from_iff kind key_prefix text_key cap index raw seen l :
  (exists out, opaque_from kind key_prefix text_key cap index raw seen l = Ok out) <->
  NoDup ((fun ie => external_id kind (index + ie.1)%nat ie.2) <$> enumerate raw) /\
  Forall (fun i => i ∉ seen) ((fun ie => external_id kind (index + ie.1)%nat ie.2) <$> enumerate raw).
Proof.
  revert index seen l. induction raw as [|entry raw IH]; intros index seen l; cbn [opaque_from].
  - split; [intros _; split; constructor|]. eauto.
  - rewrite fmap_enumerate_cons. cbn [fst snd]. rewrite Nat.add_0_r.
    set (ext := external_id kind index entry).
    assert ((fun p : nat * item => external_id kind (index + S p.1)%nat p.2) <$> enumerate raw
      = (fun p => external_id kind (S index + p.1)%nat p.2) <$> enumerate raw) as ->.
    { apply list_fmap_ext. intros i [n e] _. simpl. by rewrite Nat.add_succ_r. }
    set (rest := (fun p => external_id kind (S index + p.1)%nat p.2) <$> enumerate raw) in *.
    rewrite NoDup_cons, Forall_cons. case_bool_decide as Hs.
    + split; [by intros [out ?]|]. by intros [_ [? _]].
    + cbn [ledger_text]. unfold ledger_text.
      set (l1 := if capped_truncated _ then _ else _).
      split.
      * intros (out & (r & Hr & _)%rbind_Ok).
        destruct (proj1 (IH (S index) ({[ext]} ∪ seen) l1) (ex_intro _ r Hr)) as [Hnd Hns].
        fold rest in Hnd, Hns. split_and!; [|done|done|].
        -- intros Hin. eapply Forall_forall in Hns; [|exact Hin]. set_solver.
        -- eapply Forall_impl; [exact Hns|]. set_solver.
      * intros [[Hni Hnd] [_ Hns]].
        destruct (proj2 (IH (S index) ({[ext]} ∪ seen) l1)) as [r Hr].
        { fold rest. split; [done|]. apply Forall_forall. intros x Hx.
          eapply Forall_forall in Hns; [|exact Hx]. set_solver. }
        eexists. rewrite Hr. reflexivity.
Qed.

(** jev_classify asks only about unambiguous batches: a call is prepared exactly when no item id
    and no class id repeats, generated ids included, and the item-class pairs are within 8,000;
    otherwise it fails with no request made.  A prepared call keeps every id verbatim and in order,
    under wire keys that cannot collide. *)
Theorem classify_prepared args rt log :
  ((exists out, prepare args = Ok out) <->
   NoDup (ids_of (u "item") (arg_items args)) /\ NoDup (ids_of (u "class") (arg_classes args)) /\
   Z.of_nat (length (arg_items args)) * Z.of_nat (length (arg_classes args)) <= 8000) /\
  (forall e, prepare args = Raise e -> handle args rt log = (Raise e, log)) /\
  (forall items classes l, prepare args = Ok (items, classes, l) ->
     external <$> items = ids_of (u "item") (arg_items args) /\
     external <$> classes = ids_of (u "class") (arg_classes args) /\
     NoDup (key <$> items) /\ NoDup (key <$> classes)).
Proof.
  split; [|split].
  - unfold prepare.
    pose proof (opaque_from_iff (u "item") (u "i") (u "text") (cls_item_units CLASSIFY) 0 (arg_items args) ∅ new_ledger) as Hi.
    assert (forall l, (exists out, opaque (arg_classes args) (u "class") (u "c") (u "description")
      (cls_class_description_units CLASSIFY) l = Ok out) <-> NoDup (ids_of (u "class") (arg_classes args))) as Hc.
    { intros l. unfold opaque. rewrite opaque_from_iff. fold (ids_of (u "class") (arg_classes args)).
      split; [by intros [? _]|]. intros Hnd. split; [done|]. apply Forall_forall. set_solver. }
    fold (ids_of (u "item") (arg_items args)) in Hi. fold (opaque (arg_items args) (u "item") (u "i") (u "text")
      (cls_item_units CLASSIFY) new_ledger) in Hi. split.
    + intros (out & (il & Hil & (cl & Hcl & Hout)%rbind_Ok)%rbind_Ok).
      destruct (exceeds _ _) eqn:Ex; [done|]. unfold exceeds in Ex. bool_to_prop.
      split; [by apply (proj1 Hi (ex_intro _ il Hil))|]. split; [by apply (proj1 (Hc il.2)); eauto|].
      apply opaque_keys in Hil as [_ Hl1], Hcl as [_ Hl2]. rewrite Hl1, Hl2 in Ex.
      change (cls_item_class_pairs CLASSIFY) with 8000 in Ex. lia.
    + intros (Hni & Hnc & Hle).
      destruct (proj2 Hi) as [il Hil]; [split; [done|]; apply Forall_forall; set_solver|].
      destruct (proj2 (Hc il.2) Hnc) as [cl Hcl].
      rewrite Hil. cbn [rbind]. rewrite Hcl. cbn [rbind].
      destruct (exceeds _ _) eqn:Ex; [|eauto]. exfalso. unfold exceeds in Ex. bool_to_prop.
      apply opaque_keys in Hil as [_ Hl1], Hcl as [_ Hl2]. rewrite Hl1, Hl2 in Ex.
      change (cls_item_class_pairs CLASSIFY) with 8000 in Ex. lia.
  - intros e He. unfold handle, mbind, mlift. by rewrite He.
  - intros items classes l. unfold prepare. intros (il & Hil & (cl & Hcl & Hout)%rbind_Ok)%rbind_Ok.
    destruct (exceeds _ _); [done|]. injection Hout as <- <- <-.
    split_and!; [| |by eapply opaque_keys_NoDup|by eapply opaque_keys_NoDup].
    + apply opaque_spec in Hil as [-> _]. by rewrite <- list_fmap_compose.
    + apply opaque_spec in Hcl as [-> _]. by rewrite <- list_fmap_compose.
Qed.

(** An item that stands: a validated class, its probability and margin at the thresholds. *)
Definition item_stands (answers : dict value) (classes : list Entry) (accept mm : float) (it : Entry) : Prop :=
  exists a c, validate_choice (get (key it) answers) (class_keys classes) = Some a /\
    c ∈ classes /\ choice a = key c /\
    fgeb (prob (probabilities a) (key c)) accept = true /\ fgeb (margin (Some (probabilities a))) mm = true.

Lemma classify_rows_actions args items classes answers :
  wf_value (VDict answers) ->
  exists acts,
    caller_actions ((fun r => get (u "decision") r) <$> rows_of args items classes answers) = acts /\
    Forall2 (fun it act => row_kind answers classes (accept_of args) (margin_of args) it
      (item_row answers classes (accept_of args) (margin_of args) it) act) items acts.
Proof.
  intros Hwf. unfold rows_of. induction items as [|it items (acts & Hacts & Hall)].
  - exists []. split; [reflexivity|constructor].
  - destruct (item_row_kind answers classes (accept_of args) (margin_of args) it Hwf) as (act & Hact & Hrow).
    exists (act :: acts). rewrite !fmap_cons, caller_actions_cons, Hact, action_of_action_value, Hacts.
    split; [done|]. by constructor.
Qed.

Lemma row_kind_auto answers classes accept mm it r :
  row_kind answers classes accept mm it r Auto -> item_stands answers classes accept mm it.
Proof.
  intros H. inversion H as [|a c Ha Hc Hk Hr Hact]. unfold row_decision, classification_decision in Hact.
  destruct (fgeb (top_probability a) accept) eqn:E1; [|done].
  destruct (fgeb (margin (Some (probabilities a))) mm) eqn:E2; [|done].
  exists a, c. split_and!; try done. unfold top_probability in E1. by rewrite <- Hk.
Qed.

(** An auto headline of jev_classify is sound: every item has a validated answer over exactly the
    class keys, whose top probability and margin reach the thresholds. *)
Theorem classify_auto_sound args rt log r log' :
  json_replies rt -> handle args rt log = (Ok r, log') -> action r = Some Auto ->
  exists items classes l ev,
    prepare args = Ok (items, classes, l) /\ items <> [] /\ length log' = S (length log) /\
    rt_ask rt (length log) {| rq_state := state_of args classes; rq_questions := questions_of items classes |} = Ok ev /\
    Forall (item_stands (answers ev) classes (accept_of args) (margin_of args)) items.
Proof.
  intros Hj Hh Hauto. unfold handle in Hh.
  apply mbind_Ok in Hh as (icl & log1 & Hp & Hh). unfold mlift in Hp. injection Hp as Hp ->.
  destruct icl as [[items classes] l].
  apply mbind_Ok in Hh as (ev & log2 & [Hask ->]%ask_Ok & Hret). injection Hret as <- <-.
  cbn [action reply] in Hauto.
  destruct (classify_rows_actions args items classes (answers ev) (Hj _ _ _ Hask)) as (acts & Hacts & Hall).
  rewrite Hacts in Hauto. apply headline_auto in Hauto as [Hne Hauto].
  exists items, classes, l, ev. split_and!; [done| |rewrite length_app; simpl; lia|done|].
  - intros ->. by inversion Hall; subst.
  - apply Forall_forall. intros it [i Hi]%list_elem_of_lookup.
    destruct (Forall2_lookup_l _ _ _ _ _ Hall Hi) as (act & Ha & Hrow).
    assert (act = Auto) as -> by (eapply (Forall_lookup_1 _ _ _ _ Hauto Ha)). by eapply row_kind_auto.
Qed.

Lemma by_class_sum results :
  sum_Z (dvalues (by_class results))
  = count_if (fun r => match get (u "classification") r with VStr _ => true | _ => false end) results.
Proof.
  unfold by_class.
  assert (forall acc, sum_Z (dvalues (fold_left (fun counts r =>
    match get (u "classification") r with
    | VStr c => dset c (or_else (dget c counts) 0 + 1) counts
    | _ => counts
    end) results acc)) = sum_Z (dvalues acc)
      + count_if (fun r => match get (u "classification") r with VStr _ => true | _ => false end) results) as Hg.
  { induction results as [|r results IH]; intros acc; [unfold count_if; simpl; lia|].
    simpl fold_left. rewrite IH, count_if_cons.
    destruct (get (u "classification") r); rewrite ?sum_dset_incr; lia. }
  by rewrite Hg.
Qed.

Definition one (b : bool) : Z := if b then 1 else 0.

Lemma item_row_counts answers classes accept mm it :
  let r := item_row answers classes accept mm it in
  one (is_str (u "auto") (get (u "decision") r))
  + one (is_str (u "review") (get (u "decision") r) && negb (is_invalid r)) + one (is_invalid r) = 1 /\
  one (match get (u "classification") r with VStr _ => true | _ => false end) + one (is_invalid r) = 1.
Proof.
  unfold item_row. destruct (validate_choice _ _) as [a|]; [|done].
  assert (row_decision a accept mm = Auto \/ row_decision a accept mm = Review) as Hd.
  { unfold row_decision, classification_decision. destruct (_ && _); auto. }
  unfold valid_row. by destruct Hd as [-> | ->].
Qed.

(** The summary of jev_classify partitions the items: auto, review and invalid rows add up to the
    items, and the per-class counts add up to the valid ones. *)
Theorem classify_summary_counts args items classes answers :
  let results := rows_of args items classes answers in
  count_if (fun r => is_str (u "auto") (get (u "decision") r)) results
  + count_if (fun r => is_str (u "review") (get (u "decision") r) && negb (is_invalid r)) results
  + count_if is_invalid results = Z.of_nat (length items) /\
  sum_Z (dvalues (by_class results)) + count_if is_invalid results = Z.of_nat (length items).
Proof.
  intros results. rewrite by_class_sum. unfold results, rows_of.
  induction items as [|it items [IH1 IH2]]; [done|]. rewrite fmap_cons, !count_if_cons.
  destruct (item_row_counts answers classes (accept_of args) (margin_of args) it) as [H1 H2].
  unfold one in H1, H2. simpl length. lia.
Qed.

(** ** Concrete call *)
Definition sample_args : Args :=
  {| arg_items := [[(u "text", u "app crashes")]; [(u "id", u "b"); (u "text", u "please add dark mode")]];
     arg_classes := [[(u "id", u "bug"); (u "description", u "a defect")];
                     [(u "id", u "feature"); (u "description", u "a wish")]];
     arg_purpose := None; arg_context := None; arg_auto_accept := None; arg_minimum_margin := None |}.

Definition sample_answers : dict value :=
  [(u "i0", choice_reply "c0" [("c0", 95); ("c1", 5)] 90); (u "i1", choice_reply "c1" [("c0", 10); ("c1", 90)] 90)].

Lemma classify_auto_sound_witness : exists r log',
  handle sample_args (sample_runtime sample_answers) [] = (Ok r, log') /\ length log' = 1%nat.
Proof.
  destruct (auto_result_Ok (handle sample_args (sample_runtime sample_answers) [])) as (r & log' & Hh & Ha);
    [vm_compute; reflexivity|].
  exists r, log'. split; [exact Hh|].
  destruct (classify_auto_sound sample_args _ _ _ _ (sample_runtime_json sample_answers eq_refl) Hh Ha)
    as (items & classes & l & ev & _ & _ & Hlen & _).
  exact Hlen.
Defined.
