(* ===== verification/Compare.v ===== *)
(** * jev_compare

    Models [tools/compare.py]: the overall relation, one independent judgment per aspect, and the
    warning when an aspect contradicts under another overall relation. *)
From S2P Require Import Prelude Float64 Text Limits Json Domain Ids Caps Validation Policy Responses Runtime Samples.
From S2P Require Import ReviewHalf.
Open Scope Z_scope.

Definition COMPARE_RELATIONS : dict value :=
  [(u "same_fact", vs "Both passages state the same underlying fact or claim");
   (u "contradicts", vs "The passages state opposing facts about the same subject");
   (u "different_facts", vs "The passages discuss different subjects or make non-overlapping claims")].

Definition ASPECT_RELATIONS : dict value :=
  [(u "same_fact", vs "Both passages make comparable assertions about this aspect and they agree");
   (u "contradicts", vs "Both passages address this aspect and their assertions conflict");
   (u "different_facts", VStr (u "The passages do not both make a comparable assertion about this aspect: at least one does "
                               ++ u "not address it, or their mentions do not overlap"))].

Record Args := {
  arg_passage_a : text; arg_passage_b : text; arg_aspects : option (list text); arg_purpose : option text;
  arg_auto_accept : option float; arg_minimum_margin : option float }.

Definition aspects_of (args : Args) : list text := or_else (arg_aspects args) [].
Definition accept_of (args : Args) : float := or_else (arg_auto_accept args) DEFAULT_CLASSIFY_AUTO_ACCEPT.
Definition margin_of (args : Args) : float := or_else (arg_minimum_margin args) DEFAULT_MINIMUM_MARGIN.

Definition aspect_key (i : nat) : text := u "aspect_" ++ str_of_nat i.

Definition aspect_question (aspect : text) : Question :=
  choice_question (u "Judging only the aspect " ++ dq ++ aspect ++ dq
                   ++ u " of the two passages in the state, which relation holds?") ASPECT_RELATIONS.

Definition questions_of (aspects : list text) : dict Question :=
  fold_left (fun d ia => dset (aspect_key ia.1) (aspect_question ia.2) d) (enumerate aspects)
    [(u "overall", choice_question
       (u "Do the two passages state the same underlying fact, contradict each other, or discuss different facts?")
       COMPARE_RELATIONS)].

Definition passages (args : Args) : text * text * ledger :=
  let '(a, l) := ledger_text (arg_passage_a args) (cmp_passage_max COMPARE) ScopeContext new_ledger in
  let '(b, l) := ledger_text (arg_passage_b args) (cmp_passage_max COMPARE) ScopeContext l in
  (a, b, l).

Definition state_of (args : Args) : value :=
  let '(a, b, _) := passages args in
  VDict [(u "purpose", opt_text (arg_purpose args)); (u "passage_a", VStr a); (u "passage_b", VStr b);
         (u "aspects", texts_value (aspects_of args))].

(** ** judge *)
Definition judge (accept mm : float) (raw : value) : dict value :=
  match validate_choice raw (dkeys COMPARE_RELATIONS) with
  | None =>
    [(u "relation", VNone); (u "probabilities", VNone); (u "confidence", VNone); (u "margin", VNone);
     (u "decision", action_value (closed_action FcCompare)); (u "status", vs "invalid_response")]
  | Some a =>
    let gap := margin (Some (probabilities a)) in
    [(u "relation", VStr (choice a)); (u "probabilities", probs_value (probabilities a));
     (u "confidence", opt_float (confidence a)); (u "margin", VFloat gap);
     (u "decision", action_value (classification_decision (top_probability a) gap accept mm))]
  end.

Definition contradicts (row : dict value) : bool := is_str (u "contradicts") (get (u "relation") row).

Definition judged_aspects (args : Args) (answers : dict value) : list (text * dict value) :=
  (fun ia => (ia.2, judge (accept_of args) (margin_of args) (get (aspect_key ia.1) answers)))
    <$> enumerate (aspects_of args).

(** The names of the aspects that contradict. *)
Definition contradicted (judged : list (text * dict value)) : list text :=
  fst <$> List.filter (fun ar => contradicts ar.2) judged.

Definition warning_text (names : list text) : text :=
  let many := (1 <? length names)%nat in
  u "Aspect" ++ (if many then u "s" else []) ++ u " " ++ join (u ", ") ((fun n => dq ++ n ++ dq) <$> names)
  ++ u " " ++ (if many then u "report" else u "reports")
  ++ u " contradicts while the overall relation does not; inspect before acting".

Definition warnings_of (overall : dict value) (names : list text) : list text :=
  match names with
  | [] => []
  | _ => if contradicts overall then [] else [warning_text names]
  end.

(** ** handle *)
Definition reply (args : Args) (evaluation : Evaluation) : ToolResult :=
  let overall := judge (accept_of args) (margin_of args) (get (u "overall") (answers evaluation)) in
  let judged := judged_aspects args (answers evaluation) in
  let warnings := warnings_of overall (contradicted judged) in
  let body :=
    [(u "overall", VDict overall);
     (u "aspects", VList ((fun ar => VDict (dmerge [(u "aspect", VStr ar.1)] ar.2)) <$> judged));
     (u "thresholds", VDict [(u "auto_accept", VFloat (accept_of args));
                             (u "minimum_margin", VFloat (margin_of args))])] in
  let body := match warnings with [] => body | _ => dset (u "warnings") (texts_value warnings) body end in
  {| payload := frame (u "jev_compare") (Some evaluation) body None;
     is_error := false; action := headline (caller_actions [get (u "decision") overall]); item_actions := [];
     tr_truncated := scopes (passages args).2; error_code := None; extract := None |}.

Definition handle (args : Args) (rt : Runtime) : M ToolResult :=
  let! evaluation := ask rt (state_of args) (questions_of (aspects_of args)) in
  mret (reply args evaluation).

(** ** Properties *)
Lemma judge_decision accept mm raw :
  get (u "decision") (judge accept mm raw) = action_value
    match validate_choice raw (dkeys COMPARE_RELATIONS) with
    | None => Review
    | Some a => classification_decision (top_probability a) (margin (Some (probabilities a))) accept mm
    end.
Proof. unfold judge. by destruct (validate_choice _ _). Qed.

(** The headline of jev_compare is the overall judgment's: auto exactly when the overall answer
    validates and its top probability and margin reach the thresholds, review otherwise; the aspects
    never make it auto. *)
Theorem compare_headline args ev :
  action (reply args ev) = Some Auto <->
  exists a, validate_choice (get (u "overall") (answers ev)) (dkeys COMPARE_RELATIONS) = Some a /\
    fgeb (top_probability a) (accept_of args) = true /\
    fgeb (margin (Some (probabilities a))) (margin_of args) = true.
Proof.
  cbn [action reply]. rewrite judge_decision, caller_actions_cons, action_of_action_value.
  change (caller_actions []) with (@nil Action). cbn [headline].
  destruct (validate_choice _ _) as [a|]; [|by split; [|intros (? & ? & _)]].
  unfold classification_decision. split.
  - destruct (fgeb (top_probability a) (accept_of args)) eqn:E1, (fgeb (margin _) (margin_of args)) eqn:E2; try done.
    intros _. by exists a.
  - intros (? & [= <-] & -> & ->). done.
Qed.

(** jev_compare warns exactly when some aspect contradicts while the overall relation does not,
    and then it names every such aspect, in order. *)
Theorem compare_warns args ev :
  get (u "warnings") (payload (reply args ev)) =
  let names := contradicted (judged_aspects args (answers ev)) in
  let overall := judge (accept_of args) (margin_of args) (get (u "overall") (answers ev)) in
  if negb (bool_decide (names = [])) && negb (contradicts overall)
  then VList [VStr (warning_text names)] else VNone.
Proof.
  cbn [payload reply]. set (names := contradicted _). set (overall := judge _ _ _). cbv zeta.
  set (body := [_; _; _]).
  assert (dget (u "warnings") body = None) as Hb by done.
  assert (NoDup (dkeys body)) as Hnd by (apply (bool_decide_unpack _); reflexivity).
  assert (get (u "warnings") (frame (u "jev_compare") (Some ev) body None) = VNone) as Hno.
  { unfold frame, get. destruct (request_id ev) as [[|c rid]|]; rewrite ?(dget_dset_ne (u "warnings")) by done;
      by rewrite dget_dmerge_notin by by apply dget_None. }
  unfold warnings_of. destruct names as [|n ns] eqn:En; [exact Hno|].
  rewrite bool_decide_eq_false_2 by done. cbn [negb andb].
  destruct (contradicts overall); [exact Hno|]. cbn [negb].
  apply frame_get; [by apply NoDup_dset|done|done|]. by rewrite dget_dset_eq.
Qed.
