(* ===== verification/Decide.v ===== *)
(** * jev_decide

    Models [tools/decide.py]: the refusal of ambiguous candidate ids, the opaque option keys and the
    escape hatches, one relation check per candidate and requirement, the recommendation and the
    warning when the recommended candidate contradicts a requirement. *)
From S2P Require Import Prelude Float64 Text Limits Json Domain Ids Caps Validation Policy Responses Runtime Samples.
From S2P Require Import ReviewHalf.
Open Scope Z_scope.

Definition ESCAPE_HATCHES : dict value :=
  [(u "ask_user", vs "A consequential user preference or requirement is missing; ask instead of inventing it");
   (u "investigate", vs "Gather missing technical or factual evidence before selecting a candidate");
   (u "none", vs "None of the supplied candidates fits the known requirements")].

Definition RELATION_CRITERIA : dict value :=
  [(u "supported", vs "The evidence and mechanism support this specific requirement");
   (u "contradicted", vs "The evidence or mechanism contradicts this specific requirement, not merely another requirement");
   (u "unknown", vs "Relevant evidence is missing; neither satisfaction nor violation is established")].

Definition INVALID : text := u "invalid_response".

(** The schema requires [id] and [description] of every candidate. *)
Record Candidate := { cand_id : text; cand_description : text }.

Record Args := {
  arg_decision : text; arg_evidence : text; arg_priorities : text; arg_candidates : list Candidate;
  arg_requirements : option (list text); arg_escape_hatches : option bool }.

Definition hatches_of (args : Args) : bool := or_else (arg_escape_hatches args) true.
Definition requirements_of (args : Args) : list text := or_else (arg_requirements args) [].

(** ** The refusals *)
Fixpoint check_ids (hatches : bool) (seen : gset text) (candidates : list Candidate) : result exn unit :=
  match candidates with
  | [] => Ok tt
  | c :: candidates' =>
    if bool_decide (cand_id c ∈ seen)
    then Raise (ToolError (u "Duplicate candidate id: " ++ cand_id c) (u "invalid_arguments"))
    else if hatches && dhas (cand_id c) ESCAPE_HATCHES
    then Raise (ToolError (u "Candidate id " ++ dq ++ cand_id c ++ dq
                           ++ u " collides with an escape hatch; rename it or set escape_hatches: false.")
                          (u "invalid_arguments"))
    else check_ids hatches ({[cand_id c]} ∪ seen) candidates'
  end.

(** ** The request *)
Definition option_key (i : nat) : text := u "option_" ++ str_of_nat i.
Definition check_key (i j : nat) : text := u "check_" ++ str_of_nat i ++ u "_" ++ str_of_nat j.

Definition key_to_id (candidates : list Candidate) : dict text :=
  fold_left (fun d ic => dset (option_key ic.1) (cand_id ic.2) d) (enumerate candidates) [].

Definition criteria_of (hatches : bool) (candidates : list Candidate) : dict value :=
  let criteria :=
    fold_left (fun d ic => dset (option_key ic.1) (VStr (cand_description ic.2)) d) (enumerate candidates) [] in
  if hatches then dmerge criteria ESCAPE_HATCHES else criteria.

Definition check_question (i j : nat) : Question :=
  choice_question (u "How does the mechanism in candidates[" ++ str_of_nat i ++ u "] relate to requirements["
                   ++ str_of_nat j ++ u "], using the evidence? Judge "
                   ++ u "only this property, not the candidate overall desirability. Missing evidence is not contradiction.")
    RELATION_CRITERIA.

Definition recommendation_question (hatches : bool) (criteria : dict value) : Question :=
  choice_question (u "Which candidate best fits the decision, evidence, and priorities? "
                   ++ (if hatches then u "Select a candidate or an escape hatch. " else [])
                   ++ u "Do not invent missing facts, preferences, or approvals.") criteria.

(** [(i, j)] for every candidate and requirement, in the order of the loops. *)
Definition pairs (n m : nat) : list (nat * nat) := i ← seq 0 n; (fun j => (i, j)) <$> seq 0 m.

Definition questions_of (args : Args) : dict Question :=
  fold_left (fun d ij => dset (check_key ij.1 ij.2) (check_question ij.1 ij.2) d)
    (pairs (length (arg_candidates args)) (length (requirements_of args)))
    [(u "recommendation",
      recommendation_question (hatches_of args) (criteria_of (hatches_of args) (arg_candidates args)))].

Definition state_of (args : Args) : value := VDict
  [(u "decision", VStr (arg_decision args)); (u "evidence", VStr (arg_evidence args));
   (u "priorities", VStr (arg_priorities args));
   (u "candidates", VList ((fun kc => VDict [(u "id", VStr kc.1); (u "description", VStr (cand_description kc.2))])
                             <$> combine (dkeys (key_to_id (arg_candidates args))) (arg_candidates args)));
   (u "requirements", texts_value (requirements_of args))].

(** ** The reply *)
Definition rec_of (args : Args) (answers : dict value) : option ChoiceAnswer :=
  validate_choice (get (u "recommendation") answers)
    (dkeys (criteria_of (hatches_of args) (arg_candidates args))).

Definition check_answer (answers : dict value) (i j : nat) : text :=
  match validate_choice (get (check_key i j) answers) (dkeys RELATION_CRITERIA) with
  | Some a => choice a
  | None => INVALID
  end.

Definition checks_of (args : Args) (answers : dict value) : list RequirementCheck :=
  ic ← enumerate (arg_candidates args);
  (fun j => {| candidate := cand_id ic.2; requirement := j; answer := check_answer answers ic.1 j |})
    <$> seq 0 (length (requirements_of args)).

Definition contradicted_of (args : Args) (answers : dict value) : list nat :=
  match rec_of args answers with
  | Some rec =>
    match dget (choice rec) (key_to_id (arg_candidates args)) with
    | Some id =>
      contradicts_recommendation
        (List.filter (fun c => negb (bool_decide (answer c = INVALID))) (checks_of args answers)) id
    | None => []
    end
  | None => []
  end.

Definition recommendation_of (args : Args) (answers : dict value) : dict value :=
  let ids := key_to_id (arg_candidates args) in
  match rec_of args answers with
  | None =>
    [(u "selected", VNone); (u "escaped", VNone); (u "confidence", VNone); (u "probabilities", VNone);
     (u "status", VStr INVALID)]
  | Some rec =>
    [(u "selected", VStr (or_else (dget (choice rec) ids) (choice rec)));
     (u "escaped", VBool (negb (dhas (choice rec) ids)));
     (u "confidence", opt_float (confidence rec));
     (u "probabilities", VDict (fold_left (fun d kp => dset (or_else (dget kp.1 ids) kp.1) (VFloat kp.2) d)
                                  (probabilities rec) []))]
  end.

Definition warning_text (contradicted : list nat) : text :=
  u "Requirement" ++ (if (1 <? length contradicted)%nat then u "s" else []) ++ u " "
  ++ join (u ", ") ((fun index => str_of_nat (S index)) <$> contradicted)
  ++ u " contradicted by the recommended candidate; inspect before acting".

Definition warnings_of (contradicted : list nat) : list text :=
  match contradicted with [] => [] | _ => [warning_text contradicted] end.

Definition check_value (c : RequirementCheck) : value := VDict
  [(u "candidate", VStr (candidate c)); (u "requirement", vnum (requirement c)); (u "answer", VStr (answer c))].

Definition reply (args : Args) (evaluation : Evaluation) : ToolResult :=
  let ans := answers evaluation in
  tool_result (frame (u "jev_decide") (Some evaluation)
    [(u "recommendation", VDict (recommendation_of args ans));
     (u "requirements_checked", vnum (length (requirements_of args)));
     (u "checks", VList (check_value <$> checks_of args ans));
     (u "warnings", texts_value (warnings_of (contradicted_of args ans)))] None).

Definition handle (args : Args) (rt : Runtime) : M ToolResult :=
  let! _ := mlift (check_ids (hatches_of args) ∅ (arg_candidates args)) in
  let! evaluation := ask rt (state_of args) (questions_of args) in
  mret (reply args evaluation).

(** ** Facts *)
Lemma check_ids_Ok hatches seen cs :
  check_ids hatches seen cs = Ok tt <->
  NoDup (cand_id <$> cs) /\ Forall (fun i => i ∉ seen) (cand_id <$> cs) /\
  (hatches = true -> Forall (fun i => i ∉ dkeys ESCAPE_HATCHES) (cand_id <$> cs)).
Proof.
  revert seen. induction cs as [|c cs IH]; intros seen; cbn [check_ids].
  - split; [|done]. intros _. split_and!; [constructor|constructor|intros _; constructor].
  - rewrite fmap_cons, NoDup_cons, !Forall_cons. case_bool_decide as Hs; [split; [done|intros (_ & [? _] & _); done]|].
    assert (dhas (cand_id c) ESCAPE_HATCHES = false <-> cand_id c ∉ dkeys ESCAPE_HATCHES) as Hh.
    { rewrite <- dhas_spec. by destruct (dhas _ _). }
    destruct hatches; cbn [andb].
    + destruct (dhas _ _) eqn:Ed.
      * split; [done|]. intros (_ & _ & H). destruct (H eq_refl) as [Hc _]. apply Hh in Hc. congruence.
      * rewrite IH. rewrite Forall_forall, !Forall_forall. set_solver.
    + rewrite IH. rewrite !Forall_forall. set_solver.
Qed.

#[export] Instance option_key_inj : Inj (=) (=) option_key.
Proof. intros i j H%app_inv_head. by apply str_of_nat_inj. Qed.

Lemma option_keys_NoDup (cs : list Candidate) : NoDup ((fun ic => option_key ic.1) <$> enumerate cs).
Proof.
  change (NoDup (option_key ∘ fst <$> enumerate cs)). rewrite list_fmap_compose, enumerate_fst.
  apply NoDup_fmap_2; [apply _|apply NoDup_seq].
Qed.

Lemma option_key_no_hatch i : option_key i ∉ dkeys ESCAPE_HATCHES.
Proof. unfold option_key. cbn. rewrite !not_elem_of_cons. split_and!; [done..|apply not_elem_of_nil]. Qed.

Lemma key_to_id_items cs :
  key_to_id cs = (fun ic => (option_key ic.1, cand_id ic.2)) <$> enumerate cs.
Proof. unfold key_to_id. rewrite fold_dset_app; [done|]. apply option_keys_NoDup. Qed.

Lemma key_to_id_get cs i c : cs !! i = Some c -> dget (option_key i) (key_to_id cs) = Some (cand_id c).
Proof.
  intros Hc. apply elem_dget.
  - rewrite key_to_id_items. unfold dkeys. rewrite <- list_fmap_compose. apply option_keys_NoDup.
  - rewrite key_to_id_items. apply list_elem_of_fmap. exists (i, c). split; [done|].
    apply list_elem_of_lookup. exists i. by apply enumerate_lookup.
Qed.

Lemma key_to_id_other cs k : (forall i, (i < length cs)%nat -> k <> option_key i) -> dget k (key_to_id cs) = None.
Proof.
  intros Hk. apply dget_None. rewrite key_to_id_items. unfold dkeys. rewrite <- list_fmap_compose.
  intros ([i c] & -> & Hin)%list_elem_of_fmap. apply (Hk i); [|done].
  apply (list_elem_of_fmap_2 fst) in Hin. rewrite enumerate_fst in Hin. by apply elem_of_seq in Hin as [_ ?].
Qed.

Lemma criteria_keys hatches cs :
  dkeys (criteria_of hatches cs) =
  ((fun ic => option_key ic.1) <$> enumerate cs) ++ (if hatches then dkeys ESCAPE_HATCHES else []).
Proof.
  unfold criteria_of. rewrite fold_dset_app by apply option_keys_NoDup.
  set (items := [] ++ _). assert (dkeys items = (fun ic => option_key ic.1) <$> enumerate cs) as Hi.
  { unfold items, dkeys. simpl. by rewrite <- list_fmap_compose. }
  destruct hatches; [|by rewrite Hi, app_nil_r].
  rewrite dmerge_app; [by unfold dkeys in *; rewrite fmap_app, Hi|].
  rewrite Hi. apply NoDup_app. split_and!.
  - apply option_keys_NoDup.
  - intros k (ic & -> & _)%list_elem_of_fmap. apply option_key_no_hatch.
  - apply (bool_decide_unpack _). reflexivity.
Qed.

(** The names a recommendation can carry: the candidates' ids and the hatches on offer. *)
Definition offered (args : Args) : list text :=
  (cand_id <$> arg_candidates args) ++ (if hatches_of args then dkeys ESCAPE_HATCHES else []).

Definition name_of (cs : list Candidate) (k : text) : text := or_else (dget k (key_to_id cs)) k.

Lemma name_hatch cs k : k ∈ dkeys ESCAPE_HATCHES -> dget k (key_to_id cs) = None.
Proof. intros Hk. apply key_to_id_other. intros i _ ->. by apply option_key_no_hatch in Hk. Qed.

Lemma criteria_names args :
  name_of (arg_candidates args) <$> dkeys (criteria_of (hatches_of args) (arg_candidates args)) = offered args.
Proof.
  rewrite criteria_keys, fmap_app. unfold offered. f_equal.
  - set (cs := arg_candidates args). transitivity (cand_id <$> (enumerate cs).*2); [|by rewrite enumerate_snd].
    rewrite <- !list_fmap_compose. apply list_fmap_ext. intros k [i c] Hk. simpl. unfold name_of.
    erewrite key_to_id_get; [done|]. apply enumerate_elem, list_elem_of_lookup. by exists k.
  - destruct (hatches_of args); [|done].
    assert (forall ks, ks ⊆ dkeys ESCAPE_HATCHES -> name_of (arg_candidates args) <$> ks = ks) as H; [|by apply H].
    induction ks as [|k ks IH]; intros Hs; [done|]. rewrite fmap_cons. f_equal; [|apply IH; set_solver].
    unfold name_of. rewrite name_hatch; [done|]. set_solver.
Qed.

Lemma offered_NoDup args :
  check_ids (hatches_of args) ∅ (arg_candidates args) = Ok tt -> NoDup (offered args).
Proof.
  intros (Hnd & _ & Hh)%check_ids_Ok. unfold offered. destruct (hatches_of args); [|by rewrite app_nil_r].
  apply NoDup_app. split_and!; [done| |apply (bool_decide_unpack _); reflexivity].
  intros k Hk. by eapply Forall_forall in Hk; [|exact (Hh eq_refl)].
Qed.

(** A criterion's key is a candidate's option or an offered hatch. *)
Lemma criteria_key_case args k :
  k ∈ dkeys (criteria_of (hatches_of args) (arg_candidates args)) ->
  (exists i c, k = option_key i /\ arg_candidates args !! i = Some c) \/
  (hatches_of args = true /\ k ∈ dkeys ESCAPE_HATCHES).
Proof.
  rewrite criteria_keys. intros [([i c] & -> & Hin)%list_elem_of_fmap|Hk]%elem_of_app.
  - left. exists i, c. split; [done|]. by apply enumerate_elem.
  - right. destruct (hatches_of args); [done|]. by apply elem_of_nil in Hk.
Qed.

Lemma in_candidates_dhas args k :
  check_ids (hatches_of args) ∅ (arg_candidates args) = Ok tt ->
  k ∈ dkeys (criteria_of (hatches_of args) (arg_candidates args)) ->
  dhas k (key_to_id (arg_candidates args)) = bool_decide (name_of (arg_candidates args) k ∈ (cand_id <$> arg_candidates args)).
Proof.
  intros (_ & _ & Hh)%check_ids_Ok [(i & c & -> & Hc)|[Hhat Hk]]%criteria_key_case; unfold dhas, name_of.
  - erewrite key_to_id_get by done. rewrite bool_decide_eq_true_2; [done|].
    apply list_elem_of_fmap. exists c. split; [done|]. apply list_elem_of_lookup. by exists i.
  - rewrite name_hatch by done. rewrite bool_decide_eq_false_2; [done|]. simpl. intros Hin.
    specialize (Hh Hhat). by eapply Forall_forall in Hin; [|exact Hh].
Qed.

(** The shape of a validated recommendation. *)
Lemma rec_of_inv args ans a :
  wf_value (VDict ans) -> rec_of args ans = Some a ->
  exists raw, NoDup (dkeys raw) /\
    WellFormed PROBABILITY_SUM_TOLERANCE (dkeys (criteria_of (hatches_of args) (arg_candidates args)))
      (choice a) raw (probabilities a).
Proof.
  intros Hwf Hrec. unfold rec_of in Hrec. pose proof (get_wf (u "recommendation") ans Hwf) as Hw.
  destruct (get (u "recommendation") ans) as [| | | | | |d]; try done.
  apply validate_choice_inv in Hrec as (raw & _ & _ & Hnd & HW & _); [|done]. by exists raw.
Qed.

(** The reported probabilities are the validated ones under the caller's names. *)
Lemma named_probabilities args a raw :
  check_ids (hatches_of args) ∅ (arg_candidates args) = Ok tt ->
  NoDup (dkeys raw) ->
  WellFormed PROBABILITY_SUM_TOLERANCE (dkeys (criteria_of (hatches_of args) (arg_candidates args)))
    (choice a) raw (probabilities a) ->
  let ps := (fun kp => (name_of (arg_candidates args) kp.1, VFloat kp.2)) <$> probabilities a in
  fold_left (fun d kp => dset (name_of (arg_candidates args) kp.1) (VFloat kp.2) d) (probabilities a) [] = ps /\
  Permutation (dkeys ps) (offered args).
Proof.
  intros Hok Hnd HW ps.
  pose proof (wf_read _ _ _ _ _ HW) as Hr%read_probabilities_keys.
  set (cs := arg_candidates args) in *.
  assert (NoDup (name_of cs <$> dkeys (criteria_of (hatches_of args) cs))) as Hnn.
  { unfold cs. rewrite criteria_names. by apply offered_NoDup. }
  assert (Permutation (dkeys raw) (dkeys (criteria_of (hatches_of args) cs))) as Hp.
  { apply list.NoDup_Permutation; [done| |apply HW]. by apply NoDup_fmap_1 in Hnn. }
  assert (Permutation ((fun kp => name_of cs kp.1) <$> probabilities a) (offered args)) as Hperm.
  { change (Permutation (name_of cs ∘ fst <$> probabilities a) (offered args)). rewrite list_fmap_compose.
    fold (dkeys (probabilities a)). rewrite Hr, <- criteria_names. by apply fmap_Permutation. }
  split.
  - rewrite fold_dset_app; [done|]. simpl. rewrite Hperm. by apply offered_NoDup.
  - unfold ps, dkeys. rewrite <- list_fmap_compose. exact Hperm.
Qed.

(** Filtering the checks for one candidate leaves that candidate's. *)
Lemma filter_block (p : RequirementCheck -> bool) (f : nat -> Candidate -> list RequirementCheck) (k : nat)
    (cs : list Candidate) i c :
  NoDup (cand_id <$> cs) -> cs !! i = Some c ->
  (forall a c', Forall (fun r => candidate r = cand_id c') (f a c')) ->
  (forall r, p r = true -> candidate r = cand_id c) ->
  List.filter p (ic ← combine (seq k (length cs)) cs; f ic.1 ic.2) = List.filter p (f (k + i)%nat c).
Proof.
  intros Hnd Hc Hf Hp. revert k i Hc. induction cs as [|c0 cs IH]; intros k i Hc; [done|].
  rewrite fmap_cons in Hnd. apply NoDup_cons in Hnd as [Hni Hnd]. simpl. rewrite List.filter_app.
  assert (forall a c', cand_id c' <> cand_id c -> List.filter p (f a c') = []) as Hother.
  { intros a c' Hne. specialize (Hf a c'). induction Hf as [|r rs Hr _ IHr]; [done|]. simpl.
    destruct (p r) eqn:E; [|done]. apply Hp in E. congruence. }
  destruct i as [|i]; simpl in Hc.
  - injection Hc as ->. rewrite Nat.add_0_r.
    assert (forall k', List.filter p (ic ← combine (seq k' (length cs)) cs; f ic.1 ic.2) = []) as Hrest;
      [|by rewrite Hrest, app_nil_r].
    clear IH. induction cs as [|c1 cs IH]; intros k'; [done|]. simpl. rewrite List.filter_app.
    rewrite fmap_cons in Hni, Hnd. apply not_elem_of_cons in Hni as [Hne Hni]. apply NoDup_cons in Hnd as [_ Hnd].
    rewrite Hother by done. apply (IH Hni Hnd).
  - rewrite Hother; [|intros Heq; apply Hni; rewrite Heq; apply list_elem_of_fmap_2, list_elem_of_lookup; eauto].
    rewrite Nat.add_succ_r. exact (IH Hnd (S k) i Hc).
Qed.

(** jev_decide never recommends what was not offered: in a completed call the selection is absent
    with status [invalid_response] (exactly when the answer does not validate), or it is one of the
    caller's candidate ids or an enabled escape hatch, [escaped] tells which, the probabilities are
    keyed by exactly the offered names, and the selected one is within the tie tolerance of the
    largest. *)
Theorem decide_selection args rt log r log' :
  json_replies rt -> handle args rt log = (Ok r, log') ->
  exists ev rec,
    rt_ask rt (length log) {| rq_state := state_of args; rq_questions := questions_of args |} = Ok ev /\
    get (u "recommendation") (payload r) = VDict rec /\
    match rec_of args (answers ev) with
    | None => get (u "selected") rec = VNone /\ get (u "status") rec = VStr INVALID
    | Some a => exists s ps top p,
        get (u "selected") rec = VStr s /\ s ∈ offered args /\
        get (u "escaped") rec = VBool (negb (bool_decide (s ∈ (cand_id <$> arg_candidates args)))) /\
        get (u "probabilities") rec = probs_value ps /\ Permutation (dkeys ps) (offered args) /\
        dget s ps = Some p /\ top ∈ dvalues ps /\ Forall (fun q => fleb q top = true) (dvalues ps) /\
        fleb (fsub top ARGMAX_TOLERANCE) p = true
    end.
Proof.
  intros Hj Hh. unfold handle in Hh. apply mbind_Ok in Hh as ([] & log1 & Hids & Hh).
  injection Hids as Hids <-. apply mbind_Ok in Hh as (ev & log2 & [Hask ->]%ask_Ok & Hret).
  injection Hret as <- <-. exists ev, (recommendation_of args (answers ev)). split; [exact Hask|].
  split; [apply frame_get; [apply keys_NoDup; reflexivity|done|done|reflexivity]|].
  unfold recommendation_of. destruct (rec_of args (answers ev)) as [a|] eqn:Erec; [|by split].
  destruct (rec_of_inv args (answers ev) a (Hj _ _ _ Hask) Erec) as (raw & Hnd & HW).
  destruct (named_probabilities args a raw Hids Hnd HW) as [Hps Hperm]. cbv zeta in Hps, Hperm.
  set (nm := name_of (arg_candidates args)) in *.
  set (ps := (fun kp => (nm kp.1, kp.2)) <$> probabilities a).
  assert (dkeys ps = dkeys ((fun kp => (nm kp.1, VFloat kp.2)) <$> probabilities a)) as Hk.
  { unfold ps, dkeys. by rewrite <- !list_fmap_compose. }
  assert (NoDup (dkeys ps)) as Hndp by (rewrite Hk, Hperm; by apply offered_NoDup).
  assert (dvalues ps = dvalues (probabilities a)) as Hv.
  { unfold ps, dvalues. by rewrite <- list_fmap_compose. }
  assert (Forall in_unit (dvalues (probabilities a))) as Hu.
  { eapply read_probabilities_unit. by eapply wf_read. }
  destruct (max_value_spec (probabilities a) (wf_nonempty _ _ _ _ _ HW) Hu) as [Htop Hmax].
  assert (choice a ∈ dkeys (probabilities a)) as [p Hp]%dget_is_Some.
  { erewrite (read_probabilities_keys raw) by (by eapply wf_read). apply HW, HW. }
  exists (nm (choice a)), ps, (max_value (probabilities a)), p. split_and!.
  - reflexivity.
  - unfold nm. rewrite <- criteria_names. apply list_elem_of_fmap_2, HW.
  - unfold nm. rewrite <- in_candidates_dhas; [reflexivity|done|apply HW].
  - transitivity (VDict (fold_left (fun d kp => dset (nm kp.1) (VFloat kp.2) d) (probabilities a) [])); [reflexivity|].
    rewrite Hps. unfold probs_value, ps. by rewrite <- list_fmap_compose.
  - by rewrite Hk.
  - apply elem_dget; [exact Hndp|]. unfold ps. apply list_elem_of_fmap. exists (choice a, p).
    split; [done|]. by apply dget_elem.
  - by rewrite Hv.
  - by rewrite Hv.
  - pose proof (wf_top _ _ _ _ _ HW) as Ht. unfold prob in Ht. by rewrite Hp in Ht.
Qed.

(** The requirements a candidate's own checks contradict. *)
Lemma filter_checks (ans : dict value) i id (l : list nat) :
  requirement <$> List.filter
    (fun r => bool_decide (candidate r = id) && bool_decide (answer r = u "contradicted"))
    ((fun j => {| candidate := id; requirement := j; answer := check_answer ans i j |}) <$> l) =
  List.filter (fun j => bool_decide (check_answer ans i j = u "contradicted")) l.
Proof.
  induction l as [|j l IH]; [done|]. rewrite fmap_cons. cbn [List.filter candidate answer].
  rewrite bool_decide_eq_true_2 by done. cbn [andb].
  case_bool_decide; [rewrite fmap_cons; by f_equal|done].
Qed.

Lemma filter_valid (p : RequirementCheck -> bool) l :
  (forall r, p r = true -> answer r <> INVALID) ->
  List.filter p (List.filter (fun c => negb (bool_decide (answer c = INVALID))) l) = List.filter p l.
Proof.
  intros Hp. induction l as [|r l IH]; [done|]. cbn [List.filter].
  case_bool_decide as Hi; cbn [negb List.filter].
  - rewrite IH. destruct (p r) eqn:E; [|done]. by apply Hp in E.
  - by rewrite IH.
Qed.

(** jev_decide warns about exactly the contradictions of the recommended candidate: when the
    validated recommendation is candidate [i], the warned requirements are those whose own check for
    candidate [i] validates as contradicted, in order; checks of other candidates, malformed checks
    and a recommendation that is a hatch or invalid never warn.  The text is in the payload. *)
Theorem decide_warns args ev :
  check_ids (hatches_of args) ∅ (arg_candidates args) = Ok tt ->
  get (u "warnings") (payload (reply args ev)) = texts_value (warnings_of (contradicted_of args (answers ev))) /\
  (forall i c a, arg_candidates args !! i = Some c -> rec_of args (answers ev) = Some a -> choice a = option_key i ->
    contradicted_of args (answers ev) =
    List.filter (fun j => bool_decide (check_answer (answers ev) i j = u "contradicted"))
      (seq 0 (length (requirements_of args)))) /\
  (forall i j, check_answer (answers ev) i j = u "contradicted" <->
    exists a, validate_choice (get (check_key i j) (answers ev)) (dkeys RELATION_CRITERIA) = Some a /\
              choice a = u "contradicted") /\
  ((rec_of args (answers ev) = None \/
    exists a, rec_of args (answers ev) = Some a /\ choice a ∈ dkeys ESCAPE_HATCHES) ->
   contradicted_of args (answers ev) = []).
Proof.
  intros (Hnd & _ & _)%check_ids_Ok. split_and!.
  - apply frame_get; [apply keys_NoDup; reflexivity|done|done|reflexivity].
  - intros i c a Hc Hrec Ha. unfold contradicted_of. rewrite Hrec, Ha.
    rewrite (key_to_id_get _ i c Hc). unfold contradicts_recommendation.
    rewrite filter_valid.
    + unfold checks_of, enumerate.
      rewrite (filter_block _ (fun i c =>
        (fun j => {| candidate := cand_id c; requirement := j; answer := check_answer (answers ev) i j |})
          <$> seq 0 (length (requirements_of args))) 0 (arg_candidates args) i c Hnd Hc).
      * apply filter_checks.
      * intros k c'. apply Forall_fmap, Forall_forall. done.
      * intros r [H _]%andb_prop. by apply bool_decide_eq_true_1 in H.
    + intros r [_ H%bool_decide_eq_true_1]%andb_prop. rewrite H. done.
  - intros i j. unfold check_answer. destruct (validate_choice _ _) as [a|]; [|by split; [|intros (? & ? & _)]].
    split; [eauto|]. by intros (? & [= <-] & ?).
  - intros [Hn|(a & Hs & Hk)]; unfold contradicted_of; [by rewrite Hn|]. rewrite Hs. by rewrite name_hatch.
Qed.

(** ** Witnesses *)
Definition sample_args : Args :=
  {| arg_decision := u "which"; arg_evidence := u "facts"; arg_priorities := u "speed";
     arg_candidates := [{| cand_id := u "a"; cand_description := u "first" |};
                        {| cand_id := u "b"; cand_description := u "second" |}];
     arg_requirements := Some [u "fast"; u "safe"]; arg_escape_hatches := Some false |}.

Definition sample_answers : dict value :=
  [(u "recommendation", choice_reply "option_1" [("option_0", 10); ("option_1", 90)] 90);
   (u "check_1_0", choice_reply "supported" [("supported", 90); ("contradicted", 10); ("unknown", 0)] 90);
   (u "check_1_1", choice_reply "contradicted" [("supported", 10); ("contradicted", 90); ("unknown", 0)] 90)].

Example sample_warns : contradicted_of sample_args sample_answers = [1%nat].
Proof. vm_compute. reflexivity. Qed.

Lemma decide_selection_witness :
  exists r log' rec,
    handle sample_args (sample_runtime sample_answers) [] = (Ok r, log') /\
    get (u "recommendation") (payload r) = VDict rec /\ get (u "selected") rec = vs "b".
Proof.
  destruct (ok_result_Ok (handle sample_args (sample_runtime sample_answers) [])) as (r & log' & Hh);
    [vm_compute; reflexivity|].
  destruct (decide_selection sample_args (sample_runtime sample_answers) [] r log'
              (sample_runtime_json sample_answers eq_refl) Hh) as (ev & rec & _ & Hrec & _).
  exists r, log', rec. split; [exact Hh|]. split; [exact Hrec|].
  vm_compute in Hh. injection Hh as <- _. vm_compute in Hrec. injection Hrec as <-. reflexivity.
Defined.

Lemma decide_warns_witness :
  contradicted_of sample_args sample_answers = [1%nat] /\
  get (u "warnings") (payload (reply sample_args (sample_evaluation sample_answers))) = texts_value [warning_text [1%nat]].
Proof.
  destruct (decide_warns sample_args (sample_evaluation sample_answers) eq_refl) as (Hp & Hw & _).
  split; [vm_compute; reflexivity|]. rewrite Hp. vm_compute. reflexivity.
Defined.
