(* ===== verification/Find.v ===== *)
(** * jev_find

    Models [tools/find.py]: safe unique ids for the candidates, one choice over all of them and one
    existence question, and the top of the ranking. *)
From S2P Require Import Prelude Float64 Text Limits Json Domain Serialize Ids Caps Validation Policy Responses Runtime.
From S2P Require Import Samples.
Open Scope Z_scope.

Definition EXISTS_CRITERIA : NoulCriteria :=
  {| nc_true := vs "At least one candidate states or directly implies the answer";
     nc_false := vs "No candidate addresses this" |}.

(** The schema requires [text] of every candidate, and bounds [top_k] between 1 and 50. *)
Record Args := { arg_query : text; arg_candidates : list item; arg_top_k : option Z }.

Definition top_k_of (args : Args) : Z := or_else (arg_top_k args) (find_top_k_default FIND).

(** The texts under the per-text cap, and what the cap cut. *)
Definition capped_texts (raw : list item) : list text * ledger :=
  ledger_texts (text_of <$> raw) (cand_text_units CANDIDATES) ScopeItem new_ledger.

Definition sent_items (raw : list item) : list item :=
  (fun ct => [(u "id", or_else (dget (u "id") ct.1) []); (u "text", ct.2)]) <$> combine raw (capped_texts raw).1.

Definition candidates_of (args : Args) : list item :=
  ui_items (ensure_unique_ids (sent_items (arg_candidates args)) (u "candidate")).

Definition ids_of (args : Args) : list text := id_of <$> candidates_of args.

Definition best_question (query : text) (ids : list text) : Question :=
  choice_question (u "Which candidate contains the best answer to: " ++ dq ++ query ++ dq ++ u "?")
    (fold_left (fun d i => dset i VNone d) ids []).

Definition exists_question (query : text) : Question :=
  noul_question (u "Does any candidate address or answer: " ++ dq ++ query ++ dq ++ u "?") EXISTS_CRITERIA.

Definition questions_of (args : Args) : dict Question :=
  [(u "best", best_question (arg_query args) (ids_of args)); (u "exists", exists_question (arg_query args))].

Definition state_of (args : Args) : value :=
  VDict [(u "query", VStr (arg_query args)); (u "candidates", items_value (candidates_of args))].

(** One row of [top]: [c] is a candidate with its [probability], as [rank_candidates] returns it. *)
Definition top_row (ps : dict float) (c : dict value) : value := VDict
  [(u "id", get (u "id") c);
   (u "probability", VFloat (shown (or_else (dget (or_else (as_str (get (u "id") c)) []) ps) f_zero)));
   (u "text", get (u "text") c)].

Definition ranked_rows (args : Args) (best : ChoiceAnswer) : list value :=
  top_row (probabilities best) <$>
    take (Z.to_nat (top_k_of args)) (rank_candidates (candidates_of args) (probabilities best)).

Definition body_of (args : Args) (answers : dict value) : dict value :=
  let ex := validate_noul (get (u "exists") answers) in
  let best := validate_choice (get (u "best") answers) (ids_of args) in
  let renamed := renamed_ids_field (caller_renames (arg_candidates args) (candidates_of args)) in
  match ex, best with
  | Some e, Some b =>
    dmerge [(u "query", VStr (arg_query args)); (u "exists", VFloat e);
            (u "exists_verdict", VStr (exists_verdict_text (exists_verdict e)));
            (u "top", VList (ranked_rows args b))] renamed
  | _, _ =>
    dmerge [(u "query", VStr (arg_query args)); (u "status", vs "invalid_response"); (u "exists", opt_float ex);
            (u "exists_verdict", VNone); (u "top", VList []);
            (u "reason", vs "missing or malformed best or exists answer; cannot rank safely")] renamed
  end.

Definition reply (args : Args) (evaluation : Evaluation) : ToolResult :=
  {| payload := frame (u "jev_find") (Some evaluation) (body_of args (answers evaluation)) None;
     is_error := false; action := None; item_actions := [];
     tr_truncated := scopes (capped_texts (arg_candidates args)).2; error_code := None; extract := None |}.

Definition handle (args : Args) (rt : Runtime) : M ToolResult :=
  let! evaluation := ask rt (state_of args) (questions_of args) in
  mret (reply args evaluation).

(** ** Facts *)
Lemma body_get k v base renamed :
  dget k base = Some v -> k <> u "renamed_ids" -> get k (dmerge base (renamed_ids_field renamed)) = v.
Proof.
  intros Hk Hne. unfold get. rewrite dget_dmerge_notin; [by rewrite Hk|].
  unfold renamed_ids_field. destruct renamed; [apply not_elem_of_nil|].
  cbn. by rewrite list_elem_of_singleton.
Qed.

Lemma body_keys_NoDup args answers : NoDup (dkeys (body_of args answers)).
Proof.
  unfold body_of. cbv zeta. destruct (validate_noul _) as [e|]; [destruct (validate_choice _ _) as [b|]|];
    apply NoDup_dmerge, keys_NoDup; reflexivity.
Qed.

Lemma item_value_get k it t : dget k it = Some t -> get k (item_value it) = VStr t.
Proof.
  unfold get, item_value. induction it as [|[k' v'] it IH]; [done|]. rewrite fmap_cons. cbn [dget fst snd].
  case_bool_decide; [by intros [= ->]|exact IH].
Qed.

(** Every candidate that is asked about has an id and a text. *)
Lemma sent_items_text raw c : c ∈ sent_items raw -> exists i t, c = [(u "id", i); (u "text", t)].
Proof. intros ([it t] & -> & _)%list_elem_of_fmap. eauto. Qed.

Lemma candidates_shape args c :
  c ∈ candidates_of args -> exists t, dget (u "id") c = Some (id_of c) /\ dget (u "text") c = Some t.
Proof.
  intros Hc. unfold candidates_of in Hc.
  pose proof (ensure_unique_ids_other (sent_items (arg_candidates args)) (u "candidate")) as H.
  pose proof (ensure_unique_ids_has_id (sent_items (arg_candidates args)) (u "candidate")) as Hid.
  eapply Forall_forall in Hid; [|exact Hc]. destruct Hid as [i Hi].
  apply list_elem_of_lookup in Hc as [n Hn]. eapply Forall2_lookup_r in H as (it & Hit & Hk); [|exact Hn].
  apply list_elem_of_lookup_2, sent_items_text in Hit as (i' & t & ->).
  exists t. split; [unfold id_of; by rewrite Hi|]. by rewrite Hk.
Qed.

Lemma rank_candidates_ranked cs ps :
  rank_candidates cs ps = (fun pc => dset (u "probability") (VFloat pc.1) (item_value pc.2)) <$> descending (rank_scored cs ps).
Proof. done. Qed.

Lemma rank_scored_snd cs ps : (rank_scored cs ps).*2 = cs.
Proof. unfold rank_scored. rewrite <- list_fmap_compose. induction cs as [|c cs IH]; [done|]. simpl. by f_equal. Qed.

Lemma filter_rank_scored cs ps p :
  (List.filter (fun x => feqb x.1 p) (rank_scored cs ps)).*2 = List.filter (fun c => feqb (prob ps (id_of c)) p) cs.
Proof.
  unfold rank_scored, prob. induction cs as [|c cs IH]; [done|]. rewrite fmap_cons. cbn [List.filter fst].
  destruct (feqb _ p); [rewrite fmap_cons; by f_equal|exact IH].
Qed.

(** The row of a ranked candidate. *)
Lemma top_row_ranked ps p c t :
  dget (u "id") c = Some (id_of c) -> dget (u "text") c = Some t -> dget (id_of c) ps = Some p ->
  top_row ps (dset (u "probability") (VFloat p) (item_value c)) =
  VDict [(u "id", VStr (id_of c)); (u "probability", VFloat (shown p)); (u "text", VStr t)].
Proof.
  intros Hi Ht Hp. unfold top_row, get. rewrite !dget_dset_ne by done.
  pose proof (item_value_get (u "id") c (id_of c) Hi) as H1. pose proof (item_value_get (u "text") c t Ht) as H2.
  unfold get in H1, H2. rewrite H1, H2. cbn [as_str or_else]. rewrite Hp. reflexivity.
Qed.

(** jev_find never ranks on an answer it cannot trust, and never drops, invents or reorders: when
    either answer fails validation the call reports [invalid_response] with an empty [top];
    otherwise [top] is the first [top_k] of a list that holds every candidate once, each with the
    validated probability of its own id, in descending order with ties in the caller's order, shown
    rounded half up to four places. *)
Theorem find_ranks args rt log r log' :
  json_replies rt -> handle args rt log = (Ok r, log') ->
  exists ev,
    rt_ask rt (length log) {| rq_state := state_of args; rq_questions := questions_of args |} = Ok ev /\
    match validate_noul (get (u "exists") (answers ev)), validate_choice (get (u "best") (answers ev)) (ids_of args) with
    | Some e, Some b => exists ranked : list (float * item),
        get (u "top") (payload r) = VList ((fun pc => VDict [(u "id", VStr (id_of pc.2));
            (u "probability", VFloat (shown pc.1)); (u "text", VStr (text_of pc.2))])
          <$> take (Z.to_nat (top_k_of args)) ranked) /\
        Permutation ranked.*2 (candidates_of args) /\
        Forall (fun pc => dget (id_of pc.2) (probabilities b) = Some pc.1 /\ in_unit pc.1) ranked /\
        StronglySorted (fun x y => fleb y.1 x.1 = true) ranked /\
        (forall p, (List.filter (fun x => feqb x.1 p) ranked).*2 =
           List.filter (fun c => feqb (prob (probabilities b) (id_of c)) p) (candidates_of args)) /\
        get (u "exists") (payload r) = VFloat e
    | _, _ => get (u "status") (payload r) = vs "invalid_response" /\ get (u "top") (payload r) = VList []
    end.
Proof.
  intros Hj Hh. unfold handle in Hh. apply mbind_Ok in Hh as (ev & log1 & [Hask ->]%ask_Ok & Hret).
  injection Hret as <- <-. exists ev. split; [exact Hask|]. cbn [payload reply].
  assert (forall k v, k <> u "usage" -> k <> u "request_id" -> k <> u "renamed_ids" ->
    get k (body_of args (answers ev)) = v -> v <> VNone ->
    get k (frame (u "jev_find") (Some ev) (body_of args (answers ev)) None) = v) as Hget.
  { intros k v H1 H2 _ Hb Hv. apply frame_get; [|done|done|].
    - apply body_keys_NoDup.
    - unfold get in Hb. destruct (dget k _); [by f_equal|done]. }
  destruct (validate_noul _) as [e|] eqn:Ee;
    [destruct (validate_choice _ _) as [b|] eqn:Eb|]; cycle 1.
  1-2: split; (apply Hget; [done|done|done| |done]); unfold body_of; rewrite Ee, ?Eb; by apply body_get.
  set (cs := candidates_of args). set (ranked := descending (rank_scored cs (probabilities b))).
  pose proof (get_wf (u "best") (answers ev) (Hj _ _ _ Hask)) as Hwb.
  destruct (get (u "best") (answers ev)) as [| | | | | |d] eqn:Eg; try done.
  apply validate_choice_inv in Eb as Hinv; [|done]. destruct Hinv as (raw & _ & _ & _ & HW & _).
  pose proof (wf_read _ _ _ _ _ HW) as Hr.
  pose proof (read_probabilities_keys _ _ Hr) as Hkeys. pose proof (read_probabilities_unit _ _ Hr) as Hu.
  assert (Forall (fun pc => dget (id_of pc.2) (probabilities b) = Some pc.1 /\ in_unit pc.1)
            (rank_scored cs (probabilities b))) as Hall.
  { apply Forall_fmap, Forall_forall. intros c Hc. simpl.
    assert (id_of c ∈ dkeys (probabilities b)) as [p Hp]%dget_is_Some.
    { rewrite Hkeys. apply HW. unfold ids_of. by apply list_elem_of_fmap_2. }
    rewrite Hp. split; [done|]. apply dget_elem in Hp. eapply Forall_forall in Hu; [exact Hu|].
    unfold dvalues. apply list_elem_of_fmap. by exists (id_of c, p). }
  assert (Forall (fun pc => dget (id_of pc.2) (probabilities b) = Some pc.1 /\ in_unit pc.1) ranked) as Hranked.
  { unfold ranked. by rewrite descending_perm. }
  assert (Permutation ranked.*2 cs) as Hperm.
  { unfold ranked. rewrite descending_perm. by rewrite rank_scored_snd. }
  exists ranked. split_and!; [| |done| | |].
  - apply Hget; [done|done|done| |done]. unfold body_of. rewrite Ee, Eg, Eb.
    apply body_get; [|done]. transitivity (Some (VList (ranked_rows args b))); [reflexivity|].
    do 2 f_equal. unfold ranked_rows. rewrite rank_candidates_ranked. fold cs ranked.
    rewrite <- fmap_take, <- list_fmap_compose. apply list_fmap_ext. intros n [p c] [Hn _]%lookup_take_Some.
    apply list_elem_of_lookup_2 in Hn as Hin.
    eapply Forall_forall in Hin as Hpc; [|exact Hranked]. destruct Hpc as [Hp _]. cbn [fst snd] in Hp.
    assert (c ∈ cs) as Hc by (rewrite <- Hperm; by apply (list_elem_of_fmap_2 snd) in Hin).
    destruct (candidates_shape args c Hc) as (t & Hid & Ht). cbn [fst snd compose].
    assert (text_of c = t) as -> by (unfold text_of; by rewrite Ht). by apply top_row_ranked.
  - exact Hperm.
  - apply descending_sorted. eapply Forall_impl; [exact Hall|]. intros pc [_ ?]. by apply in_unit_num.
  - intros p. unfold ranked. rewrite descending_stable. apply filter_rank_scored.
  - apply Hget; [done|done|done| |done]. unfold body_of. rewrite Ee, Eg, Eb. by apply body_get.
Qed.

(** ** Witness *)
Definition sample_args : Args :=
  {| arg_query := u "q"; arg_candidates := [[(u "id", u "a"); (u "text", u "one")]; [(u "text", u "two")]];
     arg_top_k := Some 1 |}.

Definition sample_answers : dict value :=
  [(u "exists", noul_reply 90);
   (u "best", choice_reply "candidate1" [("a", 10); ("candidate1", 90)] 90)].

Lemma find_ranks_witness :
  exists r log', handle sample_args (sample_runtime sample_answers) [] = (Ok r, log') /\
    exists ev, rt_ask (sample_runtime sample_answers) 0
      {| rq_state := state_of sample_args; rq_questions := questions_of sample_args |} = Ok ev.
Proof.
  destruct (ok_result_Ok (handle sample_args (sample_runtime sample_answers) [])) as (r & log' & Hh);
    [vm_compute; reflexivity|].
  destruct (find_ranks sample_args (sample_runtime sample_answers) [] r log'
              (sample_runtime_json sample_answers eq_refl) Hh) as (ev & Hask & _).
  exists r, log'. split; [exact Hh|]. exists ev. exact Hask.
Defined.

Example sample_top :
  match (handle sample_args (sample_runtime sample_answers) []).1 with
  | Ok r => get (u "top") (payload r)
  | Raise _ => VNone
  end = VList [VDict [(u "id", vs "candidate1"); (u "probability", percent 90); (u "text", vs "two")]].
Proof. vm_compute. reflexivity. Qed.
