(* ===== verification/Rerank.v ===== *)
(** * jev_rerank

    Models [tools/rerank.py]: the caller's ids kept verbatim and made unique, one relevance question
    per candidate, and the full ordering. *)
From S2P Require Import Prelude Float64 Text Limits Json Domain Serialize Ids Caps Validation Policy Responses Runtime.
From S2P Require Import Samples.
From S2P Require Find.
Open Scope Z_scope.

Definition RELEVANCE_CRITERIA : NoulCriteria :=
  {| nc_true := vs "The candidate addresses the subject the query asks about, or provides what it seeks";
     nc_false := vs "The candidate is about a different subject, or only shares vocabulary with the query" |}.

(** The schema requires [text] of every candidate, and bounds [top_k] between 1 and 250. *)
Record Args := { arg_query : text; arg_candidates : list item; arg_top_k : option Z }.

(** ** _external_ids *)
Fixpoint supplied_ids (raw : list item) (supplied : gset text) : result exn (gset text) :=
  match raw with
  | [] => Ok supplied
  | candidate :: raw' =>
    match dget (u "id") candidate with
    | Some i =>
      if bool_decide (i ∈ supplied)
      then Raise (ToolError (u "Duplicate candidate id: " ++ i) (u "invalid_arguments"))
      else supplied_ids raw' ({[i]} ∪ supplied)
    | None => supplied_ids raw' supplied
    end
  end.

Fixpoint assign_ids (index : nat) (raw : list item) (used : gset text) : list text :=
  match raw with
  | [] => []
  | candidate :: raw' =>
    let external :=
      match dget (u "id") candidate with
      | Some i => i
      | None => fresh_id_from 2 used (u "candidate" ++ str_of_nat index)
      end in
    external :: assign_ids (S index) raw' ({[external]} ∪ used)
  end.

Definition external_ids (raw : list item) : result exn (list text) :=
  let? supplied := supplied_ids raw ∅ in Ok (assign_ids 0 raw supplied).

(** ** The request *)
Definition rel_key (i : nat) : text := u "rel_" ++ str_of_nat i.

Definition rel_question (i : nat) (t : text) : Question :=
  noul_question (u "Is candidate c" ++ str_of_nat i ++ u " relevant to the query in the state? Candidate c"
                 ++ str_of_nat i ++ u ": " ++ t) RELEVANCE_CRITERIA.

Definition questions_of (texts : list text) : dict Question :=
  fold_left (fun d it => dset (rel_key it.1) (rel_question it.1 it.2) d) (enumerate texts) [].

Definition total_units (texts : list text) : Z := sum_over Utf16.length texts.

(** Everything before the ask: the ids, the capped texts and what was cut, within the budget. *)
Definition prepare (args : Args) : result exn (list text * list text * ledger) :=
  let? ids := external_ids (arg_candidates args) in
  let '(texts, l) := Find.capped_texts (arg_candidates args) in
  if exceeds (total_units texts) (rr_aggregate_candidate_units RERANK)
  then Raise (ToolError (candidate_budget_error (total_units texts) (rr_aggregate_candidate_units RERANK)
                           (u "Split the batch.")) (u "input_too_large"))
  else Ok (ids, texts, l).

(** ** The reply *)
Definition scores_of (texts : list text) (answers : dict value) : list (option float) :=
  (fun i => validate_noul (get (rel_key i) answers)) <$> seq 0 (length texts).

Definition as_items (ids texts : list text) : list item :=
  (fun it => [(u "id", it.1); (u "text", it.2)]) <$> combine ids texts.

Definition as_float (v : value) : float := match v with VFloat f => f | _ => f_zero end.

(** [ranked[:top_k] if top_k else ranked]. *)
Definition returned_of {A} (top_k : option Z) (ranked : list A) : list A :=
  match top_k with
  | Some k => if k =? 0 then ranked else take (Z.to_nat k) ranked
  | None => ranked
  end.

Definition ranked_row (rank : nat) (c : dict value) : value := VDict
  [(u "rank", vnum rank); (u "id", get (u "id") c);
   (u "relevance", VFloat (shown (as_float (get (u "relevance") c)))); (u "text", get (u "text") c)].

Definition body_of (args : Args) (ids texts : list text) (answers : dict value) : dict value :=
  let scores := scores_of texts answers in
  if existsb is_none scores
  then [(u "query", VStr (arg_query args)); (u "status", vs "invalid_response"); (u "ranked", VNone)]
  else
    let returned := returned_of (arg_top_k args) (rerank_by_score (as_items ids texts) (omap id scores)) in
    [(u "query", VStr (arg_query args));
     (u "summary", VDict [(u "candidates", vnum (length texts)); (u "returned", vnum (length returned))]);
     (u "ranked", VList ((fun ic => ranked_row (S ic.1) ic.2) <$> enumerate returned))].

Definition reply (args : Args) (ids texts : list text) (l : ledger) (evaluation : Evaluation) : ToolResult :=
  {| payload := frame (u "jev_rerank") (Some evaluation) (body_of args ids texts (answers evaluation)) None;
     is_error := false; action := None; item_actions := []; tr_truncated := scopes l; error_code := None;
     extract := None |}.

Definition state_of (args : Args) : value := VDict [(u "query", VStr (arg_query args))].

Definition handle (args : Args) (rt : Runtime) : M ToolResult :=
  let! itl := mlift (prepare args) in
  let '(ids, texts, l) := itl in
  let! evaluation := ask rt (state_of args) (questions_of texts) in
  mret (reply args ids texts l evaluation).

(** ** Facts: ids *)
Lemma supplied_ids_spec raw supplied out :
  supplied_ids raw supplied = Ok out ->
  out = supplied ∪ list_to_set (omap (dget (u "id")) raw) /\
  NoDup (omap (dget (u "id")) raw) /\ Forall (fun i => i ∉ supplied) (omap (dget (u "id")) raw).
Proof.
  revert supplied. induction raw as [|c raw IH]; intros supplied; cbn [supplied_ids omap list_omap].
  - intros [= <-]. split; [set_solver|split; constructor].
  - destruct (dget (u "id") c) as [i|]; [|by apply IH]. case_bool_decide as Hi; [done|].
    intros (-> & Hnd & Hall)%IH. split; [|split].
    + apply leibniz_equiv. rewrite list_to_set_cons. set_solver.
    + apply NoDup_cons. split; [|exact Hnd]. intros Hin. eapply Forall_forall in Hin; [|exact Hall]. set_solver.
    + constructor; [exact Hi|]. eapply Forall_impl; [exact Hall|]. set_solver.
Qed.

(** Supplied ids are kept, generated ones avoid every id in use; [dn] holds the ids already given. *)
Lemma assign_ids_spec index raw used dn :
  NoDup (omap (dget (u "id")) raw) ->
  Forall (fun i => i ∈ used /\ i ∉ dn) (omap (dget (u "id")) raw) -> dn ⊆ used ->
  Forall2 (fun c i => forall s, dget (u "id") c = Some s -> i = s) raw (assign_ids index raw used) /\
  NoDup (assign_ids index raw used) /\ Forall (fun i => i ∉ dn) (assign_ids index raw used).
Proof.
  revert index used dn. induction raw as [|c raw IH]; intros index used dn; cbn [assign_ids omap list_omap].
  - intros _ _ _. split_and!; constructor.
  - set (external := match dget (u "id") c with Some i => i | None => _ end). intros Hnd Hall Hdn.
    assert (external ∉ dn /\ NoDup (omap (dget (u "id")) raw) /\
            Forall (fun i => i ∈ used /\ i ∉ dn /\ i <> external) (omap (dget (u "id")) raw)) as (Hext & Hnd' & Hall').
    { unfold external. destruct (dget (u "id") c) as [i|].
      - apply NoDup_cons in Hnd as [Hni Hnd]. apply Forall_cons in Hall as [[_ Hi] Hall].
        split_and!; [done|done|]. apply Forall_forall. intros x Hx. eapply Forall_forall in Hall; [|exact Hx].
        split_and!; [apply Hall|apply Hall|]. intros ->. done.
      - pose proof (fresh_id_from_fresh 2 used (u "candidate" ++ str_of_nat index)) as Hf.
        split_and!; [set_solver|done|]. eapply Forall_impl; [exact Hall|]. intros x [Hx Hd].
        split_and!; [done|done|]. intros ->. done. }
    destruct (IH (S index) ({[external]} ∪ used) ({[external]} ∪ dn)) as (H1 & H2 & H3); [done| |set_solver|].
    { eapply Forall_impl; [exact Hall'|]. simpl. set_solver. }
    split_and!.
    + constructor; [|exact H1]. intros s Hs. unfold external. by rewrite Hs.
    + apply NoDup_cons. split; [|exact H2]. intros Hin. eapply Forall_forall in Hin; [|exact H3]. set_solver.
    + constructor; [exact Hext|]. eapply Forall_impl; [exact H3|]. set_solver.
Qed.

Lemma supplied_ids_Ok raw supplied :
  NoDup (omap (dget (u "id")) raw) -> Forall (fun i => i ∉ supplied) (omap (dget (u "id")) raw) ->
  exists out, supplied_ids raw supplied = Ok out.
Proof.
  revert supplied. induction raw as [|c raw IH]; intros supplied; cbn [supplied_ids omap list_omap]; [eauto|].
  destruct (dget (u "id") c) as [i|]; [|by apply IH]. intros [Hni Hnd]%NoDup_cons [Hi Hall]%Forall_cons.
  rewrite bool_decide_eq_false_2 by done. apply IH; [done|]. apply Forall_forall. intros x Hx.
  eapply Forall_forall in Hall; [|exact Hx]. set_solver.
Qed.

Lemma external_ids_spec raw ids :
  external_ids raw = Ok ids ->
  Forall2 (fun c i => forall s, dget (u "id") c = Some s -> i = s) raw ids /\ NoDup ids.
Proof.
  unfold external_ids. intros (supplied & (-> & Hnd & _)%supplied_ids_spec & [= <-])%rbind_Ok.
  destruct (assign_ids_spec 0 raw (∅ ∪ list_to_set (omap (dget (u "id")) raw)) ∅) as (H1 & H2 & _); [done| |set_solver|done].
  apply Forall_forall. intros i Hi. set_solver.
Qed.

(** What a prepared call holds. *)
Lemma rerank_prepare_Ok args ids texts l :
  prepare args = Ok (ids, texts, l) ->
  external_ids (arg_candidates args) = Ok ids /\
  texts = (fun c => Utf16.truncate (text_of c) (cand_text_units CANDIDATES)) <$> arg_candidates args.
Proof.
  unfold prepare. intros (ids' & Hids & Hout)%rbind_Ok.
  destruct (Find.capped_texts (arg_candidates args)) as [texts' l'] eqn:Ec. destruct (exceeds _ _); [done|]. injection Hout as <- <- <-.
  split; [done|]. unfold Find.capped_texts in Ec. apply (f_equal fst) in Ec. rewrite ledger_texts_values in Ec.
  simpl in Ec. by rewrite <- Ec, <- list_fmap_compose.
Qed.

(** jev_rerank names every candidate unambiguously: it refuses a call exactly when two supplied ids
    are equal or the capped texts exceed the budget, and then makes no request; otherwise every
    supplied id is kept verbatim, in order, all ids are distinct (a generated id avoids even the ids
    supplied after it), and each text is cut to the per-text cap. *)
Theorem rerank_prepared args :
  ((exists out, prepare args = Ok out) <->
   NoDup (omap (dget (u "id")) (arg_candidates args)) /\
   total_units (Find.capped_texts (arg_candidates args)).1 <= rr_aggregate_candidate_units RERANK) /\
  (forall rt log e, prepare args = Raise e -> handle args rt log = (Raise e, log)) /\
  (forall ids texts l, prepare args = Ok (ids, texts, l) ->
     Forall2 (fun c i => forall s, dget (u "id") c = Some s -> i = s) (arg_candidates args) ids /\ NoDup ids /\
     texts = (fun c => Utf16.truncate (text_of c) (cand_text_units CANDIDATES)) <$> arg_candidates args).
Proof.
  split_and!.
  - unfold prepare. destruct (Find.capped_texts (arg_candidates args)) as [texts l] eqn:Ec. cbn [fst]. split.
    + intros (out & (ids & Hids & Hout)%rbind_Ok). unfold external_ids in Hids.
      apply rbind_Ok in Hids as (s & (_ & Hnd & _)%supplied_ids_spec & _). split; [done|].
      destruct (exceeds _ _) eqn:Ex; [done|]. unfold exceeds in Ex. by apply Z.ltb_ge in Ex.
    + intros [Hnd Hle]. destruct (supplied_ids_Ok (arg_candidates args) ∅ Hnd) as [s Hs];
        [apply Forall_forall; set_solver|].
      unfold external_ids. rewrite Hs. cbn [rbind]. assert (exceeds (total_units texts) (rr_aggregate_candidate_units RERANK) = false) as ->.
      { unfold exceeds. by apply Z.ltb_ge. }
      eauto.
  - intros rt log e He. unfold handle, mbind, mlift. by rewrite He.
  - intros ids texts' l' Hp. apply rerank_prepare_Ok in Hp as [Hids ->]. apply external_ids_spec in Hids as [H1 H2]. by split_and!.
Qed.

(** ** Facts: the ordering *)
Lemma enumerate_from_combine {A B} (d : B) (l : list A) (l' : list B) k pre :
  length l = length l' -> length pre = k ->
  (fun ia => (or_else ((pre ++ l') !! ia.1) d, ia.2)) <$> combine (seq k (length l)) l = combine l' l.
Proof.
  revert l' k pre. induction l as [|a l IH]; intros [|b l'] k pre Hlen Hk; try done.
  cbn [length seq combine]. rewrite fmap_cons. cbn [fst snd]. f_equal.
  - rewrite <- Hk, lookup_app_r, Nat.sub_diag by lia. done.
  - specialize (IH l' (S k) (pre ++ [b])). rewrite <- app_assoc in IH. apply IH; [by injection Hlen|].
    rewrite length_app. simpl. lia.
Qed.

Lemma rerank_scored_combine cs scores : length cs = length scores -> rerank_scored cs scores = combine scores cs.
Proof. intros H. by apply (enumerate_from_combine f_zero cs scores 0 []). Qed.

Lemma omap_id_all {A} (l : list (option A)) : existsb is_none l = false -> l = Some <$> omap id l.
Proof. induction l as [|[a|] l IH]; [done| |done]. intros H. simpl in *. f_equal. by apply IH. Qed.

Lemma ranked_row_item rank x i t :
  ranked_row rank (dset (u "relevance") (VFloat x) (item_value [(u "id", i); (u "text", t)])) =
  VDict [(u "rank", vnum rank); (u "id", VStr i); (u "relevance", VFloat (shown x)); (u "text", VStr t)].
Proof. reflexivity. Qed.

Lemma returned_of_fmap {A B} (f : A -> B) k l : returned_of k (f <$> l) = f <$> returned_of k l.
Proof. destruct k as [k|]; simpl; [|done]. destruct (k =? 0); [done|]. by rewrite fmap_take. Qed.

Lemma enumerate_fmap {A B} (f : A -> B) l : enumerate (f <$> l) = (fun ia => (ia.1, f ia.2)) <$> enumerate l.
Proof.
  unfold enumerate. rewrite length_fmap. generalize (seq 0 (length l)). induction l as [|a l IH]; intros [|n ns]; try done.
  cbn [combine]. rewrite !fmap_cons. cbn [combine fst snd]. f_equal. apply IH.
Qed.

Lemma returned_of_subseteq {A} k (l : list A) a : a ∈ returned_of k l -> a ∈ l.
Proof.
  destruct k as [k|]; simpl; [|done]. destruct (k =? 0); [done|]. rewrite list_elem_of_lookup.
  intros (i & [H _]%lookup_take_Some). by apply list_elem_of_lookup_2 in H.
Qed.

(** jev_rerank sorts only complete answers: when any relevance answer is malformed the whole
    ordering is withheld as [invalid_response]; otherwise [ranked] is the first [top_k] (all of them
    without [top_k]) of an ordering of every candidate with its own validated score, descending, ties
    in the caller's order, ranked from 1. *)
Theorem rerank_orders args ids texts l ev :
  prepare args = Ok (ids, texts, l) ->
  let r := reply args ids texts l ev in
  let items := as_items ids texts in
  (existsb is_none (scores_of texts (answers ev)) = true ->
     get (u "status") (payload r) = vs "invalid_response" /\ get (u "ranked") (payload r) = VNone) /\
  (existsb is_none (scores_of texts (answers ev)) = false -> exists scores ranked,
     scores_of texts (answers ev) = Some <$> scores /\ Forall in_unit scores /\
     get (u "ranked") (payload r) =
       VList ((fun ix => VDict [(u "rank", vnum (S ix.1)); (u "id", VStr (id_of ix.2.2));
                                (u "relevance", VFloat (shown ix.2.1)); (u "text", VStr (text_of ix.2.2))])
                <$> enumerate (returned_of (arg_top_k args) ranked)) /\
     Permutation ranked (combine scores items) /\
     StronglySorted (fun x y => fleb y.1 x.1 = true) ranked /\
     (forall p, List.filter (fun x => feqb x.1 p) ranked = List.filter (fun x => feqb x.1 p) (combine scores items))).
Proof.
  intros Hp r items. apply rerank_prepare_Ok in Hp as [[H2%Forall2_length _]%external_ids_spec Ht].
  set (raw := scores_of texts (answers ev)).
  assert (length items = length raw) as Hlen.
  { unfold items, as_items, raw, scores_of. rewrite !length_fmap, length_combine, length_seq, Ht, length_fmap. lia. }
  split; intros Hex; subst r; cbn [payload reply]; unfold body_of; fold raw; rewrite Hex.
  - split; [apply frame_get; [apply keys_NoDup; reflexivity|done|done|reflexivity]|].
    apply frame_get; [apply keys_NoDup; reflexivity|done|done|reflexivity].
  - pose proof (omap_id_all raw Hex) as Hraw. set (scores := omap id raw) in *.
    assert (length items = length scores) as Hl by (rewrite Hlen, Hraw; apply length_fmap).
    assert (Forall in_unit scores) as Hu.
    { apply Forall_forall. intros x Hx. apply (list_elem_of_fmap_2 Some) in Hx. rewrite <- Hraw in Hx.
      apply list_elem_of_fmap in Hx as (i & Hi & _). by eapply validate_noul_unit. }
    exists scores, (descending (combine scores items)). split_and!; [exact Hraw|exact Hu| |apply descending_perm| |].
    + apply frame_get; [apply keys_NoDup; reflexivity|done|done|].
      transitivity (Some (VList ((fun ic => ranked_row (S ic.1) ic.2) <$>
        enumerate (returned_of (arg_top_k args) (rerank_by_score items scores))))); [reflexivity|]. do 2 f_equal.
      unfold rerank_by_score. rewrite (rerank_scored_combine items scores Hl), returned_of_fmap, enumerate_fmap, <- list_fmap_compose.
      apply list_fmap_ext. intros k [n [x c]] Hk%list_elem_of_lookup_2. cbn [compose fst snd].
      apply (list_elem_of_fmap_2 snd) in Hk. rewrite enumerate_snd in Hk. apply returned_of_subseteq in Hk.
      rewrite descending_perm in Hk. apply list_elem_of_In, in_combine_r, list_elem_of_In in Hk.
      apply list_elem_of_fmap in Hk as ([i t] & -> & _). apply ranked_row_item.
    + apply descending_sorted. apply Forall_forall. intros [x c] Hx. apply list_elem_of_In, in_combine_l, list_elem_of_In in Hx.
      eapply Forall_forall in Hx; [|exact Hu]. by apply in_unit_num.
    + intros p. apply descending_stable.
Qed.

(** ** Witness *)
Definition sample_args : Args :=
  {| arg_query := u "q"; arg_candidates := [[(u "text", u "one")]; [(u "id", u "candidate0"); (u "text", u "two")]];
     arg_top_k := None |}.

Definition sample_answers : dict value := [(u "rel_0", noul_reply 20); (u "rel_1", noul_reply 70)].

Lemma rerank_orders_witness :
  exists ids texts l, prepare sample_args = Ok (ids, texts, l) /\ ids = [u "candidate0_2"; u "candidate0"] /\
    exists scores, scores_of texts sample_answers = Some <$> scores /\ Forall in_unit scores.
Proof.
  destruct (prepare sample_args) as [[[ids texts] l]|e] eqn:Hp; [|by vm_compute in Hp].
  destruct (rerank_orders sample_args ids texts l (sample_evaluation sample_answers) Hp) as [_ Hr].
  exists ids, texts, l. split; [done|].
  assert (ids = [u "candidate0_2"; u "candidate0"] /\ texts = [u "one"; u "two"]) as [Hi Ht].
  { vm_compute in Hp. injection Hp as <- <- _. split; reflexivity. }
  split; [exact Hi|]. subst texts.
  destruct (Hr eq_refl) as (scores & ranked & Hs & Hu & _). by exists scores.
Defined.
