(* ===== verification/Score.v ===== *)
(** * jev_score

    Models [tools/score.py]: a caller's ordered rubric, one score question, and the nearest level. *)
From S2P Require Import Prelude Float64 Text Limits Json Domain Validation Policy Runtime Samples.
Open Scope Z_scope.

Record Args := { arg_subject : text; arg_levels : list text; arg_context : option text }.

(** [ScoreQuestion(...)]: fewer than two levels raise. *)
Definition grade_question (levels : list text) : result exn Question :=
  match new_score_question
    (vs "Where on the ordered rubric does the subject in the state fall, from the lowest to the highest level?")
    (VStr <$> levels) with
  | Ok q => Ok (QScore q)
  | Raise _ => Raise (OtherError (u "Score criteria must list at least two levels."))
  end.

Definition state_of (args : Args) : value :=
  let state := [(u "subject", VStr (arg_subject args)); (u "levels", texts_value (arg_levels args))] in
  VDict match arg_context args with Some c => dset (u "context") (VStr c) state | None => state end.

(** [abs(index - answer.score)]. *)
Definition distance (s : float) (index : nat) : float := fabs (fsub (f_of_Z (Z.of_nat index)) s).

(** [min(range(n), key=...)] for [n > 0]: the first index of the least distance. *)
Definition first_min (key : nat -> float) (first : nat) (rest : list nat) : nat :=
  fold_left (fun best i => if fltb (key i) (key best) then i else best) rest first.

Definition nearest_index (s : float) (level_count : nat) : nat :=
  match seq 0 level_count with i :: rest => first_min (distance s) i rest | [] => 0%nat end.

Definition body_of (args : Args) (answers : dict value) : dict value :=
  match validate_rubric_answer (get (u "grade") answers) (length (arg_levels args)) with
  | None =>
    [(u "levels", texts_value (arg_levels args)); (u "score", VNone); (u "nearest_level", VNone);
     (u "probabilities", VNone); (u "confidence", VNone); (u "status", vs "invalid_response")]
  | Some a =>
    [(u "levels", texts_value (arg_levels args)); (u "score", VFloat (rubric_score a));
     (u "nearest_level", vnum (nearest_index (rubric_score a) (length (arg_levels args))));
     (u "probabilities", probs_value (rubric_probabilities a)); (u "confidence", opt_float (rubric_confidence a));
     (u "status", vs "ok")]
  end.

Definition reply (args : Args) (evaluation : Evaluation) : ToolResult :=
  tool_result (frame (u "jev_score") (Some evaluation) (body_of args (answers evaluation)) None).

Definition handle (args : Args) (rt : Runtime) : M ToolResult :=
  let! grade := mlift (grade_question (arg_levels args)) in
  let! evaluation := ask rt (state_of args) [(u "grade", grade)] in
  mret (reply args evaluation).

(** ** Facts *)
Section FirstMin.
Context (key : nat -> float) (Hnum : forall i, knum (key i)).

(** The result is in the list, no element is strictly closer, and every earlier one is strictly
    farther. *)
Lemma first_min_spec rest : forall pre first,
  Forall (fun j => fltb (key first) (key j) = true) pre ->
  exists before after, pre ++ first :: rest = before ++ first_min key first rest :: after /\
    Forall (fun j => fltb (key (first_min key first rest)) (key j) = true) before /\
    Forall (fun j => fleb (key (first_min key first rest)) (key j) = true) (first_min key first rest :: after).
Proof.
  assert (forall rest pre first mid,
    Forall (fun j => fltb (key first) (key j) = true) pre ->
    Forall (fun j => fleb (key first) (key j) = true) mid ->
    exists before after, pre ++ first :: mid ++ rest = before ++ first_min key first rest :: after /\
      Forall (fun j => fltb (key (first_min key first rest)) (key j) = true) before /\
      Forall (fun j => fleb (key (first_min key first rest)) (key j) = true) (first_min key first rest :: after)) as H.
  { clear rest. induction rest as [|i rest IH]; intros pre first mid Hpre Hmid.
    - exists pre, mid. rewrite app_nil_r. split_and!; [done|done|]. constructor; [by apply fleb_refl|done].
    - unfold first_min. cbn [fold_left]. fold (first_min key (if fltb (key i) (key first) then i else first) rest).
      destruct (fltb (key i) (key first)) eqn:E.
      + destruct (IH (pre ++ first :: mid) i []) as (before & after & Heq & Hb & Ha); [|constructor|].
        * apply Forall_app. split; [eapply Forall_impl; [exact Hpre|]; intros j; by apply fltb_trans|].
          constructor; [done|]. eapply Forall_impl; [exact Hmid|]. intros j Hj. by eapply fltb_fleb_trans.
        * exists before, after. split; [|done]. rewrite <- Heq, <- app_assoc. done.
      + destruct (IH pre first (mid ++ [i])) as (before & after & Heq & Hb & Ha); [done| |].
        * apply Forall_app. split; [done|]. constructor; [|constructor]. by apply fltb_false.
        * exists before, after. split; [|done]. rewrite <- Heq, <- app_assoc. done. }
  intros pre first Hpre. apply (H rest pre first [] Hpre). constructor.
Qed.
End FirstMin.

Lemma distance_num s i : is_finite s = true -> knum (distance s i).
Proof. intros Hs. apply nonneg_num, fabs_nonneg, fsub_num; [apply f_of_Z_num|done]. Qed.

Lemma seq_split n before m after :
  seq 0 n = before ++ m :: after -> before = seq 0 m /\ after = seq (S m) (n - S m) /\ (m < n)%nat.
Proof.
  intros H. assert (length before = m) as Hm.
  { assert (seq 0 n !! length before = Some m) as Hl by (rewrite H; by apply list_lookup_middle).
    apply lookup_seq in Hl as [Hl _]. simpl in Hl. lia. }
  assert (m < n)%nat as Hlt.
  { apply (f_equal length) in H. rewrite length_seq, length_app in H. simpl in H. lia. }
  replace n with (m + (1 + (n - S m)))%nat in H by lia. rewrite !seq_app in H. simpl in H.
  apply app_inj_1 in H as [Hb Ha]; [|rewrite length_seq; lia]. injection Ha as Ha.
  split_and!; [congruence|rewrite <- Ha; f_equal; lia|done].
Qed.

Lemma score_finite n answer a : validate_rubric_answer answer n = Some a -> is_finite (rubric_score a) = true.
Proof.
  unfold validate_rubric_answer. destruct (is_json_object answer) as [d|]; [|done].
  destruct (score_in _ _) as [s|] eqn:Es; [|done].
  destruct (is_json_object (get (u "probabilities") d)) as [raw|]; [|done]. destruct (_ || _); [done|].
  destruct (read_probabilities raw); [|done]. destruct (fgtb _ _); [done|]. intros [= <-]. cbn [rubric_score].
  unfold score_in in Es. destruct (as_number _) as [x|]; [|done].
  destruct (is_finite x) eqn:Ef; [|done]. destruct (_ || _); [done|]. by injection Es as <-.
Qed.

(** jev_score places the subject on the caller's scale or says it cannot: a validated answer has a
    finite score within the scale, a probability for exactly every level, and the nearest level is
    the first level no other is closer than; anything else is [invalid_response]. *)
Theorem score_places args ev :
  wf_value (VDict (answers ev)) ->
  match validate_rubric_answer (get (u "grade") (answers ev)) (length (arg_levels args)) with
  | Some a => exists nearest,
      get (u "score") (payload (reply args ev)) = VFloat (rubric_score a) /\
      get (u "status") (payload (reply args ev)) = vs "ok" /\
      get (u "nearest_level") (payload (reply args ev)) = vnum nearest /\
      fleb f_zero (rubric_score a) = true /\
      fleb (rubric_score a) (f_of_Z (Z.of_nat (length (arg_levels args)) - 1)) = true /\
      (forall k, k ∈ dkeys (rubric_probabilities a) <-> exists i, (i < length (arg_levels args))%nat /\ k = str_of_nat i) /\
      (nearest < length (arg_levels args))%nat /\
      (forall j, (j < length (arg_levels args))%nat ->
         fleb (distance (rubric_score a) nearest) (distance (rubric_score a) j) = true /\
         ((j < nearest)%nat -> fltb (distance (rubric_score a) nearest) (distance (rubric_score a) j) = true))
  | None =>
      get (u "status") (payload (reply args ev)) = vs "invalid_response" /\
      get (u "score") (payload (reply args ev)) = VNone
  end.
Proof.
  intros Hwf. set (n := length (arg_levels args)). cbn [payload reply tool_result].
  destruct (validate_rubric_answer _ _) as [a|] eqn:Ea.
  - destruct (validate_rubric_answer_sound _ n a (get_wf _ _ Hwf) Ea) as (H0 & Htop & _ & Hkeys & _).
    pose proof (score_finite n _ a Ea) as Hfin. exists (nearest_index (rubric_score a) n).
    assert (n <> 0%nat) as Hn.
    { intros Hz. rewrite Hz in Htop. pose proof (fleb_trans _ _ _ H0 Htop) as H. by vm_compute in H. }
    assert (exists before after, seq 0 n = before ++ nearest_index (rubric_score a) n :: after /\
      Forall (fun j => fltb (distance (rubric_score a) (nearest_index (rubric_score a) n)) (distance (rubric_score a) j) = true) before /\
      Forall (fun j => fleb (distance (rubric_score a) (nearest_index (rubric_score a) n)) (distance (rubric_score a) j) = true)
        (nearest_index (rubric_score a) n :: after)) as (before & after & Heq & Hb & Ha).
    { unfold nearest_index. destruct (seq 0 n) as [|i rest] eqn:Es; [by destruct n|].
      apply (first_min_spec (distance (rubric_score a)) (fun i => distance_num _ i Hfin) rest [] i). constructor. }
    destruct (seq_split _ _ _ _ Heq) as (Hbefore & Hafter & Hlt).
    unfold body_of. fold n. rewrite Ea.
    split_and!; try (apply frame_get; [apply keys_NoDup; reflexivity|done|done|reflexivity]); try done.
    intros j Hj. assert (j ∈ seq 0 n) as Hin by (apply elem_of_seq; lia). rewrite Heq in Hin.
    apply elem_of_app in Hin as [Hin|Hin].
    + eapply Forall_forall in Hin; [|exact Hb]. split; [by apply fltb_fleb|done].
    + eapply Forall_forall in Hin as Hle; [|exact Ha]. split; [done|]. intros Hjn. exfalso.
      apply elem_of_cons in Hin as [->|Hin]; [lia|]. rewrite Hafter in Hin. apply elem_of_seq in Hin. lia.
  - unfold body_of. fold n. rewrite Ea.
    split; (apply frame_get; [apply keys_NoDup; reflexivity|done|done|reflexivity]).
Qed.

(** ** Witness *)
Definition sample_args : Args :=
  {| arg_subject := u "s"; arg_levels := [u "low"; u "mid"; u "high"]; arg_context := None |}.

Definition sample_answers : dict value :=
  [(u "grade", VDict [(u "score", percent 150); (u "confidence", percent 90);
     (u "probabilities", VDict [(u "0", percent 10); (u "1", percent 30); (u "2", percent 60)])])].

(** Halfway between two levels, the lower one is nearest. *)
Example sample_nearest :
  get (u "nearest_level") (payload (reply sample_args (sample_evaluation sample_answers))) = vnum 1.
Proof. vm_compute. reflexivity. Qed.

Lemma score_places_witness : exists nearest,
  wf_value (VDict sample_answers) /\ (nearest < 3)%nat /\
  get (u "nearest_level") (payload (reply sample_args (sample_evaluation sample_answers))) = vnum nearest.
Proof.
  assert (wf_value (VDict sample_answers)) as Hwf by (apply wf_check_sound; vm_compute; reflexivity).
  pose proof (score_places sample_args (sample_evaluation sample_answers) Hwf) as H.
  destruct (validate_rubric_answer _ _) as [a|] eqn:E; [|exfalso; vm_compute in E; discriminate].
  destruct H as (n & _ & _ & Hn & _ & _ & _ & Hlt & _). exists n. split; [exact Hwf|]. split; [exact Hlt|exact Hn].
Defined.
