(* ===== verification/Matching.v ===== *)
(** * Candidate matching

    Models [extract/executor.py] and [extract/candidates.py]: the scan of [match_all], the execution
    port and its in-process adapter, the flag normalisation and one field's candidate pipeline.

    Python's [re] is a parameter: [search us position] is the span [compiled.search] finds.  The
    dialect translation and the port's other adapter (worker processes) are parameters too; what a
    client may rely on is the class [ExecutorLaws], which the in-process adapter satisfies. *)
From S2P Require Import Prelude Text Limits.
Open Scope Z_scope.

Record Translated := { source : text; flags : Z }.

Inductive Unavailable := NO_RESULT | NOT_STARTED.

(** Candidates are unit-space strings. *)
Inductive MatchResult :=
| Matches (candidates : list (list Z)) (truncated : bool) (too_long : Z)
| Timeout
| Saturated
| Invalid (cause : Unavailable).

(** ** match_all *)
Section MatchAll.
Context (search : list Z -> nat -> option (nat * nat)) (units : list Z).

Definition slice (start stop : nat) : list Z := take (stop - start) (drop start units).

(** [position = end if end > start else end + 1]. *)
Definition next_position (start stop : nat) : nat := if (start <? stop)%nat then stop else S stop.

Record Scan := { seen : gset (list Z); kept : list (list Z); skipped : Z }.

(** One iteration after a match: go on with the state, or stop because the cap is reached. *)
Definition visit (max_candidates max_units : Z) (s : Scan) (v : list Z) : Scan + unit :=
  if bool_decide (v = []) || bool_decide (v ∈ seen s) then inl s
  else
    let seen' := {[v]} ∪ seen s in
    if max_units <? Z.of_nat (length v)
    then inl {| seen := seen'; kept := kept s; skipped := skipped s + 1 |}
    else if max_candidates <=? Z.of_nat (length (kept s)) then inr tt
    else inl {| seen := seen'; kept := kept s ++ [v]; skipped := skipped s |}.

(** [None] when the fuel runs out, which [match_all_total] excludes for the fuel [match_all] passes. *)
Fixpoint match_loop (fuel : nat) (max_candidates max_units : Z) (position : nat) (s : Scan) : option MatchResult :=
  match fuel with
  | O => None
  | S fuel' =>
    if (length units <? position)%nat then Some (Matches (kept s) false (skipped s))
    else
      match search units position with
      | None => Some (Matches (kept s) false (skipped s))
      | Some (start, stop) =>
        match visit max_candidates max_units s (slice start stop) with
        | inl s' => match_loop fuel' max_candidates max_units (next_position start stop) s'
        | inr _ => Some (Matches (kept s) true (skipped s))
        end
      end
  end.

(** Every iteration moves the position on, so one more than the positions is enough fuel. *)
Definition match_all (max_candidates max_units : Z) : option MatchResult :=
  match_loop (S (S (length units))) max_candidates max_units 0 {| seen := ∅; kept := []; skipped := 0 |}.

(** ** The reference pipeline

    The values of all matches in scan order; then drop the empty ones, keep the first of equal ones,
    keep those short enough, and cut at the cap. *)
Fixpoint all_values (fuel : nat) (position : nat) : list (list Z) :=
  match fuel with
  | O => []
  | S fuel' =>
    if (length units <? position)%nat then []
    else
      match search units position with
      | None => []
      | Some (start, stop) => slice start stop :: all_values fuel' (next_position start stop)
      end
  end.
End MatchAll.

Fixpoint dedup (seen : gset (list Z)) (vs : list (list Z)) : list (list Z) :=
  match vs with
  | [] => []
  | v :: vs' => if bool_decide (v ∈ seen) then dedup seen vs' else v :: dedup ({[v]} ∪ seen) vs'
  end.

Definition values_of (search : list Z -> nat -> option (nat * nat)) (units : list Z) : list (list Z) :=
  dedup ∅ (List.filter (fun v => negb (bool_decide (v = []))) (all_values search units (S (S (length units))) 0)).

Definition fits (max_units : Z) (v : list Z) : bool := Z.of_nat (length v) <=? max_units.

(** ** The execution port *)

(** The documented span of [Pattern.search(string, pos)]: found at or after [pos], inside the string. *)
Definition search_spans (search : list Z -> nat -> option (nat * nat)) : Prop :=
  forall us pos start stop, search us pos = Some (start, stop) ->
    (pos <= start <= stop)%nat /\ (stop <= length us)%nat.

(** [find n pattern units]: the answer to the [n]-th call. *)
Class RegexExecutor := { find : nat -> Translated -> list Z -> MatchResult }.

(** A kept candidate is a short, non-empty substring. *)
Definition candidate_of (units v : list Z) : Prop :=
  v <> [] /\ Z.of_nat (length v) <= ext_candidate_units EXTRACT /\ exists pre post, units = pre ++ v ++ post.

(** What every adapter promises to its clients. *)
Class ExecutorLaws (E : RegexExecutor) : Prop := {
  find_candidates_of n p units cs truncated too_long :
    find n p units = Matches cs truncated too_long ->
    Forall (candidate_of units) cs /\ NoDup cs /\
    Z.of_nat (length cs) <= ext_candidates_per_field EXTRACT /\ 0 <= too_long }.

(** [InProcessRegexExecutor.find]: [compile] is [re.compile], [None] for [re.error]; [before] and
    [after] say whether the clock had reached the deadline before and after the run. *)
Section InProcess.
Context (compile : Translated -> option (list Z -> nat -> option (nat * nat))) (before after : nat -> bool).

Definition in_process_find (n : nat) (p : Translated) (units : list Z) : MatchResult :=
  if before n then Timeout
  else
    match compile p with
    | None => Invalid NO_RESULT
    | Some search =>
      match match_all search units (ext_candidates_per_field EXTRACT) (ext_candidate_units EXTRACT) with
      | None => Invalid NO_RESULT
      | Some matches => if after n then Timeout else matches
      end
    end.

#[export] Instance in_process : RegexExecutor := {| find := in_process_find |}.
End InProcess.

(** ** find_candidates *)
Inductive Outcome := Rejected | OutSaturated | OutTimeout | WorkerError.

Record Found := { found_candidates : list text; found_truncated : bool; found_too_long : Z }.
Inductive FieldMatch := IsFound (f : Found) | Refused (outcome : Outcome) (reason : text).

Definition REGEX_TIMEOUT_REASON : text :=
  u "regex timed out after " ++ str_of_Z (ext_regex_timeout_ms EXTRACT) ++ u "ms; simplify the pattern".
Definition REGEX_POOL_SATURATED_REASON : text := u "regex_pool_saturated".

Definition unavailable_reason (c : Unavailable) : text :=
  match c with
  | NO_RESULT => u "regex worker exited without a result"
  | NOT_STARTED => u "regex worker did not start"
  end.

Definition is_lower (c : Z) : bool := (97 <=? c) && (c <=? 122).

(** The loop that drops a [g] after a [g]. *)
Fixpoint squeeze_g (last_g : bool) (t : text) : text :=
  match t with
  | [] => []
  | c :: t' => if (c =? 103) && last_g then squeeze_g true t' else c :: squeeze_g (c =? 103) t'
  end.

Definition normalize_flags (flags : text) : text :=
  squeeze_g false (List.filter is_lower flags ++ u "g").

(** [translate pattern flags] is [dialect.translate]: a translated pattern, or the rejection's text. *)
Definition find_candidates `{RegexExecutor} (translate : text -> text -> result text Translated)
    (n : nat) (pattern flags : text) (units : list Z) : FieldMatch :=
  match translate pattern (normalize_flags flags) with
  | Raise reason => Refused Rejected reason
  | Ok translated =>
    match find n translated units with
    | Matches cs truncated too_long =>
      IsFound {| found_candidates := Utf16.from_units <$> cs; found_truncated := truncated; found_too_long := too_long |}
    | Saturated => Refused OutSaturated REGEX_POOL_SATURATED_REASON
    | Timeout => Refused OutTimeout REGEX_TIMEOUT_REASON
    | Invalid cause => Refused WorkerError (unavailable_reason cause)
    end
  end.

(** ** Facts: the scan *)
Fixpoint process (max_candidates max_units : Z) (s : Scan) (vs : list (list Z)) : MatchResult :=
  match vs with
  | [] => Matches (kept s) false (skipped s)
  | v :: vs' =>
    match visit max_candidates max_units s v with
    | inl s' => process max_candidates max_units s' vs'
    | inr _ => Matches (kept s) true (skipped s)
    end
  end.

Lemma next_position_bounds search units pos start stop :
  search_spans search -> search units pos = Some (start, stop) ->
  (pos < next_position start stop <= S (length units))%nat.
Proof.
  intros Hs H. destruct (Hs _ _ _ _ H) as [[? ?] ?]. unfold next_position.
  destruct (start <? stop)%nat eqn:E; [apply Nat.ltb_lt in E|apply Nat.ltb_ge in E]; lia.
Qed.

Lemma match_loop_process search units mc mu fuel pos s :
  search_spans search -> (pos <= S (length units))%nat -> (S (S (length units)) <= pos + fuel)%nat ->
  match_loop search units fuel mc mu pos s = Some (process mc mu s (all_values search units fuel pos)).
Proof.
  intros Hs. revert pos s. induction fuel as [|fuel IH]; intros pos s Hpos Hfuel; [lia|].
  cbn [match_loop all_values]. destruct (length units <? pos)%nat eqn:El; [done|].
  destruct (search units pos) as [[start stop]|] eqn:Es; [|done]. cbn [process].
  pose proof (next_position_bounds search units pos start stop Hs Es) as Hn.
  destruct (visit mc mu s (slice units start stop)) as [s'|]; [|done]. apply IH; lia.
Qed.

Lemma dedup_spec sn vs :
  NoDup (dedup sn vs) /\ (forall v, v ∈ dedup sn vs <-> v ∈ vs /\ v ∉ sn).
Proof.
  revert sn. induction vs as [|v vs IH]; intros sn; cbn [dedup].
  - split; [constructor|]. set_solver.
  - case_bool_decide as Hv.
    + destruct (IH sn) as [Hnd Hin]. split; [done|]. intros w. rewrite Hin. set_solver.
    + destruct (IH ({[v]} ∪ sn)) as [Hnd Hin]. split.
      * apply NoDup_cons. split; [rewrite Hin; set_solver|done].
      * intros w. rewrite elem_of_cons, Hin, elem_of_cons. destruct (decide (w = v)); set_solver.
Qed.

(** The values still to be taken from [vs] in state [s]. *)
Definition pending (s : Scan) (vs : list (list Z)) : list (list Z) :=
  dedup (seen s) (List.filter (fun v => negb (bool_decide (v = []))) vs).

Lemma process_spec mc mu vs : forall s,
  Z.of_nat (length (kept s)) <= mc -> 0 <= skipped s ->
  let short := List.filter (fits mu) (pending s vs) in
  let long := count_if (fun v => negb (fits mu v)) (pending s vs) in
  exists tl, process mc mu s vs =
    Matches (kept s ++ take (Z.to_nat mc - length (kept s)) short)
            (mc <? Z.of_nat (length (kept s) + length short)) tl /\
    skipped s <= tl <= skipped s + long /\
    (Z.of_nat (length (kept s) + length short) <= mc -> tl = skipped s + long).
Proof.
  induction vs as [|v vs IH]; intros s Hk Hsk; cbn [process].
  - exists (skipped s). cbn. rewrite take_nil, app_nil_r, Nat.add_0_r, (proj2 (Z.ltb_ge _ _)) by lia.
    unfold count_if. cbn. split_and!; [done|lia|lia|lia].
  - unfold visit. destruct (decide (v = [])) as [->|Hne].
    { rewrite bool_decide_eq_true_2 by done. cbn [orb]. apply (IH s Hk Hsk). }
    rewrite bool_decide_eq_false_2 by done. cbn [orb].
    assert (forall s', pending s' (v :: vs) = if bool_decide (v ∈ seen s') then pending s' vs
              else v :: dedup ({[v]} ∪ seen s') (List.filter (fun v => negb (bool_decide (v = []))) vs)) as Hpend.
    { intros s'. unfold pending. cbn [List.filter]. by rewrite (bool_decide_eq_false_2 (v = [])) by done. }
    rewrite Hpend. destruct (decide (v ∈ seen s)) as [Hin|Hin].
    { rewrite bool_decide_eq_true_2 by done. apply (IH s Hk Hsk). }
    rewrite bool_decide_eq_false_2 by done. cbn [List.filter]. unfold count_if. cbn [List.filter].
    destruct (mu <? Z.of_nat (length v)) eqn:El.
    + assert (fits mu v = false) as -> by (unfold fits; lia). cbn [negb length].
      destruct (IH {| seen := {[v]} ∪ seen s; kept := kept s; skipped := skipped s + 1 |} Hk ltac:(cbn; lia))
        as (tl & Hp & Hb & Heq). cbn [kept skipped seen] in *. unfold pending, count_if in *. cbn [seen] in *.
      exists tl. split; [exact Hp|]. split; [lia|]. intros H. rewrite (Heq H). lia.
    + assert (fits mu v = true) as -> by (unfold fits; lia). cbn [negb length].
      destruct (mc <=? Z.of_nat (length (kept s))) eqn:Ec.
      * exists (skipped s). assert (Z.to_nat mc - length (kept s) = 0)%nat as -> by lia.
        cbn [take]. rewrite app_nil_r. rewrite (proj2 (Z.ltb_lt _ _)) by lia. split_and!; [done|lia|lia|lia].
      * destruct (IH {| seen := {[v]} ∪ seen s; kept := kept s ++ [v]; skipped := skipped s |}) as (tl & Hp & Hb & Heq);
          [cbn; rewrite length_app; cbn; lia|exact Hsk|].
        cbn [kept skipped seen] in *. unfold pending, count_if in *. cbn [seen] in *.
        rewrite length_app in *. cbn [length] in *. exists tl. split_and!; [|lia|lia|].
        -- rewrite Hp. f_equal.
           ++ replace (Z.to_nat mc - length (kept s))%nat with (S (Z.to_nat mc - (length (kept s) + 1)))%nat by lia.
              cbn [take]. by rewrite <- app_assoc.
           ++ f_equal. lia.
        -- intros H. apply Heq. lia.
Qed.

(** The scan returns: what it keeps, cuts and skips. *)
Lemma match_all_returns search units mc mu :
  search_spans search -> 0 <= mc ->
  exists tl, match_all search units mc mu =
      Some (Matches (take (Z.to_nat mc) (List.filter (fits mu) (values_of search units)))
              (mc <? Z.of_nat (length (List.filter (fits mu) (values_of search units)))) tl) /\
    0 <= tl <= count_if (fun v => negb (fits mu v)) (values_of search units) /\
    (Z.of_nat (length (List.filter (fits mu) (values_of search units))) <= mc ->
     tl = count_if (fun v => negb (fits mu v)) (values_of search units)).
Proof.
  intros Hs Hm. unfold match_all. rewrite match_loop_process by (try done; lia).
  destruct (process_spec mc mu (all_values search units (S (S (length units))) 0)
    {| seen := ∅; kept := []; skipped := 0 |}) as (tl & Hp & Hb & Heq); [cbn; lia|done|].
  cbn [kept skipped] in *. rewrite Hp, Nat.sub_0_r. by exists tl.
Qed.

(** The scan over a pattern's matches terminates and is the documented pipeline: with a matcher
    whose spans lie at or after the asked position, [match_all] returns; the candidates are the first
    [max_candidates] of the values that are non-empty, first of their kind and within the unit cap,
    in match order; [truncated] says that there were more; and when nothing was cut, every value that
    is too long was counted. *)
Theorem match_all_refines search units max_candidates max_units :
  search_spans search -> 0 <= max_candidates ->
  let short := List.filter (fits max_units) (values_of search units) in
  let long := count_if (fun v => negb (fits max_units v)) (values_of search units) in
  exists too_long,
    match_all search units max_candidates max_units =
      Some (Matches (take (Z.to_nat max_candidates) short) (max_candidates <? Z.of_nat (length short)) too_long) /\
    0 <= too_long <= long /\ (Z.of_nat (length short) <= max_candidates -> too_long = long).
Proof.
  intros Hs Hm short long. by apply match_all_returns.
Qed.

(** ** The in-process adapter keeps the port's promises *)
Lemma all_values_infix search units fuel pos v :
  v ∈ all_values search units fuel pos -> exists pre post, units = pre ++ v ++ post.
Proof.
  revert pos. induction fuel as [|fuel IH]; intros pos; cbn [all_values]; [by intros ?%elem_of_nil|].
  destruct (length units <? pos)%nat; [by intros ?%elem_of_nil|].
  destruct (search units pos) as [[start stop]|]; [|by intros ?%elem_of_nil].
  intros [->|Hin]%elem_of_cons; [|by eapply IH]. unfold slice.
  exists (take start units), (drop (stop - start) (drop start units)). by rewrite take_drop, take_drop.
Qed.

Lemma values_of_elem search units v :
  v ∈ values_of search units -> v <> [] /\ exists pre post, units = pre ++ v ++ post.
Proof.
  unfold values_of. rewrite (proj2 (dedup_spec _ _)). intros [Hin _].
  apply list_elem_of_In, List.filter_In in Hin as [Hin Hv]. apply list_elem_of_In in Hin.
  split; [|by eapply all_values_infix]. apply negb_true_iff in Hv. by apply bool_decide_eq_false_1 in Hv.
Qed.

Lemma NoDup_filter {A} (p : A -> bool) l : NoDup l -> NoDup (List.filter p l).
Proof.
  induction l as [|a l IH]; [done|]. intros [Hni Hnd]%NoDup_cons. simpl. destruct (p a); [|by apply IH].
  apply NoDup_cons. split; [|by apply IH]. intros Hin. apply Hni.
  apply list_elem_of_In, List.filter_In in Hin as [Hin _]. by apply list_elem_of_In.
Qed.

#[export] Instance in_process_laws compile before after :
  (forall p search, compile p = Some search -> search_spans search) ->
  ExecutorLaws (in_process compile before after).
Proof.
  intros Hc. constructor. intros n p units cs tr tl. unfold find, in_process, in_process_find.
  destruct (before n); [done|]. destruct (compile p) as [search|] eqn:Ep; [|done].
  destruct (match_all_returns search units (ext_candidates_per_field EXTRACT) (ext_candidate_units EXTRACT)
              (Hc _ _ Ep) ltac:(done)) as (tl' & -> & Htl & _).
  destruct (after n); [done|]. intros [= <- <- <-].
  assert (NoDup (values_of search units)) as Hnd by apply dedup_spec.
  split_and!.
  - apply Forall_forall. intros v Hv. apply list_elem_of_lookup in Hv as [i Hi].
    apply lookup_take_Some in Hi as [Hi _]. apply list_elem_of_lookup_2 in Hi.
    apply list_elem_of_In, List.filter_In in Hi as [Hin Hf]. apply list_elem_of_In, values_of_elem in Hin as [Hne Hinf].
    split; [done|]. split; [|done]. unfold fits in Hf. by apply Z.leb_le.
  - eapply sublist_NoDup; [apply (NoDup_filter (fits (ext_candidate_units EXTRACT))), Hnd|apply sublist_take].
  - rewrite length_take. cbn [ext_candidates_per_field EXTRACT]. lia.
  - lia.
Qed.

(** ** find_candidates *)

(** A found candidate, in the caller's text. *)
Definition verbatim (units : list Z) (c : text) : Prop :=
  exists v, c = Utf16.from_units v /\ candidate_of units v.

Lemma find_candidates_verbatim {E : RegexExecutor} `{!ExecutorLaws E} translate n pattern flags units f :
  find_candidates translate n pattern flags units = IsFound f ->
  Forall (verbatim units) (found_candidates f) /\
  Z.of_nat (length (found_candidates f)) <= ext_candidates_per_field EXTRACT /\ 0 <= found_too_long f.
Proof.
  unfold find_candidates. destruct (translate _ _) as [p|]; [|done].
  destruct (find n p units) as [cs tr tl| | |] eqn:Ef; try done. intros [= <-]. cbn [found_candidates found_too_long].
  apply find_candidates_of in Ef as (Hall & _ & Hlen & Htl). split_and!; [|by rewrite length_fmap|done].
  apply Forall_fmap. eapply Forall_impl; [exact Hall|]. intros v Hv. by exists v.
Qed.

(** The flags handed to the translation are letters, end a scan for [g] at one [g] per run, and are
    never without a [g]. *)
Lemma squeeze_g_spec last t :
  Forall (fun c => is_lower c = true) t ->
  Forall (fun c => is_lower c = true) (squeeze_g last t) /\
  (103 ∈ t -> last = true \/ 103 ∈ squeeze_g last t).
Proof.
  revert last. induction t as [|c t IH]; intros last; cbn [squeeze_g]; [split; [constructor|set_solver]|].
  intros [Hc Ht]%Forall_cons. destruct (c =? 103) eqn:E.
  - destruct last; cbn [andb].
    + destruct (IH true Ht) as [H1 _]. split; [done|]. by left.
    + destruct (IH true Ht) as [H1 _]. split; [by constructor|]. intros _. right. apply Z.eqb_eq in E as ->. left.
  - cbn [andb]. destruct (IH false Ht) as [H1 H2]. split; [by constructor|].
    intros [Heq|Hin]%elem_of_cons; [apply Z.eqb_neq in E; congruence|]. right. right. by destruct (H2 Hin).
Qed.

Lemma normalize_flags_global flags :
  Forall (fun c => is_lower c = true) (normalize_flags flags) /\ 103 ∈ normalize_flags flags.
Proof.
  destruct (squeeze_g_spec false (List.filter is_lower flags ++ u "g")) as [H1 H2].
  { apply Forall_app. split; [|by repeat constructor]. apply Forall_forall. intros c Hc.
    by apply list_elem_of_In, List.filter_In in Hc as [_ ?]. }
  split; [exact H1|]. destruct H2 as [Hf|H2]; [|done|exact H2]. apply elem_of_app. right. left.
Qed.

(** ** A concrete matcher: single digits *)
Fixpoint digit_from (us : list Z) (i : nat) : option nat :=
  match us with
  | [] => None
  | c :: us' => if is_digit c then Some i else digit_from us' (S i)
  end.

Definition digit_search (us : list Z) (pos : nat) : option (nat * nat) :=
  match digit_from (drop pos us) pos with Some i => Some (i, S i) | None => None end.

Lemma digit_from_bounds us i k : digit_from us i = Some k -> (i <= k < i + length us)%nat.
Proof.
  revert i. induction us as [|c us IH]; intros i; cbn [digit_from]; [done|].
  destruct (is_digit c); [intros [= ->]; simpl; lia|]. intros H%IH. simpl. lia.
Qed.

Lemma digit_search_spans : search_spans digit_search.
Proof.
  intros us pos start stop. unfold digit_search. destruct (digit_from _ _) as [i|] eqn:E; [|done].
  intros [= <- <-]. apply digit_from_bounds in E. rewrite length_drop in E. lia.
Qed.

(** The third distinct digit is over the cap of two. *)
Lemma match_all_refines_witness :
  match_all digit_search (u "a1b22c3") 2 2000 = Some (Matches [u "1"; u "2"] true 0).
Proof.
  destruct (match_all_refines digit_search (u "a1b22c3") 2 2000 digit_search_spans ltac:(done)) as (tl & H & Hb & _).
  rewrite H. assert (0 <= tl <= 0) as Hz by exact Hb. assert (tl = 0) as -> by lia. vm_compute. reflexivity.
Defined.

#[export] Instance digit_executor : RegexExecutor :=
  in_process (fun _ => Some digit_search) (fun _ => false) (fun _ => false).

#[export] Instance digit_executor_laws : ExecutorLaws digit_executor.
Proof. apply in_process_laws. intros p search [= <-]. apply digit_search_spans. Qed.
