(* ===== verification/Extract.v ===== *)
(** * jev_extract

    Models [tools/extract.py]: candidates found per field in the caller's order, one choice per field
    that has any, the row of each field, and the two headlines.  The dialect translation and the
    regex executor are parameters ([Matching.find_candidates]). *)
From S2P Require Import Prelude Float64 Text Limits Json Domain Serialize Ids Caps Validation Policy Responses Runtime.
From S2P Require Import Samples ReviewHalf.
From S2P Require Import Matching.
Open Scope Z_scope.

Definition NONE_OF_THEM : text := u "none_of_them".

(** The schema requires [id], [pattern] and [description] of every field. *)
Record RawField := { rf_id : text; rf_pattern : text; rf_description : text; rf_flags : option text }.

Record Args := {
  arg_document : text; arg_fields : list RawField; arg_purpose : option text;
  arg_auto_accept : option float; arg_minimum_margin : option float }.

Definition accept_of (args : Args) : float := or_else (arg_auto_accept args) DEFAULT_CLASSIFY_AUTO_ACCEPT.
Definition margin_of (args : Args) : float := or_else (arg_minimum_margin args) DEFAULT_MINIMUM_MARGIN.

(** ** _Field and _match *)
Record Field := {
  field_id : text; field_key : text; field_pattern : text; field_description : text;
  field_candidates : list text; field_too_long : Z; field_truncated : bool; field_error : option text }.

Definition field_flags (f : Field) : dict value :=
  [(u "candidates_truncated", VBool (field_truncated f)); (u "matches_skipped_too_long", VInt (field_too_long f))].

Definition field_of_match (index : nat) (raw : RawField) (m : FieldMatch) : Field :=
  let '(cs, tl, tr, err) :=
    match m with
    | Refused _ reason => ([], 0, false, Some reason)
    | IsFound f => (found_candidates f, found_too_long f, found_truncated f, None)
    end in
  {| field_id := rf_id raw; field_key := u "f" ++ str_of_nat index; field_pattern := rf_pattern raw;
     field_description := rf_description raw; field_candidates := cs; field_too_long := tl;
     field_truncated := tr; field_error := err |}.

(** ** _result *)
Definition candidate_key (j : nat) : text := u "c" ++ str_of_nat j.

Definition keys_of (f : Field) : list text :=
  (candidate_key <$> seq 0 (length (field_candidates f))) ++ [NONE_OF_THEM].

(** [field.candidates[int(validated.choice[1:])]]: a validated choice other than [NONE_OF_THEM] is
    [c] and an index in range ([chosen_candidate]). *)
Definition candidate_at (f : Field) (choice : text) : text :=
  or_else (field_candidates f !! Z.to_nat (int_of_digits (drop 1 choice))) [].

Definition reason_value (r : option ExtractReasonCode) : value :=
  match r with Some r => VStr (extract_reason_text r) | None => VNone end.

Definition field_evidence (f : Field) (j : option ExtractJudgment) : ExtractFieldEvidence :=
  {| too_long := field_too_long f; truncated := field_truncated f; judgment := j |}.

(** A row without a judgment: no value, and nothing was considered. *)
Definition unasked_row (f : Field) (status : text) (reason : value) (considered : Z) : dict value :=
  [(u "id", VStr (field_id f)); (u "value", VNone); (u "status", VStr status); (u "reason", reason);
   (u "candidates_considered", VInt considered)] ++ field_flags f.

Definition judged_row (f : Field) (a : ChoiceAnswer) (auto_accept minimum_margin : float) : dict value :=
  let gap := margin (Some (probabilities a)) in
  let top := top_probability a in
  let none_matched := bool_decide (choice a = NONE_OF_THEM) in
  let decision := decide_extract_field
    (field_evidence f (Some {| none_matched := none_matched; judged_top := top; judged_gap := gap |}))
    auto_accept minimum_margin in
  [(u "id", VStr (field_id f));
   (u "value", if none_matched then VNone else VStr (candidate_at f (choice a)));
   (u "status", VStr (status_text (status decision))); (u "reason", reason_value (reason decision));
   (u "confidence", opt_float (confidence a)); (u "top_probability", VFloat top); (u "margin", VFloat gap);
   (u "candidates_considered", vnum (length (field_candidates f)))] ++ field_flags f.

Definition field_row (f : Field) (answer : value) (auto_accept minimum_margin : float) : dict value :=
  match field_error f with
  | Some e => unasked_row f (u "invalid_pattern") (VStr e) 0
  | None =>
    match field_candidates f with
    | [] =>
      let decision := decide_extract_field (field_evidence f None) auto_accept minimum_margin in
      unasked_row f (status_text (status decision)) (reason_value (reason decision)) 0
    | _ =>
      match validate_extract_choice answer (keys_of f) with
      | None => unasked_row f (u "invalid_response") VNone (Z.of_nat (length (field_candidates f)))
      | Some a => judged_row f a auto_accept minimum_margin
      end
    end
  end.

(** ** The request *)
Definition is_asked (f : Field) : bool := is_none (field_error f) && negb (bool_decide (field_candidates f = [])).

Definition field_criteria (f : Field) : dict value :=
  dset NONE_OF_THEM (vs "None of the candidates is the value this field asks for")
    (fold_left (fun d jc => dset (candidate_key jc.1) (VStr (u "Candidate value: " ++ quote jc.2)) d)
       (enumerate (field_candidates f)) []).

Definition field_question (f : Field) : Question :=
  choice_question
    (u "Which candidate is the correct value of the field " ++ dq ++ field_id f ++ dq ++ u " (" ++ field_description f
     ++ u ") in the document in the state? Pick the exact substring the document presents as this field's value.")
    (field_criteria f).

Definition questions_of (fields : list Field) : dict Question :=
  fold_left (fun d f => dset (field_key f) (field_question f) d) (List.filter is_asked fields) [].

Definition state_of (args : Args) (document : text) (fields : list Field) : value := VDict
  [(u "purpose", opt_text (arg_purpose args)); (u "document", VStr document);
   (u "fields", VList ((fun f => VDict [(u "id", VStr (field_key f)); (u "description", VStr (field_description f));
                                        (u "pattern", VStr (field_pattern f))]) <$> List.filter is_asked fields))].

(** ** handle *)
Fixpoint check_field_ids (seen : gset text) (fields : list RawField) : result exn unit :=
  match fields with
  | [] => Ok tt
  | f :: fields' =>
    if bool_decide (rf_id f ∈ seen)
    then Raise (ToolError (u "Duplicate field id: " ++ rf_id f) (u "invalid_arguments"))
    else check_field_ids ({[rf_id f]} ∪ seen) fields'
  end.

Definition row_status (r : dict value) : value := get (u "status") r.
Definition status_is (s : string) (r : dict value) : bool := is_str (u s) (row_status r).

Definition summary (results : list (dict value)) : dict value :=
  [(u "fields", vnum (length results));
   (u "extracted", VInt (count_if (fun r => match get (u "value") r with VNone => false | _ => true end) results));
   (u "auto", VInt (count_if (status_is "auto") results));
   (u "review", VInt (count_if (status_is "review") results));
   (u "not_found", VInt (count_if (status_is "not_found") results));
   (u "invalid", VInt (count_if (fun r => status_is "invalid_pattern" r || status_is "invalid_response" r) results))].

Definition is_incomplete (f : Field) : bool := field_truncated f || (0 <? field_too_long f).

Definition headlines_of (results : list (dict value)) (item_actions : list Action) : ExtractHeadlines :=
  {| item_action := headline item_actions; call_action := extract_call_action (row_status <$> results) |}.

Definition total_candidate_units (fields : list Field) : Z :=
  sum_over (fun f => sum_over Utf16.length (field_candidates f)) fields.

Section Handler.
Context {E : RegexExecutor} (translate : text -> text -> result text Translated).

Definition document_of (args : Args) : text * ledger :=
  ledger_text (arg_document args) (ext_document_max EXTRACT) ScopeContext new_ledger.

Definition fields_of (args : Args) : list Field :=
  let units := Utf16.to_units (document_of args).1 in
  (fun ir => field_of_match ir.1 ir.2
               (find_candidates translate ir.1 (rf_pattern ir.2) (or_else (rf_flags ir.2) []) units))
    <$> enumerate (arg_fields args).

Definition prepare (args : Args) : result exn (list Field) :=
  let? _ := check_field_ids ∅ (arg_fields args) in
  let fields := fields_of args in
  if exceeds (total_candidate_units fields) (ext_aggregate_candidate_units EXTRACT)
  then Raise (ToolError (candidate_budget_error (total_candidate_units fields) (ext_aggregate_candidate_units EXTRACT)
                           (u "Tighten the patterns or split the call.")) (u "input_too_large"))
  else Ok fields.

Definition rows_of (args : Args) (fields : list Field) (answers : dict value) : list (dict value) :=
  (fun f => field_row f (get (field_key f) answers) (accept_of args) (margin_of args)) <$> fields.

Definition reply (args : Args) (rt : Runtime) (fields : list Field) (evaluation : option Evaluation) : ToolResult :=
  let ans := match evaluation with Some ev => answers ev | None => [] end in
  let results := rows_of args fields ans in
  let l := (document_of args).2 in
  let l := if existsb is_incomplete fields then ledger_note ScopeContext l else l in
  let item_actions := caller_actions (row_status <$> results) in
  let headlines := headlines_of results item_actions in
  {| payload := frame (u "jev_extract") evaluation
       [(u "summary", VDict (summary results));
        (u "thresholds", VDict [(u "auto_accept", VFloat (accept_of args)); (u "minimum_margin", VFloat (margin_of args))]);
        (u "results", VList (VDict <$> results))] (Some (rt_model rt));
     is_error := false; action := item_action headlines; item_actions := item_actions;
     tr_truncated := scopes l; error_code := None; extract := Some headlines |}.

Definition handle (args : Args) (rt : Runtime) : M ToolResult :=
  let! fields := mlift (prepare args) in
  let! evaluation :=
    match List.filter is_asked fields with
    | [] => mret None
    | _ => let! ev := ask rt (state_of args (document_of args).1 fields) (questions_of fields) in mret (Some ev)
    end in
  mret (reply args rt fields evaluation).
End Handler.

(** ** Facts: rows *)
Lemma chosen_candidate f c :
  c ∈ keys_of f -> c <> NONE_OF_THEM -> exists t, t ∈ field_candidates f /\ candidate_at f c = t.
Proof.
  unfold keys_of. intros [(j & -> & Hj)%list_elem_of_fmap|Hn]%elem_of_app Hne;
    [|by apply list_elem_of_singleton in Hn].
  apply elem_of_seq in Hj. destruct (field_candidates f !! j) as [t|] eqn:Et;
    [|apply lookup_ge_None in Et; lia].
  exists t. split; [by eapply list_elem_of_lookup_2|]. unfold candidate_at, candidate_key.
  change (drop 1 (u "c" ++ str_of_nat j)) with (str_of_nat j). by rewrite int_of_str_of_nat, Nat2Z.id, Et.
Qed.

Lemma row_get k v base flags : dget k base = Some v -> get k (base ++ flags) = v.
Proof.
  unfold get. induction base as [|[k' v'] base IH]; [done|]. cbn [dget app].
  case_bool_decide; [by intros [= ->]|exact IH].
Qed.

(** A row's value is absent or one of its field's candidates, picked by a validated answer. *)
Lemma field_row_value f answer accept mm :
  wf_value answer ->
  get (u "value") (field_row f answer accept mm) = VNone \/
  exists a c, field_error f = None /\ validate_extract_choice answer (keys_of f) = Some a /\
    choice a <> NONE_OF_THEM /\ c = candidate_at f (choice a) /\ c ∈ field_candidates f /\
    get (u "value") (field_row f answer accept mm) = VStr c.
Proof.
  intros Hwf. unfold field_row. destruct (field_error f); [by left|].
  destruct (field_candidates f) as [|c0 cs] eqn:Ec; [by left|]. rewrite <- Ec.
  destruct (validate_extract_choice answer (keys_of f)) as [a|] eqn:Ea; [|by left].
  unfold judged_row. case_bool_decide as Hn; [left; by apply row_get|]. right.
  destruct answer as [| | | | | |d]; try done.
  apply validate_extract_choice_inv in Ea as Hinv; [|done]. destruct Hinv as (raw & _ & _ & _ & HW & _).
  destruct (chosen_candidate f (choice a) (wf_choice _ _ _ _ _ HW) Hn) as (t & Ht & Hat).
  exists a, t. split_and!; [done|done|done|done|done|]. rewrite <- Hat. by apply row_get.
Qed.

(** What makes a row stand: a complete universe and a validated pick at both thresholds. *)
Definition field_stands (f : Field) (answer : value) (accept mm : float) : Prop :=
  field_error f = None /\ is_incomplete f = false /\
  exists a, validate_extract_choice answer (keys_of f) = Some a /\ choice a <> NONE_OF_THEM /\
    fgeb (top_probability a) accept = true /\ fgeb (margin (Some (probabilities a))) mm = true.

Lemma status_text_auto s : status_text s = u "auto" -> s = ExAuto.
Proof. by destruct s. Qed.

Lemma status_text_not_found s : status_text s = u "not_found" -> s = ExNotFound.
Proof. by destruct s. Qed.

Lemma field_row_auto f answer accept mm :
  get (u "status") (field_row f answer accept mm) = VStr (u "auto") -> field_stands f answer accept mm.
Proof.
  unfold field_row, field_stands. destruct (field_error f); [done|].
  destruct (field_candidates f) as [|c0 cs] eqn:Ec.
  - intros H. unfold unasked_row in H. erewrite row_get in H by reflexivity. injection H as H%status_text_auto.
    apply decide_extract_field_auto in H as (_ & j & [=] & _).
  - rewrite <- Ec. destruct (validate_extract_choice answer (keys_of f)) as [a|]; [|done].
    intros H. unfold judged_row in H. erewrite row_get in H by reflexivity. injection H as H%status_text_auto.
    apply decide_extract_field_auto in H as (Hi & j & [= <-] & Hn & H1 & H2).
    split_and!; [done|exact Hi|]. exists a. split_and!; [done| |exact H1|exact H2].
    by apply bool_decide_eq_false_1 in Hn.
Qed.

Lemma field_row_not_found f answer accept mm :
  get (u "status") (field_row f answer accept mm) = VStr (u "not_found") -> is_incomplete f = false.
Proof.
  unfold field_row. destruct (field_error f); [done|].
  destruct (field_candidates f) as [|c0 cs] eqn:Ec.
  - intros H. unfold unasked_row in H. erewrite row_get in H by reflexivity. injection H as H%status_text_not_found.
    by apply decide_extract_field_not_found in H as [Hi _].
  - rewrite <- Ec. destruct (validate_extract_choice answer (keys_of f)) as [a|]; [|done].
    intros H. unfold judged_row in H. erewrite row_get in H by reflexivity. injection H as H%status_text_not_found.
    by apply decide_extract_field_not_found in H as [Hi _].
Qed.

(** ** Properties *)
Section Properties.
Context {E : RegexExecutor} `{!ExecutorLaws E} (translate : text -> text -> result text Translated).

Definition document_units (args : Args) : list Z := Utf16.to_units (document_of args).1.

Lemma field_candidates_verbatim args f :
  f ∈ fields_of translate args -> Forall (verbatim (document_units args)) (field_candidates f).
Proof.
  intros ([i raw] & -> & _)%list_elem_of_fmap. cbn [fst snd]. unfold field_of_match.
  destruct (find_candidates _ _ _ _ _) as [fd|o reason] eqn:Ef; cbn [field_candidates]; [|constructor].
  by apply find_candidates_verbatim in Ef as [? _].
Qed.

Lemma prepare_Ok args fields : prepare translate args = Ok fields -> fields = fields_of translate args.
Proof.
  unfold prepare. intros ([] & _ & H)%rbind_Ok. destruct (exceeds _ _); [done|]. by injection H as <-.
Qed.

(** The result of a completed call: the fields, and the answers the rows were read from. *)
Lemma extract_handle_Ok args rt log r log' :
  handle translate args rt log = (Ok r, log') ->
  let fields := fields_of translate args in
  prepare translate args = Ok fields /\
  ((List.filter is_asked fields = [] /\ log' = log /\ r = reply args rt fields None) \/
   (List.filter is_asked fields <> [] /\ exists ev,
      let rq := {| rq_state := state_of args (document_of args).1 fields; rq_questions := questions_of fields |} in
      rt_ask rt (length log) rq = Ok ev /\ log' = log ++ [rq] /\ r = reply args rt fields (Some ev))).
Proof.
  intros (fields & log1 & Hp & Hh)%mbind_Ok. injection Hp as Hp <-.
  pose proof (prepare_Ok args fields Hp) as ->. split; [done|].
  apply mbind_Ok in Hh as (oev & log2 & Hask & Hret). injection Hret as <- <-.
  destruct (List.filter is_asked (fields_of translate args)) as [|f fs]; [left; by injection Hask as <- <-|right].
  split; [done|]. apply mbind_Ok in Hask as (ev & log3 & [Hask ->]%ask_Ok & Hret). injection Hret as <- <-. by exists ev.
Qed.

Lemma results_get args rt fields oev :
  get (u "results") (payload (reply args rt fields oev)) =
  VList (VDict <$> rows_of args fields (match oev with Some ev => answers ev | None => [] end)).
Proof. apply frame_get; [apply keys_NoDup; reflexivity|done|done|reflexivity]. Qed.

(** The answers a completed call read its rows from: none when nothing was asked, else those of the
    provider's reply to the call's one request. *)
Definition answered (args : Args) (rt : Runtime) (log log' : Log) (ans : dict value) : Prop :=
  let fields := fields_of translate args in
  (List.filter is_asked fields = [] /\ log' = log /\ ans = []) \/
  exists ev, let rq := {| rq_state := state_of args (document_of args).1 fields; rq_questions := questions_of fields |} in
    rt_ask rt (length log) rq = Ok ev /\ log' = log ++ [rq] /\ ans = answers ev.

Lemma handle_answered args rt log r log' :
  json_replies rt -> handle translate args rt log = (Ok r, log') ->
  exists ans oev, answered args rt log log' ans /\ wf_value (VDict ans) /\
    r = reply args rt (fields_of translate args) oev /\ ans = match oev with Some ev => answers ev | None => [] end.
Proof.
  intros Hj Hh. destruct (extract_handle_Ok args rt log r log' Hh) as [_ [(Hn & Hl & ->)|(_ & ev & Hask & Hl & ->)]].
  - exists [], None. split_and!; [by left|split; [constructor|done]|done|done].
  - exists (answers ev), (Some ev). split_and!; [right; by exists ev|by eapply Hj|done|done].
Qed.

(** C33 jev_extract returns text of the document, verbatim, or nothing: in a completed call there is one
    row per field, in the caller's order, and each row's value is null or a candidate the executor
    found for that field, whose units are a non-empty run of the document's units within the
    candidate cap, and the very one a validated answer of the provider names. *)
Theorem extract_values_verbatim args rt log r log' :
  json_replies rt -> handle translate args rt log = (Ok r, log') ->
  exists ans rows, answered args rt log log' ans /\ get (u "results") (payload r) = VList (VDict <$> rows) /\
    Forall2 (fun f row =>
      get (u "id") row = VStr (field_id f) /\
      (get (u "value") row = VNone \/
       exists a c, validate_extract_choice (get (field_key f) ans) (keys_of f) = Some a /\
         choice a <> NONE_OF_THEM /\ c = candidate_at f (choice a) /\ get (u "value") row = VStr c /\
         c ∈ field_candidates f /\ verbatim (document_units args) c))
      (fields_of translate args) rows /\
    (field_id <$> fields_of translate args) = (rf_id <$> arg_fields args).
Proof.
  intros Hj Hh. destruct (handle_answered args rt log r log' Hj Hh) as (ans & oev & Hans & Hwf & -> & Hoev).
  exists ans, (rows_of args (fields_of translate args) ans). rewrite results_get, <- Hoev.
  split; [done|]. split; [done|]. split.
  - unfold rows_of. apply Forall2_fmap_r, Forall_Forall2_diag, Forall_forall. intros f Hf. split.
    + unfold field_row. destruct (field_error f); [by apply row_get|].
      destruct (field_candidates f); [by apply row_get|].
      destruct (validate_extract_choice _ _); by apply row_get.
    + destruct (field_row_value f (get (field_key f) ans) (accept_of args) (margin_of args) (get_wf _ _ Hwf))
        as [Hn|(a & c & _ & Ha & Hne & Hat & Hc & Hv)]; [by left|right].
      exists a, c. split_and!; [done|done|done|done|done|]. pose proof (field_candidates_verbatim args f Hf) as Hall.
      by eapply Forall_forall in Hc; [|exact Hall].
  - unfold fields_of. rewrite <- list_fmap_compose. transitivity (rf_id <$> (enumerate (arg_fields args)).*2);
      [|by rewrite enumerate_snd].
    rewrite <- list_fmap_compose. apply list_fmap_ext. intros n [i raw] _. unfold compose, field_of_match. cbn [fst snd].
    by destruct (find_candidates _ _ _ _ _).
Qed.

(** jev_extract asks the provider only when there is something to pick: a completed call with no
    field that has candidates makes no request, reports no provider and gives every row no value; any
    other completed call makes exactly one request. *)
Theorem extract_asks_only_candidates args rt log r log' :
  handle translate args rt log = (Ok r, log') ->
  (List.filter is_asked (fields_of translate args) = [] ->
     log' = log /\ get (u "provider") (payload r) = vs "none" /\
     exists rows, get (u "results") (payload r) = VList (VDict <$> rows) /\
       Forall (fun row => get (u "value") row = VNone) rows) /\
  (List.filter is_asked (fields_of translate args) <> [] -> length log' = S (length log)).
Proof.
  intros Hh. destruct (extract_handle_Ok args rt log r log' Hh) as [_ [(Hn & -> & ->)|(Hn & ev & _ & -> & _)]].
  - split; [|done]. intros _. split_and!; [done|reflexivity|].
    exists (rows_of args (fields_of translate args) []). rewrite results_get. split; [done|].
    unfold rows_of. apply Forall_fmap, Forall_forall. intros f Hf. cbn [compose].
    destruct (field_row_value f (get (field_key f) []) (accept_of args) (margin_of args) I)
      as [Hv|(a & c & He & _ & _ & _ & Hc & _)]; [exact Hv|]. exfalso.
    assert (f ∈ List.filter is_asked (fields_of translate args)) as Hin; [|rewrite Hn in Hin; by apply elem_of_nil in Hin].
    apply list_elem_of_In, List.filter_In. split; [by apply list_elem_of_In|].
    unfold is_asked. rewrite He. cbn [is_none andb].
    rewrite bool_decide_eq_false_2; [done|]. intros Hz. rewrite Hz in Hc. by apply elem_of_nil in Hc.
  - split; [done|]. intros _. rewrite length_app. simpl. lia.
Qed.

(** jev_extract is never sure over an incomplete universe: in a completed call a row reads [auto]
    only when its field's candidates are complete (none cut, none skipped as too long) and a
    validated answer picks one at both thresholds, and reads [not_found] only when its candidates are
    complete; and a call headlined auto has every actionable row standing that way. *)
Theorem extract_auto_sound args rt log r log' :
  json_replies rt -> handle translate args rt log = (Ok r, log') ->
  exists ans rows, answered args rt log log' ans /\ get (u "results") (payload r) = VList (VDict <$> rows) /\
    Forall2 (fun f row =>
      (row_status row = VStr (u "auto") ->
         field_stands f (get (field_key f) ans) (accept_of args) (margin_of args)) /\
      (row_status row = VStr (u "not_found") -> is_incomplete f = false))
      (fields_of translate args) rows /\
    (action r = Some Auto -> Forall (fun row => row_status row <> VStr (u "review")) rows).
Proof.
  intros Hj Hh. destruct (handle_answered args rt log r log' Hj Hh) as (ans & oev & Hans & _ & -> & Hoev).
  exists ans, (rows_of args (fields_of translate args) ans). rewrite results_get, <- Hoev.
  split; [done|]. split; [done|]. split.
  - unfold rows_of. apply Forall2_fmap_r, Forall_Forall2_diag, Forall_forall. intros f _. split.
    + apply field_row_auto.
    + apply field_row_not_found.
  - cbn [action reply item_action headlines_of]. rewrite <- Hoev.
    intros [_ Hall]%headline_auto. apply Forall_forall. intros row Hrow Hrev.
    assert (Review ∈ caller_actions (row_status <$> rows_of args (fields_of translate args) ans)) as Hin.
    { apply list_elem_of_omap. exists (VStr (u "review")). split; [|done]. rewrite <- Hrev. by apply list_elem_of_fmap_2. }
    by eapply Forall_forall in Hin; [|exact Hall].
Qed.
End Properties.

(** ** Witnesses *)
Definition sample_args : Args :=
  {| arg_document := u "a1b22";
     arg_fields := [{| rf_id := u "n"; rf_pattern := u "[0-9]"; rf_description := u "d"; rf_flags := None |}];
     arg_purpose := None; arg_auto_accept := None; arg_minimum_margin := None |}.

Definition sample_translate (pattern flags : text) : result text Translated := Ok {| source := pattern; flags := 0 |}.

Definition sample_answers : dict value :=
  [(u "f0", choice_reply "c1" [("c0", 5); ("c1", 95); ("none_of_them", 0)] 95)].

Lemma extract_values_verbatim_witness :
  exists r log' rows,
    handle sample_translate sample_args (sample_runtime sample_answers) [] = (Ok r, log') /\
    get (u "results") (payload r) = VList (VDict <$> rows) /\ (get (u "value") <$> rows) = [vs "2"].
Proof.
  destruct (auto_result_Ok (handle sample_translate sample_args (sample_runtime sample_answers) [])) as (r & log' & Hh & _);
    [vm_compute; reflexivity|].
  destruct (extract_values_verbatim sample_translate sample_args (sample_runtime sample_answers) [] r log'
              (sample_runtime_json sample_answers eq_refl) Hh) as (ans & rows & _ & Hrows & _).
  exists r, log', rows. split; [exact Hh|]. split; [exact Hrows|].
  vm_compute in Hh. injection Hh as <- _. destruct rows as [|row [|? ?]]; [done| |done].
  vm_compute in Hrows. injection Hrows as <-. reflexivity.
Defined.

Lemma extract_asks_only_candidates_witness :
  exists r, handle sample_translate
    {| arg_document := u "ab"; arg_fields := arg_fields sample_args; arg_purpose := None; arg_auto_accept := None;
       arg_minimum_margin := None |} (sample_runtime sample_answers) [] = (Ok r, []) /\
    get (u "provider") (payload r) = vs "none".
Proof.
  set (args := {| arg_document := _; arg_fields := _; arg_purpose := _; arg_auto_accept := _; arg_minimum_margin := _ |}).
  destruct (ok_result_Ok (handle sample_translate args (sample_runtime sample_answers) [])) as (r & log' & Hh);
    [vm_compute; reflexivity|].
  destruct (extract_asks_only_candidates sample_translate args (sample_runtime sample_answers) [] r log' Hh) as [Hn _].
  destruct (Hn ltac:(vm_compute; reflexivity)) as (-> & Hp & _). exists r. split; [exact Hh|exact Hp].
Defined.

Lemma extract_auto_sound_witness :
  exists r log' ans, handle sample_translate sample_args (sample_runtime sample_answers) [] = (Ok r, log') /\
    Forall (fun f => field_stands f (get (field_key f) ans) (accept_of sample_args) (margin_of sample_args))
      (fields_of sample_translate sample_args).
Proof.
  destruct (auto_result_Ok (handle sample_translate sample_args (sample_runtime sample_answers) [])) as (r & log' & Hh & _);
    [vm_compute; reflexivity|].
  destruct (extract_auto_sound sample_translate sample_args (sample_runtime sample_answers) [] r log'
              (sample_runtime_json sample_answers eq_refl) Hh) as (ans & rows & _ & Hrows & Hall & _).
  exists r, log', ans. split; [exact Hh|].
  vm_compute in Hh. injection Hh as <- _. destruct rows as [|row [|? ?]]; [done| |done].
  vm_compute in Hrows. injection Hrows as <-.
  apply Forall2_cons_inv_r in Hall as (f & fs & [Hf _] & Hnil & ->). apply Forall2_nil_inv_r in Hnil as ->.
  constructor; [|constructor]. apply Hf. reflexivity.
Defined.
