(* ===== verification/Arguments.v ===== *)
(** * Argument validation

    Models the parser of [tools/arguments.py] (the compiled schema of a tool, [ArgumentParser]): the
    nodes, their checks in zod's order, the two issue lists and the error text.  A string node's
    regular expression and a refinement's check are functions.  The compiler from JSON Schema to
    nodes is [Schema]. *)
From S2P Require Import Prelude Float64 Text Json Serialize Runtime.
Open Scope Z_scope.

(** ** Issues *)
Inductive Segment := SKey (k : text) | SIndex (i : nat).
Record Issue := { issue_message : text; issue_path : list Segment }.

Definition segment_text (s : Segment) : text := match s with SKey k => k | SIndex i => str_of_nat i end.

Definition render (i : Issue) : text :=
  match issue_path i with
  | [] => issue_message i
  | first :: rest =>
    issue_message i ++ u " at " ++
    fold_left (fun dotted s =>
      dotted ++ match s with SIndex i => u "[" ++ str_of_nat i ++ u "]" | SKey k => u "." ++ k end)
      rest (segment_text first)
  end.

(** The synchronous issues and the deferred ones. *)
Record Sink := { issues : list Issue; deferred : list Issue }.
Definition no_issue : Sink := {| issues := []; deferred := [] |}.
Definition ordered (s : Sink) : list Issue := issues s ++ deferred s.
Definition sink_app (a b : Sink) : Sink :=
  {| issues := issues a ++ issues b; deferred := deferred a ++ deferred b |}.
Definition issue_when (b : bool) (message : text) (path : list Segment) : Sink :=
  if b then {| issues := [{| issue_message := message; issue_path := path |}]; deferred := [] |} else no_issue.
Definition defer (message : text) (path : list Segment) : Sink :=
  {| issues := []; deferred := [{| issue_message := message; issue_path := path |}] |}.

(** ** Statuses *)
Inductive Status := Valid | Dirty | Aborted.

#[export] Instance Status_eq_dec : EqDecision Status.
Proof. solve_decision. Defined.

Definition merge (a b : Status) : Status :=
  match a, b with
  | Aborted, _ | _, Aborted => Aborted
  | Dirty, _ | _, Dirty => Dirty
  | Valid, Valid => Valid
  end.

(** The status after the checks that only dirty a value. *)
Definition dirty_if (b : bool) : Status := if b then Dirty else Valid.

(** ** Numbers: Python compares an int and a finite float exactly *)
Inductive number := NumInt (n : Z) | NumFloat (f : float).

Definition number_ratio (x : number) : Z * Z :=
  match x with
  | NumInt n => (n, 1)
  | NumFloat f => let '(n, d) := fratio f in (if fsign f then - n else n, d)
  end.

Definition number_ltb (a b : number) : bool :=
  (number_ratio a).1 * (number_ratio b).2 <? (number_ratio b).1 * (number_ratio a).2.

(** [number_to_string] of a schema bound; the schemas' integer bounds are far below 2^53. *)
Definition number_text (x : number) : text :=
  match x with NumInt n => number_to_string (f_of_Z n) | NumFloat f => number_to_string f end.

(** [float.is_integer] of a finite double. *)
Definition is_integral (x : number) : bool :=
  match x with NumInt _ => true | NumFloat f => let '(n, d) := fratio f in n mod d =? 0 end.

Definition as_json_number (v : value) : option number :=
  match v with VInt n => Some (NumInt n) | VFloat f => Some (NumFloat f) | _ => None end.

Definition finite_number (x : number) : bool := match x with NumInt _ => true | NumFloat f => is_finite f end.

(** ** Nodes *)
Record Refinement := { check : value -> bool; refinement_message : text }.

Inductive Node :=
| NString (min_length : option Z) (pattern : option (text -> bool)) (max_length : option Z)
| NNumber (integer : bool) (minimum maximum : option number)
| NBoolean
| NArray (items : Node) (min_items max_items : option Z)
| NObject (properties : list (text * Node * (bool * option Refinement)))
| NRecord
| NUnion (options : list Node).

Definition received (v : option value) : text :=
  match v with
  | None => u "undefined"
  | Some VNone => u "null"
  | Some (VBool _) => u "boolean"
  | Some (VInt _) | Some (VFloat _) => u "number"
  | Some (VStr _) => u "string"
  | Some (VList _) => u "array"
  | Some (VDict _) => u "object"
  end.

Definition Out : Type := Status * value * Sink.

Definition invalid_type (expected : text) (v : option value) (path : list Segment) : Out :=
  (Aborted, VNone,
   issue_when true (if is_none v then u "Required" else u "Expected " ++ expected ++ u ", received " ++ received v) path).

(** [bound is not None and value < bound]. *)
Definition under {A} (lt : A -> A -> bool) (x : A) (bound : option A) : bool :=
  match bound with Some b => lt x b | None => false end.
Definition over {A} (lt : A -> A -> bool) (x : A) (bound : option A) : bool :=
  match bound with Some b => lt b x | None => false end.

Definition at_bound (bound : option Z) : text := match bound with Some b => str_of_Z b | None => [] end.
Definition number_bound (bound : option number) : text := match bound with Some b => number_text b | None => [] end.

Definition parse_string (mn : option Z) (pattern : option (text -> bool)) (mx : option Z) (t : text)
    (path : list Segment) : Out :=
  let units := Utf16.length t in
  let short := under Z.ltb units mn in
  let wrong := match pattern with Some p => negb (p t) | None => false end in
  let long := over Z.ltb units mx in
  (dirty_if (short || wrong || long), VStr t,
   sink_app (issue_when short (u "String must contain at least " ++ at_bound mn ++ u " character(s)") path)
     (sink_app (issue_when wrong (u "Invalid") path)
        (issue_when long (u "String must contain at most " ++ at_bound mx ++ u " character(s)") path))).

Definition parse_number (integer : bool) (mn mx : option number) (v : value) (x : number) (path : list Segment) : Out :=
  if negb (finite_number x) then (Dirty, v, issue_when true (u "Number must be finite") path)
  else
    let fraction := integer && negb (is_integral x) in
    let low := under number_ltb x mn in
    let high := over number_ltb x mx in
    (dirty_if (fraction || low || high), v,
     sink_app (issue_when fraction (u "Expected integer, received float") path)
       (sink_app (issue_when low (u "Number must be greater than or equal to " ++ number_bound mn) path)
          (issue_when high (u "Number must be less than or equal to " ++ number_bound mx) path))).

(** The checks of an array's length, before its items. *)
Definition array_checks (mn mx : option Z) (count : Z) (path : list Segment) : Status * Sink :=
  let short := under Z.ltb count mn in
  let long := over Z.ltb count mx in
  (dirty_if (short || long),
   sink_app (issue_when short (u "Array must contain at least " ++ at_bound mn ++ u " element(s)") path)
     (issue_when long (u "Array must contain at most " ++ at_bound mx ++ u " element(s)") path)).

(** A refinement runs on a value that was not aborted. *)
Definition refine (r : option Refinement) (o : Out) (path : list Segment) : Out :=
  match r with
  | Some r =>
    let '(st, v, s) := o in
    match st with
    | Aborted => o
    | _ => if check r v then o else (Dirty, v, sink_app s (defer (refinement_message r) path))
    end
  | None => o
  end.

(** [_Union]: the first valid option, else the first dirty one, else an aborted value.  [results] are
    the outcomes of the options up to the first valid one. *)
Fixpoint first_dirty (results : list Out) : option Out :=
  match results with
  | [] => None
  | (Dirty, v, s) :: _ => Some (Dirty, v, s)
  | _ :: rest => first_dirty rest
  end.

Definition union_failed (results : list Out) (path : list Segment) : Out :=
  match first_dirty results with
  | Some (st, v, s) => (st, v, {| issues := []; deferred := ordered s |})
  | None => (Aborted, VNone, defer (u "Invalid input") path)
  end.

(** The loops over an array's items, an object's properties and a union's options; [p] parses a
    member. *)
Section Loops.
Context (p : Node -> option value -> list Segment -> Out).

Definition parse_items (items : Node) (path : list Segment) :=
  fix go (l : list value) (index : nat) (st : Status) (parsed : list value) (s : Sink) : Out :=
    match l with
    | [] => (st, VList parsed, s)
    | x :: l' =>
      let '(st1, w, s1) := p items (Some x) (path ++ [SIndex index]) in
      go l' (S index) (merge st st1) (parsed ++ [w]) (sink_app s s1)
    end.

Definition parse_properties (record : dict value) (path : list Segment) :=
  fix go (ps : list (text * Node * (bool * option Refinement))) (st : Status) (parsed : dict value) (s : Sink) : Out :=
    match ps with
    | [] => (st, VDict parsed, s)
    | (key, node, (required, refinement)) :: ps' =>
      let item := dget key record in
      if is_none item && negb required then go ps' st parsed s
      else
        let '(st1, w, s1) := refine refinement (p node item (path ++ [SKey key])) (path ++ [SKey key]) in
        go ps' (merge st st1) (dset key w parsed) (sink_app s s1)
    end.

Definition parse_options (v : option value) (path : list Segment) :=
  fix go (os : list Node) (results : list Out) : Out :=
    match os with
    | [] => union_failed results path
    | o :: os' =>
      let '(st, w, s) := p o v path in
      match st with
      | Valid => (Valid, w, no_issue)
      | _ => go os' (results ++ [(st, w, s)])
      end
    end.
End Loops.

(** [parse node value path]: [None] is a key the caller did not send. *)
Fixpoint parse (n : Node) (v : option value) (path : list Segment) {struct n} : Out :=
  match n with
  | NString mn pattern mx =>
    match v with Some (VStr t) => parse_string mn pattern mx t path | _ => invalid_type (u "string") v path end
  | NNumber integer mn mx =>
    match v with
    | Some w =>
      match as_json_number w with
      | Some x => parse_number integer mn mx w x path
      | None => invalid_type (u "number") v path
      end
    | None => invalid_type (u "number") v path
    end
  | NBoolean =>
    match v with Some (VBool b) => (Valid, VBool b, no_issue) | _ => invalid_type (u "boolean") v path end
  | NArray items mn mx =>
    match v with
    | Some (VList l) =>
      let '(st, s) := array_checks mn mx (Z.of_nat (length l)) path in parse_items parse items path l 0 st [] s
    | _ => invalid_type (u "array") v path
    end
  | NObject properties =>
    match v with
    | Some (VDict record) => parse_properties parse record path properties Valid [] no_issue
    | _ => invalid_type (u "object") v path
    end
  | NRecord =>
    match v with Some (VDict d) => (Valid, VDict d, no_issue) | _ => invalid_type (u "object") v path end
  | NUnion options => parse_options parse v path options []
  end.

(** ** ArgumentParser *)
Definition arguments_message (tool : text) (found : list Issue) : text :=
  u "MCP error -32602: Input validation error: Invalid arguments for tool " ++ tool ++ u ": "
  ++ join [10] (render <$> found).

(** Calling a parser: the parsed arguments, or [ArgumentsError]; [None] is arguments not sent. *)
Definition parse_call (tool : text) (root : Node) (arguments : option (dict value)) : result exn (dict value) :=
  let '(st, v, s) := parse root (VDict <$> arguments) [] in
  match st, v with
  | Valid, VDict d => Ok d
  | _, _ => Raise (ArgumentsError (arguments_message tool (ordered s)))
  end.

(** ** The reference: what a schema accepts, without messages *)
Definition string_ok (mn : option Z) (pattern : option (text -> bool)) (mx : option Z) (t : text) : bool :=
  negb (under Z.ltb (Utf16.length t) mn)
  && match pattern with Some p => p t | None => true end
  && negb (over Z.ltb (Utf16.length t) mx).

Definition number_ok (integer : bool) (mn mx : option number) (x : number) : bool :=
  finite_number x && (negb integer || is_integral x) && negb (under number_ltb x mn) && negb (over number_ltb x mx).

Definition array_ok (mn mx : option Z) (count : Z) : bool := negb (under Z.ltb count mn) && negb (over Z.ltb count mx).

Definition refined (r : option Refinement) (w : value) : bool := match r with Some r => check r w | None => true end.

Section AcceptLoops.
Context (p : Node -> option value -> option value).

Definition accept_items (items : Node) :=
  fix go (l : list value) (parsed : list value) : option value :=
    match l with
    | [] => Some (VList parsed)
    | x :: l' => match p items (Some x) with Some w => go l' (parsed ++ [w]) | None => None end
    end.

Definition accept_properties (record : dict value) :=
  fix go (ps : list (text * Node * (bool * option Refinement))) (parsed : dict value) : option value :=
    match ps with
    | [] => Some (VDict parsed)
    | (key, node, (required, refinement)) :: ps' =>
      let item := dget key record in
      if is_none item && negb required then go ps' parsed
      else
        match p node item with
        | Some w => if refined refinement w then go ps' (dset key w parsed) else None
        | None => None
        end
    end.

Definition accept_options (v : option value) :=
  fix go (os : list Node) : option value :=
    match os with [] => None | o :: os' => match p o v with Some w => Some w | None => go os' end end.
End AcceptLoops.

(** The parsed value when [n] accepts [v]: unknown keys are stripped, the schema's keys come in schema
    order, and a union takes its first accepting option. *)
Fixpoint accepts (n : Node) (v : option value) {struct n} : option value :=
  match n with
  | NString mn pattern mx =>
    match v with Some (VStr t) => if string_ok mn pattern mx t then Some (VStr t) else None | _ => None end
  | NNumber integer mn mx =>
    match v with
    | Some w =>
      match as_json_number w with Some x => if number_ok integer mn mx x then Some w else None | None => None end
    | None => None
    end
  | NBoolean => match v with Some (VBool b) => Some (VBool b) | _ => None end
  | NArray items mn mx =>
    match v with
    | Some (VList l) => if array_ok mn mx (Z.of_nat (length l)) then accept_items accepts items l [] else None
    | _ => None
    end
  | NObject properties =>
    match v with Some (VDict record) => accept_properties accepts record properties [] | _ => None end
  | NRecord => match v with Some (VDict d) => Some (VDict d) | _ => None end
  | NUnion options => accept_options accepts v options
  end.

(** ** Induction over nodes *)
Section NodeInduction.
Context (P : Node -> Prop)
  (Hstring : forall mn pt mx, P (NString mn pt mx)) (Hnumber : forall i mn mx, P (NNumber i mn mx))
  (Hboolean : P NBoolean) (Harray : forall items mn mx, P items -> P (NArray items mn mx))
  (Hobject : forall ps, Forall (fun p => P p.1.2) ps -> P (NObject ps))
  (Hrecord : P NRecord) (Hunion : forall os, Forall P os -> P (NUnion os)).

Fixpoint Node_induction (n : Node) : P n :=
  match n with
  | NString mn pt mx => Hstring mn pt mx
  | NNumber i mn mx => Hnumber i mn mx
  | NBoolean => Hboolean
  | NArray items mn mx => Harray items mn mx (Node_induction items)
  | NObject ps =>
    Hobject ps ((fix go ps : Forall (fun p => P p.1.2) ps :=
      match ps with [] => Forall_nil_2 _ | p :: ps' => Forall_cons_2 _ p ps' (Node_induction p.1.2) (go ps') end) ps)
  | NRecord => Hrecord
  | NUnion os =>
    Hunion os ((fix go os : Forall P os :=
      match os with [] => Forall_nil_2 _ | o :: os' => Forall_cons_2 _ o os' (Node_induction o) (go os') end) os)
  end.
End NodeInduction.

(** ** Facts *)

(** An outcome is clean (valid, no issue) or broken (not valid, at least one issue). *)
Definition broken (o : Out) : Prop := o.1.1 <> Valid /\ ordered o.2 <> [].
Definition agrees (o : Out) (r : option value) : Prop :=
  match r with Some w => o = (Valid, w, no_issue) | None => broken o end.

Lemma sink_no_issue s : sink_app s no_issue = s.
Proof. destruct s. unfold sink_app. simpl. by rewrite !app_nil_r. Qed.

Lemma ordered_app_l a b : ordered a <> [] -> ordered (sink_app a b) <> [].
Proof. destruct a as [[] []], b as [[] []]; done. Qed.

Lemma ordered_app_r a b : ordered b <> [] -> ordered (sink_app a b) <> [].
Proof. destruct a as [[] []], b as [[] []]; done. Qed.

Lemma merge_not_valid_l a b : a <> Valid -> merge a b <> Valid.
Proof. by destruct a, b. Qed.

Lemma merge_not_valid_r a b : b <> Valid -> merge a b <> Valid.
Proof. by destruct a, b. Qed.

Lemma issue_when_true m p : ordered (issue_when true m p) <> [].
Proof. done. Qed.

Lemma invalid_type_broken e v path : broken (invalid_type e v path).
Proof. by split. Qed.

Lemma refine_agrees r o acc path :
  agrees o acc -> agrees (refine r o path) (match acc with Some w => if refined r w then Some w else None | None => None end).
Proof.
  destruct o as [[st v] s]. destruct acc as [w|]; simpl.
  - intros [= -> -> ->]. unfold refined, refine. destruct r as [r|]; [|done]. destruct (check r w); [done|]. by split.
  - intros [Hst Hs]. unfold refine. destruct r as [r|]; [|by split]. destruct st; [done| |by split].
    destruct (check r v); [by split|]. split; [done|]. by apply ordered_app_l.
Qed.

Lemma string_agrees mn pt mx t path :
  agrees (parse_string mn pt mx t path) (if string_ok mn pt mx t then Some (VStr t) else None).
Proof.
  unfold parse_string, string_ok. destruct (under _ _ _), (over _ _ _); destruct pt as [pt|]; simpl;
    try destruct (pt t); simpl; by try split.
Qed.

Lemma number_agrees i mn mx w x path :
  agrees (parse_number i mn mx w x path) (if number_ok i mn mx x then Some w else None).
Proof.
  unfold parse_number, number_ok. destruct (finite_number x); [|by split].
  destruct i, (is_integral x), (under _ _ _), (over _ _ _); simpl; by try split.
Qed.

(** Once broken, a loop stays broken. *)
Lemma parse_items_broken p items path l : forall index st parsed s,
  st <> Valid -> ordered s <> [] -> broken (parse_items p items path l index st parsed s).
Proof.
  induction l as [|x l IH]; intros index st parsed s Hst Hs; cbn [parse_items]; [by split|].
  destruct (p items (Some x) _) as [[st1 w] s1]. apply IH; [by apply merge_not_valid_l|by apply ordered_app_l].
Qed.

Lemma parse_properties_broken p record path ps : forall st parsed s,
  st <> Valid -> ordered s <> [] -> broken (parse_properties p record path ps st parsed s).
Proof.
  induction ps as [|[[key node] [required r]] ps IH]; intros st parsed s Hst Hs; cbn [parse_properties]; [by split|].
  destruct (is_none _ && _); [by apply IH|].
  destruct (refine r _ _) as [[st1 w] s1]. apply IH; [by apply merge_not_valid_l|by apply ordered_app_l].
Qed.

Section LoopAgreement.
Context (p : Node -> option value -> list Segment -> Out) (a : Node -> option value -> option value).

Lemma parse_items_agrees items path l : forall index parsed,
  (forall v path, agrees (p items v path) (a items v)) ->
  agrees (parse_items p items path l index Valid parsed no_issue) (accept_items a items l parsed).
Proof.
  intros index parsed Hp. revert index parsed. induction l as [|x l IH]; intros index parsed;
    cbn [parse_items accept_items]; [done|].
  specialize (Hp (Some x) (path ++ [SIndex index])). destruct (p items (Some x) _) as [[st w] s].
  destruct (a items (Some x)) as [w'|]; simpl in Hp.
  - injection Hp as -> -> ->. apply IH.
  - destruct Hp as [Hst Hs]. apply parse_items_broken; [by apply merge_not_valid_r|by apply ordered_app_r].
Qed.

Lemma parse_properties_agrees record path ps : forall parsed,
  Forall (fun q => forall v path, agrees (p q.1.2 v path) (a q.1.2 v)) ps ->
  agrees (parse_properties p record path ps Valid parsed no_issue) (accept_properties a record ps parsed).
Proof.
  induction ps as [|[[key node] [required r]] ps IH]; intros parsed; cbn [parse_properties accept_properties]; [done|].
  intros [Hp Hps]%Forall_cons. destruct (is_none _ && _); [by apply IH|].
  specialize (Hp (dget key record) (path ++ [SKey key])). apply (refine_agrees r _ _ (path ++ [SKey key])) in Hp.
  cbn [fst snd] in Hp. destruct (refine r _ _) as [[st w] s]. destruct (a node (dget key record)) as [w'|].
  - destruct (refined r w').
    + injection Hp as -> -> ->. by apply IH.
    + destruct Hp as [Hst Hs]. apply parse_properties_broken; [by apply merge_not_valid_r|by apply ordered_app_r].
  - destruct Hp as [Hst Hs]. apply parse_properties_broken; [by apply merge_not_valid_r|by apply ordered_app_r].
Qed.

Lemma first_dirty_broken results :
  Forall broken results -> forall o, first_dirty results = Some o -> broken o.
Proof.
  induction 1 as [|[[st v] s] results Hb _ IH]; intros o; cbn [first_dirty]; [done|].
  destruct st; [by apply IH| |by apply IH]. by intros [= <-].
Qed.

Lemma union_failed_broken results path : Forall broken results -> broken (union_failed results path).
Proof.
  intros H. unfold union_failed. destruct (first_dirty results) as [[[st v] s]|] eqn:E; [|by split].
  apply (first_dirty_broken _ H) in E as [Hst Hs]. split; [exact Hst|]. exact Hs.
Qed.

Lemma parse_options_agrees v path os : forall results,
  Forall (fun o => forall v path, agrees (p o v path) (a o v)) os -> Forall broken results ->
  agrees (parse_options p v path os results) (accept_options a v os).
Proof.
  induction os as [|o os IH]; intros results; cbn [parse_options accept_options].
  - intros _ H. by apply union_failed_broken.
  - intros [Ho Hos]%Forall_cons Hr. specialize (Ho v path). destruct (p o v path) as [[st w] s].
    destruct (a o v) as [w'|].
    + by injection Ho as -> -> ->.
    + assert (Forall broken (results ++ [(st, w, s)])) as Hr' by (apply Forall_app; split; [done|constructor; [exact Ho|constructor]]).
      destruct st; [by destruct Ho| |]; by apply IH.
Qed.
End LoopAgreement.

(** A tool's argument parser accepts exactly what its schema accepts, and never fails silently: for
    every schema node, value and path, when the reference accepts the value the parser returns that
    parsed value, valid and with no issue at all; otherwise the outcome is not valid and carries at
    least one issue. *)
Theorem parse_agrees n : forall v path, agrees (parse n v path) (accepts n v).
Proof.
  induction n as [mn pt mx|i mn mx| |items mn mx IH|ps IH| |os IH] using Node_induction; intros v path;
    cbn [parse accepts].
  - destruct v as [[]|]; try apply invalid_type_broken. apply string_agrees.
  - destruct v as [w|]; [|apply invalid_type_broken]. destruct (as_json_number w) as [x|]; [|apply invalid_type_broken].
    apply number_agrees.
  - by destruct v as [[]|]; try apply invalid_type_broken.
  - destruct v as [[]|]; try apply invalid_type_broken. unfold array_checks, array_ok.
    destruct (under _ _ _) eqn:Eu, (over _ _ _) eqn:Eo; cbn [negb andb orb dirty_if];
      try (by apply parse_items_broken). by apply parse_items_agrees.
  - destruct v as [[]|]; try apply invalid_type_broken. by apply parse_properties_agrees.
  - by destruct v as [[]|]; try apply invalid_type_broken.
  - by apply parse_options_agrees.
Qed.

(** Nothing accepts a key that was not sent. *)
Lemma accepts_missing n : accepts n None = None.
Proof.
  induction n as [mn pt mx|i mn mx| |items mn mx IH|ps IH| |os IH] using Node_induction; try done.
  cbn [accepts]. induction IH as [|o os Ho _ IHos]; [done|]. cbn [accept_options]. by rewrite Ho.
Qed.

(** Parsing keeps objects' keys distinct. *)
Lemma accepts_wf n : forall v w, wf_value v -> accepts n (Some v) = Some w -> wf_value w.
Proof.
  induction n as [mn pt mx|i mn mx| |items mn mx IH|ps IH| |os IH] using Node_induction; intros v w Hv; cbn [accepts].
  - destruct v; try done. destruct (string_ok _ _ _ _); [by intros [= <-]|done].
  - destruct (as_json_number v); [|done]. destruct (number_ok _ _ _ _); [by intros [= <-]|done].
  - destruct v; try done. by intros [= <-].
  - destruct v as [| | | | |l|]; try done. destruct (array_ok _ _ _); [|done].
    assert (forall l parsed, (forall x, x ∈ l -> wf_value x) -> wf_value (VList parsed) ->
      accept_items accepts items l parsed = Some w -> wf_value w) as H.
    { clear Hv. intros l0. induction l0 as [|x l0 IHl]; intros parsed Hl Hp; cbn [accept_items]; [by intros [= <-]|].
      destruct (accepts items (Some x)) as [y|] eqn:E; [|done]. apply IHl; [intros z Hz; apply Hl; by right|].
      apply wf_list_snoc; [done|]. eapply IH; [|exact E]. apply Hl. left. }
    apply H; [|done]. intros x Hx. by eapply wf_list_elem.
  - destruct v as [| | | | | |record]; try done.
    assert (forall parsed, wf_value (VDict parsed) ->
      accept_properties accepts record ps parsed = Some w -> wf_value w) as H; [|apply H; split; [apply NoDup_nil_2|exact I]].
    induction IH as [|[[key node] [required rf]] ps Hn _ IHps]; intros parsed Hp; cbn [accept_properties]; [by intros [= <-]|].
    cbn [fst snd] in Hn. destruct (dget key record) as [raw|] eqn:Er; cbn [is_none andb].
    + destruct (accepts node (Some raw)) as [y|] eqn:E; [|done]. destruct (refined rf y); [|done]. apply IHps.
      apply wf_dict_dset; [done|]. eapply Hn; [|exact E]. apply dget_elem in Er. exact (wf_dict_elem _ _ _ Hv Er).
    + destruct required; [by rewrite accepts_missing|]. by apply IHps.
  - destruct v; try done. by intros [= <-].
  - induction IH as [|o os Ho _ IHos]; cbn [accept_options]; [done|].
    destruct (accepts o (Some v)) as [y|] eqn:E; [intros [= <-]; by eapply Ho|exact IHos].
Qed.

Definition property_keys (ps : list (text * Node * (bool * option Refinement))) : list text := (fun p => p.1.1) <$> ps.

(** The parsed object: the schema's keys the caller sent, in schema order, each with its node's parsed
    value. *)
Lemma accept_properties_shape record ps : forall parsed w,
  accept_properties accepts record ps parsed = Some w -> NoDup (dkeys parsed ++ property_keys ps) ->
  exists d, w = VDict (parsed ++ d) /\
    dkeys d = List.filter (fun k => dhas k record) (property_keys ps) /\
    Forall (fun kv => exists node required r raw, (kv.1, node, (required, r)) ∈ ps /\ dget kv.1 record = Some raw /\
                        accepts node (Some raw) = Some kv.2 /\ refined r kv.2 = true) d /\
    Forall (fun p => p.2.1 = true -> p.1.1 ∈ dkeys d) ps.
Proof.
  induction ps as [|[[key node] [required r]] ps IH]; intros parsed w; cbn [accept_properties].
  - intros [= <-] _. exists []. rewrite app_nil_r. split_and!; [done|done|constructor|constructor].
  - intros Hw Hnd. cbn [property_keys fmap list_fmap fst snd List.filter] in *. fold (property_keys ps) in *.
    assert (key ∉ dkeys parsed) as Hnew.
    { apply NoDup_app in Hnd as (_ & Hd & _). intros Hin. apply (Hd _ Hin). left. }
    unfold dhas at 1. destruct (dget key record) as [raw|] eqn:Er; cbn [is_none negb andb] in *.
    + destruct (accepts node (Some raw)) as [w1|] eqn:Ea; [|done]. destruct (refined r w1) eqn:Ef; [|done].
      rewrite dset_new in Hw by done.
      apply IH in Hw as (d & -> & Hkeys & Hall & Hreq).
      2: { unfold dkeys. rewrite fmap_app, <- app_assoc. exact Hnd. }
      exists ((key, w1) :: d). split_and!.
      * by rewrite <- app_assoc.
      * cbn. f_equal. exact Hkeys.
      * constructor; [exists node, required, r, raw; split_and!; [left|done|done|done]|].
        eapply Forall_impl; [exact Hall|]. intros kv (nd & rq & rf & rw & Hin & H1 & H2 & H3).
        exists nd, rq, rf, rw. split_and!; [by right|done|done|done].
      * constructor; [intros _; left|]. eapply Forall_impl; [exact Hreq|]. intros p Hp Ht. right. by apply Hp.
    + destruct required; cbn [negb] in Hw; [by rewrite accepts_missing in Hw|].
      apply IH in Hw as (d & -> & Hkeys & Hall & Hreq).
      2: { by apply NoDup_app in Hnd as (H1 & H2 & [_ H3]%NoDup_cons); apply NoDup_app; split_and!;
             [done|intros x Hx Hp; apply (H2 x Hx); right|done]. }
      exists d. split_and!; [done|exact Hkeys| |].
      * eapply Forall_impl; [exact Hall|]. intros kv (nd & rq & rf & rw & Hin & H1 & H2 & H3).
        exists nd, rq, rf, rw. split_and!; [by right|done|done|done].
      * constructor; [done|exact Hreq].
Qed.

(** What a handler receives is what its schema promises: when a tool's parser returns, the schema
    accepted the arguments; the parsed object's keys are exactly the schema's keys the caller sent, in
    schema order (unknown keys are gone), every required key is there, and each value is what the
    key's node made of the value sent, its refinement holding.  When it does not return, it raises
    [ArgumentsError] with the parse's issues, of which there is at least one. *)
Theorem parse_call_shape tool ps arguments :
  NoDup (property_keys ps) ->
  match parse_call tool (NObject ps) arguments with
  | Ok d => exists record, arguments = Some record /\
      dkeys d = List.filter (fun k => dhas k record) (property_keys ps) /\
      Forall (fun kv => exists node required r raw, (kv.1, node, (required, r)) ∈ ps /\ dget kv.1 record = Some raw /\
                          accepts node (Some raw) = Some kv.2 /\ refined r kv.2 = true) d /\
      Forall (fun p => p.2.1 = true -> p.1.1 ∈ dkeys d) ps
  | Raise e => accepts (NObject ps) (VDict <$> arguments) = None /\
      exists found, found <> [] /\ e = ArgumentsError (arguments_message tool found)
  end.
Proof.
  intros Hnd. unfold parse_call. pose proof (parse_agrees (NObject ps) (VDict <$> arguments) []) as Ha.
  destruct (parse (NObject ps) (VDict <$> arguments) []) as [[st v] s].
  destruct (accepts (NObject ps) (VDict <$> arguments)) as [w|] eqn:Eacc; cbn [agrees] in Ha.
  - injection Ha as -> -> ->. destruct arguments as [record|]; [|done].
    cbn [accepts fmap option_fmap option_map] in Eacc. apply accept_properties_shape in Eacc as (d & -> & H); [|done].
    cbn [app] in *. by exists record.
  - destruct Ha as [Hst Hs]. destruct st; [done| |]; (split; [done|]; by exists (ordered s)).
Qed.

(** ** Witness *)
Definition sample_node : list (text * Node * (bool * option Refinement)) :=
  [(u "query", NString (Some 1) None None, (true, None));
   (u "top_k", NNumber true (Some (NumInt 1)) (Some (NumInt 50)), (false, None))].

Lemma parse_call_shape_witness :
  parse_call (u "t") (NObject sample_node) (Some [(u "top_k", VInt 5); (u "x", VNone); (u "query", vs "q")])
  = Ok [(u "query", vs "q"); (u "top_k", VInt 5)] /\
  exists found, found <> [] /\
    parse_call (u "t") (NObject sample_node) (Some [(u "top_k", VInt 0)]) = Raise (ArgumentsError (arguments_message (u "t") found)).
Proof.
  assert (NoDup (property_keys sample_node)) as Hnd by (apply (bool_decide_unpack _); reflexivity).
  split; [vm_compute; reflexivity|].
  pose proof (parse_call_shape (u "t") sample_node (Some [(u "top_k", VInt 0)]) Hnd) as H.
  destruct (parse_call (u "t") (NObject sample_node) (Some [(u "top_k", VInt 0)])) as [d|e] eqn:E.
  - exfalso. vm_compute in E. discriminate.
  - destruct H as [_ (found & Hf & ->)]. exists found. split; [exact Hf|reflexivity].
Defined.
