(* ===== verification/Schema.v ===== *)
(** * The schema compiler

    Models the second half of [tools/arguments.py]: [_Compiler], which turns a published JSON schema
    into a parser node, consuming one keyword after another and refusing what it would not enforce,
    and [compile_argument_schema].  The main theorem states that a compiled schema is enforced in
    full: read as JSON Schema, keyword by keyword, it accepts what the parser accepts.

    Python's [re] is a parameter: [regex body] is the search function of the pattern
    [\A] body [\Z], [None] when it does not compile. *)
From S2P Require Import Prelude Float64 Text Json Runtime Arguments.
Open Scope Z_scope.

(** ** Failures: one reason per refusing statement.  The messages quote the reason. *)
Inductive Why :=
| NotAnObject | RestKeywords (keys : list text) | NoType | UnsupportedType (v : value)
| NoItems | ItemsNotSchema
| RecordConstrained | AdditionalNotFalse | PropertiesNotObject | RequiredNotNames | RequiredUnknown (name : text)
| UnionEmpty | NestedUnion (index : nat) | ShadowedOption (index : nat)
| PatternNotText | PatternRefused
| CountInvalid (key : text) (floor : Z) | BoundInvalid (key : text)
| RootNotObject | RefinementUnknown (key : text).

Record SchemaUnfaithful := { su_path : text; su_why : Why }.

Definition fail {A} (path : text) (why : Why) : result SchemaUnfaithful A :=
  Raise {| su_path := path; su_why := why |}.

Definition ANNOTATIONS : list text := [u "$schema"; u "title"; u "description"].

(** [_kind]: number and integer share one, as do object and record. *)
Inductive Kind := KString | KNumber | KBoolean | KArray | KObject | KUnion.

#[export] Instance Kind_eq_dec : EqDecision Kind.
Proof. solve_decision. Defined.

Definition kind (n : Node) : Kind :=
  match n with
  | NString _ _ _ => KString
  | NNumber _ _ _ => KNumber
  | NBoolean => KBoolean
  | NArray _ _ _ => KArray
  | NObject _ | NRecord => KObject
  | NUnion _ => KUnion
  end.

(** The compiler of a schema, waiting for its path; and a keyword's value with the compilers of the
    schemas in it: itself, a list's items, an object's values. *)
Definition Compiled : Type := text -> result SchemaUnfaithful Node.
Record Keyword := {
  kw_value : value; kw_node : Compiled; kw_options : list Compiled; kw_properties : dict Compiled }.

(** [rest.pop(key, _MISSING)]. *)
Definition pop (key : text) (rest : dict Keyword) : option Keyword * dict Keyword :=
  (dget key rest, List.filter (fun kw => negb (bool_decide (kw.1 = key))) rest).

Section Compiler.
Context (regex : text -> option (text -> bool)).

(** [_count]: a length bound of at least [floor]. *)
Definition count (rest : dict Keyword) (key path : text) (floor : Z)
    : result SchemaUnfaithful (option Z * dict Keyword) :=
  let '(found, rest) := pop key rest in
  match found with
  | None => Ok (None, rest)
  | Some w =>
    match kw_value w with
    | VInt n => if n <? floor then fail path (CountInvalid key floor) else Ok (Some n, rest)
    | _ => fail path (CountInvalid key floor)
    end
  end.

(** [_bound]: a finite number.  On an int past the doubles [math.isfinite] raises [OverflowError],
    which also ends the construction: the same refusal here. *)
Definition bound (rest : dict Keyword) (key path : text)
    : result SchemaUnfaithful (option number * dict Keyword) :=
  let '(found, rest) := pop key rest in
  match found with
  | None => Ok (None, rest)
  | Some w =>
    match kw_value w with
    | VInt n => if is_none (float_of_int n) then fail path (BoundInvalid key) else Ok (Some (NumInt n), rest)
    | VFloat f => if is_finite f then Ok (Some (NumFloat f), rest) else fail path (BoundInvalid key)
    | _ => fail path (BoundInvalid key)
    end
  end.

(** [_js_pattern]: [pattern[1:-1]] of an ASCII pattern between [^] and [$]. *)
Definition pattern_body (pattern : text) : option text :=
  match pattern with
  | 94 :: rest =>
    if bool_decide (last rest = Some 36) && forallb (fun c => c <? 128) rest then Some (removelast rest) else None
  | _ => None
  end.

(** [_pattern]. *)
Definition pattern_of (v : value) (path : text) : result SchemaUnfaithful (text -> bool) :=
  match v with
  | VStr p =>
    match pattern_body p with
    | Some body => match regex body with Some f => Ok f | None => fail path PatternRefused end
    | None => fail path PatternRefused
    end
  | _ => fail path PatternNotText
  end.

Definition optional {A B E} (f : A -> result E B) (o : option A) : result E (option B) :=
  match o with None => Ok None | Some a => let? b := f a in Ok (Some b) end.

(** [additional is _MISSING or additional is True or additional == {}]. *)
Definition keep_whole (additional : option Keyword) : bool :=
  match kw_value <$> additional with
  | None | Some (VBool true) | Some (VDict []) => true
  | _ => false
  end.

(** [rest.pop("required", [])] when it is a list of names. *)
Definition names_of (required : option Keyword) : option (list text) :=
  match kw_value <$> required with
  | None => Some []
  | Some (VList l) => mapM as_str l
  | Some _ => None
  end.

Definition property_path (path key : text) : text := match path with [] => key | _ => path ++ u "." ++ key end.

(** [_object]. *)
Definition object_of (rest : dict Keyword) (path : text) : result SchemaUnfaithful (Node * dict Keyword) :=
  let '(additional, rest) := pop (u "additionalProperties") rest in
  match pop (u "properties") rest with
  | (None, rest) => if keep_whole additional then Ok (NRecord, rest) else fail path RecordConstrained
  | (Some subs, rest) =>
    match kw_value <$> additional, kw_value subs with
    | Some (VBool false), VDict _ =>
      let '(required, rest) := pop (u "required") rest in
      match names_of required with
      | None => fail path RequiredNotNames
      | Some names =>
        match List.find (fun name => negb (dhas name (kw_properties subs))) names with
        | Some name => fail path (RequiredUnknown name)
        | None =>
          let? properties := rmap (fun sub : text * Compiled =>
            let? n := sub.2 (property_path path sub.1) in
            Ok (sub.1, n, (mem sub.1 names, None : option Refinement))) (kw_properties subs) in
          Ok (NObject properties, rest)
        end
      end
    | Some (VBool false), _ => fail path PropertiesNotObject
    | _, _ => fail path AdditionalNotFalse
    end
  end.

(** [_union]: the loop over the options, with the nodes so far. *)
Fixpoint union_nodes (path : text) (index : nat) (options : list Compiled) (nodes : list Node)
    : result SchemaUnfaithful Node :=
  match options with
  | [] => Ok (NUnion nodes)
  | option :: options' =>
    let? n := option (path ++ u "/anyOf[" ++ str_of_nat index ++ u "]") in
    match n with
    | NUnion _ => fail path (NestedUnion index)
    | _ =>
      if existsb (fun earlier => bool_decide (kind n = kind earlier)) nodes then fail path (ShadowedOption index)
      else union_nodes path (S index) options' (nodes ++ [n])
    end
  end.

Definition union (w : Keyword) (path : text) : result SchemaUnfaithful Node :=
  match kw_value w with
  | VList (_ :: _) => union_nodes path 0 (kw_options w) []
  | _ => fail path UnionEmpty
  end.

(** The cases of [_consume] after the type was popped. *)
Definition string_of (rest : dict Keyword) (path : text) : result SchemaUnfaithful (Node * dict Keyword) :=
  let '(pattern, rest) := pop (u "pattern") rest in
  let? (min_length, rest) := count rest (u "minLength") path 1 in
  let? pattern := optional (fun w => pattern_of (kw_value w) path) pattern in
  let? (max_length, rest) := count rest (u "maxLength") path 0 in
  Ok (NString min_length pattern max_length, rest).

Definition number_of (integer : bool) (rest : dict Keyword) (path : text)
    : result SchemaUnfaithful (Node * dict Keyword) :=
  let? (minimum, rest) := bound rest (u "minimum") path in
  let? (maximum, rest) := bound rest (u "maximum") path in
  Ok (NNumber integer minimum maximum, rest).

Definition array_of (rest : dict Keyword) (path : text) : result SchemaUnfaithful (Node * dict Keyword) :=
  match pop (u "items") rest with
  | (None, _) => fail path NoItems
  | (Some items, rest) =>
    match kw_value items with
    | VDict _ =>
      let? n := kw_node items (path ++ u "[]") in
      let? (min_items, rest) := count rest (u "minItems") path 1 in
      let? (max_items, rest) := count rest (u "maxItems") path 0 in
      Ok (NArray n min_items max_items, rest)
    | _ => fail path ItemsNotSchema
    end
  end.

(** [_consume]: the node, and the keywords nothing consumed. *)
Definition consume (rest : dict Keyword) (path : text) : result SchemaUnfaithful (Node * dict Keyword) :=
  match pop (u "anyOf") rest with
  | (Some options, rest) => let? n := union options path in Ok (n, rest)
  | (None, _) =>
    match pop (u "type") rest with
    | (None, _) => fail path NoType
    | (Some ty, rest) =>
      let ty_is s := is_str (u s) (kw_value ty) in
      if ty_is "string" then string_of rest path
      else if ty_is "number" then number_of false rest path
      else if ty_is "integer" then number_of true rest path
      else if ty_is "boolean" then Ok (NBoolean, rest)
      else if ty_is "array" then array_of rest path
      else if ty_is "object" then object_of rest path
      else fail path (UnsupportedType (kw_value ty))
    end
  end.

(** [node] of an object schema, from its keywords. *)
Definition node_of (keywords : dict Keyword) (path : text) : result SchemaUnfaithful Node :=
  let rest := List.filter (fun kw => negb (mem kw.1 ANNOTATIONS)) keywords in
  let? (n, rest) := consume rest path in
  match rest with [] => Ok n | _ => fail path (RestKeywords (dkeys rest)) end.

(** [_Compiler.node]. *)
Fixpoint node (schema : value) : Compiled :=
  match schema with
  | VDict kws =>
    node_of (map (fun kw =>
      (kw.1, {| kw_value := kw.2; kw_node := node kw.2;
                kw_options := match kw.2 with VList options => map node options | _ => [] end;
                kw_properties :=
                  match kw.2 with VDict subs => map (fun sub => (sub.1, node sub.2)) subs | _ => [] end |})) kws)
  | _ => fun path => fail path NotAnObject
  end.

(** [compile_argument_schema]: the root's properties, each with its refinement. *)
Definition compile_argument_schema (schema : value) (refinements : dict Refinement)
    : result SchemaUnfaithful (list (text * Node * (bool * option Refinement))) :=
  let? root := node schema [] in
  match root with
  | NObject properties =>
    match List.find (fun key => negb (mem key (property_keys properties))) (dkeys refinements) with
    | Some key => fail [] (RefinementUnknown key)
    | None => Ok ((fun p => (p.1.1, p.1.2, (p.2.1, dget p.1.1 refinements))) <$> properties)
    end
  | _ => fail [] RootNotObject
  end.
End Compiler.

(** ** The reference: JSON Schema (draft-07), keyword by keyword

    Lengths are in UTF-16 units, as the published caps are.  [keyword_ok] is one keyword without
    subschemas; an unknown keyword constrains nothing. *)
Section Reference.
Context (regex : text -> option (text -> bool)).

Definition type_ok (ty v : value) : bool :=
  let ty_is s := is_str (u s) ty in
  if ty_is "string" then match v with VStr _ => true | _ => false end
  else if ty_is "number" then match as_json_number v with Some x => finite_number x | None => false end
  else if ty_is "integer"
  then match as_json_number v with Some x => finite_number x && is_integral x | None => false end
  else if ty_is "boolean" then match v with VBool _ => true | _ => false end
  else if ty_is "array" then match v with VList _ => true | _ => false end
  else if ty_is "object" then match v with VDict _ => true | _ => false end
  else false.

Definition at_least (kv : value) (size : option Z) : bool :=
  match kv, size with VInt n, Some m => n <=? m | _, _ => true end.
Definition at_most (kv : value) (size : option Z) : bool :=
  match kv, size with VInt n, Some m => m <=? n | _, _ => true end.
Definition text_size (v : value) : option Z := match v with VStr t => Some (Utf16.length t) | _ => None end.
Definition list_size (v : value) : option Z := match v with VList l => Some (Z.of_nat (length l)) | _ => None end.

Definition pattern_ok (kv v : value) : bool :=
  match v with
  | VStr t =>
    match kv with
    | VStr p => match pattern_body p with Some b => match regex b with Some f => f t | None => false end | None => false end
    | _ => false
    end
  | _ => true
  end.

Definition minimum_ok (kv v : value) : bool :=
  match as_json_number kv, as_json_number v with Some b, Some x => negb (number_ltb x b) | _, _ => true end.
Definition maximum_ok (kv v : value) : bool :=
  match as_json_number kv, as_json_number v with Some b, Some x => negb (number_ltb b x) | _, _ => true end.

Definition required_ok (kv v : value) : bool :=
  match kv, v with
  | VList names, VDict d => forallb (fun n => match n with VStr n => dhas n d | _ => false end) names
  | _, _ => true
  end.

(** [additionalProperties: false] allows the keys its sibling [properties] names. *)
Definition additional_ok (kws : dict value) (kv v : value) : bool :=
  match kv, v with
  | VBool false, VDict d =>
    forallb (fun k => match get (u "properties") kws with VDict subs => dhas k subs | _ => false end) (dkeys d)
  | _, _ => true
  end.

Definition keyword_ok (kws : dict value) (k : text) (kv v : value) : bool :=
  let key_is s := bool_decide (k = u s) in
  if key_is "type" then type_ok kv v
  else if key_is "minLength" then at_least kv (text_size v)
  else if key_is "maxLength" then at_most kv (text_size v)
  else if key_is "pattern" then pattern_ok kv v
  else if key_is "minItems" then at_least kv (list_size v)
  else if key_is "maxItems" then at_most kv (list_size v)
  else if key_is "minimum" then minimum_ok kv v
  else if key_is "maximum" then maximum_ok kv v
  else if key_is "required" then required_ok kv v
  else if key_is "additionalProperties" then additional_ok kws kv v
  else true.

Fixpoint valid (schema v : value) {struct schema} : bool :=
  match schema with
  | VDict kws =>
    forallb (fun kw =>
      let '(k, kv) := kw in
      if bool_decide (k = u "anyOf")
      then match kv with VList options => existsb (fun option => valid option v) options | _ => false end
      else if bool_decide (k = u "items")
      then match v with VList l => forallb (valid kv) l | _ => true end
      else if bool_decide (k = u "properties")
      then match kv with
           | VDict subs =>
             match v with
             | VDict d => forallb (fun sub => match dget sub.1 d with Some w => valid sub.2 w | None => true end) subs
             | _ => true
             end
           | _ => false
           end
      else keyword_ok kws k kv v) kws
  | _ => false
  end.
End Reference.

(** ** Facts: keywords *)
Definition drop_key (k : text) (r : dict Keyword) : dict Keyword :=
  List.filter (fun kw => negb (bool_decide (kw.1 = k))) r.

Lemma dget_filter {A} (p : text -> bool) k (d : dict A) :
  dget k (List.filter (fun kw => p kw.1) d) = if p k then dget k d else None.
Proof.
  induction d as [|[k' v] d IH]; simpl; [by destruct (p k)|].
  destruct (p k') eqn:E; simpl; case_bool_decide as Hk; subst; rewrite ?E; rewrite ?IH; try done.
  by rewrite E.
Qed.

Lemma dget_map {A B} (f : A -> B) k (d : dict A) :
  dget k (map (fun kw => (kw.1, f kw.2)) d) = f <$> dget k d.
Proof. induction d as [|[k' v] d IH]; simpl; [done|]. by case_bool_decide. Qed.

Lemma dget_drop_eq k r : dget k (drop_key k r) = None.
Proof.
  etrans; [exact (dget_filter (fun k' => negb (bool_decide (k' = k))) k r)|].
  by rewrite bool_decide_eq_true_2.
Qed.

Lemma dget_drop_ne k k' r : k' <> k -> dget k' (drop_key k r) = dget k' r.
Proof.
  intros Hne. etrans; [exact (dget_filter (fun k' => negb (bool_decide (k' = k))) k' r)|].
  by rewrite bool_decide_eq_false_2.
Qed.

(** Nothing is left once [ks] are dropped: the keywords are among [ks]. *)
Fixpoint drop_all (ks : list text) (r : dict Keyword) : dict Keyword :=
  match ks with [] => r | k :: ks' => drop_all ks' (drop_key k r) end.

Lemma drop_all_only ks r k : drop_all ks r = [] -> k ∉ ks -> dget k r = None.
Proof.
  revert r. induction ks as [|k' ks IH]; intros r; simpl; [by intros -> _|].
  intros H [Hne Hk]%not_elem_of_cons. rewrite <- (dget_drop_ne k' k r) by done. by apply IH.
Qed.

Lemma forallb_eq {A} (f g : A -> bool) l : (forall x, f x = g x) -> forallb f l = forallb g l.
Proof. intros H. induction l as [|x l IH]; simpl; [done|]. by rewrite H, IH. Qed.

Definition value_at (k : text) (r : dict Keyword) : option value := kw_value <$> dget k r.

Lemma count_Ok r key path floor o r' :
  count r key path floor = Ok (o, r') -> r' = drop_key key r /\ value_at key r = VInt <$> o.
Proof.
  unfold count, pop, value_at. destruct (dget key r) as [w|] eqn:E; [|by intros [= <- <-]].
  simpl. destruct (kw_value w); try done. destruct (_ <? _); [done|]. by intros [= <- <-].
Qed.

Definition number_value (x : number) : value := match x with NumInt n => VInt n | NumFloat f => VFloat f end.

Lemma bound_Ok r key path o r' :
  bound r key path = Ok (o, r') -> r' = drop_key key r /\ value_at key r = number_value <$> o.
Proof.
  unfold bound, pop, value_at. destruct (dget key r) as [w|] eqn:E; [|by intros [= <- <-]].
  simpl. destruct (kw_value w) as [| |n|f| | |]; try done.
  - destruct (is_none _); [done|]. by intros [= <- <-].
  - destruct (is_finite f); [|done]. by intros [= <- <-].
Qed.

Lemma as_json_number_value x : as_json_number (number_value x) = Some x.
Proof. by destruct x. Qed.

Section Faithful.
Context (regex : text -> option (text -> bool)).

Lemma pattern_of_Ok v path f t : pattern_of regex v path = Ok f -> pattern_ok regex v (VStr t) = f t.
Proof.
  unfold pattern_of, pattern_ok. destruct v as [| | | |p| |]; try done.
  destruct (pattern_body p) as [b|]; [|done]. destruct (regex b); [|done]. by intros [= ->].
Qed.

(** *** The keywords of an object schema *)
Definition member_ok (kws : dict value) (k : text) (kv v : value) : bool :=
  if bool_decide (k = u "anyOf")
  then match kv with VList options => existsb (fun option => valid regex option v) options | _ => false end
  else if bool_decide (k = u "items")
  then match v with VList l => forallb (valid regex kv) l | _ => true end
  else if bool_decide (k = u "properties")
  then match kv with
       | VDict subs =>
         match v with
         | VDict d => forallb (fun sub => match dget sub.1 d with Some w => valid regex sub.2 w | None => true end) subs
         | _ => true
         end
       | _ => false
       end
  else keyword_ok regex kws k kv v.

Lemma valid_members kws v : valid regex (VDict kws) v = forallb (fun kw => member_ok kws kw.1 kw.2 v) kws.
Proof. cbn [valid]. apply forallb_eq. by intros [k kv]. Qed.

Definition present_ok (kws : dict value) (v : value) (k : text) : bool :=
  match dget k kws with Some kv => member_ok kws k kv v | None => true end.

Lemma annotation_ok kws v k kv : k ∈ ANNOTATIONS -> member_ok kws k kv v = true.
Proof.
  unfold ANNOTATIONS. intros H. repeat (apply elem_of_cons in H as [->|H]; [reflexivity|]). by apply elem_of_nil in H.
Qed.

(** A schema whose keywords, annotations apart, are among [ks] is the conjunction of those. *)
Lemma valid_keys kws v ks :
  NoDup (dkeys kws) -> (forall k, k ∉ ANNOTATIONS -> k ∉ ks -> dget k kws = None) ->
  valid regex (VDict kws) v = forallb (present_ok kws v) ks.
Proof.
  intros Hnd Honly. rewrite valid_members. apply eq_true_iff_eq. rewrite !forallb_forall. split.
  - intros H k _. unfold present_ok. destruct (dget k kws) as [kv|] eqn:E; [|done].
    apply (H (k, kv)). apply list_elem_of_In. by apply dget_elem.
  - intros H [k kv] Hin%list_elem_of_In. cbn [fst snd]. pose proof (elem_dget k kv kws Hnd Hin) as E.
    destruct (decide (k ∈ ANNOTATIONS)) as [Ha|Ha]; [by apply annotation_ok|].
    destruct (decide (k ∈ ks)) as [Hk|Hk]; [|by rewrite (Honly k Ha Hk) in E].
    apply list_elem_of_In, H in Hk. unfold present_ok in Hk. by rewrite E in Hk.
Qed.

(** The keywords of a compiled object: what [consume] reads of them. *)
Definition keywords_of (kws : dict value) : dict Keyword :=
  map (fun kw => (kw.1,
    {| kw_value := kw.2; kw_node := node regex kw.2;
       kw_options := match kw.2 with VList options => map (node regex) options | _ => [] end;
       kw_properties := match kw.2 with VDict subs => map (fun sub => (sub.1, node regex sub.2)) subs | _ => [] end |}))
    kws.

Definition rest_of (kws : dict value) : dict Keyword :=
  List.filter (fun kw => negb (mem kw.1 ANNOTATIONS)) (keywords_of kws).

Lemma mem_annotation k : negb (mem k ANNOTATIONS) = bool_decide (k ∉ ANNOTATIONS).
Proof.
  destruct (mem k ANNOTATIONS) eqn:E; simpl; symmetry.
  - apply bool_decide_eq_false_2. intros H. apply H. by apply mem_spec.
  - apply bool_decide_eq_true_2. intros H%mem_spec. congruence.
Qed.

Lemma rest_keyword kws k w :
  dget k (rest_of kws) = Some w ->
  dget k kws = Some (kw_value w) /\ kw_node w = node regex (kw_value w) /\
  kw_options w = match kw_value w with VList options => map (node regex) options | _ => [] end /\
  kw_properties w = match kw_value w with VDict subs => map (fun sub => (sub.1, node regex sub.2)) subs | _ => [] end.
Proof.
  unfold rest_of. intros H.
  assert (dget k (keywords_of kws) = Some w) as Hk.
  { pose proof (dget_filter (fun k' => negb (mem k' ANNOTATIONS)) k (keywords_of kws)) as Hf. cbv beta in Hf.
    rewrite Hf in H. by destruct (negb _). }
  unfold keywords_of in Hk. rewrite (dget_map (fun v => {| kw_value := v; kw_node := node regex v;
    kw_options := match v with VList options => map (node regex) options | _ => [] end;
    kw_properties := match v with VDict subs => map (fun sub => (sub.1, node regex sub.2)) subs | _ => [] end |})) in Hk.
  destruct (dget k kws) as [v|]; [|done]. by injection Hk as <-.
Qed.

Lemma rest_value kws k : k ∉ ANNOTATIONS -> value_at k (rest_of kws) = dget k kws.
Proof.
  intros Hk. unfold value_at, rest_of.
  pose proof (dget_filter (fun k' => negb (mem k' ANNOTATIONS)) k (keywords_of kws)) as Hf. cbv beta in Hf.
  rewrite Hf, mem_annotation, bool_decide_eq_true_2 by done. unfold keywords_of.
  rewrite (dget_map (fun v => {| kw_value := v; kw_node := node regex v;
    kw_options := match v with VList options => map (node regex) options | _ => [] end;
    kw_properties := match v with VDict subs => map (fun sub => (sub.1, node regex sub.2)) subs | _ => [] end |})).
  by destruct (dget k kws).
Qed.

Lemma valid_rest kws v ks :
  NoDup (dkeys kws) -> drop_all ks (rest_of kws) = [] ->
  valid regex (VDict kws) v = forallb (present_ok kws v) ks.
Proof.
  intros Hnd Hdrop. apply valid_keys; [done|]. intros k Ha Hk.
  rewrite <- rest_value by done. unfold value_at. by rewrite (drop_all_only ks).
Qed.

(** What a node makes of a sent value, in both directions. *)
Definition faithful (s : value) (n : Node) : Prop :=
  forall v, (valid regex s v = true -> is_Some (accepts n (Some v))) /\
    (forall w, accepts n (Some v) = Some w -> valid regex s w = true).

Lemma present_at_least kws v k size o :
  dget k kws = VInt <$> o -> (forall kv, member_ok kws k kv v = at_least kv (size v)) ->
  present_ok kws v k = match size v with Some m => negb (under Z.ltb m o) | None => true end.
Proof.
  intros Hk Hm. unfold present_ok. rewrite Hk. destruct o as [n|]; simpl; [|by destruct (size v)].
  rewrite Hm. unfold at_least. destruct (size v); [|done]. by rewrite Z.leb_antisym.
Qed.

Lemma present_at_most kws v k size o :
  dget k kws = VInt <$> o -> (forall kv, member_ok kws k kv v = at_most kv (size v)) ->
  present_ok kws v k = match size v with Some m => negb (over Z.ltb m o) | None => true end.
Proof.
  intros Hk Hm. unfold present_ok. rewrite Hk. destruct o as [n|]; simpl; [|by destruct (size v)].
  rewrite Hm. unfold at_most. destruct (size v); [|done]. by rewrite Z.leb_antisym.
Qed.

Lemma present_minimum kws v o :
  dget (u "minimum") kws = number_value <$> o ->
  present_ok kws v (u "minimum") = match as_json_number v with Some x => negb (under number_ltb x o) | None => true end.
Proof.
  intros Hk. unfold present_ok. rewrite Hk. destruct o as [b|]; simpl; [|by destruct (as_json_number v)].
  change (minimum_ok (number_value b) v = match as_json_number v with Some x => negb (number_ltb x b) | None => true end).
  unfold minimum_ok. by rewrite as_json_number_value.
Qed.

Lemma present_maximum kws v o :
  dget (u "maximum") kws = number_value <$> o ->
  present_ok kws v (u "maximum") = match as_json_number v with Some x => negb (over number_ltb x o) | None => true end.
Proof.
  intros Hk. unfold present_ok. rewrite Hk. destruct o as [b|]; simpl; [|by destruct (as_json_number v)].
  change (maximum_ok (number_value b) v = match as_json_number v with Some x => negb (number_ltb b x) | None => true end).
  unfold maximum_ok. by rewrite as_json_number_value.
Qed.

Lemma present_type kws v ty : dget (u "type") kws = Some ty -> present_ok kws v (u "type") = type_ok ty v.
Proof. intros Hk. unfold present_ok. by rewrite Hk. Qed.

Lemma drop_value k k' r : k' <> k -> value_at k' (drop_key k r) = value_at k' r.
Proof. intros Hne. unfold value_at. by rewrite dget_drop_ne. Qed.
End Faithful.

(** Distinct keyword names, and names that are no annotation, by computation. *)
Ltac name_facts := solve [apply (bool_decide_unpack _); vm_compute; reflexivity | vm_compute; discriminate].
Ltac read_keyword H := rewrite ?drop_value in H by name_facts; rewrite rest_value in H by name_facts.

Section Faithful.
Context (regex : text -> option (text -> bool)).

Lemma string_faithful kws path n :
  NoDup (dkeys kws) -> dget (u "type") kws = Some (vs "string") ->
  string_of regex (drop_key (u "type") (rest_of regex kws)) path = Ok (n, []) -> faithful regex (VDict kws) n.
Proof.
  intros Hnd Hty. unfold string_of, pop. fold (drop_key (u "pattern") (drop_key (u "type") (rest_of regex kws))).
  set (r := rest_of regex kws). set (p := dget (u "pattern") (drop_key (u "type") r)).
  intros ([mn r1] & [-> Hmn]%count_Ok & H)%rbind_Ok. apply rbind_Ok in H as (pt & Hpt & H).
  apply rbind_Ok in H as ([mx r2] & [-> Hmx]%count_Ok & H). injection H as <- Hdrop.
  unfold r in Hmn, Hmx. read_keyword Hmn. read_keyword Hmx.
  assert (forall v, valid regex (VDict kws) v =
            match v with VStr t => string_ok mn pt mx t | _ => false end) as Hv.
  { intros v. rewrite (valid_rest regex kws v [u "type"; u "pattern"; u "minLength"; u "maxLength"] Hnd Hdrop).
    cbn [forallb]. rewrite (present_type regex kws v _ Hty),
      (present_at_least regex kws v (u "minLength") text_size mn Hmn) by reflexivity.
    rewrite (present_at_most regex kws v (u "maxLength") text_size mx Hmx) by reflexivity.
    destruct v as [| | | |t| |]; try reflexivity. change (type_ok (vs "string") (VStr t)) with true.
    cbn [text_size andb]. rewrite andb_true_r. unfold string_ok.
    assert (present_ok regex kws (VStr t) (u "pattern") = match pt with Some f => f t | None => true end) as ->.
    { unfold present_ok, p in *. destruct (dget (u "pattern") (drop_key (u "type") r)) as [w|] eqn:E.
      - apply rbind_Ok in Hpt as (f & Hf & [= <-]). rewrite dget_drop_ne in E by name_facts.
        apply rest_keyword in E as [-> _]. by apply (pattern_of_Ok regex _ path).
      - injection Hpt as <-.
        assert (value_at (u "pattern") (drop_key (u "type") r) = None) as Hn by (unfold value_at; by rewrite E).
        unfold r in Hn. read_keyword Hn. by rewrite Hn. }
    by destruct pt as [f|]; [destruct (f t)|]; destruct (under _ _ _), (over _ _ _). }
  intros v. rewrite Hv. split.
  - destruct v as [| | | |t| |]; try done. cbn [accepts]. intros ->. by eexists.
  - intros w. cbn [accepts]. destruct v as [| | | |t| |]; try done. destruct (string_ok _ _ _ _) eqn:E; [|done].
    intros [= <-]. by rewrite Hv.
Qed.

Lemma number_faithful (integer : bool) kws path n :
  NoDup (dkeys kws) -> dget (u "type") kws = Some (vs (if integer then "integer" else "number")%string) ->
  number_of integer (drop_key (u "type") (rest_of regex kws)) path = Ok (n, []) -> faithful regex (VDict kws) n.
Proof.
  intros Hnd Hty. unfold number_of.
  intros H. apply rbind_Ok in H as ([mn r1] & [-> Hmn]%bound_Ok & H).
  apply rbind_Ok in H as ([mx r2] & [-> Hmx]%bound_Ok & H). injection H as <- Hdrop.
  read_keyword Hmn. read_keyword Hmx.
  assert (forall v, valid regex (VDict kws) v =
            match as_json_number v with Some x => number_ok integer mn mx x | None => false end) as Hv.
  { intros v. rewrite (valid_rest regex kws v [u "type"; u "minimum"; u "maximum"] Hnd Hdrop). cbn [forallb].
    rewrite (present_type regex kws v _ Hty), (present_minimum regex kws v mn Hmn), (present_maximum regex kws v mx Hmx).
    assert (type_ok (vs (if integer then "integer" else "number")%string) v =
      match as_json_number v with Some x => finite_number x && (negb integer || is_integral x) | None => false end) as ->.
    { destruct integer; [reflexivity|]. transitivity (match as_json_number v with Some x => finite_number x | None => false end);
        [reflexivity|]. destruct (as_json_number v); [|done]. by rewrite andb_true_r. }
    destruct (as_json_number v) as [x|]; [|reflexivity]. unfold number_ok. by rewrite andb_true_r, andb_assoc. }
  intros v. rewrite Hv. cbn [accepts]. split.
  - destruct (as_json_number v) as [x|]; [|done]. intros ->. by eexists.
  - intros w. destruct (as_json_number v) as [x|] eqn:Ex; [|done]. destruct (number_ok _ _ _ _) eqn:E; [|done].
    intros [= <-]. by rewrite Hv, Ex.
Qed.

Lemma boolean_faithful kws :
  NoDup (dkeys kws) -> dget (u "type") kws = Some (vs "boolean") ->
  drop_key (u "type") (rest_of regex kws) = [] -> faithful regex (VDict kws) NBoolean.
Proof.
  intros Hnd Hty Hdrop.
  assert (forall v, valid regex (VDict kws) v = match v with VBool _ => true | _ => false end) as Hv.
  { intros v. rewrite (valid_rest regex kws v [u "type"] Hnd Hdrop). cbn [forallb].
    rewrite (present_type regex kws v _ Hty). by destruct v. }
  intros v. rewrite Hv. cbn [accepts]. split.
  - by destruct v.
  - intros w. destruct v; try done. intros [= <-]. by rewrite Hv.
Qed.

(** *** Arrays *)
Lemma accept_items_valid (p : Node -> option value -> option value) items (ok : value -> bool) l :
  (forall v, ok v = true -> is_Some (p items (Some v))) -> forallb ok l = true ->
  forall parsed, is_Some (accept_items p items l parsed).
Proof.
  intros Hp. induction l as [|v l IH]; intros Hok parsed; cbn [accept_items]; [by eexists|].
  cbn [forallb] in Hok. apply andb_prop in Hok as [Hv Hl]. destruct (Hp v Hv) as [w ->]. by apply IH.
Qed.

Lemma accept_items_shape (p : Node -> option value -> option value) items (ok : value -> bool) l :
  (forall v w, p items (Some v) = Some w -> ok w = true) ->
  forall parsed r, accept_items p items l parsed = Some r ->
    exists ws, r = VList (parsed ++ ws) /\ length ws = length l /\ forallb ok ws = true.
Proof.
  intros Hp. induction l as [|v l IH]; intros parsed r; cbn [accept_items].
  - intros [= <-]. exists []. by rewrite app_nil_r.
  - destruct (p items (Some v)) as [w|] eqn:E; [|done]. intros (ws & -> & Hlen & Hok)%IH.
    exists (w :: ws). rewrite <- app_assoc. split; [done|]. split; [by simpl; rewrite Hlen|].
    cbn [forallb]. by rewrite (Hp v w E), Hok.
Qed.

Lemma array_faithful kws path n :
  wf_value (VDict kws) -> dget (u "type") kws = Some (vs "array") ->
  (forall items path n, dget (u "items") kws = Some items -> node regex items path = Ok n -> faithful regex items n) ->
  array_of (drop_key (u "type") (rest_of regex kws)) path = Ok (n, []) -> faithful regex (VDict kws) n.
Proof.
  intros Hwf Hty IH. pose proof (proj1 Hwf) as Hnd. unfold array_of, pop.
  destruct (dget (u "items") (drop_key (u "type") (rest_of regex kws))) as [w|] eqn:Ei; [|done].
  rewrite dget_drop_ne in Ei by name_facts. apply rest_keyword in Ei as (Hi & Hnode & _).
  fold (drop_key (u "items") (drop_key (u "type") (rest_of regex kws))).
  destruct (kw_value w) as [| | | | | |items] eqn:Ew; try done. rewrite Hnode.
  intros (ni & Hni & H)%rbind_Ok. apply (IH _ _ _ Hi) in Hni.
  apply rbind_Ok in H as ([mn r1] & [-> Hmn]%count_Ok & H).
  apply rbind_Ok in H as ([mx r2] & [-> Hmx]%count_Ok & H). injection H as <- Hdrop.
  read_keyword Hmn. read_keyword Hmx.
  assert (forall v, valid regex (VDict kws) v =
            match v with
            | VList l => forallb (valid regex (VDict items)) l && array_ok mn mx (Z.of_nat (length l))
            | _ => false
            end) as Hv.
  { intros v. rewrite (valid_rest regex kws v [u "type"; u "items"; u "minItems"; u "maxItems"] Hnd Hdrop). cbn [forallb].
    rewrite (present_type regex kws v _ Hty),
      (present_at_least regex kws v (u "minItems") list_size mn Hmn) by reflexivity.
    rewrite (present_at_most regex kws v (u "maxItems") list_size mx Hmx) by reflexivity.
    assert (present_ok regex kws v (u "items") = match v with VList l => forallb (valid regex (VDict items)) l | _ => true end) as ->
      by (unfold present_ok; by rewrite Hi).
    destruct v as [| | | | |l|]; try reflexivity. change (type_ok (vs "array") (VList l)) with true.
    cbn [list_size andb]. unfold array_ok. by rewrite andb_true_r. }
  intros v. rewrite Hv. cbn [accepts]. split.
  - destruct v as [| | | | |l|]; try done. intros [Hl ->]%andb_prop.
    eapply (accept_items_valid accepts ni); [|exact Hl]. intros x. by apply Hni.
  - intros r. destruct v as [| | | | |l|]; try done. destruct (array_ok _ _ _) eqn:E; [|done].
    intros (ws & -> & Hlen & Hok)%(accept_items_shape accepts ni (valid regex (VDict items)));
      [|intros x w'; by apply Hni].
    rewrite Hv. cbn [app]. by rewrite Hok, Hlen, E.
Qed.

(** *** Objects *)
Lemma NoDup_key_inj {A B} (f : A -> B) l x y : NoDup (f <$> l) -> x ∈ l -> y ∈ l -> f x = f y -> x = y.
Proof.
  intros Hnd [i Hi]%list_elem_of_lookup [j Hj]%list_elem_of_lookup Hf.
  assert (i = j) as ->; [|congruence].
  eapply (proj1 (NoDup_alt _) Hnd); rewrite list_lookup_fmap, ?Hi, ?Hj; simpl; by rewrite ?Hf.
Qed.

Lemma names_of_Ok o names :
  names_of o = Some names ->
  match kw_value <$> o with None => names = [] | Some v => v = VList (VStr <$> names) end.
Proof.
  unfold names_of. destruct (kw_value <$> o) as [[| | | | |l|]|]; try done; [|by intros [= <-]].
  intros H%mapM_Some. f_equal. induction H as [|v t l names Hv _ IH]; [done|]. cbn [fmap list_fmap]. f_equal; [|exact IH].
  by destruct v; simplify_eq/=.
Qed.

Lemma record_faithful kws :
  NoDup (dkeys kws) -> dget (u "type") kws = Some (vs "object") -> dget (u "properties") kws = None ->
  keep_whole (dget (u "additionalProperties") (rest_of regex kws)) = true ->
  drop_all [u "type"; u "additionalProperties"; u "properties"] (rest_of regex kws) = [] ->
  faithful regex (VDict kws) NRecord.
Proof.
  intros Hnd Hty Hp Hadd Hdrop.
  assert (forall v, valid regex (VDict kws) v = match v with VDict _ => true | _ => false end) as Hv.
  { intros v. rewrite (valid_rest regex kws v _ Hnd Hdrop). cbn [forallb].
    rewrite (present_type regex kws v _ Hty).
    assert (present_ok regex kws v (u "properties") = true) as -> by (unfold present_ok; by rewrite Hp).
    assert (present_ok regex kws v (u "additionalProperties") = true) as ->.
    { unfold keep_whole in Hadd. unfold present_ok.
      rewrite <- (rest_value regex) by name_facts. unfold value_at.
      destruct (dget _ (rest_of regex kws)) as [w|]; [|done]. cbn [fmap option_fmap option_map] in *.
      change (additional_ok kws (kw_value w) v = true). by destruct (kw_value w) as [|[]| | | | |[]]; try done; destruct v. }
    by destruct v. }
  intros v. rewrite Hv. cbn [accepts]. split.
  - by destruct v.
  - intros w. destruct v; try done. intros [= <-]. by rewrite Hv.
Qed.

(** A property of the schema and the one compiled from it. *)
Definition compiled_from (names : list text) (sub : text * value) (p : text * Node * (bool * option Refinement)) : Prop :=
  exists n, p = (sub.1, n, (mem sub.1 names, None)) /\ faithful regex sub.2 n.

Lemma compiled_keys names subs ps : Forall2 (compiled_from names) subs ps -> property_keys ps = dkeys subs.
Proof. induction 1 as [|sub p subs ps (n & -> & _) _ IH]; [done|]. cbn. f_equal. exact IH. Qed.

Lemma accept_properties_valid d names subs ps :
  Forall2 (compiled_from names) subs ps ->
  Forall (fun sub => match dget sub.1 d with Some w => valid regex sub.2 w = true | None => mem sub.1 names = false end) subs ->
  forall parsed, is_Some (accept_properties accepts d ps parsed).
Proof.
  induction 1 as [|sub p subs ps (n & -> & Hn) _ IH]; intros Hok parsed; cbn [accept_properties]; [by eexists|].
  apply Forall_cons in Hok as [Hs Hok].
  destruct (dget sub.1 d) as [w|] eqn:Ed; cbn [is_none andb].
  - apply Hn in Hs as [w' ->]. by apply IH.
  - rewrite Hs. by apply IH.
Qed.

Lemma accepted_valid d names subs ps d' :
  NoDup (dkeys subs) -> Forall2 (compiled_from names) subs ps ->
  accept_properties accepts d ps [] = Some (VDict d') ->
  Forall (fun sub => match dget sub.1 d' with Some w => valid regex sub.2 w = true | None => mem sub.1 names = false end) subs /\
  Forall (fun k => k ∈ dkeys subs) (dkeys d').
Proof.
  intros Hnd Hall Hacc. pose proof (compiled_keys _ _ _ Hall) as Hkeys.
  apply accept_properties_shape in Hacc as (d0 & [= <-] & Hd & Hvals & Hreq); [|by rewrite Hkeys].
  split.
  - apply Forall_forall. intros [k s] Hs. apply list_elem_of_lookup in Hs as [i Hi].
    destruct (Forall2_lookup_l _ _ _ _ _ Hall Hi) as (p & Hp & n & -> & Hn). cbn [fst snd] in *.
    apply list_elem_of_lookup_2 in Hp.
    destruct (dget k d') as [w|] eqn:Ed.
    + apply dget_elem in Ed. eapply Forall_forall in Hvals; [|exact Ed]. cbn [fst snd] in Hvals.
      destruct Hvals as (n' & rq & rf & raw & Hin & _ & Hacc & _).
      rewrite <- Hkeys in Hnd. pose proof (NoDup_key_inj (fun q => q.1.1) ps _ _ Hnd Hin Hp eq_refl) as [= -> _ _].
      by eapply Hn.
    + destruct (mem k names) eqn:Em; [|done]. eapply Forall_forall in Hreq; [|exact Hp]. cbn [fst snd] in Hreq.
      apply dget_None in Ed. by destruct (Ed (Hreq eq_refl)).
  - apply Forall_forall. intros k Hk. rewrite Hd in Hk. apply list_elem_of_In, List.filter_In in Hk as [Hk _].
    rewrite <- Hkeys. by apply list_elem_of_In.
Qed.

Lemma find_None_Forall {A} (p : A -> bool) l : List.find p l = None -> Forall (fun x => p x = false) l.
Proof. intros H. apply Forall_forall. intros x Hx%list_elem_of_In. by eapply find_none. Qed.

Lemma object_valid kws subs names v :
  dget (u "type") kws = Some (vs "object") -> dget (u "properties") kws = Some (VDict subs) ->
  dget (u "additionalProperties") kws = Some (VBool false) ->
  match dget (u "required") kws with None => names = [] | Some r => r = VList (VStr <$> names) end ->
  forallb (present_ok regex kws v) [u "type"; u "additionalProperties"; u "properties"; u "required"] = true <->
  exists d, v = VDict d /\
    Forall (fun k => k ∈ dkeys subs) (dkeys d) /\
    Forall (fun sub => match dget sub.1 d with Some w => valid regex sub.2 w = true | None => True end) subs /\
    Forall (fun name => name ∈ dkeys d) names.
Proof.
  intros Hty Hprops Hadd Hreq. cbn [forallb]. rewrite (present_type regex kws v _ Hty).
  destruct v as [| | | | | |d]; try (split; [done|by intros (? & [=] & _)]).
  change (type_ok (vs "object") (VDict d)) with true. cbn [andb]. rewrite andb_true_r, !andb_true_iff.
  assert (present_ok regex kws (VDict d) (u "additionalProperties") = true <-> Forall (fun k => k ∈ dkeys subs) (dkeys d)) as ->.
  { unfold present_ok. rewrite Hadd. change (additional_ok kws (VBool false) (VDict d) = true <-> Forall (fun k => k ∈ dkeys subs) (dkeys d)).
    unfold additional_ok, get. rewrite Hprops. cbn [or_else]. rewrite forallb_forall, Forall_forall.
    setoid_rewrite dhas_spec. setoid_rewrite list_elem_of_In. done. }
  assert (present_ok regex kws (VDict d) (u "properties") = true <->
    Forall (fun sub => match dget sub.1 d with Some w => valid regex sub.2 w = true | None => True end) subs) as ->.
  { unfold present_ok. rewrite Hprops.
    change (forallb (fun sub => match dget sub.1 d with Some w => valid regex sub.2 w | None => true end) subs = true <->
      Forall (fun sub => match dget sub.1 d with Some w => valid regex sub.2 w = true | None => True end) subs).
    rewrite forallb_forall, Forall_forall. split; intros H sub Hs%list_elem_of_In; specialize (H sub Hs);
      (destruct (dget sub.1 d); [exact H|done]). }
  assert (present_ok regex kws (VDict d) (u "required") = true <-> Forall (fun name => name ∈ dkeys d) names) as ->.
  { unfold present_ok. destruct (dget (u "required") kws) as [r|]; [subst r|subst names; by split].
    change (forallb (fun n => match n with VStr n => dhas n d | _ => false end) (VStr <$> names) = true <->
      Forall (fun name => name ∈ dkeys d) names).
    induction names as [|name names IH]; [done|]. cbn [fmap list_fmap forallb].
    by rewrite andb_true_iff, dhas_spec, IH, Forall_cons. }
  split; [intros (H1 & H2 & H3); by exists d|intros (? & [= <-] & H1 & H2 & H3); done].
Qed.

Lemma object_faithful kws path n :
  wf_value (VDict kws) -> dget (u "type") kws = Some (vs "object") ->
  (forall subs k sub path n, dget (u "properties") kws = Some (VDict subs) -> (k, sub) ∈ subs ->
     node regex sub path = Ok n -> faithful regex sub n) ->
  object_of (drop_key (u "type") (rest_of regex kws)) path = Ok (n, []) -> faithful regex (VDict kws) n.
Proof.
  intros Hwf Hty IH. pose proof (proj1 Hwf) as Hnd. unfold object_of, pop.
  set (r := rest_of regex kws) in *.
  change (List.filter (fun kw => negb (bool_decide (kw.1 = u "additionalProperties"))) (drop_key (u "type") r))
    with (drop_key (u "additionalProperties") (drop_key (u "type") r)).
  rewrite !dget_drop_ne by name_facts.
  change (List.filter (fun kw => negb (bool_decide (kw.1 = u "properties"))) (drop_key (u "additionalProperties") (drop_key (u "type") r)))
    with (drop_key (u "properties") (drop_key (u "additionalProperties") (drop_key (u "type") r))).
  destruct (dget (u "properties") r) as [w|] eqn:Ep.
  2: { destruct (keep_whole _) eqn:Ek; [|done]. intros [= <- Hdrop].
       assert (dget (u "properties") kws = None) as Hp.
       { rewrite <- (rest_value regex) by name_facts. unfold value_at. fold r. by rewrite Ep. }
       by apply record_faithful. }
  destruct (kw_value <$> dget (u "additionalProperties") r) as [[|[]| | | | |]|] eqn:Ea; try done.
  apply rest_keyword in Ep as (Hp & _ & _ & Hsubs).
  destruct (kw_value w) as [| | | | | |subs] eqn:Ew; try done. rewrite Hsubs.
  assert (dget (u "additionalProperties") kws = Some (VBool false)) as Hadd.
  { rewrite <- (rest_value regex) by name_facts. exact Ea. }
  rewrite !dget_drop_ne by name_facts.
  destruct (names_of (dget (u "required") r)) as [names|] eqn:En; [|done]. apply names_of_Ok in En.
  change (kw_value <$> dget (u "required") r) with (value_at (u "required") r) in En.
  unfold r in En. rewrite rest_value in En by name_facts.
  destruct (List.find _ names) eqn:Ef; [done|]. apply find_None_Forall in Ef.
  intros H. apply rbind_Ok in H as (ps & Hps%rmap_Ok & H). injection H as <- Hdrop.
  assert (Forall2 (compiled_from names) subs ps) as Hall.
  { clear -Hps IH Hp. revert Hps. assert (forall sub, sub ∈ subs -> forall path n, node regex sub.2 path = Ok n -> faithful regex sub.2 n) as IH'.
    { intros [k sub] Hin path' n Hn. by eapply IH. }
    clear IH Hp. revert ps. induction subs as [|sub subs IHs]; intros ps; cbn [map].
    - by intros ->%Forall2_nil_inv_l.
    - intros (p & ps' & Hc & Hps & ->)%Forall2_cons_inv_l. apply rbind_Ok in Hc as (n & Hn & [= <-]).
      constructor; [exists n; split; [done|]; eapply IH'; [left|exact Hn]|].
      apply IHs; [|exact Hps]. intros sub' Hin. apply IH'. by right. }
  assert (NoDup (dkeys subs)) as Hnds.
  { apply dget_elem in Hp. by apply wf_dict_elem in Hp as [? _]. }
  assert (forall v, valid regex (VDict kws) v = true <-> exists d, v = VDict d /\
    Forall (fun k => k ∈ dkeys subs) (dkeys d) /\
    Forall (fun sub => match dget sub.1 d with Some w => valid regex sub.2 w = true | None => True end) subs /\
    Forall (fun name => name ∈ dkeys d) names) as Hv.
  { intros v. erewrite (valid_rest regex kws v [_; _; _; _] Hnd Hdrop). by apply object_valid. }
  assert (forall name, name ∈ names -> name ∈ dkeys subs) as Hnames.
  { intros name Hin. eapply Forall_forall in Ef; [|exact Hin]. apply negb_false_iff, dhas_spec in Ef.
    apply list_elem_of_fmap in Ef as ([k c] & -> & Hc).
    apply list_elem_of_In, in_map_iff in Hc as (sub & [= <- _] & Hsub). apply list_elem_of_In in Hsub.
    change (sub.1 ∈ dkeys subs). by apply (list_elem_of_fmap_2 fst). }
  intros v. cbn [accepts]. split.
  - intros (d & -> & _ & Hprops & Hreq)%Hv. eapply accept_properties_valid; [exact Hall|].
    eapply Forall_impl; [exact Hprops|]. intros sub. cbn. destruct (dget sub.1 d) eqn:Ed; [done|]. intros _.
    apply not_true_iff_false. intros Hm%mem_spec. eapply Forall_forall in Hreq; [|exact Hm]. by apply dget_None in Ed.
  - intros w0. destruct v as [| | | | | |d]; try done. intros Hacc.
    assert (exists d', w0 = VDict d') as [d' ->].
    { pose proof (compiled_keys _ _ _ Hall) as Hk.
      apply accept_properties_shape in Hacc as (d' & -> & _); [by eexists|by rewrite Hk]. }
    apply (accepted_valid d names subs ps d' Hnds Hall) in Hacc as [Hprops Hkeys].
    apply Hv. exists d'. split; [done|]. split; [done|]. split.
    + eapply Forall_impl; [exact Hprops|]. intros sub. cbn. by destruct (dget sub.1 d').
    + apply Forall_forall. intros name Hn. specialize (Hnames name Hn) as Hin.
      apply list_elem_of_fmap in Hin as (sub & -> & Hsub). eapply Forall_forall in Hprops; [|exact Hsub].
      destruct (dget sub.1 d') as [w'|] eqn:Ed; [apply dget_is_Some; by eexists|].
      exfalso. apply mem_spec in Hn. congruence.
Qed.

(** *** Unions *)
Lemma union_nodes_Ok path options : forall index nodes n,
  union_nodes path index options nodes = Ok n ->
  exists new, n = NUnion (nodes ++ new) /\ Forall2 (fun c m => exists path, c path = Ok m) options new.
Proof.
  induction options as [|c options IH]; intros index nodes n; cbn [union_nodes].
  - intros [= <-]. exists []. by rewrite app_nil_r.
  - intros H. apply rbind_Ok in H as (m & Hm & H).
    assert (exists index', union_nodes path index' options (nodes ++ [m]) = Ok n) as [index' Hn].
    { destruct m; try done; (destruct (existsb _ _); [done|]); by eexists. }
    apply IH in Hn as (new & -> & Hall). exists (m :: new). rewrite <- app_assoc. split; [done|].
    constructor; [by eexists|done].
Qed.

Lemma union_faithful kws options path n :
  NoDup (dkeys kws) -> dget (u "anyOf") kws = Some (VList options) ->
  (forall s path n, s ∈ options -> node regex s path = Ok n -> faithful regex s n) ->
  union_nodes path 0 (map (node regex) options) [] = Ok n ->
  drop_key (u "anyOf") (rest_of regex kws) = [] -> faithful regex (VDict kws) n.
Proof.
  intros Hnd Ho IH Hn Hdrop. apply union_nodes_Ok in Hn as (nodes & -> & Hall). cbn [app].
  assert (Forall2 (faithful regex) options nodes) as Hf.
  { clear -Hall IH. revert nodes Hall. induction options as [|s options IHo]; intros nodes; cbn [map].
    - by intros ->%Forall2_nil_inv_l.
    - intros (m & ms & [path' Hm] & Hms & ->)%Forall2_cons_inv_l. constructor; [eapply IH; [left|exact Hm]|].
      apply IHo; [|done]. intros s' ? ? Hin. apply IH. by right. }
  assert (forall v, valid regex (VDict kws) v = existsb (fun s => valid regex s v) options) as Hv.
  { intros v. rewrite (valid_rest regex kws v [u "anyOf"] Hnd Hdrop). cbn [forallb].
    rewrite andb_true_r. unfold present_ok. by rewrite Ho. }
  intros v. cbn [accepts]. rewrite Hv. clear -Hf Hv. split.
  - clear Hv. induction Hf as [|s m options nodes Hs _ IHf]; cbn [existsb accept_options]; [done|].
    intros [H|H]%orb_prop; [apply Hs in H as [w ->]; by eexists|].
    destruct (accepts m (Some v)); [by eexists|by apply IHf].
  - intros w Hw. rewrite Hv. clear Hv. induction Hf as [|s m options nodes Hs _ IHf]; cbn [existsb accept_options] in *; [done|].
    destruct (accepts m (Some v)) as [w'|] eqn:E.
    + injection Hw as ->. apply Hs in E. by rewrite E.
    + rewrite IHf by done. apply orb_true_r.
Qed.

(** *** Every schema *)
Lemma node_of_Ok kws path n :
  node regex (VDict kws) path = Ok n -> exists rest, consume regex (rest_of regex kws) path = Ok (n, rest) /\ rest = [].
Proof.
  cbn [node]. unfold node_of. intros H. apply rbind_Ok in H as ([n' rest] & Hc & H).
  exists rest. destruct rest; [|done]. injection H as <-. by split.
Qed.

Lemma node_faithful : forall s, wf_value s -> forall path n, node regex s path = Ok n -> faithful regex s n.
Proof.
  intros s. induction s as [s IH] using value_induction_nested. intros Hwf path n Hn.
  destruct s as [| | | | | |kws]; try done. pose proof (proj1 Hwf) as Hnd.
  assert (forall k v, dget k kws = Some v -> wf_value v /\
    (forall path n, node regex v path = Ok n -> faithful regex v n) /\
    match v with
    | VDict subs => forall k sub path n, (k, sub) ∈ subs -> node regex sub path = Ok n -> faithful regex sub n
    | VList l => forall s path n, s ∈ l -> node regex s path = Ok n -> faithful regex s n
    | _ => True
    end) as Hsub.
  { intros k v Hk%dget_elem. pose proof (wf_dict_elem _ _ _ Hwf Hk) as Hwv.
    eapply Forall_forall in IH; [|exact Hk]. destruct IH as [Hv Hin]. cbn [snd] in *.
    split; [done|]. split; [intros; by eapply Hv|]. destruct v as [| | | | |l|subs]; try done.
    - intros s p m Hs. eapply Forall_forall in Hin; [|exact Hs]. apply Hin. by eapply wf_list_elem.
    - intros k' s p m Hs. eapply Forall_forall in Hin; [|exact Hs]. apply Hin. by eapply wf_dict_elem. }
  apply node_of_Ok in Hn as (rest & Hc & ->). unfold consume, pop in Hc.
  destruct (dget (u "anyOf") (rest_of regex kws)) as [w|] eqn:Ea.
  - apply rest_keyword in Ea as (Ha & _ & Hopts & _). apply rbind_Ok in Hc as (m & Hm & [= -> Hdrop]).
    unfold union in Hm. destruct (kw_value w) as [| | | | |options|] eqn:Ew; try done. rewrite Hopts in Hm.
    destruct options as [|o options]; [done|]. destruct (Hsub _ _ Ha) as (_ & _ & Hs).
    by eapply union_faithful.
  - destruct (dget (u "type") (rest_of regex kws)) as [ty|] eqn:Et; [|done].
    apply rest_keyword in Et as (Ht & _).
    change (List.filter _ _) with (drop_key (u "type") (rest_of regex kws)) in Hc.
    assert (forall t, is_str (u t) (kw_value ty) = true -> dget (u "type") kws = Some (vs t)) as Hty.
    { intros t H%is_str_spec. by rewrite Ht, H. }
    destruct (is_str (u "string") _) eqn:E1; [by eapply string_faithful; eauto|].
    destruct (is_str (u "number") _) eqn:E2; [by eapply (number_faithful false); eauto|].
    destruct (is_str (u "integer") _) eqn:E3; [by eapply (number_faithful true); eauto|].
    destruct (is_str (u "boolean") _) eqn:E4; [injection Hc as <- Hdrop; by apply boolean_faithful; [|apply Hty|]|].
    destruct (is_str (u "array") _) eqn:E5.
    { eapply array_faithful; [done|by apply Hty| |exact Hc]. intros items p m Hi. by apply (Hsub _ _ Hi). }
    destruct (is_str (u "object") _) eqn:E6; [|done].
    eapply object_faithful; [done|by apply Hty| |exact Hc].
    intros subs k sub p m Hp Hin. destruct (Hsub _ _ Hp) as (_ & _ & Hs). by eapply Hs.
Qed.
End Faithful.

(** ** Facts: refinements *)
Definition refine_properties (refinements : dict Refinement) (ps : list (text * Node * (bool * option Refinement))) :=
  (fun p : text * Node * (bool * option Refinement) => (p.1.1, p.1.2, (p.2.1, dget p.1.1 refinements))) <$> ps.

Lemma refine_keys refinements ps : property_keys (refine_properties refinements ps) = property_keys ps.
Proof. unfold property_keys, refine_properties. by rewrite <- list_fmap_compose. Qed.

Definition refinements_hold (refinements : dict Refinement) (d : dict value) : bool :=
  forallb (fun kv => refined (dget kv.1 refinements) kv.2) d.

Lemma NoDup_skip {A} (l : list A) x l' : NoDup (l ++ x :: l') -> NoDup (l ++ l').
Proof.
  intros (H1 & H2 & [_ H3]%NoDup_cons)%NoDup_app. apply NoDup_app. split_and!; [done| |done].
  intros y Hy Hl. apply (H2 y Hy). by right.
Qed.

Lemma accept_refined refinements record ps : forall parsed,
  NoDup (dkeys parsed ++ property_keys ps) -> Forall (fun p => p.2.2 = None) ps ->
  accept_properties accepts record (refine_properties refinements ps) parsed =
  match accept_properties accepts record ps parsed with
  | Some (VDict all) => if refinements_hold refinements (drop (length parsed) all) then Some (VDict all) else None
  | _ => None
  end.
Proof.
  induction ps as [|[[k n] [rq rf]] ps IH]; intros parsed Hnd Hnone.
  - cbn. by rewrite list.drop_all.
  - apply Forall_cons in Hnone as [Hrf Hnone]. cbn in Hrf. subst rf.
    change (property_keys ((k, n, (rq, None)) :: ps)) with (k :: property_keys ps) in Hnd.
    cbn [refine_properties fmap list_fmap fst snd]. fold (refine_properties refinements ps). cbn [accept_properties].
    destruct (dget k record) as [raw|]; cbn [is_none andb].
    2: { destruct rq; cbn [negb]; [by rewrite accepts_missing|]. apply IH; [by eapply NoDup_skip|done]. }
    destruct (accepts n (Some raw)) as [w|]; [|done]. cbn [refined].
    assert (k ∉ dkeys parsed) as Hnew.
    { intros Hin. apply NoDup_app in Hnd as (_ & Hd & _). apply (Hd k Hin). left. }
    rewrite dset_new by done.
    assert (NoDup (dkeys (parsed ++ [(k, w)]) ++ property_keys ps)) as Hnd'.
    { unfold dkeys. rewrite fmap_app, <- app_assoc. exact Hnd. }
    rewrite IH by done. destruct (accept_properties accepts record ps (parsed ++ [(k, w)])) as [v|] eqn:E; [|by destruct (refined _ _)].
    apply accept_properties_shape in E as (d & -> & _); [|done]. rewrite drop_app_length.
    rewrite <- app_assoc, drop_app_length. cbn [app refinements_hold forallb fst snd]. unfold refined at 2.
    change (match dget k refinements with Some r => check r w | None => true end) with (refined (dget k refinements) w).
    by destruct (refined (dget k refinements) w).
Qed.

(** ** The theorem *)
Section Property.
Context (regex : text -> option (text -> bool)).

Lemma pop_drop k r : pop k r = (dget k r, drop_key k r).
Proof. reflexivity. Qed.

Lemma object_of_properties r path ps r' :
  object_of r path = Ok (NObject ps, r') ->
  exists w, dget (u "properties") r = Some w /\ property_keys ps = dkeys (kw_properties w) /\
    Forall (fun p => p.2.2 = None) ps.
Proof.
  unfold object_of. rewrite !pop_drop, dget_drop_ne by name_facts.
  destruct (dget (u "properties") r) as [w|]; [|by destruct (keep_whole _)].
  destruct (kw_value <$> _) as [[|[]| | | | |]|]; try done. destruct (kw_value w); try done.
  destruct (names_of _) as [names|]; [|done]. destruct (List.find _ _); [done|].
  intros H. apply rbind_Ok in H as (ps' & Hps%rmap_Ok & [= <- _]). exists w. split; [done|].
  induction Hps as [|[k c] p l ps' Hc _ IH]; [by split|].
  apply rbind_Ok in Hc as (n & _ & [= <-]). destruct IH as [IHk IHn]. split; [|by constructor].
  cbn. f_equal. exact IHk.
Qed.

Lemma consume_object r path ps :
  consume regex r path = Ok (NObject ps, []) -> exists r', object_of r' path = Ok (NObject ps, []) /\
    forall k, k <> u "type" -> dget k r' = dget k r.
Proof.
  unfold consume, pop. destruct (dget (u "anyOf") r) as [w|].
  { intros H. apply rbind_Ok in H as (m & Hm & [= -> _]). unfold union in Hm.
    destruct (kw_value w) as [| | | | |[|]|]; try done. by apply union_nodes_Ok in Hm as (? & ? & _). }
  destruct (dget (u "type") r) as [ty|]; [|done]. set (r' := List.filter _ r).
  destruct (is_str (u "string") _).
  { unfold string_of, pop. intros H. apply rbind_Ok in H as ([? ?] & _ & H).
    apply rbind_Ok in H as (? & _ & H). by apply rbind_Ok in H as ([? ?] & _ & H). }
  destruct (is_str (u "number") _).
  { intros H. apply rbind_Ok in H as ([? ?] & _ & H). by apply rbind_Ok in H as ([? ?] & _ & H). }
  destruct (is_str (u "integer") _).
  { intros H. apply rbind_Ok in H as ([? ?] & _ & H). by apply rbind_Ok in H as ([? ?] & _ & H). }
  destruct (is_str (u "boolean") _); [done|]. destruct (is_str (u "array") _).
  { unfold array_of, pop. destruct (dget _ r') as [w|]; [|done]. destruct (kw_value w); try done.
    intros H. apply rbind_Ok in H as (? & _ & H). apply rbind_Ok in H as ([? ?] & _ & H).
    by apply rbind_Ok in H as ([? ?] & _ & H). }
  destruct (is_str (u "object") _); [|done]. intros H. exists r'. split; [exact H|].
  intros k Hk. exact (dget_drop_ne (u "type") k r Hk).
Qed.

Lemma node_root_shape kws path ps :
  node regex (VDict kws) path = Ok (NObject ps) -> wf_value (VDict kws) ->
  NoDup (property_keys ps) /\ Forall (fun p => p.2.2 = None) ps.
Proof.
  intros (rest & Hc & ->)%node_of_Ok Hwf. apply consume_object in Hc as (r & Ho & Hr).
  apply object_of_properties in Ho as (w & Hw & -> & Hnone). split; [|done].
  rewrite Hr in Hw by name_facts. apply rest_keyword in Hw as (Hp & _ & _ & ->).
  destruct (kw_value w) as [| | | | | |subs]; [constructor..|].
  apply dget_elem in Hp. apply wf_dict_elem in Hp as [Hnd _]; [|done].
  unfold dkeys in *. by rewrite <- list_fmap_compose.
Qed.

Lemma compile_Ok schema refinements ps :
  compile_argument_schema regex schema refinements = Ok ps ->
  exists ps0, node regex schema [] = Ok (NObject ps0) /\ ps = refine_properties refinements ps0 /\
    Forall (fun k => k ∈ property_keys ps0) (dkeys refinements).
Proof.
  unfold compile_argument_schema. intros H. apply rbind_Ok in H as (root & Hn & H).
  destruct root as [| | | |ps0| |]; try done. destruct (List.find _ _) eqn:Ef; [done|]. injection H as <-.
  exists ps0. split; [done|]. split; [done|]. apply find_None_Forall in Ef.
  eapply Forall_impl; [exact Ef|]. intros k Hk%negb_false_iff. by apply mem_spec.
Qed.

Lemma accept_properties_object record ps : forall parsed w,
  accept_properties accepts record ps parsed = Some w -> exists d, w = VDict d.
Proof.
  induction ps as [|[[k n] [rq rf]] ps IH]; intros parsed w; cbn [accept_properties]; [intros [= <-]; by eexists|].
  destruct (_ && _); [apply IH|]. destruct (accepts n _); [|done]. destruct (refined _ _); [apply IH|done].
Qed.

(** A parser call, by what the schema's nodes accept. *)
Lemma parse_call_accepts tool ps record :
  match accepts (NObject ps) (Some (VDict record)) with
  | Some w => exists d, w = VDict d /\ parse_call tool (NObject ps) (Some record) = Ok d
  | None => exists e, parse_call tool (NObject ps) (Some record) = Raise (ArgumentsError e)
  end.
Proof.
  unfold parse_call. cbn [fmap option_fmap option_map].
  pose proof (parse_agrees (NObject ps) (Some (VDict record)) []) as Ha. destruct (parse _ _ _) as [[st v] s].
  destruct (accepts (NObject ps) (Some (VDict record))) as [w|] eqn:E; cbn [agrees] in Ha.
  - injection Ha as -> -> ->. cbn [accepts] in E. apply accept_properties_object in E as [d ->]. by exists d.
  - destruct Ha as [Hst _]. destruct st; [done| |]; by eexists.
Qed.

(** A compiled schema: what its nodes accept is what validates, under the refinements. *)
Lemma compiled_accepts schema refinements ps :
  wf_value schema -> compile_argument_schema regex schema refinements = Ok ps ->
  exists n, faithful regex schema n /\ forall record,
    accepts (NObject ps) (Some (VDict record)) =
    match accepts n (Some (VDict record)) with
    | Some (VDict d) => if refinements_hold refinements d then Some (VDict d) else None
    | _ => None
    end /\ (forall w, accepts n (Some (VDict record)) = Some w -> exists d, w = VDict d).
Proof.
  intros Hwf (ps0 & Hn & -> & _)%compile_Ok. exists (NObject ps0). split; [by eapply node_faithful|]. intros record.
  destruct schema as [| | | | | |kws]; try done. destruct (node_root_shape _ _ _ Hn Hwf) as [Hnd Hnone].
  cbn [accepts]. split; [by rewrite accept_refined|apply accept_properties_object].
Qed.

(** What a handler receives validates against its tool's schema. *)
Lemma parse_call_valid schema refinements ps tool record d :
  wf_value schema -> compile_argument_schema regex schema refinements = Ok ps ->
  parse_call tool (NObject ps) (Some record) = Ok d ->
  valid regex schema (VDict d) = true /\ refinements_hold refinements d = true /\
  (wf_value (VDict record) -> wf_value (VDict d)).
Proof.
  intros Hwf (n & Hf & Hacc)%compiled_accepts Hd; [|done]. destruct (Hacc record) as [Ha _].
  pose proof (parse_call_accepts tool ps record) as Hp. rewrite Ha, Hd in Hp.
  assert (accepts n (Some (VDict record)) = Some (VDict d) /\ refinements_hold refinements d = true) as [Hn Hr].
  { destruct (accepts n (Some (VDict record))) as [[| | | | | |d']|]; try (by destruct Hp).
    destruct (refinements_hold refinements d') eqn:E; [|by destruct Hp]. destruct Hp as (d2 & [= ->] & [= ->]). done. }
  split_and!; [by eapply (Hf (VDict record))|done|]. intros Hw. by eapply accepts_wf.
Qed.

End Property.

(** A schema with a pattern, a union and an optional property. *)
Definition sample_regex (body : text) : option (text -> bool) :=
  if bool_decide (body = u "[a-z]*") then Some (forallb (fun c => (97 <=? c) && (c <=? 122))) else None.

Definition sample_schema : value :=
  VDict [(u "type", vs "object");
         (u "properties", VDict [
           (u "id", VDict [(u "type", vs "string"); (u "pattern", vs "^[a-z]*$"); (u "maxLength", VInt 3)]);
           (u "evidence", VDict [(u "anyOf", VList [
             VDict [(u "type", vs "string"); (u "description", vs "One document.")];
             VDict [(u "type", vs "array"); (u "minItems", VInt 1); (u "items", VDict [(u "type", vs "string")])]])]);
           (u "at", VDict [(u "type", vs "number"); (u "minimum", VInt 0); (u "maximum", VInt 1)])]);
         (u "required", VList [vs "id"]); (u "additionalProperties", VBool false)].

Definition sample_arguments : dict value := [(u "evidence", VList [vs "log"]); (u "id", vs "abc")].

