(* ===== verification/Toolset.v ===== *)
(** * The tool kernel

    Models [tools/toolset.py]: dispatch by name, the error-code mapping, what a call returns and its
    MCP rendering.  Telemetry and logging only observe and are not modelled. *)
From S2P Require Import Prelude Float64 Json Serialize Caps Policy Runtime Arguments Samples.
Open Scope Z_scope.

(** [str(error)]. *)
Definition message_of (e : exn) : text :=
  match e with
  | ArgumentsError m | ToolError m _ | ProviderConfigError m | ProviderTimeoutError m | ProviderError m _ _
  | OtherError m => m
  end.

Definition code_of (e : exn) : text :=
  match e with
  | ProviderConfigError _ => u "auth"
  | ProviderTimeoutError _ => u "timeout"
  | ProviderError _ status error_type =>
    if bool_decide (status = Some 401) then u "auth"
    else if bool_decide (status = Some 429) then u "quota"
    else if bool_decide (status = Some 400) && bool_decide (error_type = Some (u "max_tokens_exceeded"))
    then u "input_too_large"
    else u "provider"
  | ArgumentsError _ => u "invalid_arguments"
  | ToolError _ code => code
  | OtherError _ => u "provider"
  end.

Record ToolOutcome := {
  out_payload : option (dict value); out_text : text; out_is_error : bool; out_action : option Action;
  out_error_code : option text; out_item_actions : list Action; out_truncated : ledger;
  out_extract : option ExtractHeadlines }.

Definition error_outcome (t code : text) : ToolOutcome :=
  {| out_payload := None; out_text := t; out_is_error := true; out_action := None; out_error_code := Some code;
     out_item_actions := []; out_truncated := ∅; out_extract := None |}.

(** [code or "provider"]. *)
Definition code_or_provider (code : option text) : text :=
  match code with Some (c :: t) => c :: t | _ => u "provider" end.

Definition from_result (r : ToolResult) : ToolOutcome :=
  {| out_payload := Some (payload r); out_text := stringify (VDict (payload r)); out_is_error := is_error r;
     out_action := action r;
     out_error_code := if is_error r then Some (code_or_provider (error_code r)) else None;
     out_item_actions := item_actions r; out_truncated := tr_truncated r; out_extract := extract r |}.

Record CallToolResult := { content : list text; structured_content : option (dict value); call_is_error : bool }.

Definition render_call (o : ToolOutcome) : CallToolResult :=
  if negb (out_is_error o)
  then {| content := [out_text o]; structured_content := None; call_is_error := false |}
  else
    let code := [(u "code", VStr (code_or_provider (out_error_code o)))] in
    {| content := [out_text o; stringify_compact (VDict code)]; structured_content := Some code; call_is_error := true |}.

(** A published tool: the nodes its schema compiles to, and its handler of parsed arguments. *)
Record JevTool := {
  tool_name : text; tool_properties : list (text * Node * (bool * option Refinement));
  tool_handler : dict value -> Runtime -> M ToolResult }.

(** [self._tools.get(name)]: a later tool of the same name replaces an earlier one. *)
Definition find_tool (tools : list JevTool) (name : text) : option JevTool :=
  fold_left (fun found t => if bool_decide (tool_name t = name) then Some t else found) tools None.

(** [_execute]: the outcome and the log; nothing is raised. *)
Definition execute (tools : list JevTool) (rt : Runtime) (name : text) (arguments : option (dict value)) (log : Log)
    : ToolOutcome * Log :=
  match find_tool tools name with
  | None => (error_outcome (u "MCP error -32602: Tool " ++ name ++ u " not found") (u "invalid_arguments"), log)
  | Some tool =>
    match parse_call name (NObject (tool_properties tool)) arguments with
    | Raise e => (error_outcome (message_of e) (code_of e), log)
    | Ok parsed =>
      match tool_handler tool parsed rt log with
      | (Ok r, log') => (from_result r, log')
      | (Raise e, log') => (error_outcome (message_of e) (code_of e), log')
      end
    end
  end.

Definition call (tools : list JevTool) (rt : Runtime) (name : text) (arguments : option (dict value)) (log : Log)
    : CallToolResult * Log :=
  let '(o, log') := execute tools rt name arguments log in (render_call o, log').

(** ** Facts *)
Lemma find_tool_named tools name t : find_tool tools name = Some t -> t ∈ tools /\ tool_name t = name.
Proof.
  unfold find_tool. assert (forall l acc,
    (forall t, acc = Some t -> t ∈ tools /\ tool_name t = name) -> (forall t, t ∈ l -> t ∈ tools) ->
    forall t, fold_left (fun found t => if bool_decide (tool_name t = name) then Some t else found) l acc = Some t ->
      t ∈ tools /\ tool_name t = name) as H; [|by apply H].
  induction l as [|t0 l IH]; intros acc Hacc Hl t1; simpl; [by apply Hacc|].
  apply IH; [|intros t2 H2; apply Hl; by right]. intros t2. case_bool_decide as Hn; [|apply Hacc].
  intros [= <-]. split; [apply Hl; left|done].
Qed.

Lemma code_or_provider_nonempty c : code_or_provider c <> [].
Proof. by destruct c as [[]|]. Qed.

(** Every call to the kernel returns, with one of three shapes: an unknown tool is refused with no
    request made; arguments the schema does not accept are refused with the parser's message, no
    handler run and no request made; otherwise the handler's result or the text and code of what it
    raised.  The rendering is an error exactly when the outcome is, its first block is the outcome's
    text, and an error carries a non-empty code both as text and as structured content. *)
Theorem call_shapes tools rt name arguments log :
  let '(o, log') := execute tools rt name arguments log in
  let r := render_call o in
  match find_tool tools name with
  | None => o = error_outcome (u "MCP error -32602: Tool " ++ name ++ u " not found") (u "invalid_arguments") /\ log' = log
  | Some tool =>
    match parse_call name (NObject (tool_properties tool)) arguments with
    | Raise e => out_text o = message_of e /\ out_error_code o = Some (u "invalid_arguments") /\ log' = log
    | Ok parsed =>
      match tool_handler tool parsed rt log with
      | (Ok res, log1) => out_payload o = Some (payload res) /\ out_text o = stringify (VDict (payload res)) /\
          out_is_error o = is_error res /\ log' = log1
      | (Raise e, log1) => o = error_outcome (message_of e) (code_of e) /\ log' = log1
      end
    end
  end /\
  call_is_error r = out_is_error o /\ hd_error (content r) = Some (out_text o) /\
  (out_is_error o = true -> exists c cs, structured_content r = Some [(u "code", VStr (c :: cs))] /\
     content r = [out_text o; stringify_compact (VDict [(u "code", VStr (c :: cs))])]) /\
  (out_is_error o = false -> structured_content r = None /\ content r = [out_text o]).
Proof.
  assert (forall o, let r := render_call o in
    call_is_error r = out_is_error o /\ hd_error (content r) = Some (out_text o) /\
    (out_is_error o = true -> exists c cs, structured_content r = Some [(u "code", VStr (c :: cs))] /\
       content r = [out_text o; stringify_compact (VDict [(u "code", VStr (c :: cs))])]) /\
    (out_is_error o = false -> structured_content r = None /\ content r = [out_text o])) as Hr.
  { intros o. unfold render_call. destruct (out_is_error o); cbn [negb call_is_error content structured_content hd_error].
    - pose proof (code_or_provider_nonempty (out_error_code o)) as Hne.
      destruct (code_or_provider (out_error_code o)) as [|c cs]; [done|].
      split; [done|]. split; [done|]. split; [|done]. intros _. by exists c, cs.
    - split_and!; done. }
  unfold execute. destruct (find_tool tools name) as [tool|]; [|split; [done|apply Hr]].
  destruct (parse_call _ _ _) as [parsed|e] eqn:Ep.
  - destruct (tool_handler tool parsed rt log) as [[res|e] log1]; (split; [|apply Hr]); done.
  - split; [|apply Hr]. split; [done|]. split; [|done]. cbn [out_error_code error_outcome].
    unfold parse_call in Ep. destruct (parse _ _ _) as [[st v] s]. destruct st, v; by simplify_eq.
Qed.

(** The error code depends on the exception alone: a configuration failure and a 401 are [auth], a
    timeout is [timeout], a 429 is [quota], a 400 about the context window is [input_too_large], an
    argument error is [invalid_arguments], a tool's own refusal keeps its code, and nothing else
    leaves the fallback [provider]. *)
Theorem code_of_spec e :
  (code_of e = u "auth" <->
     (exists m, e = ProviderConfigError m) \/ (exists m et, e = ProviderError m (Some 401) et) \/
     (exists m, e = ToolError m (u "auth"))) /\
  (code_of e = u "quota" <->
     (exists m et, e = ProviderError m (Some 429) et) \/ (exists m, e = ToolError m (u "quota"))) /\
  (code_of e = u "input_too_large" <->
     (exists m, e = ProviderError m (Some 400) (Some (u "max_tokens_exceeded"))) \/
     (exists m, e = ToolError m (u "input_too_large"))) /\
  (forall m code, e = ToolError m code -> code_of e = code).
Proof.
  destruct e as [m|m c|m|m|m st et|m]; cbn [code_of];
    repeat case_bool_decide; cbn [andb]; subst; split_and!; try (split; intros H); naive_solver.
Qed.
