(* ===== verification/Retry.v ===== *)
(** * The retry policy and its loop

    Models [providers/retry.py] and [JevProvider.evaluate] of [providers/base.py] as the server calls
    it (no caller timeout).  The world is a record of oracles: the clock readings, the random
    samples, and what [_send] does under a cap; [log2] is the library's logarithm. *)
From S2P Require Import Prelude Float64 Json Serialize Domain Responses Runtime Samples.
Open Scope Z_scope.

Record RetryPolicy := {
  max_attempts : Z; per_attempt_timeout : float; backoff_initial : float; backoff_max : float;
  backoff_jitter : float; retry_statuses : Z -> bool; budget : float }.

(** [RetryPolicy.__post_init__]: the constructor raises unless the policy is bounded. *)
Definition positive_seconds (x : float) : bool := is_finite x && fltb f_zero x.
Definition valid_policy (p : RetryPolicy) : bool :=
  (1 <=? max_attempts p) && positive_seconds (per_attempt_timeout p) && positive_seconds (backoff_initial p)
  && positive_seconds (backoff_max p) && positive_seconds (budget p)
  && fleb f_zero (backoff_jitter p) && fleb (backoff_jitter p) f_one.

Definition DEFAULT_RETRY_POLICY : RetryPolicy :=
  {| max_attempts := 3; per_attempt_timeout := f_of_Z 30; backoff_initial := f_ratio 1 2; backoff_max := f_of_Z 5;
     backoff_jitter := f_ratio 1 4;
     retry_statuses := fun s => (s =? 408) || (s =? 429) || ((500 <=? s) && (s <? 600)); budget := f_of_Z 90 |}.

Inductive RetryKind := KStatus | KTimeout | KConnect.

Record TransientFailure := {
  tf_kind : RetryKind; tf_status : option Z; tf_detail : text; tf_retry_after : option float }.

(** [round(x, 3)]: the double nearest to [x] rounded half to even at three places. *)
Definition round3 (x : float) : float :=
  if is_finite x then
    let '(num, den) := fratio x in
    let y := f_ratio (round_half_even (num * 1000) den) 1000 in
    if fsign x then SFopp y else y
  else x.

Definition ldexp (x : float) (e : Z) : float := SFldexp prec emax x e.

Section Policy.
Context (log2 : float -> float).

(** [backoff_delay policy attempt] with the random sample [sample]. *)
Definition backoff_delay (p : RetryPolicy) (attempt : Z) (sample : float) : float :=
  let exponent := attempt - 1 in
  let exponential :=
    if fgeb (f_of_Z exponent) (fsub (log2 (backoff_max p)) (log2 (backoff_initial p)))
    then backoff_max p else ldexp (backoff_initial p) exponent in
  py_min exponential (round3 (fmul exponential (fsub f_one (fmul sample (backoff_jitter p))))).

Definition retry_delay (p : RetryPolicy) (attempt : Z) (elapsed horizon : float) (retry_after : option float)
    (sample : float) : option float :=
  if max_attempts p <=? attempt then None
  else
    let delay :=
      match retry_after with
      | None => backoff_delay p attempt sample
      | Some hint => py_min hint (backoff_max p)
      end in
    if fgeb (fadd elapsed delay) horizon then None else Some delay.

(** ** What an attempt can do *)
Inductive SendError :=
| SendConfig (m : text)                                       (* ProviderConfigError *)
| SendConnection (m : text)                                   (* ProviderConnectionError *)
| SendProvider (m : text) (status : option Z) (retry_after : option float) (error_type : option text)
| SendProviderTimeout (m : text)                              (* ProviderTimeoutError *)
| SendTimeout                                                 (* TimeoutError, httpx.TimeoutException *)
| SendNetwork (m type_name : text)                            (* ConnectionError, httpx network, protocol, proxy *)
| SendOther (m type_name : text).                             (* any other Exception *)

Definition remove_prefix (p t : text) : text := match strip_prefix p t with Some t' => t' | None => t end.

(** [str(error) or type(error).__name__]. *)
Definition cause_text (m type_name : text) : text := match m with [] => type_name | _ => m end.

Definition transient (p : RetryPolicy) (label : text) (e : SendError) : option TransientFailure :=
  match e with
  | SendConfig _ => None
  | SendConnection m =>
    Some {| tf_kind := KConnect; tf_status := None; tf_detail := remove_prefix (label ++ u " request failed: ") m;
            tf_retry_after := None |}
  | SendProvider m (Some s) ra _ =>
    if retry_statuses p s
    then Some {| tf_kind := KStatus; tf_status := Some s; tf_detail := remove_prefix (label ++ u " ") m; tf_retry_after := ra |}
    else None
  | SendProvider _ None _ _ | SendProviderTimeout _ => None
  | SendTimeout =>
    Some {| tf_kind := KTimeout; tf_status := None; tf_detail := u "the attempt timed out"; tf_retry_after := None |}
  | SendNetwork m type_name =>
    Some {| tf_kind := KConnect; tf_status := None; tf_detail := cause_text m type_name; tf_retry_after := None |}
  | SendOther _ _ => None
  end.

(** [_exhausted]. *)
Definition exhausted (label : text) (attempts : Z) (f : TransientFailure) : SendError :=
  let m := label ++ u " request failed after " ++ str_of_Z attempts ++ u " attempts: last failure: " ++ tf_detail f in
  match tf_kind f with
  | KTimeout => SendProviderTimeout m
  | _ => SendProvider m (tf_status f) None None
  end.

(** The [except] clauses of [evaluate]: what leaves it, redacted. *)
Definition leaving (label : text) (redact : text -> text) (e : SendError) : exn :=
  match e with
  | SendConfig m => ProviderConfigError (redact m)
  | SendConnection m => ProviderError (redact m) None None
  | SendProvider m s _ et => ProviderError (redact m) s et
  | SendProviderTimeout m => ProviderTimeoutError (redact m)
  | SendTimeout => ProviderTimeoutError (label ++ u " request timed out.")
  | SendNetwork m type_name | SendOther m type_name =>
    ProviderError (redact (label ++ u " request failed: " ++ cause_text m type_name)) None None
  end.

(** ** The loop *)
Record World := {
  now : nat -> float;              (* the clock at the start of an attempt, from the start of the call *)
  after : nat -> float;            (* the clock when its failure is handled *)
  sample : nat -> float;           (* [uniform()] *)
  send : nat -> float -> SendError + Evaluation   (* [_send] of an attempt, under its cap *) }.

(** The sends of a call: the attempt and its cap. *)
Definition Sends := list (nat * float).

(** Attempts are numbered from 1.  [None] when the fuel runs out, which [evaluate_bounded] excludes. *)
Fixpoint attempts_from (fuel : nat) (p : RetryPolicy) (label : text) (w : World) (attempt : nat) (retried : bool)
    (sends : Sends) : option ((SendError + Evaluation) * Sends) :=
  match fuel with
  | O => None
  | S fuel' =>
    let left := fsub (budget p) (now w attempt) in
    let cap := py_min (per_attempt_timeout p) left in
    let sends := sends ++ [(attempt, cap)] in
    match send w attempt cap with
    | inr ev => Some (inr ev, sends)
    | inl e =>
      match transient p label e with
      | None => Some (inl e, sends)
      | Some failure =>
        match retry_delay p (Z.of_nat attempt) (after w attempt) (budget p) (tf_retry_after failure) (sample w attempt) with
        | None => Some (inl (if retried then exhausted label (Z.of_nat attempt) failure else e), sends)
        | Some _ => attempts_from fuel' p label w (S attempt) true sends
        end
      end
    end
  end.

Definition evaluate (p : RetryPolicy) (label : text) (redact : text -> text) (w : World)
    : option (result exn Evaluation * Sends) :=
  match attempts_from (Z.to_nat (max_attempts p)) p label w 1 false [] with
  | Some (inr ev, sends) => Some (Ok ev, sends)
  | Some (inl e, sends) => Some (Raise (leaving label redact e), sends)
  | None => None
  end.
End Policy.

(** ** Properties *)
Section Bounded.
Context (log2 : float -> float) (p : RetryPolicy) (label : text) (redact : text -> text) (w : World).

(** The cap of an attempt: the per-attempt timeout, or what is left of the budget. *)
Definition cap_of (k : nat) : float := py_min (per_attempt_timeout p) (fsub (budget p) (now w k)).

(** Attempt [k] failed in a way that is retried, and a delay was granted. *)
Definition retried_after (k : nat) : Prop :=
  exists e f d, send w k (cap_of k) = inl e /\ transient p label e = Some f /\
    retry_delay log2 p (Z.of_nat k) (after w k) (budget p) (tf_retry_after f) (sample w k) = Some d.

(** How the call ends after its last attempt [n]. *)
Definition ends_with (n : nat) (out : SendError + Evaluation) : Prop :=
  match send w n (cap_of n) with
  | inr ev => out = inr ev
  | inl e =>
    match transient p label e with
    | None => out = inl e
    | Some f => out = inl (if (1 <? n)%nat then exhausted label (Z.of_nat n) f else e)
    end
  end.

Lemma attempts_from_spec fuel k sends :
  (1 <= k)%nat -> (Z.of_nat k - 1 + Z.of_nat fuel = max_attempts p) -> (0 < fuel)%nat ->
  exists n out, (k <= n)%nat /\ Z.of_nat n <= max_attempts p /\
    attempts_from log2 fuel p label w k (1 <? k)%nat sends =
      Some (out, sends ++ ((fun i => (i, cap_of i)) <$> seq k (n - k + 1))) /\
    (forall i, (k <= i < n)%nat -> retried_after i) /\ ~ retried_after n /\ ends_with n out.
Proof.
  revert k sends. induction fuel as [|fuel IH]; intros k sends Hk Hmax Hf; [lia|].
  cbn [attempts_from]. fold (cap_of k). destruct (send w k (cap_of k)) as [e|ev] eqn:Es.
  2: { exists k, (inr ev). replace (k - k + 1)%nat with 1%nat by lia. split_and!; try done; [lia|lia| |].
       - intros (e & ? & ? & H & _). by rewrite Es in H.
       - unfold ends_with. by rewrite Es. }
  destruct (transient p label e) as [f|] eqn:Et.
  2: { exists k, (inl e). replace (k - k + 1)%nat with 1%nat by lia. split_and!; try done; [lia|lia| |].
       - intros (e' & f & d & H & Ht & _). rewrite Es in H. injection H as <-. by rewrite Et in Ht.
       - unfold ends_with. by rewrite Es, Et. }
  destruct (retry_delay log2 p _ _ _ _ _) as [d|] eqn:Ed.
  2: { exists k, (inl (if (1 <? k)%nat then exhausted label (Z.of_nat k) f else e)).
       replace (k - k + 1)%nat with 1%nat by lia. split_and!; try done; [lia|lia| |].
       - intros (e' & f' & d & H & Ht & Hd). rewrite Es in H. injection H as <-. rewrite Et in Ht. injection Ht as <-.
         by rewrite Ed in Hd.
       - unfold ends_with. by rewrite Es, Et. }
  assert ((0 < fuel)%nat) as Hfuel.
  { unfold retry_delay in Ed. destruct (max_attempts p <=? Z.of_nat k) eqn:E; [done|]. lia. }
  destruct (IH (S k) (sends ++ [(k, cap_of k)])) as (n & out & Hkn & Hn & Hrun & Hall & Hlast & Hend); [lia|lia|done|].
  exists n, out. split_and!; [lia|done| | |done|done].
  - replace (1 <? S k)%nat with true in Hrun by (symmetry; apply Nat.ltb_lt; lia). rewrite Hrun, <- app_assoc.
    replace (n - k + 1)%nat with (S (n - S k + 1)) by lia. done.
  - intros i Hi. destruct (decide (i = k)) as [->|]; [by exists e, f, d|]. apply Hall. lia.
Qed.

Lemma cap_bounded k : is_finite (per_attempt_timeout p) = true -> fleb (cap_of k) (per_attempt_timeout p) = true.
Proof.
  intros Hf. unfold cap_of, py_min. destruct (fltb _ _) eqn:E; [by apply fltb_fleb|].
  by apply fleb_refl, finite_num.
Qed.

(** A call to the provider is bounded and retries only what may be retried: under a valid policy
    [evaluate] returns after between one and [max_attempts] sends, numbered from 1 and each capped by
    the per-attempt timeout; every attempt but the last failed transiently and was granted a delay;
    the last was not; a reply is returned as it came, a first or non-transient failure keeps its own
    error, and only a repeated transient one becomes the exhausted-retries error, text redacted. *)
Theorem evaluate_bounded :
  valid_policy p = true ->
  exists n out, (1 <= n)%nat /\ Z.of_nat n <= max_attempts p /\
    evaluate log2 p label redact w =
      Some (match out with inr ev => Ok ev | inl e => Raise (leaving label redact e) end,
            (fun i => (i, cap_of i)) <$> seq 1 n) /\
    (forall k, fleb (cap_of k) (per_attempt_timeout p) = true) /\
    (forall i, (1 <= i < n)%nat -> retried_after i) /\ ~ retried_after n /\ ends_with n out.
Proof.
  intros Hv. unfold valid_policy in Hv. bool_to_prop.
  assert (is_finite (per_attempt_timeout p) = true) as Hfin by (unfold positive_seconds in *; bool_to_prop; done).
  destruct (attempts_from_spec (Z.to_nat (max_attempts p)) 1 []) as (n & out & Hn1 & Hn & Hrun & Hall & Hlast & Hend);
    [lia|lia|lia|].
  exists n, out. split_and!; [done|done| |intros k; by apply cap_bounded|done|done|done].
  unfold evaluate. change (1 <? 1)%nat with false in Hrun. rewrite Hrun. cbn [app].
  replace (n - 1 + 1)%nat with n by lia. by destruct out.
Qed.
End Bounded.

(** Under the default policy a retry is granted only before the third attempt, only when the delay
    still fits the time left, and the delay is never more than five seconds, whatever the server's
    hint, the random sample and the library's logarithm. *)
Theorem default_delay_bounded log2 attempt elapsed horizon hint sample d :
  1 <= attempt -> (forall h, hint = Some h -> is_nan h = false) ->
  retry_delay log2 DEFAULT_RETRY_POLICY attempt elapsed horizon hint sample = Some d ->
  attempt < 3 /\ fgeb (fadd elapsed d) horizon = false /\ fleb d (f_of_Z 5) = true.
Proof.
  intros H1 Hh. unfold retry_delay. change (max_attempts DEFAULT_RETRY_POLICY) with 3.
  destruct (3 <=? attempt) eqn:E; [done|]. apply Z.leb_gt in E.
  set (delay := match hint with None => _ | Some h => _ end).
  destruct (fgeb (fadd elapsed delay) horizon) eqn:Ef; [done|]. intros [= <-]. split_and!; [done|done|].
  assert (forall x y, fleb x (f_of_Z 5) = true -> fleb (py_min x y) (f_of_Z 5) = true) as Hmin.
  { intros x y Hx. unfold py_min. destruct (fltb y x) eqn:Eyx; [|done]. eapply fleb_trans; [by apply fltb_fleb|done]. }
  unfold delay. destruct hint as [h|].
  - unfold py_min. change (backoff_max DEFAULT_RETRY_POLICY) with (f_of_Z 5). destruct (fltb (f_of_Z 5) h) eqn:E5.
    + by apply fleb_refl, f_of_Z_num.
    + apply fltb_false; [apply f_of_Z_num|by apply Hh|done].
  - unfold backoff_delay. apply Hmin. match goal with |- context [if ?b then _ else _] => destruct b end; [reflexivity|].
    assert (attempt - 1 = 0 \/ attempt - 1 = 1) as [-> | ->] by lia; reflexivity.
Qed.

(** ** Witnesses *)
Definition sample_world : World :=
  {| now := fun k => f_of_Z (Z.of_nat k); after := fun k => f_of_Z (Z.of_nat k); sample := fun _ => f_zero;
     send := fun k _ => if (k =? 1)%nat then inl (SendProvider (u "jev 503: busy") (Some 503) None None)
                        else inr (sample_evaluation []) |}.

(** A 503 is retried once, and the second attempt's reply is returned. *)
Lemma evaluate_bounded_witness :
  exists sends, evaluate (fun _ => f_zero) DEFAULT_RETRY_POLICY (u "jev") id sample_world
    = Some (Ok (sample_evaluation []), sends) /\ (1 <= length sends <= 3)%nat.
Proof.
  destruct (evaluate_bounded (fun _ => f_zero) DEFAULT_RETRY_POLICY (u "jev") id sample_world eq_refl)
    as (n & out & H1 & Hn & Hrun & _).
  assert (fst <$> evaluate (fun _ => f_zero) DEFAULT_RETRY_POLICY (u "jev") id sample_world
          = Some (Ok (sample_evaluation []))) as Hok by (vm_compute; reflexivity).
  rewrite Hrun in Hok |- *. injection Hok as Hok. rewrite Hok. eexists. split; [reflexivity|].
  rewrite length_fmap, length_seq. change (max_attempts DEFAULT_RETRY_POLICY) with 3 in Hn. lia.
Defined.

Lemma default_delay_bounded_witness :
  exists d, retry_delay (fun _ => f_zero) DEFAULT_RETRY_POLICY 1 f_zero (f_of_Z 90) (Some (f_of_Z 60)) f_zero = Some d /\
    fleb d (f_of_Z 5) = true.
Proof.
  destruct (retry_delay (fun _ => f_zero) DEFAULT_RETRY_POLICY 1 f_zero (f_of_Z 90) (Some (f_of_Z 60)) f_zero) as [d|] eqn:E.
  - exists d. split; [reflexivity|].
    apply (default_delay_bounded (fun _ => f_zero) 1 f_zero (f_of_Z 90) (Some (f_of_Z 60)) f_zero d); [lia| |exact E].
    intros h [= <-]. reflexivity.
  - exfalso. vm_compute in E. discriminate.
Defined.
