(* ===== verification/Provider.v ===== *)
(** * The provider's reply envelope

    Models [parse_envelope], [usage_counts] and [request_id_of] of [providers/base.py]: what every
    provider's decoded body must look like before any answer is judged. *)
From S2P Require Import Prelude Float64 Json Domain Runtime.
Open Scope Z_scope.

Record Envelope := {
  env_answers : dict value; env_usage : Usage; env_model : option text; env_request_id : option text }.

Definition model_or (e : Envelope) (default : text) : text := or_else (env_model e) default.

(** One count: a finite, non-negative number, kept as an int when it was one. *)
Definition usage_count (v : value) : option value :=
  match as_number v with
  | Some x =>
    if negb (is_finite x) || fltb x f_zero then None
    else Some (match v with VInt _ => v | _ => VFloat x end)
  | None => None
  end.

Definition usage_counts (usage : value) : option Usage :=
  match usage with
  | VDict d =>
    match usage_count (get (u "input_tokens") d), usage_count (get (u "output_tokens") d) with
    | Some i, Some o => Some {| input_tokens := i; output_tokens := o |}
    | _, _ => None
    end
  | _ => None
  end.

(** [request_id_of(body)], with no headers. *)
Definition request_id_of (body : dict value) : option text :=
  match get (u "request_id") body with VStr (c :: t) => Some (c :: t) | _ => None end.

Definition invalid_envelope (label why : text) : exn :=
  ProviderError (label ++ u " returned an invalid response: " ++ why) None None.

Definition parse_envelope (body : value) (label : text) : result exn Envelope :=
  match body with
  | VDict envelope =>
    match get (u "answers") envelope with
    | VDict answers =>
      let? usage :=
        match get (u "usage") envelope with
        | VNone => Ok no_usage
        | raw =>
          match usage_counts raw with
          | Some us => Ok us
          | None => Raise (invalid_envelope label
              (u "usage must report finite non-negative input_tokens and output_tokens."))
          end
        end in
      let? model :=
        match get (u "model") envelope with
        | VNone => Ok None
        | VStr m => Ok (Some m)
        | _ => Raise (invalid_envelope label (u "model must be absent or a string."))
        end in
      Ok {| env_answers := answers; env_usage := usage; env_model := model; env_request_id := request_id_of envelope |}
    | _ => Raise (invalid_envelope label (u "expected an answers object."))
    end
  | _ => Raise (invalid_envelope label (u "expected a JSON object."))
  end.

(** ** Facts *)

(** A reported count: an int or a double, its value finite and not negative. *)
Definition sound_count (v : value) : Prop :=
  exists x, as_number v = Some x /\ is_finite x = true /\ fleb f_zero x = true /\
    ((exists n, v = VInt n) \/ v = VFloat x).

Lemma usage_count_sound v w :
  usage_count v = Some w -> sound_count w /\ as_number w = as_number v.
Proof.
  unfold usage_count. destruct (as_number v) as [x|] eqn:Ex; [|done].
  destruct (is_finite x) eqn:Ef; [|done]. destruct (fltb x f_zero) eqn:El; [done|]. cbn [negb orb].
  intros [= <-].
  assert (fleb f_zero x = true) as H0 by (apply fltb_false; [by apply finite_num|done|done]).
  destruct v; try done.
  - split; [exists x; split_and!; [exact Ex|done|done|left; eauto]|exact Ex].
  - simpl in Ex. injection Ex as ->. split; [exists x; split_and!; [done|done|done|by right]|done].
Qed.

(** No answer reaches a tool through an envelope that is not one: [parse_envelope] accepts exactly
    the objects whose [answers] is an object, whose [usage] is absent, null or two finite
    non-negative numbers and whose [model] is absent, null or a string; the answers then pass
    unchanged, absent usage reports zeros, and a request id is only ever the body's own non-empty
    string.  Anything else raises a provider error that carries no status. *)
Theorem parse_envelope_spec body label :
  match parse_envelope body label with
  | Ok e => exists d, body = VDict d /\ get (u "answers") d = VDict (env_answers e) /\
      ((get (u "usage") d = VNone /\ env_usage e = no_usage) \/
       (exists us, get (u "usage") d = VDict us /\ sound_count (input_tokens (env_usage e)) /\
          sound_count (output_tokens (env_usage e)) /\
          as_number (input_tokens (env_usage e)) = as_number (get (u "input_tokens") us) /\
          as_number (output_tokens (env_usage e)) = as_number (get (u "output_tokens") us))) /\
      ((get (u "model") d = VNone /\ env_model e = None) \/ exists m, get (u "model") d = VStr m /\ env_model e = Some m) /\
      (forall i, env_request_id e = Some i -> i <> [] /\ get (u "request_id") d = VStr i)
  | Raise e => (exists m, e = ProviderError m None None) /\
      forall d answers, body = VDict d -> get (u "answers") d = VDict answers ->
        (get (u "usage") d <> VNone /\ usage_counts (get (u "usage") d) = None) \/
        (get (u "model") d <> VNone /\ forall m, get (u "model") d <> VStr m)
  end.
Proof.
  unfold parse_envelope. destruct body as [| | | | | |d]; try (split; [by eexists|done]).
  destruct (get (u "answers") d) as [| | | | | |ans] eqn:Ea;
    try (split; [by eexists|]; intros ? ? [= <-]; rewrite Ea; done).
  assert (forall i, request_id_of d = Some i -> i <> [] /\ get (u "request_id") d = VStr i) as Hid.
  { intros i. unfold request_id_of. destruct (get (u "request_id") d) as [| | | |[|c t]| |]; try done. by intros [= <-]. }
  set (usage := match get (u "usage") d with VNone => _ | _ => _ end).
  destruct usage as [us|e] eqn:Eu; cbn [rbind].
  - set (model := match get (u "model") d with VNone => _ | _ => _ end).
    destruct model as [m|e] eqn:Em; cbn [rbind].
    + exists d. cbn [env_answers env_usage env_model env_request_id]. split_and!; [done|done| | |exact Hid].
      * subst usage. destruct (get (u "usage") d) as [| | | | | |ud]; try done; [left; by injection Eu as <-|right].
        unfold usage_counts in Eu. exists ud. split; [done|].
        destruct (usage_count (get (u "input_tokens") ud)) as [ic|] eqn:Ei; [|done].
        destruct (usage_count (get (u "output_tokens") ud)) as [oc|] eqn:Eo; [|done]. injection Eu as <-.
        apply usage_count_sound in Ei as [? ?], Eo as [? ?]. done.
      * subst model. destruct (get (u "model") d); try done; [left|right]; injection Em as <-; eauto.
    + subst model. split; [destruct (get (u "model") d); try done; injection Em as <-; by eexists|].
      intros d' ans' [= <-] _. right. destruct (get (u "model") d); try done.
  - subst usage. split.
    + destruct (get (u "usage") d); try done; destruct (usage_counts _); try done; injection Eu as <-; by eexists.
    + intros d' ans' [= <-] _. left. destruct (get (u "usage") d); try done; destruct (usage_counts _) eqn:Ec; try done.
Qed.
