(* ===== verification/Definitions.v ===== *)
(** * The published tools

    Models the definitions of [tools/*.py] and the registry of [tools/__init__.py]: each tool's input
    schema, as published by [define], how its handler reads the parsed arguments, and the toolset built
    of them.  Descriptions are left out of the schemas: the compiler drops every annotation before it
    looks at a keyword ([ANNOTATIONS]).  The theorems close the gap between the kernel, which passes a
    parsed dict, and the handlers, which take their arguments typed: on the published schemas no
    subscript of a handler misses and no argument has another type. *)
From S2P Require Import Prelude Float64 Text Limits Json Ids Runtime Responses ReviewHalf Arguments Schema Toolset.
From S2P Require Verify Screen Find Classify Decide Rerank Compare Extract Review Gate Score Matching.
Open Scope Z_scope.

(** ** Python's [re], on the one pattern the schemas publish: [[a-z][a-z0-9_-]*]. *)
Definition SLUG : string := "^[a-z][a-z0-9_-]*$".

Definition is_lower (c : Z) : bool := (97 <=? c) && (c <=? 122).
Definition is_slug_char (c : Z) : bool := is_lower c || ((48 <=? c) && (c <=? 57)) || (c =? 95) || (c =? 45).
Definition slug (t : text) : bool :=
  match t with c :: t' => is_lower c && forallb is_slug_char t' | [] => false end.

Definition published_regex (body : text) : option (text -> bool) :=
  if bool_decide (body = u "[a-z][a-z0-9_-]*") then Some slug else None.

(** ** Schema fragments *)
Definition object_schema (properties : dict value) (required : list string) : value :=
  VDict [(u "type", vs "object"); (u "properties", VDict properties); (u "required", VList (vs <$> required));
         (u "additionalProperties", VBool false)].

Definition text_schema (bounds : dict value) : value := VDict ((u "type", vs "string") :: bounds).
Definition array_schema (items : value) (bounds : dict value) : value :=
  VDict ((u "type", vs "array") :: (u "items", items) :: bounds).
Definition min_length (n : Z) : text * value := (u "minLength", VInt n).
Definition max_length (n : Z) : text * value := (u "maxLength", VInt n).
Definition min_items (n : Z) : text * value := (u "minItems", VInt n).
Definition max_items (n : Z) : text * value := (u "maxItems", VInt n).

Definition ANY_TEXT : value := text_schema [].
Definition sized_text (mn mx : Z) : value := text_schema [min_length mn; max_length mx].

(** [{"type": "number", "minimum": 0, "maximum": 1}]. *)
Definition UNIT_SCHEMA : value :=
  VDict [(u "type", vs "number"); (u "minimum", VInt 0); (u "maximum", VInt 1)].
Definition integer_schema (mn mx : Z) : value :=
  VDict [(u "type", vs "integer"); (u "minimum", VInt mn); (u "maximum", VInt mx)].

Definition EVIDENCE_ITEM : value :=
  object_schema [(u "id", ANY_TEXT); (u "text", ANY_TEXT); (u "kind", ANY_TEXT); (u "role", ANY_TEXT)] ["text"].

Definition EVIDENCE_SCHEMA : value :=
  VDict [(u "anyOf", VList [ANY_TEXT; EVIDENCE_ITEM; array_schema EVIDENCE_ITEM [min_items (ver_evidence_min VERIFY)]])].

Definition candidates_schema : value :=
  array_schema (object_schema [(u "id", ANY_TEXT); (u "text", ANY_TEXT)] ["text"])
    [min_items (cand_min_items CANDIDATES); max_items (cand_max_items CANDIDATES)].

(** [diff] of jev_review and jev_gate: a patch, or a file list. *)
Definition DIFF_SCHEMA : value :=
  VDict [(u "anyOf", VList [
    text_schema [min_length 1];
    VDict [(u "type", vs "array"); min_items 1;
           (u "items", object_schema [(u "path", text_schema [min_length 1]); (u "patch", text_schema [min_length 1])]
                         ["path"; "patch"])]])].

(** [define]: the published schema names its draft. *)
Definition define (input_schema : value) : value :=
  match input_schema with
  | VDict kws => VDict (dset (u "$schema") (vs "http://json-schema.org/draft-07/schema#") kws)
  | s => s
  end.

(** ** The input schemas *)
Definition VERIFY_SCHEMA : value := object_schema
  [(u "claims", array_schema ANY_TEXT [min_items (ver_claims_min VERIFY)]);
   (u "evidence", EVIDENCE_SCHEMA); (u "auto_accept", UNIT_SCHEMA)] ["claims"; "evidence"].

Definition SCREEN_SCHEMA : value := object_schema
  [(u "text", text_schema [min_length (scr_text_min SCREEN)]); (u "purpose", ANY_TEXT);
   (u "block_at", UNIT_SCHEMA); (u "review_at", UNIT_SCHEMA)] ["text"].

Definition FIND_SCHEMA : value := object_schema
  [(u "query", text_schema [min_length (find_query_min FIND)]); (u "candidates", candidates_schema);
   (u "top_k", integer_schema (find_top_k_min FIND) (find_top_k_max FIND))] ["query"; "candidates"].

Definition CLASSIFY_SCHEMA : value := object_schema
  [(u "items", array_schema (object_schema [(u "id", ANY_TEXT); (u "text", ANY_TEXT)] ["text"])
      [min_items (cls_items_min CLASSIFY); max_items (cls_items_max CLASSIFY)]);
   (u "classes", array_schema (object_schema [(u "id", ANY_TEXT); (u "description", ANY_TEXT)] ["description"])
      [min_items (cls_classes_min CLASSIFY); max_items (cls_classes_max CLASSIFY)]);
   (u "purpose", ANY_TEXT);
   (u "context", VDict [(u "anyOf", VList [ANY_TEXT;
      VDict [(u "type", vs "object"); (u "additionalProperties", VDict [])]])]);
   (u "auto_accept", UNIT_SCHEMA); (u "minimum_margin", UNIT_SCHEMA)] ["items"; "classes"].

Definition DECIDE_SCHEMA : value := object_schema
  [(u "decision", sized_text (dec_decision_min DECIDE) (dec_decision_max DECIDE));
   (u "evidence", sized_text (dec_evidence_min DECIDE) (dec_evidence_max DECIDE));
   (u "priorities", sized_text (dec_priorities_min DECIDE) (dec_priorities_max DECIDE));
   (u "candidates", array_schema
      (object_schema
        [(u "id", text_schema [(u "pattern", vs SLUG); max_length (dec_candidate_id_max DECIDE)]);
         (u "description",
            sized_text (dec_candidate_description_min DECIDE) (dec_candidate_description_max DECIDE))]
        ["id"; "description"])
      [min_items (dec_candidates_min DECIDE); max_items (dec_candidates_max DECIDE)]);
   (u "requirements", array_schema (sized_text (dec_requirement_min DECIDE) (dec_requirement_max DECIDE))
      [max_items (dec_requirements_max DECIDE)]);
   (u "escape_hatches", VDict [(u "type", vs "boolean")])] ["decision"; "evidence"; "priorities"; "candidates"].

Definition RERANK_SCHEMA : value := object_schema
  [(u "query", sized_text (rr_query_min RERANK) (rr_query_max RERANK)); (u "candidates", candidates_schema);
   (u "top_k", integer_schema (rr_top_k_min RERANK) (rr_top_k_max RERANK))] ["query"; "candidates"].

Definition COMPARE_SCHEMA : value := object_schema
  [(u "passage_a", sized_text (cmp_passage_min COMPARE) (cmp_passage_max COMPARE));
   (u "passage_b", sized_text (cmp_passage_min COMPARE) (cmp_passage_max COMPARE));
   (u "aspects", array_schema (sized_text (cmp_aspect_min COMPARE) (cmp_aspect_max COMPARE))
      [max_items (cmp_aspects_max COMPARE)]);
   (u "purpose", ANY_TEXT); (u "auto_accept", UNIT_SCHEMA); (u "minimum_margin", UNIT_SCHEMA)]
  ["passage_a"; "passage_b"].

Definition EXTRACT_SCHEMA : value := object_schema
  [(u "document", sized_text (ext_document_min EXTRACT) (ext_document_max EXTRACT));
   (u "fields", array_schema
      (object_schema
        [(u "id", text_schema [(u "pattern", vs SLUG); max_length (ext_field_id_max EXTRACT)]);
         (u "pattern", sized_text (ext_pattern_min EXTRACT) (ext_pattern_max EXTRACT));
         (u "flags", text_schema [max_length (ext_flags_max EXTRACT)]);
         (u "description", sized_text (ext_description_min EXTRACT) (ext_description_max EXTRACT))]
        ["id"; "pattern"; "description"])
      [min_items (ext_fields_min EXTRACT); max_items (ext_fields_max EXTRACT)]);
   (u "purpose", ANY_TEXT); (u "auto_accept", UNIT_SCHEMA); (u "minimum_margin", UNIT_SCHEMA)]
  ["document"; "fields"].

Definition REVIEW_SCHEMA : value := object_schema
  [(u "request", text_schema [min_length 1]); (u "diff", DIFF_SCHEMA); (u "tests", ANY_TEXT);
   (u "tests_format", ANY_TEXT); (u "tests_sha256", ANY_TEXT); (u "auto_accept", UNIT_SCHEMA);
   (u "review_at", UNIT_SCHEMA); (u "composite_floor", UNIT_SCHEMA)] ["request"; "diff"].

Definition GATE_SCHEMA : value := object_schema
  [(u "request", text_schema [min_length 1]); (u "diff", DIFF_SCHEMA);
   (u "claims", array_schema (text_schema [min_length 1])
      [min_items (gate_claims_min GATE); max_items (gate_claims_max GATE)]);
   (u "evidence", EVIDENCE_SCHEMA); (u "tests", ANY_TEXT); (u "tests_format", ANY_TEXT);
   (u "tests_sha256", ANY_TEXT); (u "auto_accept", UNIT_SCHEMA); (u "review_at", UNIT_SCHEMA);
   (u "composite_floor", UNIT_SCHEMA)] ["request"; "diff"; "claims"; "evidence"].

Definition SCORE_SCHEMA : value := object_schema
  [(u "subject", sized_text (sco_subject_min SCORE) (sco_subject_max SCORE));
   (u "levels", array_schema (sized_text (sco_level_units_min SCORE) (sco_level_units_max SCORE))
      [min_items (sco_levels_min SCORE); max_items (sco_levels_max SCORE)]);
   (u "context", sized_text 1 (sco_context_max SCORE))] ["subject"; "levels"].

(** ** Reading arguments

    Each handler subscripts the parsed dict for its required keys and uses [args.get] for the optional
    ones.  [None] is a read that fails in Python (a missing key, another type). *)
Definition required {A} (key : text) (read : value -> option A) (args : dict value) : option A :=
  match dget key args with Some v => read v | None => None end.

Definition optional_arg {A} (key : text) (read : value -> option A) (args : dict value) : option (option A) :=
  match dget key args with Some v => Some <$> read v | None => Some None end.

Definition texts_of (v : value) : option (list text) := match v with VList l => mapM as_str l | _ => None end.

(** An object of strings. *)
Definition item_of (v : value) : option item :=
  match v with VDict d => mapM (fun kv => match kv.2 with VStr t => Some (kv.1, t) | _ => None end) d | _ => None end.

Definition items_of (v : value) : option (list item) := match v with VList l => mapM item_of l | _ => None end.

Definition bool_of (v : value) : option bool := match v with VBool b => Some b | _ => None end.

(** [int(x)] of a finite number. *)
Definition int_of (v : value) : option Z :=
  match v with
  | VInt n => Some n
  | VFloat f => if is_finite f then let '(n, d) := fratio f in Some (Z.quot n d) else None
  | _ => None
  end.

Definition evidence_of (v : value) : option evidence_arg :=
  match v with
  | VStr t => Some (EvText t)
  | VList _ => EvItems <$> items_of v
  | VDict _ => EvItem <$> item_of v
  | _ => None
  end.

Definition diff_of (v : value) : option diff_arg :=
  match v with VStr t => Some (DiffText t) | VList _ => DiffFiles <$> items_of v | _ => None end.

Definition field_of (v : value) : option Extract.RawField :=
  match v with
  | VDict d =>
    i ← required (u "id") as_str d; p ← required (u "pattern") as_str d;
    de ← required (u "description") as_str d; fl ← optional_arg (u "flags") as_str d;
    Some {| Extract.rf_id := i; Extract.rf_pattern := p; Extract.rf_description := de; Extract.rf_flags := fl |}
  | _ => None
  end.
Definition fields_of (v : value) : option (list Extract.RawField) :=
  match v with VList l => mapM field_of l | _ => None end.

Definition candidate_of (v : value) : option Decide.Candidate :=
  match v with
  | VDict d =>
    i ← required (u "id") as_str d; de ← required (u "description") as_str d;
    Some {| Decide.cand_id := i; Decide.cand_description := de |}
  | _ => None
  end.
Definition candidates_of (v : value) : option (list Decide.Candidate) :=
  match v with VList l => mapM candidate_of l | _ => None end.

(** ** The handlers' arguments *)
Definition verify_args (d : dict value) : option Verify.Args :=
  claims ← required (u "claims") texts_of d; evidence ← required (u "evidence") evidence_of d;
  accept ← optional_arg (u "auto_accept") as_number d;
  Some {| Verify.arg_claims := claims; Verify.arg_evidence := evidence; Verify.arg_auto_accept := accept |}.

Definition screen_args (d : dict value) : option Screen.Args :=
  t ← required (u "text") as_str d; purpose ← optional_arg (u "purpose") as_str d;
  block ← optional_arg (u "block_at") as_number d; review ← optional_arg (u "review_at") as_number d;
  Some {| Screen.arg_text := t; Screen.arg_purpose := purpose; Screen.arg_block_at := block;
          Screen.arg_review_at := review |}.

Definition find_args (d : dict value) : option Find.Args :=
  query ← required (u "query") as_str d; candidates ← required (u "candidates") items_of d;
  top_k ← optional_arg (u "top_k") int_of d;
  Some {| Find.arg_query := query; Find.arg_candidates := candidates; Find.arg_top_k := top_k |}.

Definition classify_args (d : dict value) : option Classify.Args :=
  items ← required (u "items") items_of d; classes ← required (u "classes") items_of d;
  purpose ← optional_arg (u "purpose") as_str d; context ← optional_arg (u "context") Some d;
  accept ← optional_arg (u "auto_accept") as_number d; margin ← optional_arg (u "minimum_margin") as_number d;
  Some {| Classify.arg_items := items; Classify.arg_classes := classes; Classify.arg_purpose := purpose;
          Classify.arg_context := context; Classify.arg_auto_accept := accept;
          Classify.arg_minimum_margin := margin |}.

Definition decide_args (d : dict value) : option Decide.Args :=
  decision ← required (u "decision") as_str d; evidence ← required (u "evidence") as_str d;
  priorities ← required (u "priorities") as_str d; candidates ← required (u "candidates") candidates_of d;
  requirements ← optional_arg (u "requirements") texts_of d;
  hatches ← optional_arg (u "escape_hatches") bool_of d;
  Some {| Decide.arg_decision := decision; Decide.arg_evidence := evidence; Decide.arg_priorities := priorities;
          Decide.arg_candidates := candidates; Decide.arg_requirements := requirements;
          Decide.arg_escape_hatches := hatches |}.

Definition rerank_args (d : dict value) : option Rerank.Args :=
  query ← required (u "query") as_str d; candidates ← required (u "candidates") items_of d;
  top_k ← optional_arg (u "top_k") int_of d;
  Some {| Rerank.arg_query := query; Rerank.arg_candidates := candidates; Rerank.arg_top_k := top_k |}.

Definition compare_args (d : dict value) : option Compare.Args :=
  a ← required (u "passage_a") as_str d; b ← required (u "passage_b") as_str d;
  aspects ← optional_arg (u "aspects") texts_of d; purpose ← optional_arg (u "purpose") as_str d;
  accept ← optional_arg (u "auto_accept") as_number d; margin ← optional_arg (u "minimum_margin") as_number d;
  Some {| Compare.arg_passage_a := a; Compare.arg_passage_b := b; Compare.arg_aspects := aspects;
          Compare.arg_purpose := purpose; Compare.arg_auto_accept := accept; Compare.arg_minimum_margin := margin |}.

Definition extract_args (d : dict value) : option Extract.Args :=
  document ← required (u "document") as_str d; fields ← required (u "fields") fields_of d;
  purpose ← optional_arg (u "purpose") as_str d;
  accept ← optional_arg (u "auto_accept") as_number d; margin ← optional_arg (u "minimum_margin") as_number d;
  Some {| Extract.arg_document := document; Extract.arg_fields := fields; Extract.arg_purpose := purpose;
          Extract.arg_auto_accept := accept; Extract.arg_minimum_margin := margin |}.

(** [tests_format] is published and not read. *)
Definition review_args (d : dict value) : option ReviewArgs :=
  request ← required (u "request") as_str d; diff ← required (u "diff") diff_of d;
  tests ← optional_arg (u "tests") as_str d; sha ← optional_arg (u "tests_sha256") as_str d;
  accept ← optional_arg (u "auto_accept") as_number d; review ← optional_arg (u "review_at") as_number d;
  floor ← optional_arg (u "composite_floor") as_number d;
  Some {| arg_request := request; arg_diff := diff; arg_tests := tests; arg_tests_sha256 := sha;
          arg_auto_accept := accept; arg_review_at := review; arg_composite_floor := floor |}.

Definition gate_args (d : dict value) : option Gate.GateArgs :=
  review ← review_args d; claims ← required (u "claims") texts_of d;
  evidence ← required (u "evidence") evidence_of d;
  Some {| Gate.gate_review := review; Gate.arg_claims := claims; Gate.arg_evidence := evidence |}.

Definition score_args (d : dict value) : option Score.Args :=
  subject ← required (u "subject") as_str d; levels ← required (u "levels") texts_of d;
  context ← optional_arg (u "context") as_str d;
  Some {| Score.arg_subject := subject; Score.arg_levels := levels; Score.arg_context := context |}.

(** [EVIDENCE_NOT_EMPTY]. *)
Definition EVIDENCE_NOT_EMPTY : Refinement :=
  {| check := fun v =>
       match evidence_of v with Some raw => has_non_empty_evidence (normalize_evidence raw) | None => false end;
     refinement_message := u "jev_gate requires at least one evidence item with non-empty text." |}.

(** ** The registry *)
Record Tool := {
  t_name : text; t_schema : value; t_refinements : dict Refinement;
  t_args : Type; t_read : dict value -> option t_args; t_handle : t_args -> Runtime -> M ToolResult }.

(** A failed read would raise in the handler: [KeyError] or [TypeError], which the kernel reports as
    a provider error. *)
Definition handler (t : Tool) (d : dict value) (rt : Runtime) : M ToolResult :=
  match t_read t d with Some args => t_handle t args rt | None => mraise (OtherError (u "unreadable arguments")) end.

Section Registry.
Context {E : Matching.RegexExecutor} (translate : text -> text -> result text Matching.Translated).

Definition tool {A} (name : string) (schema : value) (refinements : dict Refinement) (read : dict value -> option A)
    (handle : A -> Runtime -> M ToolResult) : Tool :=
  {| t_name := u name; t_schema := define schema; t_refinements := refinements; t_args := A; t_read := read;
     t_handle := handle |}.

(** The tools that judge caller text, in registration order; the four that read the workspace follow
    them in the source. *)
Definition TOOLS : list Tool :=
  [tool "jev_verify" VERIFY_SCHEMA [] verify_args Verify.handle;
   tool "jev_screen" SCREEN_SCHEMA [] screen_args Screen.handle;
   tool "jev_find" FIND_SCHEMA [] find_args Find.handle;
   tool "jev_classify" CLASSIFY_SCHEMA [] classify_args Classify.handle;
   tool "jev_decide" DECIDE_SCHEMA [] decide_args Decide.handle;
   tool "jev_rerank" RERANK_SCHEMA [] rerank_args Rerank.handle;
   tool "jev_compare" COMPARE_SCHEMA [] compare_args Compare.handle;
   tool "jev_extract" EXTRACT_SCHEMA [] extract_args (Extract.handle translate);
   tool "jev_review" REVIEW_SCHEMA [] review_args Review.handle;
   tool "jev_gate" GATE_SCHEMA [(u "evidence", EVIDENCE_NOT_EMPTY)] gate_args Gate.handle;
   tool "jev_score" SCORE_SCHEMA [] score_args Score.handle].

(** [Toolset(runtime, tools)]: every schema is compiled, or construction fails. *)
Definition build (t : Tool) : result SchemaUnfaithful JevTool :=
  let? ps := compile_argument_schema published_regex (t_schema t) (t_refinements t) in
  Ok {| tool_name := t_name t; tool_properties := ps; tool_handler := handler t |}.

Definition toolset (tools : list Tool) : result SchemaUnfaithful (list JevTool) := rmap build tools.
End Registry.

(** ** Facts: reading what validates *)

(** What an argument's schema promises to its reader: a value that validates can be read. *)
Class Reads {A} (schema : value) (read : value -> option A) : Prop :=
  reads : forall v, wf_value v -> valid published_regex schema v = true -> is_Some (read v).

Lemma valid_keyword kws k kv v :
  (k, kv) ∈ kws -> valid published_regex (VDict kws) v = true -> member_ok published_regex kws k kv v = true.
Proof.
  intros Hin Hv. rewrite valid_members in Hv. apply forallb_forall with (x := (k, kv)) in Hv; [done|].
  by apply list_elem_of_In.
Qed.

Lemma valid_type kws s v :
  (u "type", vs s) ∈ kws -> valid published_regex (VDict kws) v = true -> type_ok (vs s) v = true.
Proof. intros Hin Hv. exact (valid_keyword _ _ _ _ Hin Hv). Qed.

#[export] Instance reads_text bounds : Reads (text_schema bounds) as_str.
Proof. intros v _ H. apply (valid_type _ "string") in H; [|left]. by destruct v. Qed.

#[export] Instance reads_bool : Reads (VDict [(u "type", vs "boolean")]) bool_of.
Proof. intros v _ H. apply (valid_type _ "boolean") in H; [|left]. by destruct v. Qed.

#[export] Instance reads_unit : Reads UNIT_SCHEMA as_number.
Proof.
  intros v _ H. apply (valid_type _ "number") in H; [|left]. destruct v as [| |n| | | |]; try done.
  cbn. destruct (float_of_int n); by eexists.
Qed.

#[export] Instance reads_integer mn mx : Reads (integer_schema mn mx) int_of.
Proof.
  intros v _ H. apply (valid_type _ "integer") in H; [|left]. destruct v as [| |n|f| | |]; try done.
  change (is_finite f && is_integral (NumFloat f) = true) in H. apply andb_prop in H as [H _]. cbn [int_of]. rewrite H.
  destruct (fratio f). by eexists.
Qed.

#[export] Instance reads_any s : Reads s Some.
Proof. intros v _ _. by eexists. Qed.

(** Arrays of readable items. *)
Lemma array_elements kws items v :
  (u "type", vs "array") ∈ kws -> (u "items", items) ∈ kws ->
  wf_value v -> valid published_regex (VDict kws) v = true ->
  exists l, v = VList l /\ Forall (fun x => wf_value x /\ valid published_regex items x = true) l.
Proof.
  intros Hty Hit Hwf H. pose proof (valid_type _ _ _ Hty H) as Ht. destruct v as [| | | | |l|]; try done.
  exists l. split; [done|]. apply (valid_keyword _ _ _ _ Hit) in H.
  change (forallb (valid published_regex items) l = true) in H. rewrite forallb_forall in H.
  apply Forall_forall. intros x Hx. split; [by eapply wf_list_elem|]. apply H. by apply list_elem_of_In.
Qed.

Lemma array_items items bounds v :
  wf_value v -> valid published_regex (array_schema items bounds) v = true ->
  exists l, v = VList l /\ Forall (fun x => wf_value x /\ valid published_regex items x = true) l.
Proof. apply array_elements; [left|right; left]. Qed.

Lemma mapM_readable {A} (P : value -> Prop) (read : value -> option A) l :
  (forall v, P v -> is_Some (read v)) -> Forall P l -> is_Some (mapM read l).
Proof.
  intros Hr. induction 1 as [|v l Hv _ [vs' IH]]; [by eexists|]. cbn. destruct (Hr v Hv) as [a ->]. cbn. rewrite IH.
  by eexists.
Qed.

#[export] Instance reads_texts items bounds : Reads items as_str -> Reads (array_schema items bounds) texts_of.
Proof.
  intros Hr v Hwf (l & -> & Hl)%array_items; [|done]. eapply mapM_readable; [|exact Hl]. intros x [? ?]. by apply Hr.
Qed.
#[export] Instance reads_items items bounds : Reads items item_of -> Reads (array_schema items bounds) items_of.
Proof.
  intros Hr v Hwf (l & -> & Hl)%array_items; [|done]. eapply mapM_readable; [|exact Hl]. intros x [? ?]. by apply Hr.
Qed.
#[export] Instance reads_fields items bounds : Reads items field_of -> Reads (array_schema items bounds) fields_of.
Proof.
  intros Hr v Hwf (l & -> & Hl)%array_items; [|done]. eapply mapM_readable; [|exact Hl]. intros x [? ?]. by apply Hr.
Qed.
#[export] Instance reads_candidates items bounds :
  Reads items candidate_of -> Reads (array_schema items bounds) candidates_of.
Proof.
  intros Hr v Hwf (l & -> & Hl)%array_items; [|done]. eapply mapM_readable; [|exact Hl]. intros x [? ?]. by apply Hr.
Qed.

(** Closed objects: published ones carry the draft annotation as well. *)
Record ClosedObject (kws : dict value) (props : dict value) (names : list text) : Prop := {
  co_type : dget (u "type") kws = Some (vs "object");
  co_properties : dget (u "properties") kws = Some (VDict props);
  co_required : dget (u "required") kws = Some (VList (VStr <$> names));
  co_additional : dget (u "additionalProperties") kws = Some (VBool false) }.

Lemma object_schema_closed props required :
  exists kws, object_schema props required = VDict kws /\ ClosedObject kws props (u <$> required).
Proof.
  eexists. split; [reflexivity|]. split; try reflexivity. cbn. do 2 f_equal. by rewrite <- list_fmap_compose.
Qed.

Lemma define_closed props required :
  exists kws, define (object_schema props required) = VDict kws /\ ClosedObject kws props (u <$> required).
Proof.
  eexists. split; [reflexivity|]. split; try reflexivity. cbn. do 2 f_equal. by rewrite <- list_fmap_compose.
Qed.

Lemma closed_valid kws props names v :
  ClosedObject kws props names -> valid published_regex (VDict kws) v = true ->
  exists d, v = VDict d /\ Forall (fun k => k ∈ dkeys props) (dkeys d) /\
    Forall (fun sub => match dget sub.1 d with Some w => valid published_regex sub.2 w = true | None => True end) props /\
    Forall (fun name => name ∈ dkeys d) names.
Proof.
  intros [Hty Hp Hr Ha] Hv. apply (object_valid published_regex kws props names v Hty Hp Ha); [by rewrite Hr|].
  apply forallb_forall. intros k _. unfold present_ok. destruct (dget k kws) as [kv|] eqn:E; [|done].
  apply dget_elem in E. by apply valid_keyword.
Qed.

Section ClosedReads.
Context (kws props : dict value) (names : list text) (d : dict value).
Context (Hc : ClosedObject kws props names) (Hwf : wf_value (VDict d))
  (Hv : valid published_regex (VDict kws) (VDict d) = true).

Lemma closed_property k s w :
  dget k props = Some s -> dget k d = Some w -> wf_value w /\ valid published_regex s w = true.
Proof.
  intros Hs Hw. destruct (closed_valid _ _ _ _ Hc Hv) as (d' & [= <-] & _ & Hprops & _).
  split; [apply dget_elem in Hw; exact (wf_dict_elem _ _ _ Hwf Hw)|].
  apply dget_elem in Hs. eapply Forall_forall in Hprops; [|exact Hs]. cbn in Hprops. by rewrite Hw in Hprops.
Qed.

Lemma closed_optional {A} k s (read : value -> option A) :
  dget k props = Some s -> Reads s read -> exists o, optional_arg k read d = Some o.
Proof.
  intros Hs Hr. unfold optional_arg. destruct (dget k d) as [w|] eqn:Ew; [|by eexists].
  destruct (closed_property _ _ _ Hs Ew) as [? ?]. destruct (Hr w) as [a ->]; [done..|by eexists].
Qed.

Lemma closed_required {A} k s (read : value -> option A) :
  dget k props = Some s -> k ∈ names -> Reads s read -> exists a, required k read d = Some a.
Proof.
  intros Hs Hk Hr. unfold required. destruct (closed_valid _ _ _ _ Hc Hv) as (d' & [= <-] & _ & _ & Hn).
  eapply Forall_forall in Hn; [|exact Hk]. apply dget_is_Some in Hn as [w Ew]. rewrite Ew.
  destruct (closed_property _ _ _ Hs Ew) as [? ?]. by apply Hr.
Qed.
End ClosedReads.

(** Reads one argument of a closed object. *)
Ltac read_argument Hc Hwf Hv :=
  match goal with
  | |- context [required ?k ?read ?d] =>
    let a := fresh "a" in let Ha := fresh "Ha" in
    destruct (closed_required _ _ _ d Hc Hwf Hv k _ read eq_refl) as [a Ha];
    [apply (bool_decide_eq_true_1 (k ∈ _)); reflexivity | apply _ | rewrite Ha; cbn [mbind option_bind]]
  | |- context [optional_arg ?k ?read ?d] =>
    let a := fresh "a" in let Ha := fresh "Ha" in
    destruct (closed_optional _ _ _ d Hc Hwf Hv k _ read eq_refl) as [a Ha];
    [apply _ | rewrite Ha; cbn [mbind option_bind]]
  end.

#[export] Instance reads_item props required :
  Forall (fun kv => exists bounds, kv.2 = text_schema bounds) props -> Reads (object_schema props required) item_of.
Proof.
  intros Ht v Hwf Hv. destruct (object_schema_closed props required) as (kws & Hk & Hc). rewrite Hk in Hv.
  destruct (closed_valid _ _ _ _ Hc Hv) as (d & -> & Hkeys & _). cbn [item_of].
  assert (Forall (fun kv => exists t, kv.2 = VStr t) d) as Hd.
  { apply Forall_forall. intros [k w] Hin. pose proof (elem_dget _ _ _ (proj1 Hwf) Hin) as Hw.
    eapply Forall_forall in Hkeys; [|by apply (list_elem_of_fmap_2 fst) in Hin].
    apply dget_is_Some in Hkeys as [s Hs]. destruct (closed_property _ _ _ _ Hc Hwf Hv _ _ _ Hs Hw) as [Hww Hvw].
    apply dget_elem in Hs. eapply Forall_forall in Ht; [|exact Hs]. destruct Ht as [bounds Hb]. cbn in Hb. subst s.
    cbn [snd]. destruct (reads_text bounds w Hww Hvw) as [t Et]. exists t. by destruct w; simplify_eq/=. }
  clear -Hd. induction Hd as [|[k w] d [t Ht] _ [l IH]]; [by eexists|]. cbn [snd] in Ht. subst w. cbn. rewrite IH. by eexists.
Qed.

Ltac text_properties := repeat (apply Forall_cons; split; [by eexists|]); apply Forall_nil_2.
#[export] Hint Extern 1 (Forall (fun kv => exists bounds, kv.2 = text_schema bounds) _) => text_properties : typeclass_instances.

(** A closed object read by [read], from the reads of its arguments. *)
Lemma reads_closed {A} kws props names (read : value -> option A) :
  ClosedObject kws props names ->
  (forall d, wf_value (VDict d) -> valid published_regex (VDict kws) (VDict d) = true -> is_Some (read (VDict d))) ->
  Reads (VDict kws) read.
Proof. intros Hc Hr v Hwf Hv. destruct (closed_valid _ _ _ _ Hc Hv) as (d & -> & _). by apply Hr. Qed.

Ltac read_closed kws Hk Hc :=
  rewrite Hk; clear Hk; apply (reads_closed kws _ _ _ Hc);
  let d := fresh "d" in let Hwf := fresh "Hwf" in let Hv := fresh "Hv" in
  intros d Hwf Hv; cbn beta match; repeat read_argument Hc Hwf Hv; by eexists.

Ltac read_object :=
  let kws := fresh "kws" in let Hk := fresh "Hk" in let Hc := fresh "Hc" in
  match goal with
  | |- Reads (object_schema ?p ?r) _ => destruct (object_schema_closed p r) as (kws & Hk & Hc); read_closed kws Hk Hc
  | |- Reads (define (object_schema ?p ?r)) _ => destruct (define_closed p r) as (kws & Hk & Hc); read_closed kws Hk Hc
  end.

#[export] Instance reads_candidate id_bounds text_bounds :
  Reads (object_schema [(u "id", text_schema id_bounds); (u "description", text_schema text_bounds)] ["id"; "description"])
    candidate_of.
Proof. unfold candidate_of. read_object. Qed.

#[export] Instance reads_field b1 b2 b3 b4 :
  Reads (object_schema [(u "id", text_schema b1); (u "pattern", text_schema b2); (u "flags", text_schema b3);
                        (u "description", text_schema b4)] ["id"; "pattern"; "description"]) field_of.
Proof. unfold field_of. read_object. Qed.

(** Unions: the option that validates reads. *)
Lemma valid_any_of options bounds v :
  valid published_regex (VDict ((u "anyOf", VList options) :: bounds)) v = true ->
  exists s, s ∈ options /\ valid published_regex s v = true.
Proof.
  intros H. eapply (valid_keyword _ (u "anyOf") (VList options)) in H; [|left].
  change (existsb (fun s => valid published_regex s v) options = true) in H.
  apply existsb_exists in H as (s & Hs & H). exists s. split; [by apply list_elem_of_In|done].
Qed.

#[export] Instance reads_evidence : Reads EVIDENCE_SCHEMA evidence_of.
Proof.
  intros v Hwf (s & Hs & Hv)%valid_any_of.
  apply elem_of_cons in Hs as [->|Hs]; [|apply elem_of_cons in Hs as [->|Hs]; [|apply list_elem_of_singleton in Hs as ->]].
  - destruct (reads_text [] v Hwf Hv) as [t Ht]. destruct v; try done; by eexists.
  - assert (Reads EVIDENCE_ITEM item_of) as Hr by apply _.
    destruct (Hr v Hwf Hv) as [it Hit]. destruct v; try done. cbn [evidence_of]. rewrite Hit. by eexists.
  - assert (Reads (array_schema EVIDENCE_ITEM [min_items (ver_evidence_min VERIFY)]) items_of) as Hr by apply _.
    destruct (Hr v Hwf Hv) as [it Hit]. destruct v; try done. cbn [evidence_of]. rewrite Hit. by eexists.
Qed.

#[export] Instance reads_diff : Reads DIFF_SCHEMA diff_of.
Proof.
  intros v Hwf (s & Hs & Hv)%valid_any_of.
  apply elem_of_cons in Hs as [->|Hs]; [|apply list_elem_of_singleton in Hs as ->].
  - destruct (reads_text [min_length 1] v Hwf Hv) as [t Ht]. destruct v; try done; by eexists.
  - destruct (array_elements _ (object_schema [(u "path", text_schema [min_length 1]); (u "patch", text_schema [min_length 1])]
      ["path"; "patch"]) v ltac:(left) ltac:(right; right; left) Hwf Hv) as (l & -> & Hl).
    assert (is_Some (mapM item_of l)) as [its Hits].
    { eapply mapM_readable; [|exact Hl]. intros x [Hx Hvx].
      assert (Reads (object_schema [(u "path", text_schema [min_length 1]); (u "patch", text_schema [min_length 1])]
        ["path"; "patch"]) item_of) as Hr by apply _. by apply Hr. }
    cbn [diff_of items_of]. rewrite Hits. by eexists.
Qed.

(** A handler reads all its arguments from a dict that validates against its tool's schema. *)
Definition read_dict {A} (read : dict value -> option A) (v : value) : option A :=
  match v with VDict d => read d | _ => None end.

#[export] Instance reads_verify : Reads (define VERIFY_SCHEMA) (read_dict verify_args).
Proof. unfold read_dict, verify_args, VERIFY_SCHEMA. read_object. Qed.
#[export] Instance reads_screen : Reads (define SCREEN_SCHEMA) (read_dict screen_args).
Proof. unfold read_dict, screen_args, SCREEN_SCHEMA. read_object. Qed.
#[export] Instance reads_find : Reads (define FIND_SCHEMA) (read_dict find_args).
Proof. unfold read_dict, find_args, FIND_SCHEMA. read_object. Qed.
#[export] Instance reads_classify : Reads (define CLASSIFY_SCHEMA) (read_dict classify_args).
Proof. unfold read_dict, classify_args, CLASSIFY_SCHEMA. read_object. Qed.
#[export] Instance reads_decide : Reads (define DECIDE_SCHEMA) (read_dict decide_args).
Proof. unfold read_dict, decide_args, DECIDE_SCHEMA. read_object. Qed.
#[export] Instance reads_rerank : Reads (define RERANK_SCHEMA) (read_dict rerank_args).
Proof. unfold read_dict, rerank_args, RERANK_SCHEMA. read_object. Qed.
#[export] Instance reads_compare : Reads (define COMPARE_SCHEMA) (read_dict compare_args).
Proof. unfold read_dict, compare_args, COMPARE_SCHEMA. read_object. Qed.
#[export] Instance reads_extract : Reads (define EXTRACT_SCHEMA) (read_dict extract_args).
Proof. unfold read_dict, extract_args, EXTRACT_SCHEMA. read_object. Qed.
#[export] Instance reads_review : Reads (define REVIEW_SCHEMA) (read_dict review_args).
Proof. unfold read_dict, review_args, REVIEW_SCHEMA. read_object. Qed.
#[export] Instance reads_gate : Reads (define GATE_SCHEMA) (read_dict gate_args).
Proof. unfold read_dict, gate_args, review_args, GATE_SCHEMA. read_object. Qed.
#[export] Instance reads_score : Reads (define SCORE_SCHEMA) (read_dict score_args).
Proof. unfold read_dict, score_args, SCORE_SCHEMA. read_object. Qed.

(** ** Facts: the toolset *)
Lemma toolset_find ts tools t :
  toolset ts = Ok tools -> NoDup (t_name <$> ts) -> t ∈ ts ->
  exists jt, build t = Ok jt /\ find_tool tools (t_name t) = Some jt.
Proof.
  unfold toolset, find_tool. intros Hb%rmap_Ok. generalize (@None JevTool).
  induction Hb as [|t0 jt0 ts tools H0 Hb IH]; intros found Hnd Ht; [by apply elem_of_nil in Ht|].
  apply NoDup_cons in Hnd as [Hni Hnd].
  assert (tool_name jt0 = t_name t0) as Hn by (unfold build in H0; by apply rbind_Ok in H0 as (ps & _ & [= <-])).
  cbn [fold_left]. apply elem_of_cons in Ht as [->|Ht]; [|by apply IH].
  exists jt0. split; [done|]. rewrite bool_decide_eq_true_2 by done. clear IH H0 Hnd.
  revert Hni. induction Hb as [|t1 jt1 ts tools H1 Hb IH]; intros Hni; [done|]. cbn [fold_left].
  assert (tool_name jt1 = t_name t1) as Hn1 by (unfold build in H1; by apply rbind_Ok in H1 as (ps & _ & [= <-])).
  apply not_elem_of_cons in Hni as [Hne Hni]. rewrite bool_decide_eq_false_2 by congruence. by apply IH.
Qed.

Section Calls.
Context {E : Matching.RegexExecutor} (translate : text -> text -> result text Matching.Translated).

Lemma toolset_builds : exists tools, toolset (TOOLS translate) = Ok tools.
Proof.
  assert (match toolset (TOOLS translate) with Ok _ => true | Raise _ => false end = true) as H by by vm_compute.
  destruct (toolset (TOOLS translate)); [by eexists|done].
Qed.

Lemma tool_names : NoDup (t_name <$> TOOLS translate).
Proof. apply (bool_decide_eq_true_1 _). by vm_compute. Qed.

Lemma tools_read t :
  t ∈ TOOLS translate -> wf_value (t_schema t) /\ Reads (t_schema t) (read_dict (t_read t)).
Proof.
  intros Ht. unfold TOOLS in Ht.
  repeat (apply elem_of_cons in Ht as [->|Ht]; [split; [apply wf_check_sound; by vm_compute|apply _]|]).
  by apply elem_of_nil in Ht.
Qed.

End Calls.

(** jev_verify, called by name with a threshold given as an integer. *)
Definition sample_call : dict value :=
  [(u "evidence", VList [VDict [(u "text", vs "blue sky"); (u "id", vs "a")]; VDict [(u "text", vs "note")]]);
   (u "auto_accept", VInt 1); (u "claims", VList [vs "the sky is blue"])].

