(* ===== verification/PyStrings.v ===== *)
(** * Python string methods

    [str.strip], [str.splitlines] and the tests the program makes on text, over code points, for the
    components that read lines of text. *)
From S2P Require Import Prelude.
Open Scope Z_scope.

(** [str.isspace] of one character. *)
Definition is_space (c : Z) : bool :=
  ((9 <=? c) && (c <=? 13)) || ((28 <=? c) && (c <=? 32)) || (c =? 0x85) || (c =? 0xA0) || (c =? 0x1680)
  || ((0x2000 <=? c) && (c <=? 0x200A)) || (c =? 0x2028) || (c =? 0x2029) || (c =? 0x202F) || (c =? 0x205F)
  || (c =? 0x3000).

Fixpoint lstrip (t : text) : text :=
  match t with c :: t' => if is_space c then lstrip t' else t | [] => [] end.
Definition rstrip (t : text) : text := rev (lstrip (rev t)).
Definition strip (t : text) : text := rstrip (lstrip t).

(** The line boundaries of [str.splitlines]. *)
Definition is_line_break (c : Z) : bool :=
  ((10 <=? c) && (c <=? 13)) || ((28 <=? c) && (c <=? 30)) || (c =? 0x85) || (c =? 0x2028) || (c =? 0x2029).

(** [line] is the current line so far, reversed; [\r\n] is one boundary, and a trailing boundary opens
    no line. *)
Fixpoint split_lines_from (line : text) (t : text) : list text :=
  match t with
  | [] => match line with [] => [] | _ => [rev line] end
  | 13 :: 10 :: t' => rev line :: split_lines_from [] t'
  | c :: t' => if is_line_break c then rev line :: split_lines_from [] t' else split_lines_from (c :: line) t'
  end.
Definition splitlines (t : text) : list text := split_lines_from [] t.

(** [needle in t] for texts, and where it first occurs. *)
Fixpoint starts_with (needle t : text) : bool :=
  match needle, t with
  | [], _ => true
  | c :: needle', d :: t' => (c =? d) && starts_with needle' t'
  | _ :: _, [] => false
  end.

(** [t.endswith(suffix)] and [needle in t]. *)
Fixpoint ends_with (suffix t : text) : bool :=
  bool_decide (suffix = t) || match t with [] => false | _ :: t' => ends_with suffix t' end.

Fixpoint contains_text (needle t : text) : bool :=
  bool_decide (take (length needle) t = needle) || match t with [] => false | _ :: t' => contains_text needle t' end.

(** [t.split(c)]: there is always a last piece. *)
Fixpoint split_char (c : Z) (t : text) : list text :=
  match t with
  | [] => [[]]
  | d :: t' =>
    if d =? c then [] :: split_char c t'
    else match split_char c t' with piece :: pieces => (d :: piece) :: pieces | [] => [[d]] end
  end.

(** The Unicode tables behind [str.lower], [str.isupper] and the [\w] of [re], which the model takes as
    given; on ASCII they are what the standard says. *)
Class Unicode := {
  uni_word : Z -> bool; uni_islower : Z -> bool; uni_isupper : Z -> bool; uni_isdigit : Z -> bool;
  uni_lower : text -> text }.

Definition ascii_lower_char (c : Z) : Z := if (65 <=? c) && (c <=? 90) then c + 32 else c.
Definition ascii_lower_text (t : text) : text := ascii_lower_char <$> t.
Definition is_ascii (c : Z) : bool := (0 <=? c) && (c <? 128).

Class UnicodeLower (U : Unicode) : Prop :=
  lower_ascii : forall t, Forall (fun c => is_ascii c = true) t -> uni_lower t = ascii_lower_text t.

(** Tables that know ASCII only. *)
Definition ascii_unicode : Unicode :=
  {| uni_word := fun c => ((48 <=? c) && (c <=? 57)) || ((65 <=? c) && (c <=? 90)) || ((97 <=? c) && (c <=? 122)) || (c =? 95);
     uni_islower := fun c => (97 <=? c) && (c <=? 122); uni_isupper := fun c => (65 <=? c) && (c <=? 90);
     uni_isdigit := fun c => (48 <=? c) && (c <=? 57); uni_lower := ascii_lower_text |}.

#[export] Instance ascii_unicode_lower : UnicodeLower ascii_unicode.
Proof. by intros t _. Qed.

(** [t.replace(needle, by)] for a non-empty [needle]: left to right, without overlap.  [skip] counts
    the characters of the current occurrence that are still to be dropped. *)
Fixpoint replace_from (needle by_ : text) (skip : nat) (t : text) : text :=
  match t with
  | [] => []
  | c :: t' =>
    match skip with
    | S skip' => replace_from needle by_ skip' t'
    | O =>
      if starts_with needle t then by_ ++ replace_from needle by_ (length needle - 1) t'
      else c :: replace_from needle by_ O t'
    end
  end.
Definition replace (needle by_ t : text) : text := replace_from needle by_ 0 t.

(** [t.split(needle)] for a non-empty [needle]; [piece] is the piece so far, reversed. *)
Fixpoint split_from (needle : text) (skip : nat) (piece t : text) : list text :=
  match t with
  | [] => [rev piece]
  | c :: t' =>
    match skip with
    | S skip' => split_from needle skip' piece t'
    | O =>
      if starts_with needle t then rev piece :: split_from needle (length needle - 1) [] t'
      else split_from needle O (c :: piece) t'
    end
  end.
Definition split_text (needle t : text) : list text := split_from needle 0 [] t.

(** [t.split(needle, 1)]: what is before and after the first occurrence, if there is one. *)
Fixpoint split_once (needle t : text) : option (text * text) :=
  if starts_with needle t then Some ([], drop (length needle) t)
  else match t with [] => None | c :: t' => (fun ab => (c :: ab.1, ab.2)) <$> split_once needle t' end.

Definition removeprefix (prefix t : text) : text := if starts_with prefix t then drop (length prefix) t else t.

(** What [Path.read_text] does to line ends: [\r\n] and [\r] are read as [\n]. *)
Fixpoint universal_newlines (t : text) : text :=
  match t with
  | 13 :: 10 :: t' => 10 :: universal_newlines t'
  | 13 :: t' => 10 :: universal_newlines t'
  | c :: t' => c :: universal_newlines t'
  | [] => []
  end.

(** [t.split()]. *)
Fixpoint words_from (word : text) (t : text) : list text :=
  match t with
  | [] => match word with [] => [] | _ => [rev word] end
  | c :: t' => if is_space c then match word with [] => words_from [] t' | _ => rev word :: words_from [] t' end else words_from (c :: word) t'
  end.
Definition words (t : text) : list text := words_from [] t.

(** Python's order of strings: by code points. *)
Fixpoint text_ltb (a b : text) : bool :=
  match a, b with
  | [], _ :: _ => true
  | x :: a', y :: b' => (x <? y) || ((x =? y) && text_ltb a' b')
  | _, [] => false
  end.

(** ** Facts *)
Lemma text_ltb_asym a b : text_ltb a b = true -> text_ltb b a = false.
Proof.
  revert b. induction a as [|x a IH]; intros [|y b]; try done. cbn [text_ltb].
  rewrite orb_true_iff, andb_true_iff, orb_false_iff, andb_false_iff.
  intros [H|[H1 H2]]; [split; [lia|left; lia]|]. apply IH in H2. split; [lia|by right].
Qed.

Lemma text_ltb_false_trans a b c : text_ltb b a = false -> text_ltb c b = false -> text_ltb c a = false.
Proof.
  revert b c. induction a as [|x a IH]; intros [|y b] [|z c]; try done. cbn [text_ltb].
  rewrite !orb_false_iff, !andb_false_iff. intros [H1 H2] [H3 H4].
  destruct (Z.eq_dec x y) as [->|Hxy]; [|split; [lia|left; lia]].
  destruct (Z.eq_dec y z) as [->|Hyz]; [|split; [lia|left; lia]].
  destruct H2 as [H2|H2]; [lia|]. destruct H4 as [H4|H4]; [lia|]. split; [lia|right]. by eapply IH.
Qed.

Lemma starts_with_spec needle t : starts_with needle t = true <-> exists rest, t = needle ++ rest.
Proof.
  revert t. induction needle as [|c needle IH]; intros t; cbn [starts_with]; [split; [by eexists|done]|].
  destruct t as [|d t]; [split; [done|by intros [? [=]]]|]. rewrite andb_true_iff, Z.eqb_eq, IH.
  split; [intros [<- [rest ->]]; by exists rest|]. intros [rest [= -> ->]]. split; [done|]. by exists rest.
Qed.

Lemma replace_skip needle by_ n t : replace_from needle by_ n t = replace_from needle by_ 0 (drop n t).
Proof. revert n. induction t as [|c t IH]; intros [|n]; try done. cbn [replace_from drop]. apply IH. Qed.

(** The defining equations of [replace]. *)
Lemma replace_nil needle by_ : replace needle by_ [] = [].
Proof. done. Qed.

Lemma replace_match needle by_ rest :
  needle <> [] -> replace needle by_ (needle ++ rest) = by_ ++ replace needle by_ rest.
Proof.
  intros Hn. destruct needle as [|c needle]; [done|]. unfold replace. cbn [app replace_from].
  rewrite (proj2 (starts_with_spec (c :: needle) (c :: needle ++ rest))) by by exists rest.
  cbn [length]. rewrite replace_skip, Nat.sub_succ, Nat.sub_0_r, drop_app_length. done.
Qed.

Lemma replace_step needle by_ c t :
  starts_with needle (c :: t) = false -> replace needle by_ (c :: t) = c :: replace needle by_ t.
Proof. intros H. unfold replace. cbn [replace_from]. by rewrite H. Qed.

(** [replace] splits a text at the occurrences it finds. *)
Lemma replace_induction (needle by_ : text) (P : text -> text -> Prop) :
  needle <> [] -> P [] [] ->
  (forall rest out, P rest out -> P (needle ++ rest) (by_ ++ out)) ->
  (forall c t out, starts_with needle (c :: t) = false -> P t out -> P (c :: t) (c :: out)) ->
  forall t, P t (replace needle by_ t).
Proof.
  intros Hn H0 Hmatch Hstep t. remember (length t) as n eqn:En. revert t En.
  induction n as [n IH] using lt_wf_ind. intros t ->. destruct t as [|c t]; [by rewrite replace_nil|].
  destruct (starts_with needle (c :: t)) eqn:E.
  - apply starts_with_spec in E as [rest E]. rewrite E, replace_match by done. apply Hmatch. eapply IH; [|done].
    apply (f_equal length) in E. rewrite length_app in E. cbn [length] in *. destruct needle; [done|]. cbn [length] in E. lia.
  - rewrite replace_step by done. apply Hstep; [done|]. eapply IH; [|done]. cbn. lia.
Qed.

(** ** Splitting *)

Lemma split_from_skip needle t : forall skip piece, (skip <= length t)%nat ->
  split_from needle skip piece t = split_from needle 0 piece (drop skip t).
Proof.
  induction t as [|c t IH]; intros [|skip] piece H; cbn [length] in *; [done|lia|done|].
  cbn [split_from drop]. apply IH. lia.
Qed.

Lemma split_from_nonempty needle t : forall skip piece, split_from needle skip piece t <> [].
Proof.
  induction t as [|c t IH]; intros skip piece; cbn [split_from]; [done|]. destruct skip; [|apply IH].
  destruct (starts_with needle (c :: t)); [done|apply IH].
Qed.

Lemma join_cons sep t l : l <> [] -> join sep (t :: l) = t ++ sep ++ join sep l.
Proof. by destruct l. Qed.

(** Nothing is lost: the pieces around the needle are the text. *)
Lemma join_split needle t : needle <> [] -> join needle (split_text needle t) = t.
Proof.
  intros Hne. unfold split_text. enough (forall n t piece, (length t <= n)%nat ->
    join needle (split_from needle 0 piece t) = rev piece ++ t) as H by by rewrite (H (length t)).
  induction n as [|n IH]; intros s piece Hn; (destruct s as [|c s]; [cbn; by rewrite app_nil_r|]); cbn [length] in Hn; [lia|].
  cbn [split_from]. destruct (starts_with needle (c :: s)) eqn:E.
  - apply starts_with_spec in E as [rest Hr]. destruct needle as [|d needle]; [done|]. injection Hr as -> ->.
    rewrite join_cons by apply split_from_nonempty.
    replace (length (d :: needle) - 1)%nat with (length needle) by (cbn; lia).
    rewrite split_from_skip, drop_app_length by (rewrite length_app; lia). rewrite IH; [done|].
    rewrite length_app in Hn. lia.
  - rewrite IH by lia. cbn [rev]. by rewrite <- app_assoc.
Qed.
