(* ===== verification/Regex.v ===== *)
(** * A backtracking matcher for the program's own patterns

    The patterns of [credential_literal.py] and [redact_action.py] repeat single-character classes
    only, so Python's backtracking search over them is the list of the positions where a pattern can
    end, in the order the engine tries them: the first one is the match. *)
From S2P Require Import Prelude.
Open Scope Z_scope.

Inductive re :=
| Eps
| Cls (p : Z -> bool)
| Rep (p : Z -> bool) (mn : nat) (mx : option nat)       (* greedy *)
| Cat (a b : re)
| Alt (a b : re)
| Bound (word : Z -> bool)                                (* \b *)
| Start                                                   (* ^ *)
| NotBehind (p : Z -> bool)                               (* (?<![...]) *)
| Ahead (p : Z -> bool).                                  (* (?=[...]) *)

Definition Opt (a : re) : re := Alt a Eps.
Definition Star (p : Z -> bool) : re := Rep p 0 None.
Definition Plus (p : Z -> bool) : re := Rep p 1 None.
Fixpoint seq_of (rs : list re) : re := match rs with [] => Eps | [r] => r | r :: rs' => Cat r (seq_of rs') end.
Fixpoint any_of (rs : list re) : re := match rs with [] => Cls (fun _ => false) | [r] => r | r :: rs' => Alt r (any_of rs') end.

(** The characters of a literal, each through the class [ch] builds of it. *)
Definition lit_by (ch : Z -> Z -> bool) (s : string) : re := seq_of ((fun c => Cls (ch c)) <$> u s).
Definition lit (s : string) : re := lit_by Z.eqb s.

Definition one_of (s : string) (c : Z) : bool := mem c (u s).
Definition is_upper (c : Z) : bool := (65 <=? c) && (c <=? 90).
Definition is_lower (c : Z) : bool := (97 <=? c) && (c <=? 122).
Definition is_digit (c : Z) : bool := (48 <=? c) && (c <=? 57).
Definition is_alnum (c : Z) : bool := is_upper c || is_lower c || is_digit c.
Definition ascii_word (c : Z) : bool := is_alnum c || (c =? 95).
Definition ascii_space (c : Z) : bool := ((9 <=? c) && (c <=? 13)) || (c =? 32).

(** [re.IGNORECASE] of one character under [re.ASCII] ... *)
Definition ascii_lower (c : Z) : Z := if is_upper c then c + 32 else c.
Definition ignore_ascii (c d : Z) : bool := ascii_lower c =? ascii_lower d.

(** ... and without it: the four letters whose case folds to an ASCII letter also match it. *)
Definition folds_to (d : Z) : Z :=
  if (d =? 0x130) || (d =? 0x131) then 105 else if d =? 0x17F then 115 else if d =? 0x212A then 107 else ascii_lower d.
Definition ignore_case (c d : Z) : bool := ascii_lower c =? folds_to d.

Section Matching.
Context (t : text).

(** The longest run of [p] from [i], at most [mx]. *)
Definition run_length (p : Z -> bool) (mx : option nat) (i : nat) : nat :=
  (fix go (l : text) (room : nat) : nat :=
     match room, l with
     | S room', c :: l' => if p c then S (go l' room') else O
     | _, _ => O
     end) (drop i t) (match mx with Some m => m | None => length t end).

Fixpoint counts_down (mn n : nat) : list nat :=
  if (n <? mn)%nat then [] else n :: match n with O => [] | S n' => counts_down mn n' end.

Definition char_is (p : Z -> bool) (i : nat) : bool := match t !! i with Some c => p c | None => false end.
Definition before_is (p : Z -> bool) (i : nat) : bool := match i with O => false | S j => char_is p j end.

Definition only_if (b : bool) (i : nat) : list nat := if b then [i] else [].

Fixpoint ends (r : re) (i : nat) : list nat :=
  match r with
  | Eps => [i]
  | Cls p => only_if (char_is p i) (S i)
  | Rep p mn mx => Nat.add i <$> counts_down mn (run_length p mx i)
  | Cat a b => flat_map (ends b) (ends a i)
  | Alt a b => ends a i ++ ends b i
  | Bound word => only_if (xorb (before_is word i) (char_is word i)) i
  | Start => only_if (i =? 0)%nat i
  | NotBehind p => only_if (negb (before_is p i)) i
  | Ahead p => only_if (char_is p i) i
  end.

(** [pattern.finditer]: leftmost matches, each after the previous one; [at_] gives the match that
    starts at a position, with its end. *)
Fixpoint find_from {A} (at_ : nat -> option (A * nat)) (fuel i : nat) : list (nat * A * nat) :=
  match fuel with
  | O => []
  | S fuel' =>
    if (length t <? i)%nat then [] else
    match at_ i with
    | Some (a, e) => (i, a, e) :: find_from at_ fuel' (if (i <? e)%nat then e else S i)
    | None => find_from at_ fuel' (S i)
    end
  end.

Definition match_at (r : re) (i : nat) : option (unit * nat) := (fun e => ((), e)) <$> head (ends r i).

Definition finditer {A} (at_ : nat -> option (A * nat)) : list (nat * A * nat) := find_from at_ (S (length t)) 0.

(** ** Facts *)
Lemma char_is_lt p i : char_is p i = true -> (i < length t)%nat.
Proof. unfold char_is. destruct (t !! i) eqn:E; [|done]. intros _. by apply lookup_lt_Some in E. Qed.

Lemma run_length_le p mx i : (i <= length t)%nat -> (i + run_length p mx i <= length t)%nat.
Proof.
  intros Hi. unfold run_length. assert (length (drop i t) = length t - i)%nat as Hl by apply length_drop.
  revert Hl. generalize (drop i t) (match mx with Some m => m | None => length t end). intros l room.
  assert ((fix go l room := match room, l with S room', c :: l' => if p c then S (go l' room') else O | _, _ => O end) l room
          <= length l)%nat as H; [|lia].
  revert room. induction l as [|c l IH]; intros [|room]; try done; cbn; try lia. destruct (p c); [|lia].
  specialize (IH room). lia.
Qed.

Lemma counts_down_bounds mn n k : k ∈ counts_down mn n -> (mn <= k <= n)%nat.
Proof.
  induction n as [|n IH]; cbn [counts_down]; destruct (_ <? _)%nat eqn:E; try (by intros ?%elem_of_nil);
    apply Nat.ltb_ge in E.
  - intros ->%list_elem_of_singleton. lia.
  - intros [->|H]%elem_of_cons; [lia|]. apply IH in H. lia.
Qed.

(** The least a pattern consumes. *)
Fixpoint min_len (r : re) : nat :=
  match r with
  | Cls _ => 1
  | Rep _ mn _ => mn
  | Cat a b => min_len a + min_len b
  | Alt a b => Nat.min (min_len a) (min_len b)
  | _ => 0
  end.

Lemma only_if_elem b i e : e ∈ only_if b i <-> b = true /\ e = i.
Proof. unfold only_if. destruct b; rewrite ?list_elem_of_singleton; [tauto|]. split; [by intros ?%elem_of_nil|by intros []]. Qed.

Lemma ends_bounds r : forall i e, (i <= length t)%nat -> e ∈ ends r i -> (i + min_len r <= e <= length t)%nat.
Proof.
  induction r as [|p|p mn mx|a IHa b IHb|a IHa b IHb|w| |p|p]; intros i e Hi; cbn [ends min_len].
  - intros ->%list_elem_of_singleton. lia.
  - intros [E ->]%only_if_elem. apply char_is_lt in E. lia.
  - intros (k & -> & Hk)%list_elem_of_fmap. apply counts_down_bounds in Hk. pose proof (run_length_le p mx i Hi). lia.
  - intros (j & Hj & He)%list_elem_of_In%in_flat_map. apply list_elem_of_In in Hj, He.
    apply IHa in Hj; [|done]. apply IHb in He; lia.
  - intros [H|H]%elem_of_app; [apply IHa in H|apply IHb in H]; lia.
  - intros [_ ->]%only_if_elem. lia.
  - intros [_ ->]%only_if_elem. lia.
  - intros [_ ->]%only_if_elem. lia.
  - intros [_ ->]%only_if_elem. lia.
Qed.

(** The matches come in order, without overlap. *)
Inductive ordered_from {A} : nat -> list (nat * A * nat) -> Prop :=
| ordered_nil n : ordered_from n []
| ordered_cons n i a e ms :
    (n <= i <= e)%nat -> ordered_from (if (i <? e)%nat then e else S i) ms -> ordered_from n ((i, a, e) :: ms).

Lemma ordered_weaken {A} n n' (ms : list (nat * A * nat)) : (n' <= n)%nat -> ordered_from n ms -> ordered_from n' ms.
Proof. intros Hn H. destruct H; constructor; [lia|done]. Qed.

Lemma find_from_ordered {A} (at_ : nat -> option (A * nat)) :
  (forall i a e, at_ i = Some (a, e) -> (i <= e)%nat) -> forall fuel i, ordered_from i (find_from at_ fuel i).
Proof.
  intros Hat fuel. induction fuel as [|fuel IH]; intros i; cbn [find_from]; [constructor|].
  destruct (_ <? _)%nat; [constructor|].
  destruct (at_ i) as [[a e]|] eqn:E; [|eapply ordered_weaken; [|apply IH]; lia].
  constructor; [apply Hat in E; lia|apply IH].
Qed.

Lemma find_from_sound {A} (at_ : nat -> option (A * nat)) fuel : forall n i a e,
  (i, a, e) ∈ find_from at_ fuel n -> at_ i = Some (a, e) /\ (i <= length t)%nat.
Proof.
  induction fuel as [|fuel IH]; intros n i a e; cbn [find_from]; [by intros ?%elem_of_nil|].
  destruct (_ <? _)%nat eqn:El; [by intros ?%elem_of_nil|]. apply Nat.ltb_ge in El.
  destruct (at_ n) as [[a' e']|] eqn:E; [|apply IH]. intros [[= -> -> ->]|H]%elem_of_cons; [done|by eapply IH].
Qed.

Lemma finditer_sound r i a e :
  (i, a, e) ∈ finditer (match_at r) -> e ∈ ends r i /\ (i + min_len r <= e <= length t)%nat.
Proof.
  unfold finditer. intros [H Hi]%find_from_sound. unfold match_at in H. destruct (ends r i) as [|e' l] eqn:E; [done|].
  cbn in H. injection H as _ ->. assert (e ∈ ends r i) as He by (rewrite E; left). rewrite <- E. split; [done|].
  by apply ends_bounds.
Qed.
End Matching.
