(* ===== verification/Credential.v ===== *)
(** * Credential literals and actions

    Models [credential_literal.py], the strict detector and redactor of written or read file content,
    and [redact_action.py], the redactor of gated shell commands.  Unicode character tables are
    parameters ([\w] beyond ASCII, the case and digit tests of [str]); the patterns are modelled as
    written, over the matcher of [Regex]. *)
From S2P Require Import Prelude PyStrings Regex.
Open Scope Z_scope.

Definition REDACTED : text := u "[redacted]".

Definition sub (t : text) (i e : nat) : text := take (e - i) (drop i t).

Section Credential.
Context (is_word islower isupper isdigit : Z -> bool).

(** [_mixed_case_with_digit]. *)
Definition mixed_case_with_digit (token : text) : bool :=
  existsb isdigit token && existsb isupper token && existsb islower token.

Definition token_char (c : Z) : bool := is_alnum c || one_of "_-" c.
Definition B : re := Bound is_word.

Definition FORMATS : list (re * option (text -> bool)) :=
  [ (* AWS access key ids *)
    (seq_of [B; lit "AKIA"; Rep (fun c => is_digit c || is_upper c) 16 (Some 16%nat); B], None);
    (* GitHub tokens *)
    (seq_of [B; any_of [seq_of [lit "gh"; Cls (one_of "pousr"); lit "_"; Rep ascii_word 20 None];
                        seq_of [lit "github_pat_"; Rep ascii_word 20 None]]; B], None);
    (* Slack tokens *)
    (seq_of [B; lit "xox"; Cls (one_of "abdeporsu"); lit "-"; Rep (fun c => is_alnum c || (c =? 45)) 10 None; B], None);
    (* OpenAI- and Anthropic-style keys *)
    (seq_of [B; lit "sk-"; Opt (any_of [lit "proj-"; lit "ant-"]); Rep token_char 20 None; B], Some mixed_case_with_digit);
    (* PEM private-key blocks *)
    (seq_of [lit "-----BEGIN "; Star (fun c => is_upper c || (c =? 32)); lit "PRIVATE KEY-----"], None);
    (* JWTs *)
    (seq_of [B; lit "eyJ"; Rep token_char 8 None; lit "."; Rep token_char 8 None; lit "."; Rep token_char 8 None; B], None) ].

(** [_ASSIGNMENT], under [re.IGNORECASE]: the four letters that fold to ASCII count as letters. *)
Definition folded_letter (c : Z) : bool := (c =? 0x130) || (c =? 0x131) || (c =? 0x17F) || (c =? 0x212A).
Definition key_char (c : Z) : bool := token_char c || folded_letter c.
Definition word (s : string) : re := lit_by ignore_case s.
Definition dash : re := Opt (Cls (one_of "_-")).
Definition quotes (c : Z) : bool := (c =? 34) || (c =? 39).

Definition ASSIGNMENT : re := seq_of
  [ NotBehind key_char; Star key_char;
    any_of [word "password"; word "passwd"; seq_of [word "secret"; dash; word "key"]; seq_of [word "api"; dash; word "key"];
            seq_of [word "access"; dash; word "key"]; seq_of [word "private"; dash; word "key"]; word "credential";
            word "secret"; word "token"];
    Opt (word "s"); Opt (Cls quotes); Star is_space; Cls (one_of ":="); Star is_space;
    NotBehind (one_of "fF"); Cls quotes ].

(** [_high_entropy]. *)
Definition high_entropy (value : text) : bool :=
  if (length value <? 16)%nat || existsb is_space value || mem 123 value || mem 125 value then false
  else existsb islower value && existsb isupper value && existsb isdigit value.

(** [text.find(char, start)]. *)
Fixpoint find_char (c : Z) (l : text) (i : nat) : option nat :=
  match l with [] => None | d :: l' => if c =? d then Some i else find_char c l' (S i) end.

Definition format_literals (t : text) (f : re * option (text -> bool)) : list (nat * nat) :=
  omap (fun m : nat * unit * nat =>
    let '(i, _, e) := m in
    match f.2 with
    | Some check => if check (sub t i e) then Some (i, e) else None
    | None => Some (i, e)
    end) (finditer t (match_at t f.1)).

(** The match of an assignment ends after the quote that opens its value. *)
Definition assigned_literal (t : text) (m : nat * unit * nat) : option (nat * nat) :=
  let '(_, _, e) := m in
  match t !! (e - 1)%nat with
  | None => None
  | Some quote =>
    match find_char quote (drop e t) e with
    | Some stop => if high_entropy (sub t e stop) then Some ((e - 1)%nat, S stop) else None
    | None => None
    end
  end.

(** [_literals]. *)
Definition literals (t : text) : list (nat * nat) :=
  flat_map (format_literals t) FORMATS ++ omap (assigned_literal t) (finditer t (match_at t ASSIGNMENT)).

Definition has_credential_literal (t : text) : bool := match literals t with [] => false | _ => true end.

(** [sorted]: tuples compare by start, then by stop. *)
Definition span_before (a b : nat * nat) : bool :=
  (a.1 <? b.1)%nat || ((a.1 =? b.1)%nat && (a.2 <? b.2)%nat).

(** The loop of [redact_credential_literals]: the text from [cursor] on. *)
Fixpoint splice (t : text) (cursor : nat) (spans : list (nat * nat)) : text :=
  match spans with
  | [] => drop cursor t
  | (start, stop) :: spans' =>
    if (start <? cursor)%nat then splice t cursor spans'
    else sub t cursor start ++ REDACTED ++ splice t stop spans'
  end.

Definition redact_credential_literals (t : text) : text := splice t 0 (stable_sort span_before (literals t)).
End Credential.

(** ** Facts: spans *)
Definition span_ok (t : text) (s : nat * nat) : Prop := (s.1 < s.2 <= length t)%nat.

Lemma find_char_spec c l : forall i j, find_char c l i = Some j -> (i <= j < i + length l)%nat /\ l !! (j - i)%nat = Some c.
Proof.
  induction l as [|d l IH]; intros i j; cbn [find_char]; [done|].
  destruct (c =? d) eqn:E.
  - intros [= <-]. apply Z.eqb_eq in E as ->. rewrite Nat.sub_diag. cbn. split; [lia|done].
  - intros [H1 H2]%IH. cbn [length]. split; [lia|]. replace (j - i)%nat with (S (j - S i)) by lia. done.
Qed.

(** Reading a text through spans that are given in order: what is kept, and the spans replaced. *)
Inductive spliced (t : text) : nat -> list (nat * nat) -> text -> Prop :=
| spliced_end cursor : spliced t cursor [] (drop cursor t)
| spliced_span cursor start stop spans out :
    (cursor <= start)%nat -> spliced t stop spans out ->
    spliced t cursor ((start, stop) :: spans) (sub t cursor start ++ REDACTED ++ out).

Definition starts_sorted (spans : list (nat * nat)) : Prop := StronglySorted (fun a b => a.1 <= b.1)%nat spans.

Lemma splice_spliced t spans : forall cursor, starts_sorted spans ->
  exists chosen, spliced t cursor chosen (splice t cursor spans) /\ chosen ⊆+ spans /\
    forall s, s ∈ spans -> (s.1 < cursor)%nat \/ exists s', s' ∈ chosen /\ (s' = s \/ (s'.1 <= s.1 < s'.2)%nat).
Proof.
  induction spans as [|[start stop] spans IH]; intros cursor Hs; cbn [splice].
  - exists []. split; [constructor|]. split; [done|]. by intros s ?%elem_of_nil.
  - inversion Hs as [|? ? Hs' Hle]; subst. rewrite Forall_forall in Hle. cbn [fst] in Hle.
    destruct (start <? cursor)%nat eqn:E.
    + destruct (IH cursor Hs') as (chosen & H1 & H2 & H3). exists chosen. split; [done|]. split; [by apply submseteq_cons|].
      intros s [->|Hin]%elem_of_cons; [left; cbn; by apply Nat.ltb_lt|by apply H3].
    + destruct (IH stop Hs') as (chosen & H1 & H2 & H3). exists ((start, stop) :: chosen).
      split; [constructor; [by apply Nat.ltb_ge|done]|]. split; [by apply submseteq_skip|].
      intros s [->|Hin]%elem_of_cons; [right; exists (start, stop); split; [left|by left]|]. right.
      destruct (H3 s Hin) as [Hlt|(s' & Hs2 & H)].
      * exists (start, stop). split; [left|]. right. cbn. specialize (Hle s Hin). lia.
      * exists s'. split; [by right|done].
Qed.

Lemma spans_sorted spans : starts_sorted (stable_sort span_before spans).
Proof.
  eapply StronglySorted_weaken; [|apply (stable_sort_sorted span_before (fun _ => True)); [..|by apply Forall_true]].
  - intros a b _ _ H. unfold in_order, span_before in H. apply orb_false_iff in H as [H _]. apply Nat.ltb_ge in H. done.
  - unfold span_before. intros a b c _ _ _. rewrite !orb_false_iff, !andb_false_iff, !Nat.ltb_ge, !Nat.eqb_neq. lia.
  - unfold span_before. intros a b _ _. rewrite orb_true_iff, orb_false_iff, andb_true_iff, andb_false_iff, !Nat.ltb_lt, !Nat.ltb_ge,
      Nat.eqb_eq, Nat.eqb_neq. lia.
Qed.

Section CredentialFacts.
Context (is_word islower isupper isdigit : Z -> bool).
Abbreviation lits := (literals is_word islower isupper isdigit).
Abbreviation redacted := (redact_credential_literals is_word islower isupper isdigit).

Lemma formats_consume : Forall (fun f => 0 < min_len f.1)%nat (FORMATS is_word islower isupper isdigit).
Proof. unfold FORMATS. repeat (apply Forall_cons; split; [vm_compute; lia|]). apply Forall_nil_2. Qed.

(** A literal is a non-empty run of the text. *)
Lemma literals_ok t s : s ∈ lits t -> span_ok t s.
Proof.
  unfold literals. intros [H|H]%elem_of_app.
  - apply list_elem_of_In, in_flat_map in H as (f & Hf & H). apply list_elem_of_In in Hf, H.
    pose proof formats_consume as Hc. eapply Forall_forall in Hc; [|exact Hf]. cbn in Hc.
    apply list_elem_of_omap in H as ([[i a] e] & Hm & H).
    assert (s = (i, e)) as -> by (destruct f.2 as [c|]; [destruct (c _)|]; by simplify_eq).
    apply finditer_sound in Hm as [_ Hb]. unfold span_ok. cbn. lia.
  - apply list_elem_of_omap in H as ([[i a] e] & Hm & H). apply finditer_sound in Hm as [_ Hb].
    unfold assigned_literal in H. destruct (t !! (e - 1)%nat) as [q|]; [|done].
    destruct (find_char q (drop e t) e) as [stop|] eqn:Ef; [|done]. destruct (high_entropy _ _ _ _); [|done].
    injection H as <-. apply find_char_spec in Ef as [Hs _]. rewrite length_drop in Hs. unfold span_ok. cbn. lia.
Qed.

(** C37 The redaction of credential literals is exactly the replacement of literals: a text with none is
    returned as it is (so ordinary code reaches the judge unchanged); otherwise the result is the
    text with some of the detected literals, disjoint and in order, each replaced whole by the
    marker, and every detected literal is one of these or begins inside one of them. *)
Theorem credential_redaction t :
  (has_credential_literal is_word islower isupper isdigit t = false -> redacted t = t) /\
  exists chosen, spliced t 0 chosen (redacted t) /\
    Forall (fun s => s ∈ lits t /\ span_ok t s) chosen /\
    forall s, s ∈ lits t -> exists s', s' ∈ chosen /\ (s'.1 <= s.1 < s'.2)%nat.
Proof.
  unfold has_credential_literal, redact_credential_literals. split.
  - destruct (lits t); [|done]. intros _. cbn. apply drop_0.
  - destruct (splice_spliced t (stable_sort span_before (lits t)) 0 (spans_sorted _)) as (chosen & H1 & H2 & H3).
    exists chosen. split; [exact H1|]. split.
    + apply Forall_forall. intros s Hs. assert (s ∈ lits t) as Hin.
      { rewrite <- (stable_sort_perm span_before (lits t)). by eapply elem_of_submseteq. }
      split; [done|by apply literals_ok].
    + intros s Hs. assert (s ∈ stable_sort span_before (lits t)) as Hs' by by rewrite stable_sort_perm.
      destruct (H3 s Hs') as [Hlt|(s' & Hc & [->|Hr])]; [lia| |by exists s'].
      exists s. split; [done|]. apply literals_ok in Hs. unfold span_ok in Hs. lia.
Qed.
End CredentialFacts.

Abbreviation ascii_redacted := (redact_credential_literals ascii_word is_lower is_upper is_digit).

Example key_value_redacted :
  ascii_redacted (u "API_KEY = 'aB3defghijklmnop'; url = 'aB3defghijklmnop'") =
  u "API_KEY = [redacted]; url = 'aB3defghijklmnop'".
Proof. by vm_compute. Qed.

(** Two literals that overlap: the later one begins inside the first, so it is skipped, and what it has
    past the first stays in the text. *)
Example overlapping_literal_leaks :
  ascii_redacted (u "sk-ABCDabcd1234ABCDabcd-eyJhbGciOiJI.eyJzdWIiOiIx.SflKxwRJSM") =
  u "[redacted].eyJzdWIiOiIx.SflKxwRJSM".
Proof. by vm_compute. Qed.

(** ** redact_action.py *)
Record Rule := { keep : re; secret : re }.

Definition ic (s : string) : re := lit_by ignore_ascii s.
Definition space : Z -> bool := ascii_space.
Definition not_in (s : string) (extra : Z -> bool) (c : Z) : bool := negb (one_of s c || extra c).
Definition dq (c : Z) : bool := c =? 34.
Definition sq (c : Z) : bool := c =? 39.
Definition any (c : Z) : bool := negb (c =? 10).
Definition word_or (s : string) (c : Z) : bool := ascii_word c || one_of s c.
Definition start_or_space : re := Alt Start (Cls space).
Definition backslash (c : Z) : bool := c =? 92.

Definition RULES : list Rule :=
  [ {| keep := seq_of [Bound ascii_word; Cls (fun c => is_lower (ascii_lower c)); Star (word_or "+.-"); lit "://";
                       Plus (not_in ":/@" space); lit ":"];
       secret := seq_of [Plus (not_in "@/" space); Ahead (one_of "@")] |};
    {| keep := seq_of [any_of (ic <$> ["authorization"; "proxy-authorization"; "cookie"; "set-cookie"; "x-api-key";
                                       "api-key"; "x-auth-token"]%string);
                       Opt (Cls dq); Star space; lit ":"; Star space; Opt (Cls dq);
                       Opt (seq_of [any_of (ic <$> ["bearer"; "basic"; "token"; "digest"]%string); Plus space])];
       secret := Plus (fun c => negb (dq c || sq c || (c =? 10) || backslash c)) |};
    {| keep := seq_of [start_or_space; lit "-"; Opt (lit "-"); Star (word_or "-");
                       any_of [seq_of [ic "pass"; Opt (any_of [ic "wd"; ic "word"])]; ic "token";
                               seq_of [ic "api"; Opt (lit "-"); ic "key"]; ic "secret"; ic "auth"];
                       Star (word_or "-"); Plus (one_of " ="); Opt (Cls dq)];
       secret := Plus (fun c => negb (space c || dq c || sq c || backslash c)) |};
    {| keep := seq_of [start_or_space; any_of [lit "-u"; lit "--user"]; Plus (one_of " ="); Opt (Cls dq);
                       Star (fun c => negb (space c || (c =? 58) || dq c || sq c)); lit ":"];
       secret := Plus (fun c => negb (space c || dq c || sq c || backslash c)) |};
    {| keep := seq_of [NotBehind (word_or ".-"); Star (word_or ".-");
                       any_of [ic "password"; ic "passwd"; ic "secret"; ic "token";
                               seq_of [ic "api"; Opt (Cls (one_of "_-")); ic "key"];
                               seq_of [ic "access"; Opt (Cls (one_of "_-")); ic "key"];
                               seq_of [ic "private"; Opt (Cls (one_of "_-")); ic "key"];
                               seq_of [ic "credential"; Opt (ic "s")]];
                       Opt (Cls (fun c => dq c || sq c)); Star space; Cls (one_of ":="); Star space; Opt (Cls dq)];
       secret := Plus (fun c => negb (space c || dq c || sq c || one_of ",;}" c || backslash c)) |};
    {| keep := seq_of [lit "sk-"; Opt (any_of [lit "proj-"; lit "ant-"; lit "live-"; lit "test-"])];
       secret := Rep (fun c => is_alnum c || one_of "_-" c) 16 None |};
    {| keep := any_of [seq_of [lit "gh"; Cls (one_of "pousr"); lit "_"]; lit "github_pat_"];
       secret := Rep ascii_word 20 None |};
    {| keep := seq_of [lit "xox"; Cls (one_of "abdeporsu"); lit "-"];
       secret := Rep (fun c => is_alnum c || (c =? 45)) 10 None |};
    {| keep := lit "AKIA"; secret := seq_of [Rep (fun c => is_digit c || is_upper c) 16 (Some 16%nat); Bound ascii_word] |};
    {| keep := lit "AIza"; secret := Rep (word_or "-") 30 None |};
    {| keep := lit "eyJ";
       secret := seq_of [Rep (word_or "-") 8 None; lit "."; Rep (word_or "-") 8 None; lit "."; Plus (word_or "-")] |} ].

(** [_REFERENCE.match(value)]: [$NAME], [${NAME}], [%NAME%] or [$(...)]; its [$] also stands before a
    final line feed. *)
Definition REFERENCE : re := any_of
  [seq_of [lit "$"; Opt (lit "{"); Plus ascii_word; Opt (lit "}")]; seq_of [lit "%"; Plus ascii_word; lit "%"];
   seq_of [lit "$("; Star any; lit ")"]].

Definition is_reference (value : text) : bool :=
  existsb (fun e => (e =? length value)%nat || (S e =? length value)%nat && bool_decide (value !! e = Some 10))
    (ends value REFERENCE 0).

(** The match of a rule: the end of group 1, and the end. *)
Definition rule_at (t : text) (r : Rule) (i : nat) : option (nat * nat) :=
  head (flat_map (fun k => (fun e => (k, e)) <$> ends t (secret r) k) (ends t (keep r) i)).

(** [_replace], and [rule.sub(_replace, text)]. *)
Definition replaced (t : text) (i k e : nat) : text :=
  if is_reference (sub t k e) then sub t i e else sub t i k ++ REDACTED.

Fixpoint substituted (t : text) (cursor : nat) (ms : list (nat * nat * nat)) : text :=
  match ms with
  | [] => drop cursor t
  | (i, k, e) :: ms' => sub t cursor i ++ replaced t i k e ++ substituted t e ms'
  end.

Definition apply_rule (t : text) (r : Rule) : text := substituted t 0 (finditer t (rule_at t r)).

Definition redact_action (t : text) : text := fold_left apply_rule RULES t.

Example action_redacted :
  redact_action (u "curl -u bob:hunter2 https://x:y@h/ --token=$TOKEN ; export DB_PASSWORD=abc") =
  u "curl -u bob:[redacted] https://x:[redacted]@h/ --token=$TOKEN ; export DB_PASSWORD=[redacted]".
Proof. by vm_compute. Qed.

(** A rule changes a text only where it matches. *)
Lemma apply_rule_absent t r : (forall i, rule_at t r i = None) -> apply_rule t r = t.
Proof.
  intros H. unfold apply_rule, finditer.
  assert (forall fuel n, find_from t (rule_at t r) fuel n = []) as ->; [|cbn; apply drop_0].
  intros fuel. induction fuel as [|fuel IH]; intros n; cbn [find_from]; [done|]. by destruct (_ <? _)%nat; rewrite ?H.
Qed.
