(* ===== verification/Calibration.v ===== *)
(** * Threshold calibration

    Models [calibration/] (the upper error bounds, the precision targets, the threshold search, the
    family order) and the decisions of [calibrate.py]: the rows, the tool, the split and the exit code.
    The logarithms of the binomial sum and of the normal quantile belong to the C library, so
    [log_sum] (the sum for 0 < p < 1) and [z] are parameters, as are SHA-256 and [json.loads].  The
    report's text is not modelled. *)
From S2P Require Import Prelude Float64 Json Policy PyStrings.
From Stdlib Require Import FloatOps.
Open Scope Z_scope.

(** ** bounds.py *)
Definition Row : Type := float * bool.

(** The [ValueError]s of [_check]. *)
Definition check (errors n : Z) (confidence : float) : bool :=
  negb ((n <? 0) || (errors <? 0) || (n <? errors)) && fltb f_zero confidence && fltb confidence f_one.

Definition f_two : float := f_of_Z 2.
Definition f_sqrt : float -> float := SFsqrt prec emax.

(** [a / b] of two ints, [b > 0]. *)
Definition int_ratio (a b : Z) : float := f_ratio a (Z.to_pos b).

Section Bounds.
Context (log_sum : Z -> Z -> float -> float) (z : float -> float).

Definition wilson_upper (errors n : Z) (confidence : float) : option float :=
  if negb (check errors n confidence) then None
  else if n =? 0 then Some f_one
  else
    let z := z confidence in
    let p := int_ratio errors n in
    let fn := f_of_Z n in
    let zz := fmul z z in
    let denominator := fadd f_one (fdiv zz fn) in
    let centre := fadd p (fdiv zz (f_of_Z (2 * n))) in
    let spread := fmul z (f_sqrt (fadd (fdiv (fmul p (fsub f_one p)) fn) (fdiv zz (f_of_Z (4 * n * n))))) in
    Some (py_min f_one (fdiv (fadd centre spread) denominator)).

Definition binomial_cdf (k n : Z) (p : float) : float :=
  if fleb p f_zero then f_one
  else if fgeb p f_one then (if n <=? k then f_one else f_zero)
  else log_sum k n p.

(** The bisection: [low] and [high] after [steps] halvings. *)
Fixpoint bisect (errors n : Z) (alpha : float) (steps : nat) (low high : float) : float * float :=
  match steps with
  | O => (low, high)
  | S steps' =>
    let mid := fdiv (fadd low high) f_two in
    if fgtb (binomial_cdf errors n mid) alpha then bisect errors n alpha steps' mid high
    else bisect errors n alpha steps' low mid
  end.

Definition clopper_pearson_upper (errors n : Z) (confidence : float) : option float :=
  if negb (check errors n confidence) then None
  else if errors =? n then Some f_one
  else Some (bisect errors n (fsub f_one confidence) 200 (int_ratio errors n) f_one).2.

Inductive Bound := Wilson | ClopperPearson.

Definition upper_error_bound (errors n : Z) (bound : Bound) (confidence : float) : option float :=
  match bound with
  | Wilson => wilson_upper errors n confidence
  | ClopperPearson => clopper_pearson_upper errors n confidence
  end.

(** ** threshold.py *)
Definition DEFAULT_CONFIDENCE : float := f_ratio 95 100.

Record OperatingPoint := {
  threshold : float; auto : nat; errors : nat; coverage : float; error_upper_bound : float }.

(** [{score for score, _ in rows}]: equal scores are one element, the first one seen. *)
Definition distinct (scores : list float) : list float :=
  fold_left (fun acc s => if existsb (feqb s) acc then acc else acc ++ [s]) scores [].

Definition candidates (rows : list Row) : list float := stable_sort (fun a b => fltb b a) (distinct rows.*1).

Definition auto_rows (t : float) (rows : list Row) : list Row := List.filter (fun r => fgeb r.1 t) rows.
Definition error_count (rows : list Row) : nat := length (List.filter (fun r => negb r.2) rows).
Definition auto_count (t : float) (rows : list Row) : nat := length (auto_rows t rows).
Definition auto_errors (t : float) (rows : list Row) : nat := error_count (auto_rows t rows).

(** The operating point of a threshold, with [None] where the bound raises. *)
Definition point_at (rows : list Row) (bound : Bound) (confidence t : float) : option OperatingPoint :=
  upper ← upper_error_bound (Z.of_nat (auto_errors t rows)) (Z.of_nat (auto_count t rows)) bound confidence;
  Some {| threshold := t; auto := auto_count t rows; errors := auto_errors t rows;
          coverage := int_ratio (Z.of_nat (auto_count t rows)) (Z.of_nat (length rows)); error_upper_bound := upper |}.

(** The loop over the candidates.  [None] is a raise; no threshold is [Some None]. *)
Fixpoint search (rows : list Row) (max_error : float) (bound : Bound) (confidence : float) (thresholds : list float)
    (best : option OperatingPoint) : option (option OperatingPoint) :=
  match thresholds with
  | [] => Some best
  | t :: thresholds' =>
    p ← point_at rows bound confidence t;
    let better := match best with None => true | Some b => (auto b <? auto p)%nat end in
    search rows max_error bound confidence thresholds' (if fleb (error_upper_bound p) max_error && better then Some p else best)
  end.

Definition select_threshold (rows : list Row) (max_error : float) (bound : Bound) (confidence : float)
    : option (option OperatingPoint) :=
  match rows with
  | [] => Some None
  | _ => search rows max_error bound confidence (candidates rows) None
  end.

Record Certification := {
  cert_auto : nat; cert_errors : nat; cert_coverage : float; cert_upper_bound : float }.

Definition certify (point : OperatingPoint) (rows : list Row) (confidence : float) : option Certification :=
  let t := threshold point in
  upper ← clopper_pearson_upper (Z.of_nat (auto_errors t rows)) (Z.of_nat (auto_count t rows)) confidence;
  Some {| cert_auto := auto_count t rows; cert_errors := auto_errors t rows;
          cert_coverage := match rows with
                           | [] => f_zero
                           | _ => int_ratio (Z.of_nat (auto_count t rows)) (Z.of_nat (length rows))
                           end;
          cert_upper_bound := upper |}.
End Bounds.

(** ** targets.py *)
Definition PRECISION_TARGETS : dict float :=
  [(u "jev_classify", f_ratio 97 100); (u "jev_find", f_ratio 97 100); (u "jev_compare", f_ratio 98 100);
   (u "jev_extract", f_ratio 99 100); (u "jev_verify", f_ratio 99 100); (u "jev_review", f_ratio 99 100);
   (u "jev_gate", f_ratio 995 1000)].

(** ** calibrate.py: rows *)
Definition FIELDS : list text := [u "score"; u "correct"; u "family"; u "tool"].

Record ParsedRow := { score : float; correct : bool; family : text; tool : option text }.

(** One reason per [CalibrateError]; [where] is the row's line. *)
Inductive CalibrateError :=
| UnknownField (line : nat) | NeedScoreAndCorrect (line : nat) | ScoreNotFinite (line : nat) | ScoreOutside (line : nat)
| CorrectNotBool (line : nat) | FamilyNotText (line : nat) | UnknownTool (line : nat) | NotAnObject (line : nat) | NoRows
| UnknownFlagTool | OtherTool | ManyTools | TooFewRows | TooFewHeldOut (fittable : bool) | NoBudget
| Uncaught.    (* an exception [main] does not catch: a traceback and exit 1 *)

(** [float(score)] of a JSON number, [None] where [_finite] is false. *)
Definition finite_score (v : value) : option float :=
  match v with
  | VInt n => float_of_int n
  | VFloat f => if is_finite f then Some f else None
  | _ => None
  end.

Definition row_of (parsed : dict value) (number : nat) : result CalibrateError ParsedRow :=
  if existsb (fun k => negb (mem k FIELDS)) (dkeys parsed) then Raise (UnknownField number)
  else if negb (dhas (u "score") parsed && dhas (u "correct") parsed) then Raise (NeedScoreAndCorrect number)
  else
    match finite_score (get (u "score") parsed) with
    | None => Raise (ScoreNotFinite number)
    | Some s =>
      if negb (fleb f_zero s && fleb s f_one) then Raise (ScoreOutside number)
      else
        match get (u "correct") parsed with
        | VBool c =>
          let? f := match get (u "family") parsed with
            | VNone => Ok (u "row" ++ str_of_nat number)
            | VStr (x :: f) => Ok (x :: f)
            | _ => Raise (FamilyNotText number)
            end in
          let? t := match get (u "tool") parsed with
            | VNone => Ok None
            | VStr t => if dhas t PRECISION_TARGETS then Ok (Some t) else Raise (UnknownTool number)
            | VList _ | VDict _ => Raise Uncaught   (* [tool not in PRECISION_TARGETS]: unhashable *)
            | _ => Raise (UnknownTool number)
            end in
          Ok {| score := s; correct := c; family := f; tool := t |}
        | _ => Raise (CorrectNotBool number)
        end
    end.

Section Calibrate.
Context (loads : text -> option value) (sha256 : text -> text).
Context (log_sum : Z -> Z -> float -> float) (z : float -> float).

(** [parse_rows] on the lines of the file; a blank line is skipped, and line numbers start at 1. *)
Fixpoint rows_from (number : nat) (lines : list text) : result CalibrateError (list ParsedRow) :=
  match lines with
  | [] => Ok []
  | line :: lines' =>
    match strip line with
    | [] => rows_from (S number) lines'
    | _ =>
      match loads line with
      | Some (VDict parsed) =>
        let? r := row_of parsed number in let? rs := rows_from (S number) lines' in Ok (r :: rs)
      | _ => Raise (NotAnObject number)
      end
    end
  end.

Definition parse_rows (t : text) : result CalibrateError (list ParsedRow) :=
  let? rows := rows_from 1 (splitlines t) in
  match rows with [] => Raise NoRows | _ => Ok rows end.

Definition resolve_tool (flag_tool : option text) (rows : list ParsedRow) : result CalibrateError (option text) :=
  match flag_tool with
  | Some t =>
    if negb (dhas t PRECISION_TARGETS) then Raise UnknownFlagTool
    else if existsb (fun r => match tool r with Some t' => negb (bool_decide (t' = t)) | None => false end) rows
    then Raise OtherTool else Ok (Some t)
  | None =>
    match remove_dups (omap tool rows) with
    | [] => Ok None
    | [t] => Ok (Some t)
    | _ => Raise ManyTools
    end
  end.

(** [round(x, k)]: the exact value at [k] decimals, ties to even. *)
Definition round_to (k : Z) (x : float) : float :=
  let '(n, d) := fratio x in
  let m := round_half_even (n * 10 ^ k) d in f_ratio (if fsign x then - m else m) (Z.to_pos (10 ^ k)).

Definition error_budget (t : text) : option float := (fun p => round_to 12 (fsub f_one p)) <$> dget t PRECISION_TARGETS.

(** ** calibrate.py: the split *)
Definition MIN_HELD_OUT : nat := 8.
Definition DEFAULT_MIN_ROWS : nat := 40.
Definition HOLDOUT_SHARE : float := f_ratio 3 10.
Definition SPLIT_SALT : text := u "jev-judge-mcp-calibrate-v1".

(** [family_order]: the hash of [salt + NUL + family]. *)
Definition family_order (name salt : text) : text := sha256 (salt ++ [0] ++ name).

(** [families.setdefault(row.family, []).append(row)]. *)
Definition families_of (rows : list ParsedRow) : dict (list ParsedRow) :=
  fold_left (fun d r => dset (family r) (or_else (dget (family r) d) [] ++ [r]) d) rows [].

Definition fceil (x : float) : Z := let '(n, d) := fratio x in if fsign x then - (n / d) else (n + d - 1) / d.

Definition split_step (target : Z) (acc : list ParsedRow * list ParsedRow) (group : list ParsedRow) :=
  let '(selection, held_out) := acc in
  if Z.of_nat (length held_out) + Z.of_nat (length group) <=? target then (selection, held_out ++ group)
  else (selection ++ group, held_out).

Definition holdout_target (rows : list ParsedRow) : Z := fceil (fmul HOLDOUT_SHARE (f_of_Z (Z.of_nat (length rows)))).

Definition split_rows (rows : list ParsedRow) : result CalibrateError (list ParsedRow * list ParsedRow) :=
  let families := families_of rows in
  let target := holdout_target rows in
  let ordered := stable_sort (fun a b => text_ltb (family_order a.1 SPLIT_SALT) (family_order b.1 SPLIT_SALT)) families in
  let '(selection, held_out) := fold_left (split_step target) ordered.*2 ([], []) in
  if (length held_out <? MIN_HELD_OUT)%nat
  then Raise (TooFewHeldOut (existsb (fun group => Z.of_nat (length group) <=? target) families.*2))
  else Ok (selection, held_out).

(** ** calibrate.py: the decision of [main], after the options *)
Record Calibrated := {
  cal_tool : option text; cal_budget : float; cal_selection : list ParsedRow; cal_held_out : list ParsedRow;
  cal_point : option (OperatingPoint * Certification) }.

Definition judged (rows : list ParsedRow) : list Row := (fun r => (score r, correct r)) <$> rows.

Definition lift {A} (o : option A) : result CalibrateError A := match o with Some a => Ok a | None => Raise Uncaught end.

Definition calibrate (t : text) (flag_tool : option text) (max_error : option float) (min_rows : nat)
    : result CalibrateError Calibrated :=
  let? rows := parse_rows t in
  if (length rows <? min_rows)%nat then Raise TooFewRows
  else
    let? tool := resolve_tool flag_tool rows in
    let? budget := match max_error, tool with
      | Some e, _ => Ok e
      | None, Some tool => lift (error_budget tool)
      | None, None => Raise NoBudget
      end in
    let? (selection, held_out) := split_rows rows in
    let? point := lift (select_threshold log_sum z (judged selection) budget ClopperPearson DEFAULT_CONFIDENCE) in
    let? certified := match point with
      | None => Ok None
      | Some p => let? c := lift (certify log_sum p (judged held_out) DEFAULT_CONFIDENCE) in Ok (Some (p, c))
      end in
    Ok {| cal_tool := tool; cal_budget := budget; cal_selection := selection; cal_held_out := held_out;
          cal_point := certified |}.

(** The exit code: 2 is a refused invocation or file, 1 also an uncaught exception. *)
Definition exit_code (r : result CalibrateError Calibrated) : Z :=
  match r with
  | Raise Uncaught => 1
  | Raise _ => 2
  | Ok c =>
    match cal_point c with
    | None => 1
    | Some (_, certified) => if fgtb (cert_upper_bound certified) (cal_budget c) then 1 else 0
    end
  end.
End Calibrate.

(** ** Facts: the bisection *)
Lemma bisect_invariant log_sum errors n alpha steps : forall low high low' high',
  bisect log_sum errors n alpha steps low high = (low', high') ->
  (low' = low \/ fgtb (binomial_cdf log_sum errors n low') alpha = true) /\
  (high' = high \/ fgtb (binomial_cdf log_sum errors n high') alpha = false).
Proof.
  induction steps as [|steps IH]; intros low high low' high'; cbn [bisect]; [intros [= <- <-]; by split; left|].
  destruct (fgtb _ alpha) eqn:E; intros [Hl Hh]%IH; (split; [|done]) || (split; [done|]).
  - right. by destruct Hl as [->|].
  - right. by destruct Hh as [->|].
Qed.

(** The Clopper-Pearson bound is on the safe side: it is refused exactly when the counts or the
    confidence are out of range; with every judgment wrong (or none at all) it is 1; otherwise it is
    a rate at which at most [errors] errors have probability at most 1 - confidence, unless the
    search found no such rate below 1. *)
Theorem clopper_pearson_safe log_sum errors n confidence :
  (clopper_pearson_upper log_sum errors n confidence = None <-> check errors n confidence = false) /\
  (check errors n confidence = true -> errors = n -> clopper_pearson_upper log_sum errors n confidence = Some f_one) /\
  (forall upper, clopper_pearson_upper log_sum errors n confidence = Some upper ->
     upper = f_one \/ fgtb (binomial_cdf log_sum errors n upper) (fsub f_one confidence) = false).
Proof.
  unfold clopper_pearson_upper. destruct (check errors n confidence) eqn:E; cbn [negb].
  - split; [split; [by destruct (_ =? _)|done]|]. split; [by intros _ ->%Z.eqb_eq|].
    intros upper. destruct (errors =? n); [intros [= <-]; by left|].
    destruct (bisect _ _ _ _ _ _ _) as [low high] eqn:Eb. intros [= <-]. apply bisect_invariant in Eb as [_ [->|H]]; [by left|by right].
  - split_and!; done.
Qed.

(** ** Facts: the candidates *)
Lemma distinct_spec scores : Forall knum scores ->
  (forall x, x ∈ distinct scores -> x ∈ scores) /\
  (forall x, x ∈ scores -> exists y, y ∈ distinct scores /\ feqb x y = true).
Proof.
  unfold distinct. intros Hs.
  assert (forall acc, let out := fold_left (fun acc s => if existsb (feqb s) acc then acc else acc ++ [s]) scores acc in
    (forall x, x ∈ out -> x ∈ acc \/ x ∈ scores) /\ (forall x, x ∈ acc -> x ∈ out) /\
    (forall x, x ∈ scores -> exists y, y ∈ out /\ feqb x y = true)) as H.
  { induction Hs as [|s scores Hs Hss IH]; intros acc; cbn [fold_left].
    - split_and!; try done; [by left|]. by intros x ?%elem_of_nil.
    - destruct (existsb (feqb s) acc) eqn:E.
      + destruct (IH acc) as (H1 & H2 & H3). split_and!; try done.
        * intros x Hx. destruct (H1 x Hx); [by left|right; by right].
        * intros x [->|Hx]%elem_of_cons; [|by apply H3]. apply existsb_exists in E as (y & Hy & Hf).
          exists y. split; [apply H2; by apply list_elem_of_In|done].
      + destruct (IH (acc ++ [s])) as (H1 & H2 & H3). split_and!.
        * intros x Hx. destruct (H1 x Hx) as [[Ha|Ha]%elem_of_app|Ha]; [by left| |right; by right].
          apply list_elem_of_singleton in Ha as ->. right. left.
        * intros x Hx. apply H2, elem_of_app. by left.
        * intros x [->|Hx]%elem_of_cons; [|by apply H3]. exists s.
          split; [apply H2, elem_of_app; right; by apply list_elem_of_singleton|]. by rewrite feqb_spec, fleb_refl. }
  destruct (H []) as (H1 & _ & H3). split; [|done]. intros x Hx. by destruct (H1 x Hx) as [?%elem_of_nil|].
Qed.

Lemma least_element (l : list float) : Forall knum l -> l <> [] -> exists c, c ∈ l /\ forall x, x ∈ l -> fleb c x = true.
Proof.
  induction 1 as [|a l Ha Hl IH]; [done|]. intros _. destruct l as [|b l].
  - exists a. split; [left|]. intros x ->%list_elem_of_singleton. by apply fleb_refl.
  - destruct (IH ltac:(done)) as (c & Hc & Hmin). assert (knum c) as Kc by (by eapply Forall_forall in Hl).
    destruct (fleb a c) eqn:E.
    + exists a. split; [left|]. intros x [->|Hx]%elem_of_cons; [by apply fleb_refl|].
      eapply fleb_trans; [exact E|by apply Hmin].
    + exists c. split; [by right|]. intros x [->|Hx]%elem_of_cons; [|by apply Hmin].
      apply fleb_false in E; [|done..]. by apply fltb_fleb.
Qed.

Section Search.
Context (log_sum : Z -> Z -> float -> float) (z : float -> float).
Context (rows : list Row) (Hnum : Forall (fun r => knum r.1) rows).

Lemma scores_num : Forall knum rows.*1.
Proof. by apply Forall_fmap. Qed.

Lemma candidates_spec :
  (forall c, c ∈ candidates rows -> knum c /\ exists r, r ∈ rows /\ r.1 = c) /\
  (forall r, r ∈ rows -> exists c, c ∈ candidates rows /\ feqb r.1 c = true).
Proof.
  destruct (distinct_spec rows.*1 scores_num) as [H1 H2]. unfold candidates. split.
  - intros c Hc. rewrite stable_sort_perm in Hc. apply H1, list_elem_of_fmap in Hc as (r & -> & Hr).
    split; [by eapply Forall_forall in Hnum|by exists r].
  - intros r Hr. destruct (H2 r.1) as (c & Hc & Hf); [by apply (list_elem_of_fmap_2 fst)|].
    exists c. split; [by rewrite stable_sort_perm|done].
Qed.

Lemma auto_rows_elem t r : r ∈ auto_rows t rows <-> r ∈ rows /\ fleb t r.1 = true.
Proof. unfold auto_rows. rewrite list_elem_of_In, List.filter_In, <- list_elem_of_In. done. Qed.

(** A lower threshold admits more rows; strictly more when a row lies between. *)
Lemma auto_count_mono t t' : fleb t t' = true -> (auto_count t' rows <= auto_count t rows)%nat.
Proof.
  intros Ht. unfold auto_count, auto_rows. clear Hnum. induction rows as [|r rs IH]; [done|]. cbn [List.filter].
  destruct (fgeb r.1 t') eqn:E'; destruct (fgeb r.1 t) eqn:E; cbn [length]; try lia.
  unfold fgeb in *. by rewrite (fleb_trans t t' r.1) in E.
Qed.

Lemma auto_count_strict t r :
  knum t -> r ∈ rows -> fltb r.1 t = true -> (auto_count t rows < auto_count r.1 rows)%nat.
Proof.
  intros Kt Hr Hlt. assert (knum r.1) as Kr by (by eapply Forall_forall in Hnum).
  apply list_elem_of_split in Hr as (l1 & l2 & ->). unfold auto_count, auto_rows. rewrite !List.filter_app, !length_app.
  cbn [List.filter].
  assert (fgeb r.1 t = false) as -> by by apply fltb_fleb_absurd.
  assert (fgeb r.1 r.1 = true) as -> by by apply fleb_refl. cbn [length].
  assert (forall l, length (List.filter (fun x : float * bool => fgeb x.1 t) l) <= length (List.filter (fun x : float * bool => fgeb x.1 r.1) l))%nat as Hle.
  { intros l. induction l as [|x l IH]; [done|]. cbn [List.filter].
    destruct (fgeb x.1 t) eqn:E'; destruct (fgeb x.1 r.1) eqn:E; cbn [length]; try lia.
    unfold fgeb in *. rewrite (fleb_trans r.1 t x.1) in E; [done| |done]. by apply fltb_fleb. }
  pose proof (Hle l1). pose proof (Hle l2). lia.
Qed.

(** Any threshold acts like the least candidate at or above it. *)
Lemma threshold_candidate t :
  knum t -> auto_rows t rows <> [] -> exists c, c ∈ candidates rows /\ fleb t c = true /\ auto_rows t rows = auto_rows c rows.
Proof.
  intros Kt Hne. destruct candidates_spec as [Hc1 Hc2].
  destruct (least_element (List.filter (fun c => fleb t c) (candidates rows))) as (c & Hc & Hmin).
  - apply Forall_forall. intros c Hc. apply list_elem_of_In, List.filter_In in Hc as [Hc%list_elem_of_In _]. by apply Hc1.
  - destruct (auto_rows t rows) as [|r l] eqn:E; [done|]. intros Hnil.
    assert (r ∈ auto_rows t rows) as Hr by (rewrite E; left). apply auto_rows_elem in Hr as [Hr Ht].
    destruct (Hc2 r Hr) as (c & Hc & Hf). rewrite feqb_spec in Hf. apply andb_prop in Hf as [Hf _].
    assert (c ∈ List.filter (fun c => fleb t c) (candidates rows)) as Hin.
    { apply list_elem_of_In, List.filter_In. split; [by apply list_elem_of_In|]. by eapply fleb_trans. }
    rewrite Hnil in Hin. by apply elem_of_nil in Hin.
  - apply list_elem_of_In, List.filter_In in Hc as [Hc%list_elem_of_In Htc]. exists c. split; [done|]. split; [done|].
    unfold auto_rows. assert (forall r, r ∈ rows -> fgeb r.1 t = fgeb r.1 c) as Heq.
    { intros r Hr. unfold fgeb. apply eq_true_iff_eq. split; [|intros H; by eapply fleb_trans].
      intros Ht. destruct (Hc2 r Hr) as (c' & Hc' & Hf). rewrite feqb_spec in Hf. apply andb_prop in Hf as [Hf1 Hf2].
      eapply fleb_trans; [|exact Hf2]. apply Hmin, list_elem_of_In, List.filter_In.
      split; [by apply list_elem_of_In|]. by eapply fleb_trans. }
    clear -Heq. induction rows as [|r rs IH]; [done|]. cbn [List.filter]. rewrite (Heq r) by left.
    rewrite IH; [done|]. intros x Hx. apply Heq. by right.
Qed.

(** *** The search *)
Context (max_error : float) (bound : Bound) (confidence : float)
  (H0 : fltb f_zero confidence = true) (H1 : fltb confidence f_one = true).

Lemma error_count_le l : (error_count l <= length l)%nat.
Proof. unfold error_count. induction l as [|r l IH]; [done|]. cbn. destruct (negb r.2); cbn; lia. Qed.

Lemma point_at_total t : is_Some (point_at log_sum z rows bound confidence t).
Proof.
  assert (check (Z.of_nat (auto_errors t rows)) (Z.of_nat (auto_count t rows)) confidence = true) as Hc.
  { unfold check. rewrite H0, H1. unfold auto_errors, auto_count. pose proof (error_count_le (auto_rows t rows)).
    rewrite !(proj2 (Z.ltb_ge _ _)) by lia. done. }
  unfold point_at, upper_error_bound, wilson_upper, clopper_pearson_upper. rewrite Hc. cbn [negb].
  destruct bound; [destruct (_ =? 0)|destruct (_ =? _)]; by eexists.
Qed.

Definition feasible (t : float) : Prop :=
  exists p, point_at log_sum z rows bound confidence t = Some p /\ fleb (error_upper_bound p) max_error = true.

Lemma point_at_fields t p :
  point_at log_sum z rows bound confidence t = Some p ->
  threshold p = t /\ auto p = auto_count t rows /\ errors p = auto_errors t rows.
Proof. unfold point_at. destruct (upper_error_bound _ _ _ _ _ _); [|done]. by intros [= <-]. Qed.

Lemma search_spec ts : forall best, exists out,
  search log_sum z rows max_error bound confidence ts best = Some out /\
  (out = best \/ exists t p, t ∈ ts /\ out = Some p /\ point_at log_sum z rows bound confidence t = Some p /\
     fleb (error_upper_bound p) max_error = true) /\
  (forall b, best = Some b -> exists p, out = Some p /\ (auto b <= auto p)%nat) /\
  (forall t, t ∈ ts -> feasible t -> exists p, out = Some p /\ (auto_count t rows <= auto p)%nat).
Proof.
  induction ts as [|t ts IH]; intros best; cbn [search].
  - exists best. split; [done|]. split; [by left|]. split; [intros b ->; by exists b|]. by intros t ?%elem_of_nil.
  - destruct (point_at_total t) as [p Hp]. rewrite Hp. cbn [mbind option_bind].
    destruct (point_at_fields _ _ Hp) as (_ & Hauto & _).
    set (better := match best with None => true | Some b => (auto b <? auto p)%nat end).
    destruct (IH (if fleb (error_upper_bound p) max_error && better then Some p else best)) as (out & Ho & Hfrom & Hbest & Hall).
    exists out. split; [exact Ho|]. split_and!.
    + destruct Hfrom as [->|(t' & p' & Ht & Hrest)]; [|right; exists t', p'; split; [by right|done]].
      destruct (_ && _) eqn:E; [|by left]. right. apply andb_prop in E as [E _]. exists t, p. split; [left|done].
    + intros b ->. unfold better in *. destruct (fleb (error_upper_bound p) max_error && (auto b <? auto p)%nat) eqn:E.
      * destruct (Hbest p eq_refl) as (p' & -> & Hle). exists p'. split; [done|].
        apply andb_prop in E as [_ E]. apply Nat.ltb_lt in E. lia.
      * by apply Hbest.
    + intros t' [->|Ht]%elem_of_cons Hf; [|by apply Hall]. destruct Hf as (p' & Hp' & Hf). rewrite Hp in Hp'. injection Hp' as <-.
      rewrite Hf in Hbest. cbn [andb] in Hbest. rewrite <- Hauto. destruct better eqn:E; [by apply Hbest|].
      unfold better in E. destruct best as [b|]; [|done]. apply Nat.ltb_ge in E.
      destruct (Hbest b eq_refl) as (p' & -> & Hle). exists p'. split; [done|lia].
Qed.
End Search.

(** Any threshold within the budget that admits a row, against the search's result. *)
Lemma search_bounds log_sum z rows max_error bound confidence best :
  Forall (fun r => knum r.1) rows -> fltb f_zero confidence = true -> fltb confidence f_one = true ->
  search log_sum z rows max_error bound confidence (candidates rows) None = Some best ->
  forall t, knum t -> auto_rows t rows <> [] -> feasible log_sum z rows max_error bound confidence t ->
    exists p, best = Some p /\ (auto_count t rows <= auto p)%nat.
Proof.
  intros Hnum Hc0 Hc1 Hs t Kt Hne (p & Hp & Hf).
  destruct (search_spec log_sum z rows max_error bound confidence Hc0 Hc1 (candidates rows) None)
    as (best' & Hs' & _ & _ & Hall). rewrite Hs in Hs'. injection Hs' as <-.
  destruct (threshold_candidate rows Hnum t Kt Hne) as (c & Hc & Htc & Heq).
  destruct (Hall c Hc) as (b & -> & Hle).
  - destruct (point_at_total log_sum z rows bound confidence Hc0 Hc1 c) as [pc Hpc]. exists pc. split; [done|].
    unfold point_at in Hp, Hpc. unfold auto_errors, auto_count in *. rewrite <- Heq in Hpc.
    destruct (upper_error_bound _ _ _ _ _ _); [|done]. cbn in Hp, Hpc. injection Hp as <-. by injection Hpc as <-.
  - exists b. split; [done|]. unfold auto_count in *. by rewrite Heq.
Qed.

Lemma select_maximal log_sum z rows max_error bound confidence p :
  Forall (fun r => knum r.1) rows -> fltb f_zero confidence = true -> fltb confidence f_one = true ->
  select_threshold log_sum z rows max_error bound confidence = Some (Some p) ->
  forall t, knum t -> feasible log_sum z rows max_error bound confidence t -> (auto_count t rows <= auto p)%nat.
Proof.
  intros Hnum Hc0 Hc1 Hsel t Kt Hf. destruct rows as [|r rows]; [done|].
  destruct (auto_rows t (r :: rows)) as [|x l] eqn:E; [unfold auto_count; rewrite E; cbn; lia|].
  destruct (search_bounds _ _ _ _ _ _ _ Hnum Hc0 Hc1 Hsel t Kt ltac:(by rewrite E) Hf) as (b & [= <-] & Hle). done.
Qed.

(** The threshold search is optimal and never falls back: over rows with proper scores it returns a
    point exactly when some threshold with an AUTO row keeps the upper error bound within the budget;
    the point is that of one of the rows' own scores, it is itself within the budget, no threshold
    whatever that is within the budget has more AUTO rows, and none below it is within the budget
    unless it admits the same rows. *)
Theorem select_threshold_optimal log_sum z rows max_error bound confidence :
  Forall (fun r => knum r.1) rows -> fltb f_zero confidence = true -> fltb confidence f_one = true ->
  exists best, select_threshold log_sum z rows max_error bound confidence = Some best /\
  match best with
  | None => forall t, knum t -> auto_rows t rows <> [] -> ~ feasible log_sum z rows max_error bound confidence t
  | Some p =>
      threshold p ∈ rows.*1 /\ point_at log_sum z rows bound confidence (threshold p) = Some p /\
      fleb (error_upper_bound p) max_error = true /\
      forall t, knum t -> feasible log_sum z rows max_error bound confidence t ->
        (auto_count t rows <= auto p)%nat /\ (fltb t (threshold p) = true -> auto_rows t rows = auto_rows (threshold p) rows)
  end.
Proof.
  intros Hnum Hc0 Hc1. destruct rows as [|r0 rows0]; [exists None; split; [done|]; by intros t _ []|].
  set (rows := r0 :: rows0) in *.
  destruct (search_spec log_sum z rows max_error bound confidence Hc0 Hc1 (candidates rows) None)
    as (best & Hs & Hfrom & _ & _). exists best. split; [exact Hs|]. destruct best as [p|].
  - destruct Hfrom as [?|(t & p' & Ht & [= <-] & Hp & Hf)]; [done|].
    destruct (point_at_fields log_sum z rows bound confidence t p Hp) as (Et & Ea & _).
    destruct (candidates_spec rows Hnum) as [Hc _]. destruct (Hc t Ht) as (Kt & r & Hr & Hrt).
    rewrite Et. split_and!; [by rewrite <- Hrt; apply (list_elem_of_fmap_2 fst)|done|done|].
    intros t' Kt' Hf'. pose proof (select_maximal _ _ rows _ _ _ p Hnum Hc0 Hc1 Hs t' Kt' Hf') as Hle.
    split; [done|]. intros Hlt. rewrite Ea in Hle.
    assert (forall x, x ∈ rows -> fgeb x.1 t' = fgeb x.1 t) as Hsame.
    { intros x Hx. unfold fgeb. destruct (fleb t x.1) eqn:E; [eapply fleb_trans; [by apply fltb_fleb|done]|].
      apply not_true_iff_false. intros Hge. assert (knum x.1) as Kx by (by eapply Forall_forall in Hnum).
      apply fleb_false in E; [|done..]. pose proof (auto_count_strict rows Hnum t x Kt Hx E) as Hs1.
      pose proof (auto_count_mono rows t' x.1 Hge) as Hs2. lia. }
    clear -Hsame. unfold auto_rows. induction rows as [|x l IH]; [done|]. cbn [List.filter]. rewrite (Hsame x) by left.
    rewrite IH; [done|]. intros y Hy. apply Hsame. by right.
  - intros t Kt Hne Hf. by destruct (search_bounds _ _ _ _ _ _ _ Hnum Hc0 Hc1 Hs t Kt Hne Hf) as (b & ? & _).
Qed.

(** ** Facts: the split *)
Lemma concat_dset {A} k (old : list A) r (d : dict (list A)) :
  NoDup (dkeys d) -> or_else (dget k d) [] = old ->
  Permutation (concat (dset k (old ++ [r]) d).*2) (concat d.*2 ++ [r]).
Proof.
  intros Hnd. induction d as [|[k' g] d IH]; cbn [dset dget]; [by intros <-|].
  apply NoDup_cons in Hnd as [Hni Hnd]. case_bool_decide as Hk.
  - intros <-. cbn. rewrite <- !app_assoc. apply Permutation_app_head. apply Permutation_app_comm.
  - intros Hold. cbn. rewrite IH by done. by rewrite app_assoc.
Qed.

Lemma families_of_spec rows :
  NoDup (dkeys (families_of rows)) /\ Permutation (concat (families_of rows).*2) rows /\
  Forall (fun kg => Forall (fun r => family r = kg.1) kg.2) (families_of rows).
Proof.
  unfold families_of.
  assert (forall d done_, NoDup (dkeys d) -> Permutation (concat d.*2) done_ ->
    Forall (fun kg => Forall (fun r => family r = kg.1) kg.2) d ->
    let d' := fold_left (fun d r => dset (family r) (or_else (dget (family r) d) [] ++ [r]) d) rows d in
    NoDup (dkeys d') /\ Permutation (concat d'.*2) (done_ ++ rows) /\
    Forall (fun kg => Forall (fun r => family r = kg.1) kg.2) d') as H; [|exact (H [] [] (NoDup_nil_2) (Permutation_refl _) (Forall_nil_2 _))].
  induction rows as [|r rows IH]; intros d done_ Hnd Hp Hf; cbn [fold_left]; [by rewrite app_nil_r|].
  destruct (IH (dset (family r) (or_else (dget (family r) d) [] ++ [r]) d) (done_ ++ [r])) as (H1 & H2 & H3).
  - by apply NoDup_dset.
  - rewrite concat_dset by done. by apply Permutation_app_tail.
  - apply Forall_forall. intros [k g] Hin. cbn [fst snd].
    assert (dget k (dset (family r) (or_else (dget (family r) d) [] ++ [r]) d) = Some g) as Hg.
    { apply elem_dget; [by apply NoDup_dset|done]. }
    destruct (decide (k = family r)) as [->|Hne].
    + rewrite dget_dset_eq in Hg. injection Hg as <-. apply Forall_app. split; [|by constructor].
      destruct (dget (family r) d) as [g|] eqn:E; [|done]. apply dget_elem in E.
      by eapply (proj1 (Forall_forall _ d) Hf (family r, g)).
    + rewrite dget_dset_ne in Hg by done. apply dget_elem in Hg. by eapply (proj1 (Forall_forall _ d) Hf (k, g)).
  - split_and!; try done. by rewrite <- app_assoc in H2.
Qed.

Lemma split_steps target groups : forall sel held sel' held',
  fold_left (split_step target) groups (sel, held) = (sel', held') ->
  exists gs gh, Permutation (gs ++ gh) groups /\ sel' = sel ++ concat gs /\ held' = held ++ concat gh /\
    (held' = held \/ Z.of_nat (length held') <= target).
Proof.
  induction groups as [|g groups IH]; intros sel held sel' held'; cbn [fold_left].
  - intros [= <- <-]. exists [], []. rewrite !app_nil_r. split_and!; try done. by left.
  - unfold split_step at 2. destruct (_ <=? target) eqn:E; intros H%IH.
    + destruct H as (gs & gh & Hp & -> & -> & Hle). exists gs, (g :: gh). rewrite <- app_assoc. split_and!; try done.
      * rewrite <- Permutation_middle. by constructor.
      * right. destruct Hle as [Hle|Hle]; rewrite <- app_assoc in Hle; [|exact Hle]. cbn [concat]. rewrite Hle, length_app. lia.
    + destruct H as (gs & gh & Hp & -> & -> & Hle). exists (g :: gs), gh. rewrite <- app_assoc. split_and!; try done.
      cbn. by constructor.
Qed.

(** The split: whole families, every row once, and the held-out share. *)
Lemma split_rows_spec sha256 rows selection held_out :
  split_rows sha256 rows = Ok (selection, held_out) ->
  Permutation (selection ++ held_out) rows /\
  (forall a b, a ∈ selection -> b ∈ held_out -> family a <> family b) /\
  (MIN_HELD_OUT <= length held_out)%nat /\ Z.of_nat (length held_out) <= holdout_target rows.
Proof.
  unfold split_rows. set (ordered := stable_sort _ _).
  destruct (fold_left _ ordered.*2 _) as [sel held] eqn:E. destruct (length held <? MIN_HELD_OUT)%nat eqn:El; [done|].
  intros [= <- <-]. apply Nat.ltb_ge in El.
  apply split_steps in E as (gs & gh & Hp & -> & -> & Hle). cbn [app] in *.
  destruct (families_of_spec rows) as (Hnd & Hrows & Hf).
  assert (Permutation ordered (families_of rows)) as Hord by apply stable_sort_perm.
  assert (Permutation (gs ++ gh) (families_of rows).*2) as Hg by by rewrite Hp, Hord.
  split_and!; [|intros a b Ha Hb Heq|exact El|destruct Hle as [Hle|Hle]; [by rewrite Hle in El; inversion El|exact Hle]].
  - rewrite <- concat_app, Hg. exact Hrows.
  - apply Permutation_map_inv in Hg as (l & Hl & Hpl).
    symmetry in Hl. apply fmap_app_inv in Hl as (l1 & l2 & -> & -> & ->).
    apply list_elem_of_In, in_concat in Ha as (ga & Hga & Ha), Hb as (gb & Hgb & Hb). apply list_elem_of_In in Hga, Ha, Hgb, Hb.
    apply list_elem_of_fmap in Hga as ([ka ga'] & -> & Hka), Hgb as ([kb gb'] & -> & Hkb). cbn [snd] in *.
    rewrite Hpl, Forall_app, !Forall_forall in Hf. destruct Hf as [Hfa Hfb].
    specialize (Hfa _ Hka). specialize (Hfb _ Hkb). rewrite Forall_forall in Hfa, Hfb. cbn in Hfa, Hfb.
    specialize (Hfa _ Ha). specialize (Hfb _ Hb). unfold dkeys in Hnd. rewrite Hpl, fmap_app in Hnd.
    apply NoDup_app in Hnd as (_ & Hd & _). eapply (Hd ka).
    + apply (list_elem_of_fmap_2 fst _ _ Hka).
    + assert (ka = kb) as -> by congruence. apply (list_elem_of_fmap_2 fst _ _ Hkb).
Qed.

(** ** Properties of the command *)
Lemma row_of_Ok d n r : row_of d n = Ok r -> in_unit (score r) /\ (forall t, tool r = Some t -> t ∈ dkeys PRECISION_TARGETS).
Proof.
  unfold row_of. destruct (existsb _ _); [done|]. destruct (negb _); [done|].
  destruct (finite_score _) as [s|]; [|done]. destruct (fleb f_zero s && fleb s f_one) eqn:E; cbn [negb]; [|done].
  destruct (get (u "correct") d); try done. intros H. apply rbind_Ok in H as (f & _ & H).
  apply rbind_Ok in H as (t & Ht & [= <-]). cbn [score tool]. apply andb_prop in E as [E0 E1]. split; [by apply unit_of_bounds|].
  intros t' ->. destruct (get (u "tool") d); try done. destruct (dhas t PRECISION_TARGETS) eqn:Eh; [|done].
  injection Ht as <-. by apply dhas_spec.
Qed.

Section Command.
Context (loads : text -> option value) (sha256 : text -> text).
Context (log_sum : Z -> Z -> float -> float) (z : float -> float).

Lemma rows_from_Ok lines : forall n rows, rows_from loads n lines = Ok rows ->
  Forall (fun r => in_unit (score r) /\ (forall t, tool r = Some t -> t ∈ dkeys PRECISION_TARGETS)) rows.
Proof.
  induction lines as [|line lines IH]; intros n rows; cbn [rows_from]; [intros [= <-]; constructor|].
  destruct (strip line); [apply IH|]. destruct (loads line) as [[| | | | | |d]|]; try done.
  intros H. apply rbind_Ok in H as (r & Hr & H). apply rbind_Ok in H as (rs & Hrs & [= <-]).
  constructor; [by eapply row_of_Ok|by eapply IH].
Qed.

Lemma parse_rows_Ok t rows : parse_rows loads t = Ok rows ->
  rows <> [] /\ Forall (fun r => in_unit (score r) /\ (forall t, tool r = Some t -> t ∈ dkeys PRECISION_TARGETS)) rows.
Proof.
  unfold parse_rows. intros H. apply rbind_Ok in H as (rows' & Hr & H). destruct rows' as [|r rs]; [done|].
  injection H as <-. split; [done|]. by eapply rows_from_Ok.
Qed.

Lemma judged_num rows : Forall (fun r => in_unit (score r)) rows -> Forall (fun r : Row => knum r.1) (judged rows).
Proof. intros H. apply Forall_fmap. eapply Forall_impl; [exact H|]. intros r. apply in_unit_num. Qed.

(** What a run that returned rests on. *)
Lemma calibrate_Ok t flag max_error min_rows c :
  calibrate loads sha256 log_sum z t flag max_error min_rows = Ok c ->
  exists rows point, parse_rows loads t = Ok rows /\ (min_rows <= length rows)%nat /\
    split_rows sha256 rows = Ok (cal_selection c, cal_held_out c) /\
    select_threshold log_sum z (judged (cal_selection c)) (cal_budget c) ClopperPearson DEFAULT_CONFIDENCE = Some point /\
    match point with
    | None => cal_point c = None
    | Some p => exists cert, certify log_sum p (judged (cal_held_out c)) DEFAULT_CONFIDENCE = Some cert /\
                  cal_point c = Some (p, cert)
    end.
Proof.
  unfold calibrate. intros H. apply rbind_Ok in H as (rows & Hrows & H).
  destruct (length rows <? min_rows)%nat eqn:El; [done|]. apply Nat.ltb_ge in El.
  apply rbind_Ok in H as (tl & _ & H). apply rbind_Ok in H as (budget & _ & H).
  apply rbind_Ok in H as ([sel held] & Hs & H). apply rbind_Ok in H as (point & Hp & H).
  apply rbind_Ok in H as (cert & Hc & [= <-]). cbn [cal_selection cal_held_out cal_budget cal_point].
  exists rows, point. split; [done|]. split; [done|]. split; [done|].
  split; [by destruct (select_threshold _ _ _ _ _ _); [injection Hp as <-|]|].
  destruct point as [p|]; [|by injection Hc as <-]. apply rbind_Ok in Hc as (cert' & Hc & [= <-]).
  exists cert'. split; [|done]. by destruct (certify _ _ _ _); [injection Hc as <-|].
Qed.

End Command.

(** ** Samples: the binomial sum computed directly, term by term. *)
Fixpoint fpow (x : float) (n : nat) : float := match n with O => f_one | S n' => fmul x (fpow x n') end.

Fixpoint binomial_sum (n : Z) (p : float) (i : nat) (coefficient : Z) (terms : nat) : float :=
  let term := fmul (f_of_Z coefficient) (fmul (fpow p i) (fpow (fsub f_one p) (Z.to_nat n - i))) in
  match terms with
  | O => term
  | S terms' => fadd term (binomial_sum n p (S i) (coefficient * (n - Z.of_nat i) / (Z.of_nat i + 1)) terms')
  end.

Definition sample_log_sum (k n : Z) (p : float) : float := binomial_sum n p 0 1 (Z.to_nat k).

Definition sample_loads (line : text) : option value :=
  if bool_decide (line = u "high") then Some (VDict [(u "score", VFloat (f_ratio 9 10)); (u "correct", VBool true)])
  else if bool_decide (line = u "low") then Some (VDict [(u "score", VFloat (f_ratio 1 10)); (u "correct", VBool false)])
  else None.

(** Twenty-seven rows the judge got right and a low one it got wrong. *)
Definition sample_rows : text := concat (replicate 27 (u "high" ++ [10])) ++ u "low".

Definition sample_judged : list Row := [(f_ratio 9 10, true); (f_ratio 8 10, true); (f_ratio 1 10, false)].

Lemma select_threshold_optimal_witness : exists best,
  select_threshold sample_log_sum id sample_judged (f_ratio 8 10) ClopperPearson DEFAULT_CONFIDENCE = Some (Some best) /\
  feqb (threshold best) (f_ratio 8 10) = true /\ fleb (error_upper_bound best) (f_ratio 8 10) = true.
Proof.
  assert (match select_threshold sample_log_sum id sample_judged (f_ratio 8 10) ClopperPearson DEFAULT_CONFIDENCE with
          | Some (Some b) => feqb (threshold b) (f_ratio 8 10)
          | _ => false
          end = true) as Hv by (vm_compute; reflexivity).
  destruct (select_threshold_optimal sample_log_sum id sample_judged (f_ratio 8 10) ClopperPearson DEFAULT_CONFIDENCE)
    as (best & Hs & Hbest); [repeat (apply Forall_cons; split; [vm_compute; reflexivity|]); apply Forall_nil_2
                               |vm_compute; reflexivity|vm_compute; reflexivity|].
  rewrite Hs in Hv. destruct best as [best|]; [|discriminate Hv]. destruct Hbest as (_ & _ & Hb & _).
  exists best. split; [exact Hs|]. split; [exact Hv|exact Hb].
Defined.

