(* ===== verification/Cache.v ===== *)
(** * The evaluation cache

    Models [cache.py] and the cached [Runtime.ask] of [tools/base.py]: the key of a request, the lookup
    with its expiry, the record, eviction, and the ask that replays a recorded evaluation.  SHA-256,
    [decode_json] and [json.dumps] are parameters; the file system is a map from the names of one
    directory, with the failures the code tolerates ([OSError]) given by [Disk].  The worker thread of
    [alookup] and [astore] only moves the same calls off the event loop. *)
From S2P Require Import Prelude Float64 Json Serialize Domain Runtime Provider PyStrings.
Open Scope Z_scope.

(** ** State *)
Record File := { f_mtime : float; f_text : text }.
Abbreviation Directory := (gmap text File).

Record Settings := { cache_enabled : bool; cache_ttl_seconds : float; cache_max_entries : Z }.

(** Which operations succeed. *)
Record Disk := {
  can_list : bool; can_stat : text -> bool; can_read : text -> bool; can_write : text -> bool; can_unlink : text -> bool }.

(** A request as the cache sees it. *)
Record CacheRequest := {
  c_provider : text; c_scope : text; c_model : text; c_state : value; c_questions : dict Question }.

Definition DOT_JSON : text := u ".json".

(** [entry.suffix == ".json"]: a name that is only [.json] has no suffix. *)
Definition is_entry (name : text) : bool := ends_with DOT_JSON name && negb (bool_decide (name = DOT_JSON)).

(** The staging files of an atomic write. *)
Definition is_staging (name : text) : bool :=
  negb (is_entry name) && bool_decide (take 1 name = [46]) && contains_text (u ".json.") name.

Definition remove_file (disk : Disk) (name : text) (dir : Directory) : Directory :=
  if can_unlink disk name then delete name dir else dir.

Section Cache.
Context (sha256 : text -> text) (decode : text -> option value) (dumps : value -> option text).

(** [_key]. *)
Definition key (rq : CacheRequest) : text :=
  sha256 (stringify_compact (VDict
    [(u "provider", VStr (c_provider rq)); (u "endpoint", VStr (c_scope rq)); (u "model", VStr (c_model rq));
     (u "state", c_state rq); (u "questions", questions_to_wire (c_questions rq))])).

Definition entry_name (rq : CacheRequest) : text := key rq ++ DOT_JSON.

(** [_stale]: a file that cannot be read for its time (or is absent) is not stale. *)
Definition stale (disk : Disk) (ttl now : float) (name : text) (dir : Directory) : bool :=
  if fleb ttl f_zero then false
  else
    match dir !! name with
    | Some f => can_stat disk name && fgtb (fsub now (f_mtime f)) ttl
    | None => false
    end.

(** What a record must be to be replayed. *)
Definition replay (rq : CacheRequest) (record : value) : option Evaluation :=
  match record with
  | VDict d =>
    match get (u "answers") d, get (u "provider") d with
    | VDict answers, VStr name =>
      if negb (bool_decide (name = c_provider rq)) then None
      else
        match usage_counts (get (u "usage") d) with
        | None => None
        | Some us =>
          Some {| answers := answers; usage := us; ev_provider := c_provider rq;
                  ev_model := match get (u "model") d with VStr m => m | _ => c_model rq end; request_id := None |}
        end
    | _, _ => None
    end
  | _ => None
  end.

(** [lookup]: the evaluation, and the directory (a stale entry is unlinked). *)
Definition lookup (s : Settings) (disk : Disk) (now : float) (rq : CacheRequest) (dir : Directory)
    : option Evaluation * Directory :=
  if negb (cache_enabled s) then (None, dir)
  else
    let name := entry_name rq in
    if stale disk (cache_ttl_seconds s) now name dir then (None, remove_file disk name dir)
    else
      match dir !! name with
      | Some f =>
        if can_read disk name
        then (match decode (f_text f) with Some record => replay rq record | None => None end, dir)
        else (None, dir)
      | None => (None, dir)
      end.

(** [sorted(live, key=stamp)]: by time, then by name; an entry that cannot be read for its time is
    the oldest. *)
Definition stamp (disk : Disk) (e : text * File) : float * text :=
  (if can_stat disk e.1 then f_mtime e.2 else f_zero, e.1).

Definition older (disk : Disk) (a b : text * File) : bool :=
  let '(ta, na) := stamp disk a in let '(tb, nb) := stamp disk b in
  fltb ta tb || (feqb ta tb && text_ltb na nb).

Definition live_entries (dir : Directory) : list (text * File) := List.filter (fun e => is_entry e.1) (map_to_list dir).

Definition unlink_all (disk : Disk) (names : list text) (dir : Directory) : Directory :=
  fold_left (fun dir name => remove_file disk name dir) names dir.

(** [_evict]. *)
Definition evict (disk : Disk) (cap : Z) (dir : Directory) : Directory :=
  if negb (can_list disk) then dir
  else
    let staging := (List.filter (fun e => is_staging e.1) (map_to_list dir)).*1 in
    let live := live_entries dir in
    let dir := unlink_all disk staging dir in
    if cap <=? 0 then dir
    else
      let excess := Z.of_nat (length live) - cap in
      if excess <=? 0 then dir
      else unlink_all disk (take (Z.to_nat excess) (stable_sort (older disk) live)).*1 dir.

(** The record of [store]. *)
Definition record_of (ev : Evaluation) : value :=
  VDict [(u "answers", VDict (answers ev));
         (u "usage", VDict [(u "input_tokens", input_tokens (usage ev)); (u "output_tokens", output_tokens (usage ev))]);
         (u "provider", VStr (ev_provider ev)); (u "model", VStr (ev_model ev))].

(** [store]: an atomic write, then eviction. *)
Definition store (s : Settings) (disk : Disk) (now : float) (rq : CacheRequest) (ev : Evaluation) (dir : Directory)
    : Directory :=
  if negb (cache_enabled s) then dir
  else
    let name := entry_name rq in
    match dumps (record_of ev) with
    | Some t =>
      if can_write disk name then evict disk (cache_max_entries s) (<[name := {| f_mtime := now; f_text := t |}]> dir)
      else dir
    | None => dir
    end.

(** [Runtime.ask] over the cache: the reply, the directory, and whether the provider was asked. *)
Definition cached_ask (s : Settings) (disk : Disk) (now : float) (rq : CacheRequest)
    (evaluate : result exn Evaluation) (dir : Directory) : result exn Evaluation * Directory * bool :=
  match lookup s disk now rq dir with
  | (Some ev, dir) => (Ok ev, dir, false)
  | (None, dir) =>
    match evaluate with
    | Ok ev => (Ok ev, store s disk now rq ev dir, true)
    | Raise e => (Raise e, dir, true)
    end
  end.
End Cache.

(** ** Facts: eviction *)
Lemma unlink_all_lookup disk names dir name :
  unlink_all disk names dir !! name = if bool_decide (name ∈ names) && can_unlink disk name then None else dir !! name.
Proof.
  unfold unlink_all. revert dir. induction names as [|n names IH]; intros dir; cbn [fold_left]; [done|].
  rewrite IH. unfold remove_file. destruct (decide (name = n)) as [->|Hne].
  - rewrite (bool_decide_eq_true_2 (n ∈ n :: names)) by left. cbn [andb].
    destruct (can_unlink disk n); [|by rewrite andb_false_r]. rewrite lookup_delete_eq. by destruct (_ && _).
  - assert (bool_decide (name ∈ n :: names) = bool_decide (name ∈ names)) as ->.
    { apply bool_decide_ext. rewrite elem_of_cons. naive_solver. }
    destruct (can_unlink disk n); [by rewrite lookup_delete_ne|done].
Qed.

Lemma live_elem dir name f : (name, f) ∈ live_entries dir <-> dir !! name = Some f /\ is_entry name = true.
Proof.
  unfold live_entries. rewrite list_elem_of_In, List.filter_In, <- list_elem_of_In, elem_of_map_to_list. done.
Qed.

Lemma NoDup_live dir : NoDup (live_entries dir).*1.
Proof.
  unfold live_entries. apply (sublist_NoDup _ (map_to_list dir).*1); [apply NoDup_fst_map_to_list|].
  induction (map_to_list dir) as [|e l IH]; [done|]. cbn [List.filter]. destruct (is_entry e.1); cbn.
  - by constructor.
  - by constructor.
Qed.

(** The order of eviction, on proper times. *)
Definition proper (e : text * File) : Prop := knum (f_mtime e.2).

Lemma stamp_num disk e : proper e -> knum (stamp disk e).1.
Proof. unfold stamp. by destruct (can_stat disk e.1). Qed.

Lemma older_key disk a b : proper a -> proper b ->
  older disk a b = true <->
  klt (fkey (stamp disk a).1) (fkey (stamp disk b).1) \/
  (~ klt (fkey (stamp disk b).1) (fkey (stamp disk a).1) /\ text_ltb (stamp disk a).2 (stamp disk b).2 = true).
Proof.
  intros Ha%(stamp_num disk) Hb%(stamp_num disk). unfold older. destruct (stamp disk a) as [ta na], (stamp disk b) as [tb nb].
  cbn [fst snd] in *. rewrite orb_true_iff, andb_true_iff, feqb_spec, andb_true_iff, !fleb_key, fltb_key by done.
  assert (klt (fkey ta) (fkey tb) \/ ~ klt (fkey ta) (fkey tb)) by (unfold klt; lia). tauto.
Qed.

Lemma older_asym disk a b : proper a -> proper b -> older disk a b = true -> older disk b a = false.
Proof.
  intros Ha Hb H%older_key; [|done..]. apply not_true_iff_false. intros H'%older_key; [|done..].
  destruct H as [H|[H Ht]], H' as [H'|[H' Ht']]; [unfold klt in *; lia|done|done|].
  apply text_ltb_asym in Ht. congruence.
Qed.

Lemma older_false_trans disk a b c : proper a -> proper b -> proper c ->
  older disk b a = false -> older disk c b = false -> older disk c a = false.
Proof.
  intros Ha Hb Hc. rewrite <- !not_true_iff_false, !older_key by done.
  intros H1 H2 [H3|[H3 Ht]].
  - assert (~ klt (fkey (stamp disk b).1) (fkey (stamp disk a).1)) by tauto.
    assert (~ klt (fkey (stamp disk c).1) (fkey (stamp disk b).1)) by tauto. unfold klt in *. lia.
  - assert (~ klt (fkey (stamp disk b).1) (fkey (stamp disk a).1)) as Hba by tauto.
    assert (~ klt (fkey (stamp disk c).1) (fkey (stamp disk b).1)) as Hcb by tauto.
    assert (~ klt (fkey (stamp disk a).1) (fkey (stamp disk b).1)) as Hab by (unfold klt in *; lia).
    assert (~ klt (fkey (stamp disk b).1) (fkey (stamp disk c).1)) as Hbc by (unfold klt in *; lia).
    assert (text_ltb (stamp disk b).2 (stamp disk a).2 = false) as T1 by (apply not_true_iff_false; tauto).
    assert (text_ltb (stamp disk c).2 (stamp disk b).2 = false) as T2 by (apply not_true_iff_false; tauto).
    rewrite (text_ltb_false_trans _ _ _ T1 T2) in Ht. done.
Qed.

Lemma StronglySorted_app_in {A} (R : A -> A -> Prop) l1 l2 x y :
  StronglySorted R (l1 ++ l2) -> x ∈ l1 -> y ∈ l2 -> R x y.
Proof.
  induction l1 as [|a l1 IH]; [by intros _ ?%elem_of_nil|]. cbn. intros Hs Hx Hy.
  inversion Hs as [|? ? Hs' Ha]; subst. apply elem_of_cons in Hx as [->|Hx]; [|by apply IH].
  eapply Forall_forall in Ha; [exact Ha|]. apply elem_of_app. by right.
Qed.

(** No entry that is dropped is newer than one that is kept. *)
Lemma dropped_older disk k dir x y :
  Forall proper (live_entries dir) ->
  let sorted := stable_sort (older disk) (live_entries dir) in
  x ∈ take k sorted -> y ∈ drop k sorted -> older disk y x = false.
Proof.
  intros Hp sorted Hx Hy. change (in_order (older disk) x y).
  apply (StronglySorted_app_in _ (take k sorted) (drop k sorted)); [|done|done].
  rewrite take_drop. apply (stable_sort_sorted (older disk) proper); [| |done].
  - intros a b c. apply older_false_trans.
  - intros a b. apply older_asym.
Qed.

Lemma dropped_name disk k dir name :
  let sorted := stable_sort (older disk) (live_entries dir) in
  name ∈ (take k sorted).*1 -> name ∉ (drop k sorted).*1 /\ is_entry name = true.
Proof.
  intros sorted Hn. assert (NoDup sorted.*1) as Hnd by (unfold sorted; rewrite stable_sort_perm; apply NoDup_live).
  split.
  - rewrite <- (take_drop k sorted), fmap_app in Hnd. apply NoDup_app in Hnd as (_ & Hd & _). by apply Hd.
  - apply list_elem_of_fmap in Hn as ([n f] & -> & Hin).
    assert ((n, f) ∈ sorted) as Hs by (rewrite <- (take_drop k sorted), elem_of_app; by left).
    unfold sorted in Hs. rewrite stable_sort_perm in Hs. by apply live_elem in Hs as [_ ?].
Qed.

Lemma NoDup_sorted disk k dir : NoDup (drop k (stable_sort (older disk) (live_entries dir))).
Proof.
  assert (NoDup (stable_sort (older disk) (live_entries dir))) as H.
  { rewrite stable_sort_perm. exact (NoDup_fmap_1 fst _ (NoDup_live dir)). }
  rewrite <- (take_drop k) in H. by apply NoDup_app in H as (_ & _ & ?).
Qed.

(** The names eviction removes. *)
Definition evicted (disk : Disk) (cap : Z) (dir : Directory) : list text :=
  (List.filter (fun e => is_staging e.1) (map_to_list dir)).*1 ++
  (if cap <=? 0 then []
   else (take (Z.to_nat (Z.of_nat (length (live_entries dir)) - cap)) (stable_sort (older disk) (live_entries dir))).*1).

Lemma evict_lookup disk cap dir name :
  can_list disk = true ->
  evict disk cap dir !! name = if bool_decide (name ∈ evicted disk cap dir) && can_unlink disk name then None else dir !! name.
Proof.
  intros Hl. unfold evict, evicted. rewrite Hl. cbn [negb].
  set (staging := (List.filter _ (map_to_list dir)).*1). set (live := live_entries dir).
  destruct (cap <=? 0) eqn:Ec; [rewrite app_nil_r; apply unlink_all_lookup|].
  destruct (Z.of_nat (length live) - cap <=? 0) eqn:Ee.
  - assert (Z.to_nat (Z.of_nat (length live) - cap) = 0%nat) as -> by lia. cbn [take fmap list_fmap]. rewrite app_nil_r.
    apply unlink_all_lookup.
  - rewrite !unlink_all_lookup. set (old := (take _ _).*1).
    assert (bool_decide (name ∈ staging ++ old) = bool_decide (name ∈ old) || bool_decide (name ∈ staging)) as ->.
    { rewrite <- bool_decide_or. apply bool_decide_ext. rewrite elem_of_app. tauto. }
    by destruct (bool_decide (name ∈ old)), (can_unlink disk name), (bool_decide (name ∈ staging)).
Qed.

Lemma staging_elem dir name :
  name ∈ (List.filter (fun e : text * File => is_staging e.1) (map_to_list dir)).*1 <-> is_Some (dir !! name) /\ is_staging name = true.
Proof.
  rewrite list_elem_of_fmap. split.
  - intros ([n f] & -> & H). apply list_elem_of_In, List.filter_In in H as [H Hs]. apply list_elem_of_In, elem_of_map_to_list in H.
    split; [by exists f|done].
  - intros [[f Hf] Hs]. exists (name, f). split; [done|]. apply list_elem_of_In, List.filter_In. split; [|done].
    by apply list_elem_of_In, elem_of_map_to_list.
Qed.

Lemma staging_not_entry name : is_staging name = true -> is_entry name = false.
Proof. unfold is_staging. by destruct (is_entry name). Qed.

(** Eviction keeps the newest entries and nothing but cache files is touched: when the directory
    lists and its files unlink, afterwards the directory is a part of what it was, every name that is
    neither an entry nor a staging file is still there and no staging file is; with a cap, the number
    of entries is the smaller of the cap and what it was, and no entry that was dropped is newer (by
    time, then by name) than one that was kept. *)
Theorem evict_keeps_newest disk cap dir :
  can_list disk = true -> (forall name, can_unlink disk name = true) -> Forall proper (live_entries dir) ->
  let dir' := evict disk cap dir in
  dir' ⊆ dir /\
  (forall name, is_entry name = false -> is_staging name = false -> dir' !! name = dir !! name) /\
  (forall name, is_staging name = true -> dir' !! name = None) /\
  (0 < cap -> Z.of_nat (length (live_entries dir')) = Z.min cap (Z.of_nat (length (live_entries dir)))) /\
  (forall x y, x ∈ live_entries dir -> x.1 ∉ (live_entries dir').*1 -> y ∈ live_entries dir' -> older disk y x = false).
Proof.
  intros Hl Hu Hp dir'.
  assert (forall name, dir' !! name = if bool_decide (name ∈ evicted disk cap dir) then None else dir !! name) as Hlk.
  { intros name. unfold dir'. by rewrite evict_lookup, Hu, andb_true_r. }
  set (k := Z.to_nat (Z.of_nat (length (live_entries dir)) - cap)).
  set (sorted := stable_sort (older disk) (live_entries dir)).
  assert (forall name, is_entry name = true -> name ∈ evicted disk cap dir <-> 0 < cap /\ name ∈ (take k sorted).*1) as Hev.
  { intros name Hn. unfold evicted. rewrite elem_of_app, staging_elem. fold k sorted. split.
    - intros [[_ Hs]|H]; [apply staging_not_entry in Hs; congruence|].
      destruct (cap <=? 0) eqn:Ec; [by apply elem_of_nil in H|]. split; [lia|done].
    - intros [Hc H]. right. by rewrite (proj2 (Z.leb_gt _ _)). }
  assert (forall e, e ∈ live_entries dir' <-> e ∈ live_entries dir /\ ~ (0 < cap /\ e.1 ∈ (take k sorted).*1)) as Hlive.
  { intros [n f]. rewrite !live_elem, Hlk. cbn [fst]. case_bool_decide as Hb; split.
    - by intros [? _].
    - intros [[_ Hn] Hno]. exfalso. apply Hno. by apply Hev.
    - intros [Hd Hn]. split; [done|]. intros H. by apply Hb, Hev.
    - by intros [? _]. }
  assert (forall e, e ∈ live_entries dir <-> e ∈ take k sorted \/ e ∈ drop k sorted) as Hsort.
  { intros e. rewrite <- elem_of_app, take_drop. unfold sorted. by rewrite stable_sort_perm. }
  assert (forall e, 0 < cap -> e ∈ live_entries dir' <-> e ∈ drop k sorted) as Hkept.
  { intros e Hc. rewrite Hlive, Hsort. split.
    - intros [[Ht|Hd] Hno]; [|done]. exfalso. apply Hno. split; [done|by apply (list_elem_of_fmap_2 fst)].
    - intros Hd. split; [by right|]. intros [_ [Hn _]%dropped_name]. by apply Hn, (list_elem_of_fmap_2 fst). }
  split_and!.
  - apply map_subseteq_spec. intros n f. rewrite Hlk. by case_bool_decide.
  - intros name He Hs. rewrite Hlk, bool_decide_eq_false_2; [done|]. unfold evicted. rewrite elem_of_app, staging_elem. fold k sorted.
    intros [[_ H]|H]; [congruence|]. destruct (cap <=? 0); [by apply elem_of_nil in H|].
    apply dropped_name in H as [_ H]. congruence.
  - intros name Hs. rewrite Hlk. case_bool_decide as Hb; [done|]. apply eq_None_not_Some. intros Hd. apply Hb.
    unfold evicted. rewrite elem_of_app, staging_elem. by left.
  - intros Hc. assert (Permutation (live_entries dir') (drop k sorted)) as ->.
    { apply list.NoDup_Permutation; [|apply NoDup_sorted|intros e; by apply Hkept].
      exact (NoDup_fmap_1 fst _ (NoDup_live dir')). }
    rewrite length_drop. unfold sorted. rewrite stable_sort_length. lia.
  - intros x y Hx Hnx Hy.
    destruct (decide (0 < cap)) as [Hc|Hc].
    + apply Hkept in Hy; [|done]. apply Hsort in Hx as [Hx|Hx]; [by eapply dropped_older|].
      exfalso. apply Hnx, (list_elem_of_fmap_2 fst). by apply Hkept.
    + exfalso. apply Hnx, (list_elem_of_fmap_2 fst). apply Hlive. split; [done|tauto].
Qed.

(** ** Facts: the entry just written *)
Lemma ends_with_app a b : ends_with b (a ++ b) = true.
Proof.
  induction a as [|c a IH]; cbn [app].
  - destruct b; cbn [ends_with]; by rewrite bool_decide_eq_true_2.
  - cbn [ends_with]. by rewrite IH, orb_true_r.
Qed.

Lemma entry_is_entry sha256 rq : key sha256 rq <> [] -> is_entry (entry_name sha256 rq) = true.
Proof.
  intros Hk. unfold is_entry, entry_name. rewrite ends_with_app, bool_decide_eq_false_2; [done|].
  intros H. apply (f_equal length) in H. rewrite length_app in H. by destruct (key sha256 rq); [|cbn in H; lia].
Qed.

(** An entry newer than every other one outlives the eviction. *)
Lemma newest_survives disk cap dir name f :
  dir !! name = Some f -> is_entry name = true -> can_stat disk name = true -> Forall proper (live_entries dir) ->
  (forall n g, dir !! n = Some g -> is_entry n = true -> n <> name -> older disk (n, g) (name, f) = true) ->
  evict disk cap dir !! name = Some f.
Proof.
  intros Hf He Hst Hp Hnew. destruct (can_list disk) eqn:El; [|unfold evict; by rewrite El].
  rewrite evict_lookup by done. rewrite bool_decide_eq_false_2; [done|]. unfold evicted. rewrite elem_of_app, staging_elem.
  intros [[_ H%staging_not_entry]|H]; [congruence|]. destruct (cap <=? 0) eqn:Ec; [by apply elem_of_nil in H|].
  apply Z.leb_gt in Ec. set (k := Z.to_nat _) in H. set (sorted := stable_sort (older disk) (live_entries dir)) in *.
  assert (length sorted = length (live_entries dir)) as Hlen by apply stable_sort_length.
  assert (live_entries dir <> []) as Hne.
  { intros Hnil. assert ((name, f) ∈ live_entries dir) as Hin by by apply live_elem. rewrite Hnil in Hin. by apply elem_of_nil in Hin. }
  assert (0 < length (drop k sorted))%nat as Hd.
  { rewrite length_drop, Hlen. destruct (live_entries dir); [done|]. cbn [length] in *. lia. }
  destruct (drop k sorted) as [|[n g] rest] eqn:Edrop; [cbn in Hd; lia|].
  destruct (dropped_name disk k dir name H) as [Hnot _]. fold sorted in Hnot. rewrite Edrop in Hnot.
  apply list_elem_of_fmap in H as ([n' f'] & Hn' & Hin). cbn in Hn'. subst n'.
  assert ((name, f') ∈ live_entries dir /\ (n, g) ∈ live_entries dir) as [Hl1 Hl2].
  { rewrite <- (stable_sort_perm (older disk) (live_entries dir)). fold sorted. rewrite <- (take_drop k sorted), Edrop, !elem_of_app.
    split; [by left|right; left]. }
  apply live_elem in Hl1 as [Hf' _]. assert (f' = f) as -> by congruence. apply live_elem in Hl2 as [Hg Hn].
  assert (older disk (n, g) (name, f) = false) as Ho.
  { apply (dropped_older disk k dir _ _ Hp); fold sorted; [done|]. rewrite Edrop. left. }
  rewrite Hnew in Ho; [done|done|done|]. intros ->. apply Hnot. left.
Qed.

Lemma usage_count_of_sound v : sound_count v -> usage_count v = Some v.
Proof.
  intros (x & Hx & Hfin & H0 & Hv). unfold usage_count. rewrite Hx, Hfin. cbn [negb orb].
  rewrite (fleb_fltb_absurd f_zero x) by done. cbn. destruct Hv as [[n ->]| ->]; done.
Qed.


(** ** Samples *)
Definition sample_ev : Evaluation :=
  {| answers := [(u "q", VFloat (f_ratio 1 2))]; usage := {| input_tokens := VInt 7; output_tokens := VInt 1 |};
     ev_provider := u "typesafe"; ev_model := u "jev-1"; request_id := Some (u "req-9") |}.
Definition sample_rq : CacheRequest :=
  {| c_provider := u "typesafe"; c_scope := []; c_model := u "jev-latest"; c_state := vs "state"; c_questions := [] |}.
Definition sample_settings : Settings :=
  {| cache_enabled := true; cache_ttl_seconds := f_of_Z 60; cache_max_entries := 1 |}.
Definition sample_disk : Disk :=
  {| can_list := true; can_stat := fun _ => true; can_read := fun _ => true; can_write := fun _ => true;
     can_unlink := fun _ => true |}.
Definition sample_decode (t : text) : option value := if bool_decide (t = u "record") then Some (record_of sample_ev) else None.
Definition sample_dumps (v : value) : option text := Some (u "record").
Definition sample_dir : Directory := {[ u "old.json" := {| f_mtime := f_of_Z 3; f_text := [] |} ]}.


Lemma evict_keeps_newest_witness :
  Z.of_nat (length (live_entries (evict sample_disk 1 (<[u "new.json" := {| f_mtime := f_of_Z 9; f_text := [] |}]> sample_dir)))) = 1.
Proof.
  refine (proj1 (proj2 (proj2 (proj2 (evict_keeps_newest sample_disk 1 _ eq_refl (fun _ => eq_refl) _)))) ltac:(lia)).
  apply Forall_forall. intros [n f] [H _]%live_elem. apply lookup_insert_Some in H as [[_ <-]|[_ H]]; [reflexivity|].
  unfold sample_dir in H. apply lookup_singleton_Some in H as [_ <-]. reflexivity.
Defined.

(** A replayed payload is not byte-identical to the first answer's when that carried a request id. *)
Example replay_loses_request_id :
  dget (u "request_id") (frame (u "jev_verify") (Some sample_ev) [] None) = Some (vs "req-9") /\
  exists replayed, replay sample_rq (record_of sample_ev) = Some replayed /\
    dget (u "request_id") (frame (u "jev_verify") (Some replayed) [] None) = None.
Proof. split; [by vm_compute|]. eexists. split; [reflexivity|]. by vm_compute. Qed.
