(* ===== verification/Utf8.v ===== *)
(** * UTF-8

    [bytes.decode("utf-8")] as CPython's codec does it, with [errors="replace"] (one U+FFFD for each
    maximal part of a sequence that cannot be completed) and without (an error), and [str.encode].  The
    readers of files, of git's output and of a command's output share it; the bounds they state in
    comments are the theorems here. *)
From S2P Require Import Prelude Text.
Open Scope Z_scope.

Definition REPLACEMENT : Z := 0xFFFD.

Definition is_cont (b : Z) : bool := (0x80 <=? b) && (b <? 0xC0).

(** What the second byte must be after [lead]: no overlong form, no surrogate, nothing past U+10FFFF. *)
Definition second_ok (lead b : Z) : bool :=
  if lead =? 0xE0 then (0xA0 <=? b) && (b <? 0xC0)
  else if lead =? 0xED then (0x80 <=? b) && (b <? 0xA0)
  else if lead =? 0xF0 then (0x90 <=? b) && (b <? 0xC0)
  else if lead =? 0xF4 then (0x80 <=? b) && (b <? 0x90)
  else is_cont b.

(** How many bytes follow a lead byte, and the bits it carries. *)
Definition following (lead : Z) : option (nat * Z) :=
  if (0 <=? lead) && (lead <? 0x80) then Some (0%nat, lead)
  else if (0xC2 <=? lead) && (lead <? 0xE0) then Some (1%nat, lead - 0xC0)
  else if (0xE0 <=? lead) && (lead <? 0xF0) then Some (2%nat, lead - 0xE0)
  else if (0xF0 <=? lead) && (lead <? 0xF5) then Some (3%nat, lead - 0xF0)
  else None.

(** The bytes of the sequence that are there and fit, at most [n]. *)
Fixpoint conts (ok : Z -> bool) (n : nat) (bs : list Z) : list Z :=
  match n, bs with
  | S n', b :: bs' => if ok b then b :: conts is_cont n' bs' else []
  | _, _ => []
  end.

Definition add_bits (acc b : Z) : Z := acc * 64 + (b - 0x80).

(** One character: [None] for a sequence that cannot be completed, and the bytes used after the lead. *)
Definition decode_one (lead : Z) (rest : list Z) : option Z * nat :=
  match following lead with
  | None => (None, 0%nat)
  | Some (n, bits) =>
    let cs := conts (second_ok lead) n rest in
    (if (length cs =? n)%nat then Some (fold_left add_bits cs bits) else None, length cs)
  end.

Fixpoint decode_go (fuel : nat) (bs : list Z) : list (option Z) :=
  match fuel, bs with
  | S fuel', b :: bs' => let '(c, k) := decode_one b bs' in c :: decode_go fuel' (drop k bs')
  | _, _ => []
  end.

Definition decoded (bs : list Z) : list (option Z) := decode_go (length bs) bs.

(** [errors="replace"]. *)
Definition decode_replace (bs : list Z) : text := (fun c => or_else c REPLACEMENT) <$> decoded bs.

(** Strict decoding: [None] is [UnicodeDecodeError]. *)
Definition decode (bs : list Z) : option text := mapM id (decoded bs).

Definition encode_one (c : Z) : list Z :=
  if c <? 0x80 then [c]
  else if c <? 0x800 then [0xC0 + c / 64; 0x80 + c mod 64]
  else if c <? 0x10000 then [0xE0 + c / 4096; 0x80 + c / 64 mod 64; 0x80 + c mod 64]
  else [0xF0 + c / 262144; 0x80 + c / 4096 mod 64; 0x80 + c / 64 mod 64; 0x80 + c mod 64].

Definition encode (t : text) : list Z := flat_map encode_one t.

Definition is_scalar (c : Z) : bool := Utf16.is_code_point c && negb ((0xD800 <=? c) && (c <? 0xE000)).

(** ** Facts *)
Lemma conts_length ok n bs : (length (conts ok n bs) <= n)%nat /\ (length (conts ok n bs) <= length bs)%nat.
Proof.
  revert ok bs. induction n as [|n IH]; intros ok [|b bs]; cbn; try lia. destruct (ok b); cbn; [|lia].
  destruct (IH is_cont bs). lia.
Qed.

Lemma decode_one_used b bs : ((decode_one b bs).2 <= length bs)%nat.
Proof. unfold decode_one. destruct (following b) as [[n bits]|]; cbn; [apply conts_length|lia]. Qed.

(** Any fuel that covers the bytes gives the same characters. *)
Lemma decode_go_fuel fuel bs : (length bs <= fuel)%nat -> decode_go fuel bs = decoded bs.
Proof.
  unfold decoded. remember (length bs) as n eqn:En. revert fuel bs En.
  induction n as [n IH] using lt_wf_ind. intros fuel bs En Hf.
  destruct bs as [|b bs]; cbn in En; subst n; [by destruct fuel|]. destruct fuel as [|fuel]; [lia|]. cbn [decode_go].
  pose proof (decode_one_used b bs). destruct (decode_one b bs) as [c k] eqn:E. cbn [snd] in H.
  assert (length (drop k bs) <= length bs)%nat by (rewrite length_drop; lia).
  f_equal. rewrite (IH (length (drop k bs)) ltac:(lia) fuel _ eq_refl ltac:(lia)).
  symmetry. apply (IH (length (drop k bs))); lia.
Qed.

Lemma decoded_cons b bs :
  decoded (b :: bs) = (decode_one b bs).1 :: decoded (drop (decode_one b bs).2 bs).
Proof.
  unfold decoded at 1. cbn [length decode_go]. destruct (decode_one b bs) as [c k] eqn:E. cbn [fst snd]. f_equal.
  apply decode_go_fuel. rewrite length_drop. lia.
Qed.

(** Reading bytes character by character. *)
Lemma decoded_ind (P : list Z -> list (option Z) -> Prop) :
  P [] [] ->
  (forall b bs, P (drop (decode_one b bs).2 bs) (decoded (drop (decode_one b bs).2 bs)) ->
     P (b :: bs) ((decode_one b bs).1 :: decoded (drop (decode_one b bs).2 bs))) ->
  forall bs, P bs (decoded bs).
Proof.
  intros Hnil Hcons bs. remember (length bs) as n eqn:En. revert bs En.
  induction n as [n IH] using lt_wf_ind. intros [|b bs] En; [exact Hnil|]. rewrite decoded_cons. apply Hcons.
  eapply IH; [|reflexivity]. subst n. rewrite length_drop. cbn. lia.
Qed.

(** What a completed sequence stands for. *)
Lemma decode_one_Some b bs c k :
  decode_one b bs = (Some c, k) ->
  is_scalar c = true /\ Z.of_nat (S k) <= 3 * Utf16.cp_units c.
Proof.
  unfold decode_one, following, is_scalar, Utf16.is_code_point, Utf16.cp_units.
  destruct ((0 <=? b) && (b <? 128)) eqn:E0; [cbn; intros [= <- <-]; destruct (65535 <? b) eqn:?; lia|].
  destruct ((194 <=? b) && (b <? 224)) eqn:E1.
  { destruct bs as [|x bs]; [done|]. cbn [conts]. unfold second_ok.
    destruct (b =? 224) eqn:?; [lia|]. destruct (b =? 237) eqn:?; [lia|]. destruct (b =? 240) eqn:?; [lia|].
    destruct (b =? 244) eqn:?; [lia|]. unfold is_cont.
    destruct ((128 <=? x) && (x <? 192)) eqn:Ex; [|done]. cbn. unfold add_bits. intros [= <- <-].
    destruct (65535 <? _) eqn:?; lia. }
  destruct ((224 <=? b) && (b <? 240)) eqn:E2.
  { destruct bs as [|x bs]; [done|]. cbn [conts]. destruct (second_ok b x) eqn:Ex; [|done].
    destruct bs as [|y bs]; [done|]. cbn [conts]. destruct (is_cont y) eqn:Ey; [|done].
    cbn. unfold add_bits, second_ok, is_cont in *. intros [= <- <-].
    destruct (b =? 224) eqn:?; [|destruct (b =? 237) eqn:?; [|destruct (b =? 240) eqn:?; [lia|destruct (b =? 244) eqn:?; [lia|]]]];
      destruct (65535 <? _) eqn:?; lia. }
  destruct ((240 <=? b) && (b <? 245)) eqn:E3; [|done].
  destruct bs as [|x bs]; [done|]. cbn [conts]. destruct (second_ok b x) eqn:Ex; [|done].
  destruct bs as [|y bs]; [done|]. cbn [conts]. destruct (is_cont y) eqn:Ey; [|done].
  destruct bs as [|z bs]; [done|]. cbn [conts]. destruct (is_cont z) eqn:Ez; [|done].
  cbn. unfold add_bits, second_ok, is_cont in *. intros [= <- <-].
  destruct (b =? 224) eqn:?; [lia|]. destruct (b =? 237) eqn:?; [lia|]. destruct (b =? 240) eqn:?;
    [|destruct (b =? 244) eqn:?]; destruct (65535 <? _) eqn:?; lia.
Qed.

Lemma decode_one_None b bs k : decode_one b bs = (None, k) -> (k <= 2)%nat.
Proof.
  unfold decode_one. destruct (following b) as [[n bits]|] eqn:E; [|intros [= <-]; lia].
  destruct (conts_length (second_ok b) n bs) as [Hn _]. destruct (_ =? _)%nat eqn:Ek; [done|]. intros [= <-].
  apply Nat.eqb_neq in Ek. enough (n <= 3)%nat by lia. revert E. unfold following.
  destruct (_ && _); [by intros [= <- _]; lia|]. destruct (_ && _); [by intros [= <- _]; lia|].
  destruct (_ && _); [by intros [= <- _]; lia|]. destruct (_ && _); [by intros [= <- _]; lia|done].
Qed.

(** A character takes at most three bytes per UTF-16 unit, a replaced sequence included. *)
Lemma decode_one_bytes b bs :
  Z.of_nat (S (decode_one b bs).2) <= 3 * Utf16.cp_units (or_else (decode_one b bs).1 REPLACEMENT).
Proof.
  destruct (decode_one b bs) as [[c|] k] eqn:E; cbn [fst snd or_else].
  - by apply decode_one_Some in E as [_ ?].
  - apply decode_one_None in E. change (Utf16.cp_units REPLACEMENT) with 1. lia.
Qed.

(** The bound behind the byte early-outs: text is at least a third as long as its bytes. *)
Lemma decode_replace_bytes bs : Z.of_nat (length bs) <= 3 * Utf16.length (decode_replace bs).
Proof.
  unfold decode_replace.
  apply (decoded_ind (fun bs cs => Z.of_nat (length bs) <= 3 * Utf16.length ((fun c => or_else c REPLACEMENT) <$> cs)));
    [done|]. clear bs. intros b bs IH. rewrite fmap_cons, Utf16.length_cons. pose proof (decode_one_bytes b bs).
  pose proof (decode_one_used b bs). rewrite length_drop in IH. cbn [length]. lia.
Qed.

Lemma decode_Some bs t : decode bs = Some t -> decoded bs = Some <$> t.
Proof. intros H. apply mapM_Some in H. induction H as [|x y l k Hxy _ IH]; [done|]. cbn. by rewrite IH, <- Hxy. Qed.

Lemma decode_replace_of_decode bs t : decode bs = Some t -> decode_replace bs = t.
Proof.
  intros H%decode_Some. unfold decode_replace. rewrite H, <- list_fmap_compose. by rewrite list_fmap_id.
Qed.

Lemma decode_bytes bs t : decode bs = Some t -> Z.of_nat (length bs) <= 3 * Utf16.length t.
Proof. intros <-%decode_replace_of_decode. apply decode_replace_bytes. Qed.

(** Decoded text is made of scalar values: it can be encoded again. *)
Lemma decode_replace_scalar bs : Forall (fun c => is_scalar c = true) (decode_replace bs).
Proof.
  unfold decode_replace. apply (decoded_ind (fun _ cs => Forall (fun c => is_scalar c = true) ((fun c => or_else c REPLACEMENT) <$> cs)));
    [constructor|]. clear bs. intros b bs IH. rewrite fmap_cons. constructor; [|done].
  destruct (decode_one b bs) as [[c|] k] eqn:E; [by apply decode_one_Some in E as [? _]|done].
Qed.

Lemma is_cont_six r : 0 <= r < 64 -> is_cont (128 + r) = true.
Proof. unfold is_cont. lia. Qed.

Lemma second_ok_plain q b : 2 <= q < 32 -> second_ok (192 + q) b = is_cont b.
Proof.
  intros H. unfold second_ok. rewrite (proj2 (Z.eqb_neq _ 0xE0)), (proj2 (Z.eqb_neq _ 0xED)), (proj2 (Z.eqb_neq _ 0xF0)),
    (proj2 (Z.eqb_neq _ 0xF4)) by lia. done.
Qed.

Lemma second_ok_three q r :
  0 <= q < 16 -> 0 <= r < 64 -> (q = 0 -> 32 <= r) -> (q = 13 -> r < 32) -> second_ok (224 + q) (128 + r) = true.
Proof.
  intros Hq Hr H0 H1. unfold second_ok, is_cont. destruct (Z.eqb_spec (224 + q) 0xE0); [lia|].
  destruct (Z.eqb_spec (224 + q) 0xED); [lia|]. destruct (Z.eqb_spec (224 + q) 0xF0); [lia|].
  destruct (Z.eqb_spec (224 + q) 0xF4); lia.
Qed.

Lemma second_ok_four q r :
  0 <= q < 5 -> 0 <= r < 64 -> (q = 0 -> 16 <= r) -> (q = 4 -> r < 16) -> second_ok (240 + q) (128 + r) = true.
Proof.
  intros Hq Hr H0 H1. unfold second_ok, is_cont. destruct (Z.eqb_spec (240 + q) 0xE0); [lia|].
  destruct (Z.eqb_spec (240 + q) 0xED); [lia|]. destruct (Z.eqb_spec (240 + q) 0xF0); [lia|].
  destruct (Z.eqb_spec (240 + q) 0xF4); lia.
Qed.

Lemma decode_one_encode c rest b bs :
  is_scalar c = true -> encode_one c = b :: bs -> decode_one b (bs ++ rest) = (Some c, length bs).
Proof.
  unfold is_scalar, Utf16.is_code_point, encode_one. intros Hc0.
  assert (0 <= c <= 1114111 /\ (c < 55296 \/ 57344 <= c)) as Hc by lia. clear Hc0.
  replace (c / 262144) with (c / 64 / 64 / 64) by (rewrite !Z.div_div by lia; done).
  replace (c / 4096) with (c / 64 / 64) by (rewrite Z.div_div by lia; done).
  pose proof (Z.div_mod c 64 ltac:(lia)) as D0. pose proof (Z.mod_pos_bound c 64 ltac:(lia)) as M0.
  remember (c / 64) as q0 eqn:E0. remember (c mod 64) as r0 eqn:F0. clear E0 F0.
  pose proof (Z.div_mod q0 64 ltac:(lia)) as D1. pose proof (Z.mod_pos_bound q0 64 ltac:(lia)) as M1.
  remember (q0 / 64) as q1 eqn:E0. remember (q0 mod 64) as r1 eqn:F0. clear E0 F0.
  pose proof (Z.div_mod q1 64 ltac:(lia)) as D2. pose proof (Z.mod_pos_bound q1 64 ltac:(lia)) as M2.
  remember (q1 / 64) as q2 eqn:E0. remember (q1 mod 64) as r2 eqn:F0. clear E0 F0.
  destruct (c <? 128) eqn:E1; [|destruct (c <? 2048) eqn:E2; [|destruct (c <? 65536) eqn:E3]]; intros [= <- <-];
    unfold decode_one, following; cbn [app].
  - rewrite (proj2 (andb_true_iff _ _)) by lia. done.
  - rewrite (proj2 (andb_false_iff (0 <=? _) _)), (proj2 (andb_true_iff (194 <=? _) _)) by lia. cbn [conts].
    rewrite second_ok_plain, is_cont_six by lia. cbn. unfold add_bits. do 2 f_equal. lia.
  - rewrite (proj2 (andb_false_iff (0 <=? _) _)), (proj2 (andb_false_iff (194 <=? _) _)), (proj2 (andb_true_iff (224 <=? _) _)) by lia.
    cbn [conts]. rewrite (second_ok_three q1 r1), is_cont_six by lia. cbn. unfold add_bits. do 2 f_equal. lia.
  - rewrite (proj2 (andb_false_iff (0 <=? _) _)), (proj2 (andb_false_iff (194 <=? _) _)), (proj2 (andb_false_iff (224 <=? _) _)),
      (proj2 (andb_true_iff (240 <=? _) _)) by lia.
    cbn [conts]. rewrite (second_ok_four q2 r2), !is_cont_six by lia. cbn. unfold add_bits. do 2 f_equal. lia.
Qed.

Lemma encode_one_cons c : exists b bs, encode_one c = b :: bs.
Proof. unfold encode_one. repeat destruct (_ <? _); eauto. Qed.

(** Text made of scalar values survives a file. *)
Lemma decoded_encode t : Forall (fun c => is_scalar c = true) t -> decoded (encode t) = Some <$> t.
Proof.
  induction 1 as [|c t Hc _ IH]; [done|]. unfold encode. cbn [flat_map]. fold (encode t).
  destruct (encode_one_cons c) as (b & bs & E). rewrite E. cbn [app]. rewrite decoded_cons.
  rewrite (decode_one_encode c _ b bs Hc E). cbn [fst snd]. rewrite drop_app_length, IH. done.
Qed.

Lemma decode_encode t : Forall (fun c => is_scalar c = true) t -> decode (encode t) = Some t.
Proof. intros H. unfold decode. rewrite decoded_encode by done. clear H. induction t as [|c t IH]; [done|]. cbn. by rewrite IH. Qed.
