(* ===== verification/Paths.v ===== *)
(** * Paths and the workspace

    What the program uses of [pathlib] on a POSIX system, as pure functions on path texts, and the
    operations of the file system the tools that read the workspace rely on, as a record of functions:
    a file system is not code of the repository.  An absolute path is the list of its components. *)
From S2P Require Import Prelude PyStrings.
Open Scope Z_scope.

Abbreviation Path := (list (list Z)).

Definition SLASH : Z := 47.

(** The components of a path text: empty ones and [.] are dropped, [..] is kept. *)
Definition components (t : text) : Path :=
  List.filter (fun c => negb (bool_decide (c = []) || bool_decide (c = u "."))) (split_char SLASH t).

Definition is_absolute (t : text) : bool := bool_decide (head t = Some SLASH).

(** [root / t]: an absolute [t] replaces the root. *)
Definition join_path (root : Path) (t : text) : Path := if is_absolute t then components t else root ++ components t.

(** [path.name]. *)
Definition path_name (p : Path) : text := or_else (last p) [].

(** [Path(t).name]. *)
Definition name_of_text (t : text) : text := path_name (components t).

Fixpoint is_relative_to (p root : Path) {struct root} : bool :=
  match root, p with
  | [], _ => true
  | r :: root', c :: p' => bool_decide (r = c) && is_relative_to p' root'
  | _ :: _, [] => false
  end.

(** [p.relative_to(root)] for a path under the root. *)
Definition relative_to (p root : Path) : Path := drop (length root) p.

(** [as_posix()] of a relative path, and [str] of an absolute one. *)
Definition as_posix (p : Path) : text := match p with [] => u "." | _ => join (u "/") p end.
Definition path_text (p : Path) : text := u "/" ++ join (u "/") p.

(** ** The file system *)
Inductive Stat :=
| Missing                                  (* [FileNotFoundError] *)
| StatFails (reason : text)                (* another [OSError], with its text *)
| Stats (size : Z) (regular : bool).

(** What [Path.walk] sees of a directory, links not followed: directories by name ([None] where the
    scan fails) and every other name. *)
Inductive Tree := Dir (directories : list (text * option Tree)) (files : list text).

(** The operations, at one moment.  [resolve] is [Path.resolve] ([None] for its [ValueError] on a path
    the operating system cannot take); [listing] is [iterdir] ([None] for an [OSError]). *)
Record World := {
  cwd : Path;
  resolve : Path -> option Path;
  stat : Path -> Stat;
  read_bytes : Path -> result text (list Z);
  exists_ : Path -> bool;
  is_file : Path -> bool;
  is_dir : Path -> bool;
  listing : Path -> option (list text);
  walk_tree : Path -> option Tree }.

(** A file the world gives the same size and bytes of, read as UTF-8 or not. *)
Definition settled (w : World) (p : Path) : Prop :=
  forall size regular data, stat w p = Stats size regular -> read_bytes w p = Ok data -> size = Z.of_nat (length data).

(** ** Facts *)
Lemma is_relative_to_spec p root : is_relative_to p root = true <-> exists rest, p = root ++ rest.
Proof.
  revert p. induction root as [|r root IH]; intros p; cbn [is_relative_to app].
  - split; [intros _; by exists p|intros _; reflexivity].
  - destruct p as [|c p]; [split; [discriminate|intros (rest & H); discriminate H]|].
    rewrite andb_true_iff, bool_decide_eq_true, IH. split.
    + intros [-> [rest ->]]. by exists rest.
    + intros (rest & [= -> ->]). split; [done|by exists rest].
Qed.

Lemma relative_to_app root rest : relative_to (root ++ rest) root = rest.
Proof. unfold relative_to. by rewrite drop_app_length. Qed.

(** ** A world of regular files

    A concrete world for the samples: no links, nothing unreadable.  A path's [..] removes the component
    before it; a NUL cannot be resolved. *)
Section Files.
Context (root : Path) (files : list (Path * list Z)).

Definition lexical (p : Path) : Path :=
  rev (fold_left (fun acc c => if bool_decide (c = u "..") then tail acc else c :: acc) p []).

Definition file_bytes (p : Path) : option (list Z) := snd <$> List.find (fun f => bool_decide (f.1 = p)) files.
Definition below (p : Path) : list Path := omap (fun f => if is_relative_to f.1 p then Some (relative_to f.1 p) else None) files.
Definition names_of (p : Path) : list text := remove_dups (omap head (below p)).
Definition is_directory (p : Path) : bool := is_none (file_bytes p) && negb (bool_decide (below p = [])).

Fixpoint tree_of (fuel : nat) (p : Path) : option Tree :=
  match fuel with
  | O => None
  | S fuel' =>
    Some (Dir ((fun n => (n, tree_of fuel' (p ++ [n]))) <$> List.filter (fun n => is_directory (p ++ [n])) (names_of p))
              (List.filter (fun n => negb (is_directory (p ++ [n]))) (names_of p)))
  end.

Definition files_world : World :=
  {| cwd := root;
     resolve := fun p => if existsb (mem 0) p then None else Some (lexical p);
     stat := fun p => match file_bytes p with
                      | Some data => Stats (Z.of_nat (length data)) true
                      | None => if is_directory p then Stats 0 false else Missing
                      end;
     read_bytes := fun p => match file_bytes p with Some data => Ok data | None => Raise (u "Is a directory") end;
     exists_ := fun p => negb (is_none (file_bytes p)) || is_directory p;
     is_file := fun p => negb (is_none (file_bytes p));
     is_dir := is_directory;
     listing := fun p => if is_directory p then Some (names_of p) else None;
     walk_tree := fun p => if is_directory p then tree_of 8 p else None |}.

Lemma files_world_settled p : settled files_world p.
Proof.
  intros size regular data. cbn [stat read_bytes files_world]. destruct (file_bytes p) as [d|]; [|done].
  by intros [= <- _] [= <-].
Qed.
End Files.

Definition sample_world : World :=
  files_world [u "srv"]
    [([u "srv"; u "notes.txt"], u "hi"); ([u "srv"; u ".env"], u "TOKEN=1"); ([u "srv"; u "app"; u "main.py"], u "x = 1");
     ([u "srv"; u "app"; u "empty.py"], []); ([u "srv"; u "node_modules"; u "dep.js"], u "1"); ([u "etc"; u "passwd"], u "root")].

Lemma sample_settled p : settled sample_world p.
Proof. apply files_world_settled. Qed.
