(* ===== verification/FileState.v ===== *)
(** * Reading files as state

    Models [tools/file_state.py]: the secret-store test, the path scope, and the guarded read that
    turns a file into redacted state or a typed refusal. *)
From S2P Require Import Prelude Float64 Text Limits Json Serialize Caps Runtime PyStrings Paths Utf8 Regex Credential.
Open Scope Z_scope.

Definition REFUSAL_CODES : list text :=
  [u "not_found"; u "not_a_file"; u "binary_file"; u "secret_file"; u "file_too_large"; u "path_outside_scope"].

Definition SECRET_EXACT : list text :=
  [u ".npmrc"; u ".pypirc"; u ".netrc"; u "id_rsa"; u "id_ed25519"; u "id_ecdsa"].
Definition SECRET_EXTENSIONS : list text := [u ".env"; u ".pem"; u ".key"; u ".p12"; u ".pfx"].
Definition SECRET_ENV_STANDINS : list text := [u ".env.example"; u ".env.sample"; u ".env.template"].

(** The two caps a read uses, from the caps of the tool that reads. *)
Record ReadCaps := { file_units_max : Z; binary_sniff_bytes : Z }.
Definition FILE_JUDGE_READ : ReadCaps :=
  {| file_units_max := fj_file_units_max FILE_JUDGE; binary_sniff_bytes := fj_binary_sniff_bytes FILE_JUDGE |}.
Definition FILES_JUDGE_READ : ReadCaps :=
  {| file_units_max := fsj_file_units_max FILES_JUDGE; binary_sniff_bytes := fsj_binary_sniff_bytes FILES_JUDGE |}.

(** [refuse]. *)
Definition refuse {A} (code message : text) : result exn A :=
  if mem code REFUSAL_CODES then Raise (ToolError message code)
  else Raise (OtherError (u "not a file-state refusal")).

Section FileState.
Context {U : Unicode}.

(** The detector and the redactor of written code, with Python's character tables. *)
Definition redact_literals : text -> text := redact_credential_literals uni_word uni_islower uni_isupper uni_isdigit.

(** [is_secret_store], on the name of a path. *)
Definition is_secret_name (path_name : text) : bool :=
  let name := uni_lower path_name in
  if mem name SECRET_EXACT then true
  else if existsb (fun e => ends_with e name) SECRET_EXTENSIONS then true
  else starts_with (u ".env.") name && negb (mem name SECRET_ENV_STANDINS).

Definition is_secret_store (p : Path) : bool := is_secret_name (path_name p).

(** [resolve_scoped(path, scope)]; the root is resolved.  [OtherError] is [resolve]'s [ValueError]. *)
Definition resolve_scoped (w : World) (root : Path) (path : text) : result exn Path :=
  match resolve w (join_path root path) with
  | None => Raise (OtherError (u "embedded null byte"))
  | Some resolved =>
    if is_relative_to resolved root then Ok resolved
    else refuse (u "path_outside_scope") (u "path resolves outside the server's working directory: " ++ path)
  end.

Definition too_large (caps : ReadCaps) (p : Path) : text :=
  u "file exceeds the " ++ grouped (file_units_max caps) ++ u "-unit state cap: " ++ path_text p.

Definition unreadable (p : Path) (reason : text) : text :=
  u "path is not a readable file: " ++ path_text p ++ u " (" ++ reason ++ u ")".

(** [b"\x00" in data[:n]]. *)
Definition looks_binary (caps : ReadCaps) (data : list Z) : bool := mem 0 (take (Z.to_nat (binary_sniff_bytes caps)) data).

Definition read_state (w : World) (p : Path) (caps : ReadCaps) : result exn text :=
  if is_secret_store p
  then refuse (u "secret_file") (path_name p ++ u " is a known secret store and is never read")
  else
    match stat w p with
    | Missing => refuse (u "not_found") (u "file not found: " ++ path_text p)
    | StatFails reason => refuse (u "not_a_file") (unreadable p reason)
    | Stats size regular =>
      if negb regular then refuse (u "not_a_file") (u "path is not a regular file: " ++ path_text p)
      else if 4 * file_units_max caps <? size then refuse (u "file_too_large") (too_large caps p)
      else
        match read_bytes w p with
        | Raise reason => refuse (u "not_a_file") (unreadable p reason)
        | Ok data =>
          if looks_binary caps data
          then refuse (u "binary_file")
                 (u "file looks binary (NUL byte in the first " ++ str_of_Z (binary_sniff_bytes caps) ++ u " bytes): "
                  ++ path_text p)
          else
            let content := decode_replace data in
            if file_units_max caps <? Utf16.length content then refuse (u "file_too_large") (too_large caps p)
            else Ok (redact_literals content)
        end
    end.

(** What may be read as state. *)
Record readable (w : World) (caps : ReadCaps) (p : Path) (data : list Z) : Prop := {
  readable_public : is_secret_store p = false;
  readable_regular : exists size, stat w p = Stats size true;
  readable_bytes : read_bytes w p = Ok data;
  readable_text : looks_binary caps data = false;
  readable_fits : Utf16.length (decode_replace data) <= file_units_max caps }.

(** What each refusal says of the file. *)
Inductive refused (w : World) (caps : ReadCaps) (p : Path) : text -> Prop :=
| refused_secret : is_secret_store p = true -> refused w caps p (u "secret_file")
| refused_missing : stat w p = Missing -> refused w caps p (u "not_found")
| refused_stat reason : stat w p = StatFails reason -> refused w caps p (u "not_a_file")
| refused_kind size : stat w p = Stats size false -> refused w caps p (u "not_a_file")
| refused_read reason : read_bytes w p = Raise reason -> refused w caps p (u "not_a_file")
| refused_binary data :
    read_bytes w p = Ok data -> looks_binary caps data = true -> refused w caps p (u "binary_file")
| refused_size :
    (forall data, read_bytes w p = Ok data -> file_units_max caps < Utf16.length (decode_replace data)) ->
    refused w caps p (u "file_too_large").

(** ** Facts *)
Lemma refuse_known {A} code message : mem code REFUSAL_CODES = true -> @refuse A code message = Raise (ToolError message code).
Proof. unfold refuse. by intros ->. Qed.

Lemma resolve_scoped_Ok w root path p :
  resolve_scoped w root path = Ok p -> resolve w (join_path root path) = Some p /\ exists rest, p = root ++ rest.
Proof.
  unfold resolve_scoped. destruct (resolve w _) as [q|] eqn:E; [|done]. rewrite refuse_known by done.
  destruct (is_relative_to q root) eqn:Er; [|done]. intros [= <-]. split; [done|]. by apply is_relative_to_spec.
Qed.

Lemma resolve_scoped_Raise w root path e :
  resolve_scoped w root path = Raise e ->
  (resolve w (join_path root path) = None /\ e = OtherError (u "embedded null byte")) \/
  exists q message, resolve w (join_path root path) = Some q /\ is_relative_to q root = false /\
    e = ToolError message (u "path_outside_scope").
Proof.
  unfold resolve_scoped. destruct (resolve w _) as [q|] eqn:E; [|intros [= <-]; by left]. rewrite refuse_known by done.
  destruct (is_relative_to q root) eqn:Er; [done|]. intros [= <-]. right. eauto.
Qed.

Ltac refuse_as := solve [do 2 eexists; split; [reflexivity|]; econstructor; eassumption].

(** The byte early-out refuses nothing that would fit. *)
Lemma early_out caps data :
  4 * file_units_max caps < Z.of_nat (length data) -> 0 <= file_units_max caps ->
  file_units_max caps < Utf16.length (decode_replace data).
Proof. pose proof (decode_replace_bytes data). lia. Qed.

Lemma read_state_cases w p caps :
  settled w p -> 0 <= file_units_max caps ->
  match read_state w p caps with
  | Ok t => exists data, readable w caps p data /\ t = redact_literals (decode_replace data)
  | Raise e => exists message code, e = ToolError message code /\ refused w caps p code
  end.
Proof.
  intros Hs Hcap. unfold read_state. rewrite !refuse_known by done.
  destruct (is_secret_store p) eqn:Esec; [refuse_as|].
  destruct (stat w p) as [|reason|size regular] eqn:Est; [refuse_as..|].
  destruct regular; cbn [negb]; [|refuse_as].
  destruct (4 * file_units_max caps <? size) eqn:Esz.
  { do 2 eexists. split; [reflexivity|]. apply refused_size. intros data Hd. apply early_out; [|done].
    rewrite <- (Hs _ _ _ Est Hd). by apply Z.ltb_lt in Esz. }
  destruct (read_bytes w p) as [data|reason] eqn:Er; [|refuse_as].
  destruct (looks_binary caps data) eqn:Eb; [refuse_as|].
  destruct (file_units_max caps <? _) eqn:Eu.
  - do 2 eexists. split; [reflexivity|]. apply refused_size. intros d Hd. rewrite Er in Hd. injection Hd as <-. lia.
  - exists data. split; [|done]. constructor; eauto. lia.
Qed.

(** C32 A file becomes state only through the guard: what is returned is the redacted text of a
    regular file whose name is no secret store's, with no NUL in the sniffed window and within the
    unit cap, and every such file is returned (the byte early-out never refuses one); any other path
    is a typed refusal whose code is true of it, and a secret store is refused whatever the file
    system holds. *)
Theorem read_state_guarded w p caps :
  settled w p -> 0 <= file_units_max caps ->
  (forall t, read_state w p caps = Ok t <->
     exists data, readable w caps p data /\ t = redact_literals (decode_replace data)) /\
  (forall e, read_state w p caps = Raise e ->
     exists message code, e = ToolError message code /\ mem code REFUSAL_CODES = true /\ refused w caps p code) /\
  (is_secret_store p = true -> forall w', read_state w' p caps = read_state w p caps).
Proof.
  intros Hs Hcap. pose proof (read_state_cases w p caps Hs Hcap) as H. split_and!.
  - intros t. split; [intros Hr; by rewrite Hr in H|]. intros (data & [H1 [size H2] H3 H4 H5] & ->).
    unfold read_state. rewrite H1, H2, H3, H4. cbn [negb].
    rewrite (proj2 (Z.ltb_ge (4 * _) _)), (proj2 (Z.ltb_ge (file_units_max caps) _)); [done|done|].
    rewrite (Hs _ _ _ H2 H3). pose proof (decode_replace_bytes data). lia.
  - intros e Hr. rewrite Hr in H. destruct H as (message & code & -> & Hc). exists message, code.
    split_and!; [done| |done]. by destruct Hc.
  - intros Hsec w'. unfold read_state. by rewrite Hsec.
Qed.
End FileState.

Lemma read_state_guarded_witness :
  read_state (U := ascii_unicode) sample_world (u "srv" :: [u "notes.txt"]) FILE_JUDGE_READ = Ok (u "hi").
Proof.
  apply (proj1 (read_state_guarded (U := ascii_unicode) sample_world (u "srv" :: [u "notes.txt"]) FILE_JUDGE_READ
    (sample_settled _) ltac:(vm_compute; discriminate))).
  exists (u "hi"). split; [|vm_compute; reflexivity].
  constructor; [vm_compute; reflexivity|exists 2; vm_compute; reflexivity|vm_compute; reflexivity..|vm_compute; discriminate].
Defined.

(** The names that are never read, whatever their case, and the checked-in stand-in that is. *)
Example secret_names :
  (is_secret_name (U := ascii_unicode) <$> [u ".env"; u "Prod.ENV"; u ".env.local"; u "id_rsa"; u "server.PEM"]) =
    [true; true; true; true; true] /\
  (is_secret_name (U := ascii_unicode) <$> [u ".env.example"; u "environment.py"; u "key.txt"]) = [false; false; false].
Proof. split; vm_compute; reflexivity. Qed.
