(* ===== verification/FileJudge.v ===== *)
(** * jev_file_judge

    Models [tools/file_judge.py]: the one typed question with its criteria checked against its kind, the
    fail-closed projection of its answer, and the handler that reads a file as state. *)
From S2P Require Import Prelude Float64 Text Limits Json Serialize Domain Validation Runtime Samples PyStrings Paths Utf8 FileState.
From S2P Require Score.
Open Scope Z_scope.

Inductive Kind := Noul | Choice | ScoreKind.
#[export] Instance Kind_eq_dec : EqDecision Kind.
Proof. solve_decision. Defined.

Definition kind_text (k : Kind) : text :=
  match k with Noul => u "noul" | Choice => u "choice" | ScoreKind => u "score" end.
Definition KINDS : list text := [u "noul"; u "choice"; u "score"].
Definition kind_of (t : text) : option Kind :=
  if bool_decide (t = u "noul") then Some Noul
  else if bool_decide (t = u "choice") then Some Choice
  else if bool_decide (t = u "score") then Some ScoreKind else None.

Definition QUESTION_ID : text := u "file".
Definition INVALID : text := u "invalid_response".

(** The [ToolError] of a question that is not well formed. *)
Definition invalid {A} (message : text) : result exn A := Raise (ToolError message (u "invalid_arguments")).

(** [build_question] for each kind.  Its last branch, for another kind, is not reached: the schema's
    refinement and jev_ask both check membership first. *)
Definition score_question (instructions : text) (criteria : value) : result exn Question :=
  match criteria with
  | VList l =>
    match mapM as_str l with
    | Some levels =>
      let n := Z.of_nat (length levels) in
      if negb ((fj_score_levels_min FILE_JUDGE <=? n) && (n <=? fj_score_levels_max FILE_JUDGE))
      then invalid (u "score criteria needs " ++ str_of_Z (fj_score_levels_min FILE_JUDGE) ++ u "-"
                    ++ str_of_Z (fj_score_levels_max FILE_JUDGE) ++ u " levels, got " ++ str_of_Z n ++ u ".")
      else if existsb (fun l => bool_decide (l = []) || (fj_score_level_units_max FILE_JUDGE <? Utf16.length l)) levels
      then invalid (u "each score level is a description of at most " ++ str_of_Z (fj_score_level_units_max FILE_JUDGE)
                    ++ u " units.")
      else
        match new_score_question (VStr instructions) (VStr <$> levels) with
        | Ok q => Ok (QScore q)
        | Raise _ => Raise (OtherError (u "Score criteria must list at least two levels."))
        end
    | None => invalid (u "criteria for kind score is the ordered array of " ++ str_of_Z (fj_score_levels_min FILE_JUDGE)
                       ++ u "-" ++ str_of_Z (fj_score_levels_max FILE_JUDGE)
                       ++ u " level strings; send an array, not an object.")
    end
  | _ => invalid (u "criteria for kind score is the ordered array of " ++ str_of_Z (fj_score_levels_min FILE_JUDGE)
                  ++ u "-" ++ str_of_Z (fj_score_levels_max FILE_JUDGE)
                  ++ u " level strings; send an array, not an object.")
  end.

(** A description under the cap; [null] and an absent key are both no description. *)
Definition noul_description (key : text) (entries : dict value) : result exn value :=
  let too_long := u "noul criteria `" ++ key ++ u "` must be a description of at most "
                  ++ grouped (fj_instructions_units_max FILE_JUDGE) ++ u " units." in
  match get key entries with
  | VNone => Ok VNone
  | VStr t => if fj_instructions_units_max FILE_JUDGE <? Utf16.length t then invalid too_long else Ok (VStr t)
  | _ => invalid too_long
  end.

Definition noul_kind_question (instructions : text) (entries : dict value) : result exn Question :=
  let unknown := stable_sort text_ltb (List.filter (fun k => negb (mem k [u "true"; u "false"])) (dkeys entries)) in
  match unknown with
  | _ :: _ => invalid (u "noul criteria knows only the keys `true` and `false`, got: " ++ join (u ", ") unknown)
  | [] =>
    let? t := noul_description (u "true") entries in
    let? f := noul_description (u "false") entries in
    Ok (noul_question instructions {| nc_true := t; nc_false := f |})
  end.

Definition choice_option_ok (v : value) : bool :=
  match v with VStr t => Utf16.length t <=? fj_choice_option_units_max FILE_JUDGE | _ => false end.

Definition choice_kind_question (instructions : text) (entries : dict value) : result exn Question :=
  let n := Z.of_nat (length entries) in
  if negb ((fj_choice_options_min FILE_JUDGE <=? n) && (n <=? fj_choice_options_max FILE_JUDGE))
  then invalid (u "choice criteria needs " ++ str_of_Z (fj_choice_options_min FILE_JUDGE) ++ u "-"
                ++ str_of_Z (fj_choice_options_max FILE_JUDGE) ++ u " options, got " ++ str_of_Z n ++ u ".")
  else
    match List.find (fun kv => negb (choice_option_ok kv.2)) entries with
    | Some (option, _) =>
      invalid (u "choice criteria `" ++ option ++ u "` must be a description of at most "
               ++ grouped (fj_choice_option_units_max FILE_JUDGE) ++ u " units.")
    | None => Ok (choice_question instructions entries)
    end.

Definition criteria_shape (k : Kind) : text :=
  match k with
  | Noul => u "an object with optional `true` and `false` keys"
  | _ => u "an object of {option: description} entries"
  end.

Definition build_question (k : Kind) (instructions : text) (criteria : value) : result exn Question :=
  match k, criteria with
  | ScoreKind, _ => score_question instructions criteria
  | Noul, VDict entries => noul_kind_question instructions entries
  | Choice, VDict entries => choice_kind_question instructions entries
  | _, _ => invalid (u "criteria for kind " ++ kind_text k ++ u " is " ++ criteria_shape k
                     ++ u "; send an object, not an array.")
  end.

(** The choice options, or the score levels. *)
Definition expected_of (q : Question) : list text :=
  match q with
  | QChoice q => dkeys (cq_criteria q)
  | QScore q => omap as_str (sq_criteria q)
  | QNoul _ => []
  end.

(** [project_answer]: the typed answer and its status. *)
Definition project_answer (k : Kind) (answer : value) (expected : list text) : dict value * text :=
  match k with
  | Noul =>
    let value := validate_noul answer in
    ([(u "noul", opt_float value)], if is_none value then INVALID else u "ok")
  | Choice =>
    match validate_choice answer expected with
    | None => ([(u "choice", VNone); (u "probabilities", VNone); (u "confidence", VNone)], INVALID)
    | Some a =>
      ([(u "choice", VStr (choice a)); (u "probabilities", probs_value (probabilities a));
        (u "confidence", opt_float (confidence a))], u "ok")
    end
  | ScoreKind =>
    match validate_rubric_answer answer (length expected) with
    | None =>
      ([(u "score", VNone); (u "nearest_level", VNone); (u "probabilities", VNone); (u "confidence", VNone)], INVALID)
    | Some a =>
      ([(u "score", VFloat (rubric_score a)); (u "nearest_level", vnum (Score.nearest_index (rubric_score a) (length expected)));
        (u "probabilities", probs_value (rubric_probabilities a)); (u "confidence", opt_float (rubric_confidence a))], u "ok")
    end
  end.

Record Args := { arg_path : text; arg_kind : Kind; arg_instructions : text; arg_criteria : value }.

Definition state_of (path content : text) : value := VDict [(u "path", VStr path); (u "content", VStr content)].

Definition reply (args : Args) (question : Question) (evaluation : Evaluation) : ToolResult :=
  let '(answer, status) :=
    project_answer (arg_kind args) (get QUESTION_ID (answers evaluation)) (expected_of question) in
  tool_result (frame (u "jev_file_judge") (Some evaluation)
    [(u "path", VStr (arg_path args)); (u "kind", VStr (kind_text (arg_kind args))); (u "answer", VDict answer);
     (u "status", VStr status)] None).

Section FileJudge.
Context {U : Unicode} (w : World).

Definition handle (args : Args) (rt : Runtime) : M ToolResult :=
  let! question := mlift (build_question (arg_kind args) (arg_instructions args) (arg_criteria args)) in
  let! path := mlift (resolve_scoped w (cwd w) (arg_path args)) in
  let! content := mlift (read_state w path FILE_JUDGE_READ) in
  let! evaluation := ask rt (state_of (arg_path args) content) [(QUESTION_ID, question)] in
  mret (reply args question evaluation).
End FileJudge.

(** ** The question a call may ask *)
Definition short_text (cap : Z) (t : text) : Prop := Utf16.length t <= cap.

(** An optional description of the yes/no criteria. *)
Definition described (v : value) : Prop :=
  v = VNone \/ exists t, v = VStr t /\ short_text (fj_instructions_units_max FILE_JUDGE) t.

(** Criteria that fit a kind, and the question they make: the caller's texts, unchanged. *)
Inductive well_formed (instructions : text) : Kind -> value -> Question -> Prop :=
| wf_noul entries :
    (forall k, k ∈ dkeys entries -> k = u "true" \/ k = u "false") ->
    described (get (u "true") entries) -> described (get (u "false") entries) ->
    well_formed instructions Noul (VDict entries)
      (noul_question instructions {| nc_true := get (u "true") entries; nc_false := get (u "false") entries |})
| wf_choice entries :
    fj_choice_options_min FILE_JUDGE <= Z.of_nat (length entries) <= fj_choice_options_max FILE_JUDGE ->
    Forall (fun kv => exists t, kv.2 = VStr t /\ short_text (fj_choice_option_units_max FILE_JUDGE) t) entries ->
    well_formed instructions Choice (VDict entries) (choice_question instructions entries)
| wf_score levels :
    fj_score_levels_min FILE_JUDGE <= Z.of_nat (length levels) <= fj_score_levels_max FILE_JUDGE ->
    Forall (fun l => l <> [] /\ short_text (fj_score_level_units_max FILE_JUDGE) l) levels ->
    well_formed instructions ScoreKind (VList (VStr <$> levels))
      (QScore {| sq_instructions := VStr instructions; sq_criteria := VStr <$> levels |}).

(** ** Facts *)
Lemma mapM_as_str l levels : mapM as_str l = Some levels <-> l = VStr <$> levels.
Proof.
  rewrite mapM_Some. split.
  - induction 1 as [|v t l levels Hv _ IH]; [done|]. rewrite fmap_cons, <- IH. f_equal.
    destruct v; cbn in Hv; congruence.
  - intros ->. induction levels; constructor; done.
Qed.

Lemma in_range_spec lo hi n : negb ((lo <=? n) && (n <=? hi)) = false <-> lo <= n <= hi.
Proof. lia. Qed.

Lemma two_levels n : fj_score_levels_min FILE_JUDGE <= Z.of_nat n -> (n <? 2)%nat = false.
Proof. change (fj_score_levels_min FILE_JUDGE) with 2. intros H. apply Nat.ltb_ge. lia. Qed.

Lemma score_question_iff i c q : score_question i c = Ok q <-> well_formed i ScoreKind c q.
Proof.
  unfold score_question. split.
  - destruct c as [| | | | |l|]; try done. destruct (mapM as_str l) as [levels|] eqn:El; [|done].
    apply mapM_as_str in El as ->.
    destruct (negb _) eqn:En; [done|]. apply in_range_spec in En.
    destruct (existsb _ levels) eqn:Ex; [done|]. unfold new_score_question. rewrite length_fmap.
    destruct (length levels <? 2)%nat; [done|]. intros [= <-]. constructor; [done|].
    apply Forall_forall. intros l Hl. apply list_elem_of_In in Hl. unfold short_text.
    destruct (bool_decide (l = []) || (fj_score_level_units_max FILE_JUDGE <? Utf16.length l)) eqn:E.
    + exfalso. apply not_true_iff_false in Ex. apply Ex, existsb_exists. eauto.
    + apply orb_false_iff in E as [E1 E2]. apply bool_decide_eq_false in E1. split; [done|lia].
  - inversion 1 as [| |levels Hn Hf]; subst. rewrite (proj2 (mapM_as_str _ levels) eq_refl).
    rewrite (proj2 (in_range_spec _ _ _) Hn). destruct (existsb _ levels) eqn:Ex.
    { apply existsb_exists in Ex as (l & Hl & E). apply list_elem_of_In in Hl. eapply Forall_forall in Hf; [|exact Hl].
      destruct Hf as [Hne Hs]. rewrite bool_decide_eq_false_2 in E by done. unfold short_text in Hs. cbn [orb] in E. lia. }
    unfold new_score_question. by rewrite length_fmap, two_levels by apply Hn.
Qed.

Lemma noul_description_iff key entries v :
  noul_description key entries = Ok v <-> v = get key entries /\ described (get key entries).
Proof.
  unfold noul_description, described, short_text. destruct (get key entries) as [| | | |t| |];
    try (split; [done|intros (? & [|(? & ? & ?)]); done]).
  - split; [intros [= <-]; split; [done|by left]|by intros [-> _]].
  - destruct (_ <? _) eqn:E; (split; [|intros (-> & [|(t' & [= <-] & H)]); done || lia]); [done|].
    intros [= <-]. split; [done|]. right. eexists. split; [done|lia].
Qed.

Lemma noul_question_iff i entries q : noul_kind_question i entries = Ok q <-> well_formed i Noul (VDict entries) q.
Proof.
  unfold noul_kind_question. set (P := fun k => negb (mem k [u "true"; u "false"])).
  assert (stable_sort text_ltb (List.filter P (dkeys entries)) = [] <->
          (forall k, k ∈ dkeys entries -> k = u "true" \/ k = u "false")) as Hun.
  { split.
    - intros H k Hk. destruct (P k) eqn:E.
      + assert (k ∈ stable_sort text_ltb (List.filter P (dkeys entries))) as Hin.
        { rewrite stable_sort_perm, list_elem_of_In. apply filter_In. by rewrite <- list_elem_of_In. }
        rewrite H in Hin. by apply elem_of_nil in Hin.
      + unfold P in E. apply negb_false_iff, mem_spec in E. rewrite !elem_of_cons in E.
        destruct E as [|[|E%elem_of_nil]]; [by left|by right|done].
    - intros H. destruct (stable_sort _ _) as [|k l] eqn:E; [done|]. exfalso.
      assert (k ∈ List.filter P (dkeys entries)) as Hin by (rewrite <- (stable_sort_perm text_ltb), E; left).
      apply list_elem_of_In, filter_In in Hin as [Hk HP]. apply list_elem_of_In in Hk. unfold P in HP.
      apply negb_true_iff in HP. rewrite (proj2 (mem_spec k _)) in HP; [done|]. rewrite !elem_of_cons. destruct (H k Hk); eauto. }
  destruct (stable_sort _ _) as [|k l] eqn:Es.
  - pose proof (proj1 Hun eq_refl) as Hkeys.
    destruct (noul_description (u "true") entries) as [t|e] eqn:Et; cbn [rbind];
      [apply noul_description_iff in Et as [-> Ht]|].
    + destruct (noul_description (u "false") entries) as [f|e] eqn:Ef; cbn [rbind].
      * apply noul_description_iff in Ef as [-> Hf]. split; [intros [= <-]; by constructor|by inversion 1].
      * split; [done|]. inversion 1 as [? ? Ht' Hf'| |]; subst.
        by rewrite (proj2 (noul_description_iff _ _ _) (conj eq_refl Hf')) in Ef.
    + split; [done|]. inversion 1 as [? ? Ht' Hf'| |]; subst.
      by rewrite (proj2 (noul_description_iff _ _ _) (conj eq_refl Ht')) in Et.
  - split; [done|]. inversion 1 as [? Hk| |]; subst. apply Hun in Hk. done.
Qed.

Lemma choice_question_iff i entries q : choice_kind_question i entries = Ok q <-> well_formed i Choice (VDict entries) q.
Proof.
  unfold choice_kind_question.
  assert (forall kv, choice_option_ok kv.2 = true <->
    exists t, (kv : text * value).2 = VStr t /\ short_text (fj_choice_option_units_max FILE_JUDGE) t) as Hok.
  { intros [k v]. unfold choice_option_ok, short_text. cbn [snd].
    destruct v; try (split; [done|by intros (? & ? & ?)]).
    split; [intros H; eexists; split; [reflexivity|lia]|intros (? & [= <-] & ?); lia]. }
  destruct (negb _) eqn:En.
  { split; [done|]. inversion 1 as [|? Hn|]; subst. apply in_range_spec in Hn. congruence. }
  apply in_range_spec in En. destruct (List.find _ entries) as [[o v]|] eqn:Ef.
  - split; [done|]. inversion 1 as [|? _ Hf|]; subst. apply List.find_some in Ef as [Hin Hb].
    apply list_elem_of_In in Hin. eapply Forall_forall in Hf; [|exact Hin]. apply Hok in Hf. by rewrite Hf in Hb.
  - split; [intros [= <-]; constructor; [done|]|by inversion 1]. apply Forall_forall. intros kv Hkv.
    apply Hok. apply list_elem_of_In in Hkv. pose proof (List.find_none _ _ Ef _ Hkv) as H. by apply negb_false_iff in H.
Qed.

Lemma build_question_Ok k i c q : build_question k i c = Ok q <-> well_formed i k c q.
Proof.
  destruct k; cbn [build_question].
  - destruct c; try (split; [done|by inversion 1]). apply noul_question_iff.
  - destruct c; try (split; [done|by inversion 1]). apply choice_question_iff.
  - apply score_question_iff.
Qed.

Lemma build_question_Raise k i c e :
  build_question k i c = Raise e -> exists message, e = ToolError message (u "invalid_arguments").
Proof.
  intros He. destruct k; cbn [build_question] in He.
  - destruct c as [| | | | | |d]; try (injection He as <-; by eexists). unfold noul_kind_question, noul_description, invalid in He.
    destruct (stable_sort _ _); [|injection He as <-; by eexists]. revert He.
    repeat case_match; cbn [rbind]; intros [= <-] || intros [=]; eauto.
  - destruct c; try (injection He as <-; by eexists). unfold choice_kind_question, invalid in He.
    repeat case_match; simplify_eq; eauto.
  - unfold score_question, invalid in He. destruct c as [| | | | |l|]; try (injection He as <-; by eexists).
    destruct (mapM as_str l) as [levels|]; [|injection He as <-; by eexists].
    destruct (negb _) eqn:En; [injection He as <-; by eexists|]. apply in_range_spec in En.
    destruct (existsb _ levels); [injection He as <-; by eexists|]. unfold new_score_question in He.
    by rewrite length_fmap, two_levels in He by apply En.
Qed.

(** The question builder enforces the shape of each kind: it succeeds exactly on criteria that fit
    the kind (levels, options or descriptions within their bounds, no other key), the question then
    carries the caller's instructions and criteria unchanged, and anything else is refused as invalid
    arguments. *)
Theorem build_question_iff k i c :
  (forall q, build_question k i c = Ok q <-> well_formed i k c q) /\
  (forall e, build_question k i c = Raise e -> exists message, e = ToolError message (u "invalid_arguments")).
Proof. split; [apply build_question_Ok|apply build_question_Raise]. Qed.

(** ** The answer *)
Lemma well_formed_kind i k c q : well_formed i k c q -> match k, q with
  | Noul, QNoul _ | Choice, QChoice _ | ScoreKind, QScore _ => True | _, _ => False end.
Proof. by destruct 1. Qed.

(** No judgment, for a kind. *)
Definition no_answer (k : Kind) : dict value :=
  match k with
  | Noul => [(u "noul", VNone)]
  | Choice => [(u "choice", VNone); (u "probabilities", VNone); (u "confidence", VNone)]
  | ScoreKind => [(u "score", VNone); (u "nearest_level", VNone); (u "probabilities", VNone); (u "confidence", VNone)]
  end.

(** What the answer to a question may say when its status is [ok]. *)
Definition typed_answer (k : Kind) (answer : value) (expected : list text) (a : dict value) : Prop :=
  match k with
  | Noul => exists p, validate_noul answer = Some p /\ in_unit p /\ a = [(u "noul", VFloat p)]
  | Choice => exists c, validate_choice answer expected = Some c /\ choice c ∈ expected /\
      get (u "choice") a = VStr (choice c) /\ get (u "probabilities") a = probs_value (probabilities c) /\
      Forall in_unit (dvalues (probabilities c))
  | ScoreKind => exists r, validate_rubric_answer answer (length expected) = Some r /\
      get (u "score") a = VFloat (rubric_score r) /\ fleb f_zero (rubric_score r) = true /\
      fleb (rubric_score r) (f_of_Z (Z.of_nat (length expected) - 1)) = true /\
      get (u "nearest_level") a = vnum (Score.nearest_index (rubric_score r) (length expected))
  end.

(** The projection fails closed: either the status is [ok] and the answer is the provider's, validated
    against the question; or it is [invalid_response] and there is no answer at all. *)
Lemma project_answer_closed k answer expected :
  wf_value answer ->
  let '(a, status) := project_answer k answer expected in
  (status = u "ok" /\ typed_answer k answer expected a) \/ (status = INVALID /\ a = no_answer k).
Proof.
  intros Hwf. destruct k; cbn [project_answer typed_answer no_answer].
  - destruct (validate_noul answer) as [p|] eqn:E; cbn [is_none opt_float]; [left|by right].
    split; [done|]. exists p. split_and!; [done|by eapply validate_noul_unit|done].
  - destruct (validate_choice answer expected) as [c|] eqn:E; [left|by right]. split; [done|]. exists c.
    destruct answer as [| | | | | |d]; try (unfold validate_choice in E; discriminate).
    destruct (validate_choice_inv _ _ _ Hwf E) as (raw & _ & _ & _ & Hw & _). pose proof Hw as [Hin _ _ _ _].
    split_and!; [done|done|reflexivity|reflexivity|].
    eapply read_probabilities_unit, wf_read; exact Hw.
  - destruct (validate_rubric_answer answer _) as [r|] eqn:E; [left|by right]. split; [done|]. exists r.
    destruct (validate_rubric_answer_sound _ _ _ Hwf E) as (H0 & H1 & _). split_and!; [done|reflexivity|done|done|reflexivity].
Qed.

(** ** The handler *)
Section Facts.
Context {U : Unicode}.

(** What a call that reaches the provider has established, and the request it makes. *)
Record judged_file (w : World) (args : Args) (q : Question) (p : Path) (data : list Z) : Prop := {
  jf_question : well_formed (arg_instructions args) (arg_kind args) (arg_criteria args) q;
  jf_resolved : resolve w (join_path (cwd w) (arg_path args)) = Some p;
  jf_scope : exists rest, p = cwd w ++ rest;
  jf_readable : readable w FILE_JUDGE_READ p data }.

Definition file_request (args : Args) (q : Question) (data : list Z) : Request :=
  {| rq_state := state_of (arg_path args) (redact_literals (decode_replace data)); rq_questions := [(QUESTION_ID, q)] |}.

(** jev_file_judge judges only what it may read, and answers only what was asked: a call makes at
    most one request, and makes one only for a well-formed question about a regular file inside the
    working directory that no refusal covers, sending that file's redacted text and nothing else of
    the workspace; its result is the projection of the provider's answer, valid for the question or
    withheld; a refusal before the request is a typed error and no request. *)
Theorem file_judge_scoped w args rt log r log' :
  (forall p, settled w p) -> json_replies rt -> handle w args rt log = (r, log') ->
  (exists q p data, judged_file w args q p data /\ log' = log ++ [file_request args q data] /\
     match rt_ask rt (length log) (file_request args q data) with
     | Raise e => r = Raise e
     | Ok ev => exists a status,
         r = Ok (tool_result (frame (u "jev_file_judge") (Some ev)
               [(u "path", VStr (arg_path args)); (u "kind", VStr (kind_text (arg_kind args))); (u "answer", VDict a);
                (u "status", VStr status)] None)) /\
         ((status = u "ok" /\ typed_answer (arg_kind args) (get QUESTION_ID (answers ev)) (expected_of q) a) \/
          (status = INVALID /\ a = no_answer (arg_kind args)))
     end) \/
  (log' = log /\ exists e, r = Raise e /\
     ((exists message code, e = ToolError message code) \/ resolve w (join_path (cwd w) (arg_path args)) = None)).
Proof.
  intros Hset Hjson. unfold handle, mbind, mlift.
  destruct (build_question (arg_kind args) _ _) as [q|e] eqn:Eq.
  2:{ intros [= <- <-]. right. split; [done|]. exists e. split; [done|]. left.
      apply build_question_Raise in Eq as [m ->]. eauto. }
  apply build_question_Ok in Eq.
  destruct (resolve_scoped w (cwd w) (arg_path args)) as [p|e] eqn:Ep.
  2:{ intros [= <- <-]. right. split; [done|]. exists e. split; [done|].
      apply resolve_scoped_Raise in Ep as [[H _]|(? & m & _ & _ & ->)]; [by right|left; eauto]. }
  apply resolve_scoped_Ok in Ep as [Hp Hscope].
  pose proof (read_state_cases w p FILE_JUDGE_READ (Hset p) ltac:(vm_compute; discriminate)) as Hread.
  destruct (read_state w p FILE_JUDGE_READ) as [t|e].
  2:{ destruct Hread as (m & code & -> & _). intros [= <- <-]. right. split; [done|]. eexists. split; [done|]. left. eauto. }
  destruct Hread as (data & Hd & ->). intros H. left. exists q, p, data. split; [by constructor|].
  unfold ask in H. fold (file_request args q data) in H.
  destruct (rt_ask rt (length log) (file_request args q data)) as [ev|e] eqn:Ea.
  2:{ by injection H as <- <-. }
  unfold mret, reply in H.
  pose proof (project_answer_closed (arg_kind args) (get QUESTION_ID (answers ev)) (expected_of q)
    (get_wf _ _ (Hjson _ _ _ Ea))) as Hc.
  destruct (project_answer _ _ _) as [a status]. injection H as <- <-. split; [done|]. by exists a, status.
Qed.
End Facts.

Definition sample_args : Args :=
  {| arg_path := u "notes.txt"; arg_kind := Noul; arg_instructions := u "Is it a greeting?"; arg_criteria := VDict [] |}.
Definition sample_answers : dict value := [(QUESTION_ID, noul_reply 95)].

Lemma file_judge_scoped_witness : exists q data, exists r : ToolResult,
  handle (U := ascii_unicode) sample_world sample_args (sample_runtime sample_answers) [] =
    (Ok r, [file_request (U := ascii_unicode) sample_args q data]).
Proof.
  destruct (handle (U := ascii_unicode) sample_world sample_args (sample_runtime sample_answers) []) as [r log'] eqn:E.
  destruct (file_judge_scoped (U := ascii_unicode) sample_world sample_args (sample_runtime sample_answers) [] r log'
    sample_settled (sample_runtime_json sample_answers eq_refl) E) as [(q & p & data & _ & -> & Hr)|[-> _]].
  - cbn [rt_ask sample_runtime] in Hr. destruct Hr as (a & status & -> & _). by eexists q, data, _.
  - exfalso. apply (f_equal snd) in E. vm_compute in E. discriminate.
Defined.
