(* ===== verification/Glob.v ===== *)
(** * Patterns and walks

    Models how [tools/files_judge.py] expands its entries: [fnmatch.fnmatchcase] (a small part of the
    standard library), the pruned directory walk and the expansion of a glob. *)
From S2P Require Import Prelude PyStrings Paths.
Open Scope Z_scope.

(** ** fnmatchcase

    A pattern is [*], [?], a bracketed set and characters.  A set is chunks around its hyphens: the
    last character of a chunk and the first of the next are the ends of a range, and a range whose
    ends are out of order is dropped. *)
Inductive token := AnyRun | AnyOne | Char (c : Z) | Set_ (negated : bool) (chunks : list text).

Definition find_from_pos (c : Z) (t : text) (i : nat) : option nat :=
  (fix go (l : text) (i : nat) : option nat :=
     match l with [] => None | d :: l' => if d =? c then Some i else go l' (S i) end) (drop i t) i.

Definition between (t : text) (i j : nat) : text := take (j - i) (drop i t).

(** The chunks of [pat[i:j]]: a hyphen splits unless it is the first character (after [!]) or next to
    one that split. *)
Fixpoint chunks_from (fuel : nat) (s : text) (i k : nat) : list text :=
  match fuel with
  | O => [between s i (length s)]
  | S fuel' =>
    match find_from_pos 45 s k with
    | Some k => between s i k :: chunks_from fuel' s (S k) (k + 3)
    | None => [between s i (length s)]
    end
  end.

(** A last chunk that is empty puts its hyphen back on the one before. *)
Definition close_chunks (chunks : list text) : list text :=
  match rev chunks with
  | [] :: previous :: rest => rev ((previous ++ [45]) :: rest)
  | _ => chunks
  end.

(** Drop the ranges out of order, from the last to the first. *)
Definition merge_ranges (chunks : list text) : list text :=
  foldr (fun chunk acc =>
    match acc with
    | next :: rest =>
      match last chunk, head next with
      | Some a, Some b => if b <? a then (removelast chunk ++ tail next) :: rest else chunk :: acc
      | _, _ => chunk :: acc
      end
    | [] => [chunk]
    end) [] chunks.

Definition set_of (s : text) : token :=
  let '(negated, body) := match s with 33 :: body => (true, body) | _ => (false, s) end in
  Set_ negated (merge_ranges (close_chunks (chunks_from (length body) body 0 1))).

Fixpoint ranges_match (c : Z) (chunks : list text) : bool :=
  match chunks with
  | [] => false
  | chunk :: rest =>
    mem c chunk
    || match last chunk, rest with
       | Some a, next :: _ => match head next with Some b => (a <=? c) && (c <=? b) | None => false end
       | _, _ => false
       end
    || ranges_match c rest
  end.

(** Where the set that opens at [i] closes: a [!] and then a bracket right after the opening one
    belong to it. *)
Definition set_end (pattern : text) (i : nat) : option nat :=
  let j := match pattern !! i with Some 33 => S i | _ => i end in
  let j := match pattern !! j with Some 93 => S j | _ => j end in
  find_from_pos 93 pattern j.

Fixpoint tokens (fuel : nat) (pattern : text) (i : nat) : list token :=
  match fuel with
  | O => []
  | S fuel' =>
    match pattern !! i with
    | None => []
    | Some 42 => AnyRun :: tokens fuel' pattern (S i)
    | Some 63 => AnyOne :: tokens fuel' pattern (S i)
    | Some 91 =>
      match set_end pattern (S i) with
      | Some j => set_of (between pattern (S i) j) :: tokens fuel' pattern (S j)
      | None => Char 91 :: tokens fuel' pattern (S i)
      end
    | Some c => Char c :: tokens fuel' pattern (S i)
    end
  end.

Definition token_matches (t : token) (c : Z) : bool :=
  match t with
  | AnyRun | AnyOne => true
  | Char d => c =? d
  | Set_ negated chunks => xorb negated (ranges_match c chunks)
  end.

Fixpoint matches (ts : list token) (name : text) : bool :=
  match ts with
  | [] => bool_decide (name = [])
  | AnyRun :: ts' =>
    (fix any (name : text) : bool := matches ts' name || match name with [] => false | _ :: name' => any name' end) name
  | t :: ts' => match name with c :: name' => token_matches t c && matches ts' name' | [] => false end
  end.

Definition fnmatchcase (name pattern : text) : bool := matches (tokens (length pattern) pattern 0) name.

Example fnmatch_samples :
  (fnmatchcase (u "main.py") <$> [u "*.py"; u "m??n.*"; u "[a-m]*"; u "[!a-l]*"; u "main"; u "*.[ch]"; u "[z-a]*"; u "[m"]) =
  [true; true; true; true; false; false; false; false].
Proof. vm_compute. reflexivity. Qed.

(** ** Walks *)
Definition SKIP_DIRECTORIES : list text :=
  [u ".git"; u ".hg"; u ".svn"; u "node_modules"; u ".venv"; u "venv"; u ".tox"; u "site-packages"; u "__pycache__";
   u ".mypy_cache"; u ".pytest_cache"; u ".ruff_cache"; u ".cache"; u "coverage"; u "build"; u "dist"; u "target"].

Definition kept (name : text) : bool := negb (mem name SKIP_DIRECTORIES).

(** The subdirectories a walk enters, with what was found in each, in order. *)
Definition in_name_order {A} (l : list (text * A)) : list (text * A) :=
  stable_sort (fun a b => text_ltb a.1 b.1) (List.filter (fun e => kept e.1) l).

(** [_walk(directory, recursive=True)]: each directory's files, then its subdirectories' in turn. *)
Fixpoint walk_files (p : Path) (t : Tree) : list Path :=
  match t with
  | Dir directories files =>
    ((fun n => p ++ [n]) <$> stable_sort text_ltb files)
    ++ concat (in_name_order
         (map (fun d => (d.1, match d.2 with Some sub => walk_files (p ++ [d.1]) sub | None => [] end)) directories)).*2
  end.

(** The kept descendants, as the walk behind a [**] segment lists them. *)
Fixpoint walk_directories (p : Path) (t : Tree) : list Path :=
  match t with
  | Dir directories _ =>
    let below := in_name_order
         (map (fun d => (d.1, match d.2 with Some sub => walk_directories (p ++ [d.1]) sub | None => [] end)) directories) in
    ((fun n => p ++ [n]) <$> below.*1) ++ concat below.*2
  end.

Definition descendants (w : World) (p : Path) : list Path :=
  match walk_tree w p with Some t => walk_directories p t | None => [] end.

(** [_walk].  [None] is the [OSError] of [iterdir], which the recursive form ignores. *)
Definition walk (w : World) (recursive : bool) (p : Path) : option (list Path) :=
  if recursive then Some (match walk_tree w p with Some t => walk_files p t | None => [] end)
  else
    match listing w p with
    | None => None
    | Some names => Some (List.filter (is_file w) ((fun n => p ++ [n]) <$> stable_sort text_ltb names))
    end.

(** ** Globs *)
Definition GLOB_MAGIC : list Z := [42; 63; 91].
Definition has_glob_magic (entry : text) : bool := existsb (fun c => mem c GLOB_MAGIC) entry.

Definition STARS : text := u "**".

(** [_glob_pattern]. *)
Definition glob_pattern (entry : text) : option Path :=
  if is_absolute entry || mem (u "..") (components entry) then None else Some (components entry).

(** [scan]: the kept children a segment matches, by name. *)
Definition scan (w : World) (segment : text) (directory : Path) : list Path :=
  match listing w directory with
  | None => []
  | Some names =>
    (fun n => directory ++ [n])
    <$> List.filter (fun n => kept n && fnmatchcase n segment) (stable_sort text_ltb names)
  end.

Definition next_frontier (w : World) (segment : text) (frontier : list Path) : list Path :=
  flat_map (fun directory =>
    if bool_decide (segment = STARS) then directory :: descendants w directory
    else List.filter (is_dir w) (scan w segment directory)) frontier.

Definition last_segment (w : World) (tail_ : text) (frontier : list Path) : list Path :=
  flat_map (fun directory =>
    if bool_decide (tail_ = STARS) then or_else (walk w true directory) [] else scan w tail_ directory) frontier.

(** [_glob_files]. *)
Definition glob_files (w : World) (root : Path) (parts : Path) : list Path :=
  match last parts with
  | None => []
  | Some tail_ => last_segment w tail_ (fold_left (fun frontier segment => next_frontier w segment frontier) (removelast parts) [root])
  end.

Example glob_samples :
  glob_files sample_world [u "srv"] [u "**"; u "*.py"] = [[u "srv"; u "app"; u "empty.py"]; [u "srv"; u "app"; u "main.py"]].
Proof. vm_compute. reflexivity. Qed.
