(* ===== verification/FilesJudge.v ===== *)
(** * jev_files_judge

    Models [tools/files_judge.py]: the deterministic plan (discovery under its bound, the prune, the
    reads, the cap on surviving files, the skip rows and their aggregates) and the handler that asks
    once per survivor.  The task group's calls are made in order here; each only writes its own slot,
    so the order of the replies does not matter. *)
From S2P Require Import Prelude Float64 Text Limits Json Domain Validation Runtime Toolset Samples PyStrings Paths Utf8.
From S2P Require Import FileState FileJudge Glob.
From S2P Require Files.
Open Scope Z_scope.

Definition FIRST_SHOWN : nat := 3.

(** [_SKIP_REASONS]. *)
Definition SKIP_REASONS : dict text :=
  [(u "not_found", u "not_found"); (u "not_a_file", u "not_found"); (u "binary_file", u "binary");
   (u "secret_file", u "secret_file"); (u "file_too_large", u "too_large"); (u "path_outside_scope", u "outside_scope")].

(** A skip row: the path it names and the reason. *)
Record SkipRow := { skip_path : text; skip_reason : text }.

(** [_aggregate]. *)
Definition aggregate (reason : text) (count : nat) (first : list text) : SkipRow :=
  let shown := take FIRST_SHOWN first in
  let names := join (u ", ") shown ++ (if (length shown <? count)%nat then u ", " ++ [0x2026] else []) in
  let t :=
    if bool_decide (reason = u "over_the_file_cap")
    then u "+" ++ str_of_nat count ++ u " more files over the " ++ str_of_Z (fsj_files_max FILES_JUDGE) ++ u "-file cap"
    else u "+" ++ str_of_nat count ++ u " more " ++ reason in
  {| skip_path := t ++ u ": " ++ names; skip_reason := reason |}.

(** ** The plan's state *)
Record PlanState := {
  skipped : list SkipRow;
  overflow : dict (nat * list text);       (* [overflow] and [overflow_first], by reason *)
  candidates : list (Path * text);
  seen : list Path;
  discovery_overflow : nat;
  discovery_first : list text }.

Definition start_plan : PlanState :=
  {| skipped := []; overflow := []; candidates := []; seen := []; discovery_overflow := 0; discovery_first := [] |}.

Definition remember (first : list text) (t : text) : list text :=
  if (length first <? FIRST_SHOWN)%nat then first ++ [t] else first.

(** [skip]: a row while there is room, else a count. *)
Definition skip (path reason : text) (st : PlanState) : PlanState :=
  if Z.of_nat (length (skipped st)) <? fsj_skip_rows_max FILES_JUDGE
  then {| skipped := skipped st ++ [{| skip_path := path; skip_reason := reason |}]; overflow := overflow st;
          candidates := candidates st; seen := seen st; discovery_overflow := discovery_overflow st;
          discovery_first := discovery_first st |}
  else
    let '(count, first) := or_else (dget reason (overflow st)) (0%nat, []) in
    {| skipped := skipped st; overflow := dset reason (S count, remember first path) (overflow st);
       candidates := candidates st; seen := seen st; discovery_overflow := discovery_overflow st;
       discovery_first := discovery_first st |}.

Section FilesJudge.
Context {U : Unicode} (w : World) (root : Path) (recursive : bool).

Definition unresolvable : exn := OtherError (u "embedded null byte").

(** [discover]: [false] when discovery is full. *)
Definition discover (path : Path) (t : text) (traversed : bool) (st : PlanState) : result exn (bool * PlanState) :=
  if fsj_discovery_max FILES_JUDGE <=? Z.of_nat (length (candidates st))
  then Ok (false,
    {| skipped := skipped st; overflow := overflow st; candidates := candidates st; seen := seen st;
       discovery_overflow := S (discovery_overflow st); discovery_first := remember (discovery_first st) t |})
  else
    match resolve w path with
    | None => Raise unresolvable
    | Some resolved =>
      if bool_decide (resolved ∈ seen st) then Ok (true, st)
      else if negb (is_relative_to resolved root) then Ok (true, skip (as_posix (relative_to path root)) (u "outside_scope") st)
      else if traversed && existsb (fun part => negb (kept part)) (relative_to resolved root) then Ok (true, st)
      else Ok (true,
        {| skipped := skipped st; overflow := overflow st; candidates := candidates st ++ [(resolved, t)];
           seen := resolved :: seen st; discovery_overflow := discovery_overflow st;
           discovery_first := discovery_first st |})
    end.

Definition discovered_text (path : Path) : text := as_posix (relative_to path root).

(** The files of a directory, until discovery is full. *)
Fixpoint discover_all (paths : list Path) (st : PlanState) : result exn (bool * PlanState) :=
  match paths with
  | [] => Ok (true, st)
  | path :: paths' =>
    let? (room, st) := discover path (discovered_text path) true st in
    if room then discover_all paths' st else Ok (false, st)
  end.

(** [iterdir] of a directory that cannot be listed raises through the whole call. *)
Definition walked (directory : Path) : result exn (list Path) :=
  match walk w recursive directory with
  | Some paths => Ok paths
  | None => Raise (OtherError (u "Permission denied"))
  end.

(** The matches of a glob, until discovery is full. *)
Fixpoint discover_matches (matches : list Path) (st : PlanState) : result exn PlanState :=
  match matches with
  | [] => Ok st
  | path :: matches' =>
    let? (room, st) :=
      if is_dir w path then let? paths := walked path in discover_all paths st
      else if is_file w path then discover path (discovered_text path) true st
      else Ok (true, st) in
    if room then discover_matches matches' st else Ok st
  end.

Definition plan_glob (entry : text) (st : PlanState) : result exn PlanState :=
  match glob_pattern entry with
  | None => Ok (skip entry (u "outside_scope") st)
  | Some parts =>
    match glob_files w root parts with
    | [] => Ok (skip entry (u "not_found") st)
    | matches => discover_matches matches st
    end
  end.

Definition plan_named (entry : text) (st : PlanState) : result exn PlanState :=
  match resolve_scoped w root entry with
  | Raise _ => Ok (skip entry (u "outside_scope") st)
  | Ok resolved =>
    if negb (exists_ w resolved) then Ok (skip entry (u "not_found") st)
    else if is_dir w resolved
    then
      if negb (kept (path_name resolved)) then Ok (skip entry (u "skipped_directory") st)
      else
        let? paths := walked resolved in
        match paths with
        | [] => Ok (skip entry (u "not_found") st)
        | _ => let? (_, st) := discover_all paths st in Ok st
        end
    else let? (_, st) := discover resolved entry false st in Ok st
  end.

Definition plan_entry (entry : text) (st : PlanState) : result exn PlanState :=
  if has_glob_magic entry then plan_glob entry st else plan_named entry st.

Fixpoint plan_entries (entries : list text) (st : PlanState) : result exn PlanState :=
  match entries with
  | [] => Ok st
  | entry :: entries' => let? st := plan_entry entry st in plan_entries entries' st
  end.

(** ** Reading the candidates *)
Record Reads_ := {
  survivors : list (text * text); read_plan : PlanState; cap_overflow : nat; cap_first : list text }.

Definition read_candidate (r : Reads_) (candidate : Path * text) : result exn Reads_ :=
  let '(resolved, t) := candidate in
  if Z.of_nat (length (survivors r)) =? fsj_files_max FILES_JUDGE
  then Ok {| survivors := survivors r; read_plan := read_plan r; cap_overflow := S (cap_overflow r);
             cap_first := remember (cap_first r) t |}
  else
    match read_state w resolved FILES_JUDGE_READ with
    | Raise (ToolError _ code) =>
      Ok {| survivors := survivors r; read_plan := skip t (or_else (dget code SKIP_REASONS) []) (read_plan r);
            cap_overflow := cap_overflow r; cap_first := cap_first r |}
    | Raise e => Raise e
    | Ok [] =>
      Ok {| survivors := survivors r; read_plan := skip t (u "empty") (read_plan r); cap_overflow := cap_overflow r;
            cap_first := cap_first r |}
    | Ok content =>
      Ok {| survivors := survivors r ++ [(t, content)]; read_plan := read_plan r; cap_overflow := cap_overflow r;
            cap_first := cap_first r |}
    end.

Fixpoint read_candidates (r : Reads_) (l : list (Path * text)) : result exn Reads_ :=
  match l with
  | [] => Ok r
  | candidate :: l' => let? r := read_candidate r candidate in read_candidates r l'
  end.

Definition discovery_row (first : list text) : SkipRow :=
  {| skip_path := u "discovery stopped at the " ++ str_of_Z (fsj_discovery_max FILES_JUDGE)
       ++ u "-candidate bound; not expanded: " ++ join (u ", ") first ++ u ", " ++ [0x2026];
     skip_reason := u "over_the_file_cap" |}.

(** The rows after the individual ones. *)
Definition aggregates (r : Reads_) : list SkipRow :=
  (match cap_overflow r with O => [] | n => [aggregate (u "over_the_file_cap") n (cap_first r)] end)
  ++ (match discovery_overflow (read_plan r) with O => [] | _ => [discovery_row (discovery_first (read_plan r))] end)
  ++ ((fun e => aggregate e.1 e.2.1 e.2.2) <$> overflow (read_plan r)).

(** [plan]. *)
Definition plan (paths : list text) : result exn (list (text * text) * list SkipRow) :=
  let? st := plan_entries paths start_plan in
  let? r := read_candidates {| survivors := []; read_plan := st; cap_overflow := 0; cap_first := [] |} (candidates st) in
  Ok (survivors r, skipped (read_plan r) ++ aggregates r).
End FilesJudge.

(** ** The handler *)
Record Args := {
  arg_paths : list text; arg_kind : Kind; arg_instructions : text; arg_criteria : value; arg_recursive : option bool }.

Definition row_value (r : SkipRow) : value := VDict [(u "path", VStr (skip_path r)); (u "reason", VStr (skip_reason r))].

(** [judge(index)]: a failed call is a skip row, except a configuration error, which ends the call. *)
Definition judge (rt : Runtime) (question : Question) (survivor : text * text) : M (result SkipRow Evaluation) :=
  fun log =>
    match ask rt (state_of survivor.1 survivor.2) [(QUESTION_ID, question)] log with
    | (Ok ev, log) => (Ok (Ok ev), log)
    | (Raise (ProviderConfigError m), log) => (Raise (ProviderConfigError m), log)
    | (Raise e, log) => (Ok (Raise {| skip_path := survivor.1; skip_reason := u "call_failed:" ++ code_of e |}), log)
    end.

Definition judged_row (kind : Kind) (question : Question) (path : text) (evaluation : Evaluation) : dict value :=
  let '(answer, status) := project_answer kind (get QUESTION_ID (answers evaluation)) (expected_of question) in
  [(u "path", VStr path); (u "answer", VDict answer); (u "status", VStr status)].

Definition results_of (kind : Kind) (question : Question) (outcomes : list (text * result SkipRow Evaluation)) : list value :=
  omap (fun o => match o.2 with Ok ev => Some (VDict (judged_row kind question o.1 ev)) | Raise _ => None end) outcomes.
Definition failures_of (outcomes : list (text * result SkipRow Evaluation)) : list SkipRow :=
  omap (fun o => match o.2 with Ok _ => None | Raise r => Some r end) outcomes.
Definition asked_of (outcomes : list (text * result SkipRow Evaluation)) : list Evaluation :=
  omap (fun o => match o.2 with Ok ev => Some ev | Raise _ => None end) outcomes.

Definition reply (args : Args) (question : Question) (skipped : list SkipRow)
    (outcomes : list (text * result SkipRow Evaluation)) : ToolResult :=
  let asked := asked_of outcomes in
  tool_result (frame (u "jev_files_judge") (match asked with [] => None | _ => Some (Files.combined asked) end)
    [(u "results", VList (results_of (arg_kind args) question outcomes));
     (u "skipped", VList (row_value <$> skipped ++ failures_of outcomes));
     (u "calls", vnum (length outcomes))] None).

Section Handler.
Context {U : Unicode} (w : World).

Definition handle (args : Args) (rt : Runtime) : M ToolResult :=
  let! question := mlift (build_question (arg_kind args) (arg_instructions args) (arg_criteria args)) in
  let! (survivors, skipped) := mlift (plan w (cwd w) (or_else (arg_recursive args) false) (arg_paths args)) in
  let! outcomes := mmap (judge rt question) survivors in
  mret (reply args question skipped (combine survivors.*1 outcomes)).
End Handler.

Example plan_sample :
  plan (U := ascii_unicode) sample_world [u "srv"] true [u "."; u "notes.txt"; u "../etc/passwd"; u "node_modules"; u "gone"] =
  Ok ([(u "notes.txt", u "hi"); (u "app/main.py", u "x = 1")],
      [{| skip_path := u "../etc/passwd"; skip_reason := u "outside_scope" |};
       {| skip_path := u "node_modules"; skip_reason := u "skipped_directory" |};
       {| skip_path := u "gone"; skip_reason := u "not_found" |};
       {| skip_path := u ".env"; skip_reason := u "secret_file" |};
       {| skip_path := u "app/empty.py"; skip_reason := u "empty" |}]).
Proof. vm_compute. reflexivity. Qed.

(** ** Facts: the plan *)
Lemma dset_keys_elem {A} k key (v : A) d : k ∈ dkeys (dset key v d) -> k = key \/ k ∈ dkeys d.
Proof.
  rewrite dkeys_dset. destruct (dhas key d); [by right|]. rewrite elem_of_app, list_elem_of_singleton. tauto.
Qed.

Definition REASONS : list text :=
  [u "outside_scope"; u "not_found"; u "skipped_directory"; u "empty"; u "binary"; u "secret_file"; u "too_large"].

Section PlanFacts.
Context {U : Unicode} (w : World) (root : Path) (recursive : bool) (entries : list text).

(** A candidate: under the root, and off the skip list unless the caller named it. *)
Definition scoped (c : Path * text) : Prop :=
  exists rest, c.1 = root ++ rest /\ (Forall (fun part => kept part = true) rest \/ c.2 ∈ entries).

Record plan_ok (st : PlanState) : Prop := {
  po_skipped : Z.of_nat (length (skipped st)) <= fsj_skip_rows_max FILES_JUDGE;
  po_overflow : NoDup (dkeys (overflow st)) /\ dkeys (overflow st) ⊆ REASONS;
  po_candidates : Z.of_nat (length (candidates st)) <= fsj_discovery_max FILES_JUDGE;
  po_seen : forall p, p ∈ seen st <-> p ∈ (candidates st).*1;
  po_once : NoDup (candidates st).*1;
  po_scoped : Forall scoped (candidates st) }.

Lemma start_plan_ok : plan_ok start_plan.
Proof. constructor; cbn; try (vm_compute; discriminate); [split; [constructor|by intros k ?%elem_of_nil]|done|constructor|constructor]. Qed.

Lemma skip_ok path reason st :
  reason ∈ REASONS -> plan_ok st -> plan_ok (skip path reason st) /\ candidates (skip path reason st) = candidates st.
Proof.
  intros Hr [H1 [H2 H2'] H3 H4 H5 H6]. unfold skip. destruct (_ <? _) eqn:E.
  - split; [|done]. constructor; cbn [skipped overflow candidates seen]; try done. rewrite length_app. cbn [length]. lia.
  - destruct (or_else _ _) as [count first]. split; [|done]. constructor; cbn [skipped overflow candidates seen]; try done. split.
    + by apply NoDup_dset.
    + intros k Hk. apply dset_keys_elem in Hk as [->|Hk]; [done|by apply H2'].
Qed.

Lemma existsb_not_kept l : existsb (fun part => negb (kept part)) l = false -> Forall (fun part => kept part = true) l.
Proof.
  intros H. apply Forall_forall. intros part Hp. destruct (kept part) eqn:E; [done|]. exfalso.
  apply not_true_iff_false in H. apply H, existsb_exists. exists part. rewrite E. split; [by apply list_elem_of_In|done].
Qed.


Lemma discover_ok path t traversed st b st' :
  discover w root path t traversed st = Ok (b, st') -> (traversed = false -> t ∈ entries) -> plan_ok st -> plan_ok st'.
Proof.
  unfold discover. intros H Ht Hok. pose proof Hok as [H1 H2 H3 H4 H5 H6]. destruct (_ <=? _) eqn:Efull.
  { injection H as <- <-. by constructor. }
  destruct (resolve w path) as [p|]; [|done]. case_bool_decide as Hseen; [by injection H as <- <-|].
  destruct (is_relative_to p root) eqn:Erel; cbn [negb] in H.
  2:{ injection H as <- <-. apply skip_ok; [|done]. left. }
  apply is_relative_to_spec in Erel as [rest ->]. rewrite relative_to_app in H.
  destruct (traversed && _) eqn:Eskip; [by injection H as <- <-|]. injection H as <- <-.
  constructor; cbn [skipped overflow candidates seen]; try done.
  - rewrite length_app. cbn [length]. lia.
  - intros q. rewrite fmap_app, elem_of_app, elem_of_cons, H4. cbn. rewrite list_elem_of_singleton. tauto.
  - rewrite fmap_app. apply NoDup_app. split_and!; [done| |apply NoDup_singleton].
    intros q Hq ->%list_elem_of_singleton. by apply Hseen, H4.
  - apply Forall_app. split; [done|]. constructor; [|constructor]. exists rest. split; [done|].
    destruct traversed; [left; by apply existsb_not_kept|right; by apply Ht].
Qed.

Lemma discover_all_ok paths : forall st b st',
  discover_all w root paths st = Ok (b, st') -> plan_ok st -> plan_ok st'.
Proof.
  induction paths as [|path paths IH]; intros st b st'; cbn [discover_all]; [by intros [= <- <-]|].
  destruct (discover w root path _ true st) as [[room st1]|] eqn:E; cbn [rbind]; [|done]. intros H Hok.
  apply discover_ok in E; [|done|done]. destruct room; [by eapply IH|by injection H as <- <-].
Qed.

Lemma discover_matches_ok matches : forall st st',
  discover_matches w root recursive matches st = Ok st' -> plan_ok st -> plan_ok st'.
Proof.
  induction matches as [|path matches IH]; intros st st'; cbn [discover_matches]; [by intros [= <-]|].
  intros H Hok.
  destruct (if is_dir w path then _ else _) as [[room st1]|] eqn:E; cbn [rbind] in H; [|done].
  assert (plan_ok st1) as Hok1.
  { destruct (is_dir w path).
    - destruct (walked w recursive path) as [paths|]; [|done]. by eapply discover_all_ok.
    - destruct (is_file w path); [by eapply discover_ok|by injection E as <- <-]. }
  destruct room; [by eapply IH|by injection H as <-].
Qed.

Lemma plan_entry_ok entry st st' :
  plan_entry w root recursive entry st = Ok st' -> entry ∈ entries -> plan_ok st -> plan_ok st'.
Proof.
  unfold plan_entry, plan_glob, plan_named. intros H He Hok.
  assert (forall reason, reason ∈ REASONS -> plan_ok (skip entry reason st)) as Hskip by (intros; by apply skip_ok).
  destruct (has_glob_magic entry).
  - destruct (glob_pattern entry); [|injection H as <-; apply Hskip; left].
    destruct (glob_files _ _ _); [injection H as <-; apply Hskip; right; left|by eapply discover_matches_ok].
  - destruct (resolve_scoped w root entry) as [p|]; [|injection H as <-; apply Hskip; left].
    destruct (exists_ w p); cbn [negb] in H; [|injection H as <-; apply Hskip; right; left].
    destruct (is_dir w p).
    + destruct (kept (path_name p)); cbn [negb] in H; [|injection H as <-; apply Hskip; do 2 right; left].
      destruct (walked w recursive p) as [paths|]; cbn [rbind] in H; [|done].
      destruct paths as [|q paths]; [injection H as <-; apply Hskip; right; left|].
      destruct (discover_all _ _ _ _) as [[b st1]|] eqn:E; [|done]. injection H as <-. by eapply discover_all_ok.
    + destruct (discover _ _ _ _ _ _) as [[b st1]|] eqn:E; [|done]. injection H as <-. by eapply discover_ok.
Qed.

Lemma plan_entries_ok l : forall st st',
  plan_entries w root recursive l st = Ok st' -> l ⊆ entries -> plan_ok st -> plan_ok st'.
Proof.
  induction l as [|entry l IH]; intros st st'; cbn [plan_entries]; [by intros [= <-]|].
  destruct (plan_entry w root recursive entry st) as [st1|] eqn:E; cbn [rbind]; [|done]. intros H Hl Hok.
  eapply IH; [exact H| |eapply plan_entry_ok; [exact E| |done]].
  - intros x Hx. apply Hl. by right.
  - apply Hl. left.
Qed.
End PlanFacts.

(** ** Facts: the reads *)
Section ReadFacts.
Context {U : Unicode} (w : World) (Hset : forall p, settled w p) (root : Path) (entries : list text).

(** What a survivor is: a readable file's redacted text, not empty, under the candidate's name. *)
Definition survives (c : Path * text) (s : text * text) : Prop :=
  s.1 = c.2 /\ s.2 <> [] /\ exists data, readable w FILES_JUDGE_READ c.1 data /\ s.2 = redact_literals (decode_replace data).

Definition reads_ok (done_ : list (Path * text)) (r : Reads_) : Prop :=
  plan_ok root entries (read_plan r) /\ Z.of_nat (length (survivors r)) <= fsj_files_max FILES_JUDGE /\
  exists chosen, chosen `sublist_of` done_ /\ Forall2 survives chosen (survivors r).

Lemma refused_reason caps p code : refused w caps p code -> or_else (dget code SKIP_REASONS) [] ∈ REASONS.
Proof. destruct 1; apply mem_spec; vm_compute; reflexivity. Qed.

Lemma sublist_grow {A} (l k : list A) x : l `sublist_of` k -> l `sublist_of` k ++ [x].
Proof. intros H. by apply sublist_inserts_r. Qed.

Lemma read_candidate_ok done_ r c r' :
  read_candidate w r c = Ok r' -> reads_ok done_ r -> reads_ok (done_ ++ [c]) r'.
Proof.
  destruct c as [p t]. unfold read_candidate. intros H (Hp & Hn & chosen & Hsub & Hall).
  assert (forall r1, survivors r1 = survivors r -> plan_ok root entries (read_plan r1) -> reads_ok (done_ ++ [(p, t)]) r1) as Hkeep.
  { intros r1 Hs Hp1. split_and!; [done|by rewrite Hs|]. exists chosen. rewrite Hs. split; [by apply sublist_grow|done]. }
  destruct (_ =? _) eqn:Emax; [injection H as <-; by apply Hkeep|].
  pose proof (read_state_cases w p FILES_JUDGE_READ (Hset p) ltac:(vm_compute; discriminate)) as Hr.
  destruct (read_state w p FILES_JUDGE_READ) as [content|e].
  - destruct Hr as (data & Hd & Hc). destruct content as [|c content].
    + injection H as <-. apply Hkeep; [done|]. apply skip_ok; [|done]. do 3 right. left.
    + injection H as <-. split_and!; [done| |]; cbn [survivors].
      * rewrite length_app. cbn [length]. lia.
      * exists (chosen ++ [(p, t)]). split; [by apply sublist_app|]. apply Forall2_app; [done|].
        constructor; [|constructor]. split_and!; [done|done|]. by exists data.
  - destruct Hr as (m & code & -> & Hc). injection H as <-. apply Hkeep; [done|].
    apply skip_ok; [by eapply refused_reason|done].
Qed.

Lemma read_candidates_ok l : forall done_ r r',
  read_candidates w r l = Ok r' -> reads_ok done_ r -> reads_ok (done_ ++ l) r'.
Proof.
  induction l as [|c l IH]; intros done_ r r'; cbn [read_candidates]; [intros [= <-]; by rewrite app_nil_r|].
  destruct (read_candidate w r c) as [r1|] eqn:E; cbn [rbind]; [|done]. intros H Hr.
  rewrite cons_middle, app_assoc. eapply IH; [exact H|]. by eapply read_candidate_ok.
Qed.

Lemma read_candidates_total l r : exists r', read_candidates w r l = Ok r'.
Proof.
  revert r. induction l as [|[p t] l IH]; intros r; cbn [read_candidates]; [by eexists|].
  assert (exists r1, read_candidate w r (p, t) = Ok r1) as [r1 ->]; [|apply IH].
  unfold read_candidate. destruct (_ =? _); [by eexists|].
  pose proof (read_state_cases w p FILES_JUDGE_READ (Hset p) ltac:(vm_compute; discriminate)) as Hr.
  destruct (read_state w p FILES_JUDGE_READ) as [[|]|e]; [by eexists..|]. destruct Hr as (m & code & -> & _). by eexists.
Qed.

Lemma sublist_NoDup_fmap {A B} (f : A -> B) (l k : list A) : l `sublist_of` k -> NoDup (f <$> k) -> NoDup (f <$> l).
Proof.
  intros H Hk. eapply sublist_NoDup; [exact Hk|]. clear Hk. induction H; cbn; by constructor.
Qed.

Lemma Forall2_strengthen {A B} (P Q : A -> B -> Prop) l k :
  Forall2 P l k -> (forall x y, x ∈ l -> P x y -> Q x y) -> Forall2 Q l k.
Proof.
  induction 1 as [|x y l k Hxy _ IH]; intros H; constructor; [apply H; [left|done]|]. apply IH. intros a b Ha.
  apply H. by right.
Qed.

End ReadFacts.

(** The plan comes back unless a path cannot be resolved or a directory that is not walked recursively
    cannot be listed. *)
Section PlanReturns.
Context {U : Unicode} (w : World) (root : Path) (recursive : bool).
Context (Hset : forall p, settled w p) (Hres : forall p, is_Some (resolve w p)) (Hlist : forall p, is_Some (walk w recursive p)).

Lemma discover_returns p t b st : exists r, discover w root p t b st = Ok r.
Proof.
  unfold discover. destruct (_ <=? _); [by eexists|]. destruct (Hres p) as [q ->]. repeat case_match; by eexists.
Qed.

Lemma discover_all_returns paths : forall st, exists r, discover_all w root paths st = Ok r.
Proof.
  induction paths as [|p paths IH]; intros st; cbn [discover_all]; [by eexists|].
  destruct (discover_returns p (discovered_text root p) true st) as [[[] st1] ->]; cbn [rbind]; [apply IH|by eexists].
Qed.

Lemma walked_returns p : exists l, walked w recursive p = Ok l.
Proof. unfold walked. destruct (Hlist p) as [l ->]. by eexists. Qed.

Lemma discover_matches_returns matches : forall st, exists r, discover_matches w root recursive matches st = Ok r.
Proof.
  induction matches as [|p matches IH]; intros st; cbn [discover_matches]; [by eexists|].
  assert (exists r, (if is_dir w p then let? paths := walked w recursive p in discover_all w root paths st
    else if is_file w p then discover w root p (discovered_text root p) true st else Ok (true, st)) = Ok r)
    as [[[] st1] ->]; cbn [rbind]; [|apply IH|by eexists].
  destruct (is_dir w p); [destruct (walked_returns p) as [l ->]; apply discover_all_returns|].
  destruct (is_file w p); [apply discover_returns|by eexists].
Qed.

Lemma plan_entry_returns entry st : exists r, plan_entry w root recursive entry st = Ok r.
Proof.
  unfold plan_entry, plan_glob, plan_named. destruct (has_glob_magic entry).
  - destruct (glob_pattern entry); [|by eexists]. destruct (glob_files _ _ _); [by eexists|apply discover_matches_returns].
  - destruct (resolve_scoped w root entry) as [p|]; [|by eexists]. destruct (negb _); [by eexists|]. destruct (is_dir w p).
    + destruct (negb _); [by eexists|]. destruct (walked_returns p) as [l ->]. cbn [rbind]. destruct l as [|q l]; [by eexists|].
      destruct (discover_all_returns (q :: l) st) as [[b st1] ->]. by eexists.
    + destruct (discover_returns p entry false st) as [[b st1] ->]. by eexists.
Qed.

Theorem plan_returns entries : exists r, plan w root recursive entries = Ok r.
Proof.
  unfold plan. assert (forall l st, exists st', plan_entries w root recursive l st = Ok st') as H.
  { induction l as [|entry l IH]; intros st; cbn [plan_entries]; [by eexists|].
    destruct (plan_entry_returns entry st) as [st1 ->]. apply IH. }
  destruct (H entries start_plan) as [st ->]. cbn [rbind].
  destruct (read_candidates_total w Hset (candidates st) {| survivors := []; read_plan := st; cap_overflow := 0; cap_first := [] |})
    as [r ->]. by eexists.
Qed.
End PlanReturns.

(** ** Facts: the answers *)
Section Answers.
Context (rt : Runtime) (q : Question).

Definition file_request (s : text * text) : Request :=
  {| rq_state := FileJudge.state_of s.1 s.2; rq_questions := [(QUESTION_ID, q)] |}.

(** What call number [n] gives for a survivor. *)
Definition outcome_of (n : nat) (s : text * text) : result SkipRow Evaluation :=
  match rt_ask rt n (file_request s) with
  | Ok ev => Ok ev
  | Raise e => Raise {| skip_path := s.1; skip_reason := u "call_failed:" ++ code_of e |}
  end.

Definition configured (n : nat) (s : text * text) : Prop :=
  forall m, rt_ask rt n (file_request s) <> Raise (ProviderConfigError m).

Lemma judge_configured s log :
  configured (length log) s -> judge rt q s log = (Ok (outcome_of (length log) s), log ++ [file_request s]).
Proof.
  unfold configured, judge, ask, outcome_of. change {| rq_state := _; rq_questions := _ |} with (file_request s).
  destruct (rt_ask rt (length log) (file_request s)) as [ev|e]; [done|]. intros H. destruct e; try done. by destruct (H message).
Qed.

Lemma judge_all files : forall log,
  (forall i s, files !! i = Some s -> configured (length log + i) s) ->
  mmap (judge rt q) files log =
  (Ok (imap (fun i s => outcome_of (length log + i) s) files), log ++ (file_request <$> files)).
Proof.
  induction files as [|s files IH]; intros log H; cbn [mmap]; [unfold mret; by rewrite app_nil_r|]. unfold mbind.
  rewrite judge_configured by (rewrite <- (Nat.add_0_r (length log)); by apply (H 0%nat)).
  rewrite IH.
  - unfold mret. rewrite imap_cons, Nat.add_0_r, fmap_cons, <- app_assoc. cbn [app]. do 3 f_equal.
    apply imap_ext. intros i x _. rewrite length_app. cbn. f_equal. lia.
  - intros i x Hx. rewrite length_app. cbn [length]. rewrite <- Nat.add_assoc. by apply (H (S i)).
Qed.
End Answers.

Lemma results_failures kind q outcomes :
  (length (results_of kind q outcomes) + length (failures_of outcomes) = length outcomes)%nat.
Proof.
  unfold results_of, failures_of. induction outcomes as [|[p [ev|r]] outcomes IH]; [done|..]; cbn [omap list_omap snd length] in *; lia.
Qed.

(** C30 Every file of the plan is answered for: a call with a well-formed question and a plan asks once
    per surviving file, in order, about that file's path and redacted text, and (unless the provider
    cannot be configured) always ends in a result, however many of its calls fail: each file is then
    either in the results, with the projection of its own answer, or in the skipped rows with the code
    of its failure, and never in both. *)
Theorem files_judge_answers w (U : Unicode) args rt log q files rows :
  build_question (arg_kind args) (arg_instructions args) (arg_criteria args) = Ok q ->
  plan w (cwd w) (or_else (arg_recursive args) false) (arg_paths args) = Ok (files, rows) ->
  (forall i s, files !! i = Some s -> configured rt q (length log + i) s) ->
  exists outcomes,
    handle w args rt log = (Ok (reply args q rows outcomes), log ++ (file_request q <$> files)) /\
    outcomes.*1 = files.*1 /\
    (length (results_of (arg_kind args) q outcomes) + length (failures_of outcomes) = length files)%nat /\
    forall i s, files !! i = Some s ->
      match rt_ask rt (length log + i) (file_request q s) with
      | Ok ev => VDict (judged_row (arg_kind args) q s.1 ev) ∈ results_of (arg_kind args) q outcomes
      | Raise e => {| skip_path := s.1; skip_reason := u "call_failed:" ++ code_of e |} ∈ failures_of outcomes
      end.
Proof.
  intros Hq Hp Hc. set (outs := imap (fun i s => outcome_of rt q (length log + i) s) files).
  assert (length outs = length files) as Hlen by apply length_imap.
  exists (combine files.*1 outs). split_and!.
  - unfold handle, mbind, mlift. rewrite Hq, Hp. by rewrite (judge_all rt q files log Hc).
  - change (combine files.*1 outs) with (zip files.*1 outs). apply fst_zip. rewrite length_fmap. lia.
  - rewrite results_failures. rewrite length_combine, length_fmap. lia.
  - intros i s Hs.
    assert ((s.1, outcome_of rt q (length log + i) s) ∈ combine files.*1 outs) as Hin.
    { apply list_elem_of_lookup. exists i. change (combine files.*1 outs) with (zip files.*1 outs).
      apply lookup_zip_Some. rewrite list_lookup_fmap, Hs. split; [done|]. unfold outs. by rewrite list_lookup_imap, Hs. }
    unfold outcome_of in Hin.
    destruct (rt_ask rt (length log + i) (file_request q s)) as [ev|e]; apply list_elem_of_omap; by eexists.
Qed.

Definition sample_args : Args :=
  {| arg_paths := [u "."; u "notes.txt"]; arg_kind := Noul; arg_instructions := u "Is it a greeting?";
     arg_criteria := VDict []; arg_recursive := Some true |}.

(** A provider that fails on its second call. *)
Definition flaky_runtime : Runtime :=
  {| rt_model := u "jev"; rt_ask := fun n _ => match n with
     | 1%nat => Raise (ProviderTimeoutError (u "late"))
     | _ => Ok (sample_evaluation FileJudge.sample_answers)
     end |}.

Lemma files_judge_answers_witness : exists q files rows outcomes,
  handle (U := ascii_unicode) sample_world sample_args flaky_runtime [] =
    (Ok (reply sample_args q rows outcomes), file_request q <$> files) /\
  {| skip_path := u "app/main.py"; skip_reason := u "call_failed:timeout" |} ∈ failures_of outcomes.
Proof.
  set (q := noul_question (u "Is it a greeting?") {| nc_true := VNone; nc_false := VNone |}).
  set (files := [(u "notes.txt", u "hi"); (u "app/main.py", u "x = 1")]).
  set (rows := [{| skip_path := u ".env"; skip_reason := u "secret_file" |}; {| skip_path := u "app/empty.py"; skip_reason := u "empty" |}]).
  assert (build_question (arg_kind sample_args) (arg_instructions sample_args) (arg_criteria sample_args) = Ok q) as Hq
    by (vm_compute; reflexivity).
  assert (plan (U := ascii_unicode) sample_world (cwd sample_world) true (arg_paths sample_args) = Ok (files, rows)) as Hp
    by (vm_compute; reflexivity).
  destruct (files_judge_answers sample_world ascii_unicode sample_args flaky_runtime [] q files rows Hq Hp) as (outcomes & H & _ & _ & Hall).
  - intros i s _ m. destruct i as [|[|i]]; discriminate.
  - exists q, files, rows, outcomes. split; [exact H|]. exact (Hall 1%nat _ eq_refl).
Defined.


(** A directory that cannot be listed ends the whole call when it is not walked recursively. *)
Definition locked_world : World :=
  {| cwd := [u "srv"]; resolve := Some; stat := stat sample_world; read_bytes := read_bytes sample_world;
     exists_ := fun _ => true; is_file := is_file sample_world; is_dir := fun p => bool_decide (p = [u "srv"; u "locked"]);
     listing := fun _ => None; walk_tree := fun _ => None |}.

Example locked_directory_fails :
  plan (U := ascii_unicode) locked_world [u "srv"] false [u "notes.txt"; u "locked"] = Raise (OtherError (u "Permission denied")) /\
  plan (U := ascii_unicode) locked_world [u "srv"] true [u "notes.txt"; u "locked"] =
    Ok ([(u "notes.txt", u "hi")], [{| skip_path := u "locked"; skip_reason := u "not_found" |}]).
Proof. split; vm_compute; reflexivity. Qed.
