(* ===== verification/GitDiff.v ===== *)
(** * Reading a git range

    Models [git_diff.py]: the checks on a range, the bounded [git diff], and the split of a unified diff
    into files.  Git is a parameter: [git] gives the return code and output of a call ([None] when it
    could not run or finish), [git_diff_bytes] the bytes [git diff] prints. *)
From S2P Require Import Prelude Text Limits PyStrings Paths Utf8 Serialize.
Open Scope Z_scope.

(** [GitDiffError] and its subclass [GitDiffTooLarge], with their message. *)
Inductive GitDiffError := GitFailed (message : text) | GitDiffTooLarge (message : text).

Definition CANONICAL : list text :=
  [u "--no-color"; u "--no-ext-diff"; u "--no-textconv"; u "--no-renames"; u "--src-prefix=a/"; u "--dst-prefix=b/"].

(** What [git diff] printed; [None] when it could not be started. *)
Record DiffRun := { run_code : Z; run_stdout : list Z }.

(** The operations of git this module uses, in a directory. *)
Record Git := {
  git : Path -> list text -> option (Z * text);
  git_diff_bytes : Path -> list text -> option DiffRun }.

(** [_range_ends]. *)
Definition range_ends (rev_range : text) : list text :=
  let ends := fun ab : text * text => List.filter (fun e => negb (bool_decide (e = []))) [ab.1; ab.2] in
  match split_once (u "...") rev_range with
  | Some ab => ends ab
  | None => match split_once (u "..") rev_range with Some ab => ends ab | None => [rev_range] end
  end.

Definition DIFF_BYTE_CAP : Z := 3 * gate_aggregate_evidence_units GATE + 3.

Section GitDiff.
Context (g : Git).

(** The stripped output of a call that succeeded and said something. *)
Definition answered (r : option (Z * text)) : option text :=
  match r with
  | Some (0, out) => match strip out with [] => None | t => Some t end
  | _ => None
  end.

Definition repo_root (cwd : Path) : result GitDiffError text :=
  match answered (git g cwd [u "rev-parse"; u "--show-toplevel"]) with
  | Some t => Ok t
  | None => Raise (GitFailed (u "gate refuses to run outside a git repo"))
  end.

(** [_names_a_tree]. *)
Definition names_a_tree (repo : Path) (e : text) : bool :=
  match answered (git g repo [u "rev-parse"; u "--verify"; u "--quiet"; e]) with
  | None => false
  | Some id =>
    match git g repo [u "rev-parse"; u "--verify"; u "--quiet"; id ++ u "^{tree}"] with
    | Some (code, _) => code =? 0
    | None => false
    end
  end.

(** [_bounded_diff]: one byte past the cap is read, never more. *)
Definition bounded_diff (repo : Path) (args : list text) : result GitDiffError text :=
  match git_diff_bytes g repo args with
  | None => Raise (GitFailed (u "git diff failed"))
  | Some r =>
    let data := take (Z.to_nat (DIFF_BYTE_CAP + 1)) (run_stdout r) in
    if DIFF_BYTE_CAP <? Z.of_nat (length data)
    then Raise (GitDiffTooLarge (u "the range's diff is over the " ++ grouped (gate_aggregate_evidence_units GATE)
                                 ++ u "-unit gate budget; narrow the range or gate it in parts"))
    else if negb (run_code r =? 0) then Raise (GitFailed (u "git diff failed"))
    else match decode data with Some t => Ok t | None => Raise (GitFailed (u "git diff failed")) end
  end.

Definition DASH : Z := 45.

Definition git_diff (repo : Path) (rev_range : text) (paths : list text) : result GitDiffError text :=
  if bool_decide (rev_range = []) || bool_decide (head rev_range = Some DASH) || mem 0 rev_range
     || existsb (fun e => negb (names_a_tree repo e)) (range_ends rev_range)
  then Raise (GitFailed (u "refusing that git range"))
  else
    let? out := bounded_diff repo
      (CANONICAL ++ rev_range :: match paths with [] => [] | _ => u "--" :: paths end) in
    match strip out with [] => Raise (GitFailed (u "git diff was empty")) | _ => Ok out end.

(** ** Splitting a unified diff *)
Definition HEADER : text := u "diff --git ".
Definition LF : Z := 10.

Record FilePatch := { fp_path : text; fp_patch : text }.

(** [first.rsplit(" b/", 1)[-1]]. *)
Definition after_last (needle t : text) : text := or_else (last (split_text needle t)) [].

(** Both halves of [a/X b/X], split at the midpoint. *)
Definition symmetric_path (rest : text) : option text :=
  let middle := (length rest / 2)%nat in
  if Nat.odd (length rest) && bool_decide (rest !! middle = Some 32)
  then
    let '(l, r) := (take middle rest, drop (S middle) rest) in
    if starts_with (u "a/") l && starts_with (u "b/") r && bool_decide (drop 2 l = drop 2 r)
    then Some (drop 2 r) else None
  else None.

Fixpoint drop_tabs (t : text) : text := match t with 9 :: t' => drop_tabs t' | _ => t end.

(** [_path_from_header]. *)
Definition path_from_header (chunk : text) : option text :=
  match splitlines chunk with
  | [] => None
  | first :: lines =>
    let path :=
      match symmetric_path (removeprefix HEADER first) with
      | Some path => Some path
      | None =>
        match List.find (starts_with (u "+++ b/")) lines with
        | Some plus => Some (rev (drop_tabs (rev (removeprefix (u "+++ b/") plus))))
        | None => if contains_text (u " b/") first then Some (after_last (u " b/") first) else None
        end
      end in
    match path with
    | None => None
    | Some path =>
      if bool_decide (path = []) || is_absolute path || mem (u "..") (components path) then None else Some path
    end
  end.

Definition ends_line (t : text) : bool := bool_decide (last t = Some LF).

Definition patch_of (chunk : text) : text := if ends_line chunk then chunk else chunk ++ [LF].

(** One chunk: nothing for a blank one, [None] for a header that names no path. *)
Definition file_of_chunk (chunk : text) : option (option FilePatch) :=
  match strip chunk with
  | [] => Some None
  | _ => match path_from_header chunk with
         | Some path => Some (Some {| fp_path := path; fp_patch := patch_of chunk |})
         | None => None
         end
  end.

(** The chunks: each starts at a header, except what precedes the first. *)
Definition chunks_of (diff : text) : list text :=
  match split_text (LF :: HEADER) diff with
  | [] => []
  | first :: parts => first :: ((fun part => HEADER ++ part) <$> parts)
  end.

Definition split_unified (diff : text) : option (list FilePatch) :=
  if negb (contains_text HEADER diff) then None
  else
    match mapM file_of_chunk (chunks_of diff) with
    | None => None
    | Some files => match omap id files with [] => None | l => Some l end
    end.

(** [diff_argument]: the file list, or the text of a diff that does not split. *)
Definition diff_argument (repo : Path) (rev_range : text) (paths : list text) : result GitDiffError (text + list FilePatch) :=
  let? diff := git_diff repo rev_range paths in
  Ok (match split_unified diff with Some files => inr files | None => inl diff end).
End GitDiff.

(** ** Facts: splitting *)
Lemma join_chunks first parts :
  join (LF :: HEADER) (first :: parts) = join [LF] (first :: ((fun part => HEADER ++ part) <$> parts)).
Proof.
  revert first. induction parts as [|part parts IH]; intros first; [done|].
  rewrite join_cons by done. rewrite IH, fmap_cons. rewrite (join_cons [LF] first) by done.
  cbn [app]. do 2 f_equal. destruct parts as [|part' parts]; [done|]. rewrite fmap_cons, !(join_cons [LF]) by done.
  by rewrite app_assoc.
Qed.

Lemma chunks_of_join diff : join [LF] (chunks_of diff) = diff.
Proof.
  unfold chunks_of. pose proof (join_split (LF :: HEADER) diff ltac:(done)) as H.
  destruct (split_text (LF :: HEADER) diff) as [|first parts]; [done|]. by rewrite <- join_chunks.
Qed.

Lemma lstrip_visible c t t' : is_space c = false -> lstrip (t ++ c :: t') <> [].
Proof. intros Hc. induction t as [|d t IH]; cbn [app lstrip]; [by rewrite Hc|]. by destruct (is_space d). Qed.

Lemma strip_visible c t t' : is_space c = false -> strip (t ++ c :: t') <> [].
Proof.
  intros Hc. unfold strip, rstrip.
  assert (exists p s, lstrip (t ++ c :: t') = p ++ c :: s) as (p & s & ->).
  { induction t as [|d t IH]; cbn [app lstrip]; [rewrite Hc; by exists [], t'|].
    destruct (is_space d); [exact IH|]. by exists (d :: t), t'. }
  rewrite rev_app_distr. cbn [rev]. rewrite <- app_assoc. cbn [app]. intros H%(f_equal (@rev Z)).
  rewrite rev_involutive in H. by apply (lstrip_visible c (rev s) (rev p)) in H.
Qed.

Lemma header_visible part : strip (HEADER ++ part) <> [].
Proof. change (HEADER ++ part) with ([] ++ 100 :: (tail HEADER ++ part)). by apply strip_visible. Qed.

(** A path the guards can name: relative, and not climbing. *)
Definition safe_path (path : text) : Prop := path <> [] /\ is_absolute path = false /\ ~ u ".." ∈ components path.

Lemma path_from_header_safe chunk path : path_from_header chunk = Some path -> safe_path path.
Proof.
  unfold path_from_header. destruct (splitlines chunk) as [|first lines]; [discriminate|]. cbv zeta.
  match goal with |- context [match ?o with Some path => if _ then None else Some path | None => None end] =>
    destruct o as [p|]; [|discriminate] end.
  destruct (bool_decide (p = []) || is_absolute p || mem (u "..") (components p)) eqn:E; [done|]. intros [= <-].
  apply orb_false_iff in E as [[E1 E2]%orb_false_iff E3]. apply bool_decide_eq_false in E1. split_and!; [done|done|].
  intros H%mem_spec. congruence.
Qed.

Lemma file_of_chunk_header part file : file_of_chunk (HEADER ++ part) = Some file ->
  exists path, file = Some {| fp_path := path; fp_patch := patch_of (HEADER ++ part) |} /\ safe_path path.
Proof.
  unfold file_of_chunk. destruct (strip (HEADER ++ part)) eqn:E; [by apply header_visible in E|].
  destruct (path_from_header _) as [path|] eqn:Ep; [|done]. intros [= <-]. exists path. split; [done|].
  by eapply path_from_header_safe.
Qed.

Lemma header_files parts files :
  mapM file_of_chunk ((fun part => HEADER ++ part) <$> parts) = Some files ->
  fp_patch <$> omap id files = patch_of <$> ((fun part => HEADER ++ part) <$> parts) /\
  Forall (fun f => safe_path (fp_path f)) (omap id files).
Proof.
  rewrite mapM_Some. revert files. induction parts as [|part parts IH]; intros files H; inversion H as [|? file ? files' Hf Hrest]; subst;
    [split; constructor|].
  apply file_of_chunk_header in Hf as (path & -> & Hp). destruct (IH _ Hrest) as [H1 H2].
  change (omap id (Some ?f :: files')) with (f :: omap id files'). cbn [fmap list_fmap fp_patch]. split; [by f_equal|by constructor].
Qed.

(** Splitting a diff loses nothing and names only safe paths: the patches, in order, are the chunks of
    the diff between its headers (each closed by a line feed); all that is dropped is white space
    before the first header. *)
Lemma split_unified_keeps diff files :
  split_unified diff = Some files ->
  exists blank chunks,
    diff = join [LF] (blank ++ chunks) /\ (blank = [] \/ exists b, blank = [b] /\ strip b = []) /\
    fp_patch <$> files = patch_of <$> chunks /\ Forall (fun f => safe_path (fp_path f)) files /\ files <> [].
Proof.
  unfold split_unified. destruct (negb _); [done|]. pose proof (chunks_of_join diff) as Hj. unfold chunks_of in *.
  destruct (split_text (LF :: HEADER) diff) as [|first parts]; [done|].
  destruct (mapM file_of_chunk _) as [fs|] eqn:Em; [|done]. apply mapM_Some in Em.
  inversion Em as [|? file ? rest Hfile Hrest]; subst. apply mapM_Some, header_files in Hrest as [Hpatch Hsafe].
  unfold file_of_chunk in Hfile. destruct (strip first) eqn:Es.
  - injection Hfile as <-. change (omap id (None :: rest)) with (omap id rest).
    destruct (omap id rest) eqn:Eo; [done|]. intros [= <-]. rewrite <- Eo in *.
    exists [first], ((fun part => HEADER ++ part) <$> parts). split_and!; [done|right; eauto|done|done|by rewrite Eo].
  - destruct (path_from_header first) as [path|] eqn:Ep; [|done]. injection Hfile as <-.
    change (omap id (Some ?f :: rest)) with (f :: omap id rest). intros [= <-].
    exists [], (first :: ((fun part => HEADER ++ part) <$> parts)). split_and!; [done|by left| | |done].
    + cbn [fmap list_fmap fp_patch]. by f_equal.
    + constructor; [by eapply path_from_header_safe|done].
Qed.

(** ** Facts: the read *)
Definition asked_diff (rev_range : text) (paths : list text) : list text :=
  CANONICAL ++ rev_range :: match paths with [] => [] | _ => u "--" :: paths end.

(** A range becomes a diff only through the checks: a non-empty range with no leading dash and no
    NUL whose named ends are all commits or trees, and a [git diff] with pinned flags that succeeded
    within the gate's budget; the file list is then the printed diff itself, cut at its headers with
    no line lost, each file under a relative path that does not climb.  A diff reported as too large
    really is over the budget, in UTF-16 units, whatever it decodes to. *)
Theorem diff_argument_guarded g repo rev_range paths :
  match diff_argument g repo rev_range paths with
  | Ok d => exists run diff,
      rev_range <> [] /\ head rev_range <> Some DASH /\ mem 0 rev_range = false /\
      Forall (fun e => names_a_tree g repo e = true) (range_ends rev_range) /\
      git_diff_bytes g repo (asked_diff rev_range paths) = Some run /\ run_code run = 0 /\
      decode (run_stdout run) = Some diff /\ strip diff <> [] /\
      match d with
      | inl t => t = diff
      | inr files => files <> [] /\ Forall (fun f => safe_path (fp_path f)) files /\
          exists blank chunks, diff = join [LF] (blank ++ chunks) /\ (blank = [] \/ exists b, blank = [b] /\ strip b = []) /\
            fp_patch <$> files = patch_of <$> chunks
      end
  | Raise (GitDiffTooLarge _) => exists run,
      git_diff_bytes g repo (asked_diff rev_range paths) = Some run /\
      gate_aggregate_evidence_units GATE < Utf16.length (decode_replace (run_stdout run))
  | Raise (GitFailed _) => True
  end.
Proof.
  unfold diff_argument, git_diff. destruct (bool_decide _ || _ || _ || _) eqn:E; [done|].
  apply orb_false_iff in E as [[[E1 E2]%orb_false_iff E3]%orb_false_iff E4].
  apply bool_decide_eq_false in E1, E2. fold (asked_diff rev_range paths). unfold bounded_diff.
  destruct (git_diff_bytes g repo (asked_diff rev_range paths)) as [run|] eqn:Er; [|done]. cbn [rbind].
  assert (0 <= DIFF_BYTE_CAP) as Hcap by (vm_compute; discriminate).
  destruct (DIFF_BYTE_CAP <? _) eqn:Ecap.
  { exists run. split; [done|]. rewrite length_take in Ecap. pose proof (decode_replace_bytes (run_stdout run)) as Hb.
    apply Z.ltb_lt in Ecap. rewrite Nat2Z.inj_min, Z2Nat.id in Ecap by lia. unfold DIFF_BYTE_CAP in *. lia. }
  destruct (negb (run_code run =? 0)) eqn:Ec; [done|]. rewrite length_take in Ecap.
  apply Z.ltb_ge in Ecap. rewrite Nat2Z.inj_min, Z2Nat.id in Ecap by lia. rewrite take_ge by lia. destruct (decode (run_stdout run)) as [diff|] eqn:Ed; cbn [rbind]; [|done].
  destruct (strip diff) eqn:Est; [done|]. cbn [rbind]. exists run, diff. split_and!; try done.
  - apply Forall_forall. intros e He. destruct (names_a_tree g repo e) eqn:En; [done|]. exfalso.
    apply not_true_iff_false in E4. apply E4, existsb_exists. exists e. rewrite En. split; [by apply list_elem_of_In|done].
  - lia.
  - by rewrite Est.
  - destruct (split_unified diff) as [files|] eqn:Es; [|done].
    apply split_unified_keeps in Es as (blank & chunks & H1 & H2 & H3 & H4 & H5). split_and!; [done|done|]. by exists blank, chunks.
Qed.

(** A repository that prints one change, for the samples. *)
Definition sample_diff : text :=
  u "diff --git a/a.py b/a.py" ++ [LF] ++ u "--- a/a.py" ++ [LF] ++ u "+++ b/a.py" ++ [LF] ++ u "@@ -1 +1 @@" ++ [LF]
  ++ u "-a" ++ [LF] ++ u "+b" ++ [LF]
  ++ u "diff --git a/.env b/.env" ++ [LF] ++ u "@@ -0,0 +1 @@" ++ [LF] ++ u "+KEY=1" ++ [LF].
Definition sample_git : Git :=
  {| git := fun _ _ => Some (0, u "abc"); git_diff_bytes := fun _ _ => Some {| run_code := 0; run_stdout := sample_diff |} |}.

Example split_sample :
  option_map (map fp_path) (split_unified sample_diff) = Some [u "a.py"; u ".env"] /\
  range_ends (u "main...HEAD") = [u "main"; u "HEAD"] /\ range_ends (u "..HEAD") = [u "HEAD"] /\ range_ends (u "HEAD~1") = [u "HEAD~1"].
Proof. split_and!; vm_compute; reflexivity. Qed.
