(* ===== verification/GateRange.v ===== *)
(** * jev_gate_range

    Models [tools/gate_range.py]: the range read by the server, the guards over its patches, and the
    hand-over to the jev_gate handler.  SHA-256 is a parameter. *)
From S2P Require Import Prelude Float64 Text Limits Json Domain Ids Policy Responses Runtime Samples ReviewHalf PyStrings Paths Utf8.
From S2P Require Import FileState GitDiff.
From S2P Require Gate.
Open Scope Z_scope.

Definition NAME : text := u "jev_gate_range".

Record Args := {
  arg_request : text; arg_range : text; arg_claims : list text; arg_evidence : evidence_arg; arg_tests_path : option text;
  arg_auto_accept : option float; arg_review_at : option float; arg_composite_floor : option float }.

(** A patch as the item jev_gate takes. *)
Definition patch_item (path patch : text) : item := [(u "path", path); (u "patch", patch)].

Section GateRange.
Context {U : Unicode} (w : World) (g : Git) (sha256 : text -> text).

Definition is_secret_patch (f : FilePatch) : bool := is_secret_name (name_of_text (fp_path f)).

(** [_guarded]: the items that may be sent, and the paths that are not. *)
Definition guarded (diff : text + list FilePatch) : result exn (list item * list text) :=
  match diff with
  | inl _ => Raise (ToolError (u "git diff headers did not split into files; use jev_gate for this patch") (u "invalid_arguments"))
  | inr files =>
    let kept := (fun f => patch_item (fp_path f) (redact_literals (fp_patch f))) <$> List.filter (fun f => negb (is_secret_patch f)) files in
    let skipped := fp_path <$> List.filter is_secret_patch files in
    match kept with
    | [] => refuse (u "secret_file") (u "every file in that range is a secret store; nothing was sent")
    | _ => Ok (kept, skipped)
    end
  end.

(** [_read_range]. *)
Definition read_range (rev_range : text) : result GitDiffError (text + list FilePatch) :=
  let? _ := repo_root g (cwd w) in diff_argument g (cwd w) rev_range [u "."].

Definition range_error (e : GitDiffError) : exn :=
  match e with
  | GitDiffTooLarge m => ToolError m (u "input_too_large")
  | GitFailed m => ToolError (m ++ u " (server working directory: " ++ path_text (cwd w) ++ u ")") (u "invalid_arguments")
  end.

Definition read_tests (tests_path : option text) : result exn (option text) :=
  match tests_path with
  | None => Ok None
  | Some t => let? p := resolve_scoped w (cwd w) t in let? tests := read_state w p FILE_JUDGE_READ in Ok (Some tests)
  end.

(** The arguments jev_gate gets. *)
Definition passed (args : Args) (tests : option text) (files : list item) : Gate.GateArgs :=
  {| Gate.gate_review :=
       {| ReviewHalf.arg_request := arg_request args; ReviewHalf.arg_diff := DiffFiles files;
          ReviewHalf.arg_tests := tests; ReviewHalf.arg_tests_sha256 := sha256 <$> tests;
          ReviewHalf.arg_auto_accept := arg_auto_accept args; ReviewHalf.arg_review_at := arg_review_at args;
          ReviewHalf.arg_composite_floor := arg_composite_floor args |};
     Gate.arg_claims := arg_claims args; Gate.arg_evidence := arg_evidence args |}.

Definition skipped_value (paths : list text) : value :=
  VList ((fun p => VDict [(u "path", VStr p); (u "reason", vs "secret_file")]) <$> paths).

(** [replace(result, payload={**payload, "tool": NAME, **extra})]. *)
Definition retag (skipped : list text) (r : ToolResult) : ToolResult :=
  {| payload :=
       let named := dset (u "tool") (VStr NAME) (payload r) in
       match skipped with [] => named | _ => dset (u "skipped") (skipped_value skipped) named end;
     is_error := is_error r; action := action r; item_actions := item_actions r; tr_truncated := tr_truncated r;
     error_code := error_code r; extract := extract r |}.

Definition handle (args : Args) (rt : Runtime) : M ToolResult :=
  let! tests := mlift (read_tests (arg_tests_path args)) in
  let! diff := mlift (match read_range (arg_range args) with Ok d => Ok d | Raise e => Raise (range_error e) end) in
  let! (files, skipped) := mlift (guarded diff) in
  let! result := Gate.handle (passed args tests files) rt in
  mret (retag skipped result).

(** ** Facts *)
(** What the guards let through: every file of the range, once, either redacted or named as skipped. *)
Definition split_by_guard (files : list FilePatch) (sent : list item) (skipped : list text) : Prop :=
  sent = (fun f => patch_item (fp_path f) (redact_literals (fp_patch f))) <$> List.filter (fun f => negb (is_secret_patch f)) files /\
  skipped = fp_path <$> List.filter is_secret_patch files /\ sent <> [] /\
  (length sent + length skipped = length files)%nat.

Lemma guarded_Ok diff sent skipped :
  guarded diff = Ok (sent, skipped) -> exists files, diff = inr files /\ split_by_guard files sent skipped.
Proof.
  destruct diff as [t|files]; [done|]. cbn [guarded]. rewrite refuse_known by done.
  destruct (_ <$> List.filter _ files) as [|i l] eqn:E; [done|]. rewrite <- E. intros [= <- <-]. exists files.
  split; [done|]. split_and!; [done|done|by rewrite E|]. rewrite !length_fmap. clear E.
  induction files as [|f files IH]; [done|]. cbn. destruct (is_secret_patch f); cbn; lia.
Qed.

(** jev_gate_range is jev_gate over the guarded range: a call that reaches the gate has read the
    range with git inside the working directory, and hands the gate exactly the files of that diff
    whose names are no secret store's, each patch redacted, with a test log only if it is readable
    as state; its answer is the gate's, under its own name, with every withheld file listed.  Any
    other call ends in an error with no request. *)
Theorem gate_range_guarded args rt log r log' :
  handle args rt log = (r, log') ->
  (exists files sent skipped tests,
     diff_argument g (cwd w) (arg_range args) [u "."] = Ok (inr files) /\ split_by_guard files sent skipped /\
     read_tests (arg_tests_path args) = Ok tests /\
     match Gate.handle (passed args tests sent) rt log with
     | (Ok res, log1) => r = Ok (retag skipped res) /\ log' = log1 /\ action (retag skipped res) = action res
     | (Raise e, log1) => r = Raise e /\ log' = log1
     end) \/
  (exists e, r = Raise e /\ log' = log).
Proof.
  unfold handle, mbind, mlift. destruct (read_tests (arg_tests_path args)) as [tests|e]; [|intros [= <- <-]; right; eauto].
  unfold read_range. destruct (repo_root g (cwd w)) as [t|e]; cbn [rbind]; [|intros [= <- <-]; right; eauto].
  destruct (diff_argument g (cwd w) (arg_range args) [u "."]) as [diff|e] eqn:Ed; [|intros [= <- <-]; right; eauto].
  destruct (guarded diff) as [[sent skipped]|e] eqn:Eg; [|intros [= <- <-]; right; eauto].
  apply guarded_Ok in Eg as (files & -> & Hs). intros H. left. exists files, sent, skipped, tests.
  split_and!; [done|done|done|]. destruct (Gate.handle (passed args tests sent) rt log) as [[res|e] log1]; by injection H as <- <-.
Qed.
End GateRange.

Definition sample_args : Args :=
  {| arg_request := u "rename"; arg_range := u "HEAD~1"; arg_claims := [u "a is b"]; arg_evidence := EvText (u "log");
     arg_tests_path := Some (u "notes.txt"); arg_auto_accept := None; arg_review_at := None; arg_composite_floor := None |}.

Lemma gate_range_guarded_witness : exists (sent : list item) (skipped : list text),
  skipped = [u ".env"] /\ (length sent = 1)%nat.
Proof.
  destruct (handle (U := ascii_unicode) sample_world sample_git (fun _ => u "00") sample_args (sample_runtime review_replies) [])
    as [r log'] eqn:E.
  destruct (gate_range_guarded (U := ascii_unicode) sample_world sample_git (fun _ => u "00") sample_args
    (sample_runtime review_replies) [] r log' E) as [(files & sent & skipped & tests & Hd & (_ & Hk & _ & Hl) & _)|(e & _ & ->)].
  - exists sent, skipped. vm_compute in Hd. injection Hd as Hf.
    assert (length files = 2%nat) as Hn by (rewrite <- Hf; reflexivity).
    assert (skipped = [u ".env"]) as -> by (rewrite Hk, <- Hf; vm_compute; reflexivity).
    split; [reflexivity|]. cbn [length] in Hl. lia.
  - exfalso. apply (f_equal (fun x => length x.2)) in E. vm_compute in E. discriminate.
Defined.
