(* ===== verification/Ask.v ===== *)
(** * jev_ask

    Models [tools/ask_state.py] (the parts of a composed state, the refusals of a command, what becomes
    of the output of a run, the split suggestion) and [tools/ask.py] (the caller's questions, the order of
    the refusals, the gated command and the answers).  What running the command does is a parameter. *)
From S2P Require Import Prelude Float64 Text Limits Json Serialize Domain Ids Validation Runtime Samples PyStrings Paths Utf8 Regex Credential.
From S2P Require Import FileState FileJudge Hook.
From S2P Require Files.
Open Scope Z_scope.

Definition OWN_PART : text := u "state".
Definition OUTPUT_PART : text := u "command output".

Record Part := { part_name : text; part_text : text; part_units : Z }.
Record Skipped := { skipped_path : text; skipped_reason : text }.

Definition total_units (parts : list Part) : Z := sum_over part_units parts.

Definition input_too_large {A} (message : text) : result exn A := Raise (ToolError message (u "input_too_large")).

Section AskState.
Context {U : Unicode}.

(** [own_part]. *)
Definition own_part (state_text : text) : result exn (option Part) :=
  let t := redact_literals state_text in
  match strip t with
  | [] => Ok None
  | _ =>
    let units := Utf16.length t in
    if ask_state_units_max ASK <? units
    then input_too_large (u "own state is " ++ grouped units ++ u " units, over the " ++ grouped (ask_state_units_max ASK)
                          ++ u "-unit cap after redaction")
    else Ok (Some {| part_name := OWN_PART; part_text := t; part_units := units |})
  end.

(** [file_parts]: a refusal is a skip; [resolve]'s [ValueError] is not caught. *)
Definition file_part (w : World) (raw : text) : result exn (Part + Skipped) :=
  match (let? p := resolve_scoped w (cwd w) raw in read_state w p FILE_JUDGE_READ) with
  | Ok content => Ok (inl {| part_name := raw; part_text := content; part_units := Utf16.length content |})
  | Raise (ToolError _ code) => Ok (inr {| skipped_path := raw; skipped_reason := code |})
  | Raise e => Raise e
  end.

(** Exact duplicates are read once. *)
Definition distinct_paths (paths : list text) : list text :=
  fold_left (fun seen p => if bool_decide (p ∈ seen) then seen else seen ++ [p]) paths [].

Definition file_parts (w : World) (paths : list text) : result exn (list Part * list Skipped) :=
  let? read := rmap (file_part w) (distinct_paths paths) in
  Ok (omap (fun r => match r with inl p => Some p | inr _ => None end) read,
      omap (fun r => match r with inl _ => None | inr s => Some s end) read).

(** ** The gate of a command *)
(** The command hook's own questions. *)
Definition gate_questions : dict Question := bash_questions.

Definition redact_values (redactions : list text) (t : text) : text :=
  fold_left (fun t secret => match secret with [] => t | _ => replace secret REDACTED t end) redactions t.

Definition gate_state (cwd_text command : text) (redactions : list text) : text :=
  event_state [(u "cwd", VStr cwd_text); (u "tool_name", vs "Bash"); (u "tool_input", VStr command)] None Unknown
    (fun t => redact_values redactions (redact_action t)).

Definition refused_text (failure measure : text) : text :=
  u "command refused: " ++ failure ++ measured measure ++ u ". " ++ FINAL_BLOCK_NOTICE.

(** [command_refusal]. *)
Definition command_refusal (answers : dict value) : option text :=
  match validate_choice (get EFFECT_ID answers) (dkeys EFFECT_CRITERIA), validate_noul (get DESTRUCTIVE_ID answers) with
  | Some effect, Some destructive =>
    if fgeb destructive DESTRUCTIVE_INTENT_THRESHOLD
    then Some (refused_text (u "the command looks aimed at destroying work") (probability_text destructive))
    else if below_floor effect
    then Some (refused_text (u "the gate could not tell what the command would do") (confidence_text (confidence_floor effect).1))
    else if negb (bool_decide (choice effect = u "read_only"))
    then Some (refused_text (u "the command looks " ++ choice effect) (confidence_text (confidence_floor effect).1))
    else None
  | _, _ => Some (refused_text (u "the gate's answers were malformed or missing") [])
  end.

(** ** The denylist *)
Definition NETWORK_CLIENTS : list text :=
  [u "curl"; u "wget"; u "nc"; u "ncat"; u "netcat"; u "ssh"; u "scp"; u "sftp"; u "rsync"; u "ftp"; u "telnet"; u "socat"].
Definition ENVIRONMENT_READERS : list text := [u "env"; u "printenv"; u "set"; u "export"].
Definition PRIVATE_DIRECTORIES : list text := [u "~/.ssh"; u "~/.aws"; u "~/.config"; u "~/.pi"; u "~/.claude"; u "~/.codex"].
(** Their names: [lstrip("~/")]. *)
Definition PRIVATE_NAMES : list text := [u ".ssh"; u ".aws"; u ".config"; u ".pi"; u ".claude"; u ".codex"].

(** [_TOKEN_SPLIT]: white space and the shell's metacharacters. *)
Definition ends_word (c : Z) : bool := is_space c || one_of "|;&()<>'" c || (c =? 34).

Fixpoint words_at (word : text) (t : text) : list text :=
  match t with
  | [] => match word with [] => [] | _ => [rev word] end
  | c :: t' =>
    if ends_word c then match word with [] => words_at [] t' | _ => rev word :: words_at [] t' end
    else words_at (c :: word) t'
  end.
Definition command_tokens (command : text) : list text := words_at [] command.

(** [os.path.basename]. *)
Definition basename (t : text) : text := or_else (last (split_char SLASH t)) [].

Definition command_denylist_refusal (expanduser : text -> text) (command : text) : option text :=
  let tokens := command_tokens command in
  let words := (fun t => uni_lower (basename t)) <$> tokens in
  let lowered := uni_lower command in
  if existsb (fun w => mem w NETWORK_CLIENTS) words then Some (refused_text (u "the command reaches the network") [])
  else if existsb (fun w => mem w ENVIRONMENT_READERS) words
  then Some (refused_text (u "the command reads or changes environment variables") [])
  else if existsb (fun d => contains_text (uni_lower d) lowered || contains_text (uni_lower (expanduser d)) lowered) PRIVATE_DIRECTORIES
          || existsb (fun t => existsb (fun part => mem (uni_lower part) PRIVATE_NAMES) (components t)) tokens
  then Some (refused_text (u "the command reaches a private configuration directory") [])
  else if existsb (fun t => is_secret_name (name_of_text t)) tokens
  then Some (refused_text (u "the command touches a known secret store") [])
  else None.

Definition command_disabled_refusal : text :=
  u "command execution is disabled on this server; the operator can enable it with JEV_ASK_COMMANDS=1 in the server environment. "
  ++ FINAL_BLOCK_NOTICE.

(** ** The run *)
Inductive CommandRun :=
| SpawnFails (reason : text)
| Ran (timed_out overflowed held_open : bool) (returncode : Z) (stdout stderr : list Z).

Definition NL : text := [10].

(** [run_command], after the process. *)
Definition output_part (redactions : list text) (run : CommandRun) : result exn Part :=
  match run with
  | SpawnFails reason => Raise (ToolError (u "the command could not run (" ++ reason ++ u ")") (u "command_failed"))
  | Ran timed_out overflowed held_open returncode stdout stderr =>
    if timed_out
    then Raise (ToolError (u "the command exceeded the " ++ str_of_Z (ask_command_timeout_seconds ASK)
      ++ u "-second timeout and was killed; run a shorter or quieter command") (u "command_timeout"))
    else if overflowed
    then Raise (ToolError (u "the command output passed the " ++ grouped (ask_command_output_units_max ASK)
      ++ u "-unit cap and the run was killed; run a command that prints less") (u "output_too_large"))
    else if held_open
    then Raise (ToolError (u "the command left a process holding its output open after it exited; run a command whose children exit with it")
      (u "command_failed"))
    else
      let block := redact_values redactions (redact_literals (redact_action
        (u "exit status: " ++ str_of_Z returncode ++ NL ++ u "--- stdout ---" ++ NL ++ decode_replace stdout ++ NL
         ++ u "--- stderr ---" ++ NL ++ decode_replace stderr))) in
      let units := Utf16.length block in
      if ask_command_output_units_max ASK <? units
      then Raise (ToolError (u "the command output is " ++ grouped units ++ u " units, over the "
        ++ grouped (ask_command_output_units_max ASK) ++ u "-unit cap; re-run a command that prints less") (u "output_too_large"))
      else Ok {| part_name := OUTPUT_PART; part_text := block; part_units := units |}
  end.
End AskState.

(** ** Sizes *)
(** [str(value)] of a criteria text: [None] prints four characters. *)
Definition criterion_text (v : value) : text := match v with VStr t => t | VNone => u "None" | _ => [] end.

Definition criteria_values (q : Question) : list value :=
  match q with
  | QNoul q => [nc_true (nq_criteria q); nc_false (nq_criteria q)]
  | QChoice q => dvalues (cq_criteria q)
  | QScore q => sq_criteria q
  end.
Definition instructions_of (q : Question) : value :=
  match q with QNoul q => nq_instructions q | QChoice q => cq_instructions q | QScore q => sq_instructions q end.

Definition question_units (questions : dict Question) : Z :=
  sum_over (fun kq => Utf16.length kq.1 + Utf16.length (criterion_text (instructions_of kq.2))
    + sum_over (fun v => Utf16.length (criterion_text v)) (criteria_values kq.2)) questions.

(** ** The split suggestion *)
(** The calls of the suggestion: a part joins the last call while it fits, else it opens a new one. *)
Definition pack_step (capacity : Z) (acc : list (list Part) * Z) (part : Part) : list (list Part) * Z :=
  let '(calls, fill) := acc in
  match rev calls with
  | current :: earlier =>
    if capacity <? fill + part_units part then (calls ++ [[part]], part_units part)
    else (rev ((current ++ [part]) :: earlier), fill + part_units part)
  | [] => ([[part]], part_units part)
  end.
Definition pack (capacity : Z) (parts : list Part) : list (list Part) := (fold_left (pack_step capacity) parts ([], 0)).1.

Definition part_sizes (parts : list Part) : text :=
  join (u "; ") ((fun p => part_name p ++ u " " ++ grouped (part_units p)) <$> parts).

Definition call_text (ic : nat * list Part) : text :=
  u "call " ++ str_of_nat (S ic.1) ++ u ": " ++ join (u ", ") (part_name <$> ic.2).

(** [split_refusal]: the one refusal of an over-budget composition. *)
Definition split_message (parts : list Part) (questions_units : Z) : text :=
  let cap := ask_request_units_max ASK in
  let capacity := cap - questions_units in
  let oversized := List.filter (fun p => capacity <? part_units p) parts in
  join (u " ")
    ([u "jev_ask: the composed request is " ++ grouped (total_units parts) ++ u " units of state plus " ++ grouped questions_units
      ++ u " units of questions, over the " ++ grouped cap ++ u "-unit cap. Nothing is truncated.";
      u "Per part: " ++ part_sizes parts ++ u "."]
     ++ (if cap <? questions_units
         then [u "The questions alone exceed the cap; trim the question set (fewer or narrower questions)."]
         else
           match oversized with
           | _ :: _ =>
             [join (u " and ") (part_name <$> oversized) ++ u " cannot fit beside the questions in one call (" ++ grouped capacity
              ++ u " units of room); shrink or drop that part."]
           | [] =>
             [u "Split suggestion: " ++ join (u "; ") (call_text <$> enumerate (pack capacity parts))
              ++ u ". Re-ask the same questions on every call."]
           end)).

Definition split_refusal {A} (parts : list Part) (questions_units : Z) : result exn A :=
  input_too_large (split_message parts questions_units).

(** ** Facts: the command's gate *)
(** What an ask demands of the judge before it runs a command: a read-only effect, said with at least
    the confidence its floor asks, and a destructive aim below the threshold. *)
Definition runnable (answers : dict value) : Prop :=
  exists effect p, validate_choice (get EFFECT_ID answers) (dkeys EFFECT_CRITERIA) = Some effect /\
    choice effect = u "read_only" /\ below_floor effect = false /\
    validate_noul (get DESTRUCTIVE_ID answers) = Some p /\ fltb p DESTRUCTIVE_INTENT_THRESHOLD = true.

Lemma command_refusal_None answers : command_refusal answers = None <-> runnable answers.
Proof.
  unfold command_refusal, runnable. destruct (validate_choice _ _) as [e|] eqn:Ee.
  2:{ split; [done|]. by intros (? & ? & ? & _). }
  destruct (validate_noul _) as [p|] eqn:Ep.
  2:{ split; [done|]. by intros (? & ? & _ & _ & _ & ? & _). }
  assert (fgeb p DESTRUCTIVE_INTENT_THRESHOLD = false <-> fltb p DESTRUCTIVE_INTENT_THRESHOLD = true) as Ht.
  { unfold fgeb. rewrite fleb_negb; [apply negb_false_iff|by eapply in_unit_num, validate_noul_unit|by vm_compute]. }
  split.
  - destruct (fgeb p _) eqn:Eg; [done|]. destruct (below_floor e) eqn:Eb; [done|]. case_bool_decide as Hc; [|done].
    intros _. exists e, p. split_and!; try done. by apply Ht.
  - intros (e' & p' & [= <-] & Hc & Hb & [= <-] & Hp). apply Ht in Hp. rewrite Hp, Hb, bool_decide_eq_true_2 by done. done.
Qed.

(** What an ask may run, the command hook lets through: the ask is the stricter of the two. *)
Lemma runnable_allowed answers : runnable answers -> kind (bash_outcome answers) = Allow.
Proof.
  intros (e & p & He & Hc & Hb & Hp & Ht). unfold bash_outcome. unfold get in He, Hp.
  destruct (dget EFFECT_ID answers) as [v1|]; [|done]. destruct (dget DESTRUCTIVE_ID answers) as [v2|]; [|done].
  cbn [or_else] in He, Hp. rewrite He, Hp, Hb. unfold fgeb. rewrite fleb_negb; [|by eapply in_unit_num, validate_noul_unit|by vm_compute].
  rewrite Ht. cbn [negb]. rewrite bool_decide_eq_false_2; [done|]. by rewrite Hc.
Qed.

(** ** Facts: the split suggestion *)
Lemma total_units_app l l' : total_units (l ++ l') = total_units l + total_units l'.
Proof. unfold total_units. induction l as [|a l IH]; cbn [app]; rewrite ?sum_over_cons; [done|]. rewrite IH. lia. Qed.

Lemma total_units_one p : total_units [p] = part_units p.
Proof. unfold total_units. rewrite sum_over_cons. cbn. lia. Qed.

Definition fits (capacity : Z) (call : list Part) : Prop := total_units call <= capacity.

(** No cut of the same parts into calls that fit beats [n] calls with [fill] in the last: each has more
    calls, or as many and no shorter a last one. *)
Definition unbeaten (n : nat) (fill : Z) (cut : list (list Part)) : Prop :=
  (n < length cut)%nat \/
  (n = length cut /\ exists front back, cut = front ++ [back] /\ fill <= total_units back).

(** The state of the packing: the parts so far, in order and once, in calls that fit. *)
Record packed (capacity : Z) (parts : list Part) (calls : list (list Part)) (fill : Z) : Prop := {
  pk_sizes : Forall (fun p => 0 <= part_units p <= capacity) parts;
  pk_parts : concat calls = parts;
  pk_calls : Forall (fun call => call <> [] /\ fits capacity call) calls;
  pk_fill : match rev calls with [] => True | last :: _ => total_units last = fill end;
  pk_least : forall cut, concat cut = parts -> Forall (fits capacity) cut -> cut <> [] -> unbeaten (length calls) fill cut }.

Lemma total_units_nonneg capacity l : Forall (fun p => 0 <= part_units p <= capacity) l -> 0 <= total_units l.
Proof.
  unfold total_units. induction 1; rewrite ?sum_over_cons; [done|]. lia.
Qed.

(** A cut of [parts ++ [p]]: its last call is empty, or ends with [p]. *)
Lemma cut_snoc {A} (parts : list A) p cut :
  concat cut = parts ++ [p] ->
  (exists front, cut = front ++ [[]] /\ concat front = parts ++ [p]) \/
  (exists front back, cut = front ++ [back ++ [p]] /\ concat (front ++ [back]) = parts).
Proof.
  destruct cut as [|back front _] using rev_ind; [by destruct parts|].
  rewrite concat_app. cbn [concat]. rewrite app_nil_r.
  destruct back as [|x back _] using rev_ind; [rewrite app_nil_r; left; by eexists|].
  rewrite app_assoc. intros [H ->]%app_inj_tail. right. exists front, back. split; [done|].
  rewrite concat_app. cbn [concat]. by rewrite app_nil_r.
Qed.

(** It is enough to beat the cuts whose last call ends with the new part. *)
Lemma unbeaten_snoc capacity parts p n fill :
  0 <= part_units p ->
  (forall front back, concat (front ++ [back]) = parts -> Forall (fits capacity) (front ++ [back]) ->
     total_units back + part_units p <= capacity -> unbeaten n fill (front ++ [back ++ [p]])) ->
  forall cut, concat cut = parts ++ [p] -> Forall (fits capacity) cut -> unbeaten n fill cut.
Proof.
  intros Hp Hlast cut. induction cut as [|call cut IH] using rev_ind; [by destruct parts|]. intros Hc Hf.
  apply Forall_app in Hf as [Hf Hl].
  destruct (cut_snoc _ _ _ Hc) as [(front & [-> ->]%app_inj_tail & Hd)|(front & back & [-> ->]%app_inj_tail & Hd)].
  - left. rewrite length_app. cbn [length]. destruct (IH Hd Hf) as [H|[H _]]; lia.
  - apply Forall_inv in Hl. unfold fits in Hl. rewrite total_units_app, total_units_one in Hl.
    apply Hlast; [done| |lia]. apply Forall_app. split; [done|]. constructor; [unfold fits; lia|done].
Qed.

Lemma packed_opens capacity parts calls fill p :
  0 <= part_units p <= capacity -> calls = [] \/ capacity < fill + part_units p ->
  packed capacity parts calls fill -> packed capacity (parts ++ [p]) (calls ++ [[p]]) (part_units p).
Proof.
  intros Hp Hfull [H0 H1 H2 H3 H4]. constructor.
  - apply Forall_app. by split; [|constructor].
  - rewrite concat_app, H1. by cbn.
  - apply Forall_app. split; [done|]. constructor; [|done]. split; [done|]. unfold fits. rewrite total_units_one. lia.
  - rewrite rev_app_distr. cbn. apply total_units_one.
  - intros cut Hc Hf _. revert cut Hc Hf. apply (unbeaten_snoc capacity); [lia|]. intros front back Hd Hf Hb.
    assert (0 <= total_units back).
    { apply (total_units_nonneg capacity). rewrite concat_app in Hd. cbn [concat] in Hd. rewrite app_nil_r in Hd.
      rewrite <- Hd in H0. by apply Forall_app in H0 as [_ ?]. }
    unfold unbeaten. rewrite !length_app. cbn [length].
    assert (length calls < S (length front))%nat as Hlt.
    { destruct Hfull as [->|Hfull]; [cbn; lia|].
      destruct (H4 _ Hd Hf ltac:(by destruct front)) as [Hlt|[Heq (f & b & [-> ->]%app_inj_tail & Hle)]]; [|lia].
      rewrite length_app in Hlt. cbn [length] in Hlt. lia. }
    destruct (decide (length calls + 1 < length front + 1)%nat); [by left|right]. split; [lia|].
    exists front, (back ++ [p]). split; [done|]. rewrite total_units_app, total_units_one. lia.
Qed.

Lemma packed_joins capacity parts earlier current fill p :
  0 <= part_units p -> fill + part_units p <= capacity -> packed capacity parts (earlier ++ [current]) fill ->
  packed capacity (parts ++ [p]) (earlier ++ [current ++ [p]]) (fill + part_units p).
Proof.
  intros Hp Hfit [H0 H1 H2 H3 H4]. rewrite rev_app_distr in H3. cbn in H3. apply Forall_app in H2 as [H2 H2'].
  apply Forall_inv in H2' as [Hne _].
  assert (total_units (current ++ [p]) = fill + part_units p) as Ht by (rewrite total_units_app, total_units_one; lia).
  assert (0 <= total_units current).
  { apply (total_units_nonneg capacity). rewrite concat_app in H1. cbn [concat] in H1. rewrite app_nil_r in H1.
    rewrite <- H1 in H0. by apply Forall_app in H0 as [_ ?]. }
  constructor.
  - apply Forall_app. split; [done|]. constructor; [lia|done].
  - rewrite <- H1, !concat_app. cbn [concat]. by rewrite !app_nil_r, app_assoc.
  - apply Forall_app. split; [done|]. constructor; [|done]. split; [by destruct current|]. unfold fits. lia.
  - rewrite rev_app_distr. by cbn.
  - intros cut Hc Hf _. revert cut Hc Hf. apply (unbeaten_snoc capacity); [done|]. intros front back Hd Hf Hb.
    unfold unbeaten. rewrite !length_app. cbn [length].
    destruct (H4 _ Hd Hf ltac:(by destruct front)) as [Hlt|[Heq (f & b & [-> ->]%app_inj_tail & Hle)]];
      rewrite !length_app in *; cbn [length] in *; [by left|right]. split; [done|].
    exists f, (b ++ [p]). split; [done|]. rewrite total_units_app, total_units_one. lia.
Qed.

Lemma pack_packed capacity parts :
  Forall (fun p => 0 <= part_units p <= capacity) parts ->
  let '(calls, fill) := fold_left (pack_step capacity) parts ([], 0) in packed capacity parts calls fill.
Proof.
  induction parts as [|p parts IH] using rev_ind; intros H.
  { cbn [fold_left]. constructor; try done. intros cut _ _ Hne. left. destruct cut; [done|cbn; lia]. }
  apply Forall_app in H as [H Hp%Forall_inv]. rewrite fold_left_app. cbn [fold_left]. specialize (IH H).
  destruct (fold_left _ parts _) as [calls fill]. cbn [pack_step]. destruct (rev calls) as [|current earlier] eqn:Er.
  - assert (calls = []) as -> by (rewrite <- (rev_involutive calls), Er; done). apply (packed_opens _ _ [] fill); auto.
  - assert (calls = rev earlier ++ [current]) as -> by (rewrite <- (rev_involutive calls), Er; done).
    destruct (capacity <? fill + part_units p) eqn:Efull.
    + apply (packed_opens _ _ _ fill); [done|right; lia|done].
    + cbn [rev]. apply packed_joins; [lia|lia|done].
Qed.

(** The split suggestion is right and cannot be cut shorter: when every part fits beside the questions,
    the suggested calls hold the parts exactly once and in order, none is empty or over the room there
    is, and no other way of cutting the same sequence of parts into calls that fit needs fewer calls. *)
Theorem pack_minimal capacity parts :
  Forall (fun p => 0 <= part_units p <= capacity) parts ->
  concat (pack capacity parts) = parts /\
  Forall (fun call => call <> [] /\ fits capacity call) (pack capacity parts) /\
  forall cut, concat cut = parts -> Forall (fits capacity) cut -> (length (pack capacity parts) <= length cut)%nat.
Proof.
  intros H. pose proof (pack_packed capacity parts H) as Hp. unfold pack.
  destruct (fold_left _ parts _) as [calls fill]. destruct Hp as [_ H1 H2 _ H4]. cbn [fst]. split; [done|]. split; [done|].
  intros [|call cut] Hc Hf.
  - cbn [concat] in Hc. rewrite <- Hc in H1. destruct calls as [|c calls]; [done|]. exfalso. apply Forall_inv in H2 as [H2 _].
    cbn [concat] in H1. by destruct c.
  - destruct (H4 _ Hc Hf ltac:(done)) as [Hl|[Hl _]]; lia.
Qed.

Definition sized (units : Z) : Part := {| part_name := u "f"; part_text := []; part_units := units |}.
Definition sample_parts : list Part := [sized 60; sized 70; sized 40; sized 30].

Lemma pack_minimal_witness :
  length (pack 100 sample_parts) = 3%nat /\
  forall cut, concat cut = sample_parts -> Forall (fits 100) cut -> (3 <= length cut)%nat.
Proof.
  destruct (pack_minimal 100 sample_parts) as (_ & _ & H).
  - repeat constructor; cbn; lia.
  - split; [vm_compute; reflexivity|exact H].
Defined.

(** The suggestion keeps the parts in order, and so is not the fewest calls there are: these four fit in two. *)
Example out_of_order_is_shorter :
  exists calls, Permutation (concat calls) sample_parts /\ Forall (fits 100) calls /\
    (length calls < length (pack 100 sample_parts))%nat.
Proof.
  exists [[sized 60; sized 40]; [sized 70; sized 30]]. split; [|split].
  - cbn. constructor. apply perm_swap.
  - repeat constructor; vm_compute; discriminate.
  - vm_compute. lia.
Qed.

(** * jev_ask

    Models [tools/ask.py]: the caller's questions, the order of the refusals, the gated command and the
    answers.  What running the command does is the parameter [run]. *)

Record Args := {
  arg_questions : value; arg_state : option text; arg_paths : option (list text); arg_command : option text }.

(** What the server's settings and process give. *)
Record AskHost := {
  ask_commands : bool; redactions : list text; expanduser : text -> text; cwd_text : text; run : text -> CommandRun }.

(** ** The questions *)
Definition named (identifier rest : text) : text := u "question `" ++ identifier ++ u "` " ++ rest.

(** One entry of the map. *)
Definition build_one (kv : text * value) : result exn (text * Question) :=
  let '(identifier, spec_value) := kv in
  if bool_decide (identifier = []) || (MAX_ID_LENGTH <? Utf16.length identifier)
  then invalid (u "question id must be a string of at most " ++ str_of_Z MAX_ID_LENGTH ++ u " units.")
  else
    match spec_value with
    | VDict spec =>
      match get (u "type") spec with
      | VStr kind_value =>
        match kind_of kind_value with
        | None => invalid (named identifier (u "type must be one of noul, choice, score."))
        | Some kind =>
          match get (u "instructions") spec with
          | VStr (c :: instructions) =>
            if fj_instructions_units_max FILE_JUDGE <? Utf16.length (c :: instructions)
            then invalid (named identifier (u "instructions must be a string of at most "
                   ++ grouped (fj_instructions_units_max FILE_JUDGE) ++ u " units."))
            else
              match dget (u "criteria") spec with
              | None => invalid (named identifier (u "requires `criteria`, shaped by its type."))
              | Some criteria => let? q := build_question kind (c :: instructions) criteria in Ok (identifier, q)
              end
          | _ => invalid (named identifier (u "instructions must be a string of at most "
                   ++ grouped (fj_instructions_units_max FILE_JUDGE) ++ u " units."))
          end
        end
      | _ => invalid (named identifier (u "type must be one of noul, choice, score."))
      end
    | _ => invalid (named identifier (u "is an object with `type`, `instructions`, and `criteria`."))
    end.

(** [_build_questions]: the keys of a JSON object are distinct, so each entry is its own. *)
Definition build_questions (raw : value) : result exn (dict Question) :=
  match raw with
  | VDict (kv :: entries) =>
    if ask_questions_max ASK <? Z.of_nat (length (kv :: entries))
    then invalid (u "at most " ++ str_of_Z (ask_questions_max ASK)
                  ++ u " questions per call; ask the rest in a second call over the same state.")
    else rmap build_one (kv :: entries)
  | _ => invalid (u "questions is an object keyed by your ids, at least " ++ str_of_Z (ask_questions_min ASK) ++ u " question.")
  end.

(** [question.type]. *)
Definition kind_of_question (q : Question) : Kind :=
  match q with QNoul _ => Noul | QChoice _ => Choice | QScore _ => ScoreKind end.

(** [_named_state]: a name already taken gets a suffix. *)
Definition named_state (parts : list Part) : dict value :=
  fold_left (fun state p =>
    dset (fresh_id_from 2 (list_to_set (dkeys state)) (part_name p)) (VStr (part_text p)) state) parts [].

(** ** The answers *)
Definition answer_of (answers : dict value) (iq : text * Question) : text * (dict value * text) :=
  (iq.1, project_answer (kind_of_question iq.2) (get iq.1 answers) (expected_of iq.2)).

Definition answered_value (a : dict value * text) : value := VDict (dset (u "status") (VStr a.2) a.1).

Definition ask_status (projected : dict (dict value * text)) : text :=
  if forallb (fun a => bool_decide (a.2.2 = u "ok")) projected then u "ok" else INVALID.

Definition summary_value (own output : option Part) (files : nat) (skipped : list Skipped) (units : Z) : value :=
  VDict [(u "own", VInt (or_else (part_units <$> own) 0)); (u "files", vnum files);
         (u "output", VInt (or_else (part_units <$> output) 0));
         (u "skipped", VList ((fun s => VDict [(u "path", VStr (skipped_path s)); (u "reason", VStr (skipped_reason s))]) <$> skipped));
         (u "units", VInt units)].

Definition reply (questions : dict Question) (summary : value) (evaluations : list Evaluation) (evaluation : Evaluation)
    : ToolResult :=
  let projected := answer_of (answers evaluation) <$> questions in
  tool_result (frame (u "jev_ask") (Some (match evaluations with [ev] => ev | _ => Files.combined evaluations end))
    [(u "answers", VDict ((fun a => (a.1, answered_value a.2)) <$> projected)); (u "status", VStr (ask_status projected));
     (u "state_summary", summary)] None).

Section Ask.
Context {U : Unicode} (w : World) (host : AskHost).

(** The refusals that precede any read. *)
Definition command_checks (command : option text) : result exn unit :=
  match command with
  | None => Ok tt
  | Some c =>
    if negb (ask_commands host) then Raise (ToolError command_disabled_refusal (u "command_disabled"))
    else match command_denylist_refusal (expanduser host) c with
         | Some reason => Raise (ToolError reason (u "command_refused"))
         | None => Ok tt
         end
  end.

(** The parts that are there before the command, and the refusals that need no provider. *)
Definition composed (args : Args) (units : Z) : result exn (option Part * (list Part * list Skipped)) :=
  let? own := own_part (or_else (arg_state args) []) in
  let? (files, skipped) := file_parts w (or_else (arg_paths args) []) in
  let parts := match own with Some p => p :: files | None => files end in
  if negb (is_none (arg_command args)) && (ask_request_units_max ASK <? units + total_units parts)
  then split_refusal parts units
  else if bool_decide (length parts = 0%nat) && is_none (arg_command args)
  then invalid (u "no state: give `state`, at least one readable `paths` entry, or a `command`.")
  else Ok (own, (files, skipped)).

Definition gate_value (command : text) : value :=
  VDict [(u "proposed_action", VStr (gate_state (cwd_text host) command (redactions host)))].

(** The gated run: the gate's evaluation and the output. *)
Definition gated (command : option text) (rt : Runtime) : M (option (Evaluation * Part)) :=
  match command with
  | None => mret None
  | Some c =>
    let! gate := ask rt (gate_value c) gate_questions in
    match command_refusal (answers gate) with
    | Some reason => mraise (ToolError reason (u "command_refused"))
    | None => let! output := mlift (output_part (redactions host) (run host c)) in mret (Some (gate, output))
    end
  end.

Definition handle (args : Args) (rt : Runtime) : M ToolResult :=
  let! questions := mlift (build_questions (arg_questions args)) in
  let! _ := mlift (command_checks (arg_command args)) in
  let units := question_units questions in
  let! (own, (files, skipped)) := mlift (composed args units) in
  let! ran := gated (arg_command args) rt in
  let output := snd <$> ran in
  let parts := match own with Some p => [p] | None => [] end ++ files ++ match output with Some p => [p] | None => [] end in
  if ask_request_units_max ASK <? units + total_units parts
  then mlift (split_refusal parts units)
  else
    let! evaluation := ask rt (VDict (named_state parts)) questions in
    let evaluations := match ran with Some (gate, _) => [gate; evaluation] | None => [evaluation] end in
    mret (reply questions (summary_value own output (length files) skipped (units + total_units parts)) evaluations evaluation).
End Ask.

(** ** Facts: the composed state *)
Lemma named_state_from parts : forall state : dict value, NoDup (dkeys state) ->
  let out := fold_left (fun state p =>
    dset (fresh_id_from 2 (list_to_set (dkeys state)) (part_name p)) (VStr (part_text p)) state) parts state in
  NoDup (dkeys out) /\ dvalues out = dvalues state ++ ((fun p => VStr (part_text p)) <$> parts).
Proof.
  induction parts as [|p parts IH]; intros state Hnd; cbn [fold_left].
  { split; [done|]. by rewrite app_nil_r. }
  set (name := fresh_id_from _ _ _). assert (name ∉ dkeys state) as Hn.
  { pose proof (fresh_id_from_fresh 2 (list_to_set (dkeys state)) (part_name p)) as H. by rewrite elem_of_list_to_set in H. }
  destruct (IH (dset name (VStr (part_text p)) state) (NoDup_dset _ _ _ Hnd)) as [H1 H2]. split; [done|].
  rewrite H2, (dset_new _ _ _ Hn). unfold dvalues. rewrite fmap_app, <- app_assoc. done.
Qed.

Lemma named_state_keeps parts :
  NoDup (dkeys (named_state parts)) /\ dvalues (named_state parts) = (fun p => VStr (part_text p)) <$> parts.
Proof. apply (named_state_from parts []). constructor. Qed.

(** An answer for one question: typed and valid for it, or withheld under the invalid status. *)
Definition fail_closed (replies : dict value) (q : text * Question) (answered : text * value) : Prop :=
  answered.1 = q.1 /\ exists a status, answered.2 = VDict (dset (u "status") (VStr status) a) /\
    ((status = u "ok" /\ typed_answer (kind_of_question q.2) (get q.1 replies) (expected_of q.2) a) \/
     (status = INVALID /\ a = no_answer (kind_of_question q.2))).

Lemma answers_closed replies questions : wf_value (VDict replies) ->
  Forall2 (fail_closed replies) questions ((fun a => (a.1, answered_value a.2)) <$> (answer_of replies <$> questions)).
Proof.
  intros Hwf. induction questions as [|[k q] questions IH]; cbn [fmap list_fmap]; constructor; [|done].
  split; [done|]. unfold answer_of, answered_value. cbn [fst snd].
  pose proof (project_answer_closed (kind_of_question q) (get k replies) (expected_of q) (get_wf _ _ Hwf)) as H.
  destruct (project_answer _ _ _) as [a status]. by exists a, status.
Qed.

Section Facts.
Context {U : Unicode} (w : World) (host : AskHost).

Definition gate_requests (command : option text) : Log :=
  match command with None => [] | Some c => [{| rq_state := gate_value host c; rq_questions := gate_questions |}] end.

Definition ask_request (parts : list Part) (questions : dict Question) : Request :=
  {| rq_state := VDict (named_state parts); rq_questions := questions |}.

(** What the last request of a call is made of: the caller's own text, the files that were read, the
    command's output, within the budget of one request. *)
Record composition (args : Args) (questions : dict Question) (parts : list Part) : Prop := {
  co_questions : build_questions (arg_questions args) = Ok questions;
  co_parts : exists own files skipped output,
      own_part (or_else (arg_state args) []) = Ok own /\
      file_parts w (or_else (arg_paths args) []) = Ok (files, skipped) /\
      parts = match own with Some p => [p] | None => [] end ++ files ++ output /\
      (is_none (arg_command args) = true -> output = []);
  co_budget : question_units questions + total_units parts <= ask_request_units_max ASK;
  co_names : NoDup (dkeys (named_state parts)) /\ dvalues (named_state parts) = (fun p => VStr (part_text p)) <$> parts }.

Lemma composed_Ok args units own files skipped :
  composed w args units = Ok (own, (files, skipped)) ->
  own_part (or_else (arg_state args) []) = Ok own /\ file_parts w (or_else (arg_paths args) []) = Ok (files, skipped).
Proof.
  unfold composed. destruct (own_part _) as [own'|]; cbn [rbind]; [|done].
  destruct (file_parts _ _) as [[files' skipped']|]; cbn [rbind]; [|done].
  destruct (_ && _); [done|]. destruct (_ && _); [done|]. by intros [= -> -> ->].
Qed.

Lemma gated_log command rt log r log' :
  gated host command rt log = (r, log') ->
  log' = log ++ gate_requests command /\ (command = None -> r = Ok None).
Proof.
  unfold gated, gate_requests. destruct command as [c|].
  - unfold mbind, ask. destruct (rt_ask rt _ _) as [gate|e]; [|by intros [= _ <-]].
    destruct (command_refusal _); [by intros [= _ <-]|]. unfold mlift. destruct (output_part _ _); by intros [= _ <-].
  - intros [= <- <-]. by rewrite app_nil_r.
Qed.

End Facts.

(** ** Facts: the gated command *)
(** The same host with another outcome for its commands. *)
Definition with_run (host : AskHost) (f : text -> CommandRun) : AskHost :=
  {| ask_commands := ask_commands host; redactions := redactions host; expanduser := expanduser host;
     cwd_text := cwd_text host; run := f |}.

(** What holds of a command that is run. *)
Record may_run {U : Unicode} (host : AskHost) (args : Args) (rt : Runtime) (log : Log) (c : text) (ev : Evaluation) : Prop := {
  mr_given : arg_command args = Some c;
  mr_enabled : ask_commands host = true;
  mr_listed : command_denylist_refusal (expanduser host) c = None;
  mr_judged : rt_ask rt (length log) {| rq_state := gate_value host c; rq_questions := gate_questions |} = Ok ev;
  mr_runnable : runnable (answers ev);
  mr_hook : kind (bash_outcome (answers ev)) = Allow }.

(** Two computations that differ after a common start differ in what follows its result. *)
Lemma mbind_ne {A B} (m : M A) (f g : A -> M B) log :
  mbind m f log <> mbind m g log -> exists a log1, m log = (Ok a, log1) /\ f a log1 <> g a log1.
Proof. unfold mbind. destruct (m log) as [[a|e] log1]; [|done]. intros H. by exists a, log1. Qed.

Lemma mbind_ne_l {A B} (m m' : M A) (f : A -> M B) log : mbind m f log <> mbind m' f log -> m log <> m' log.
Proof. intros H Heq. apply H. unfold mbind. by rewrite Heq. Qed.

Lemma gated_ne {U : Unicode} host args rt log f g :
  command_checks host (arg_command args) = Ok tt ->
  gated (with_run host f) (arg_command args) rt log <> gated (with_run host g) (arg_command args) rt log ->
  exists c ev, may_run host args rt log c ev /\ f c <> g c.
Proof.
  unfold command_checks, gated. destruct (arg_command args) as [c|] eqn:Ec; [|done].
  destruct (ask_commands host) eqn:En; cbn [negb]; [|done].
  destruct (command_denylist_refusal _ c) as [reason|] eqn:Ed; [done|]. intros _ Hne.
  apply mbind_ne in Hne as (ev & log1 & Ha & Hne). unfold ask in Ha. injection Ha as Ha <-.
  destruct (command_refusal (answers ev)) as [reason|] eqn:Er; [done|]. apply command_refusal_None in Er.
  exists c, ev. split; [constructor; try done; by apply runnable_allowed|].
  intros Heq. apply Hne. cbn [redactions run with_run]. by rewrite Heq.
Qed.

(** C27 A command is run only through its gate: if what running commands does can change the outcome of a
    call at all, then the call gave a command, the operator has enabled commands, the denylist does not
    name it, the judge was asked about it and answered that its effect is read-only, above the
    confidence floor, with no destructive aim (an answer the command hook allows too), and it is that
    command alone whose run matters. *)
Theorem ask_command_gated {U : Unicode} w host args rt log f g :
  handle w (with_run host f) args rt log <> handle w (with_run host g) args rt log ->
  exists c ev, may_run host args rt log c ev /\ f c <> g c.
Proof.
  intros (questions & ? & H1 & H)%mbind_ne. injection H1 as _ <-.
  apply mbind_ne in H as ([] & ? & H1 & H). injection H1 as Hchecks <-.
  apply mbind_ne in H as ([own [files skipped]] & ? & H1 & H). injection H1 as _ <-.
  apply mbind_ne_l in H. by apply gated_ne in H.
Qed.

(** ** Samples *)
Definition sample_question : value :=
  VDict [(u "type", vs "noul"); (u "instructions", vs "Is it a greeting?"); (u "criteria", VDict [])].
Definition sample_args : Args :=
  {| arg_questions := VDict [(u "q", sample_question)]; arg_state := Some (u "framing"); arg_paths := Some [u "notes.txt"; u ".env"];
     arg_command := Some (u "ls") |}.
Definition printed (t : text) : text -> CommandRun := fun _ => Ran false false false 0 t [].
Definition sample_host : AskHost :=
  {| ask_commands := true; redactions := [u "hunter2"]; expanduser := id; cwd_text := u "/srv"; run := printed (u "hunter2 ok") |}.
Definition sample_replies : dict value := (u "q", noul_reply 95) :: harmless.
Definition sample_call (host : AskHost) : result exn ToolResult * Log :=
  handle (U := ascii_unicode) sample_world host sample_args (sample_runtime sample_replies) [].


Lemma ask_command_gated_witness : exists c ev,
  may_run (U := ascii_unicode) sample_host sample_args (sample_runtime sample_replies) [] c ev.
Proof.
  destruct (ask_command_gated (U := ascii_unicode) sample_world sample_host sample_args (sample_runtime sample_replies) []
    (printed (u "1")) (printed (u "2"))) as (c & ev & H & _).
  - intros H. apply (f_equal (fun h => (fun rq => match rq_state rq with VDict d => get OUTPUT_PART d | _ => VNone end) <$> h.2)) in H.
    vm_compute in H. discriminate.
  - exists c, ev. exact H.
Defined.

(** The parts of the sample call, as the provider sees them: the secret file is a skip. *)
Example sample_state :
  (fun rq => match rq_state rq with VDict d => dkeys d | _ => [] end) <$> (sample_call sample_host).2 =
    [[u "proposed_action"]; [u "state"; u "notes.txt"; OUTPUT_PART]].
Proof. vm_compute. reflexivity. Qed.
