(* ===== verification/Dialect.v ===== *)
(** * The regular-expression dialect: the translator

    Models [extract/dialect.py]: the recursive-descent parser over the ECMAScript pattern grammar
    (without [u]) and the Python pattern it writes.  A pattern is its UTF-16 units.

    A piece holds what the code's [_Piece] holds and, beside the Python text, the tree of what was
    read ([tree]); nothing of the translator looks at it, the theorems of [DialectSpec] are about it. *)
From S2P Require Import Prelude Text Serialize Regex Matching Runtime.
Open Scope Z_scope.

(** The one character of a literal. *)
Definition ch (s : string) : Z := or_else (head (u s)) 0.
Arguments ch : simpl never.

(** ** Trees *)
(** A member of a bracketed class: a unit, a range, or a class escape by its letter. *)
Inductive member := MUnit (c : Z) | MRange (a b : Z) | MEscape (e : Z).

Inductive rx :=
| RChar (c : Z)
| RDot
| RClass (neg : bool) (members : list member)
| REscape (e : Z)
| RStart
| REnd
| RBoundary (neg : bool)
| REmpty
| RCat (a b : rx)
| RAlt (a b : rx)
| RGroup (a : rx)
| RLook (behind neg : bool) (a : rx)
| RRep (a : rx) (low : Z) (high : option Z) (greedy : bool).

(** ** Python text *)
(** [_unit]: ASCII letters and digits raw, everything else escaped. *)
Definition unit_text (c : Z) : text := if is_alnum c then [c] else u "\u" ++ hex4 c.

Definition _WORD : text := u "A-Za-z0-9_".

Definition span (a n : Z) : list Z := seqZ a n.
Definition _WHITESPACE_UNITS : list Z :=
  [0x09; 0x0A; 0x0B; 0x0C; 0x0D; 0x20; 0xA0; 0x1680] ++ span 0x2000 11 ++ [0x2028; 0x2029; 0x202F; 0x205F; 0x3000; 0xFEFF].
Definition _LINE_TERMINATORS : list Z := [0x0A; 0x0D; 0x2028; 0x2029].

(** [_ranges]. *)
Definition units_text (us : list Z) : text := concat (unit_text <$> us).

Definition range_text (r : Z * Z) : text :=
  if r.1 =? r.2 then unit_text r.1 else unit_text r.1 ++ u "-" ++ unit_text r.2.

(** [_complement] of members in ascending order: the gaps, up to the last unit. *)
Fixpoint gaps (start : Z) (members : list Z) : list (Z * Z) :=
  match members with
  | [] => if start <? 0x10000 then [(start, 0xFFFF)] else []
  | m :: members' => (if start <? m then [(start, m - 1)] else []) ++ gaps (m + 1) members'
  end.
Definition complement (members : list Z) : text := concat (range_text <$> gaps 0 members).

Definition _DIGITS : list Z := span 0x30 10.
Definition _WORDS : list Z := _DIGITS ++ span 0x41 26 ++ [0x5F] ++ span 0x61 26.

Definition _CLASS_ESCAPES : dict text :=
  [(u "d", u "0-9"); (u "w", _WORD); (u "s", units_text _WHITESPACE_UNITS);
   (u "D", complement _DIGITS); (u "W", complement _WORDS); (u "S", complement _WHITESPACE_UNITS)].
Definition class_escape (c : Z) : option text := dget [c] _CLASS_ESCAPES.

Definition _DOT : text := u "[^" ++ units_text _LINE_TERMINATORS ++ u "]".
Definition _NOTHING : text := u "[^\u0000-\uffff]".
Definition _ANYTHING : text := u "[\u0000-\uffff]".
Definition _BOUNDARY : text :=
  u "(?:(?<=[" ++ _WORD ++ u "])(?![" ++ _WORD ++ u "])|(?<![" ++ _WORD ++ u "])(?=[" ++ _WORD ++ u "]))".
Definition _NOT_BOUNDARY : text :=
  u "(?:(?<=[" ++ _WORD ++ u "])(?=[" ++ _WORD ++ u "])|(?<![" ++ _WORD ++ u "])(?![" ++ _WORD ++ u "]))".

Definition _CONTROL_ESCAPES : dict Z :=
  [(u "f", 0x0C); (u "n", 0x0A); (u "r", 0x0D); (u "t", 0x09); (u "v", 0x0B)].

Definition MAX_QUANTIFIER_BOUND : Z := 2 ^ 31 - 1.

(** ** The parser *)
Record Piece := {
  p_text : text; p_min : Z; p_max : option Z; p_assertion : bool; p_lookaround : bool; tree : rx }.

(** [Stuck] is a loop out of fuel; with [IndexError] it never happens ([parse_safe] of [DialectSpec]). *)
Inductive Failure := PatternRejected (reason : text) | RecursionError | IndexError | Stuck.

Record Parser := { at_ : nat; non_ascii : bool }.

Definition refusal (what : text) : text :=
  u "unsupported regular expression: " ++ what ++ u " is outside the supported subset".
Definition invalidity (what : text) : text := u "invalid regular expression: " ++ what.

(** [None in maxima], else [f]. *)
Fixpoint maxima (f : Z -> Z -> Z) (unit : Z) (ms : list (option Z)) : option Z :=
  match ms with
  | [] => Some unit
  | m :: ms' => match m, maxima f unit ms' with Some a, Some b => Some (f a b) | _, _ => None end
  end.

Fixpoint alternatives_tree (r : rx) (rs : list rx) : rx :=
  match rs with [] => r | r' :: rs' => RAlt r (alternatives_tree r' rs') end.

(** The piece of two or more alternatives. *)
Definition alternatives_piece (first : Piece) (others : list Piece) : Piece :=
  {| p_text := join (u "|") (p_text <$> first :: others);
     p_min := fold_right Z.min (p_min first) (p_min <$> others);
     p_max := maxima Z.max 0 (p_max <$> first :: others); p_assertion := false;
     p_lookaround := existsb p_lookaround (first :: others); tree := alternatives_tree (tree first) (tree <$> others) |}.

Definition sequence_piece (terms : list Piece) : Piece :=
  {| p_text := concat (p_text <$> terms); p_min := sum_over p_min terms; p_max := maxima Z.add 0 (p_max <$> terms);
     p_assertion := false; p_lookaround := existsb p_lookaround terms; tree := fold_right (fun p r => RCat (tree p) r) REmpty terms |}.

Definition assertion_piece (t : text) (r : rx) : Piece :=
  {| p_text := t; p_min := 0; p_max := Some 0; p_assertion := true; p_lookaround := false; tree := r |}.
Definition unit_piece (t : text) (r : rx) : Piece :=
  {| p_text := t; p_min := 1; p_max := Some 1; p_assertion := false; p_lookaround := false; tree := r |}.
Definition group_piece (body : Piece) : Piece :=
  {| p_text := u "(?:" ++ p_text body ++ u ")"; p_min := p_min body; p_max := p_max body; p_assertion := false;
     p_lookaround := p_lookaround body; tree := RGroup (tree body) |}.
Definition look_piece (mark : text) (behind neg : bool) (body : Piece) : Piece :=
  {| p_text := u "(?" ++ mark ++ p_text body ++ u ")"; p_min := 0; p_max := Some 0; p_assertion := true;
     p_lookaround := true; tree := RLook behind neg (tree body) |}.

Section Parser.
Context (units : list Z).

Definition Pm (A : Type) := Parser -> result Failure (A * Parser).
Definition pret {A} (a : A) : Pm A := fun st => Ok (a, st).
Definition pfail {A} (e : Failure) : Pm A := fun _ => Raise e.
Definition pbind {A B} (m : Pm A) (f : A -> Pm B) : Pm B := fun st =>
  match m st with Ok (a, st') => f a st' | Raise e => Raise e end.
Notation "'let^' x := m 'in' k" := (pbind m (fun x => k)) (at level 10, x pattern, m at level 100, k at level 200).

Definition refuse {A} (what : text) : Pm A := pfail (PatternRejected (refusal what)).
Definition invalid {A} (what : text) : Pm A := pfail (PatternRejected (invalidity what)).

Definition peek (offset : nat) : Pm (option Z) := fun st => Ok (units !! (at_ st + offset)%nat, st).
Definition advance (n : nat) : Pm unit := fun st => Ok (tt, {| at_ := at_ st + n; non_ascii := non_ascii st |}).
Definition take_one : Pm Z := fun st =>
  match units !! at_ st with
  | Some c => Ok (c, {| at_ := at_ st + 1; non_ascii := non_ascii st |})
  | None => Raise IndexError
  end.
Definition rest : Pm (list Z) := fun st => Ok (drop (at_ st) units, st).
(** [self.non_ascii = True] over a value above ASCII. *)
Definition note_ascii (value : Z) : Pm unit := fun st =>
  Ok (tt, {| at_ := at_ st; non_ascii := non_ascii st || (0x7F <? value) |}).

Definition is_char (s : string) (c : option Z) : bool := bool_decide (c = Some (ch s)).

(** ** Quantifiers *)
Fixpoint digits_of (l : list Z) : list Z :=
  match l with c :: l' => if is_digit c then c :: digits_of l' else [] | [] => [] end.

(** [_QUANTIFIER.match]: the digits, what follows a comma if there is one, and the length. *)
Definition braced_at (l : list Z) : option (list Z * option (list Z) * nat) :=
  match l with
  | b :: l' =>
    if negb (b =? ch "{") then None
    else
      match digits_of l' with
      | [] => None
      | ds =>
        match drop (length ds) l' with
        | c :: l2 =>
          if c =? ch "}" then Some (ds, None, (length ds + 2)%nat)
          else if c =? ch ","
          then let ds2 := digits_of l2 in
               match drop (length ds2) l2 with
               | c2 :: _ => if c2 =? ch "}" then Some (ds, Some ds2, (length ds + length ds2 + 3)%nat) else None
               | [] => None
               end
          else None
        | [] => None
        end
      end
  | [] => None
  end.

Definition braces_text (low : Z) (upper : option (option Z)) : text :=
  match upper with
  | None => u "{" ++ str_of_Z low ++ u "}"
  | Some high => u "{" ++ str_of_Z low ++ u "," ++ match high with None => [] | Some h => str_of_Z h end ++ u "}"
  end.

(** The bounds and the text of the quantifier here, before its [?]. *)
Definition quantifier_head : Pm (option (Z * option Z * text)) :=
  let^ c := peek 0 in
  if is_char "*" c then let^ _ := advance 1 in pret (Some (0, None, u "*"))
  else if is_char "+" c then let^ _ := advance 1 in pret (Some (1, None, u "+"))
  else if is_char "?" c then let^ _ := advance 1 in pret (Some (0, Some 1, u "?"))
  else
    let^ l := rest in
    match braced_at l with
    | None => pret None
    | Some (ds, upper, n) =>
      let^ _ := advance n in
      let low := int_of_digits ds in
      let high := match upper with
                  | None => Some low
                  | Some [] => None
                  | Some ds2 => Some (int_of_digits ds2)
                  end in
      if MAX_QUANTIFIER_BOUND <? Z.max low (or_else high 0) then refuse (u "a quantifier bound above 2147483647")
      else if match high with Some h => h <? low | None => false end
      then invalid (u "numbers out of order in {} quantifier")
      else pret (Some (low, high, braces_text low (match upper with None => None | Some _ => Some high end)))
    end.

(** [_quantifier]: the bounds, the text, and whether it is greedy. *)
Definition quantifier : Pm (option (Z * option Z * text * bool)) :=
  let^ q := quantifier_head in
  match q with
  | None => pret None
  | Some (low, high, t) =>
    let^ c := peek 0 in
    if is_char "?" c then let^ _ := advance 1 in pret (Some (low, high, t ++ u "?", false))
    else pret (Some (low, high, t, true))
  end.

(** ** Escapes and classes *)
Definition is_hex (c : Z) : bool := is_digit c || ((65 <=? c) && (c <=? 70)) || ((97 <=? c) && (c <=? 102)).
Definition hex_digit_value (c : Z) : Z := if is_digit c then c - 48 else if c <=? 70 then c - 55 else c - 87.
Definition int_of_hex (l : list Z) : Z := fold_left (fun a c => a * 16 + hex_digit_value c) l 0.
Definition is_letter (c : Z) : bool := is_upper c || is_lower c.

Definition hex_escape (char : Z) (width : nat) : Pm Z :=
  let^ l := rest in
  let digits := take width l in
  if bool_decide (length digits = width) && forallb is_hex digits
  then let^ _ := advance width in pret (int_of_hex digits)
  else
    let^ c := peek 0 in
    if (char =? ch "u") && is_char "{" c then refuse (u "'\u{...}'")
    else refuse (u "an incomplete '\" ++ [char] ++ u "' escape").

(** [_character_escape]. *)
Definition character_escape : Pm Z :=
  let^ char := take_one in
  match dget [char] _CONTROL_ESCAPES with
  | Some value => pret value
  | None =>
    let^ following := peek 0 in
    if char =? ch "c"
    then
      match following with
      | Some letter => if is_letter letter then let^ _ := advance 1 in pret (letter mod 32) else refuse (u "'\c' without a control letter")
      | None => refuse (u "'\c' without a control letter")
      end
    else if (char =? ch "0") && negb match following with Some c => is_digit c | None => false end then pret 0
    else if is_digit char then refuse (u "a backreference or legacy octal escape")
    else if char =? ch "x" then hex_escape char 2
    else if char =? ch "u" then hex_escape char 4
    else if char =? ch "k" then refuse (u "a named backreference")
    else if (char =? ch "p") || (char =? ch "P") then refuse (u "a Unicode property escape")
    else if is_alnum char then refuse (u "the escape '\" ++ [char] ++ u "'")
    else pret char
  end.

(** [_class_atom]: a unit, or a class escape by its letter (the code returns the escape's content). *)
Definition class_atom : Pm (Z + Z) :=
  let^ char := take_one in
  if negb (char =? ch "\") then pret (inl char)
  else
    let^ escaped := peek 0 in
    match escaped with
    | None => invalid (u "\ at end of pattern")
    | Some e =>
      if e =? ch "b" then let^ _ := advance 1 in pret (inl 0x08)
      else if e =? ch "-" then let^ _ := advance 1 in pret (inl (ch "-"))
      else if is_none (class_escape e) then let^ value := character_escape in pret (inl value)
      else let^ _ := advance 1 in pret (inr e)
    end.

(** [_endpoint]. *)
Definition endpoint (value : Z) : Pm text := let^ _ := note_ascii value in pret (unit_text value).

Definition class_member : Pm (text * member) :=
  let^ start := class_atom in
  let^ c := peek 0 in
  let^ c1 := peek 1 in
  if is_char "-" c && negb (is_none c1) && negb (is_char "]" c1)
  then
    let^ _ := advance 1 in
    let^ stop := class_atom in
    match start, stop with
    | inl a, inl b =>
      if b <? a then invalid (u "range out of order in character class")
      else
        let^ ta := endpoint a in
        let^ tb := endpoint b in
        pret (ta ++ u "-" ++ tb, MRange a b)
    | _, _ => refuse (u "a class range with a class escape endpoint")
    end
  else
    match start with
    | inr e => pret (or_else (class_escape e) [], MEscape e)
    | inl a => let^ ta := endpoint a in pret (ta, MUnit a)
    end.

Fixpoint class_members (fuel : nat) : Pm (list (text * member)) :=
  match fuel with
  | O => pfail Stuck
  | S fuel' =>
    let^ c := peek 0 in
    match c with
    | None => invalid (u "unterminated character class")
    | Some c =>
      if c =? ch "]" then let^ _ := advance 1 in pret []
      else
        let^ m := class_member in
        let^ ms := class_members fuel' in
        pret (m :: ms)
    end
  end.

Definition class_text (negate : bool) (members : list (text * member)) : text :=
  match members with
  | [] => if negate then _ANYTHING else _NOTHING
  | _ => u "[" ++ (if negate then u "^" else []) ++ concat (fst <$> members) ++ u "]"
  end.

(** [_class]. *)
Definition class : Pm Piece :=
  let^ c := peek 0 in
  let negate := is_char "^" c in
  let^ _ := advance (if negate then 1 else 0) in
  let^ members := class_members (S (length units)) in
  pret (unit_piece (class_text negate members) (RClass negate (snd <$> members))).

Definition literal (value : Z) : Pm Piece :=
  let^ _ := note_ascii value in pret (unit_piece (unit_text value) (RChar value)).

(** [_atom_escape]. *)
Definition atom_escape : Pm Piece :=
  let^ char := peek 0 in
  match char with
  | None => invalid (u "\ at end of pattern")
  | Some c =>
    if c =? ch "b" then let^ _ := advance 1 in pret (assertion_piece _BOUNDARY (RBoundary false))
    else if c =? ch "B" then let^ _ := advance 1 in pret (assertion_piece _NOT_BOUNDARY (RBoundary true))
    else
      match class_escape c with
      | Some t => let^ _ := advance 1 in pret (unit_piece (u "[" ++ t ++ u "]") (REscape c))
      | None => let^ value := character_escape in literal value
      end
  end.

Definition close_group : Pm unit :=
  let^ c := peek 0 in if is_char ")" c then advance 1 else invalid (u "unterminated group").

(** ** Groups, atoms, terms: over the parser of the pattern inside a group *)
Section Nested.
Context (nested : Pm Piece).

Definition closed : Pm Piece := let^ body := nested in let^ _ := close_group in pret body.

(** [_group]. *)
Definition group : Pm Piece :=
  let^ c := peek 0 in
  if negb (is_char "?" c) then let^ body := closed in pret (group_piece body)
  else
    let^ _ := advance 1 in
    let^ kind := peek 0 in
    let^ sign := peek 1 in
    if is_char ":" kind then let^ _ := advance 1 in let^ body := closed in pret (group_piece body)
    else if is_char "=" kind || is_char "!" kind
    then
      let^ _ := advance 1 in
      let^ body := closed in
      pret (look_piece (if is_char "!" kind then u "!" else u "=") false (is_char "!" kind) body)
    else if is_char "<" kind && (is_char "=" sign || is_char "!" sign)
    then
      let^ _ := advance 2 in
      let^ body := closed in
      if p_lookaround body then refuse (u "a lookaround inside a lookbehind")
      else if negb (bool_decide (p_max body = Some (p_min body))) then refuse (u "variable-length lookbehind")
      else pret (look_piece (if is_char "!" sign then u "<!" else u "<=") true (is_char "!" sign) body)
    else if is_char "<" kind then refuse (u "a named group")
    else invalid (u "invalid group").

(** [_atom]. *)
Definition atom : Pm Piece :=
  let^ here := rest in
  let^ char := take_one in
  if char =? ch "^" then pret (assertion_piece (u "\A") RStart)
  else if char =? ch "$" then pret (assertion_piece (u "\Z") REnd)
  else if char =? ch "." then pret (unit_piece _DOT RDot)
  else if char =? ch "(" then group
  else if char =? ch "[" then class
  else if char =? ch "\" then atom_escape
  else if (char =? ch "*") || (char =? ch "+") || (char =? ch "?") then invalid (u "nothing to repeat")
  else if negb (is_none (braced_at here)) then invalid (u "nothing to repeat")
  else literal char.

Definition times (a b : option Z) : option Z := match a, b with Some x, Some y => Some (x * y) | _, _ => None end.

(** [_term]. *)
Definition term : Pm Piece :=
  let^ a := atom in
  let^ q := quantifier in
  match q with
  | None => pret a
  | Some (low, high, suffix, greedy) =>
    if p_assertion a && p_lookaround a then refuse (u "a quantified assertion")
    else if p_assertion a then invalid (u "nothing to repeat")
    else if (p_min a =? 0) && match high with None => true | Some h => low <? h end
    then refuse (u "a repeated group that can match empty")
    else pret {| p_text := p_text a ++ suffix; p_min := p_min a * low; p_max := times (p_max a) high; p_assertion := false;
                 p_lookaround := p_lookaround a; tree := RRep (tree a) low high greedy |}
  end.

Fixpoint terms (fuel : nat) : Pm (list Piece) :=
  match fuel with
  | O => pfail Stuck
  | S fuel' =>
    let^ c := peek 0 in
    if is_none c || is_char "|" c || is_char ")" c then pret []
    else let^ t := term in let^ ts := terms fuel' in pret (t :: ts)
  end.

(** [_alternative]. *)
Definition alternative : Pm Piece := let^ ts := terms (S (length units)) in pret (sequence_piece ts).

Fixpoint alternatives (fuel : nat) : Pm (list Piece) :=
  match fuel with
  | O => pfail Stuck
  | S fuel' =>
    let^ c := peek 0 in
    if is_char "|" c then let^ _ := advance 1 in let^ a := alternative in let^ others := alternatives fuel' in pret (a :: others)
    else pret []
  end.

Definition disjunction_of : Pm Piece :=
  let^ first := alternative in
  let^ others := alternatives (S (length units)) in
  match others with [] => pret first | _ => pret (alternatives_piece first others) end.
End Nested.

(** [_disjunction], with [depth] the nesting of groups the interpreter's stack has room for. *)
Fixpoint disjunction (depth : nat) : Pm Piece :=
  match depth with
  | O => pfail RecursionError
  | S depth' => disjunction_of (disjunction depth')
  end.

(** [parse]. *)
Definition parse (depth : nat) : result Failure (Piece * Parser) :=
  match disjunction depth {| at_ := 0; non_ascii := false |} with
  | Ok (body, st) =>
    if (at_ st <? length units)%nat then Raise (PatternRejected (invalidity (u "unmatched ')'"))) else Ok (body, st)
  | Raise e => Raise e
  end.
End Parser.

(** ** translate *)
Definition V8_FLAGS : text := u "dgimsuvy".
Definition SUBSET_REFUSED_FLAGS : text := u "dmsuvy".

Definition flags_valid (flags : text) : bool :=
  forallb (fun f => mem f V8_FLAGS) flags && bool_decide (NoDup flags) && negb (mem (ch "u") flags && mem (ch "v") flags).

Definition python_flags (ignore_case : bool) : Z := Z.lor 256 (if ignore_case then 2 else 0).

(** [translate]: [depth] is what the stack has room for, [compile_error] the text of the exception
    [re.compile] raises, if any. *)
Definition translate (depth : nat) (compile_error : text -> Z -> option text) (pattern flags : text) : result text Translated :=
  if negb (flags_valid flags) then Raise (u "Invalid flags supplied to RegExp constructor '" ++ flags ++ u "'")
  else
    match List.find (fun f => mem f SUBSET_REFUSED_FLAGS) flags with
    | Some f => Raise (refusal (u "the '" ++ [f] ++ u "' flag"))
    | None =>
      match parse (Utf16.to_units pattern) depth with
      | Raise (PatternRejected reason) => Raise reason
      | Raise RecursionError => Raise (refusal (u "group nesting this deep"))
      | Raise IndexError => Raise (u "IndexError")
      | Raise Stuck => Raise (u "Stuck")
      | Ok (body, st) =>
        let ignore_case := mem (ch "i") flags in
        if ignore_case && non_ascii st then Raise (refusal (u "the 'i' flag with a non-ASCII character in the pattern"))
        else
          match compile_error (p_text body) (python_flags ignore_case) with
          | Some error => Raise (refusal (u "the pattern cannot be matched here (" ++ error ++ u ")"))
          | None => Ok {| source := p_text body; Matching.flags := python_flags ignore_case |}
          end
      end
    end.

Definition source_of (pattern : string) : option string :=
  match translate 10 (fun _ _ => None) (u pattern) (u "g") with
  | Ok t => Some (String.string_of_list_ascii ((fun c => Ascii.ascii_of_N (Z.to_N c)) <$> source t))
  | Raise _ => None
  end.

Example translated_date : source_of "^[0-9]{4}-(?:0[1-9]|1[0-2])\b"
  = Some "\A[0-9]{4}\u002d(?:0[1-9]|1[0-2])(?:(?<=[A-Za-z0-9_])(?![A-Za-z0-9_])|(?<![A-Za-z0-9_])(?=[A-Za-z0-9_]))"%string.
Proof. vm_compute. reflexivity. Qed.
Example translated_class : source_of "[^\D\x41-C]{2,}?$" = Some "[^\u0000-\u002f\u003a-\uffffA-C]{2,}?\Z"%string.
Proof. vm_compute. reflexivity. Qed.
Example refused_star : source_of "(a?)*" = None. Proof. vm_compute. reflexivity. Qed.
