(* ===== verification/DialectSpec.v ===== *)
(** * The regular-expression dialect: what the translation preserves

    An ECMAScript semantics for the trees of [Dialect], a semantics for the Python patterns it writes,
    and the theorem that they match the same spans in the same order of preference.  A pattern denotes,
    for each position, the list of the positions where a match from there can end, most preferred
    first, so a search finds the same match and not only some match. *)
From S2P Require Import Prelude Text Serialize Regex Matching Runtime Dialect.
Open Scope Z_scope.

(** ** ECMAScript *)
Definition all_units : list Z := seqZ 0 0x10000.

Definition escape_holds (e k : Z) : bool :=
  if e =? ch "d" then is_digit k
  else if e =? ch "D" then negb (is_digit k)
  else if e =? ch "w" then ascii_word k
  else if e =? ch "W" then negb (ascii_word k)
  else if e =? ch "s" then is_js_whitespace k
  else if e =? ch "S" then negb (is_js_whitespace k)
  else false.

Definition member_holds (m : member) (k : Z) : bool :=
  match m with
  | MUnit c => k =? c
  | MRange a b => (a <=? k) && (k <=? b)
  | MEscape e => escape_holds e k
  end.

(** A repeat: [step] is its body, [on_empty] what becomes of an iteration past the minimum that matches
    the empty string.  [low] and [high] count what is still to do. *)
Fixpoint rep (on_empty : nat -> list nat) (step : nat -> list nat) (greedy : bool) (fuel : nat)
    (low : Z) (high : option Z) (i : nat) : list nat :=
  match fuel with
  | O => []
  | S fuel' =>
    let more :=
      if match high with Some h => 0 <? h | None => true end
      then flat_map (fun j => if (low <=? 0) && (j =? i)%nat then on_empty j
                              else rep on_empty step greedy fuel' (low - 1) (Z.pred <$> high) j) (step i)
      else [] in
    let stop := if low <=? 0 then [i] else [] in
    if greedy then more ++ stop else stop ++ more
  end.

(** Every round lowers what is due or moves on. *)
Definition rep_fuel (us : list Z) (low : Z) (i : nat) : nat := S (Z.to_nat low + (length us - i)).

(** [canon] is [Canonicalize]: the identity without the [i] flag. *)
Section ECMAScript.
Context (canon : Z -> Z) (us : list Z).

(** CharacterSetMatcher. *)
Definition js_in (p : Z -> bool) (c : Z) : bool := existsb (fun k => p k && (canon k =? canon c)) all_units.
Definition js_set (neg : bool) (p : Z -> bool) (i : nat) : list nat :=
  only_if (char_is us (fun c => xorb neg (js_in p c)) i) (S i).

Definition word_at (i : nat) : bool := char_is us ascii_word i.
Definition word_before (i : nat) : bool := before_is us ascii_word i.

(** RepeatMatcher fails an optional iteration that matches empty. *)
Fixpoint js_ends (r : rx) (i : nat) : list nat :=
  match r with
  | RChar a => js_set false (fun k => k =? a) i
  | RDot => js_set true (fun k => mem k [0x0A; 0x0D; 0x2028; 0x2029]) i
  | RClass neg ms => js_set neg (fun k => existsb (fun m => member_holds m k) ms) i
  | REscape e => js_set false (escape_holds e) i
  | RStart => only_if (i =? 0)%nat i
  | REnd => only_if (i =? length us)%nat i
  | RBoundary neg => only_if (xorb neg (xorb (word_before i) (word_at i))) i
  | REmpty => [i]
  | RCat a b => flat_map (js_ends b) (js_ends a i)
  | RAlt a b => js_ends a i ++ js_ends b i
  | RGroup a => js_ends a i
  | RLook false neg a => only_if (xorb neg (negb (bool_decide (js_ends a i = [])))) i
  | RLook true neg a => only_if (xorb neg (existsb (fun j => mem i (js_ends a j)) (seq 0 (S i)))) i
  | RRep a low high greedy => rep (fun _ => []) (js_ends a) greedy (rep_fuel us low i) low high i
  end.
End ECMAScript.

(** What [Canonicalize] does under [i], of the specification and the Unicode data it reads: ASCII
    letters are folded to upper case, nothing above ASCII is folded into it, white space is its own. *)
Definition ascii_upper (c : Z) : Z := if is_lower c then c - 32 else c.

Record Canonicalize (canon : Z -> Z) : Prop := {
  canon_ascii c : 0 <= c < 128 -> canon c = ascii_upper c;
  canon_high c : 128 <= c -> 128 <= canon c;
  canon_space c : is_js_whitespace c = true -> canon c = c;
  canon_space_inv c : is_js_whitespace (canon c) = true -> is_js_whitespace c = true }.

(** ** Python *)
Inductive item := IOne (c : Z) | ISpan (a b : Z).

Inductive py :=
| PSet (neg : bool) (items : list item)
| PChar (c : Z)
| PStart
| PEnd
| PEmpty
| PCat (a b : py)
| PAlt (a b : py)
| PGroup (a : py)
| PLook (behind neg : bool) (a : py)
| PRep (a : py) (low : Z) (high : option Z) (greedy : bool).

Definition in_item (c : Z) (it : item) : bool :=
  match it with IOne a => c =? a | ISpan a b => (a <=? c) && (c <=? b) end.

Definition swap_case (c : Z) : Z := if is_upper c then c + 32 else if is_lower c then c - 32 else c.

(** [getwidth()[0]]. *)
Fixpoint py_min (p : py) : Z :=
  match p with
  | PSet _ _ | PChar _ => 1
  | PStart | PEnd | PEmpty | PLook _ _ _ => 0
  | PCat a b => py_min a + py_min b
  | PAlt a b => Z.min (py_min a) (py_min b)
  | PGroup a => py_min a
  | PRep a low _ _ => py_min a * low
  end.

(** [re.ASCII], with [fold] for [re.IGNORECASE]; a look-behind steps back by the width of its body. *)
Section Python.
Context (fold : bool) (us : list Z).

Definition py_in (items : list item) (c : Z) : bool :=
  existsb (in_item c) items || (fold && existsb (in_item (swap_case c)) items).
Definition py_set (neg : bool) (items : list item) (i : nat) : list nat :=
  only_if (char_is us (fun c => xorb neg (py_in items c)) i) (S i).

(** An optional iteration that matches empty ends the repeat. *)
Fixpoint py_ends (p : py) (i : nat) : list nat :=
  match p with
  | PSet neg items => py_set neg items i
  | PChar c => py_set false [IOne c] i
  | PStart => only_if (i =? 0)%nat i
  | PEnd => only_if (i =? length us)%nat i
  | PEmpty => [i]
  | PCat a b => flat_map (py_ends b) (py_ends a i)
  | PAlt a b => py_ends a i ++ py_ends b i
  | PGroup a => py_ends a i
  | PLook false neg a => only_if (xorb neg (negb (bool_decide (py_ends a i = [])))) i
  | PLook true neg a =>
      let w := Z.to_nat (py_min a) in only_if (xorb neg ((w <=? i)%nat && mem i (py_ends a (i - w)))) i
  | PRep a low high greedy => rep (fun j => [j]) (py_ends a) greedy (rep_fuel us low i) low high i
  end.
End Python.

(** ** The translation of trees *)
Definition gap_item (r : Z * Z) : item := if r.1 =? r.2 then IOne r.1 else ISpan r.1 r.2.

Definition word_items : list item := [ISpan 65 90; ISpan 97 122; ISpan 48 57; IOne 95].

Definition escape_items (e : Z) : list item :=
  if e =? ch "d" then [ISpan 48 57]
  else if e =? ch "D" then gap_item <$> gaps 0 _DIGITS
  else if e =? ch "w" then word_items
  else if e =? ch "W" then gap_item <$> gaps 0 _WORDS
  else if e =? ch "s" then IOne <$> _WHITESPACE_UNITS
  else if e =? ch "S" then gap_item <$> gaps 0 _WHITESPACE_UNITS
  else [].

Definition member_items (m : member) : list item :=
  match m with MUnit c => [IOne c] | MRange a b => [ISpan a b] | MEscape e => escape_items e end.

Definition word_look (behind neg : bool) : py := PLook behind neg (PCat (PSet false word_items) PEmpty).
Definition both (a b : py) : py := PCat a (PCat b PEmpty).

Definition boundary_py (neg : bool) : py :=
  PGroup (PAlt (both (word_look true false) (word_look false (negb neg)))
               (both (word_look true true) (word_look false neg))).

Fixpoint py_of (r : rx) : py :=
  match r with
  | RChar c => PChar c
  | RDot => PSet true (IOne <$> _LINE_TERMINATORS)
  | RClass neg [] => PSet (negb neg) [ISpan 0 0xFFFF]
  | RClass neg ms => PSet neg (flat_map member_items ms)
  | REscape e => PSet false (escape_items e)
  | RStart => PStart
  | REnd => PEnd
  | RBoundary neg => boundary_py neg
  | REmpty => PEmpty
  | RCat a b => PCat (py_of a) (py_of b)
  | RAlt a b => PAlt (py_of a) (py_of b)
  | RGroup a => PGroup (py_of a)
  | RLook behind neg a => PLook behind neg (py_of a)
  | RRep a low high greedy => PRep (py_of a) low high greedy
  end.

(** ** The trees the translator accepts *)
Fixpoint rx_min (r : rx) : Z :=
  match r with
  | RChar _ | RDot | RClass _ _ | REscape _ => 1
  | RStart | REnd | RBoundary _ | REmpty | RLook _ _ _ => 0
  | RCat a b => rx_min a + rx_min b
  | RAlt a b => Z.min (rx_min a) (rx_min b)
  | RGroup a => rx_min a
  | RRep a low _ _ => rx_min a * low
  end.

Definition both_max (f : Z -> Z -> Z) (a b : option Z) : option Z :=
  match a, b with Some x, Some y => Some (f x y) | _, _ => None end.

Fixpoint rx_max (r : rx) : option Z :=
  match r with
  | RChar _ | RDot | RClass _ _ | REscape _ => Some 1
  | RStart | REnd | RBoundary _ | REmpty | RLook _ _ _ => Some 0
  | RCat a b => both_max Z.add (rx_max a) (rx_max b)
  | RAlt a b => both_max Z.max (rx_max a) (rx_max b)
  | RGroup a => rx_max a
  | RRep a low high _ => times (rx_max a) high
  end.

Definition unit_value (c : Z) : Prop := 0 <= c <= 0xFFFF.

Definition member_admissible (m : member) : Prop :=
  match m with
  | MUnit c => unit_value c
  | MRange a b => unit_value a /\ unit_value b /\ a <= b
  | MEscape e => is_Some (class_escape e)
  end.

Fixpoint admissible (r : rx) : Prop :=
  match r with
  | RChar c => unit_value c
  | RClass _ ms => Forall member_admissible ms
  | REscape e => is_Some (class_escape e)
  | RDot | RStart | REnd | RBoundary _ | REmpty => True
  | RCat a b | RAlt a b => admissible a /\ admissible b
  | RGroup a => admissible a
  | RLook behind _ a => admissible a /\ (behind = true -> rx_max a = Some (rx_min a))
  | RRep a low high _ =>
      admissible a /\ 0 <= low /\ (forall h, high = Some h -> low <= h) /\ (rx_min a = 0 -> high = Some low)
  end.

Definition member_ascii (m : member) : bool :=
  match m with MUnit c => c <? 128 | MRange a b => (a <? 128) && (b <? 128) | MEscape _ => true end.

Fixpoint rx_ascii (r : rx) : bool :=
  match r with
  | RChar c => c <? 128
  | RClass _ ms => forallb member_ascii ms
  | RDot | REscape _ | RStart | REnd | RBoundary _ | REmpty => true
  | RCat a b | RAlt a b => rx_ascii a && rx_ascii b
  | RGroup a | RLook _ _ a | RRep a _ _ _ => rx_ascii a
  end.

(** ** Lengths *)
Definition within (lo : Z) (hi : option Z) (i j : nat) : Prop :=
  Z.of_nat i + lo <= Z.of_nat j /\ (forall h, hi = Some h -> Z.of_nat j <= Z.of_nat i + h).

Lemma rx_min_nonneg r : admissible r -> 0 <= rx_min r.
Proof. induction r; cbn [rx_min admissible]; intros; destruct_and?; try lia; intuition nia. Qed.

Lemma flat_map_elem {A B} (f : A -> list B) l b : b ∈ flat_map f l <-> exists a, a ∈ l /\ b ∈ f a.
Proof. setoid_rewrite list_elem_of_In. rewrite in_flat_map. split; intros (a & H); exists a; by rewrite ?list_elem_of_In in *. Qed.

Lemma rx_max_nonneg r m : admissible r -> rx_max r = Some m -> 0 <= m.
Proof.
  revert m. induction r; cbn [rx_max admissible]; intros m Ha Hm; try (injection Hm as <-; lia).
  - destruct (rx_max r1), (rx_max r2); try done. injection Hm as <-. destruct Ha. specialize (IHr1 _ H eq_refl). specialize (IHr2 _ H0 eq_refl). lia.
  - destruct (rx_max r1), (rx_max r2); try done. injection Hm as <-. destruct Ha. specialize (IHr1 _ H eq_refl). specialize (IHr2 _ H0 eq_refl). lia.
  - eauto.
  - destruct (rx_max r), high as [h|]; try done. injection Hm as <-. destruct Ha as (Ha & Hl & Hh & _).
    specialize (IHr _ Ha eq_refl). specialize (Hh _ eq_refl). nia.
Qed.

(** What a round of a repeat adds, past a minimum of [low] rounds and within [high]. *)
Lemma rep_within on_empty step greedy lo hi :
  0 <= lo -> (forall m, hi = Some m -> 0 <= m) -> (forall j, on_empty j = [] \/ on_empty j = [j]) ->
  (forall i j, j ∈ step i -> within lo hi i j) ->
  forall fuel low high i j, (forall h, high = Some h -> 0 <= h /\ low <= h) ->
    j ∈ rep on_empty step greedy fuel low high i -> within (lo * Z.max 0 low) (times hi high) i j.
Proof.
  intros Hlo Hhi Hempty Hstep. induction fuel as [|fuel IH]; intros low high i j Hhigh; cbn [rep]; [by intros ?%elem_of_nil|].
  match goal with |- context [?m ++ (if low <=? 0 then [i] else [])] => set (more := m) end. intros Hj.
  assert (j ∈ more \/ (low <= 0 /\ j = i)) as [Hm|[Hl ->]].
  { destruct greedy; rewrite elem_of_app in Hj; destruct (low <=? 0) eqn:E; rewrite ?list_elem_of_singleton, ?elem_of_nil in Hj;
      destruct Hj; try tauto; right; split; try done; lia. }
  - subst more. destruct (match high with Some h => 0 <? h | None => true end) eqn:Eh; [|by apply elem_of_nil in Hm].
    apply flat_map_elem in Hm as (k & [Hk1 Hk2]%Hstep & Hj').
    assert (within (lo * Z.max 0 (low - 1)) (times hi (Z.pred <$> high)) k j) as [H1 H2].
    { destruct ((low <=? 0) && (k =? i)%nat) eqn:Ee.
      - destruct (Hempty k) as [He|He]; rewrite He in Hj'; [by apply elem_of_nil in Hj'|]. apply list_elem_of_singleton in Hj' as ->.
        split; [nia|]. intros h Hh. destruct hi as [m|], high as [n|]; try done. injection Hh as <-.
        specialize (Hhi _ eq_refl). specialize (Hhigh _ eq_refl). nia.
      - apply (IH (low - 1) (Z.pred <$> high)); [|done]. intros h Hh. destruct high as [n|]; [|done]. injection Hh as <-.
        specialize (Hhigh _ eq_refl). lia. }
    split; [nia|]. intros h Hh. destruct hi as [m|], high as [n|]; try done. injection Hh as <-.
    specialize (Hk2 _ eq_refl). specialize (H2 _ eq_refl). nia.
  - split; [nia|]. intros h Hh. destruct hi as [m|], high as [n|]; try done. injection Hh as <-.
    specialize (Hhi _ eq_refl). specialize (Hhigh _ eq_refl). nia.
Qed.

Lemma within_trans lo hi lo' hi' i j k : within lo hi i j -> within lo' hi' j k -> within (lo + lo') (both_max Z.add hi hi') i k.
Proof.
  intros [H1 H2] [H3 H4]. split; [lia|]. intros h Hh. destruct hi as [m|], hi' as [n|]; try done. injection Hh as <-.
  specialize (H2 _ eq_refl). specialize (H4 _ eq_refl). lia.
Qed.

Lemma within_weaken lo hi lo' hi' i j :
  within lo hi i j -> lo' <= lo -> (forall h', hi' = Some h' -> exists h, hi = Some h /\ h <= h') -> within lo' hi' i j.
Proof. intros [H1 H2] Hl Hh. split; [lia|]. intros h' (h & Eh & ?)%Hh. specialize (H2 _ Eh). lia. Qed.

Lemma within_here lo hi i : lo <= 0 -> (forall h, hi = Some h -> 0 <= h) -> within lo hi i i.
Proof. intros H1 H2. split; [lia|]. intros h Hh. specialize (H2 _ Hh). lia. Qed.

Section Lengths.
Context (canon : Z -> Z) (us : list Z).

(** A match is as long as the bounds say: what [variable-length lookbehind] is decided by. *)
Lemma js_ends_within r : admissible r -> forall i j, j ∈ js_ends canon us r i -> within (rx_min r) (rx_max r) i j.
Proof.
  induction r; cbn [admissible js_ends rx_min rx_max]; intros Ha i j Hj.
  1,2,3,4: apply only_if_elem in Hj as [_ ->]; split; [lia|intros h [= <-]; lia].
  1,2,3: apply only_if_elem in Hj as [_ ->]; apply within_here; [lia|intros h [= <-]; lia].
  - apply list_elem_of_singleton in Hj as ->. apply within_here; [lia|intros h [= <-]; lia].
  - destruct Ha as [Ha1 Ha2]. apply flat_map_elem in Hj as (k & Hk & Hj). eapply within_trans; [apply IHr1; [done|exact Hk]|by apply IHr2].
  - destruct Ha as [Ha1 Ha2]. apply elem_of_app in Hj as [Hj|Hj]; [apply IHr1 in Hj; [|done]|apply IHr2 in Hj; [|done]];
      (eapply within_weaken; [exact Hj|lia|]); intros h Hh; destruct (rx_max r1), (rx_max r2); try done;
      injection Hh as <-; eexists; (split; [done|lia]).
  - by apply IHr.
  - destruct behind; apply only_if_elem in Hj as [_ ->]; apply within_here; try lia; intros h [= <-]; lia.
  - destruct Ha as (Ha & Hl & Hh & _). rewrite <- (Z.max_r 0 low) by done.
    eapply rep_within; [by apply rx_min_nonneg|intros m; by apply rx_max_nonneg|by left|by apply IHr| |exact Hj].
    intros h E. specialize (Hh _ E). lia.
Qed.
End Lengths.

(** ** Character sets *)
Ltac unfold_chars :=
  unfold ascii_word, is_alnum, is_upper, Regex.is_lower, Matching.is_lower, Regex.is_digit, Prelude.is_digit in *.

Lemma mem_app {A} `{EqDecision A} (x : A) l l' : mem x (l ++ l') = mem x l || mem x l'.
Proof. apply eq_true_iff_eq. rewrite orb_true_iff, !mem_spec. apply elem_of_app. Qed.

Lemma mem_span c a n : mem c (span a n) = (a <=? c) && (c <? a + n).
Proof. apply eq_true_iff_eq. rewrite mem_spec, andb_true_iff. unfold span. rewrite elem_of_seqZ. lia. Qed.

Lemma mem_one_of (c : Z) l : existsb (in_item c) (IOne <$> l) = mem c l.
Proof.
  apply eq_true_iff_eq. rewrite mem_spec, existsb_exists. setoid_rewrite <- list_elem_of_In.
  setoid_rewrite list_elem_of_fmap. split.
  - intros (it & (a & -> & Ha) & Hc). cbn [in_item] in Hc. apply Z.eqb_eq in Hc as ->. done.
  - intros H. exists (IOne c). split; [by exists c|apply Z.eqb_refl].
Qed.

Fixpoint ascending (start : Z) (ms : list Z) : bool :=
  match ms with [] => true | m :: ms' => (start <=? m) && ascending (m + 1) ms' end.

Lemma ascending_below start ms c : ascending start ms = true -> c ∈ ms -> start <= c.
Proof.
  revert start. induction ms as [|m ms IH]; intros start H Hc; [by apply elem_of_nil in Hc|].
  cbn [ascending] in H. apply andb_prop in H as [H1 H2]. apply elem_of_cons in Hc as [->|Hc]; [lia|].
  specialize (IH _ H2 Hc). lia.
Qed.

Lemma in_gap c r : in_item c (gap_item r) = (r.1 <=? c) && (c <=? r.2).
Proof. unfold gap_item. destruct (r.1 =? r.2) eqn:E; cbn [in_item]; [|done]. apply Z.eqb_eq in E. lia. Qed.

(** [_complement] is the complement. *)
Lemma gaps_spec c ms : c <= 0xFFFF -> forall start, ascending start ms = true ->
  existsb (in_item c) (gap_item <$> gaps start ms) = (start <=? c) && negb (mem c ms).
Proof.
  intros Hc. induction ms as [|m ms IH]; intros start Hs; cbn [gaps].
  - destruct (start <? 0x10000) eqn:E; cbn [fmap list_fmap existsb]; rewrite ?in_gap; cbn [fst snd]; change (mem c []) with false; lia.
  - cbn [ascending] in Hs. apply andb_prop in Hs as [H1 H2]. rewrite fmap_app, existsb_app, (IH _ H2).
    assert (mem c (m :: ms) = (c =? m) || mem c ms) as ->.
    { apply eq_true_iff_eq. rewrite orb_true_iff, !mem_spec, elem_of_cons, Z.eqb_eq. tauto. }
    assert (mem c ms = true -> m + 1 <= c) as Hms by (intros H%mem_spec; by eapply ascending_below).
    destruct (start <? m) eqn:E; cbn [fmap list_fmap existsb]; rewrite ?in_gap; cbn [fst snd];
      destruct (mem c ms); try specialize (Hms eq_refl); lia.
Qed.

Lemma mem_digits c : mem c _DIGITS = is_digit c.
Proof. unfold _DIGITS. rewrite mem_span. unfold_chars. lia. Qed.

Lemma mem_words c : mem c _WORDS = ascii_word c.
Proof.
  unfold _WORDS. rewrite !mem_app, mem_digits, !mem_span. unfold_chars.
  assert (mem c [0x5F] = (c =? 95)) as ->. { apply eq_true_iff_eq. rewrite mem_spec, list_elem_of_singleton, Z.eqb_eq. done. } lia.
Qed.

Lemma mem_whitespace c : mem c _WHITESPACE_UNITS = is_js_whitespace c.
Proof.
  unfold _WHITESPACE_UNITS, is_js_whitespace. rewrite !mem_app, mem_span. apply eq_true_iff_eq.
  rewrite !orb_true_iff, !mem_spec, !elem_of_cons, !elem_of_nil. lia.
Qed.

Definition escape_letters : list Z := [ch "d"; ch "w"; ch "s"; ch "D"; ch "W"; ch "S"].

Lemma class_escape_letter e : is_Some (class_escape e) -> e ∈ escape_letters.
Proof.
  unfold class_escape. intros [t Ht]. apply dget_elem in Ht.
  assert ([e] ∈ dkeys _CLASS_ESCAPES) as Hk by (unfold dkeys; apply list_elem_of_fmap; by exists ([e], t)).
  change (dkeys _CLASS_ESCAPES) with [u "d"; u "w"; u "s"; u "D"; u "W"; u "S"] in Hk.
  rewrite !elem_of_cons, elem_of_nil in Hk. unfold escape_letters, ch. rewrite !elem_of_cons.
  destruct Hk as [H|[H|[H|[H|[H|[H|[]]]]]]]; rewrite <- H; auto 10.
Qed.

(** A class escape's Python items are its ECMAScript set. *)
Lemma escape_items_spec e c : e ∈ escape_letters -> unit_value c ->
  existsb (in_item c) (escape_items e) = escape_holds e c.
Proof.
  intros He Hc. unfold unit_value in Hc. unfold escape_letters in He. rewrite !elem_of_cons, elem_of_nil in He.
  destruct He as [->|[->|[->|[->|[->|[->|[]]]]]]].
  - change (((48 <=? c) && (c <=? 57)) || false = is_digit c). unfold_chars. lia.
  - change (existsb (in_item c) word_items = ascii_word c). cbn [existsb word_items in_item]. unfold_chars. lia.
  - change (existsb (in_item c) (IOne <$> _WHITESPACE_UNITS) = is_js_whitespace c).
    by rewrite mem_one_of, mem_whitespace.
  - change (existsb (in_item c) (gap_item <$> gaps 0 _DIGITS) = negb (is_digit c)).
    rewrite gaps_spec, (proj2 (Z.leb_le 0 c)) by (done || lia). by rewrite mem_digits.
  - change (existsb (in_item c) (gap_item <$> gaps 0 _WORDS) = negb (ascii_word c)).
    rewrite gaps_spec, (proj2 (Z.leb_le 0 c)) by (done || lia). by rewrite mem_words.
  - change (existsb (in_item c) (gap_item <$> gaps 0 _WHITESPACE_UNITS) = negb (is_js_whitespace c)).
    rewrite gaps_spec, (proj2 (Z.leb_le 0 c)) by (done || lia). by rewrite mem_whitespace.
Qed.

(** ** Case folding *)
Lemma in_all_units k : k ∈ all_units <-> unit_value k.
Proof. unfold all_units, unit_value. rewrite elem_of_seqZ. lia. Qed.

#[local] Opaque all_units.

Section Sets.
Context (canon : Z -> Z).

Lemma js_in_spec p c : js_in canon p c = true <-> exists k, unit_value k /\ p k = true /\ canon k = canon c.
Proof.
  unfold js_in. rewrite existsb_exists. setoid_rewrite <- list_elem_of_In. setoid_rewrite in_all_units.
  setoid_rewrite andb_true_iff. setoid_rewrite Z.eqb_eq. tauto.
Qed.

(** A set with no part of a class of equal characters. *)
Definition case_closed (p : Z -> bool) : Prop := forall k c, unit_value k -> unit_value c -> canon k = canon c -> p k = p c.

Lemma js_in_closed p c : case_closed p -> unit_value c -> js_in canon p c = p c.
Proof.
  intros Hp Hc. apply eq_true_iff_eq. rewrite js_in_spec. split; [|by exists c].
  intros (k & Hk & H & E). by rewrite <- (Hp _ _ Hk Hc E).
Qed.

Lemma js_in_existsb {A} (f : A -> Z -> bool) l c :
  js_in canon (fun k => existsb (fun a => f a k) l) c = existsb (fun a => js_in canon (f a) c) l.
Proof.
  apply eq_true_iff_eq. rewrite js_in_spec, existsb_exists. setoid_rewrite js_in_spec. setoid_rewrite existsb_exists. split.
  - intros (k & Hk & (a & Ha & H) & E). eauto 10.
  - intros (a & Ha & k & Hk & H & E). eauto 10.
Qed.
End Sets.

Lemma closed_id p : case_closed id p.
Proof. by intros k c _ _ [= ->]. Qed.

Lemma swap_case_cases c :
  (65 <= c <= 90 /\ swap_case c = c + 32) \/ (97 <= c <= 122 /\ swap_case c = c - 32) \/
  ((c < 65 \/ 90 < c < 97 \/ 122 < c) /\ swap_case c = c).
Proof.
  unfold swap_case. destruct (is_upper c) eqn:E; [left; unfold_chars; lia|].
  destruct (is_lower c) eqn:E'; unfold_chars; lia.
Qed.

Lemma ascii_upper_cases c :
  (97 <= c <= 122 /\ ascii_upper c = c - 32) \/ ((c < 97 \/ 122 < c) /\ ascii_upper c = c).
Proof. unfold ascii_upper. destruct (is_lower c) eqn:E; unfold_chars; lia. Qed.

Ltac by_cases a c :=
  let H := fresh in pose proof (swap_case_cases c) as H;
  let H1 := fresh in pose proof (ascii_upper_cases c) as H1;
  let H2 := fresh in pose proof (ascii_upper_cases a) as H2; lia.

Section Folding.
Context (canon : Z -> Z) (Hcanon : Canonicalize canon).

Lemma canon_same a c : 0 <= a < 128 -> unit_value c -> canon a = canon c <-> c = a \/ swap_case c = a.
Proof.
  intros Ha Hc. unfold unit_value in Hc. rewrite (canon_ascii _ Hcanon a) by done.
  destruct (decide (c < 128)) as [Hl|Hl].
  - rewrite (canon_ascii _ Hcanon c) by lia. by_cases a c.
  - pose proof (canon_high _ Hcanon c ltac:(lia)). by_cases a c.
Qed.

Lemma closed_ascii p : (forall c, 128 <= c -> p c = p 128) -> (forall c, 0 <= c < 128 -> p (swap_case c) = p c) -> case_closed canon p.
Proof.
  intros Hhigh Hswap k c Hk Hc E. unfold unit_value in Hk, Hc.
  destruct (decide (k < 128)).
  - apply canon_same in E as [->|E]; [done|..]; try done; [|lia].
    destruct (decide (c < 128)); [rewrite <- E; apply Hswap; lia|].
    exfalso. by_cases k c.
  - destruct (decide (c < 128)); [|by rewrite (Hhigh k), (Hhigh c) by lia].
    exfalso. rewrite (canon_ascii _ Hcanon c) in E by lia. pose proof (canon_high _ Hcanon k ltac:(lia)).
    by_cases k c.
Qed.

(** A set of white space is closed, too. *)
Lemma closed_space p : (forall c, p c = true -> is_js_whitespace c = true) -> case_closed canon p.
Proof.
  intros Hp. assert (forall k c, canon k = canon c -> p k = true -> p c = true) as H.
  { intros k c E H. pose proof (Hp _ H) as Hs. rewrite (canon_space _ Hcanon k Hs) in E.
    assert (is_js_whitespace c = true) as Hsc by (apply (canon_space_inv _ Hcanon); by rewrite <- E).
    rewrite (canon_space _ Hcanon c Hsc) in E. by subst. }
  intros k c _ _ E. apply eq_true_iff_eq. split; by apply H.
Qed.
End Folding.

Lemma letter_not_space c : 65 <= c <= 122 -> is_js_whitespace c = false.
Proof.
  intros Hc. unfold is_js_whitespace. apply not_true_iff_false. rewrite orb_true_iff, mem_spec, !elem_of_cons, elem_of_nil. lia.
Qed.

Lemma space_swap c : is_js_whitespace (swap_case c) = is_js_whitespace c.
Proof.
  destruct (swap_case_cases c) as [[H ->]|[[H ->]|[H ->]]]; [..|done]; by rewrite !letter_not_space by lia.
Qed.

Lemma digit_swap c : is_digit (swap_case c) = is_digit c.
Proof. pose proof (swap_case_cases c). unfold_chars. lia. Qed.

Lemma word_swap c : ascii_word (swap_case c) = ascii_word c.
Proof. pose proof (swap_case_cases c). unfold_chars. lia. Qed.

Lemma escape_swap e c : escape_holds e (swap_case c) = escape_holds e c.
Proof. unfold escape_holds. by rewrite digit_swap, word_swap, space_swap. Qed.

Lemma closed_negb canon p : case_closed canon p -> case_closed canon (fun c => negb (p c)).
Proof. intros H k c Hk Hc E. by rewrite (H _ _ Hk Hc E). Qed.

Lemma closed_escape canon e : Canonicalize canon -> e ∈ escape_letters -> case_closed canon (escape_holds e).
Proof.
  intros Hc He. unfold escape_letters in He. rewrite !elem_of_cons, elem_of_nil in He.
  assert (case_closed canon is_digit) as Hd by (apply closed_ascii; [done|intros c H; unfold_chars; lia|intros; apply digit_swap]).
  assert (case_closed canon ascii_word) as Hw by (apply closed_ascii; [done|intros c H; unfold_chars; lia|intros; apply word_swap]).
  assert (case_closed canon is_js_whitespace) as Hs by (by apply closed_space).
  destruct He as [->|[->|[->|[->|[->|[->|[]]]]]]]; [exact Hd|exact Hw|exact Hs|..]; by apply closed_negb.
Qed.

Lemma swap_unit c : unit_value c -> unit_value (swap_case c).
Proof. unfold unit_value. pose proof (swap_case_cases c). lia. Qed.

(** ** Where the two agree *)
Section Agreement.
Context (fold : bool) (canon : Z -> Z) (Hcanon : Canonicalize canon).

(** [Canonicalize] with the flags of the pattern. *)
Definition canon_of : Z -> Z := if fold then canon else id.

Lemma set_agrees p items c :
  case_closed canon_of p -> (forall k, unit_value k -> existsb (in_item k) items = p k) -> p (swap_case c) = p c ->
  unit_value c -> js_in canon_of p c = py_in fold items c.
Proof.
  intros Hp Hi Hs Hc. rewrite (js_in_closed _ _ _ Hp Hc). unfold py_in. rewrite !Hi by (done || by apply swap_unit).
  rewrite Hs. by destruct fold, (p c).
Qed.

Lemma closed_canon_of p : case_closed canon p -> case_closed canon_of p.
Proof. unfold canon_of. destruct fold; [done|intros _; apply closed_id]. Qed.

Lemma escape_agrees e c : is_Some (class_escape e) -> unit_value c ->
  js_in canon_of (escape_holds e) c = py_in fold (escape_items e) c.
Proof.
  intros He%class_escape_letter Hc. apply set_agrees; [|intros k Hk; by apply escape_items_spec|apply escape_swap|done].
  by apply closed_canon_of, closed_escape.
Qed.

Lemma member_agrees m c : member_admissible m -> (fold = true -> member_ascii m = true) -> unit_value c ->
  js_in canon_of (member_holds m) c = py_in fold (member_items m) c.
Proof.
  intros Hm Ha Hc. destruct m as [a|a b|e]; cbn [member_admissible member_items member_ascii] in *; [| |by apply escape_agrees];
    apply eq_true_iff_eq; rewrite js_in_spec; unfold py_in, canon_of; cbn [member_holds existsb in_item]; rewrite !orb_false_r;
    destruct fold; cbn [andb]; try specialize (Ha eq_refl); rewrite ?orb_false_r.
  - rewrite orb_true_iff, !Z.eqb_eq. unfold unit_value in Hm. split.
    + intros (k & Hk & ->%Z.eqb_eq & E). by apply (canon_same _ Hcanon) in E; [|lia|].
    + intros H. exists a. split_and!; [done|apply Z.eqb_refl|]. apply (canon_same _ Hcanon); [lia|done..].
  - split; [intros (k & Hk & ->%Z.eqb_eq & E)|intros ->%Z.eqb_eq]; [apply Z.eqb_eq; by cbn in E|].
    exists a. split_and!; [done|apply Z.eqb_refl|done].
  - rewrite orb_true_iff. destruct Hm as (H1 & H2 & H3). unfold unit_value in H1, H2, Hc. split.
    + intros (k & Hk & Hin & E). apply (canon_same _ Hcanon) in E; [|lia|done]. destruct E as [->| <-]; [by left|by right].
    + intros [H|H]; [exists c|exists (swap_case c)]; (split_and!; [|done|]); [done|done|by apply swap_unit|].
      apply (canon_same _ Hcanon); [pose proof (swap_case_cases c); lia|done|by right].
  - split; [intros (k & Hk & Hin & E); cbn in E; by subst|]. intros H. by exists c.
Qed.

Lemma py_in_flat_map {A} (f : A -> list item) l c : py_in fold (flat_map f l) c = existsb (fun a => py_in fold (f a) c) l.
Proof.
  unfold py_in. induction l as [|a l IH]; cbn [flat_map existsb]; [by destruct fold|].
  rewrite <- IH, !existsb_app. destruct fold; cbn [andb]; rewrite ?orb_false_r; [|done].
  destruct (existsb _ (f a)), (existsb (in_item (swap_case c)) (f a)), (existsb (in_item c) (flat_map f l)); done.
Qed.

Lemma class_agrees neg ms c : Forall member_admissible ms -> (fold = true -> forallb member_ascii ms = true) -> unit_value c ->
  xorb neg (js_in canon_of (fun k => existsb (fun m => member_holds m k) ms) c) =
  match ms with
  | [] => xorb (negb neg) (py_in fold [ISpan 0 0xFFFF] c)
  | _ => xorb neg (py_in fold (flat_map member_items ms) c)
  end.
Proof.
  intros Hm Ha Hc. rewrite js_in_existsb. unfold unit_value in Hc.
  assert (existsb (fun a => js_in canon_of (member_holds a) c) ms = existsb (fun a => py_in fold (member_items a) c) ms) as ->.
  { clear neg. induction Hm as [|m ms Hm Hms IH]; [done|]. cbn [existsb]. f_equal.
    - apply member_agrees; [done| |done]. intros Hf. specialize (Ha Hf). cbn [forallb] in Ha. by apply andb_prop in Ha as [? _].
    - apply IH. intros Hf. specialize (Ha Hf). cbn [forallb] in Ha. by apply andb_prop in Ha as [_ ?]. }
  destruct ms as [|m ms]; [|by rewrite py_in_flat_map]. cbn [existsb]. unfold py_in. cbn [existsb in_item].
  assert ((0 <=? c) && (c <=? 65535) = true) as -> by lia. by destruct neg.
Qed.

Lemma dot_agrees c : unit_value c ->
  js_in canon_of (fun k => mem k [0x0A; 0x0D; 0x2028; 0x2029]) c = py_in fold (IOne <$> _LINE_TERMINATORS) c.
Proof.
  intros Hc.
  assert (forall k, mem k [0x0A; 0x0D; 0x2028; 0x2029] = true -> is_js_whitespace k = true) as Hs.
  { intros k. unfold is_js_whitespace. rewrite orb_true_iff, !mem_spec, !elem_of_cons, !elem_of_nil. lia. }
  apply set_agrees; [by apply closed_canon_of, closed_space|intros k _; apply mem_one_of| |done].
  apply eq_true_iff_eq. rewrite !mem_spec, !elem_of_cons, !elem_of_nil. pose proof (swap_case_cases c). lia.
Qed.

Lemma char_agrees a c : unit_value a -> (fold = true -> (a <? 128) = true) -> unit_value c ->
  js_in canon_of (fun k => k =? a) c = py_in fold [IOne a] c.
Proof. intros. by apply (member_agrees (MUnit a)). Qed.

(** ** Repeats *)
Lemma flat_map_ext_in {A B} (f g : A -> list B) l : (forall a, a ∈ l -> f a = g a) -> flat_map f l = flat_map g l.
Proof.
  intros H. induction l as [|a l IH]; [done|]. cbn [flat_map]. rewrite H by left. f_equal. apply IH. intros b Hb. apply H. by right.
Qed.

(** What becomes of an empty iteration does not matter where there is none. *)
Lemma rep_agrees e1 e2 s1 s2 greedy : (forall i, s1 i = s2 i) ->
  forall fuel low high i, high = Some low \/ (forall j, j ∉ s2 j) ->
    rep e1 s1 greedy fuel low high i = rep e2 s2 greedy fuel low high i.
Proof.
  intros Hs. induction fuel as [|fuel IH]; intros low high i Hor; [done|]. cbn [rep].
  assert (forall more more' stop : list nat, more = more' -> (if greedy then more ++ stop else stop ++ more) = (if greedy then more' ++ stop else stop ++ more'))
    as Hwrap by (by intros ? ? ? ->).
  apply Hwrap. destruct (match high with Some h => 0 <? h | None => true end) eqn:Eh; [|done]. rewrite Hs.
  apply flat_map_ext_in. intros j Hj. destruct Hor as [->|Hne].
  - assert (low <=? 0 = false) as -> by lia. cbn [andb]. apply IH. left. reflexivity.
  - destruct ((low <=? 0) && (j =? i)%nat) eqn:E; [|apply IH; by right].
    apply andb_prop in E as [_ ->%Nat.eqb_eq]. by apply Hne in Hj.
Qed.

(** ** Word boundaries *)
Context (us : list Z).

Lemma py_word i : py_set fold us false word_items i = only_if (word_at us i) (S i).
Proof.
  unfold py_set, word_at, char_is. f_equal. destruct (us !! i) as [c|]; [|done]. cbn [xorb].
  assert (forall k, existsb (in_item k) word_items = ascii_word k) as H.
  { intros k. cbn [existsb word_items in_item]. unfold_chars. lia. }
  unfold py_in. rewrite !H, word_swap. destruct fold, (ascii_word c); done.
Qed.

Lemma word_look_ahead neg i : py_ends fold us (word_look false neg) i = only_if (xorb neg (word_at us i)) i.
Proof.
  unfold word_look. cbn [py_ends]. rewrite py_word. unfold only_if at 2. by destruct (word_at us i), neg.
Qed.

Lemma word_look_behind neg i : py_ends fold us (word_look true neg) i = only_if (xorb neg (word_before us i)) i.
Proof.
  unfold word_look. cbn [py_ends py_min]. f_equal. f_equal. unfold word_before, before_is. destruct i as [|i]; [done|].
  change (Z.to_nat (1 + 0)) with 1%nat. cbn [Nat.leb andb]. replace (S i - 1)%nat with i by lia. rewrite py_word.
  fold (word_at us i). destruct (word_at us i); cbn [only_if flat_map app]; [|done].
  apply mem_spec. by left.
Qed.

Lemma boundary_agrees neg i : py_ends fold us (boundary_py neg) i = only_if (xorb neg (xorb (word_before us i) (word_at us i))) i.
Proof.
  unfold boundary_py, both. cbn [py_ends]. rewrite !word_look_behind.
  destruct (word_before us i), neg; cbn [xorb negb only_if flat_map app]; rewrite ?word_look_ahead; by destruct (word_at us i).
Qed.

(** ** Widths *)
Lemma py_min_of r : py_min (py_of r) = rx_min r.
Proof. induction r as [| |neg [|]| | | | | | | | | |]; cbn [py_of py_min rx_min]; congruence || (try done). Qed.

Lemma look_behind_agrees r i : admissible r -> rx_max r = Some (rx_min r) ->
  existsb (fun j => mem i (js_ends canon_of us r j)) (seq 0 (S i)) =
  (Z.to_nat (rx_min r) <=? i)%nat && mem i (js_ends canon_of us r (i - Z.to_nat (rx_min r))).
Proof.
  intros Ha Hm. pose proof (rx_min_nonneg r Ha) as H0. apply eq_true_iff_eq.
  rewrite existsb_exists, andb_true_iff, mem_spec, Nat.leb_le. setoid_rewrite <- list_elem_of_In. setoid_rewrite mem_spec. split.
  - intros (j & Hj & H). destruct (js_ends_within _ _ _ Ha _ _ H) as [H1 H2]. specialize (H2 _ Hm).
    replace j with (i - Z.to_nat (rx_min r))%nat in H by lia. split; [lia|done].
  - intros [Hle H]. eexists. split; [|exact H]. apply elem_of_seq. lia.
Qed.

Context (Hus : Forall unit_value us).

Lemma set_ends neg neg' p items i :
  (forall c, unit_value c -> xorb neg (js_in canon_of p c) = xorb neg' (py_in fold items c)) ->
  js_set canon_of us neg p i = py_set fold us neg' items i.
Proof.
  intros H. unfold js_set, py_set, char_is. f_equal. destruct (us !! i) as [c|] eqn:E; [|done]. apply H.
  eapply Forall_lookup_1; [exact Hus|exact E].
Qed.

(** The two semantics agree on every tree the translator accepts. *)
Lemma ends_agree r : admissible r -> (fold = true -> rx_ascii r = true) ->
  forall i, js_ends canon_of us r i = py_ends fold us (py_of r) i.
Proof.
  induction r; cbn [admissible rx_ascii]; intros Ha Hf i.
  - cbn [js_ends py_of py_ends]. apply set_ends. intros k Hk. f_equal. by apply char_agrees.
  - cbn [js_ends py_of py_ends]. apply set_ends. intros k Hk. f_equal. by apply dot_agrees.
  - assert (forall k, unit_value k -> _) as H by (intros k Hk; exact (class_agrees neg members k Ha Hf Hk)).
    destruct members as [|m ms]; cbn [js_ends py_of py_ends]; by apply set_ends.
  - cbn [js_ends py_of py_ends]. apply set_ends. intros k Hk. f_equal. by apply escape_agrees.
  - done.
  - done.
  - cbn [js_ends py_of]. by rewrite boundary_agrees.
  - done.
  - destruct Ha as [Ha1 Ha2]. cbn [js_ends py_of py_ends]. rewrite IHr1; [|done|].
    2:{ intros H. specialize (Hf H). by apply andb_prop in Hf as [? _]. }
    apply flat_map_ext_in. intros j _. apply IHr2; [done|]. intros H. specialize (Hf H). by apply andb_prop in Hf as [_ ?].
  - destruct Ha as [Ha1 Ha2]. cbn [js_ends py_of py_ends]. f_equal; [apply IHr1|apply IHr2]; try done;
      intros H; specialize (Hf H); by apply andb_prop in Hf as [? ?].
  - cbn [js_ends py_of py_ends]. by apply IHr.
  - destruct Ha as [Ha Hw]. destruct behind; cbn [js_ends py_of py_ends].
    + rewrite (look_behind_agrees r i Ha (Hw eq_refl)), py_min_of. by rewrite IHr.
    + by rewrite IHr.
  - destruct Ha as (Ha & Hl & Hh & Hz). cbn [js_ends py_of py_ends]. apply rep_agrees; [by apply IHr|].
    pose proof (rx_min_nonneg r Ha). destruct (decide (rx_min r = 0)) as [E|E]; [left; by apply Hz|right].
    intros j Hj. rewrite <- IHr in Hj by done. apply js_ends_within in Hj as [H1 _]; [lia|done].
Qed.
End Agreement.

(** ** Fuel *)
(** The fuel of a repeat is enough: more changes nothing, over bodies that stay in the text. *)
Lemma rep_enough on_empty step greedy n :
  (forall i j, j ∈ step i -> (i <= j)%nat /\ ((i <= n)%nat -> (j <= n)%nat)) ->
  forall fuel extra low high i, (i <= n)%nat -> (Z.to_nat low + (n - i) < fuel)%nat ->
    rep on_empty step greedy (fuel + extra) low high i = rep on_empty step greedy fuel low high i.
Proof.
  intros Hstep. induction fuel as [|fuel IH]; intros extra low high i Hi Hfuel; [lia|]. cbn [Nat.add rep].
  destruct (match high with Some h => 0 <? h | None => true end) eqn:Eh; [|done].
  rewrite (flat_map_ext_in _ (fun j => if (low <=? 0) && (j =? i)%nat then on_empty j
     else rep on_empty step greedy fuel (low - 1) (Z.pred <$> high) j)); [done|].
  intros j Hj. apply Hstep in Hj as [Hj1 Hj2]. specialize (Hj2 Hi).
  destruct ((low <=? 0) && (j =? i)%nat) eqn:E; [done|]. apply IH; [done|].
  apply andb_false_iff in E as [E|E%Nat.eqb_neq]; lia.
Qed.

Section Stay.
Context (canon : Z -> Z) (us : list Z).

Lemma js_set_stay neg p i j : j ∈ js_set canon us neg p i -> (i <= j)%nat /\ ((i <= length us)%nat -> (j <= length us)%nat).
Proof.
  unfold js_set, char_is. intros [H ->]%only_if_elem. destruct (us !! i) as [c|] eqn:E; [|done]. apply lookup_lt_Some in E. lia.
Qed.

Lemma rep_stay step greedy : (forall i j, j ∈ step i -> (i <= j)%nat /\ ((i <= length us)%nat -> (j <= length us)%nat)) ->
  forall fuel low high i j, j ∈ rep (fun _ => []) step greedy fuel low high i -> (i <= j)%nat /\ ((i <= length us)%nat -> (j <= length us)%nat).
Proof.
  intros Hstep. induction fuel as [|fuel IH]; intros low high i j; cbn [rep]; [by intros ?%elem_of_nil|].
  match goal with |- context [?m ++ (if low <=? 0 then [i] else [])] => set (more := m) end. intros Hj.
  assert (j ∈ more \/ j = i) as [Hm| ->]; [|subst more|lia].
  { destruct greedy; rewrite elem_of_app in Hj; destruct (low <=? 0); rewrite ?list_elem_of_singleton, ?elem_of_nil in Hj; tauto. }
  destruct (match high with Some h => 0 <? h | None => true end); [|by apply elem_of_nil in Hm].
  apply flat_map_elem in Hm as (k & Hk%Hstep & Hj'). destruct (_ && _); [by apply elem_of_nil in Hj'|]. apply IH in Hj'. lia.
Qed.

Lemma js_ends_stay r : forall i j, j ∈ js_ends canon us r i -> (i <= j)%nat /\ ((i <= length us)%nat -> (j <= length us)%nat).
Proof.
  induction r; cbn [js_ends]; intros i j Hj; try (by apply js_set_stay in Hj); try (apply only_if_elem in Hj as [_ ->]; lia).
  - apply list_elem_of_singleton in Hj as ->. lia.
  - apply flat_map_elem in Hj as (k & Hk%IHr1 & Hj%IHr2). lia.
  - apply elem_of_app in Hj as [Hj%IHr1|Hj%IHr2]; lia.
  - by apply IHr.
  - destruct behind; apply only_if_elem in Hj as [_ ->]; lia.
  - eapply rep_stay; [exact IHr|exact Hj].
Qed.

(** The fuel of a repeat is enough from any position of the text. *)
Lemma js_repeat_enough r low high greedy i extra : (i <= length us)%nat ->
  rep (fun _ => []) (js_ends canon us r) greedy (rep_fuel us low i + extra) low high i = js_ends canon us (RRep r low high greedy) i.
Proof. intros Hi. cbn [js_ends]. apply (rep_enough _ _ _ (length us)); [apply js_ends_stay|done|unfold rep_fuel; lia]. Qed.
End Stay.

(** Where the two disagree: an optional group that can match empty before it matches more. *)
Example empty_iterations_differ :
  js_ends id (u "a") (RRep (RGroup (RAlt REmpty (RCat (RChar 97) REmpty))) 0 None true) 0 = [1; 0]%nat /\
  py_ends false (u "a") (PRep (PGroup (PAlt PEmpty (PCat (PChar 97) PEmpty))) 0 None true) 0 = [0; 1; 1; 0]%nat.
Proof. split; [reflexivity|vm_compute; reflexivity]. Qed.
