(* ===== verification/DialectGrammar.v ===== *)
(** * The regular-expression dialect: what the parser reads and writes

    The grammar of the ECMAScript patterns the parser accepts, as relations between the units of a
    pattern, the tree they stand for and the units that are left, and the grammar of the Python
    patterns it writes.  The parser is sound for both at once, fails only by a rejection, and ends. *)
From S2P Require Import Prelude Text Serialize Regex Matching Runtime Dialect DialectSpec.
Open Scope Z_scope.

(** ** ECMAScript patterns *)
Definition digits_ok (ds : list Z) : Prop := ds <> [] /\ Forall (fun c => is_digit c = true) ds.

(** QuantifierPrefix. *)
Inductive QuantifierPrefix : list Z -> Z -> option Z -> list Z -> Prop :=
| QP_star r : QuantifierPrefix (ch "*" :: r) 0 None r
| QP_plus r : QuantifierPrefix (ch "+" :: r) 1 None r
| QP_opt r : QuantifierPrefix (ch "?" :: r) 0 (Some 1) r
| QP_exactly ds r : digits_ok ds ->
    QuantifierPrefix (ch "{" :: ds ++ ch "}" :: r) (int_of_digits ds) (Some (int_of_digits ds)) r
| QP_at_least ds r : digits_ok ds ->
    QuantifierPrefix (ch "{" :: ds ++ ch "," :: ch "}" :: r) (int_of_digits ds) None r
| QP_between ds ds2 r : digits_ok ds -> digits_ok ds2 ->
    QuantifierPrefix (ch "{" :: ds ++ ch "," :: ds2 ++ ch "}" :: r) (int_of_digits ds) (Some (int_of_digits ds2)) r.

(** Quantifier. *)
Inductive Quantifier (l : list Z) (low : Z) (high : option Z) : bool -> list Z -> Prop :=
| Q_greedy r : QuantifierPrefix l low high r -> head r <> Some (ch "?") -> Quantifier l low high true r
| Q_lazy r : QuantifierPrefix l low high (ch "?" :: r) -> Quantifier l low high false r.

Definition quantified (l : list Z) : Prop := exists low high r, QuantifierPrefix l low high r.

(** ControlEscape. *)
Inductive ControlEscape : Z -> Z -> Prop :=
| CE_f : ControlEscape (ch "f") 0x0C
| CE_n : ControlEscape (ch "n") 0x0A
| CE_r : ControlEscape (ch "r") 0x0D
| CE_t : ControlEscape (ch "t") 0x09
| CE_v : ControlEscape (ch "v") 0x0B.

(** CharacterEscape, without the legacy octal escapes, and with the identity escapes of what is no
    ASCII letter or digit only. *)
Inductive CharacterEscape : list Z -> Z -> list Z -> Prop :=
| CE_control e v r : ControlEscape e v -> CharacterEscape (e :: r) v r
| CE_letter c r : is_letter c = true -> CharacterEscape (ch "c" :: c :: r) (c mod 32) r
| CE_zero r : (forall d r', r = d :: r' -> is_digit d = false) -> CharacterEscape (ch "0" :: r) 0 r
| CE_hex ds r : length ds = 2%nat -> forallb is_hex ds = true -> CharacterEscape (ch "x" :: ds ++ r) (int_of_hex ds) r
| CE_unicode ds r : length ds = 4%nat -> forallb is_hex ds = true -> CharacterEscape (ch "u" :: ds ++ r) (int_of_hex ds) r
| CE_identity c r : is_alnum c = false -> CharacterEscape (c :: r) c r.

(** ClassAtom: a unit, or a class escape. *)
Inductive ClassAtom : list Z -> Z + Z -> list Z -> Prop :=
| CA_plain c r : c <> ch "\" -> ClassAtom (c :: r) (inl c) r
| CA_backspace r : ClassAtom (ch "\" :: ch "b" :: r) (inl 8) r
| CA_dash r : ClassAtom (ch "\" :: ch "-" :: r) (inl (ch "-")) r
| CA_class e r : e ∈ escape_letters -> ClassAtom (ch "\" :: e :: r) (inr e) r
| CA_char e l v r : e <> ch "b" -> e ∉ escape_letters -> CharacterEscape (e :: l) v r ->
    ClassAtom (ch "\" :: e :: l) (inl v) r.

Definition one_member (a : Z + Z) : member := match a with inl c => MUnit c | inr e => MEscape e end.

(** A dash that makes a range. *)
Definition starts_range (l : list Z) : Prop := exists c r, l = ch "-" :: c :: r /\ c <> ch "]".

(** ClassRanges, with the closing bracket. *)
Inductive ClassRanges : list Z -> list member -> list Z -> Prop :=
| CR_end r : ClassRanges (ch "]" :: r) [] r
| CR_range c l a d r b r' ms r2 :
    c <> ch "]" -> ClassAtom (c :: l) (inl a) (ch "-" :: d :: r) -> d <> ch "]" -> ClassAtom (d :: r) (inl b) r' ->
    a <= b -> ClassRanges r' ms r2 -> ClassRanges (c :: l) (MRange a b :: ms) r2
| CR_one c l a r ms r2 :
    c <> ch "]" -> ClassAtom (c :: l) a r -> ~ starts_range r -> ClassRanges r ms r2 ->
    ClassRanges (c :: l) (one_member a :: ms) r2.

Definition ends_alternative (l : list Z) : Prop := head l = None \/ head l = Some (ch "|") \/ head l = Some (ch ")").

(** The units with a meaning of their own. *)
Definition syntax_units : list Z := [ch "^"; ch "$"; ch "."; ch "("; ch "["; ch "\"].

Definition mark_unit (neg : bool) : Z := if neg then ch "!" else ch "=".

(** Disjunction, Alternative, Term and Atom. *)
Inductive Disjunction : list Z -> rx -> list Z -> Prop :=
| D_one l a r : Alternative l a r -> head r <> Some (ch "|") -> Disjunction l a r
| D_or l a r b r' : Alternative l a (ch "|" :: r) -> Disjunction r b r' -> Disjunction l (RAlt a b) r'
with Alternative : list Z -> rx -> list Z -> Prop :=
| A_end l : ends_alternative l -> Alternative l REmpty l
| A_term l t r a r' : ~ ends_alternative l -> Term l t r -> Alternative r a r' -> Alternative l (RCat t a) r'
with Term : list Z -> rx -> list Z -> Prop :=
| T_atom l a r : Atom l a r -> ~ quantified r -> Term l a r
| T_quantified l a r low high greedy r' : Atom l a r -> Quantifier r low high greedy r' -> Term l (RRep a low high greedy) r'
with Atom : list Z -> rx -> list Z -> Prop :=
| At_start r : Atom (ch "^" :: r) RStart r
| At_end r : Atom (ch "$" :: r) REnd r
| At_dot r : Atom (ch "." :: r) RDot r
| At_boundary r : Atom (ch "\" :: ch "b" :: r) (RBoundary false) r
| At_not_boundary r : Atom (ch "\" :: ch "B" :: r) (RBoundary true) r
| At_class_escape e r : e ∈ escape_letters -> Atom (ch "\" :: e :: r) (REscape e) r
| At_escape e l v r : e <> ch "b" -> e <> ch "B" -> e ∉ escape_letters -> CharacterEscape (e :: l) v r ->
    Atom (ch "\" :: e :: l) (RChar v) r
| At_class l ms r : head l <> Some (ch "^") -> ClassRanges l ms r -> Atom (ch "[" :: l) (RClass false ms) r
| At_negated l ms r : ClassRanges l ms r -> Atom (ch "[" :: ch "^" :: l) (RClass true ms) r
| At_group l d r : head l <> Some (ch "?") -> Disjunction l d (ch ")" :: r) -> Atom (ch "(" :: l) (RGroup d) r
| At_plain_group l d r : Disjunction l d (ch ")" :: r) -> Atom (ch "(" :: ch "?" :: ch ":" :: l) (RGroup d) r
| At_look neg l d r : Disjunction l d (ch ")" :: r) ->
    Atom (ch "(" :: ch "?" :: mark_unit neg :: l) (RLook false neg d) r
| At_look_behind neg l d r : Disjunction l d (ch ")" :: r) ->
    Atom (ch "(" :: ch "?" :: ch "<" :: mark_unit neg :: l) (RLook true neg d) r
| At_literal c r : c ∉ syntax_units -> ~ quantified (c :: r) -> Atom (c :: r) (RChar c) r.

(** ** Python patterns *)
(** A character: an ASCII letter or digit, or its four-digit escape. *)
Definition CharText (c : Z) (t : text) : Prop :=
  (is_alnum c = true /\ t = [c]) \/ exists h1 h2 h3 h4, t = [ch "\"; ch "u"; h1; h2; h3; h4] /\ hex4_value h1 h2 h3 h4 = Some c.

(** A member of a set; the underscore needs no escape there. *)
Inductive ItemText : item -> text -> Prop :=
| IT_one c t : CharText c t -> ItemText (IOne c) t
| IT_underscore : ItemText (IOne 95) (u "_")
| IT_span a b t t' : CharText a t -> CharText b t' -> ItemText (ISpan a b) (t ++ u "-" ++ t').

Definition ItemsText (items : list item) (t : text) : Prop := exists ts, Forall2 ItemText items ts /\ t = concat ts.

Inductive RepeatText : text -> Z -> option Z -> Prop :=
| RT_star : RepeatText (u "*") 0 None
| RT_plus : RepeatText (u "+") 1 None
| RT_opt : RepeatText (u "?") 0 (Some 1)
| RT_exactly n : RepeatText (u "{" ++ str_of_Z n ++ u "}") n (Some n)
| RT_at_least n : RepeatText (u "{" ++ str_of_Z n ++ u "," ++ u "}") n None
| RT_between n m : RepeatText (u "{" ++ str_of_Z n ++ u "," ++ str_of_Z m ++ u "}") n (Some m).

Definition SuffixText (t : text) (low : Z) (high : option Z) (greedy : bool) : Prop :=
  exists s, RepeatText s low high /\ t = s ++ (if greedy then [] else u "?").

Definition look_mark (behind neg : bool) : text :=
  u "(?" ++ (if behind then u "<" else []) ++ (if neg then u "!" else u "=").

Inductive PyDisjunction : py -> text -> Prop :=
| PD_one a t : PySequence a t -> PyDisjunction a t
| PD_or a b t t' : PySequence a t -> PyDisjunction b t' -> PyDisjunction (PAlt a b) (t ++ u "|" ++ t')
with PySequence : py -> text -> Prop :=
| PS_empty : PySequence PEmpty []
| PS_cat a b t t' : PyTerm a t -> PySequence b t' -> PySequence (PCat a b) (t ++ t')
with PyTerm : py -> text -> Prop :=
| PT_atom a t : PyAtom a t -> PyTerm a t
| PT_rep a t low high greedy s : PyAtom a t -> SuffixText s low high greedy -> PyTerm (PRep a low high greedy) (t ++ s)
with PyAtom : py -> text -> Prop :=
| PA_set (neg : bool) items t : items <> [] -> ItemsText items t ->
    PyAtom (PSet neg items) (u "[" ++ (if neg then u "^" else []) ++ t ++ u "]")
| PA_char c t : CharText c t -> PyAtom (PChar c) t
| PA_start : PyAtom PStart (u "\A")
| PA_end : PyAtom PEnd (u "\Z")
| PA_group a t : PyDisjunction a t -> PyAtom (PGroup a) (u "(?:" ++ t ++ u ")")
| PA_look behind neg a t : PyDisjunction a t -> PyAtom (PLook behind neg a) (look_mark behind neg ++ t ++ u ")").

(** ** Texts of characters and sets *)
Lemma unit_text_spec c : unit_value c -> CharText c (unit_text c).
Proof.
  unfold unit_value. intros Hc. unfold unit_text. destruct (is_alnum c) eqn:E; [by left|right].
  destruct (hex4_roundtrip c [] Hc) as (h1 & h2 & h3 & h4 & H & Hv). rewrite app_nil_r in H. exists h1, h2, h3, h4. by rewrite H.
Qed.

Lemma items_app a b t t' : ItemsText a t -> ItemsText b t' -> ItemsText (a ++ b) (t ++ t').
Proof. intros (ts & H & ->) (ts' & H' & ->). exists (ts ++ ts'). by rewrite concat_app; split; [apply Forall2_app|]. Qed.

Lemma items_nil : ItemsText [] [].
Proof. exists []. split; [constructor|done]. Qed.

Lemma items_one it t : ItemText it t -> ItemsText [it] t.
Proof. exists [t]. cbn. rewrite app_nil_r. split; [by constructor|done]. Qed.

Lemma units_items us : Forall unit_value us -> ItemsText (IOne <$> us) (units_text us).
Proof.
  induction 1 as [|c us Hc _ IH]; [apply items_nil|]. change (IOne <$> c :: us) with ([IOne c] ++ (IOne <$> us)).
  change (units_text (c :: us)) with (unit_text c ++ units_text us). apply items_app; [|done].
  by apply items_one, IT_one, unit_text_spec.
Qed.

Lemma range_items rs : Forall (fun r => unit_value r.1 /\ unit_value r.2) rs -> ItemsText (gap_item <$> rs) (concat (range_text <$> rs)).
Proof.
  induction 1 as [|r rs [H1 H2] _ IH]; [apply items_nil|]. change (gap_item <$> r :: rs) with ([gap_item r] ++ (gap_item <$> rs)).
  change (concat (range_text <$> r :: rs)) with (range_text r ++ concat (range_text <$> rs)). apply items_app; [|done].
  apply items_one. unfold gap_item, range_text. destruct (r.1 =? r.2); constructor; by apply unit_text_spec.
Qed.

Lemma gaps_units ms : Forall unit_value ms -> forall start, 0 <= start -> ascending start ms = true ->
  Forall (fun r => unit_value r.1 /\ unit_value r.2) (gaps start ms).
Proof.
  induction 1 as [|m ms Hm _ IH]; intros start Hs; cbn [gaps ascending]; unfold unit_value in *.
  - intros _. destruct (start <? 0x10000) eqn:E; repeat constructor; cbn; lia.
  - intros [H1 H2]%andb_prop. apply Forall_app. split; [|apply IH; [lia|done]].
    destruct (start <? m) eqn:E; repeat constructor; cbn; lia.
Qed.

Lemma word_items_text : ItemsText word_items _WORD.
Proof.
  exists [u "A-Z"; u "a-z"; u "0-9"; u "_"]. split; [|reflexivity].
  constructor; [apply (IT_span 65 90 (u "A") (u "Z")); by left|]. constructor; [apply (IT_span 97 122 (u "a") (u "z")); by left|].
  constructor; [apply (IT_span 48 57 (u "0") (u "9")); by left|]. constructor; [apply IT_underscore|constructor].
Qed.

Lemma all_unit_values l : forallb (fun c => (0 <=? c) && (c <=? 0xFFFF)) l = true -> Forall unit_value l.
Proof. intros H. apply Forall_forall. intros c Hc. unfold unit_value. apply list_elem_of_In in Hc. eapply forallb_forall in H; [|exact Hc]. lia. Qed.

(** What the code writes for a class escape. *)
Lemma escape_text e t : class_escape e = Some t -> ItemsText (escape_items e) t /\ escape_items e <> [].
Proof.
  intros Ht. pose proof (class_escape_letter e (mk_is_Some _ _ Ht)) as He. unfold escape_letters in He.
  rewrite !elem_of_cons, elem_of_nil in He.
  assert (forall ms, forallb (fun c => (0 <=? c) && (c <=? 0xFFFF)) ms = true -> ascending 0 ms = true ->
    ItemsText (gap_item <$> gaps 0 ms) (complement ms)) as Hgaps.
  { intros ms H1 H2. apply range_items, gaps_units; [by apply all_unit_values|lia|done]. }
  destruct He as [->|[->|[->|[->|[->|[->|[]]]]]]].
  - assert (t = u "0-9") as -> by (injection Ht as <-; reflexivity). split; [|done].
    apply items_one. apply (IT_span 48 57 (u "0") (u "9")); by left.
  - assert (t = _WORD) as -> by (injection Ht as <-; reflexivity). split; [apply word_items_text|done].
  - assert (t = units_text _WHITESPACE_UNITS) as -> by (injection Ht as <-; reflexivity).
    split; [by apply units_items, all_unit_values|done].
  - assert (t = complement _DIGITS) as -> by (injection Ht as <-; reflexivity). split; [by apply Hgaps|done].
  - assert (t = complement _WORDS) as -> by (injection Ht as <-; reflexivity). split; [by apply Hgaps|done].
  - assert (t = complement _WHITESPACE_UNITS) as -> by (injection Ht as <-; reflexivity). split; [by apply Hgaps|done].
Qed.

Lemma word_look_text behind neg :
  PyTerm (word_look behind neg) (look_mark behind neg ++ (u "[" ++ _WORD ++ u "]") ++ u ")").
Proof.
  apply PT_atom, PA_look, PD_one. rewrite <- (app_nil_r (u "[" ++ _WORD ++ u "]")). apply PS_cat; [|constructor].
  apply PT_atom. apply (PA_set false); [done|apply word_items_text].
Qed.

Lemma both_text a b t t' : PyTerm a t -> PyTerm b t' -> PySequence (both a b) (t ++ t').
Proof. intros Ha Hb. rewrite <- (app_nil_r t'). apply PS_cat; [done|]. apply PS_cat; [done|constructor]. Qed.

Lemma boundary_text neg : PyAtom (boundary_py neg) (if neg then _NOT_BOUNDARY else _BOUNDARY).
Proof.
  pose proof (PA_group _ _ (PD_or _ _ _ _
    (both_text _ _ _ _ (word_look_text true false) (word_look_text false (negb neg)))
    (PD_one _ _ (both_text _ _ _ _ (word_look_text true true) (word_look_text false neg))))) as H.
  destruct neg; exact H.
Qed.

(** ** Runs of the parser *)
Section Runs.
Context (units : list Z) (Hunits : Forall unit_value units).

Definition here (st : Parser) : list Z := drop (at_ st) units.
Definition moved (st : Parser) (n : nat) : Parser := {| at_ := at_ st + n; non_ascii := non_ascii st |}.

Definition inside (st : Parser) : Prop := (at_ st <= length units)%nat.

(** A later state. *)
Definition after (st st' : Parser) : Prop :=
  (at_ st <= at_ st')%nat /\ inside st' /\ (non_ascii st = true -> non_ascii st' = true).

(** A run that ends in a result with [Q], a rejection, or a recursion error only if [R]. *)
Definition ok {A} (R : Prop) (st : Parser) (r : result Failure (A * Parser)) (Q : A -> Parser -> Prop) : Prop :=
  match r with
  | Ok (a, st') => after st st' /\ Q a st'
  | Raise (PatternRejected _) => True
  | Raise RecursionError => R
  | Raise _ => False
  end.

Lemma after_refl st : inside st -> after st st.
Proof. by intros H. Qed.

Lemma after_trans st st1 st2 : after st st1 -> after st1 st2 -> after st st2.
Proof. intros (H1 & H2 & H3) (H4 & H5 & H6). split; [lia|]. split; [done|auto]. Qed.

Lemma after_inside st st' : after st st' -> inside st'.
Proof. by intros (_ & ? & _). Qed.

Lemma ok_weaken {A} (R R' : Prop) st st1 (r : result Failure (A * Parser)) (Q Q' : A -> Parser -> Prop) :
  ok R st1 r Q -> after st st1 -> (R -> R') -> (forall a st', after st1 st' -> Q a st' -> Q' a st') -> ok R' st r Q'.
Proof.
  unfold ok. destruct r as [[a st']|[]]; try done; [|auto]. intros [H1 H2] Hst _ HQ. split; [by eapply after_trans|]. by apply HQ.
Qed.

Lemma ok_from {A} (R : Prop) st st1 (r : result Failure (A * Parser)) Q : after st st1 -> ok R st1 r Q -> ok R st r Q.
Proof. intros H Hr. eapply ok_weaken; eauto. Qed.

Lemma ok_strict {A} (R : Prop) st (r : result Failure (A * Parser)) (Q : A -> Parser -> Prop) :
  after st (moved st 1) -> ok R (moved st 1) r Q -> ok R st r (fun a st' => (at_ st < at_ st')%nat /\ Q a st').
Proof.
  intros H Hr. eapply ok_weaken; [exact Hr|done|done|]. intros a st' (Hle & _) HQ. split; [cbn in Hle; lia|done].
Qed.

Lemma ok_bind {A B} (R : Prop) st (m : Pm A) (k : A -> Pm B) (P : A -> Parser -> Prop) (Q : B -> Parser -> Prop) :
  ok R st (m st) P -> (forall a st', after st st' -> P a st' -> ok R st' (k a st') Q) -> ok R st (pbind m k st) Q.
Proof.
  unfold ok at 1, pbind. destruct (m st) as [[a st']|[]]; try done. intros [H1 H2] Hk. eapply ok_from; [exact H1|]. by apply Hk.
Qed.

Lemma ok_ret {A} (R : Prop) st (a : A) (Q : A -> Parser -> Prop) : inside st -> Q a st -> ok R st (pret a st) Q.
Proof. intros H1 H2. split; [by apply after_refl|done]. Qed.

Lemma lookup_here st n : units !! (at_ st + n)%nat = here st !! n.
Proof. unfold here. by rewrite lookup_drop. Qed.

Lemma here_moved st n : here (moved st n) = drop n (here st).
Proof. unfold here, moved. cbn [at_]. by rewrite drop_drop. Qed.

Lemma after_moved st n : inside st -> (n <= length (here st))%nat -> after st (moved st n).
Proof. unfold inside, here. rewrite length_drop. intros H1 H2. split; [cbn; lia|]. split; [unfold inside; cbn; lia|done]. Qed.

Lemma bind_peek {B} n (k : option Z -> Pm B) st : pbind (peek units n) k st = k (here st !! n) st.
Proof. unfold pbind, peek. by rewrite lookup_here. Qed.
Lemma bind_rest {B} (k : list Z -> Pm B) st : pbind (rest units) k st = k (here st) st.
Proof. done. Qed.
Lemma bind_advance {B} n (k : unit -> Pm B) st : pbind (advance n) k st = k tt (moved st n).
Proof. done. Qed.
Lemma bind_ret {A B} (a : A) (k : A -> Pm B) st : pbind (pret a) k st = k a st.
Proof. done. Qed.
Lemma bind_bind {A B C} (m : Pm A) (f : A -> Pm B) (k : B -> Pm C) st :
  pbind (pbind m f) k st = pbind m (fun a => pbind (f a) k) st.
Proof. unfold pbind. by destruct (m st) as [[a st']|e]. Qed.
Lemma bind_take {B} (k : Z -> Pm B) st c l : here st = c :: l -> pbind (take_one units) k st = k c (moved st 1).
Proof. intros H. unfold pbind, take_one. rewrite <- (Nat.add_0_r (at_ st)) at 1. by rewrite lookup_here, H. Qed.

Lemma is_char_Some s c : is_char s (Some c) = (c =? ch s).
Proof. unfold is_char. apply eq_true_iff_eq. rewrite bool_decide_eq_true, Z.eqb_eq. split; [by intros [= ->]|by intros ->]. Qed.
Lemma is_char_None s : is_char s None = false.
Proof. done. Qed.

(** Reading on: the state after a known unit, and what is there. *)
Lemma here_cons st c l : inside st -> here st = c :: l -> after st (moved st 1) /\ here (moved st 1) = l.
Proof. intros Hst H. split; [apply after_moved; [done|rewrite H; cbn; lia]|]. rewrite here_moved, H. done. Qed.

Lemma here_app st l r : inside st -> here st = l ++ r -> after st (moved st (length l)) /\ here (moved st (length l)) = r.
Proof.
  intros Hst H. split; [apply after_moved; [done|rewrite H, length_app; lia]|]. by rewrite here_moved, H, drop_app_length.
Qed.

Lemma here_unit st c l : here st = c :: l -> unit_value c.
Proof.
  intros H. assert (Forall unit_value (here st)) as Hf by by apply Forall_drop. rewrite H in Hf. by apply Forall_inv in Hf.
Qed.

(** ** Quantifiers *)
Lemma digits_of_split l : exists r, l = digits_of l ++ r /\ Forall (fun c => is_digit c = true) (digits_of l) /\
  drop (length (digits_of l)) l = r.
Proof.
  induction l as [|c l (r & H1 & H2 & H3)]; [by exists []|]. cbn [digits_of]. destruct (is_digit c) eqn:E.
  - exists r. split; [cbn; congruence|]. split; [by constructor|done].
  - exists (c :: l). split; [done|]. split; [constructor|done].
Qed.

Lemma digits_of_app ds r : Forall (fun c => is_digit c = true) ds ->
  match r with c :: _ => is_digit c = false | [] => True end -> digits_of (ds ++ r) = ds.
Proof.
  intros H Hr. induction H as [|c ds Hc _ IH]; cbn [digits_of app].
  - destruct r as [|c r]; [done|]. cbn. by rewrite Hr.
  - by rewrite Hc, IH.
Qed.

Definition upper_bound (ds : list Z) (upper : option (list Z)) : option Z :=
  match upper with None => Some (int_of_digits ds) | Some [] => None | Some ds2 => Some (int_of_digits ds2) end.

Lemma braced_at_sound l ds upper n : braced_at l = Some (ds, upper, n) ->
  exists read r, l = read ++ r /\ length read = n /\ QuantifierPrefix l (int_of_digits ds) (upper_bound ds upper) r.
Proof.
  unfold braced_at. destruct l as [|b l]; [done|]. destruct (b =? ch "{") eqn:Eb; [|done]. apply Z.eqb_eq in Eb as ->. cbn [negb].
  destruct (digits_of_split l) as (r & Hl & Hd & Hdrop). destruct (digits_of l) as [|d ds1] eqn:Ed; [done|].
  rewrite Hdrop. destruct r as [|c r]; [done|].
  destruct (c =? ch "}") eqn:Ec.
  - apply Z.eqb_eq in Ec as ->. intros [= <- <- <-]. exists (ch "{" :: (d :: ds1) ++ [ch "}"]), r. split_and!.
    + rewrite Hl. cbn [app]. by rewrite <- app_assoc.
    + cbn [length app]. rewrite length_app. cbn [length]. lia.
    + rewrite Hl. by apply QP_exactly.
  - destruct (c =? ch ",") eqn:Ec'; [|done]. apply Z.eqb_eq in Ec' as ->.
    destruct (digits_of_split r) as (r2 & Hr & Hd2 & Hdrop2). rewrite Hdrop2.
    destruct r2 as [|c2 r2]; [done|]. destruct (c2 =? ch "}") eqn:Ec2; [|done]. apply Z.eqb_eq in Ec2 as ->.
    intros [= <- <- <-]. set (ds2 := digits_of r) in *. exists (ch "{" :: (d :: ds1) ++ ch "," :: ds2 ++ [ch "}"]), r2. split_and!.
    + rewrite Hl, Hr. cbn [app]. rewrite <- app_assoc. cbn [app]. by rewrite <- app_assoc.
    + cbn [length app]. rewrite !length_app. cbn [length]. rewrite length_app. cbn [length]. lia.
    + rewrite Hl, Hr. clearbody ds2. destruct ds2 as [|e ds2]; [by apply QP_at_least|by apply QP_between].
Qed.

Lemma braced_at_complete l low high r :
  QuantifierPrefix l low high r -> head l = Some (ch "{") -> braced_at l <> None.
Proof.
  assert (forall ds tail, digits_ok ds -> match tail with c :: _ => is_digit c = false | [] => True end ->
    digits_of (ds ++ tail) = ds) as Hdig by (intros ds tail [_ H] Ht; by apply digits_of_app).
  destruct 1 as [r|r|r|ds r Hds|ds r Hds|ds ds2 r Hds Hds2]; try done; intros _;
    (destruct ds as [|d ds]; [by destruct Hds|]); unfold braced_at; rewrite (Z.eqb_refl (ch "{")); cbn [negb];
    rewrite (Hdig (d :: ds)) by done; cbv beta iota; rewrite drop_app_length.
  - by rewrite Z.eqb_refl.
  - change (ch "," =? ch "}") with false. rewrite Z.eqb_refl. cbv beta iota zeta. cbn [digits_of]. change (is_digit (ch "}")) with false.
    cbn [length drop]. by rewrite Z.eqb_refl.
  - change (ch "," =? ch "}") with false. rewrite Z.eqb_refl. cbv beta iota zeta. rewrite (Hdig ds2) by done. rewrite drop_app_length. by rewrite Z.eqb_refl.
Qed.

Lemma not_quantified l : head l <> Some (ch "*") -> head l <> Some (ch "+") -> head l <> Some (ch "?") ->
  braced_at l = None -> ~ quantified l.
Proof.
  intros H1 H2 H3 H4 (low & high & r & H). destruct (decide (head l = Some (ch "{"))) as [Hb|Hb].
  - by eapply braced_at_complete in Hb.
  - destruct H; done.
Qed.

Lemma int_of_digits_nonneg ds : Forall (fun c => is_digit c = true) ds -> 0 <= int_of_digits ds.
Proof.
  unfold int_of_digits. enough (forall acc, 0 <= acc -> Forall (fun c => is_digit c = true) ds -> 0 <= fold_left digit_step ds acc) as H by (by apply H).
  induction ds as [|d ds IH]; intros acc Ha Hf; [done|]. cbn [fold_left]. apply IH; [|by apply Forall_inv_tail in Hf].
  apply Forall_inv in Hf. unfold digit_step. unfold_chars. lia.
Qed.

Lemma prefix_bounds l low high r : QuantifierPrefix l low high r -> 0 <= low.
Proof. destruct 1 as [| | |ds r H|ds r H|ds ds2 r H _]; try lia; apply int_of_digits_nonneg, H. Qed.

Lemma braces_repeat low upper : RepeatText (braces_text low upper) low (match upper with None => Some low | Some high => high end).
Proof. destruct upper as [[h|]|]; constructor. Qed.

Definition head_read (st : Parser) (q : option (Z * option Z * text)) (st' : Parser) : Prop :=
  match q with
  | None => st' = st /\ ~ quantified (here st)
  | Some (low, high, t) =>
      QuantifierPrefix (here st) low high (here st') /\ RepeatText t low high /\ forall h, high = Some h -> low <= h
  end.

Lemma quantifier_head_ok R st : inside st -> ok R st (quantifier_head units st) (head_read st).
Proof.
  intros Hst. unfold quantifier_head. rewrite bind_peek. set (o := here st !! 0%nat).
  assert (forall s low high t, is_char s o = true -> (forall r, QuantifierPrefix (ch s :: r) low high r) -> RepeatText t low high ->
    (forall h, high = Some h -> low <= h) ->
    ok R st (pbind (advance 1) (fun _ => pret (Some (low, high, t))) st) (head_read st)) as Hone.
  { intros s low high t Ho Hq Ht Hb. subst o. unfold is_char in Ho. apply bool_decide_eq_true in Ho.
    destruct (here st) as [|c l] eqn:Eh; [done|]. injection Ho as ->. destruct (here_cons _ _ _ Hst Eh) as [H1 H2].
    rewrite bind_advance. apply (ok_from _ _ (moved st 1)); [done|]. apply ok_ret; [by eapply after_inside|].
    unfold head_read. rewrite H2, Eh. by split. }
  destruct (is_char "*" o) eqn:E1; [apply (Hone "*"%string); [done|constructor|constructor|done]|].
  destruct (is_char "+" o) eqn:E2; [apply (Hone "+"%string); [done|constructor|constructor|done]|].
  destruct (is_char "?" o) eqn:E3; [apply (Hone "?"%string); [done|constructor|constructor|intros h [= <-]; lia]|].
  rewrite bind_rest. destruct (braced_at (here st)) as [[[ds upper] n]|] eqn:Eb.
  - apply braced_at_sound in Eb as (read & r & Hl & <- & Hq). destruct (here_app _ _ _ Hst Hl) as [H1 H2].
    rewrite bind_advance. fold (upper_bound ds upper).
    destruct (_ <? _); [done|]. destruct (match upper_bound ds upper with Some h => _ | None => false end) eqn:Eo; [done|].
    apply (ok_from _ _ (moved st (length read))); [done|]. apply ok_ret; [by eapply after_inside|]. split_and!.
    + by rewrite H2.
    + pose proof (braces_repeat (int_of_digits ds) (match upper with None => None | Some _ => Some (upper_bound ds upper) end)) as H.
      by destruct upper.
    + intros h Eh. rewrite Eh in Eo. lia.
  - apply ok_ret; [done|]. split; [done|]. unfold is_char in *. apply bool_decide_eq_false in E1, E2, E3.
    apply not_quantified; [..|done]; rewrite head_lookup; done.
Qed.

Definition quantifier_read (st : Parser) (q : option (Z * option Z * text * bool)) (st' : Parser) : Prop :=
  match q with
  | None => st' = st /\ ~ quantified (here st)
  | Some (low, high, t, greedy) =>
      Quantifier (here st) low high greedy (here st') /\ SuffixText t low high greedy /\
      0 <= low /\ forall h, high = Some h -> low <= h
  end.

Lemma quantifier_ok R st : inside st -> ok R st (quantifier units st) (quantifier_read st).
Proof.
  intros Hst. unfold quantifier. eapply ok_bind; [by apply quantifier_head_ok|].
  intros [[[low high] t]|] st1 H1; unfold head_read.
  - intros (Hq & Ht & Hb). pose proof (prefix_bounds _ _ _ _ Hq). pose proof (after_inside _ _ H1) as Hi1. rewrite bind_peek.
    destruct (is_char "?" (here st1 !! 0%nat)) eqn:E; unfold is_char in E.
    + apply bool_decide_eq_true in E. destruct (here st1) as [|c l] eqn:Eh; [done|]. injection E as ->.
      destruct (here_cons _ _ _ Hi1 Eh) as [H3 H4]. rewrite bind_advance. apply (ok_from _ _ (moved st1 1)); [done|].
      apply ok_ret; [by eapply after_inside|]. unfold quantifier_read. rewrite H4. split_and!; [by apply Q_lazy|by exists t|done|done].
    + apply bool_decide_eq_false in E. apply ok_ret; [done|]. split_and!; [|exists t; by rewrite app_nil_r|done|done].
      apply Q_greedy; [done|by rewrite head_lookup].
  - intros [-> Hn]. apply ok_ret; [by eapply after_inside|]. done.
Qed.

(** ** Escapes *)
Lemma int_of_hex_bound ds : forallb is_hex ds = true -> 0 <= int_of_hex ds < 16 ^ Z.of_nat (length ds).
Proof.
  unfold int_of_hex. enough (forall acc, 0 <= acc -> forallb is_hex ds = true ->
    0 <= fold_left (fun a c => a * 16 + hex_digit_value c) ds acc < (acc + 1) * 16 ^ Z.of_nat (length ds)) as H.
  { intros Hf. specialize (H 0 ltac:(lia) Hf). lia. }
  induction ds as [|d ds IH]; intros acc Ha Hf; cbn [fold_left length]; [change (16 ^ Z.of_nat 0) with 1; lia|].
  cbn [forallb] in Hf. apply andb_prop in Hf as [Hd Hf].
  assert (0 <= hex_digit_value d < 16) as Hv.
  { unfold hex_digit_value, is_hex in *. destruct (is_digit d) eqn:E; [unfold_chars; lia|]. cbn [orb] in Hd.
    destruct (d <=? 70) eqn:E2; lia. }
  specialize (IH (acc * 16 + hex_digit_value d) ltac:(lia) Hf). rewrite Nat2Z.inj_succ, Z.pow_succ_r by lia. nia.
Qed.

Lemma hex_escape_ok R st char width : inside st ->
  ok R st (hex_escape units char width st) (fun v st' => exists ds,
    length ds = width /\ forallb is_hex ds = true /\ here st = ds ++ here st' /\ v = int_of_hex ds).
Proof.
  intros Hst. unfold hex_escape. rewrite bind_rest. destruct (bool_decide _ && _) eqn:E.
  - apply andb_prop in E as [E1 E2]. apply bool_decide_eq_true in E1. set (ds := take width (here st)) in *.
    assert (here st = ds ++ drop width (here st)) as Hl by (symmetry; apply take_drop).
    destruct (here_app _ _ _ Hst Hl) as [H1 H2]. rewrite E1 in H1, H2. rewrite bind_advance.
    apply (ok_from _ _ (moved st width)); [done|]. apply ok_ret; [by eapply after_inside|]. exists ds. by rewrite H2.
  - rewrite bind_peek. destruct ((char =? ch "u") && _); exact I.
Qed.

Definition escape_read (st : Parser) (v : Z) (st' : Parser) : Prop :=
  CharacterEscape (here st) v (here st') /\ unit_value v.

Lemma control_escape e v : dget [e] _CONTROL_ESCAPES = Some v -> ControlEscape e v /\ unit_value v.
Proof.
  intros H. apply dget_elem in H. unfold _CONTROL_ESCAPES in H. rewrite !elem_of_cons, elem_of_nil in H.
  unfold unit_value. destruct H as [H|[H|[H|[H|[H|[]]]]]]; injection H as -> ->;
    (split; [first [exact CE_f|exact CE_n|exact CE_r|exact CE_t|exact CE_v]|lia]).
Qed.

Lemma character_escape_ok R st c l : inside st -> here st = c :: l ->
  ok R st (character_escape units st) (escape_read st).
Proof.
  intros Hst Hl. destruct (here_cons _ _ _ Hst Hl) as [H1 H2]. pose proof (after_inside _ _ H1) as Hi.
  unfold character_escape. rewrite (bind_take _ _ _ _ Hl). apply (ok_from _ _ (moved st 1)); [done|].
  unfold escape_read. rewrite Hl.
  destruct (dget [c] _CONTROL_ESCAPES) as [v|] eqn:Ec.
  { apply control_escape in Ec as [Hc Hv]. apply ok_ret; [done|]. rewrite H2. split; [by apply CE_control|done]. }
  rewrite bind_peek, H2.
  destruct (c =? ch "c") eqn:E1.
  { apply Z.eqb_eq in E1 as ->. destruct l as [|d l]; [done|]. cbn [lookup list_lookup].
    destruct (is_letter d) eqn:Ed; [|done]. destruct (here_cons _ _ _ Hi H2) as [H3 H4]. rewrite bind_advance.
    apply (ok_from _ _ (moved (moved st 1) 1)); [done|]. apply ok_ret; [by eapply after_inside|]. rewrite H4.
    split; [by apply CE_letter|]. unfold unit_value. pose proof (Z.mod_pos_bound d 32). lia. }
  destruct ((c =? ch "0") && _) eqn:E2.
  { apply andb_prop in E2 as [E2 E3]. apply Z.eqb_eq in E2 as ->. apply ok_ret; [done|]. rewrite H2.
    split; [|unfold unit_value; lia]. apply CE_zero. intros d r' ->. by apply negb_true_iff in E3. }
  destruct (is_digit c) eqn:E3; [done|].
  assert (forall width, (width <= 4)%nat ->
    (forall ds r, length ds = width -> forallb is_hex ds = true -> CharacterEscape (c :: ds ++ r) (int_of_hex ds) r) ->
    ok R (moved st 1) (hex_escape units c width (moved st 1)) (fun v st' => CharacterEscape (c :: l) v (here st') /\ unit_value v)) as Hhex.
  { intros width Hw Hce. eapply ok_weaken; [by apply hex_escape_ok|by apply after_refl|done|].
    intros v st' _ (ds & Hlen & Hds & Hh & ->). rewrite H2 in Hh. rewrite Hh. split; [by apply Hce|].
    pose proof (int_of_hex_bound ds Hds). assert (16 ^ Z.of_nat (length ds) <= 16 ^ 4) by (apply Z.pow_le_mono_r; lia).
    unfold unit_value. lia. }
  destruct (c =? ch "x") eqn:E4; [apply Z.eqb_eq in E4 as ->; apply Hhex; [lia|apply CE_hex]|].
  destruct (c =? ch "u") eqn:E5; [apply Z.eqb_eq in E5 as ->; apply Hhex; [lia|apply CE_unicode]|].
  destruct (c =? ch "k"); [done|]. destruct ((c =? ch "p") || _); [done|].
  destruct (is_alnum c) eqn:E6; [done|]. apply ok_ret; [done|]. rewrite H2. split; [by apply CE_identity|by eapply here_unit].
Qed.

(** ** Classes *)
Lemma class_escape_None e : class_escape e = None -> e ∉ escape_letters.
Proof.
  intros H Hin. unfold escape_letters in Hin. rewrite !elem_of_cons, elem_of_nil in Hin.
  destruct Hin as [->|[->|[->|[->|[->|[->|[]]]]]]]; vm_compute in H; discriminate.
Qed.

Definition atom_value (a : Z + Z) : Prop := match a with inl c => unit_value c | inr e => is_Some (class_escape e) end.

Lemma class_atom_ok R st c l : inside st -> here st = c :: l ->
  ok R st (class_atom units st) (fun a st' => (at_ st < at_ st')%nat /\ ClassAtom (here st) a (here st') /\ atom_value a).
Proof.
  intros Hst Hl. destruct (here_cons _ _ _ Hst Hl) as [H1 H2]. pose proof (after_inside _ _ H1) as Hi.
  unfold class_atom. rewrite (bind_take _ _ _ _ Hl), Hl. apply ok_strict; [done|].
  destruct (c =? ch "\") eqn:E1; cbn [negb].
  2:{ apply Z.eqb_neq in E1. apply ok_ret; [done|]. rewrite H2. split; [by apply CA_plain|by eapply here_unit]. }
  apply Z.eqb_eq in E1 as ->. rewrite bind_peek, H2. destruct l as [|e l]; [done|]. cbn [lookup list_lookup].
  destruct (here_cons _ _ _ Hi H2) as [H3 H4]. pose proof (after_inside _ _ H3) as Hi2.
  destruct (e =? ch "b") eqn:E2.
  { apply Z.eqb_eq in E2 as ->. rewrite bind_advance. apply (ok_from _ _ (moved (moved st 1) 1)); [done|].
    apply ok_ret; [done|]. rewrite H4. split; [apply CA_backspace|]. unfold atom_value, unit_value. lia. }
  destruct (e =? ch "-") eqn:E3.
  { apply Z.eqb_eq in E3 as ->. rewrite bind_advance. apply (ok_from _ _ (moved (moved st 1) 1)); [done|].
    apply ok_ret; [done|]. rewrite H4. split; [apply CA_dash|]. unfold atom_value, unit_value. change (ch "-") with 45. lia. }
  destruct (class_escape e) as [t|] eqn:E4; cbn [is_none].
  - rewrite bind_advance. apply (ok_from _ _ (moved (moved st 1) 1)); [done|]. apply ok_ret; [done|]. rewrite H4.
    split; [apply CA_class, class_escape_letter; by exists t|by exists t].
  - eapply ok_bind; [by eapply character_escape_ok|]. intros v st' Ha [Hv1 Hv2]. apply ok_ret; [by eapply after_inside|].
    rewrite H2 in Hv1. split; [|done]. apply CA_char; [by apply Z.eqb_neq|by apply class_escape_None|done].
Qed.

Definition noted (st : Parser) (c : Z) : Parser := {| at_ := at_ st; non_ascii := non_ascii st || (0x7F <? c) |}.

Lemma after_noted st c : inside st -> after st (noted st c).
Proof. intros H. split; [done|]. split; [done|]. cbn. by intros ->. Qed.

Lemma bind_endpoint {B} c (k : text -> Pm B) st : pbind (endpoint c) k st = k (unit_text c) (noted st c).
Proof. done. Qed.

Lemma noted_ascii st c : non_ascii (noted st c) = false -> (c <? 128) = true.
Proof. cbn. intros [_ H]%orb_false_iff. lia. Qed.

Lemma after_ascii st st' : after st st' -> non_ascii st' = false -> non_ascii st = false.
Proof. intros (_ & _ & H) Hf. destruct (non_ascii st); [|done]. by rewrite H in Hf. Qed.

(** A member of a class, read and written. *)
Definition member_read (st : Parser) (tm : text * member) (st' : Parser) : Prop :=
  let '(t, m) := tm in
  (at_ st < at_ st')%nat /\
  (forall ms r, ClassRanges (here st') ms r -> ClassRanges (here st) (m :: ms) r) /\
  ItemsText (member_items m) t /\ member_items m <> [] /\ member_admissible m /\
  (non_ascii st' = false -> member_ascii m = true).

Lemma class_member_ok R st c l : inside st -> here st = c :: l -> c <> ch "]" ->
  ok R st (class_member units st) (member_read st).
Proof.
  intros Hst Hl Hc. unfold class_member. eapply ok_bind; [by eapply class_atom_ok|].
  intros a st1 H1 (Hlt & Ha & Hva). pose proof (after_inside _ _ H1) as Hi1. rewrite !bind_peek.
  assert (forall st2, after st1 st2 -> at_ st1 = at_ st2 -> ~ starts_range (here st2) ->
    (forall c, a = inl c -> non_ascii st2 = false -> (c <? 128) = true) ->
    member_read st (match a with inl c => unit_text c | inr e => or_else (class_escape e) [] end, one_member a) st2) as Hone.
  { intros st2 (_ & _ & _) Heq Hns Hasc. assert (here st2 = here st1) as Hh by (unfold here; by rewrite Heq). split_and!.
    - lia.
    - intros ms r Hms. rewrite Hl. rewrite Hl in Ha. eapply CR_one; [done|exact Ha|by rewrite <- Hh|by rewrite <- Hh].
    - destruct a as [v|e]; cbn [one_member member_items].
      + by apply items_one, IT_one, unit_text_spec.
      + destruct Hva as [t Ht]. rewrite Ht. by apply escape_text.
    - destruct a as [v|e]; [done|]. cbn [one_member member_items]. destruct Hva as [t Ht]. by eapply escape_text.
    - by destruct a.
    - destruct a as [v|e]; [by apply Hasc|done]. }
  destruct (is_char "-" (here st1 !! 0%nat) && _ && _) eqn:Er.
  - apply andb_prop in Er as [[E1 E2]%andb_prop E3]. destruct (here st1) as [|c1 l1] eqn:Eh1; [done|].
    cbn [lookup list_lookup] in E1, E2, E3. rewrite is_char_Some in E1. apply Z.eqb_eq in E1 as ->.
    destruct l1 as [|d r]; [done|]. cbn [lookup list_lookup] in E3. rewrite is_char_Some in E3.
    apply negb_true_iff, Z.eqb_neq in E3. destruct (here_cons _ _ _ Hi1 Eh1) as [H2 Hh2]. pose proof (after_inside _ _ H2) as Hi2.
    rewrite bind_advance. apply (ok_from _ _ (moved st1 1)); [done|].
    eapply ok_bind; [by eapply class_atom_ok|]. intros b st2 H3 (Hlt2 & Hb & Hvb). pose proof (after_inside _ _ H3) as Hi3.
    destruct a as [a|]; [|by destruct b]. destruct b as [b|]; [|done]. destruct (b <? a) eqn:Eab; [done|].
    rewrite !bind_endpoint. pose proof (after_noted st2 a Hi3) as Hn1. pose proof (after_noted (noted st2 a) b Hi3) as Hn2.
    apply (ok_from _ _ (noted (noted st2 a) b)); [by eapply after_trans|]. apply ok_ret; [done|]. split_and!.
    + cbn in Hlt2 |- *. lia.
    + intros ms r2 Hms. rewrite Hl. rewrite Hl in Ha. rewrite Hh2 in Hb. eapply CR_range; [done|exact Ha|done|exact Hb|lia|exact Hms].
    + apply items_one, IT_span; by apply unit_text_spec.
    + done.
    + cbn in Hva, Hvb. cbn. split_and!; try done; lia.
    + intros Hf. cbn [member_ascii]. apply andb_true_iff. split; [|by eapply noted_ascii].
      apply (noted_ascii st2). by eapply after_ascii.
  - assert (~ starts_range (here st1)) as Hns.
    { intros (d & r & Hr & Hd). rewrite Hr in Er. cbn [lookup list_lookup] in Er. rewrite !is_char_Some, Z.eqb_refl in Er.
      cbn in Er. apply negb_false_iff, Z.eqb_eq in Er. done. }
    destruct a as [a|e].
    + rewrite bind_endpoint. pose proof (after_noted st1 a Hi1) as Hn1. apply (ok_from _ _ (noted st1 a)); [done|].
      apply ok_ret; [done|]. apply (Hone (noted st1 a)); [done|done|done|]. intros c0 [= ->] Hf. by eapply noted_ascii.
    + apply ok_ret; [done|]. by apply (Hone st1); [apply after_refl|..].
Qed.

Lemma here_length st : inside st -> (length (here st) = length units - at_ st)%nat.
Proof. intros _. unfold here. by rewrite length_drop. Qed.

Lemma here_shorter st st' : inside st' -> (at_ st < at_ st')%nat -> (length (here st') < length (here st))%nat.
Proof. unfold inside, here. rewrite !length_drop. lia. Qed.

Definition members_read (st : Parser) (tms : list (text * member)) (st' : Parser) : Prop :=
  let ms := snd <$> tms in
  ClassRanges (here st) ms (here st') /\ ItemsText (flat_map member_items ms) (concat (fst <$> tms)) /\
  (ms <> [] -> flat_map member_items ms <> []) /\ Forall member_admissible ms /\
  (non_ascii st' = false -> forallb member_ascii ms = true).

Lemma class_members_ok R fuel : forall st, inside st -> (length (here st) < fuel)%nat ->
  ok R st (class_members units fuel st) (members_read st).
Proof.
  induction fuel as [|fuel IH]; intros st Hst Hf; [lia|]. cbn [class_members]. rewrite bind_peek.
  destruct (here st) as [|c l] eqn:Hl; [done|]. cbn [lookup list_lookup]. destruct (c =? ch "]") eqn:Ec.
  - apply Z.eqb_eq in Ec as ->. destruct (here_cons _ _ _ Hst Hl) as [H1 H2]. rewrite bind_advance.
    apply (ok_from _ _ (moved st 1)); [done|]. apply ok_ret; [by eapply after_inside|]. unfold members_read. rewrite Hl, H2.
    split; [apply CR_end|]. split; [apply items_nil|]. split; [done|]. split; [constructor|done].
  - apply Z.eqb_neq in Ec. eapply ok_bind; [by eapply class_member_ok|].
    intros [t m] st1 H1 (Hlt & Hcr & Hit & Hne & Had & Hasc). pose proof (after_inside _ _ H1) as Hi1.
    eapply ok_bind; [apply IH; [done|]|].
    { pose proof (here_shorter _ _ Hi1 Hlt) as Hs. rewrite Hl in Hs. cbn [length] in *. lia. }
    intros tms st2 H2 (Hcr2 & Hit2 & Hne2 & Had2 & Hasc2). apply ok_ret; [by eapply after_inside|]. unfold members_read.
    cbn [fmap list_fmap fst snd concat flat_map]. split_and!.
    + by apply Hcr.
    + by apply items_app.
    + intros _. by destruct (member_items m).
    + by constructor.
    + intros Hf2. cbn [forallb]. rewrite Hasc2 by done. rewrite Hasc; [done|by eapply after_ascii].
Qed.

(** ** Pieces *)
(** What a piece says of the tree it was read as. *)
Record piece_ok (written : py -> text -> Prop) (p : Piece) (st : Parser) : Prop := {
  po_text : written (py_of (tree p)) (p_text p);
  po_min : p_min p = rx_min (tree p);
  po_max : p_max p = rx_max (tree p);
  po_admissible : admissible (tree p);
  po_ascii : non_ascii st = false -> rx_ascii (tree p) = true }.

(** A piece, read by a rule of the grammar. *)
Definition piece_read (rule : list Z -> rx -> list Z -> Prop) (written : py -> text -> Prop)
    (st : Parser) (p : Piece) (st' : Parser) : Prop :=
  rule (here st) (tree p) (here st') /\ piece_ok written p st'.

Lemma class_ok R st0 st l : inside st -> here st = l -> here st0 = ch "[" :: l ->
  ok R st (class units st) (piece_read Atom PyAtom st0).
Proof.
  intros Hst Hl H0. unfold class. rewrite bind_peek, Hl. set (negate := is_char "^" (l !! 0%nat)). rewrite bind_advance.
  assert (exists l', l = (if negate then [ch "^"] else []) ++ l' /\ (negate = false -> head l' <> Some (ch "^"))) as (l' & El & Hn).
  { subst negate. unfold is_char. case_bool_decide as E.
    - destruct l as [|c l']; [done|]. injection E as ->. by exists l'.
    - exists l. split; [done|]. by rewrite head_lookup. }
  assert (here st = (if negate then [ch "^"] else []) ++ l') as Hh by congruence.
  destruct (here_app _ _ _ Hst Hh) as [H1 H2].
  assert (length (if negate then [ch "^"] else []) = (if negate then 1 else 0)%nat) as Hlen by by destruct negate.
  rewrite Hlen in H1, H2. set (st1 := moved st _) in *. apply (ok_from _ _ st1); [done|].
  pose proof (after_inside _ _ H1) as Hi1.
  eapply ok_bind; [apply class_members_ok; [done|]|].
  { rewrite here_length by done. lia. }
  intros tms st2 H3 (Hcr & Hit & Hne & Had & Hasc). apply ok_ret; [by eapply after_inside|]. rewrite H2 in Hcr.
  split.
  - cbn [unit_piece tree]. rewrite H0, El. destruct negate; [by apply At_negated|apply At_class; [by apply Hn|done]].
  - constructor; cbn [unit_piece tree p_text p_min p_max rx_min rx_max admissible rx_ascii]; try done.
    unfold class_text. clearbody negate. destruct tms as [|tm tms]; cbn [fmap list_fmap py_of].
    + destruct negate; [apply (PA_set false [ISpan 0 0xFFFF] (u "\u0000-\uffff"))|apply (PA_set true [ISpan 0 0xFFFF] (u "\u0000-\uffff"))];
        try done; apply items_one, (IT_span 0 0xFFFF (u "\u0000") (u "\uffff")); right; by repeat eexists.
    + apply PA_set; [by apply Hne|exact Hit].
Qed.

Lemma literal_ok R st0 st c : inside st -> unit_value c -> Atom (here st0) (RChar c) (here st) ->
  ok R st (literal c st) (piece_read Atom PyAtom st0).
Proof.
  intros Hst Hc Ha. pose proof (after_noted st c Hst) as H1. apply (ok_from _ _ (noted st c)); [done|].
  change (literal c st) with (pret (unit_piece (unit_text c) (RChar c)) (noted st c)). apply ok_ret; [by eapply after_inside|].
  split; [done|]. constructor; cbn [unit_piece tree p_text p_min p_max rx_min rx_max admissible rx_ascii py_of]; try done.
  - by apply PA_char, unit_text_spec.
  - apply noted_ascii.
Qed.

Lemma unit_piece_ok t r st : PyAtom (py_of r) t -> rx_min r = 1 -> rx_max r = Some 1 -> admissible r -> rx_ascii r = true ->
  piece_ok PyAtom (unit_piece t r) st.
Proof. by constructor. Qed.

Lemma assertion_piece_ok t r st : PyAtom (py_of r) t -> rx_min r = 0 -> rx_max r = Some 0 -> admissible r -> rx_ascii r = true ->
  piece_ok PyAtom (assertion_piece t r) st.
Proof. by constructor. Qed.

Lemma atom_escape_ok R st0 st l : inside st -> here st = l -> here st0 = ch "\" :: l ->
  ok R st (atom_escape units st) (piece_read Atom PyAtom st0).
Proof.
  intros Hst Hl H0. unfold atom_escape. rewrite bind_peek, Hl. destruct l as [|c l]; [done|]. cbn [lookup list_lookup].
  destruct (here_cons _ _ _ Hst Hl) as [H1 H2]. pose proof (after_inside _ _ H1) as Hi1.
  destruct (c =? ch "b") eqn:E1.
  { apply Z.eqb_eq in E1 as ->. rewrite bind_advance. apply (ok_from _ _ (moved st 1)); [done|]. apply ok_ret; [done|].
    split; [rewrite H0, H2; apply At_boundary|]. apply assertion_piece_ok; try done. apply (boundary_text false). }
  destruct (c =? ch "B") eqn:E2.
  { apply Z.eqb_eq in E2 as ->. rewrite bind_advance. apply (ok_from _ _ (moved st 1)); [done|]. apply ok_ret; [done|].
    split; [rewrite H0, H2; apply At_not_boundary|]. apply assertion_piece_ok; try done. apply (boundary_text true). }
  apply Z.eqb_neq in E1, E2. destruct (class_escape c) as [t|] eqn:E3.
  - rewrite bind_advance. apply (ok_from _ _ (moved st 1)); [done|]. apply ok_ret; [done|].
    split; [rewrite H0, H2; apply At_class_escape, class_escape_letter; by exists t|].
    destruct (escape_text _ _ E3) as [Ht Hne]. apply unit_piece_ok; try done; [|by exists t]. by apply (PA_set false).
  - eapply ok_bind; [by eapply character_escape_ok|]. intros v st1 H3 [Hv1 Hv2]. rewrite Hl in Hv1.
    eapply literal_ok; [by eapply after_inside|done|]. rewrite H0. apply At_escape; [done|done|by apply class_escape_None|done].
Qed.

(** ** Groups, atoms and terms *)
Lemma here_after st st' : after st st' -> (length (here st') <= length (here st))%nat.
Proof. intros (H & _). unfold here. rewrite !length_drop. lia. Qed.

Section Nested.
Context (nested : Pm Piece) (depth : nat).
Context (Hnested : forall st, inside st ->
  ok (depth <= length (here st))%nat st (nested st) (piece_read Disjunction PyDisjunction st)).

Definition group_read (st : Parser) (p : Piece) (st' : Parser) : Prop :=
  Disjunction (here st) (tree p) (ch ")" :: here st') /\ piece_ok PyDisjunction p st'.

Lemma piece_ok_after written p st st' : after st st' -> piece_ok written p st -> piece_ok written p st'.
Proof. intros H [H1 H2 H3 H4 H5]. constructor; try done. intros Hf. apply H5. by eapply after_ascii. Qed.

Lemma closed_ok st : inside st -> ok (depth <= length (here st))%nat st (closed units nested st) (group_read st).
Proof.
  intros Hst. unfold closed. eapply ok_bind; [by apply Hnested|]. intros p st1 H1 [Hd Hp]. pose proof (after_inside _ _ H1) as Hi1.
  unfold close_group. rewrite bind_bind, bind_peek. destruct (here st1) as [|c l] eqn:Hl; [done|]. cbn [lookup list_lookup].
  rewrite is_char_Some. destruct (c =? ch ")") eqn:Ec; [|done]. apply Z.eqb_eq in Ec as ->.
  destruct (here_cons _ _ _ Hi1 Hl) as [H2 Hh2]. rewrite bind_advance. apply (ok_from _ _ (moved st1 1)); [done|].
  apply ok_ret; [by eapply after_inside|]. split; [by rewrite Hh2|]. by eapply piece_ok_after.
Qed.

Lemma group_piece_ok p st : piece_ok PyDisjunction p st -> piece_ok PyAtom (group_piece p) st.
Proof. intros [H1 H2 H3 H4 H5]. constructor; try done. by apply PA_group. Qed.

Lemma look_piece_ok (behind neg : bool) p st : piece_ok PyDisjunction p st -> (behind = true -> p_max p = Some (p_min p)) ->
  piece_ok PyAtom (look_piece ((if behind then u "<" else []) ++ (if neg then u "!" else u "=")) behind neg p) st.
Proof.
  intros [H1 H2 H3 H4 H5] Hb. constructor; try done.
  - cbn [look_piece tree p_text py_of]. pose proof (PA_look behind neg _ _ H1) as H. unfold look_mark in H.
    rewrite <- !app_assoc in H. rewrite <- !app_assoc. exact H.
  - cbn [look_piece tree admissible]. split; [done|]. intros E. by rewrite <- H3, <- H2, Hb.
Qed.

Lemma group_ok st0 st l : inside st -> here st = l -> here st0 = ch "(" :: l ->
  ok (depth <= length (here st))%nat st (group units nested st) (piece_read Atom PyAtom st0).
Proof.
  intros Hst Hl H0. unfold group. rewrite bind_peek, Hl. set (R := (depth <= length l)%nat).
  assert (forall st1, after st st1 -> ((depth <= length (here st1))%nat -> R)) as HR.
  { intros st1 Ha Hd. apply here_after in Ha. subst R. rewrite Hl in Ha. lia. }
  destruct (is_char "?" (l !! 0%nat)) eqn:Eq; cbn [negb].
  2:{ eapply ok_bind; [eapply ok_weaken; [by apply closed_ok|by apply after_refl|by apply HR, after_refl|intros p st1 _ H; exact H]|].
      intros p st1 H1 [Hd Hp]. apply ok_ret; [by eapply after_inside|]. split; [|by apply group_piece_ok].
      rewrite H0. cbn [group_piece tree]. apply At_group; [|by rewrite <- Hl]. rewrite head_lookup. unfold is_char in Eq.
      by apply bool_decide_eq_false in Eq. }
  destruct l as [|q l]; [done|]. cbn [lookup list_lookup] in Eq. rewrite is_char_Some in Eq. apply Z.eqb_eq in Eq as ->.
  destruct (here_cons _ _ _ Hst Hl) as [H1 Hh1]. pose proof (after_inside _ _ H1) as Hi1.
  rewrite bind_advance, !bind_peek. rewrite Hh1. set (st1 := moved st 1) in *.
  assert (forall n pre l' st2, st2 = moved st1 n -> l = pre ++ l' -> length pre = n ->
    after st st2 /\ inside st2 /\ here st2 = l') as Hmove.
  { intros n pre l' st2 -> -> <-. destruct (here_app _ _ _ Hi1 Hh1) as [Ha Hb]. split; [by eapply after_trans|].
    split; [by eapply after_inside|done]. }
  assert (forall st2 l' (k : Piece -> Pm Piece), after st st2 -> inside st2 -> here st2 = l' ->
    (forall p st3, after st2 st3 -> Disjunction l' (tree p) (ch ")" :: here st3) -> piece_ok PyDisjunction p st3 ->
       ok R st3 (k p st3) (piece_read Atom PyAtom st0)) ->
    ok R st (pbind (closed units nested) k st2) (piece_read Atom PyAtom st0)) as Hbody.
  { intros st2 l' k Ha Hi2 Hh2 Hk. eapply ok_from; [exact Ha|]. eapply ok_bind.
    - eapply ok_weaken; [by apply closed_ok|by apply after_refl|by apply HR|intros p st3 _ H; exact H].
    - intros p st3 H3 [Hd Hp]. rewrite Hh2 in Hd. by apply Hk. }
  destruct l as [|kind l]; [done|]. cbn [lookup list_lookup]. rewrite !is_char_Some.
  destruct (kind =? ch ":") eqn:E1.
  { apply Z.eqb_eq in E1 as ->. rewrite bind_advance. destruct (Hmove 1%nat [ch ":"] l _ eq_refl eq_refl eq_refl) as (Ha & Hi & Hh).
    eapply Hbody; [exact Ha|exact Hi|exact Hh|]. intros p st3 H3 Hd Hp. apply ok_ret; [by eapply after_inside|].
    split; [rewrite H0; by apply At_plain_group|by apply group_piece_ok]. }
  destruct ((kind =? ch "=") || (kind =? ch "!")) eqn:E2.
  { assert (exists neg, kind = mark_unit neg /\ (kind =? ch "!") = neg) as (neg & Ek & En).
    { apply orb_prop in E2 as [E2|E2]; apply Z.eqb_eq in E2 as ->; [by exists false|by exists true]. }
    rewrite En. rewrite bind_advance. destruct (Hmove 1%nat [kind] l _ eq_refl eq_refl eq_refl) as (Ha & Hi & Hh).
    eapply Hbody; [exact Ha|exact Hi|exact Hh|]. intros p st3 H3 Hd Hp. apply ok_ret; [by eapply after_inside|].
    split; [rewrite H0, Ek; by apply At_look|]. by apply (look_piece_ok false neg). }
  destruct ((kind =? ch "<") && _) eqn:E3.
  { apply andb_prop in E3 as [E3 E4]. apply Z.eqb_eq in E3 as ->. destruct l as [|sign l]; [done|].
    cbn [lookup list_lookup] in E4 |- *. rewrite !is_char_Some in *.
    assert (exists neg, sign = mark_unit neg /\ (sign =? ch "!") = neg) as (neg & Ek & En).
    { apply orb_prop in E4 as [E4|E4]; apply Z.eqb_eq in E4 as ->; [by exists false|by exists true]. }
    rewrite En. rewrite bind_advance. destruct (Hmove 2%nat [ch "<"; sign] l _ eq_refl eq_refl eq_refl) as (Ha & Hi & Hh).
    eapply Hbody; [exact Ha|exact Hi|exact Hh|]. intros p st3 H3 Hd Hp.
    destruct (p_lookaround p); [done|]. case_bool_decide as Ew; cbn [negb]; [|done]. apply ok_ret; [by eapply after_inside|].
    split; [rewrite H0, Ek; by apply At_look_behind|]. pose proof (look_piece_ok true neg p st3 Hp (fun _ => Ew)) as H.
    by destruct neg. }
  destruct (kind =? ch "<"); done.
Qed.

Lemma atom_ok st c l : inside st -> here st = c :: l ->
  ok (S depth <= length (here st))%nat st (atom units nested st)
    (fun p st' => (at_ st < at_ st')%nat /\ piece_read Atom PyAtom st p st').
Proof.
  intros Hst Hl. destruct (here_cons _ _ _ Hst Hl) as [H1 H2]. pose proof (after_inside _ _ H1) as Hi.
  unfold atom. rewrite bind_rest, (bind_take _ _ _ _ Hl). apply ok_strict; [done|].
  assert (forall t r, PyAtom (py_of r) t -> rx_min r = 0 -> rx_max r = Some 0 -> admissible r -> rx_ascii r = true -> Atom (c :: l) r l ->
    ok (S depth <= length (here st))%nat (moved st 1) (pret (assertion_piece t r) (moved st 1)) (piece_read Atom PyAtom st)) as Hassert.
  { intros. apply ok_ret; [done|]. split; [by rewrite Hl, H2|by apply assertion_piece_ok]. }
  destruct (c =? ch "^") eqn:E1; [apply Z.eqb_eq in E1 as ->; apply Hassert; try done; constructor|].
  destruct (c =? ch "$") eqn:E2; [apply Z.eqb_eq in E2 as ->; apply Hassert; try done; constructor|].
  destruct (c =? ch ".") eqn:E3.
  { apply Z.eqb_eq in E3 as ->. apply ok_ret; [done|]. split; [rewrite Hl, H2; apply At_dot|]. apply unit_piece_ok; try done.
    apply (PA_set true); [done|by apply units_items, all_unit_values]. }
  destruct (c =? ch "(") eqn:E4.
  { apply Z.eqb_eq in E4 as ->. eapply ok_weaken; [by eapply group_ok|by apply after_refl| |by intros].
    rewrite H2, Hl. cbn [length]. lia. }
  destruct (c =? ch "[") eqn:E5; [apply Z.eqb_eq in E5 as ->; by eapply class_ok|].
  destruct (c =? ch "\") eqn:E6; [apply Z.eqb_eq in E6 as ->; by eapply atom_escape_ok|].
  destruct ((c =? ch "*") || (c =? ch "+") || (c =? ch "?")) eqn:E7; [done|].
  destruct (braced_at (here st)) as [q|] eqn:E8; cbn [is_none negb]; [done|].
  apply Z.eqb_neq in E1, E2, E3, E4, E5, E6. apply orb_false_iff in E7 as [[E7 E9]%orb_false_iff E10].
  apply Z.eqb_neq in E7, E9, E10.
  apply literal_ok; [done|by eapply here_unit|]. rewrite Hl, H2. apply At_literal.
  - unfold syntax_units. rewrite !elem_of_cons, elem_of_nil. tauto.
  - rewrite Hl in E8. apply not_quantified; [cbn; congruence..|done].
Qed.

Lemma term_ok st c l : inside st -> here st = c :: l ->
  ok (S depth <= length (here st))%nat st (term units nested st)
    (fun p st' => (at_ st < at_ st')%nat /\ piece_read Term PyTerm st p st').
Proof.
  intros Hst Hl. unfold term. eapply ok_bind; [by eapply atom_ok|]. intros a st1 H1 (Hlt & Ha & Hp).
  pose proof (after_inside _ _ H1) as Hi1. destruct Hp as [P1 P2 P3 P4 P5].
  eapply ok_bind; [by apply quantifier_ok|]. intros [[[[low high] suffix] greedy]|] st2 H2; unfold quantifier_read.
  - intros (Hq & Hs & Hlow & Hb). destruct (p_assertion a); [by destruct (p_lookaround a)|]. cbn [andb].
    destruct ((p_min a =? 0) && _) eqn:Ez; [done|]. apply ok_ret; [by eapply after_inside|].
    split; [destruct H2 as [H2 _]; lia|]. split; [by eapply T_quantified|].
    constructor; cbn [tree p_text p_min p_max py_of rx_min rx_max admissible rx_ascii]; [by apply PT_rep|by rewrite P2|by rewrite P3| |].
    + split_and!; try done. intros E0. rewrite P2, E0 in Ez. cbn in Ez. destruct high as [h|]; [|done].
      specialize (Hb _ eq_refl). f_equal. lia.
    + intros Hf. apply P5. by eapply after_ascii.
  - intros [-> Hn]. apply ok_ret; [done|]. split; [done|]. split; [by apply T_atom|]. constructor; try done. by apply PT_atom.
Qed.

Lemma ends_alternative_spec st :
  is_none (here st !! 0%nat) || is_char "|" (here st !! 0%nat) || is_char ")" (here st !! 0%nat) = true <-> ends_alternative (here st).
Proof.
  unfold ends_alternative, is_char. rewrite head_lookup, !orb_true_iff, !bool_decide_eq_true.
  destruct (here st !! 0%nat); cbn [is_none]; naive_solver.
Qed.

Definition sequence_read (st : Parser) (ts : list Piece) (st' : Parser) : Prop :=
  piece_read Alternative PySequence st (sequence_piece ts) st' /\ ends_alternative (here st').

Lemma maxima_rx f x r ms : maxima f x (rx_max r :: ms) = both_max f (rx_max r) (maxima f x ms).
Proof. done. Qed.

Lemma terms_ok fuel : forall st, inside st -> (length (here st) < fuel)%nat ->
  ok (S depth <= length (here st))%nat st (terms units nested fuel st) (sequence_read st).
Proof.
  induction fuel as [|fuel IH]; intros st Hst Hf; [lia|]. cbn [terms]. rewrite bind_peek.
  destruct (is_none _ || _ || _) eqn:E.
  - apply ends_alternative_spec in E. apply ok_ret; [done|]. split; [|done]. split; [by apply A_end|]. constructor; try done. constructor.
  - assert (~ ends_alternative (here st)) as Hne by (rewrite <- ends_alternative_spec, E; done).
    destruct (here st) as [|c l] eqn:Hl; [by destruct Hne; left|]. rewrite <- Hl.
    eapply ok_bind; [by eapply term_ok|]. intros p st1 H1 (Hlt & Ht & Hp). pose proof (after_inside _ _ H1) as Hi1.
    pose proof (here_shorter _ _ Hi1 Hlt) as Hs. rewrite Hl in Hs.
    eapply ok_bind; [eapply ok_weaken; [apply IH; [done|cbn [length] in *; lia]|by apply after_refl|rewrite Hl; cbn [length] in *; lia|
      intros ts st2 _ H; exact H]|].
    intros ts st2 H2 [[Hs2 Hp2] He]. pose proof (after_inside _ _ H2) as Hi2. apply ok_ret; [done|]. split; [|done].
    apply (piece_ok_after _ _ _ _ H2) in Hp. destruct Hp as [P1 P2 P3 P4 P5], Hp2 as [Q1 Q2 Q3 Q4 Q5].
    split; [rewrite Hl in Ht |- *; by eapply A_term|].
    constructor; cbn [sequence_piece tree p_text p_min p_max py_of rx_min rx_max admissible rx_ascii fold_right fmap list_fmap concat] in *.
    + by apply PS_cat.
    + rewrite sum_over_cons. congruence.
    + cbn [maxima]. rewrite P3, Q3. done.
    + done.
    + intros Hf2. by rewrite P5, Q5.
Qed.

Lemma alternative_ok st : inside st ->
  ok (S depth <= length (here st))%nat st (alternative units nested st)
    (fun p st' => piece_read Alternative PySequence st p st' /\ ends_alternative (here st')).
Proof.
  intros Hst. unfold alternative. eapply ok_bind; [apply terms_ok; [done|rewrite here_length by done; lia]|].
  intros ts st1 H1 [Hs He]. apply ok_ret; [by eapply after_inside|]. done.
Qed.

(** ** Alternatives *)
Lemma fold_min_cons x y ms : fold_right Z.min x (y :: ms) = Z.min x (fold_right Z.min y ms).
Proof. induction ms as [|m ms IH]; cbn [fold_right] in *; lia. Qed.

Lemma alternatives_min rs : forall r, rx_min (alternatives_tree r rs) = fold_right Z.min (rx_min r) (rx_min <$> rs).
Proof.
  induction rs as [|r' rs IH]; intros r; [done|]. cbn [alternatives_tree rx_min]. rewrite IH, fmap_cons, fold_min_cons. done.
Qed.

Lemma alternatives_max rs : forall r, Forall admissible (r :: rs) ->
  rx_max (alternatives_tree r rs) = maxima Z.max 0 (rx_max <$> r :: rs).
Proof.
  induction rs as [|r' rs IH]; intros r Ha.
  - cbn [alternatives_tree fmap list_fmap maxima]. destruct (rx_max r) as [m|] eqn:E; [|done].
    apply Forall_inv in Ha. pose proof (rx_max_nonneg _ _ Ha E). f_equal. lia.
  - cbn [alternatives_tree rx_max]. rewrite IH by by apply Forall_inv_tail in Ha. done.
Qed.

Lemma alternatives_admissible rs : forall r, Forall admissible (r :: rs) -> admissible (alternatives_tree r rs).
Proof.
  induction rs as [|r' rs IH]; intros r Ha; apply Forall_cons in Ha as [H1 H2]; [done|]. split; [done|by apply IH].
Qed.

Lemma alternatives_ascii rs : forall r, Forall (fun r => rx_ascii r = true) (r :: rs) -> rx_ascii (alternatives_tree r rs) = true.
Proof.
  induction rs as [|r' rs IH]; intros r Ha; apply Forall_cons in Ha as [H1 H2]; [done|].
  cbn [alternatives_tree rx_ascii]. by rewrite H1, IH.
Qed.

Lemma alternatives_text ps : forall p, Forall (fun p => PySequence (py_of (tree p)) (p_text p)) (p :: ps) ->
  PyDisjunction (py_of (alternatives_tree (tree p) (tree <$> ps))) (join (u "|") (p_text <$> p :: ps)).
Proof.
  induction ps as [|p' ps IH]; intros p Hp; apply Forall_cons in Hp as [H1 H2]; [by apply PD_one|].
  apply PD_or; [done|by apply IH].
Qed.

Definition alternatives_read (l : list Z) (a : Piece) (others : list Piece) (st' : Parser) : Prop :=
  Disjunction l (alternatives_tree (tree a) (tree <$> others)) (here st') /\
  Forall (fun p => piece_ok PySequence p st') others.

Lemma alternatives_ok fuel : forall l0 a st, inside st -> (length (here st) < fuel)%nat ->
  Alternative l0 (tree a) (here st) ->
  ok (S depth <= length (here st))%nat st (alternatives units nested fuel st) (alternatives_read l0 a).
Proof.
  induction fuel as [|fuel IH]; intros l0 a st Hst Hf Ha; [lia|]. cbn [alternatives]. rewrite bind_peek.
  destruct (here st) as [|c l] eqn:Hl.
  { apply ok_ret; [done|]. split; [|constructor]. rewrite Hl. by apply D_one. }
  cbn [lookup list_lookup]. rewrite is_char_Some. destruct (c =? ch "|") eqn:Ec.
  - apply Z.eqb_eq in Ec as ->. destruct (here_cons _ _ _ Hst Hl) as [H1 Hh1]. pose proof (after_inside _ _ H1) as Hi1.
    rewrite bind_advance. apply (ok_from _ _ (moved st 1)); [done|].
    assert (forall st1, after (moved st 1) st1 -> (S depth <= length (here st1))%nat -> (S depth <= length (ch "|" :: l))%nat) as HR.
    { intros st1 H2 Hd. apply here_after in H2. rewrite Hh1 in H2. cbn [length]. lia. }
    eapply ok_bind; [eapply ok_weaken; [by apply alternative_ok|by apply after_refl|by apply HR, after_refl|intros b st2 _ H; exact H]|].
    intros b st2 H2 [[Hb Hp] He]. pose proof (after_inside _ _ H2) as Hi2. rewrite Hh1 in Hb.
    pose proof (here_after _ _ H2) as Hlen. rewrite Hh1 in Hlen. cbn [length] in Hf.
    eapply ok_bind; [eapply ok_weaken; [apply (IH l b st2); [done|lia|done]|by apply after_refl|by apply HR|intros others st3 _ H; exact H]|].
    intros others st3 H3 [Hd Hps]. apply ok_ret; [by eapply after_inside|]. split.
    + cbn [fmap list_fmap alternatives_tree]. by eapply D_or.
    + constructor; [by eapply piece_ok_after|done].
  - apply Z.eqb_neq in Ec. apply ok_ret; [done|]. split; [|constructor]. rewrite Hl. apply D_one; [done|]. cbn. congruence.
Qed.

Lemma disjunction_of_ok st : inside st ->
  ok (S depth <= length (here st))%nat st (disjunction_of units nested st) (piece_read Disjunction PyDisjunction st).
Proof.
  intros Hst. unfold disjunction_of. eapply ok_bind; [by apply alternative_ok|]. intros a st1 H1 [[Ha Hp] He].
  pose proof (after_inside _ _ H1) as Hi1. pose proof (here_after _ _ H1) as Hlen.
  eapply ok_bind; [eapply ok_weaken; [apply (alternatives_ok _ (here st) a); [done|rewrite here_length by done; lia|done]|
    by apply after_refl|lia|intros others st2 _ H; exact H]|].
  intros others st2 H2 [Hd Hps]. apply (piece_ok_after _ _ _ _ H2) in Hp. pose proof (after_inside _ _ H2) as Hi2.
  assert (Forall (fun p => piece_ok PySequence p st2) (a :: others)) as Hall by by constructor.
  assert (Forall admissible (tree <$> a :: others)) as Hadm.
  { apply Forall_fmap. eapply Forall_impl; [exact Hall|]. by intros p []. }
  destruct others as [|b others]; apply ok_ret; try done; split; try done.
  - destruct Hp as [P1 P2 P3 P4 P5]. constructor; try done. by apply PD_one.
  - set (ps := b :: others) in *.
    assert (forall (f : Piece -> Z) (g : rx -> Z), (forall p, piece_ok PySequence p st2 -> f p = g (tree p)) -> f <$> ps = g <$> (tree <$> ps)) as Hmap.
    { intros f g Hfg. rewrite <- list_fmap_compose. apply Forall_fmap_ext_1. eapply Forall_impl; [exact Hps|done]. }
    assert (p_max <$> a :: ps = rx_max <$> (tree <$> a :: ps)) as Hmax.
    { rewrite <- list_fmap_compose. apply Forall_fmap_ext_1. eapply Forall_impl; [exact Hall|]. by intros p []. }
    constructor; cbn [alternatives_piece tree p_text p_min p_max].
    + apply alternatives_text. eapply Forall_impl; [exact Hall|]. by intros p [].
    + rewrite alternatives_min, (Hmap p_min rx_min) by by intros p []. by destruct Hp as [_ -> _ _ _].
    + by rewrite alternatives_max, Hmax.
    + by apply alternatives_admissible.
    + intros Hf. apply (alternatives_ascii (tree <$> ps)). apply (proj2 (Forall_fmap tree _ (a :: ps))).
      eapply Forall_impl; [exact Hall|]. intros p [_ _ _ _ H]. by apply H.
Qed.
End Nested.

Lemma disjunction_ok depth : forall st, inside st ->
  ok (depth <= length (here st))%nat st (disjunction units depth st) (piece_read Disjunction PyDisjunction st).
Proof.
  induction depth as [|depth IH]; intros st Hst; cbn [disjunction]; [cbn; lia|].
  apply disjunction_of_ok; [|done]. intros st' H. by apply IH.
Qed.
End Runs.

(** ** What is proved of the translator *)
(** What a parse may end in: a piece of the whole pattern, a rejection, or a stack too small. *)
Lemma parse_cases units depth : Forall unit_value units ->
  match parse units depth with
  | Ok (body, st) => Disjunction units (tree body) [] /\ piece_ok PyDisjunction body st
  | Raise (PatternRejected _) => True
  | Raise RecursionError => (depth <= length units)%nat
  | Raise _ => False
  end.
Proof.
  intros Hu. set (st0 := {| at_ := 0; non_ascii := false |}).
  assert (inside units st0) as H0 by (unfold inside; cbn; lia).
  pose proof (disjunction_ok units Hu depth st0 H0) as H. unfold parse. fold st0.
  destruct (disjunction units depth st0) as [[body st]|[]]; try done. destruct H as [(_ & Hi & _) [Hd Hp]].
  destruct (_ <? _)%nat eqn:E; [done|]. apply Nat.ltb_ge in E. split; [|done].
  unfold here in Hd. rewrite (drop_ge units (at_ st)) in Hd by done. done.
Qed.



Lemma code_points_units t : Forall (fun c => Utf16.is_code_point c = true) t -> Forall unit_value (Utf16.to_units t).
Proof.
  intros H. apply Utf16.to_units_unit in H. eapply Forall_impl; [exact H|]. intros c Hc. unfold Utf16.is_unit in Hc. unfold unit_value. lia.
Qed.

(** C14 The translation keeps the meaning of a pattern: what [translate] accepts is a pattern of the
    ECMAScript grammar, and what it returns is the text of a Python pattern that, on every document
    and from every position, can end where the ECMAScript pattern can and prefers the ends in the same
    order, with or without the [i] flag; so a search finds the same match in V8 and in [re].  The two
    semantics differ on empty iterations, word boundaries, look-behind and case folding: the rejections
    are what makes this true. *)
Theorem translate_faithful depth compile_error pattern flags t :
  Forall (fun c => Utf16.is_code_point c = true) pattern ->
  translate depth compile_error pattern flags = Ok t ->
  let fold := mem (ch "i") flags in
  Matching.flags t = python_flags fold /\
  exists r p, Disjunction (Utf16.to_units pattern) r [] /\ PyDisjunction p (source t) /\
    forall canon us i, Canonicalize canon -> Forall unit_value us ->
      js_ends (if fold then canon else id) us r i = py_ends fold us p i.
Proof.
  intros Hc. unfold translate. destruct (negb _); [done|]. destruct (List.find _ _); [done|].
  pose proof (parse_cases (Utf16.to_units pattern) depth (code_points_units _ Hc)) as H.
  destruct (parse _ depth) as [[body st]|[]]; try done. destruct H as [Hd [P1 P2 P3 P4 P5]].
  destruct (mem (ch "i") flags && non_ascii st) eqn:Ei; [done|]. destruct (compile_error _ _); [done|]. intros [= <-].
  cbv zeta. cbn [Matching.flags source]. split; [done|]. exists (tree body), (py_of (tree body)). split; [done|]. split; [done|].
  intros canon us i Hcanon Hus. apply (ends_agree (mem (ch "i") flags) canon Hcanon us Hus); [done|].
  intros Hf. apply P5. rewrite Hf in Ei. done.
Qed.

Definition sample_pattern : text := u "(?<=\s)[a-f]+?\b".

Lemma ascii_canonicalize : Canonicalize ascii_upper.
Proof.
  constructor; [done|intros c H; pose proof (ascii_upper_cases c); lia| |].
  - intros c H. destruct (ascii_upper_cases c) as [[Hr _]|[_ ->]]; [|done]. by rewrite letter_not_space in H by lia.
  - intros c H. destruct (ascii_upper_cases c) as [[Hr Hu]|[_ Hu]]; rewrite Hu in H; [|done].
    by rewrite letter_not_space in H by lia.
Qed.

Lemma translate_faithful_witness : exists r p,
  Disjunction (Utf16.to_units sample_pattern) r [] /\ js_ends ascii_upper (u "x BeEf!") r 2 = py_ends true (u "x BeEf!") p 2.
Proof.
  destruct (translate 20 (fun _ _ => None) sample_pattern (u "gi")) as [t|e] eqn:E; [|exfalso; vm_compute in E; discriminate].
  destruct (translate_faithful 20 (fun _ _ => None) sample_pattern (u "gi") t) as (_ & r & p & Hd & _ & H).
  - repeat constructor.
  - exact E.
  - exists r, p. split; [exact Hd|]. apply H; [apply ascii_canonicalize|by apply all_unit_values].
Defined.
