(* ===== verification/JsonText.v ===== *)
(** * JSON text as Python reads and writes it

    [json.loads] and [json.dumps] of the standard library, for the components that edit JSON files: the
    scanner with its error messages, the encoder, and between them the concrete syntax tree ([cst]) of
    a document, with its gaps of white space.  The scanner reads exactly the texts of well-formed
    trees ([scan_sound], [scan_complete]).  The depth of the interpreter's stack is not modelled. *)
From S2P Require Import Prelude Float64 Json Serialize Text PyStrings.
From Stdlib Require Import SpecFloat.
Open Scope Z_scope.

(** ** Scanner *)
Inductive DecodeError :=
| JSONDecodeError (msg : text)
| IntTooLong    (** [ValueError] of [int] above 4300 digits *)
| Stuck.

Definition fails {A} (msg : string) : result DecodeError A := Raise (JSONDecodeError (u msg)).

Definition is_ws (c : Z) : bool := (c =? 32) || (c =? 9) || (c =? 10) || (c =? 13).
Fixpoint skip_ws (l : text) : text := match l with c :: l' => if is_ws c then skip_ws l' else l | [] => [] end.

(** One hexadecimal digit of either case. *)
Definition hex_of (c : Z) : option Z :=
  if is_digit c then Some (c - 48)
  else if (97 <=? c) && (c <=? 102) then Some (c - 87)
  else if (65 <=? c) && (c <=? 70) then Some (c - 55) else None.
Definition hex4_of (a b c d : Z) : option Z :=
  match hex_of a, hex_of b, hex_of c, hex_of d with
  | Some a, Some b, Some c, Some d => Some (a * 4096 + b * 256 + c * 16 + d)
  | _, _, _, _ => None
  end.

Definition short_of (e : Z) : option Z := if e =? 47 then Some 47 else short_escape e.

(** What stands for one character of a literal: itself, or a [\u] escape, which may pair with the next. *)
Inductive token := Raw (c : Z) | Escaped (c : Z).

(** The tokens up to the closing quote, and what follows it. *)
Fixpoint lex_string (l : text) : result DecodeError (list token * text) :=
  match l with
  | [] => fails "Unterminated string starting at"
  | c :: l1 =>
    if c =? 34 then Ok ([], l1)
    else if c =? 92 then
      match l1 with
      | [] => fails "Unterminated string starting at"
      | e :: l2 =>
        if e =? 117 then
          match l2 with
          | h1 :: h2 :: h3 :: h4 :: ((_ :: _) as l3) =>
            match hex4_of h1 h2 h3 h4 with
            | Some v => let? (ts, r) := lex_string l3 in Ok (Escaped v :: ts, r)
            | None => fails "Invalid \uXXXX escape"
            end
          | _ => fails "Invalid \uXXXX escape"
          end
        else
          match short_of e with
          | Some v => let? (ts, r) := lex_string l2 in Ok (Raw v :: ts, r)
          | None => fails "Invalid \escape: "
          end
      end
    else if c <? 32 then fails "Invalid control character at"
    else let? (ts, r) := lex_string l1 in Ok (Raw c :: ts, r)
  end.

(** Two escapes that spell a surrogate pair are one character. *)
Fixpoint join_tokens (ts : list token) : text :=
  match ts with
  | [] => []
  | Raw c :: ts' => c :: join_tokens ts'
  | Escaped h :: ts' =>
    match ts' with
    | Escaped l :: ts'' =>
      if Utf16.is_high h && Utf16.is_low l then Utf16.join_pair h l :: join_tokens ts'' else h :: join_tokens ts'
    | _ => h :: join_tokens ts'
    end
  end.

Definition scan_string (l : text) : result DecodeError (text * text) :=
  let? (ts, r) := lex_string l in Ok (join_tokens ts, r).

(** The longest run of digits, and the rest. *)
Fixpoint span_digits (l : text) : text * text :=
  match l with
  | c :: l' => if is_digit c then let (ds, r) := span_digits l' in (c :: ds, r) else ([], l)
  | [] => ([], [])
  end.

(** A number has a sign, an integer part, and maybe a fraction and an exponent. *)
Record number := { negative : bool; whole : text; fraction : text; exponent : option Z; lexeme : text }.

Definition scan_whole (l : text) : option (text * text) :=
  match l with
  | c :: l' => if c =? 48 then Some ([c], l') else match span_digits l with ([], _) => None | dr => Some dr end
  | [] => None
  end.

Definition scan_fraction (l : text) : text * text :=
  match l with
  | c :: l' => if c =? 46 then match span_digits l' with ([], _) => ([], l) | dr => dr end else ([], l)
  | [] => ([], l)
  end.

(** The sign, the digits and the lexeme of an exponent. *)
Definition scan_exponent (l : text) : option (Z * text * text) :=
  match l with
  | e :: l1 =>
    if (e =? 101) || (e =? 69) then
      let '(neg, sign, l2) := match l1 with
                              | s :: l2 => if s =? 45 then (true, [s], l2) else if s =? 43 then (false, [s], l2) else (false, [], l1)
                              | [] => (false, [], l1)
                              end in
      match span_digits l2 with
      | ([], _) => None
      | (ds, r) => Some (if neg : bool then - int_of_digits ds else int_of_digits ds, e :: sign ++ ds, r)
      end
    else None
  | [] => None
  end.

Definition scan_number (l : text) : option (number * text) :=
  let '(neg, sign, l1) := match l with s :: l1 => if s =? 45 then (true, [s], l1) else (false, [], l) | [] => (false, [], l) end in
  match scan_whole l1 with
  | None => None
  | Some (w, l2) =>
    let (f, l3) := scan_fraction l2 in
    let dot := match f with [] => [] | _ => 46 :: f end in
    match scan_exponent l3 with
    | Some (e, ex, l4) => Some ({| negative := neg; whole := w; fraction := f; exponent := Some e; lexeme := sign ++ w ++ dot ++ ex |}, l4)
    | None => Some ({| negative := neg; whole := w; fraction := f; exponent := None; lexeme := sign ++ w ++ dot |}, l3)
    end
  end.

(** [int] or [float] of the lexeme. *)
Definition number_value (n : number) : result DecodeError value :=
  let sign := if negative n then -1 else 1 in
  match fraction n, exponent n with
  | [], None => if (4300 <? length (whole n))%nat then Raise IntTooLong else Ok (VInt (sign * int_of_digits (whole n)))
  | f, e =>
    let x := decimal_value (int_of_digits (whole n ++ f)) (or_else e 0 - Z.of_nat (length f)) in
    Ok (VFloat (if negative n then SFopp x else x))
  end.

Definition constants : list (text * value) :=
  [(u "null", VNone); (u "true", VBool true); (u "false", VBool false); (u "NaN", VFloat S754_nan);
   (u "Infinity", VFloat (S754_infinity false)); (u "-Infinity", VFloat (S754_infinity true))].

(** The constant the text starts with. *)
Definition scan_constant (l : text) : option (value * text) :=
  match List.find (fun k => starts_with k.1 l) constants with
  | Some (k, v) => Some (v, drop (length k) l)
  | None => None
  end.

(** A value that is neither a string nor a container. *)
Definition scan_atom (l : text) : result DecodeError (value * text) :=
  match scan_constant l with
  | Some vr => Ok vr
  | None =>
    match scan_number l with
    | Some (n, r) => let? v := number_value n in Ok (v, r)
    | None => fails "Expecting value"
    end
  end.

(** [object_pairs_hook], what an object is built of, and the reader of the other values, which the hooks
    for numbers and constants change. *)
Section Scan.
Context (build : list (text * value) -> value) (atom : text -> result DecodeError (value * text)).

(** The value at the start of the text; [scan_elements] and [scan_members] start at an element or a key. *)
Fixpoint scan (fuel : nat) (l : text) : result DecodeError (value * text) :=
  match fuel with
  | O => Raise Stuck
  | S fuel =>
    match l with
    | [] => fails "Expecting value"
    | c :: l1 =>
      if c =? 34 then let? (t, r) := scan_string l1 in Ok (VStr t, r)
      else if c =? 123 then
        match skip_ws l1 with
        | d :: r => if d =? 125 then Ok (build [], r) else let? (kvs, r) := scan_members fuel (d :: r) in Ok (build kvs, r)
        | [] => fails "Expecting property name enclosed in double quotes"
        end
      else if c =? 91 then
        match skip_ws l1 with
        | d :: r => if d =? 93 then Ok (VList [], r) else let? (vs, r) := scan_elements fuel (d :: r) in Ok (VList vs, r)
        | [] => fails "Expecting value"
        end
      else atom l
    end
  end
with scan_elements (fuel : nat) (l : text) : result DecodeError (list value * text) :=
  match fuel with
  | O => Raise Stuck
  | S fuel =>
    let? (v, l1) := scan fuel l in
    match skip_ws l1 with
    | c :: l2 =>
      if c =? 93 then Ok ([v], l2)
      else if c =? 44 then let? (vs, r) := scan_elements fuel (skip_ws l2) in Ok (v :: vs, r)
      else fails "Expecting ',' delimiter"
    | [] => fails "Expecting ',' delimiter"
    end
  end
with scan_members (fuel : nat) (l : text) : result DecodeError (list (text * value) * text) :=
  match fuel with
  | O => Raise Stuck
  | S fuel =>
    match l with
    | q :: l1 =>
      if negb (q =? 34) then fails "Expecting property name enclosed in double quotes"
      else
        let? (k, l2) := scan_string l1 in
        match skip_ws l2 with
        | c :: l3 =>
          if negb (c =? 58) then fails "Expecting ':' delimiter"
          else
            let? (v, l4) := scan fuel (skip_ws l3) in
            match skip_ws l4 with
            | d :: l5 =>
              if d =? 125 then Ok ([(k, v)], l5)
              else if d =? 44 then let? (kvs, r) := scan_members fuel (skip_ws l5) in Ok ((k, v) :: kvs, r)
              else fails "Expecting ',' delimiter"
            | [] => fails "Expecting ',' delimiter"
            end
        | [] => fails "Expecting ':' delimiter"
        end
    | [] => fails "Expecting property name enclosed in double quotes"
    end
  end.

(** The whole text is one value between white space. *)
Definition decode (l : text) : result DecodeError value :=
  if bool_decide (head l = Some 0xFEFF) then fails "Unexpected UTF-8 BOM (decode using utf-8-sig)"
  else
    let? (v, r) := scan (S (2 * length l)) (skip_ws l) in
    match skip_ws r with [] => Ok v | _ => fails "Extra data" end.
End Scan.

(** A later member replaces an earlier one of the same key; [pairs] keeps both. *)
Definition last_wins (kvs : list (text * value)) : value := VDict (dmerge [] kvs).
Definition json_loads : text -> result DecodeError value := decode last_wins scan_atom.
Definition json_pairs : text -> result DecodeError value := decode VDict scan_atom.

Example loads_document : json_loads (u " {" ++ dq ++ u "a\u0041" ++ dq ++ u ": [1, -2.5e1 ,true], " ++ dq ++ dq ++ u ":{}}")
  = Ok (VDict [(u "aA", VList [VInt 1; VFloat (f_of_Z (-25)); VBool true]); ([], VDict [])]).
Proof. vm_compute. reflexivity. Qed.
Example loads_refuses : json_loads (u "[1,]") = fails "Expecting value" /\ json_loads (u "01") = fails "Extra data"
  /\ json_loads (u "{" ++ dq ++ u "a" ++ dq ++ u " 1}") = fails "Expecting ':' delimiter".
Proof. vm_compute. done. Qed.

(** ** Encoder *)
(** [py_encode_basestring]. *)
Definition escaped_char (c : Z) : text :=
  if c =? 34 then [92; 34] else if c =? 92 then [92; 92] else if c =? 8 then [92; 98] else if c =? 12 then [92; 102]
  else if c =? 10 then [92; 110] else if c =? 13 then [92; 114] else if c =? 9 then [92; 116]
  else if c <? 32 then [92; 117] ++ hex4 c else [c].
Definition dumps_string (t : text) : text := dq ++ concat (escaped_char <$> t) ++ dq.

(** [float.__repr__]. *)
Definition float_repr (x : float) : text :=
  if is_nan x then u "NaN"
  else if negb (is_finite x) then if fsign x then u "-Infinity" else u "Infinity"
  else
    let sign := if fsign x then u "-" else [] in
    if feqb x f_zero then sign ++ u "0.0"
    else
      let '(d, q) := repr_digits x in
      let ds := digits d in
      let k := Z.of_nat (length ds) in
      let n := k + q in
      if (-4 <? n) && (n <=? 16) then
        sign ++ (if n <=? 0 then u "0." ++ zeros (- n) ++ ds
                 else if k <=? n then ds ++ zeros (n - k) ++ u ".0"
                 else take (Z.to_nat n) ds ++ u "." ++ drop (Z.to_nat n) ds)
      else
        let e := n - 1 in
        sign ++ take 1 ds ++ (if 1 <? k then u "." ++ drop 1 ds else []) ++ u "e" ++ (if 0 <=? e then u "+" else u "-")
        ++ pad_left 2 (digits (Z.abs e)).

(** [json.dumps] with [ensure_ascii=False]: compact with [None], else indented by the unit of [indent];
    [nl] is the newline and the indentation of the current level. *)
Section Dumps.
Context (indent : option text).

Definition key_separator : text := match indent with None => u ":" | Some _ => u ": " end.
Definition deeper (nl : text) : text := match indent with None => [] | Some i => nl ++ i end.

Fixpoint dumps_at (nl : text) (v : value) : text :=
  match v with
  | VNone => u "null"
  | VBool b => if b then u "true" else u "false"
  | VInt n => str_of_Z n
  | VFloat x => float_repr x
  | VStr t => dumps_string t
  | VList l =>
    match l with
    | [] => u "[]"
    | _ => u "[" ++ deeper nl ++ join (u "," ++ deeper nl) (List.map (dumps_at (deeper nl)) l) ++ nl ++ u "]"
    end
  | VDict d =>
    match d with
    | [] => u "{}"
    | _ => u "{" ++ deeper nl ++ join (u "," ++ deeper nl)
             (List.map (fun kv => dumps_string kv.1 ++ key_separator ++ dumps_at (deeper nl) kv.2) d) ++ nl ++ u "}"
    end
  end.
End Dumps.
Definition json_dumps (indent : option text) (v : value) : text :=
  dumps_at indent (match indent with None => [] | Some _ => [10] end) v.

Example dumps_document : json_dumps (Some (u "  ")) (VDict [(u "a", VList [VInt (-3); VBool false]); (u "b", VDict [])])
  = u "{" ++ [10] ++ u "  " ++ dq ++ u "a" ++ dq ++ u ": [" ++ [10] ++ u "    -3," ++ [10] ++ u "    false" ++ [10] ++ u "  ]," ++ [10]
    ++ u "  " ++ dq ++ u "b" ++ dq ++ u ": {}" ++ [10] ++ u "}".
Proof. vm_compute. reflexivity. Qed.
Example dumps_floats : json_dumps None (VList [VFloat (f_ratio 1 10); VFloat (f_of_Z (10 ^ 16)); VFloat (f_of_Z 12); VFloat (f_ratio (-1) 100000)])
  = u "[0.1,1e+16,12.0,-1e-05]".
Proof. vm_compute. reflexivity. Qed.

(** * Concrete syntax trees of JSON documents

    A tree keeps every character of a document: the literals, the lexemes and the white space between
    them ([flat]), beside the values they stand for ([val]).  The scanner of [JsonText] reads a text
    exactly when it is the text of a well-formed tree, and then reads the value of that tree. *)

(** A key of an object, the white space around it and around its colon. *)
Record Key := { lead : text; literal : text; name : text; before_colon : text; after_colon : text }.

Inductive cst :=
| CStr (literal t : text)
| CAtom (lex : text) (v : value)
| CArr (gap : text) (es : elems)
| CObj (gap : text) (ms : members)
with elems :=
| ENil
| ECons (before : text) (c : cst) (after : text) (es : elems)
with members :=
| MNil
| MCons (k : Key) (c : cst) (after : text) (ms : members).

Scheme cst_mut := Induction for cst Sort Prop
with elems_mut := Induction for elems Sort Prop
with members_mut := Induction for members Sort Prop.
Combined Scheme cst_elems_members from cst_mut, elems_mut, members_mut.

(** ** Text and value *)
Definition flat_key (k : Key) : text := lead k ++ literal k ++ before_colon k ++ [58] ++ after_colon k.

Fixpoint flat (c : cst) : text :=
  match c with
  | CStr lit _ => lit
  | CAtom lex _ => lex
  | CArr gap es => [91] ++ gap ++ flat_elems es ++ [93]
  | CObj gap ms => [123] ++ gap ++ flat_members ms ++ [125]
  end
with flat_elems (es : elems) : text :=
  match es with
  | ENil => []
  | ECons b c a es' => b ++ flat c ++ a ++ match es' with ENil => [] | _ => [44] ++ flat_elems es' end
  end
with flat_members (ms : members) : text :=
  match ms with
  | MNil => []
  | MCons k c a ms' => flat_key k ++ flat c ++ a ++ match ms' with MNil => [] | _ => [44] ++ flat_members ms' end
  end.

Section Values.
Context (build : list (text * value) -> value).
Fixpoint val (c : cst) : value :=
  match c with
  | CStr _ t => VStr t
  | CAtom _ v => v
  | CArr _ es => VList (elem_vals es)
  | CObj _ ms => build (member_vals ms)
  end
with elem_vals (es : elems) : list value :=
  match es with ENil => [] | ECons _ c _ es' => val c :: elem_vals es' end
with member_vals (ms : members) : list (text * value) :=
  match ms with MNil => [] | MCons k c _ ms' => (name k, val c) :: member_vals ms' end.
End Values.

(** ** Well-formed trees *)
Definition white (w : text) : Prop := Forall (fun c => is_ws c = true) w.

(** What can stand in a number. *)
Definition numberish (c : Z) : bool := is_digit c || (c =? 46) || (c =? 101) || (c =? 69) || (c =? 43) || (c =? 45).
Definition ends (r : text) : Prop := match r with c :: _ => numberish c = false | [] => True end.

(** A string literal after its opening quote. *)
Inductive body : text -> list token -> Prop :=
| B_end : body [34] []
| B_raw c b ts : c <> 34 -> c <> 92 -> (c <? 32) = false -> body b ts -> body (c :: b) (Raw c :: ts)
| B_short e v b ts : short_of e = Some v -> body b ts -> body (92 :: e :: b) (Raw v :: ts)
| B_hex h1 h2 h3 h4 v b ts : hex4_of h1 h2 h3 h4 = Some v -> body b ts -> body (92 :: 117 :: h1 :: h2 :: h3 :: h4 :: b) (Escaped v :: ts).

Definition literal_of (lit t : text) : Prop := exists b ts, lit = 34 :: b /\ body b ts /\ join_tokens ts = t.

Inductive atom_of : text -> value -> Prop :=
| Atom_constant lex v : (lex, v) ∈ constants -> atom_of lex v
| Atom_number n v :
    lexeme n <> [] -> Forall (fun c => numberish c = true) (lexeme n) ->
    (exists c l, lexeme n = c :: l /\ (is_digit c = true \/ c = 45)) ->
    (forall r, ends r -> scan_number (lexeme n ++ r) = Some (n, r)) ->
    number_value n = Ok v -> atom_of (lexeme n) v.

Definition wf_key (k : Key) : Prop :=
  white (lead k) /\ literal_of (literal k) (name k) /\ white (before_colon k) /\ white (after_colon k).

Fixpoint wf (c : cst) : Prop :=
  match c with
  | CStr lit t => literal_of lit t
  | CAtom lex v => atom_of lex v
  | CArr gap es => white gap /\ wf_elems es
  | CObj gap ms => white gap /\ wf_members ms
  end
with wf_elems (es : elems) : Prop :=
  match es with ENil => True | ECons b c a es' => white b /\ wf c /\ white a /\ wf_elems es' end
with wf_members (ms : members) : Prop :=
  match ms with MNil => True | MCons k c a ms' => wf_key k /\ wf c /\ white a /\ wf_members ms' end.

(** ** White space *)
Lemma white_nil : white [].
Proof. constructor. Qed.
#[export] Hint Resolve white_nil : core.

Lemma skip_ws_white w r : white w -> skip_ws (w ++ r) = skip_ws r.
Proof. induction 1 as [|c w Hc _ IH]; [done|]. cbn. by rewrite Hc. Qed.
Lemma skip_ws_head c r : is_ws c = false -> skip_ws (c :: r) = c :: r.
Proof. cbn. by intros ->. Qed.
Lemma skip_ws_split l : exists w, white w /\ l = w ++ skip_ws l.
Proof.
  induction l as [|c l (w & Hw & IH)]; [by exists []|]. cbn. destruct (is_ws c) eqn:E.
  - exists (c :: w). split; [by constructor|]. cbn. by rewrite <- IH.
  - by exists [].
Qed.
Lemma skip_ws_length l : (length (skip_ws l) <= length l)%nat.
Proof. destruct (skip_ws_split l) as (w & _ & E). rewrite E at 2. rewrite length_app. lia. Qed.
Lemma skip_ws_end w : white w -> skip_ws w = [].
Proof. intros H. rewrite <- (app_nil_r w), skip_ws_white by done. done. Qed.
Lemma skip_ws_nil l : skip_ws l = [] -> white l.
Proof. destruct (skip_ws_split l) as (w & Hw & E). intros H. rewrite H, app_nil_r in E. by subst. Qed.

Lemma white_app a b : white (a ++ b) <-> white a /\ white b.
Proof. apply Forall_app. Qed.
Lemma white_ends w r : white w -> ends r -> ends (w ++ r).
Proof.
  intros Hw Hr. destruct Hw as [|c w' Hc _]; [done|]. cbn. unfold is_ws in Hc. unfold numberish, is_digit. lia.
Qed.


(** ** String literals *)
Lemma body_nonempty b ts : body b ts -> b <> [].
Proof. by destruct 1. Qed.

Lemma short_not_u e v : short_of e = Some v -> (e =? 117) = false.
Proof. intros H. destruct (e =? 117) eqn:E; [|done]. apply Z.eqb_eq in E as ->. by vm_compute in H. Qed.

Lemma body_lex b ts r : body b ts -> lex_string (b ++ r) = Ok (ts, r).
Proof.
  induction 1 as [|c b ts H1 H2 H3 _ IH|e v b ts Hs _ IH|h1 h2 h3 h4 v b ts Hv Hb IH]; cbn [app lex_string].
  - done.
  - apply Z.eqb_neq in H1, H2. by rewrite H1, H2, H3, IH.
  - change (92 =? 34) with false. change (92 =? 92) with true. cbv iota. by rewrite (short_not_u _ _ Hs), Hs, IH.
  - change (92 =? 34) with false. change (92 =? 92) with true. change (117 =? 117) with true. cbv iota.
    destruct (b ++ r) as [|x l] eqn:E; [by destruct (body_nonempty _ _ Hb); destruct b|]. by rewrite Hv, IH.
Qed.

Lemma lex_body l : forall ts r, lex_string l = Ok (ts, r) -> exists b, l = b ++ r /\ body b ts.
Proof.
  induction l as [l IH] using (induction_ltof1 _ (@length Z)); unfold ltof in IH. intros ts r.
  destruct l as [|c l1]; cbn [lex_string]; [done|].
  destruct (c =? 34) eqn:E1; [apply Z.eqb_eq in E1 as ->; intros [= <- <-]; exists [34]; by split; [|constructor]|].
  destruct (c =? 92) eqn:E2.
  - apply Z.eqb_eq in E2 as ->. destruct l1 as [|e l2]; [done|]. destruct (e =? 117) eqn:E3.
    + apply Z.eqb_eq in E3 as ->. destruct l2 as [|h1 [|h2 [|h3 [|h4 [|x l3]]]]]; try done.
      destruct (hex4_of h1 h2 h3 h4) as [v|] eqn:Ev; [|done]. intros ([ts' r'] & Hl & [= <- <-])%rbind_Ok.
      apply IH in Hl as (b & Eb & Hb); [|cbn; lia]. rewrite Eb. eexists. split; [|by apply B_hex]. done.
    + destruct (short_of e) as [v|] eqn:Ev; [|done]. intros ([ts' r'] & Hl & [= <- <-])%rbind_Ok.
      apply IH in Hl as (b & -> & Hb); [|cbn; lia]. eexists. split; [|by apply B_short]. done.
  - destruct (c <? 32) eqn:E3; [done|]. intros ([ts' r'] & Hl & [= <- <-])%rbind_Ok.
    apply IH in Hl as (b & -> & Hb); [|cbn; lia]. apply Z.eqb_neq in E1, E2. eexists. split; [|by apply B_raw]. done.
Qed.

Lemma scan_string_body b ts r : body b ts -> scan_string (b ++ r) = Ok (join_tokens ts, r).
Proof. intros H. unfold scan_string. by rewrite (body_lex _ _ r H). Qed.

Lemma scan_string_sound l t r : scan_string l = Ok (t, r) -> exists b ts, l = b ++ r /\ body b ts /\ join_tokens ts = t.
Proof. unfold scan_string. intros ([ts r'] & Hl & [= <- <-])%rbind_Ok. apply lex_body in Hl as (b & -> & Hb). by exists b, ts. Qed.

(** ** Numbers *)
Lemma span_digits_sound l ds r : span_digits l = (ds, r) -> l = ds ++ r /\ Forall (fun c => is_digit c = true) ds.
Proof.
  revert ds r. induction l as [|c l IH]; cbn; intros ds r; [intros [= <- <-]; by split; [|constructor]|].
  destruct (is_digit c) eqn:E; [|intros [= <- <-]; by split; [|constructor]].
  destruct (span_digits l) as [ds' r']. intros [= <- <-]. destruct (IH ds' r' eq_refl) as [-> Hf]. split; [done|by constructor].
Qed.

Lemma span_digits_app ds r : Forall (fun c => is_digit c = true) ds -> (forall c l, r = c :: l -> is_digit c = false) ->
  span_digits (ds ++ r) = (ds, r).
Proof.
  intros H Hr. induction H as [|c ds Hc _ IH]; cbn.
  - destruct r as [|c r]; [done|]. cbn. by rewrite (Hr c r eq_refl).
  - by rewrite Hc, IH.
Qed.

Lemma ends_digit r : ends r -> forall c l, r = c :: l -> is_digit c = false.
Proof. intros H c l ->. cbn in H. unfold numberish in H. by bool_to_prop. Qed.

Lemma digit_numberish c : is_digit c = true -> numberish c = true.
Proof. unfold numberish. by intros ->. Qed.

Lemma scan_whole_sound l w r : scan_whole l = Some (w, r) ->
  l = w ++ r /\ (exists c l', w = c :: l' /\ is_digit c = true) /\ Forall (fun c => numberish c = true) w /\
  (forall r', (forall c l, r' = c :: l -> is_digit c = false) -> scan_whole (w ++ r') = Some (w, r')).
Proof.
  unfold scan_whole. destruct l as [|c l]; [done|]. destruct (c =? 48) eqn:E.
  - apply Z.eqb_eq in E as ->. intros [= <- <-]. split; [done|]. split; [by exists 48, []|]. split; [by repeat constructor|]. done.
  - destruct (span_digits (c :: l)) as [ds r'] eqn:Es. destruct ds as [|d ds]; [done|]. intros [= <- <-].
    apply span_digits_sound in Es as [Es Hf]. injection Es as -> El. split; [by rewrite El|].
    split; [exists d, ds; by inversion Hf|]. split; [by eapply Forall_impl; [exact Hf|apply digit_numberish]|].
    intros r2 Hr2. cbn [app]. rewrite E. change (d :: ds ++ r2) with ((d :: ds) ++ r2). by rewrite span_digits_app.
Qed.

Definition dotted (f : text) : text := match f with [] => [] | _ => 46 :: f end.

(** A fraction is read the same whatever follows, as long as it cannot go on. *)
Definition after_fraction (r : text) : Prop := forall c l, r = c :: l -> is_digit c = false /\ c <> 46.

Lemma scan_fraction_sound l f r : scan_fraction l = (f, r) ->
  l = dotted f ++ r /\ Forall (fun c => numberish c = true) (dotted f) /\
  (forall r', after_fraction r' -> scan_fraction (dotted f ++ r') = (f, r')).
Proof.
  assert (forall r' : text, after_fraction r' -> scan_fraction r' = ([], r')) as Hnone.
  { intros [|c r'] H; [done|]. destruct (H c r' eq_refl) as [_ Hc%Z.eqb_neq]. cbn. by rewrite Hc. }
  unfold scan_fraction at 1. destruct l as [|c l]; [intros [= <- <-]; split; [done|by split; [constructor|]]|].
  destruct (c =? 46) eqn:E; [|intros [= <- <-]; split; [done|by split; [constructor|]]].
  apply Z.eqb_eq in E as ->. destruct (span_digits l) as [ds r'] eqn:Es. destruct ds as [|d ds];
    intros [= <- <-]; [split; [done|by split; [constructor|]]|].
  apply span_digits_sound in Es as [-> Hf]. split; [done|]. split.
  - constructor; [done|]. eapply Forall_impl; [exact Hf|apply digit_numberish].
  - intros r2 H2. cbn [dotted app scan_fraction]. change (46 =? 46) with true. cbv iota.
    change (d :: ds ++ r2) with ((d :: ds) ++ r2). rewrite span_digits_app; [done|done|]. intros c l ->. by apply (H2 c l).
Qed.

Lemma ends_fraction r : ends r -> after_fraction r.
Proof. intros H c l ->. cbn in H. unfold numberish in H. bool_to_prop. done. Qed.

Lemma scan_exponent_none r : ends r -> scan_exponent r = None.
Proof. destruct r as [|c r]; [done|]. cbn. unfold numberish. intros H. by replace ((c =? 101) || (c =? 69)) with false by lia. Qed.

Lemma scan_exponent_sound l e x r : scan_exponent l = Some (e, x, r) ->
  l = x ++ r /\ Forall (fun c => numberish c = true) x /\ (exists c x', x = c :: x' /\ (c =? 101) || (c =? 69) = true) /\
  (forall r', ends r' -> scan_exponent (x ++ r') = Some (e, x, r')).
Proof.
  unfold scan_exponent at 1. destruct l as [|c l]; [done|]. destruct ((c =? 101) || (c =? 69)) eqn:E; [|done].
  assert (numberish c = true) as Hc by (unfold numberish; lia).
  assert (forall ds r2, Forall (fun c => is_digit c = true) ds -> ends r2 -> span_digits (ds ++ r2) = (ds, r2)) as Hds.
  { intros ds r2 Hf Hr. apply span_digits_app; [done|by apply ends_digit]. }
  assert (forall ds, Forall (fun c => is_digit c = true) ds -> Forall (fun c => numberish c = true) ds) as Hn.
  { intros ds Hf. eapply Forall_impl; [exact Hf|apply digit_numberish]. }
  destruct (match l with s :: l2 => if s =? 45 then (true, [s], l2) else if s =? 43 then (false, [s], l2) else (false, [], l) | [] => (false, [], l) end)
    as [[neg sign] l2] eqn:Es.
  destruct (span_digits l2) as [ds r'] eqn:Ed. destruct ds as [|d ds]; [done|]. intros [= <- <- <-].
  apply span_digits_sound in Ed as [-> Hf]. split.
  { destruct l as [|s l]; [by simplify_eq/=|]. destruct (s =? 45); [by simplify_eq/=|]. by destruct (s =? 43); simplify_eq/=. }
  assert (sign = [45] /\ neg = true \/ sign = [43] /\ neg = false \/ sign = [] /\ neg = false) as Hsign.
  { destruct l as [|s l]; [by simplify_eq/=|]. destruct (s =? 45) eqn:E45; [apply Z.eqb_eq in E45 as ->; simplify_eq/=; tauto|].
    destruct (s =? 43) eqn:E43; [apply Z.eqb_eq in E43 as ->|]; simplify_eq/=; tauto. }
  split.
  { constructor; [done|]. apply Forall_app. split; [|by apply Hn]. by destruct Hsign as [[-> _]|[[-> _]|[-> _]]]; repeat constructor. }
  split; [by exists c, (sign ++ d :: ds)|]. intros r2 H2. cbn [app scan_exponent]. rewrite E, <- app_assoc.
  pose proof (Hds (d :: ds) r2 Hf H2) as H. assert (is_digit d = true) as Hd by by inversion Hf.
  destruct Hsign as [[-> ->]|[[-> ->]|[-> ->]]]; cbn [app].
  - change (45 =? 45) with true. cbv iota. cbn [app] in H. by rewrite H.
  - change (43 =? 45) with false. change (43 =? 43) with true. cbv iota. cbn [app] in H. by rewrite H.
  - destruct (d =? 45) eqn:E1; [apply Z.eqb_eq in E1 as ->; done|]. destruct (d =? 43) eqn:E2; [apply Z.eqb_eq in E2 as ->; done|].
    cbn [app] in H. by rewrite H.
Qed.

Lemma scan_number_sound l n r : scan_number l = Some (n, r) ->
  l = lexeme n ++ r /\ Forall (fun c => numberish c = true) (lexeme n) /\
  (exists c x, lexeme n = c :: x /\ (is_digit c = true \/ c = 45)) /\
  (forall r', ends r' -> scan_number (lexeme n ++ r') = Some (n, r')).
Proof.
  unfold scan_number at 1.
  destruct (match l with s :: l1 => if s =? 45 then (true, [s], l1) else (false, [], l) | [] => (false, [], l) end) as [[neg sign] l1] eqn:Es.
  assert (l = sign ++ l1 /\ (sign = [45] /\ neg = true \/ sign = [] /\ neg = false)) as [El Hsign].
  { destruct l as [|s l]; [by simplify_eq/=; tauto|]. destruct (s =? 45) eqn:E45; [apply Z.eqb_eq in E45 as ->|]; simplify_eq/=; tauto. }
  destruct (scan_whole l1) as [[w l2]|] eqn:Ew; [|done]. destruct (scan_fraction l2) as [f l3] eqn:Ef.
  apply scan_whole_sound in Ew as (-> & (d & w' & Ewd & Hd) & Hwn & Hw). apply scan_fraction_sound in Ef as (-> & Hfn & Hf).
  change (match f with [] => [] | _ :: _ => 46 :: f end) with (dotted f).
  assert (forall x, exists c y, sign ++ w ++ x = c :: y /\ (is_digit c = true \/ c = 45)) as Hhead.
  { intros x. destruct Hsign as [[-> _]|[-> _]]; [by exists 45, (w ++ x); auto|]. rewrite Ewd. exists d, (w' ++ x). auto. }
  assert (forall x, Forall (fun c => numberish c = true) x -> Forall (fun c => numberish c = true) (sign ++ w ++ dotted f ++ x)) as Hall.
  { intros x Hx. repeat (apply Forall_app; split; try done). by destruct Hsign as [[-> _]|[-> _]]; repeat constructor. }
  assert (forall y, (forall c z, y = c :: z -> is_digit c = false /\ c <> 46) ->
    scan_number (sign ++ w ++ dotted f ++ y) = match scan_exponent y with
      | Some (e, ex, l4) => Some ({| negative := neg; whole := w; fraction := f; exponent := Some e; lexeme := sign ++ w ++ dotted f ++ ex |}, l4)
      | None => Some ({| negative := neg; whole := w; fraction := f; exponent := None; lexeme := sign ++ w ++ dotted f |}, y) end) as Hread.
  { intros y Hy. unfold scan_number.
    assert (scan_whole (w ++ dotted f ++ y) = Some (w, dotted f ++ y)) as Ew.
    { apply Hw. intros c z. destruct f as [|f0 f]; [intros Ey; by destruct (Hy c z Ey)|]. by intros [= <- _]. }
    destruct Hsign as [[-> ->]|[-> ->]]; cbn [app].
    - change (45 =? 45) with true. cbv iota. by rewrite Ew, Hf by exact Hy.
    - subst w. cbn [app] in *. destruct (d =? 45) eqn:E45; [apply Z.eqb_eq in E45 as ->; done|].
      by rewrite Ew, Hf by exact Hy. }
  destruct (scan_exponent l3) as [[[e ex] l4]|] eqn:Ee; intros [= <- <-]; cbn [lexeme].
  - apply scan_exponent_sound in Ee as (-> & Hxn & (c & x' & -> & Hc) & Hx). split; [by rewrite El, <- !app_assoc|].
    split; [by apply Hall|]. split; [apply Hhead|]. intros r' Hr. rewrite <- !app_assoc, Hread; [by rewrite (Hx r' Hr)|].
    intros c0 z [= <- _]. unfold is_digit. apply orb_true_iff in Hc as [->%Z.eqb_eq| ->%Z.eqb_eq]; done.
  - split; [by rewrite El, <- !app_assoc|]. split; [rewrite <- (app_nil_r (dotted f)); by apply Hall|]. split; [apply Hhead|].
    intros r' Hr. rewrite <- !app_assoc, Hread by by apply ends_fraction. by rewrite scan_exponent_none.
Qed.

(** ** Atoms *)
Lemma constant_cases lex v : (lex, v) ∈ constants ->
  (lex, v) = (u "null", VNone) \/ (lex, v) = (u "true", VBool true) \/ (lex, v) = (u "false", VBool false) \/
  (lex, v) = (u "NaN", VFloat S754_nan) \/ (lex, v) = (u "Infinity", VFloat (S754_infinity false)) \/
  (lex, v) = (u "-Infinity", VFloat (S754_infinity true)).
Proof. unfold constants. rewrite !elem_of_cons, elem_of_nil. tauto. Qed.

Lemma scan_constant_sound l v r : scan_constant l = Some (v, r) -> exists lex, (lex, v) ∈ constants /\ l = lex ++ r.
Proof.
  unfold scan_constant. destruct (List.find _ _) as [[k x]|] eqn:E; [|done]. intros [= <- <-].
  apply List.find_some in E as [Hin Hs]. cbn in Hs. apply starts_with_spec in Hs as [rest ->]. exists k.
  split; [by apply list_elem_of_In|]. by rewrite drop_app_length.
Qed.

Lemma scan_constant_app lex v r : (lex, v) ∈ constants -> scan_constant (lex ++ r) = Some (v, r).
Proof. intros [[= -> ->]|[[= -> ->]|[[= -> ->]|[[= -> ->]|[[= -> ->]|[= -> ->]]]]]]%constant_cases; reflexivity. Qed.

Lemma number_not_constant n r : (exists c x, lexeme n = c :: x /\ (is_digit c = true \/ c = 45)) ->
  Forall (fun c => numberish c = true) (lexeme n) -> scan_number (lexeme n) = Some (n, []) -> scan_constant (lexeme n ++ r) = None.
Proof.
  intros (c & x & E & Hc) Hall Hn. rewrite E in *. unfold scan_constant.
  destruct (List.find _ _) as [[k v]|] eqn:Ef; [|done]. exfalso. apply List.find_some in Ef as [Hin Hs]. cbn [fst] in Hs.
  apply list_elem_of_In in Hin. destruct (constant_cases _ _ Hin) as [[= -> ->]|[[= -> ->]|[[= -> ->]|[[= -> ->]|[[= -> ->]|[= -> ->]]]]]].
  all: apply starts_with_spec in Hs as [rest Hs]; injection Hs as -> Hs.
  all: destruct Hc as [Hc|Hc]; try done.
  destruct x as [|d x]; [done|]. injection Hs as -> _. inversion Hall as [|? ? _ Hd]; subst. by inversion Hd.
Qed.

Lemma scan_atom_sound l v r : scan_atom l = Ok (v, r) -> exists lex, l = lex ++ r /\ atom_of lex v.
Proof.
  unfold scan_atom. destruct (scan_constant l) as [[v' r']|] eqn:Ec.
  - intros [= <- <-]. apply scan_constant_sound in Ec as (lex & Hin & ->). exists lex. split; [done|by constructor].
  - destruct (scan_number l) as [[n r']|] eqn:En; [|done]. intros (x & Hx & [= <- <-])%rbind_Ok.
    apply scan_number_sound in En as (-> & Hall & Hhead & Hn). exists (lexeme n). split; [done|].
    apply Atom_number; try done. by destruct Hhead as (c & y & -> & _).
Qed.

Lemma scan_atom_app lex v r : atom_of lex v -> ends r -> scan_atom (lex ++ r) = Ok (v, r).
Proof.
  intros H Hr. unfold scan_atom. destruct H as [lex v Hin|n v _ Hall Hhead Hn Hv].
  - by rewrite scan_constant_app with (v := v).
  - rewrite number_not_constant; [|done|done|rewrite <- (app_nil_r (lexeme n)) at 1; by apply (Hn [] I)].
    by rewrite (Hn r Hr), Hv.
Qed.

(** The first character tells an atom from white space, strings and containers. *)
Definition opens (c : Z) : bool := negb (is_ws c) && negb (c =? 34) && negb (c =? 123) && negb (c =? 91) && negb (c =? 93) && negb (c =? 125) && (c <? 128).

Lemma atom_head lex v : atom_of lex v -> exists c x, lex = c :: x /\ opens c = true.
Proof.
  destruct 1 as [lex v Hin|n v _ _ (c & x & E & Hc) _ _].
  - destruct (constant_cases _ _ Hin) as [[= -> ->]|[[= -> ->]|[[= -> ->]|[[= -> ->]|[[= -> ->]|[= -> ->]]]]]];
      (eexists _, _; split; [reflexivity|reflexivity]).
  - exists c, x. split; [done|]. unfold opens, is_ws. unfold is_digit in Hc. lia.
Qed.

(** A value starts with a character that is neither white space nor a closer. *)
Lemma flat_head c : wf c -> exists x l, flat c = x :: l /\ is_ws x = false /\ x <> 93 /\ x <> 125 /\ x < 128.
Proof.
  destruct c; cbn [wf flat].
  - intros (b & ts & -> & _). by exists 34, b.
  - intros H. destruct (atom_head _ _ H) as (x & l & -> & Hx). exists x, l. unfold opens, is_ws in Hx. split; [done|]. unfold is_ws. lia.
  - intros _. by eexists 91, _.
  - intros _. by eexists 123, _.
Qed.

Lemma flat_head_skip c r : wf c -> skip_ws (flat c ++ r) = flat c ++ r.
Proof. intros H. destruct (flat_head c H) as (x & l & -> & Hx & _). by apply skip_ws_head. Qed.

(** ** What the scanner reads is the text of a tree *)
Section Scanner.
Context (build : list (text * value) -> value).

Lemma skip_ws_cons l c r : skip_ws l = c :: r -> exists w, white w /\ l = w ++ c :: r.
Proof. destruct (skip_ws_split l) as (w & Hw & E). intros H. rewrite H in E. by exists w. Qed.

Definition elements_read (l : text) (vs : list value) (r : text) : Prop :=
  exists es, wf_elems es /\ es <> ENil /\ l = flat_elems es ++ [93] ++ r /\ elem_vals build es = vs.
Definition members_read (l : text) (kvs : list (text * value)) (r : text) : Prop :=
  exists ms, wf_members ms /\ ms <> MNil /\ l = flat_members ms ++ [125] ++ r /\ member_vals build ms = kvs.

(** White space before a first element or member belongs to it. *)
Lemma elements_after w l vs r : white w -> elements_read l vs r -> elements_read (w ++ l) vs r.
Proof.
  intros Hw (es & Hes & Hne & -> & <-). destruct es as [|b c a es]; [done|]. destruct Hes as (Hb & Hc & Ha & Hes).
  exists (ECons (w ++ b) c a es). cbn [wf_elems flat_elems elem_vals]. rewrite white_app, <- !app_assoc. done.
Qed.

Lemma members_after w l kvs r : white w -> members_read l kvs r -> members_read (w ++ l) kvs r.
Proof.
  intros Hw (ms & Hms & Hne & -> & <-). destruct ms as [|k c a ms]; [done|]. destruct Hms as ((H1 & H2 & H3 & H4) & Hc & Ha & Hms).
  exists (MCons {| lead := w ++ lead k; literal := literal k; name := name k; before_colon := before_colon k; after_colon := after_colon k |} c a ms).
  cbn [wf_members flat_members member_vals]. unfold wf_key, flat_key. cbn [lead literal name before_colon after_colon].
  rewrite white_app, <- !app_assoc. done.
Qed.

Lemma scan_sound fuel :
  (forall l v r, scan build scan_atom fuel l = Ok (v, r) -> exists c, wf c /\ l = flat c ++ r /\ val build c = v) /\
  (forall l vs r, scan_elements build scan_atom fuel l = Ok (vs, r) -> elements_read l vs r) /\
  (forall l kvs r, scan_members build scan_atom fuel l = Ok (kvs, r) -> members_read l kvs r).
Proof.
  induction fuel as [|fuel (IHv & IHe & IHm)]; [by repeat split|]. repeat split; intros l.
  - intros v r. cbn [scan]. destruct l as [|c l1]; [done|]. destruct (c =? 34) eqn:E1.
    { apply Z.eqb_eq in E1 as ->. intros ([t r'] & Ht & [= <- <-])%rbind_Ok. apply scan_string_sound in Ht as (b & ts & -> & Hb & Hj).
      exists (CStr (34 :: b) t). split; [by exists b, ts|done]. }
    destruct (c =? 123) eqn:E2.
    { apply Z.eqb_eq in E2 as ->. destruct (skip_ws l1) as [|d r'] eqn:Es; [done|]. apply skip_ws_cons in Es as (w & Hw & ->).
      destruct (d =? 125) eqn:Ed; [apply Z.eqb_eq in Ed as ->; intros [= <- <-]; exists (CObj w MNil); split; [done|]; split; [cbn; by rewrite <- app_assoc|done]|].
      intros ([kvs r2] & Hm & [= <- <-])%rbind_Ok. apply IHm in Hm as (ms & Hms & _ & E & <-). rewrite E.
      exists (CObj w ms). split; [done|]. split; [|done]. cbn [flat]. by rewrite <- !app_assoc. }
    destruct (c =? 91) eqn:E3.
    { apply Z.eqb_eq in E3 as ->. destruct (skip_ws l1) as [|d r'] eqn:Es; [done|]. apply skip_ws_cons in Es as (w & Hw & ->).
      destruct (d =? 93) eqn:Ed; [apply Z.eqb_eq in Ed as ->; intros [= <- <-]; exists (CArr w ENil); split; [done|]; split; [cbn; by rewrite <- app_assoc|done]|].
      intros ([vs r2] & Hm & [= <- <-])%rbind_Ok. apply IHe in Hm as (es & Hes & _ & E & <-). rewrite E.
      exists (CArr w es). split; [done|]. split; [|done]. cbn [flat]. by rewrite <- !app_assoc. }
    intros (lex & -> & Ha)%scan_atom_sound. by exists (CAtom lex v).
  - intros vs r. cbn [scan_elements]. intros ([v l1] & Hv & H)%rbind_Ok. apply IHv in Hv as (c & Hc & -> & <-).
    destruct (skip_ws l1) as [|d l2] eqn:Es; [done|]. apply skip_ws_cons in Es as (w & Hw & ->).
    destruct (d =? 93) eqn:E1; [apply Z.eqb_eq in E1 as ->; injection H as <- <-|].
    { exists (ECons [] c w ENil). cbn. rewrite app_nil_r, <- app_assoc. done. }
    destruct (d =? 44) eqn:E2; [|done]. apply Z.eqb_eq in E2 as ->. apply rbind_Ok in H as ([vs' r'] & He & [= <- <-]).
    destruct (skip_ws_split l2) as (w2 & Hw2 & E). apply IHe, (elements_after w2) in He; [|done]. rewrite <- E in He.
    destruct He as (es & Hes & Hne & -> & <-). exists (ECons [] c w es). cbn [wf_elems flat_elems elem_vals]. split; [done|].
    split; [done|]. split; [|done]. destruct es; [done|]. cbn [app]. by rewrite <- !app_assoc.
  - intros kvs r. cbn [scan_members]. destruct l as [|q l1]; [done|]. destruct (negb (q =? 34)) eqn:Eq; [done|].
    apply negb_false_iff, Z.eqb_eq in Eq as ->. intros ([k l2] & Hk & H)%rbind_Ok. apply scan_string_sound in Hk as (b & ts & -> & Hb & Hj).
    destruct (skip_ws l2) as [|x l3] eqn:Es; [done|]. apply skip_ws_cons in Es as (w1 & Hw1 & ->).
    destruct (negb (x =? 58)) eqn:Ex; [done|]. apply negb_false_iff, Z.eqb_eq in Ex as ->.
    apply rbind_Ok in H as ([v l4] & Hv & H). apply IHv in Hv as (c & Hc & E3 & <-).
    destruct (skip_ws_split l3) as (w2 & Hw2 & E3'). rewrite E3 in E3'. subst l3.
    destruct (skip_ws l4) as [|d l5] eqn:Es; [done|]. apply skip_ws_cons in Es as (w3 & Hw3 & ->).
    set (key := {| lead := []; literal := 34 :: b; name := k; before_colon := w1; after_colon := w2 |}).
    assert (wf_key key) as Hkey by (repeat split; try done; by exists b, ts).
    destruct (d =? 125) eqn:E1; [apply Z.eqb_eq in E1 as ->; injection H as <- <-|].
    { exists (MCons key c w3 MNil). split; [done|]. split; [done|]. split; [|done]. cbn. by rewrite app_nil_r, <- !app_assoc. }
    destruct (d =? 44) eqn:E2; [|done]. apply Z.eqb_eq in E2 as ->. apply rbind_Ok in H as ([kvs' r'] & He & [= <- <-]).
    destruct (skip_ws_split l5) as (w4 & Hw4 & E). apply IHm, (members_after w4) in He; [|done]. rewrite <- E in He.
    destruct He as (ms & Hms & Hne & -> & <-). exists (MCons key c w3 ms). split; [done|]. split; [done|]. split; [|done].
    cbn [flat_members]. destruct ms; [done|]. unfold flat_key. cbn [lead literal before_colon after_colon key app]. by rewrite <- !app_assoc.
Qed.

(** ** The scanner reads the text of every tree *)
Lemma white_head_ends w c r : white w -> numberish c = false -> ends (w ++ c :: r).
Proof. intros Hw Hc. by apply white_ends. Qed.

Ltac skip_white := repeat (rewrite skip_ws_white by done).

Lemma scan_complete :
  (forall c, wf c -> forall fuel r, (2 * length (flat c) < fuel)%nat -> ends r -> scan build scan_atom fuel (flat c ++ r) = Ok (val build c, r)) /\
  (forall es, wf_elems es -> es <> ENil -> forall fuel r, (2 * length (flat_elems es) + 1 < fuel)%nat ->
    scan_elements build scan_atom fuel (skip_ws (flat_elems es ++ 93 :: r)) = Ok (elem_vals build es, r)) /\
  (forall ms, wf_members ms -> ms <> MNil -> forall fuel r, (2 * length (flat_members ms) + 1 < fuel)%nat ->
    scan_members build scan_atom fuel (skip_ws (flat_members ms ++ 125 :: r)) = Ok (member_vals build ms, r)).
Proof.
  apply cst_elems_members.
  - intros lit t (b & ts & -> & Hb & <-) fuel r Hf Hr. destruct fuel; [lia|]. cbn [flat scan app]. change (34 =? 34) with true. cbv iota.
    by rewrite (scan_string_body _ _ r Hb).
  - intros lex v Ha fuel r Hf Hr. destruct fuel; [lia|]. cbn [flat]. pose proof (scan_atom_app _ _ _ Ha Hr) as E.
    destruct (atom_head _ _ Ha) as (x & l & -> & Hx). unfold opens in Hx. cbn [app scan] in *. bool_to_prop.
    rewrite !(proj2 (Z.eqb_neq _ _)) by done. done.
  - intros gap es IH [Hg Hes] fuel r Hf Hr. destruct fuel; [lia|]. cbn [flat scan app]. cbn [flat app length] in Hf.
    change (91 =? 34) with false. change (91 =? 123) with false. change (91 =? 91) with true. cbv iota.
    rewrite <- app_assoc, skip_ws_white by done. rewrite !length_app in Hf. destruct es as [|b c a es]; [done|].
    rewrite <- app_assoc. cbn [app].
    assert (exists d l, skip_ws (flat_elems (ECons b c a es) ++ 93 :: r) = d :: l /\ (d =? 93) = false) as (d & l & E & Hd).
    { destruct Hes as (Hb & Hc & _). cbn [flat_elems]. rewrite <- !app_assoc, skip_ws_white, flat_head_skip by done.
      destruct (flat_head c Hc) as (x & l & -> & _ & Hx & _). eexists x, _. split; [reflexivity|]. by apply Z.eqb_neq. }
    rewrite E, Hd, <- E, IH by (done || cbn [length] in Hf; lia). done.
  - intros gap ms IH [Hg Hms] fuel r Hf Hr. destruct fuel; [lia|]. cbn [flat scan app]. cbn [flat app length] in Hf.
    change (123 =? 34) with false. change (123 =? 123) with true. cbv iota.
    rewrite <- app_assoc, skip_ws_white by done. rewrite !length_app in Hf. destruct ms as [|k c a ms]; [done|].
    rewrite <- app_assoc. cbn [app].
    assert (exists l, skip_ws (flat_members (MCons k c a ms) ++ 125 :: r) = 34 :: l) as (l & E).
    { destruct Hms as ((Hl & (b & ts & El & _) & _) & _). cbn [flat_members]. unfold flat_key.
      rewrite <- !app_assoc, skip_ws_white, El by done. by eexists. }
    rewrite E. change (34 =? 125) with false. cbv iota. rewrite <- E, IH by (done || cbn [length] in Hf; lia). done.
  - done.
  - intros b c IHc a es IHe (Hb & Hc & Ha & Hes) _ fuel r Hf. destruct fuel; [lia|]. cbn [flat_elems scan_elements] in *.
    rewrite !length_app in Hf. destruct (flat_head c Hc) as (x & l & Ex & _). assert (1 <= length (flat c))%nat by (rewrite Ex; cbn; lia).
    rewrite <- !app_assoc, skip_ws_white, flat_head_skip by done. rewrite IHc; [|done|lia|destruct es; by apply white_head_ends].
    cbn [rbind]. rewrite skip_ws_white by done. destruct es as [|b2 c2 a2 es].
    + done.
    + cbn [app]. rewrite skip_ws_head by done. change (44 =? 93) with false. change (44 =? 44) with true. cbv iota.
      rewrite IHe; [done|done|done|]. cbn [app length] in Hf. lia.
  - done.
  - intros k c IHc a ms IHm ((Hl & (b & ts & El & Hb & Hn) & Hbc & Hac) & Hc & Ha & Hms) _ fuel r Hf. destruct fuel; [lia|].
    cbn [flat_members scan_members] in *. unfold flat_key in *. rewrite !length_app in Hf.
    destruct (flat_head c Hc) as (x & l & Ex & _). assert (1 <= length (flat c))%nat by (rewrite Ex; cbn; lia).
    rewrite <- !app_assoc, skip_ws_white, El by done. cbn [app]. rewrite skip_ws_head by done. change (34 =? 34) with true. cbn [negb].
    rewrite (scan_string_body _ _ _ Hb). cbn [rbind]. rewrite skip_ws_white by done. rewrite skip_ws_head by done.
    change (58 =? 58) with true. cbn [negb]. rewrite skip_ws_white, flat_head_skip by done.
    rewrite IHc; [|done|rewrite El in Hf; cbn [length] in Hf; lia|destruct ms; by apply white_head_ends].
    cbn [rbind]. rewrite skip_ws_white, Hn by done. destruct ms as [|k2 c2 a2 ms].
    + done.
    + cbn [app]. rewrite skip_ws_head by done. change (44 =? 125) with false. change (44 =? 44) with true. cbv iota.
      rewrite IHm; [done|done|done|]. rewrite El in Hf. cbn [app length] in Hf. lia.
Qed.
End Scanner.

(** ** Documents *)
(** A document is a value between white space. *)
Definition document (w1 : text) (c : cst) (w2 : text) : text := w1 ++ flat c ++ w2.

Lemma decode_sound build l v : decode build scan_atom l = Ok v ->
  exists w1 c w2, white w1 /\ wf c /\ white w2 /\ l = document w1 c w2 /\ val build c = v.
Proof.
  unfold decode. destruct (bool_decide _); [done|]. intros ([v' r] & Hv & H)%rbind_Ok.
  destruct (skip_ws r) eqn:Er; [|done]. injection H as ->. apply scan_sound in Hv as (c & Hc & E & <-).
  destruct (skip_ws_split l) as (w & Hw & El). rewrite El, E. exists w, c, r. by apply skip_ws_nil in Er.
Qed.

Lemma decode_document build w1 c w2 : white w1 -> wf c -> white w2 -> decode build scan_atom (document w1 c w2) = Ok (val build c).
Proof.
  intros H1 Hc H2. unfold decode, document. destruct (flat_head c Hc) as (x & l & Ex & Hx & _ & _ & Hs).
  rewrite bool_decide_eq_false_2.
  - rewrite skip_ws_white, flat_head_skip by done. rewrite (proj1 (scan_complete build)); [|done| |].
    + cbn [rbind]. by rewrite skip_ws_end.
    + rewrite !length_app. lia.
    + destruct w2; [done|]. rewrite <- (app_nil_r (_ :: _)). by apply white_ends.
  - destruct H1 as [|c0 w Hc0 _].
    + rewrite Ex. intros [= E]. lia.
    + intros [= E]. subst. done.
Qed.

(** The scanner runs out of neither fuel nor anything else but the text. *)
Section NotStuck.
Context (build : list (text * value) -> value) (atom : text -> result DecodeError (value * text))
  (Hatom : forall l, atom l <> Raise Stuck) (Hshort : forall l v r, atom l = Ok (v, r) -> (length r < length l)%nat).

Lemma lex_not_stuck l : lex_string l <> Raise Stuck.
Proof.
  induction l as [l IH] using (induction_ltof1 _ (@length Z)); unfold ltof in IH.
  assert (forall t l', (length l' < length l)%nat ->
    (let? (ts, r) := lex_string l' in Ok (t :: ts, r)) <> Raise (A := list token * text) Stuck) as Hrec.
  { intros t l' Hl. specialize (IH l' Hl). by destruct (lex_string l') as [[]|[]]. }
  destruct l as [|c l1]; cbn [lex_string]; [done|]. destruct (c =? 34); [done|]. destruct (c =? 92).
  - destruct l1 as [|e l2]; [done|]. destruct (e =? 117).
    + destruct l2 as [|h1 [|h2 [|h3 [|h4 [|x l3]]]]]; try done. destruct (hex4_of h1 h2 h3 h4); [|done].
      apply Hrec. cbn; lia.
    + destruct (short_of e); [|done]. apply Hrec. cbn; lia.
  - destruct (c <? 32); [done|]. apply Hrec. cbn; lia.
Qed.

Lemma scan_string_not_stuck l : scan_string l <> Raise Stuck.
Proof. unfold scan_string. pose proof (lex_not_stuck l). by destruct (lex_string l) as [[]|[]]. Qed.

Lemma scan_string_shorter l t r : scan_string l = Ok (t, r) -> (length r < length l)%nat.
Proof.
  intros (b & ts & -> & Hb & _)%scan_string_sound. rewrite length_app. pose proof (body_nonempty _ _ Hb). destruct b; [done|cbn; lia].
Qed.

Lemma skip_ws_shorter l d r : skip_ws l = d :: r -> (S (length r) <= length l)%nat.
Proof. intros E. pose proof (skip_ws_length l) as H. by rewrite E in H. Qed.

Lemma scan_shorter_all fuel :
  (forall l v r, scan build atom fuel l = Ok (v, r) -> (length r < length l)%nat) /\
  (forall l vs r, scan_elements build atom fuel l = Ok (vs, r) -> (length r < length l)%nat) /\
  (forall l kvs r, scan_members build atom fuel l = Ok (kvs, r) -> (length r < length l)%nat).
Proof.
  induction fuel as [|fuel (IHv & IHe & IHm)]; [done|]. repeat split; intros l.
  - intros v r. cbn [scan]. destruct l as [|c l1]; [done|]. cbn [length]. destruct (c =? 34).
    { intros ([t r'] & H%scan_string_shorter & [= _ <-])%rbind_Ok. lia. }
    destruct (c =? 123); [|destruct (c =? 91); [|by apply Hshort]].
    + destruct (skip_ws l1) as [|d r'] eqn:E; [done|]. apply skip_ws_shorter in E.
      destruct (d =? 125); [intros [= _ <-]; lia|]. intros ([kvs r''] & H%IHm & [= _ <-])%rbind_Ok. cbn in H. lia.
    + destruct (skip_ws l1) as [|d r'] eqn:E; [done|]. apply skip_ws_shorter in E.
      destruct (d =? 93); [intros [= _ <-]; lia|]. intros ([kvs r''] & H%IHe & [= _ <-])%rbind_Ok. cbn in H. lia.
  - intros vs r. cbn [scan_elements]. intros ([v l1] & Hv%IHv & H)%rbind_Ok. destruct (skip_ws l1) as [|d l2] eqn:E; [done|]. apply skip_ws_shorter in E.
    destruct (d =? 93); [injection H as _ <-; lia|]. destruct (d =? 44); [|done]. pose proof (skip_ws_length l2).
    apply rbind_Ok in H as ([vs' r'] & H%IHe & [= _ <-]). lia.
  - intros kvs r. cbn [scan_members]. destruct l as [|q l1]; [done|]. cbn [length]. destruct (negb (q =? 34)); [done|].
    intros ([k l2] & Hk%scan_string_shorter & H)%rbind_Ok. destruct (skip_ws l2) as [|x l3] eqn:E1; [done|]. apply skip_ws_shorter in E1.
    destruct (negb (x =? 58)); [done|]. pose proof (skip_ws_length l3). apply rbind_Ok in H as ([v l4] & Hv%IHv & H).
    destruct (skip_ws l4) as [|d l5] eqn:E2; [done|]. apply skip_ws_shorter in E2. destruct (d =? 125); [injection H as _ <-; lia|].
    destruct (d =? 44); [|done]. pose proof (skip_ws_length l5). apply rbind_Ok in H as ([kvs' r'] & H%IHm & [= _ <-]). lia.
Qed.

Lemma scan_shorter fuel l v r : scan build atom fuel l = Ok (v, r) -> (length r < length l)%nat.
Proof. apply scan_shorter_all. Qed.

Lemma scan_not_stuck fuel :
  (forall l, (2 * length l < fuel)%nat -> scan build atom fuel l <> Raise Stuck) /\
  (forall l, (2 * length l + 1 < fuel)%nat -> scan_elements build atom fuel l <> Raise Stuck) /\
  (forall l, (2 * length l + 1 < fuel)%nat -> scan_members build atom fuel l <> Raise Stuck).
Proof.
  induction fuel as [|fuel (IHv & IHe & IHm)]; [repeat split; intros; lia|]. repeat split; intros l Hf.
  - cbn [scan]. destruct l as [|c l1]; [done|]. cbn [length] in Hf. destruct (c =? 34).
    { apply rbind_not; [apply scan_string_not_stuck|by intros []]. }
    destruct (c =? 123); [|destruct (c =? 91); [|apply Hatom]].
    + destruct (skip_ws l1) as [|d r] eqn:E; [done|]. apply skip_ws_shorter in E. destruct (d =? 125); [done|].
      apply rbind_not; [apply IHm; cbn [length]; lia|by intros []].
    + destruct (skip_ws l1) as [|d r] eqn:E; [done|]. apply skip_ws_shorter in E. destruct (d =? 93); [done|].
      apply rbind_not; [apply IHe; cbn [length]; lia|by intros []].
  - cbn [scan_elements]. apply rbind_not_at; [apply IHv; lia|]. intros [v l1] Hv. apply scan_shorter in Hv.
    destruct (skip_ws l1) as [|d l2] eqn:E; [done|]. apply skip_ws_shorter in E.
    destruct (d =? 93); [done|]. destruct (d =? 44); [|done]. pose proof (skip_ws_length l2). apply rbind_not; [apply IHe; lia|by intros []].
  - cbn [scan_members]. destruct l as [|q l1]; [done|]. cbn [length] in Hf. destruct (negb (q =? 34)); [done|].
    apply rbind_not_at; [apply scan_string_not_stuck|]. intros [k l2] Ek%scan_string_shorter.
    destruct (skip_ws l2) as [|x l3] eqn:E1; [done|]. apply skip_ws_shorter in E1.
    destruct (negb (x =? 58)); [done|]. pose proof (skip_ws_length l3). apply rbind_not_at; [apply IHv; lia|]. intros [v l4] Ev%scan_shorter.
    destruct (skip_ws l4) as [|d l5] eqn:E2; [done|]. apply skip_ws_shorter in E2. destruct (d =? 125); [done|].
    destruct (d =? 44); [|done]. pose proof (skip_ws_length l5). apply rbind_not; [apply IHm; lia|by intros []].
Qed.

Lemma decode_not_stuck l : decode build atom l <> Raise Stuck.
Proof.
  unfold decode. destruct (bool_decide _); [done|]. pose proof (skip_ws_length l).
  pose proof (proj1 (scan_not_stuck (S (2 * length l))) (skip_ws l) ltac:(lia)) as Hs.
  destruct (scan build atom _ _) as [[v r]|[]]; try done. cbn [rbind]. by destruct (skip_ws r).
Qed.
End NotStuck.

Lemma scan_atom_not_stuck l : scan_atom l <> Raise Stuck.
Proof.
  unfold scan_atom. destruct (scan_constant l); [done|]. destruct (scan_number l) as [[n r]|]; [|done].
  unfold number_value. destruct (fraction n), (exponent n); try done. by destruct (_ <? _)%nat.
Qed.

(** ** Distinct keys *)
(** Where no object repeats a key, keeping the last member is keeping them all. *)
Lemma last_wins_distinct kvs : NoDup (dkeys kvs) -> last_wins kvs = VDict kvs.
Proof. intros H. unfold last_wins. by rewrite dmerge_app. Qed.

Lemma same_values :
  (forall c, wf_value (val VDict c) -> val last_wins c = val VDict c) /\
  (forall es, fold_right (fun v P => wf_value v /\ P) True (elem_vals VDict es) -> elem_vals last_wins es = elem_vals VDict es) /\
  (forall ms, fold_right (fun kv P => wf_value kv.2 /\ P) True (member_vals VDict ms) -> member_vals last_wins ms = member_vals VDict ms).
Proof.
  apply cst_elems_members; cbn; try done.
  - intros _ es IH H. by rewrite IH.
  - intros _ ms IH [Hk H]. rewrite IH by done. by apply last_wins_distinct.
  - intros b c IHc a es IHe [Hc Hes]. by rewrite IHc, IHe.
  - intros k c IHc a ms IHm [Hc Hms]. by rewrite IHc, IHm.
Qed.
