(* ===== verification/JsonEdit.v ===== *)
(** * The JSON editor of the installer

    Models [install/jsonedit.py]: one key of a JSON or JSONC document is set or removed in place.  The
    comments are masked by spaces, so that indexes of the masked copy are indexes of the original; the
    structure is located on the copy and the splice applied to the original.  Indexes are [nat]. *)
From S2P Require Import Prelude Json PyStrings JsonText.
Open Scope Z_scope.

Inductive Failure :=
| ConfigParseError (msg : text)
| ConfigShapeError (msg : text)
| IndexError
| Uncaught (e : DecodeError).

Definition parse_error {A} (msg : string) : result Failure A := Raise (ConfigParseError (u msg)).
Definition shape_error {A} (msg : text) : result Failure A := Raise (ConfigShapeError msg).

(** ** Comments *)
(** The characters of a literal after its opening quote, its closing quote included. *)
Fixpoint close_quote (l : text) : option nat :=
  match l with
  | [] => None
  | c :: l1 =>
    if c =? 92 then match l1 with [] => None | _ :: l2 => (fun n => S (S n)) <$> close_quote l2 end
    else if c =? 34 then Some 1%nat
    else S <$> close_quote l1
  end.

(** A comment to the end of its line, and the rest. *)
Fixpoint line_comment (l : text) : text * text :=
  match l with
  | c :: l' => if c =? 10 then ([], l) else let (m, r) := line_comment l' in (32 :: m, r)
  | [] => ([], [])
  end.

(** A block comment after its opening, masked, its closing included, and the rest. *)
Fixpoint block_comment (l : text) : option (text * text) :=
  match l with
  | c :: l1 =>
    match l1 with
    | d :: l2 =>
      if (c =? 42) && (d =? 47) then Some ([32; 32], l2)
      else (fun mr => ((if c =? 10 then 10 else 32) :: mr.1, mr.2)) <$> block_comment l1
    | [] => None
    end
  | [] => None
  end.

Fixpoint mask_from (fuel : nat) (l : text) : result Failure text :=
  match fuel with
  | O => Raise (Uncaught Stuck)
  | S fuel =>
    match l with
    | [] => Ok []
    | c :: l1 =>
      if c =? 34 then
        match close_quote l1 with
        | None => parse_error "unterminated string"
        | Some n => let? r := mask_from fuel (drop n l1) in Ok (c :: take n l1 ++ r)
        end
      else if (c =? 47) && bool_decide (head l1 = Some 47) then
        let (m, rest) := line_comment l in let? r := mask_from fuel rest in Ok (m ++ r)
      else if (c =? 47) && bool_decide (head l1 = Some 42) then
        match block_comment (drop 1 l1) with
        | None => parse_error "unterminated block comment"
        | Some (m, rest) => let? r := mask_from fuel rest in Ok ([32; 32] ++ m ++ r)
        end
      else let? r := mask_from fuel l1 in Ok (c :: r)
    end
  end.

Definition mask_comments (t : text) : result Failure text := mask_from (S (length t)) t.

Definition decoded {A} (r : result DecodeError A) : result Failure A :=
  match r with
  | Ok v => Ok v
  | Raise (JSONDecodeError msg) => Raise (ConfigParseError msg)
  | Raise e => Raise (Uncaught e)
  end.

Definition blank (t : text) : bool := bool_decide (strip t = []).

Definition loads (t : text) : result Failure value :=
  if blank t then Ok (VDict []) else let? m := mask_comments t in decoded (json_loads m).

Definition has_comments (t : text) : result Failure bool := let? m := mask_comments t in Ok (negb (bool_decide (m = t))).

Definition is_blank (c : Z) : bool := (c =? 32) || (c =? 9).
Fixpoint take_while (p : Z -> bool) (l : text) : text :=
  match l with c :: l' => if p c then c :: take_while p l' else [] | [] => [] end.

(** [_INDENT.search]: the blanks of the first indented line that is not blank. *)
Fixpoint first_indent (t : text) : option text :=
  match t with
  | c :: t' =>
    let b := take_while is_blank t' in
    if (c =? 10) && negb (bool_decide (b = []))
       && match drop (length b) t' with d :: _ => negb (is_space d) | [] => false end
    then Some b else first_indent t'
  | [] => None
  end.

Definition detect_indent (t : text) : option text :=
  if negb (mem 10 t) then None else Some (or_else (first_indent t) (u "  ")).

(** ** Shape *)
Definition or_top (t : text) : text := if bool_decide (t = []) then u "top level" else t.
Definition not_an_object {A} (where_ : text) : result Failure A := shape_error (where_ ++ u " is not an object").

(** The object at the end of [keys]; [None] where a key is missing on the way. *)
Fixpoint walk_objects (walked : list text) (current : value) (keys : list text) : result Failure (option value) :=
  match keys with
  | [] => Ok (Some current)
  | key :: keys' =>
    if bool_decide (walked = []) && match current with VDict [] => true | _ => false end then Ok None
    else
      match is_json_object current with
      | None => not_an_object (or_top (join (u ".") walked))
      | Some d =>
        match dget key d with
        | None => Ok None
        | Some v => walk_objects (walked ++ [key]) v keys'
        end
      end
  end.

Definition require_object (v : value) (path : list text) : result Failure unit :=
  let? found := walk_objects [] v (removelast path) in
  match found with
  | None => Ok tt
  | Some current => if is_none (is_json_object current) then not_an_object (or_top (join (u ".") (removelast path))) else Ok tt
  end.

Definition nest (keys : list text) (v : value) : value := fold_right (fun key built => VDict [(key, built)]) v keys.

(** ** Spans *)
Inductive Located :=
| Found (value_start value_end key_start : nat)
| Missing (parent_start parent_end : nat) (remaining : list text).

Definition skip (t : text) (i : nat) : nat := (i + (length (drop i t) - length (skip_ws (drop i t))))%nat.
Definition skip_inline (t : text) (i : nat) : nat := (i + length (take_while is_blank (drop i t)))%nat.
Definition at_char (t : text) (i : nat) (c : Z) : bool := bool_decide (t !! i = Some c).

Definition end_of_string (t : text) (i : nat) : result Failure nat :=
  if negb (at_char t i 34) then parse_error "expected a string"
  else match close_quote (drop (S i) t) with Some n => Ok (S i + n)%nat | None => parse_error "unterminated string" end.

Definition slice (t : text) (i j : nat) : text := take (j - i) (drop i t).

Definition string_span (masked : text) (i : nat) : result Failure (text * nat * nat) :=
  let? stop := end_of_string masked i in
  let? loaded := decoded (json_loads (slice masked i stop)) in
  match loaded with VStr t => Ok (t, i, stop) | _ => parse_error "expected a string" end.

Definition starts_number (c : Z) : bool := (c =? 45) || is_digit c.
Definition number_char (c : Z) : bool := is_digit c || (c =? 46) || (c =? 101) || (c =? 69) || (c =? 43) || (c =? 45).
Definition literals : list text := [u "true"; u "false"; u "null"].

Fixpoint value_span (fuel : nat) (masked : text) (i : nat) : result Failure (nat * nat) :=
  match fuel with
  | O => Raise (Uncaught Stuck)
  | S fuel =>
    let i := skip masked i in
    match masked !! i with
    | None => parse_error "truncated value"
    | Some c =>
      if c =? 34 then let? s := string_span masked i in Ok (s.1.2, s.2)
      else if (c =? 123) || (c =? 91) then container_from fuel masked i (c =? 123) (S i)
      else if starts_number c then Ok (i, S i + length (take_while number_char (drop (S i) masked)))%nat
      else
        match List.find (fun literal => starts_with literal (drop i masked)) literals with
        | Some literal => Ok (i, i + length literal)%nat
        | None => parse_error "unknown value"
        end
    end
  end
with container_from (fuel : nat) (masked : text) (i : nat) (object : bool) (cursor : nat) : result Failure (nat * nat) :=
  match fuel with
  | O => Raise (Uncaught Stuck)
  | S fuel =>
    let closer := if object then 125 else 93 in
    let cursor := skip masked cursor in
    if (length masked <=? cursor)%nat then parse_error "truncated container"
    else if at_char masked cursor closer then Ok (i, S cursor)
    else
      let? cursor :=
        if object then
          if negb (at_char masked cursor 34) then parse_error "expected a key"
          else
            let? s := string_span masked cursor in
            let cursor := skip masked s.2 in
            if negb (at_char masked cursor 58) then parse_error "expected ':'" else Ok (S cursor)
        else Ok cursor in
      let? s := value_span fuel masked cursor in
      let cursor := skip masked s.2 in
      if at_char masked cursor 44 then container_from fuel masked i object (S cursor)
      else if at_char masked cursor closer then Ok (i, S cursor)
      else parse_error "expected ',' or a closer"
  end.

(** Recursion of [value_span] and the turns of [container_from] take a character each, but for one call
    of the former at the character of the latter. *)
Definition span_fuel (masked : text) : nat := S (S (2 * length masked)).

Record Item := { item_key : text; key_start : nat; key_end : nat; value_start : nat; value_end : nat }.

(** Inside the span of an object: [text[i]] with the bound of the object. *)
Definition inside_char (masked : text) (stop i : nat) (c : Z) : bool := (i <? stop)%nat && at_char masked i c.

Fixpoint object_items (fuel : nat) (masked : text) (stop i : nat) : result Failure (list Item) :=
  match fuel with
  | O => Raise (Uncaught Stuck)
  | S fuel =>
    let i := skip masked i in
    if (stop <=? i)%nat || at_char masked i 125 then Ok []
    else if negb (at_char masked i 34) then parse_error "expected a key"
    else
      let? s := string_span masked i in
      let colon := skip masked s.2 in
      if negb (inside_char masked stop colon 58) then parse_error "expected ':'"
      else
        let? v := value_span (span_fuel masked) masked (S colon) in
        let item := {| item_key := s.1.1; key_start := s.1.2; key_end := s.2; value_start := v.1; value_end := v.2 |} in
        let next := skip masked v.2 in
        if inside_char masked stop next 44 then let? items := object_items fuel masked stop (S next) in Ok (item :: items)
        else if inside_char masked stop next 125 then Ok [item]
        else parse_error "expected ',' or '}'"
  end.

Fixpoint locate_in (masked : text) (start stop : nat) (path : list text) : result Failure Located :=
  let? items := object_items (S (length masked)) masked stop (S start) in
  match path with
  | [] => Raise IndexError
  | key :: path' =>
    match List.find (fun item => bool_decide (item_key item = key)) items with
    | None => Ok (Missing start stop path)
    | Some item =>
      match path' with
      | [] => Ok (Found (value_start item) (value_end item) (key_start item))
      | _ =>
        match masked !! skip masked (value_start item) with
        | None => Raise IndexError
        | Some c =>
          if negb (c =? 123) then not_an_object key else locate_in masked (value_start item) (value_end item) path'
        end
      end
    end
  end.

Definition locate (masked : text) (path : list text) : result Failure Located :=
  let i := skip masked 0 in
  if negb (at_char masked i 123) then not_an_object (u "top level")
  else let? s := value_span (span_fuel masked) masked i in locate_in masked s.1 s.2 path.

(** ** Rendering *)
Definition render (v : value) (indent : option text) : text := json_dumps indent v.

(** [_place]: the lines after the first are padded. *)
Definition place (rendered pad : text) : text :=
  match split_char 10 rendered with
  | first :: lines => join [10] (first :: ((fun line => pad ++ line) <$> lines))
  | [] => []
  end.

Definition not_newline (c : Z) : bool := negb (c =? 10).
(** One past the newline before index [i], or the start of the text. *)
Definition line_start (t : text) (i : nat) : nat :=
  (length (take i t) - length (take_while not_newline (rev (take i t))))%nat.

Definition line_indent (t : text) (i : nat) : text := take_while is_blank (drop (line_start t i) t).
Definition child_indent (t : text) (parent_start : nat) (indent : option text) : text :=
  line_indent t parent_start ++ or_else indent [].

(** ** Splices *)
Definition is_ws_at (t : text) (i : nat) : bool := match t !! i with Some c => is_ws c | None => false end.

(** The last index at or before [i], above [low], that is not white space; else [low]. *)
Fixpoint back_to (t : text) (low i : nat) : nat :=
  match i with
  | O => O
  | S i' => if (low <? i)%nat && is_ws_at t i then back_to t low i' else i
  end.

Definition insert (t masked : text) (parent_start parent_end : nat) (property_text child_pad : text) (indent : option text) : text :=
  let close := (parent_end - 1)%nat in
  let inner := slice t (S parent_start) close in
  let parent_pad := line_indent t parent_start in
  if blank (slice masked (S parent_start) close) then
    let body :=
      match indent with
      | None => u "{" ++ property_text ++ u "}"
      | Some _ =>
        if blank inner then u "{" ++ [10] ++ child_pad ++ property_text ++ [10] ++ parent_pad ++ u "}"
        else u "{" ++ rstrip inner ++ [10] ++ child_pad ++ property_text ++ [10] ++ parent_pad ++ u "}"
      end in
    take parent_start t ++ body ++ drop parent_end t
  else
    let cursor := back_to masked parent_start (close - 1) in
    let comma := if at_char masked cursor 44 then [] else u "," in
    let kept := rstrip (slice t (S cursor) close) in
    let tail := comma ++ kept ++ [10] ++ child_pad ++ property_text ++ [10] ++ parent_pad in
    take (S cursor) t ++ tail ++ drop close t.

(** [_property_line_start]: one past the newline before the key, or the key without one. *)
Definition property_line_start (t : text) (key_start : nat) : nat :=
  if mem 10 (take key_start t) then line_start t key_start else key_start.

(** The length of the text before [i] without its trailing white space. *)
Definition trimmed (masked : text) (i : nat) : nat := length (skip_ws (rev (take i masked))).

Definition remove_property (original masked : text) (value_end key_start : nat) : text :=
  let cursor := skip_inline masked value_end in
  if at_char masked cursor 44 then take (property_line_start original key_start) original ++ drop (S cursor) original
  else
    let n := trimmed masked key_start in
    let start :=
      if (0 <? n)%nat && at_char masked (n - 1) 44 then (n - 1)%nat else property_line_start original key_start in
    take start original ++ drop value_end original.

Definition finish (original updated : text) : text :=
  if ends_with [10] original && negb (ends_with [10] updated) then updated ++ [10] else updated.

(** ** The two edits *)
Definition assign (t : text) (path : list text) (v : value) : result Failure text :=
  match path with
  | [] => shape_error (u "empty config path")
  | _ =>
    let original := if blank t then u "{}" ++ [10] else t in
    let? masked := mask_comments original in
    let? loaded := loads original in
    let? _ := require_object loaded path in
    let indent := detect_indent original in
    let? located := locate masked path in
    match located with
    | Found value_start value_end _ =>
      let pad := line_indent original value_start in
      let rendered := place (render v indent) pad in
      Ok (finish original (take value_start original ++ rendered ++ drop value_end original))
    | Missing parent_start parent_end remaining =>
      match remaining with
      | [] => Raise IndexError
      | first :: others =>
        let pad := child_indent original parent_start indent in
        let nested := nest others v in
        let body := place (render nested indent) pad in
        Ok (finish original (insert original masked parent_start parent_end (dumps_string first ++ u ": " ++ body) pad indent))
      end
    end
  end.

Definition delete (t : text) (path : list text) : result Failure text :=
  if blank t then Ok t
  else
    let? masked := mask_comments t in
    let? _ := loads t in
    let? located := locate masked path in
    match located with
    | Missing _ _ _ => Ok t
    | Found _ value_end key_start => Ok (finish t (remove_property t masked value_end key_start))
    end.

(** ** Samples *)
Definition lines_of (ls : list text) : text := concat ((fun l => l ++ [10]) <$> ls).
Definition quoted (s : string) : text := dq ++ u s ++ dq.

Definition sample_config : text := lines_of
  [u "{ // servers"; u "  " ++ quoted "a" ++ u ": {"; u "    " ++ quoted "b" ++ u ": [1] /* } */"; u "  }, " ++ quoted "c" ++ u ": null"; u "}"].

Example assign_inserts : assign sample_config [u "a"; u "x"; u "y"] (VInt 7) = Ok (lines_of
  [u "{ // servers"; u "  " ++ quoted "a" ++ u ": {"; u "    " ++ quoted "b" ++ u ": [1], /* } */";
   u "    " ++ quoted "x" ++ u ": {"; u "      " ++ quoted "y" ++ u ": 7"; u "    }"; u "  }, " ++ quoted "c" ++ u ": null"; u "}"]).
Proof. vm_compute. reflexivity. Qed.
Example assign_replaces : assign sample_config [u "a"] (VStr (u "x")) = Ok (lines_of
  [u "{ // servers"; u "  " ++ quoted "a" ++ u ": " ++ quoted "x" ++ u ", " ++ quoted "c" ++ u ": null"; u "}"]).
Proof. vm_compute. reflexivity. Qed.
Example delete_removes : delete sample_config [u "c"] = Ok (lines_of
  [u "{ // servers"; u "  " ++ quoted "a" ++ u ": {"; u "    " ++ quoted "b" ++ u ": [1] /* } */"; u "  }"; u "}"]).
Proof. vm_compute. reflexivity. Qed.
Example delete_takes_the_line :
  delete (lines_of [u "{"; u "  " ++ quoted "m" ++ u ": {" ++ quoted "jev" ++ u ": 1, " ++ quoted "other" ++ u ": 2}"; u "}"]) [u "m"; u "jev"]
  = Ok (lines_of [u "{"; u " " ++ quoted "other" ++ u ": 2}"; u "}"]).
Proof. vm_compute. reflexivity. Qed.
