(* ===== verification/JsonLocate.v ===== *)
(** * Masking comments and locating a key in a document

    What [mask_comments] does to a text, token by token ([lexed]): it composes with what follows a whole
    number of tokens ([lexed_mask]), and a boundary between tokens of the masked copy is one of the text
    ([mask_split]).  Then the spans the editor computes: on the text of a well-formed tree they are
    those of its subtrees, and following a path finds the subtree at it or the deepest object on the
    way. *)
From S2P Require Import Prelude Float64 Json PyStrings JsonText JsonEdit.
Open Scope Z_scope.

(** ** Literals and comments *)
(** [b] is a literal after its opening quote, whole. *)
Definition closed_literal (b : text) : Prop := close_quote b = Some (length b).

Lemma close_quote_bound l : forall n, close_quote l = Some n -> (0 < n <= length l)%nat.
Proof.
  induction l as [l IH] using (induction_ltof1 _ (@length Z)); unfold ltof in IH. intros n.
  destruct l as [|c l1]; cbn [close_quote]; [done|]. destruct (c =? 92).
  - destruct l1 as [|d l2]; [done|]. destruct (close_quote l2) as [k|] eqn:E; [|done]. intros [= <-].
    apply IH in E; cbn [length] in *; lia.
  - destruct (c =? 34); [intros [= <-]; cbn; lia|]. destruct (close_quote l1) as [k|] eqn:E; [|done]. intros [= <-].
    apply IH in E; cbn [length] in *; lia.
Qed.

Lemma close_quote_app l : forall n r, close_quote l = Some n -> close_quote (l ++ r) = Some n.
Proof.
  induction l as [l IH] using (induction_ltof1 _ (@length Z)); unfold ltof in IH. intros n r.
  destruct l as [|c l1]; cbn [close_quote app]; [done|]. destruct (c =? 92).
  - destruct l1 as [|d l2]; [done|]. cbn [app]. destruct (close_quote l2) as [k|] eqn:E; [|done]. intros [= <-].
    rewrite (IH l2) with (n := k); [done|cbn; lia|done].
  - destruct (c =? 34); [done|]. destruct (close_quote l1) as [k|] eqn:E; [|done]. intros [= <-].
    rewrite (IH l1) with (n := k); [done|cbn; lia|done].
Qed.

Lemma close_quote_take l : forall n, close_quote l = Some n -> closed_literal (take n l).
Proof.
  unfold closed_literal. induction l as [l IH] using (induction_ltof1 _ (@length Z)); unfold ltof in IH. intros n.
  destruct l as [|c l1]; cbn [close_quote]; [done|]. destruct (c =? 92) eqn:E92.
  - destruct l1 as [|d l2]; [done|]. destruct (close_quote l2) as [k|] eqn:E; [|done]. intros [= <-].
    cbn [take close_quote length]. rewrite E92, (IH l2) by (cbn; lia || done). done.
  - destruct (c =? 34) eqn:E34; [intros [= <-]; cbn; by rewrite E92, E34|]. destruct (close_quote l1) as [k|] eqn:E; [|done].
    intros [= <-]. cbn [take close_quote length]. rewrite E92, E34, (IH l1) by (cbn; lia || done). done.
Qed.

(** Two whole literals at the start of one text are the same. *)
Lemma closed_unique b b' r r' : closed_literal b -> closed_literal b' -> b ++ r = b' ++ r' -> b = b' /\ r = r'.
Proof.
  intros H H' E. apply app_inj_1; [|done]. apply (close_quote_app _ _ r) in H. apply (close_quote_app _ _ r') in H'. congruence.
Qed.

Lemma body_closed b ts : body b ts -> closed_literal b.
Proof.
  unfold closed_literal. induction 1 as [|c b ts H1 H2 H3 _ IH|e v b ts Hs _ IH|h1 h2 h3 h4 v b ts Hv _ IH].
  - done.
  - cbn. apply Z.eqb_neq in H1, H2. by rewrite H1, H2, IH.
  - cbn. by rewrite IH.
  - assert (forall h, is_Some (hex_of h) -> (h =? 92) = false /\ (h =? 34) = false) as Hh.
    { intros h [x Hx]. unfold hex_of, is_digit in Hx. destruct (h =? 92) eqn:E; [by apply Z.eqb_eq in E as ->|].
      destruct (h =? 34) eqn:E'; [by apply Z.eqb_eq in E' as ->|done]. }
    unfold hex4_of in Hv.
    destruct (hex_of h1) eqn:E1, (hex_of h2) eqn:E2, (hex_of h3) eqn:E3, (hex_of h4) eqn:E4; try done.
    destruct (Hh h1) as [A1 B1]; [by eexists|]. destruct (Hh h2) as [A2 B2]; [by eexists|].
    destruct (Hh h3) as [A3 B3]; [by eexists|]. destruct (Hh h4) as [A4 B4]; [by eexists|].
    cbn. by rewrite A1, B1, A2, B2, A3, B3, A4, B4, IH.
Qed.

Definition masked_char (c : Z) : Z := if c =? 10 then 10 else 32.
Definition masked_block (l : text) : text := masked_char <$> l.

Lemma line_comment_spec l : line_comment l = (repeat 32 (length (take_while not_newline l)), drop (length (take_while not_newline l)) l).
Proof. induction l as [|c l IH]; [done|]. cbn [line_comment take_while].
  assert (not_newline c = negb (c =? 10)) as -> by done. destruct (c =? 10); [done|]. cbn. by rewrite IH.
Qed.

Lemma take_while_split p l : l = take_while p l ++ drop (length (take_while p l)) l.
Proof. induction l as [|c l IH]; [done|]. cbn. destruct (p c); [|done]. cbn. by rewrite <- IH. Qed.
Lemma take_while_all p l : Forall (fun c => p c = true) (take_while p l).
Proof. induction l as [|c l IH]; [constructor|]. cbn. destruct (p c) eqn:E; constructor; done. Qed.
Lemma take_while_stops p l c r : drop (length (take_while p l)) l = c :: r -> p c = false.
Proof. induction l as [|d l IH]; [done|]. cbn. destruct (p d) eqn:E; [apply IH|]. by intros [= <- _]. Qed.
Lemma take_while_app p a r : Forall (fun c => p c = true) a -> take_while p (a ++ r) = a ++ take_while p r.
Proof. induction 1 as [|c a Hc _ IH]; [done|]. cbn. by rewrite Hc, IH. Qed.

(** A block comment after its opening: whole, whatever follows. *)
Definition closed_block (b : text) : Prop := forall r, block_comment (b ++ r) = Some (masked_block b, r).

Lemma block_comment_spec l : forall m r, block_comment l = Some (m, r) ->
  exists b, l = b ++ r /\ m = masked_block b /\ closed_block b /\ ends_with [47] b = true.
Proof.
  induction l as [|c l IH]; [done|]. intros m r. cbn [block_comment]. destruct l as [|d l2]; [done|].
  destruct ((c =? 42) && (d =? 47)) eqn:E.
  - intros [= <- <-]. apply andb_true_iff in E as [->%Z.eqb_eq ->%Z.eqb_eq]. exists [42; 47]. done.
  - destruct (block_comment (d :: l2)) as [[m' r']|] eqn:Eb; [|done]. intros [= <- <-].
    destruct (IH m' r' eq_refl) as (b & Eq & -> & Hb & He). exists (c :: b). split; [by rewrite Eq|]. split; [done|]. split.
    + intros r2. cbn [app block_comment]. destruct b as [|d' b]; [done|]. injection Eq as <- _. cbn [app]. rewrite E.
      change (d :: b ++ r2) with ((d :: b) ++ r2). by rewrite (Hb r2).
    + cbn [ends_with]. by rewrite He, orb_true_r.
Qed.

(** ** One step of the scan *)
Lemma mask_from_fuel fuel : forall fuel' l, (length l < fuel)%nat -> (length l < fuel')%nat -> mask_from fuel l = mask_from fuel' l.
Proof.
  induction fuel as [|fuel IH]; intros fuel' l H H'; [lia|]. destruct fuel' as [|fuel']; [lia|]. cbn [mask_from].
  destruct l as [|c l1]; [done|]. cbn [length] in *. rewrite (IH fuel' l1) by lia. destruct (c =? 34).
  { destruct (close_quote l1) as [n|]; [|done]. rewrite (IH fuel'); [done| |]; rewrite length_drop; lia. }
  destruct ((c =? 47) && bool_decide (head l1 = Some 47)) eqn:E.
  { rewrite line_comment_spec. rewrite (IH fuel'); [done| |]; rewrite length_drop; cbn [take_while];
      apply andb_true_iff in E as [->%Z.eqb_eq _]; change (not_newline 47) with true; cbn [length]; lia. }
  destruct ((c =? 47) && bool_decide (head l1 = Some 42)); [|done].
  destruct (block_comment (drop 1 l1)) as [[m r]|] eqn:Eb; [|done].
  apply block_comment_spec in Eb as (b & Eq & _). rewrite (IH fuel'); [done| |].
  all: apply (f_equal length) in Eq; rewrite length_drop, length_app in Eq; lia.
Qed.

Lemma mask_from_comments fuel l : (length l < fuel)%nat -> mask_from fuel l = mask_comments l.
Proof. intros H. unfold mask_comments. apply mask_from_fuel; lia. Qed.

Definition plain_char (c : Z) : Prop := c <> 34 /\ c <> 47.

Lemma mask_nil : mask_comments [] = Ok [].
Proof. done. Qed.

Lemma mask_char c l : c <> 34 -> (c = 47 -> head l <> Some 47 /\ head l <> Some 42) ->
  mask_comments (c :: l) = (let? r := mask_comments l in Ok (c :: r)).
Proof.
  intros H1 H2. unfold mask_comments at 1. cbn [mask_from]. rewrite (proj2 (Z.eqb_neq _ _) H1), mask_from_comments by (cbn; lia).
  destruct (c =? 47) eqn:E; [|done]. apply Z.eqb_eq in E. destruct (H2 E). by rewrite !bool_decide_eq_false_2.
Qed.

Lemma mask_string b l : closed_literal b -> mask_comments (34 :: b ++ l) = (let? r := mask_comments l in Ok (34 :: b ++ r)).
Proof.
  intros H. unfold mask_comments at 1. cbn [mask_from]. change (34 =? 34) with true. cbv iota. unfold closed_literal in H.
  rewrite (close_quote_app _ _ l H), drop_app_length, take_app_length. rewrite mask_from_comments; [done|]. cbn. rewrite length_app. lia.
Qed.

Lemma mask_line body l : Forall (fun c => not_newline c = true) body -> (forall c r, l = c :: r -> c = 10) ->
  mask_comments (47 :: 47 :: body ++ l) = (let? r := mask_comments l in Ok (32 :: 32 :: repeat 32 (length body) ++ r)).
Proof.
  intros Hb Hl. unfold mask_comments at 1. cbn [mask_from]. change (47 =? 34) with false. change (47 =? 47) with true. cbn [head andb].
  rewrite bool_decide_eq_true_2 by done. rewrite line_comment_spec.
  assert (take_while not_newline (47 :: 47 :: body ++ l) = 47 :: 47 :: body) as E.
  { cbn. f_equal. f_equal. rewrite take_while_app by done. destruct l as [|c r]; [by rewrite app_nil_r|]. rewrite (Hl c r) by done. cbn. by rewrite app_nil_r. }
  rewrite E. cbn [length drop repeat]. rewrite drop_app_length, mask_from_comments; [done|]. cbn. rewrite length_app. lia.
Qed.

Lemma mask_block b l : closed_block b -> mask_comments (47 :: 42 :: b ++ l) = (let? r := mask_comments l in Ok (32 :: 32 :: masked_block b ++ r)).
Proof.
  intros Hb. unfold mask_comments at 1. cbn [mask_from]. change (47 =? 34) with false. change (47 =? 47) with true. cbn [head andb].
  rewrite bool_decide_eq_false_2 by done. rewrite bool_decide_eq_true_2 by done. change (drop 1 (42 :: b ++ l)) with (b ++ l). rewrite (Hb l), mask_from_comments; [done|].
  cbn. rewrite length_app. lia.
Qed.

(** ** Tokens *)
(** [lexed p m]: the text [p] is a whole number of tokens, masked to [m]. *)
Inductive lexed : text -> text -> Prop :=
| L_nil : lexed [] []
| L_char c p m : plain_char c -> lexed p m -> lexed (c :: p) (c :: m)
| L_string b p m : closed_literal b -> lexed p m -> lexed (34 :: b ++ p) (34 :: b ++ m)
| L_line body p m : Forall (fun c => not_newline c = true) body -> lexed p m ->
    lexed (47 :: 47 :: body ++ 10 :: p) (32 :: 32 :: repeat 32 (length body) ++ 10 :: m)
| L_block b p m : closed_block b -> ends_with [47] b = true -> lexed p m -> lexed (47 :: 42 :: b ++ p) (32 :: 32 :: masked_block b ++ m).

(** Tokens other than comments. *)
Inductive plain : text -> Prop :=
| P_nil : plain []
| P_char c p : plain_char c -> plain p -> plain (c :: p)
| P_string b p : closed_literal b -> plain p -> plain (34 :: b ++ p).

Lemma lexed_mask p m q r : lexed p m -> mask_comments q = Ok r -> mask_comments (p ++ q) = Ok (m ++ r).
Proof.
  intros H Hq. induction H as [|c p m [H1 H2] _ IH|b p m Hb _ IH|body p m Hb _ IH|b p m Hb _ _ IH]; cbn [app].
  - done.
  - rewrite mask_char by done. by rewrite IH.
  - rewrite <- app_assoc, mask_string, IH by done. cbn [rbind]. by rewrite <- app_assoc.
  - rewrite <- app_assoc. cbn [app]. rewrite mask_line, mask_char; [|done|done|done|by intros c r0 [= <- _]]. rewrite IH. cbn [rbind].
    by rewrite <- app_assoc.
  - rewrite <- app_assoc, mask_block, IH by done. cbn [rbind]. by rewrite <- app_assoc.
Qed.

Lemma lexed_length p m : lexed p m -> length p = length m.
Proof.
  induction 1; cbn [length]; rewrite ?length_app; cbn [length]; rewrite ?repeat_length, ?length_app; unfold masked_block; rewrite ?length_fmap; cbn [length]; lia.
Qed.

Lemma lexed_app p m q r : lexed p m -> lexed q r -> lexed (p ++ q) (m ++ r).
Proof.
  intros H Hq. induction H; cbn [app]; rewrite <- ?app_assoc; cbn [app]; try done; try by constructor.
Qed.

Lemma plain_app a b : plain a -> plain b -> plain (a ++ b).
Proof. intros H Hb. induction H; cbn [app]; rewrite <- ?app_assoc; try done; by constructor. Qed.

Lemma plain_chars l : Forall plain_char l -> plain l.
Proof. induction 1; by constructor. Qed.

Lemma plain_lexed p : plain p -> lexed p p.
Proof. induction 1; by constructor. Qed.

Lemma plain_mask p q r : plain p -> mask_comments q = Ok r -> mask_comments (p ++ q) = Ok (p ++ r).
Proof. intros H%plain_lexed. by apply lexed_mask. Qed.


Lemma mask_step c l m : mask_comments (c :: l) = Ok m ->
  (exists r, plain_char c /\ mask_comments l = Ok r /\ m = c :: r) \/
  (exists r, c = 47 /\ head l <> Some 47 /\ head l <> Some 42 /\ mask_comments l = Ok r /\ m = c :: r) \/
  (exists b q r, c = 34 /\ l = b ++ q /\ closed_literal b /\ mask_comments q = Ok r /\ m = 34 :: b ++ r) \/
  (exists body q r, c = 47 /\ l = 47 :: body ++ q /\ Forall (fun c => not_newline c = true) body /\ (forall c r, q = c :: r -> c = 10) /\
    mask_comments q = Ok r /\ m = 32 :: 32 :: repeat 32 (length body) ++ r) \/
  (exists b q r, c = 47 /\ l = 42 :: b ++ q /\ closed_block b /\ ends_with [47] b = true /\ mask_comments q = Ok r /\ m = 32 :: 32 :: masked_block b ++ r).
Proof.
  intros H. destruct (decide (c = 34)) as [->|H34].
  - right; right; left. unfold mask_comments in H. cbn [mask_from] in H. change (34 =? 34) with true in H. cbv iota in H.
    destruct (close_quote l) as [n|] eqn:E; [|done]. apply rbind_Ok in H as (r & Hr & [= <-]).
    rewrite mask_from_comments in Hr by (cbn; rewrite length_drop; lia). exists (take n l), (drop n l), r.
    by rewrite take_drop; repeat split; [apply close_quote_take|].
  - destruct (decide (c = 47)) as [->|H47].
    2: { left. rewrite mask_char in H by done. apply rbind_Ok in H as (r & Hr & [= <-]). by exists r. }
    destruct l as [|d l].
    { right; left. rewrite mask_char in H by done. apply rbind_Ok in H as (r & Hr & [= <-]). by exists r. }
    destruct (decide (d = 47)) as [->|Hd47].
    { right; right; right; left. pose proof (take_while_split not_newline l) as El. set (b := take_while not_newline l) in *.
      assert (Forall (fun c => not_newline c = true) b) as Hb by apply take_while_all.
      set (q := drop (length b) l) in *.
      assert (forall c r, q = c :: r -> c = 10) as Hq.
      { intros c r E. apply take_while_stops in E. unfold not_newline in E. lia. }
      rewrite El, mask_line in H by done. apply rbind_Ok in H as (r & Hr & [= <-]). exists b, q, r. by rewrite <- El. }
    destruct (decide (d = 42)) as [->|Hd42].
    { right; right; right; right. unfold mask_comments in H. cbn [mask_from] in H. change (47 =? 34) with false in H. change (47 =? 47) with true in H.
      cbn [head andb] in H. rewrite bool_decide_eq_false_2 in H by done. rewrite bool_decide_eq_true_2 in H by done.
      change (drop 1 (42 :: l)) with l in H. destruct (block_comment l) as [[m' q]|] eqn:Eb; [|done].
      apply block_comment_spec in Eb as (b & -> & -> & Hb & He). apply rbind_Ok in H as (r & Hr & [= <-]).
      rewrite mask_from_comments in Hr by (cbn; rewrite length_app; lia). by exists b, q, r. }
    right; left. assert (head (d :: l) <> Some 47) by (cbn; congruence). assert (head (d :: l) <> Some 42) by (cbn; congruence).
    rewrite mask_char in H by done. apply rbind_Ok in H as (r & Hr & [= <-]). by exists r.
Qed.

(** ** Alignment *)
Lemma text_induction (P : text -> Prop) : (forall l, (forall l', (length l' < length l)%nat -> P l') -> P l) -> forall l, P l.
Proof. intros H l. induction l using (induction_ltof1 _ (@length Z)). by apply H. Qed.

(** Where the copy differs from the text it is white space, and a newline stays one. *)
Definition masks (c m : Z) : Prop := m = c \/ m = 32 /\ c <> 10.

Lemma blanks_mask body : Forall (fun c => not_newline c = true) body -> Forall2 masks body (repeat 32 (length body)).
Proof. induction 1 as [|c l Hc _ IH]; constructor; [right; unfold not_newline in Hc; lia|done]. Qed.
Lemma block_mask b : Forall2 masks b (masked_block b).
Proof. induction b as [|c b IH]; constructor; [|done]. unfold masked_char, masks. destruct (c =? 10) eqn:E; lia. Qed.
Lemma masks_refl l : Forall2 masks l l.
Proof. induction l; constructor; [by left|done]. Qed.

Lemma mask_aligned t m : mask_comments t = Ok m -> Forall2 masks t m.
Proof.
  revert m. induction t as [t IH] using text_induction. intros m. destruct t as [|c l]; [intros [= <-]; constructor|].
  intros [(r & _ & Hr & ->)|[(r & _ & _ & _ & Hr & ->)|[(b & q & r & -> & -> & _ & Hr & ->)|[(body & q & r & -> & -> & Hb & _ & Hr & ->)|
    (b & q & r & -> & -> & _ & _ & Hr & ->)]]]]%mask_step.
  - constructor; [by left|]. apply IH; [cbn; lia|done].
  - constructor; [by left|]. apply IH; [cbn; lia|done].
  - constructor; [by left|]. apply Forall2_app; [apply masks_refl|]. apply IH; [cbn; rewrite length_app; lia|done].
  - do 2 (constructor; [by right|]). apply Forall2_app; [by apply blanks_mask|]. apply IH; [cbn; rewrite length_app; lia|done].
  - do 2 (constructor; [by right|]). apply Forall2_app; [apply block_mask|]. apply IH; [cbn; rewrite length_app; lia|done].
Qed.

(** A run of white space and a boundary after it. *)
Lemma plain_white w : white w -> plain w.
Proof. intros H. apply plain_chars. eapply Forall_impl; [exact H|]. unfold is_ws, plain_char. intros c Hc. lia. Qed.
Lemma repeat_white n : white (repeat 32 n).
Proof. induction n; constructor; done. Qed.
Lemma block_white b : white (masked_block b).
Proof. induction b as [|c b IH]; constructor; [|done]. unfold masked_char. by destruct (c =? 10). Qed.

(** The copy is its own mask. *)
Lemma mask_idempotent t m : mask_comments t = Ok m -> mask_comments m = Ok m.
Proof.
  revert m. induction t as [t IH] using text_induction. intros m. destruct t as [|c l]; [by intros [= <-]|].
  intros [(r & [H1 H2] & Hr & ->)|[(r & -> & Ha & Hb & Hr & ->)|[(b & q & r & -> & -> & Hb & Hr & ->)|[(body & q & r & -> & -> & _ & _ & Hr & ->)|
    (b & q & r & -> & -> & _ & _ & Hr & ->)]]]]%mask_step.
  - rewrite mask_char, (IH l) by (done || cbn; lia). done.
  - pose proof (mask_aligned _ _ Hr) as Hal. rewrite mask_char, (IH l); [done|cbn; lia|done|done|]. intros _.
    destruct Hal as [|x y l r [->|[-> _]] _]; [done|done|by split].
  - rewrite mask_string, (IH q); [done|cbn; rewrite length_app; lia|done|done].
  - apply (plain_mask (32 :: 32 :: _)); [apply plain_white; repeat constructor; apply repeat_white|].
    apply (IH q); [cbn; rewrite length_app; lia|done].
  - apply (plain_mask (32 :: 32 :: _)); [apply plain_white; repeat constructor; apply block_white|].
    apply (IH q); [cbn; rewrite length_app; lia|done].
Qed.

(** ** Boundaries *)
Definition ends_solid (m : text) : Prop := exists a c, m = a ++ [c] /\ is_ws c = false.
Definition starts_solid (m : text) : Prop := exists c a, m = c :: a /\ is_ws c = false.

Lemma ends_solid_cons c m : ends_solid (c :: m) -> m = [] \/ ends_solid m.
Proof. intros (a & d & E & Hd). destruct m as [|x m]; [by left|]. right. destruct a as [|y a]; [done|]. injection E as _ E. by exists a, d. Qed.
Lemma ends_solid_app w m : ends_solid (w ++ m) -> m = [] \/ ends_solid m.
Proof. revert m. induction w as [|c w IH]; intros m; [by right|]. cbn [app]. intros [E|H]%ends_solid_cons; [apply app_nil in E as [_ ->]; by left|by apply IH]. Qed.
Lemma white_not_solid w : white w -> ends_solid w -> False.
Proof. intros Hw (a & c & -> & Hc). apply Forall_app in Hw as [_ Hw]. inversion Hw. congruence. Qed.

(** White space at the start of a copy is all on one side of a boundary that touches something solid. *)
Lemma solid_split w r m1 m2 : white w -> w ++ r = m1 ++ m2 -> m1 = [] \/ ends_solid m1 \/ starts_solid m2 ->
  m1 = [] \/ exists m1', m1 = w ++ m1' /\ r = m1' ++ m2.
Proof.
  intros Hw E Hs. apply app_eq_inv in E as [(k & -> & E)|(k & -> & E)]; [|by right; exists k].
  destruct Hs as [->|[Hs|(c & a & -> & Hc)]].
  - by left.
  - apply Forall_app in Hw as [Hw _]. by destruct (white_not_solid _ Hw Hs).
  - destruct k as [|d k].
    + right. exists []. rewrite !app_nil_r. done.
    + injection E as <- _. apply Forall_app in Hw as [_ Hw]. inversion Hw. congruence.
Qed.

Lemma plain_cons_inv c m : plain (c :: m) -> plain_char c /\ plain m \/ exists b m', c = 34 /\ m = b ++ m' /\ closed_literal b /\ plain m'.
Proof. inversion 1; subst; [by left|right; eauto 6]. Qed.

Lemma plain_white_inv w m : white w -> plain (w ++ m) -> plain m.
Proof.
  induction 1 as [|c w Hc _ IH]; [done|]. cbn [app]. intros [[_ H]|(b & m' & -> & _)]%plain_cons_inv; [by apply IH|done].
Qed.

(** A boundary of the copy is one of the text: what precedes it is whole tokens. *)
Lemma mask_split t : forall m1 m2, mask_comments t = Ok (m1 ++ m2) -> plain m1 -> m1 = [] \/ ends_solid m1 \/ starts_solid m2 ->
  exists p q, t = p ++ q /\ lexed p m1 /\ mask_comments q = Ok m2.
Proof.
  induction t as [t IH] using text_induction. intros m1 m2 H Hp Hs.
  destruct m1 as [|x m1]; [by exists [], t; repeat constructor|].
  destruct t as [|c l]; [done|]. apply mask_step in H.
  assert (forall m, x :: m1 = m ++ m1 -> m1 = [] \/ ends_solid m1 \/ starts_solid m2) as Hone.
  { intros m E. destruct Hs as [?|[Hs|Hs]]; [done| |by auto]. apply ends_solid_cons in Hs. tauto. }
  destruct H as [(r & Hc & Hr & E)|[(r & -> & _ & _ & _ & E)|[(b & q & r & -> & -> & Hb & Hr & E)|[(body & q & r & -> & -> & Hb & Hq & Hr & E)|
    (b & q & r & -> & -> & Hb & He & Hr & E)]]]].
  - injection E as -> <-. apply plain_cons_inv in Hp as [[_ Hp]|(b & m' & -> & _)]; [|by destruct Hc].
    destruct (IH l ltac:(cbn; lia) m1 m2 Hr Hp (Hone [c] eq_refl)) as (p & q & -> & Hl & Hq). exists (c :: p), q. by split; [|split; [constructor|]].
  - injection E as -> _. apply plain_cons_inv in Hp as [[[_ ?] _]|(b & m' & ? & _)]; done.
  - injection E as -> E. apply plain_cons_inv in Hp as [[[? _] _]|(b' & m' & _ & -> & Hb' & Hp)]; [done|].
    rewrite <- app_assoc in E. apply closed_unique in E as [<- <-]; [|done|done].
    destruct (IH q ltac:(cbn; rewrite length_app; lia) m' m2 Hr Hp) as (p & q' & -> & Hl & Hq).
    { destruct Hs as [?|[Hs|Hs]]; [done| |by auto]. apply (ends_solid_app (34 :: b')) in Hs. tauto. }
    exists (34 :: b' ++ p), q'. split; [cbn; by rewrite <- app_assoc|]. split; [by constructor|done].
  - assert (white (32 :: 32 :: repeat 32 (length body))) as Hw by (repeat constructor; apply repeat_white).
    change (32 :: 32 :: repeat 32 (length body) ++ r) with ((32 :: 32 :: repeat 32 (length body)) ++ r) in E.
    destruct (solid_split _ _ _ _ Hw (eq_sym E) Hs) as [|(m1' & E1 & E2)]; [done|]. rewrite E1 in *.
    pose proof (plain_white_inv _ _ Hw Hp) as Hp'.
    assert (m1' = [] \/ ends_solid m1' \/ starts_solid m2) as Hs'.
    { destruct Hs as [?|[Hs|Hs]]; [done| |by auto]. apply ends_solid_app in Hs. tauto. }
    destruct m1' as [|y m1'].
    { exfalso. rewrite app_nil_r in E1. cbn [app] in E2. destruct Hs as [?|[Hs|(d & a & -> & Hd)]]; [done|rewrite app_nil_r in Hs; by destruct (white_not_solid _ Hw Hs)|].
      destruct q as [|d' q]; [by injection Hr as <-|]. rewrite (Hq d' q eq_refl) in Hr. rewrite mask_char in Hr by done.
      apply rbind_Ok in Hr as (r' & _ & [= <-]). by injection E2 as <- _. }
    destruct q as [|d q]; [by injection Hr as <-|]. pose proof (Hq d q eq_refl) as ->. rewrite mask_char in Hr by done.
    apply rbind_Ok in Hr as (r' & Hr & [= <-]). injection E2 as <- ->.
    apply plain_cons_inv in Hp' as [[_ Hp']|(b & m' & ? & _)]; [|done].
    destruct (IH q ltac:(cbn; rewrite length_app; cbn; lia) m1' m2 Hr Hp') as (p & q' & -> & Hl & Hq').
    { destruct Hs' as [?|[Hs'|Hs']]; [done| |by auto]. apply ends_solid_cons in Hs'. tauto. }
    exists (47 :: 47 :: body ++ 10 :: p), q'. split; [cbn; by rewrite <- app_assoc|]. split; [by constructor|done].
  - assert (white (32 :: 32 :: masked_block b)) as Hw by (repeat constructor; apply block_white).
    change (32 :: 32 :: masked_block b ++ r) with ((32 :: 32 :: masked_block b) ++ r) in E.
    destruct (solid_split _ _ _ _ Hw (eq_sym E) Hs) as [|(m1' & E1 & ->)]; [done|]. rewrite E1 in *.
    pose proof (plain_white_inv _ _ Hw Hp) as Hp'.
    destruct (IH q ltac:(cbn; rewrite length_app; lia) m1' m2 Hr Hp') as (p & q' & -> & Hl & Hq').
    { destruct Hs as [?|[Hs|Hs]]; [done| |by auto]. apply ends_solid_app in Hs. tauto. }
    exists (47 :: 42 :: b ++ p), q'. split; [cbn; by rewrite <- app_assoc|]. split; [by constructor|done].
Qed.

Lemma lexed_split t m : lexed t m -> forall m1 m2, m = m1 ++ m2 -> plain m1 -> m1 = [] \/ ends_solid m1 \/ starts_solid m2 ->
  exists p q, t = p ++ q /\ lexed p m1 /\ lexed q m2.
Proof.
  induction 1 as [|c p m Hc Hl IH|b p m Hb Hl IH|body p m Hb Hl IH|b p m Hb He Hl IH]; intros m1 m2 E Hp Hs.
  - symmetry in E. apply app_nil in E as [-> ->]. exists [], []. by repeat constructor.
  - destruct m1 as [|x m1]; [exists [], (c :: p); split; [done|]; cbn in E; subst m2; split; [constructor|by constructor]|].
    injection E as <- ->. apply plain_cons_inv in Hp as [[_ Hp]|(b & m' & -> & _)]; [|by destruct Hc].
    destruct (IH m1 m2 eq_refl Hp) as (p' & q & -> & H1 & H2).
    { destruct Hs as [?|[Hs|Hs]]; [done| |by auto]. apply ends_solid_cons in Hs. tauto. }
    exists (c :: p'), q. split; [done|]. split; [by constructor|done].
  - destruct m1 as [|x m1]; [exists [], (34 :: b ++ p); split; [done|]; cbn in E; subst m2; split; [constructor|by constructor]|].
    injection E as <- E. apply plain_cons_inv in Hp as [[[? _] _]|(b' & m' & _ & -> & Hb' & Hp)]; [done|].
    rewrite <- app_assoc in E. apply closed_unique in E as [<- ->]; [|done|done].
    destruct (IH m' m2 eq_refl Hp) as (p' & q & -> & H1 & H2).
    { destruct Hs as [?|[Hs|Hs]]; [done| |by auto]. apply (ends_solid_app (34 :: b)) in Hs. tauto. }
    exists (34 :: b ++ p'), q. split; [cbn; by rewrite <- app_assoc|]. split; [by constructor|done].
  - assert (white (32 :: 32 :: repeat 32 (length body) ++ [10])) as Hw
      by (do 2 (constructor; [done|]); apply white_app; split; [apply repeat_white|by repeat constructor]).
    replace (32 :: 32 :: repeat 32 (length body) ++ 10 :: m) with ((32 :: 32 :: repeat 32 (length body) ++ [10]) ++ m) in E by (cbn; by rewrite <- app_assoc).
    destruct (solid_split _ _ _ _ Hw E Hs) as [->|(m1' & -> & ->)].
    { exists [], (47 :: 47 :: body ++ 10 :: p). split; [done|]. split; [constructor|]. cbn [app] in E. rewrite <- E. cbn. rewrite <- app_assoc. by constructor. }
    destruct (IH m1' m2 eq_refl (plain_white_inv _ _ Hw Hp)) as (p' & q & -> & H1 & H2).
    { destruct Hs as [Hs|[Hs|Hs]]; [done| |by auto]. apply ends_solid_app in Hs. tauto. }
    exists (47 :: 47 :: body ++ 10 :: p'), q. split; [cbn; by rewrite <- app_assoc|]. split; [|done].
    cbn. rewrite <- app_assoc. by constructor.
  - assert (white (32 :: 32 :: masked_block b)) as Hw by (do 2 (constructor; [done|]); apply block_white).
    change (32 :: 32 :: masked_block b ++ m) with ((32 :: 32 :: masked_block b) ++ m) in E.
    destruct (solid_split _ _ _ _ Hw E Hs) as [->|(m1' & -> & ->)].
    { exists [], (47 :: 42 :: b ++ p). split; [done|]. split; [constructor|]. cbn [app] in E. rewrite <- E. by constructor. }
    destruct (IH m1' m2 eq_refl (plain_white_inv _ _ Hw Hp)) as (p' & q & -> & H1 & H2).
    { destruct Hs as [Hs|[Hs|Hs]]; [done| |by auto]. apply ends_solid_app in Hs. tauto. }
    exists (47 :: 42 :: b ++ p'), q. split; [cbn; by rewrite <- app_assoc|]. split; [by constructor|done].
Qed.

(** * Locating a key in a document

    The spans the editor computes on the text of a well-formed tree are those of its subtrees
    ([value_span_tree], [object_items_tree]), and following a path finds the subtree at it or the
    deepest object on the way ([locate_found], [locate_missing], [locate_refused]). *)

(** ** Trees are made of plain tokens *)
Lemma literal_plain lit t : literal_of lit t -> plain lit.
Proof. intros (b & ts & -> & Hb & _). rewrite <- (app_nil_r b). apply P_string; [by eapply body_closed|constructor]. Qed.

Lemma atom_plain lex v : atom_of lex v -> plain lex.
Proof.
  destruct 1 as [lex v Hin|n v _ Hall _ _ _]; apply plain_chars.
  - destruct (constant_cases _ _ Hin) as [[= -> ->]|[[= -> ->]|[[= -> ->]|[[= -> ->]|[[= -> ->]|[= -> ->]]]]]]; repeat constructor; done.
  - eapply Forall_impl; [exact Hall|]. unfold numberish, is_digit, plain_char. intros c Hc. lia.
Qed.

Lemma plain_one c : plain_char c -> plain [c].
Proof. intros H. constructor; [done|constructor]. Qed.

Lemma key_plain k : wf_key k -> plain (flat_key k).
Proof.
  intros (H1 & H2 & H3 & H4). unfold flat_key. repeat apply plain_app; try (by apply plain_white); [by eapply literal_plain|by apply plain_one].
Qed.

Lemma tree_plain :
  (forall c, wf c -> plain (flat c)) /\ (forall es, wf_elems es -> plain (flat_elems es)) /\ (forall ms, wf_members ms -> plain (flat_members ms)).
Proof.
  apply cst_elems_members; cbn [wf wf_elems wf_members flat flat_elems flat_members].
  - intros lit t H. by eapply literal_plain.
  - intros lex v H. by eapply atom_plain.
  - intros gap es IH [Hg He]. repeat apply plain_app; try (by apply plain_one); [by apply plain_white|by apply IH].
  - intros gap ms IH [Hg Hm]. repeat apply plain_app; try (by apply plain_one); [by apply plain_white|by apply IH].
  - constructor.
  - intros b c IHc a es IHe (Hb & Hc & Ha & He). repeat apply plain_app; try (by apply plain_white); [by apply IHc|].
    destruct es; [constructor|]. apply plain_app; [by apply plain_one|by apply IHe].
  - constructor.
  - intros k c IHc a ms IHm (Hk & Hc & Ha & Hm). apply plain_app; [by apply key_plain|].
    apply plain_app; [by apply IHc|]. apply plain_app; [by apply plain_white|]. destruct ms; [constructor|]. apply plain_app; [by apply plain_one|by apply IHm].
Qed.
Definition cst_plain := proj1 tree_plain.

Lemma solid_last a c : is_ws c = false -> ends_solid (a ++ [c]).
Proof. intros H. by exists a, c. Qed.
Lemma ends_solid_prepend a m : ends_solid m -> ends_solid (a ++ m).
Proof. intros (b & c & -> & H). exists (a ++ b), c. by rewrite app_assoc. Qed.

Lemma body_last b ts : body b ts -> exists b', b = b' ++ [34].
Proof.
  induction 1 as [|c b ts _ _ _ _ [b' ->]|e v b ts _ _ [b' ->]|h1 h2 h3 h4 v b ts _ _ [b' ->]].
  - by exists [].
  - by exists (c :: b').
  - by exists (92 :: e :: b').
  - by exists (92 :: 117 :: h1 :: h2 :: h3 :: h4 :: b').
Qed.

Lemma flat_solid c : wf c -> ends_solid (flat c) /\ starts_solid (flat c).
Proof.
  intros H. split; [|destruct (flat_head c H) as (x & l & -> & Hx & _); by exists x, l].
  destruct c; cbn [wf flat] in *.
  - destruct H as (b & ts & -> & Hb & _). destruct (body_last _ _ Hb) as [b' ->]. by apply (solid_last (34 :: b')).
  - destruct H as [lex v Hin|n v Hne Hall _ _ _].
    + destruct (constant_cases _ _ Hin) as [[= -> ->]|[[= -> ->]|[[= -> ->]|[[= -> ->]|[[= -> ->]|[= -> ->]]]]]].
      * by apply (solid_last (u "nul")).
      * by apply (solid_last (u "tru")).
      * by apply (solid_last (u "fals")).
      * by apply (solid_last (u "Na")).
      * by apply (solid_last (u "Infinit")).
      * by apply (solid_last (u "-Infinit")).
    + destruct (exists_last Hne) as (a & c & E). exists a, c. split; [done|]. rewrite E in Hall. apply Forall_app in Hall as [_ Hc].
      inversion Hc as [|? ? Hn _]; subst. unfold numberish, is_digit in Hn. unfold is_ws. lia.
  - rewrite !app_assoc. by apply solid_last.
  - rewrite !app_assoc. by apply solid_last.
Qed.

(** ** Spans *)
(** A tree without the constants [NaN], [Infinity] and [-Infinity], which the locator refuses. *)
Definition finite_atom (lex : text) : Prop := lex <> u "NaN" /\ lex <> u "Infinity" /\ lex <> u "-Infinity".
Fixpoint finite (c : cst) : Prop :=
  match c with
  | CStr _ _ => True
  | CAtom lex _ => finite_atom lex
  | CArr _ es => finite_elems es
  | CObj _ ms => finite_members ms
  end
with finite_elems (es : elems) : Prop := match es with ENil => True | ECons _ c _ es' => finite c /\ finite_elems es' end
with finite_members (ms : members) : Prop := match ms with MNil => True | MCons _ c _ ms' => finite c /\ finite_members ms' end.

Lemma drop_step {A} (t : list A) i a r : drop i t = a ++ r -> drop (i + length a) t = r.
Proof. intros H. by rewrite <- drop_drop, H, drop_app_length. Qed.
Lemma drop_char {A} (t : list A) i c r : drop i t = c :: r -> t !! i = Some c /\ drop (S i) t = r.
Proof.
  intros H. split; [by rewrite <- (Nat.add_0_r i), <- lookup_drop, H|].
  replace (S i) with (i + length [c])%nat by (cbn; lia). by apply drop_step.
Qed.
Lemma drop_length_eq {A} (t : list A) i r : drop i t = r -> r <> [] -> (i + length r = length t)%nat.
Proof. intros H Hr. rewrite <- H, length_drop. assert (i < length t)%nat; [|lia]. destruct (Nat.lt_ge_cases i (length t)); [done|]. by rewrite drop_ge in H by done. Qed.

Lemma skip_at t i w r : drop i t = w ++ r -> white w -> (r = [] \/ starts_solid r) ->
  skip t i = (i + length w)%nat /\ drop (skip t i) t = r.
Proof.
  intros H Hw Hr. assert (skip_ws (w ++ r) = r) as E.
  { rewrite skip_ws_white by done. destruct Hr as [->|(c & a & -> & Hc)]; [done|by apply skip_ws_head]. }
  assert (skip t i = i + length w)%nat as Es by (unfold skip; rewrite H, E, length_app; lia).
  split; [done|]. rewrite Es. by apply drop_step.
Qed.

Lemma at_char_eq t i c r d : drop i t = c :: r -> at_char t i d = (c =? d).
Proof. intros [H _]%drop_char. unfold at_char. rewrite H. destruct (c =? d) eqn:E; [apply Z.eqb_eq in E as ->; by apply bool_decide_eq_true_2|].
  apply bool_decide_eq_false_2. intros [= ->]. by rewrite Z.eqb_refl in E. Qed.

Lemma string_span_tree t i lit x r : drop i t = lit ++ r -> literal_of lit x -> string_span t i = Ok (x, i, (i + length lit)%nat).
Proof.
  intros H Hl. pose proof Hl as (b & ts & -> & Hb & Hj). unfold string_span, end_of_string. cbn [app] in H.
  rewrite (at_char_eq _ _ _ _ _ H). change (34 =? 34) with true. cbn [negb]. destruct (drop_char _ _ _ _ H) as [_ ->].
  rewrite (close_quote_app _ _ r (body_closed _ _ Hb)). cbn [rbind]. unfold slice. rewrite H.
  replace (S i + length b - i)%nat with (length (34 :: b)) by (cbn; lia). change (34 :: b ++ r) with ((34 :: b) ++ r). rewrite take_app_length.
  assert (json_loads (34 :: b) = Ok (VStr x)) as ->.
  { unfold json_loads. rewrite <- (app_nil_r (34 :: b)), <- (app_nil_l (_ ++ _)).
    apply (decode_document last_wins [] (CStr (34 :: b) x) []); done. }
  cbn [decoded rbind length]. f_equal. f_equal. lia.
Qed.

Lemma take_while_number x r : Forall (fun c => numberish c = true) x -> ends r -> take_while number_char (x ++ r) = x.
Proof.
  intros Hx Hr. change number_char with numberish. rewrite take_while_app by done. destruct r as [|c r]; [by rewrite app_nil_r|].
  cbn in *. by rewrite Hr, app_nil_r.
Qed.

Lemma opens_not c : opens c = true -> (c =? 34) = false /\ (c =? 123) = false /\ (c =? 91) = false.
Proof. unfold opens. intros H. lia. Qed.

Lemma opens_solid c : opens c = true -> is_ws c = false.
Proof. unfold opens, is_ws. intros H. lia. Qed.

Lemma atom_span lex v fuel t i r : atom_of lex v -> finite_atom lex -> drop i t = lex ++ r -> ends r ->
  value_span (S fuel) t i = Ok (i, i + length lex)%nat.
Proof.
  intros Ha Hfin H Hr. destruct (atom_head _ _ Ha) as (x & l & E & Hx). pose proof (opens_not _ Hx) as (E1 & E2 & E3).
  assert (starts_solid (lex ++ r)) as Hs.
  { exists x, (l ++ r). rewrite E. split; [done|by apply opens_solid]. }
  destruct (skip_at t i [] (lex ++ r) H white_nil (or_intror Hs)) as [Es _]. rewrite Nat.add_0_r in Es. cbn [value_span]. rewrite Es.
  assert (drop i t = x :: l ++ r) as H' by (rewrite H, E; done). destruct (drop_char _ _ _ _ H') as [-> Hd].
  rewrite E1, E2, E3. cbn [orb].
  destruct Ha as [lex v Hin|n v _ Hall (c & y & En & Hc) _ _].
  - destruct Hfin as (F1 & F2 & F3).
    destruct (constant_cases _ _ Hin) as [[= -> ->]|[[= -> ->]|[[= -> ->]|[[= -> ->]|[[= -> ->]|[= -> ->]]]]]]; try done.
    all: injection E as <- <-; rewrite H; reflexivity.
  - rewrite En in E. injection E as -> ->. replace (starts_number x) with true by (unfold starts_number; destruct Hc as [-> | ->]; by rewrite ?orb_true_r).
    rewrite Hd, take_while_number; [|by rewrite En in Hall; inversion Hall|done]. rewrite En. cbn [length]. do 2 f_equal. lia.
Qed.

Lemma white_ends_closer w c r : white w -> (c =? 93) || (c =? 125) || (c =? 44) = true -> ends (w ++ c :: r).
Proof. intros Hw Hc. apply white_ends; [done|]. cbn. unfold numberish, is_digit. lia. Qed.

Lemma app_cons_assoc {A} (a : list A) c r : a ++ c :: r = (a ++ [c]) ++ r.
Proof. by rewrite <- app_assoc. Qed.

Lemma skip_to t i w c r : drop i t = w ++ c :: r -> white w -> is_ws c = false ->
  skip t i = (i + length w)%nat /\ (skip t i < length t)%nat /\ forall d, at_char t (skip t i) d = (c =? d).
Proof.
  intros H Hw Hc. assert (starts_solid (c :: r)) as Hs by by exists c, r.
  destruct (skip_at t i w _ H Hw (or_intror Hs)) as [E D]. split; [done|]. split.
  - apply drop_char in D as [D _]. by apply lookup_lt_Some in D.
  - intros d. by eapply at_char_eq.
Qed.

Ltac drop_tac := repeat (rewrite <- app_assoc || rewrite app_nil_r || cbn [app]); try done.

Lemma value_span_tree :
  (forall c, wf c -> finite c -> forall fuel t i w r, drop i t = w ++ flat c ++ r -> white w -> ends r -> (2 * length (flat c) < fuel)%nat ->
    value_span fuel t i = Ok (i + length w, i + length w + length (flat c))%nat) /\
  (forall es, wf_elems es -> finite_elems es -> es <> ENil -> forall fuel t start i w r, drop i t = w ++ flat_elems es ++ 93 :: r -> white w ->
    (2 * length (flat_elems es) + 1 < fuel)%nat ->
    container_from fuel t start false i = Ok (start, i + length w + length (flat_elems es) + 1)%nat) /\
  (forall ms, wf_members ms -> finite_members ms -> ms <> MNil -> forall fuel t start i w r, drop i t = w ++ flat_members ms ++ 125 :: r -> white w ->
    (2 * length (flat_members ms) + 1 < fuel)%nat ->
    container_from fuel t start true i = Ok (start, i + length w + length (flat_members ms) + 1)%nat).
Proof.
  apply cst_elems_members.
  - intros lit x (b & ts & -> & Hb & Hj) _ fuel t i w r H Hw Hr Hf. destruct fuel; [lia|]. cbn [flat] in *. cbn [value_span].
    assert (starts_solid ((34 :: b) ++ r)) as Hs by by exists 34, (b ++ r).
    destruct (skip_at t i w _ H Hw (or_intror Hs)) as [E D]. rewrite E in *. destruct (drop_char t _ 34 (b ++ r) D) as [-> _].
    change (34 =? 34) with true. cbv iota. rewrite (string_span_tree t _ (34 :: b) x r D); [done|by exists b, ts].
  - intros lex v Ha Hfin fuel t i w r H Hw Hr Hf. destruct fuel as [|fuel]; [lia|]. cbn [flat] in *.
    destruct (atom_head _ _ Ha) as (x & l & E & Hx).
    assert (starts_solid (lex ++ r)) as Hs by (exists x, (l ++ r); rewrite E; split; [done|by apply opens_solid]).
    destruct (skip_at t i w _ H Hw (or_intror Hs)) as [Es D].
    rewrite <- Es. transitivity (value_span (S fuel) t (skip t i)); [|by eapply atom_span].
    cbn [value_span]. destruct (skip_at t (skip t i) [] _ D white_nil (or_intror Hs)) as [Es2 _]. rewrite Nat.add_0_r in Es2. by rewrite Es2.
  - intros gap es IH [Hg Hes] Hfin fuel t i w r H Hw Hr Hf. destruct fuel as [|fuel]; [lia|]. cbn [flat] in H, Hf. rewrite !length_app in Hf. cbn [length] in Hf.
    cbn [value_span]. destruct (skip_to t i w 91 (gap ++ flat_elems es ++ 93 :: r)) as (E & _ & _); [rewrite H; drop_tac|done|done|].
    assert (drop (i + length w) t = 91 :: gap ++ flat_elems es ++ 93 :: r) as D.
    { eapply drop_step. rewrite H. drop_tac. }
    rewrite E. destruct (drop_char _ _ _ _ D) as [-> D']. change (91 =? 34) with false. change ((91 =? 123) || (91 =? 91)) with true. change (91 =? 123) with false. cbv iota.
    cbn [flat]. rewrite !length_app. cbn [length]. destruct es as [|b c a es].
    + destruct fuel as [|fuel]; [lia|]. cbn [container_from flat_elems length] in *. destruct (skip_to t (S (i + length w)) gap 93 r) as (Eg & Hlt & Hat); [rewrite D'; drop_tac|done|done|].
      rewrite (proj2 (Nat.leb_gt _ _) Hlt), Hat. change (93 =? 93) with true. cbv iota. rewrite Eg. do 2 f_equal. lia.
    + rewrite (IH Hes Hfin ltac:(done) fuel t (i + length w)%nat (S (i + length w)) gap r) by (done || lia). do 2 f_equal. lia.
  - intros gap ms IH [Hg Hms] Hfin fuel t i w r H Hw Hr Hf. destruct fuel as [|fuel]; [lia|]. cbn [flat] in H, Hf. rewrite !length_app in Hf. cbn [length] in Hf.
    cbn [value_span]. destruct (skip_to t i w 123 (gap ++ flat_members ms ++ 125 :: r)) as (E & _ & _); [rewrite H; drop_tac|done|done|].
    assert (drop (i + length w) t = 123 :: gap ++ flat_members ms ++ 125 :: r) as D.
    { eapply drop_step. rewrite H. drop_tac. }
    rewrite E. destruct (drop_char _ _ _ _ D) as [-> D']. change (123 =? 34) with false. change ((123 =? 123) || (123 =? 91)) with true. change (123 =? 123) with true. cbv iota.
    cbn [flat]. rewrite !length_app. cbn [length]. destruct ms as [|k c a ms].
    + destruct fuel as [|fuel]; [lia|]. cbn [container_from flat_members length] in *. destruct (skip_to t (S (i + length w)) gap 125 r) as (Eg & Hlt & Hat); [rewrite D'; drop_tac|done|done|].
      rewrite (proj2 (Nat.leb_gt _ _) Hlt), Hat. change (125 =? 125) with true. cbv iota. rewrite Eg. do 2 f_equal. lia.
    + rewrite (IH Hms Hfin ltac:(done) fuel t (i + length w)%nat (S (i + length w)) gap r) by (done || lia). do 2 f_equal. lia.
  - done.
  - intros b c IHc a es IHe (Hb & Hc & Ha & Hes) [Fc Fes] _ fuel t start i w r H Hw Hf. destruct fuel as [|fuel]; [lia|].
    cbn [flat_elems] in *. rewrite !length_app in *. cbn [container_from].
    set (more := match es with ENil => [] | _ => [44] ++ flat_elems es end) in *.
    destruct (flat_head c Hc) as (x & l & Ex & Hx & Hx93 & _). assert (1 <= length (flat c))%nat by (rewrite Ex; cbn; lia).
    destruct (skip_to t i (w ++ b) x (l ++ a ++ more ++ 93 :: r)) as (E & Hlt & Hat); [rewrite H, Ex; drop_tac|by apply white_app|done|].
    rewrite (proj2 (Nat.leb_gt _ _) Hlt), Hat, (proj2 (Z.eqb_neq _ _) Hx93). cbn [rbind].
    assert (drop (skip t i) t = [] ++ flat c ++ a ++ more ++ 93 :: r) as D.
    { rewrite E. eapply drop_step. rewrite H. drop_tac. }
    assert (ends (a ++ more ++ 93 :: r)) as He by (subst more; destruct es; cbn [app]; by apply white_ends_closer).
    rewrite (IHc Hc Fc fuel t _ [] _ D white_nil He) by lia. cbn [rbind length snd]. rewrite Nat.add_0_r.
    pose proof (drop_step t _ (flat c) _ D) as D2. rewrite length_app in E.
    destruct es as [|b2 c2 a2 es]; subst more; cbn [app length] in *.
    + destruct (skip_to _ _ _ _ _ D2 Ha ltac:(done)) as (E2 & _ & Hat2). rewrite !Hat2. change (93 =? 44) with false. change (93 =? 93) with true. cbv iota.
      rewrite E2, E. do 2 f_equal. lia.
    + destruct (skip_to _ _ _ _ _ D2 Ha ltac:(done)) as (E2 & _ & Hat2). rewrite !Hat2. change (44 =? 44) with true. cbv iota.
      pose proof (drop_step _ _ _ _ D2) as D3. rewrite <- E2 in D3. destruct (drop_char _ _ _ _ D3) as [_ D4].
      rewrite (IHe Hes Fes ltac:(done) fuel t start _ [] r) by (done || lia).
      rewrite E2, E. do 2 f_equal. cbn [length]. lia.
  - done.
  - intros k c IHc a ms IHm ((Hl & Hlit & Hbc & Hac) & Hc & Ha & Hms) [Fc Fms] _ fuel t start i w r H Hw Hf. destruct fuel as [|fuel]; [lia|].
    pose proof Hlit as (b & ts & El & Hb & Hn).
    cbn [flat_members] in *. unfold flat_key in *. rewrite !length_app in *. cbn [container_from].
    set (more := match ms with MNil => [] | _ => [44] ++ flat_members ms end) in *.
    destruct (flat_head c Hc) as (x & l & Ex & _). assert (1 <= length (flat c))%nat by (rewrite Ex; cbn; lia).
    set (tail := flat c ++ a ++ more ++ 125 :: r) in *.
    destruct (skip_to t i (w ++ lead k) 34 (b ++ before_colon k ++ 58 :: after_colon k ++ tail)) as (E & Hlt & Hat);
      [rewrite H, El; subst tail; drop_tac|by apply white_app|done|].
    rewrite (proj2 (Nat.leb_gt _ _) Hlt), !Hat. change (34 =? 125) with false. change (34 =? 34) with true. cbn [negb].
    assert (drop (skip t i) t = literal k ++ before_colon k ++ 58 :: after_colon k ++ tail) as D.
    { rewrite E. eapply drop_step. rewrite H. subst tail. drop_tac. }
    rewrite (string_span_tree _ _ _ _ _ D Hlit). cbn [rbind snd]. pose proof (drop_step _ _ _ _ D) as D2.
    destruct (skip_to _ _ _ _ _ D2 Hbc ltac:(done)) as (E2 & _ & Hat2). rewrite Hat2. change (58 =? 58) with true. cbn [negb rbind].
    pose proof (drop_step _ _ _ _ D2) as D3. rewrite <- E2 in D3. destruct (drop_char _ _ _ _ D3) as [_ D4]. subst tail.
    assert (ends (a ++ more ++ 125 :: r)) as He by (subst more; destruct ms; cbn [app]; by apply white_ends_closer).
    rewrite (IHc Hc Fc fuel t _ _ _ D4 Hac He) by lia. cbn [rbind snd].
    assert (drop (S (skip t (skip t i + length (literal k))) + length (after_colon k) + length (flat c)) t = a ++ more ++ 125 :: r) as D5.
    { eapply drop_step. eapply drop_step. exact D4. }
    rewrite length_app in E. cbn [length] in *.
    destruct ms as [|k2 c2 a2 ms]; subst more; cbn [app length] in *.
    + destruct (skip_to _ _ _ _ _ D5 Ha ltac:(done)) as (E5 & _ & Hat5). rewrite !Hat5. change (125 =? 44) with false. change (125 =? 125) with true. cbv iota.
      rewrite E5, E2, E. do 2 f_equal. lia.
    + destruct (skip_to _ _ _ _ _ D5 Ha ltac:(done)) as (E5 & _ & Hat5). rewrite !Hat5. change (44 =? 44) with true. cbv iota.
      pose proof (drop_step _ _ _ _ D5) as D6. rewrite <- E5 in D6. destruct (drop_char _ _ _ _ D6) as [_ D7].
      rewrite (IHm Hms Fms ltac:(done) fuel t start _ [] r) by (done || lia).
      rewrite E5, E2, E. do 2 f_equal. cbn [length]. lia.
Qed.

(** ** Items *)
Fixpoint items_of (o : nat) (ms : members) : list Item :=
  match ms with
  | MNil => []
  | MCons k c a ms' =>
    let s := (o + length (lead k))%nat in
    let v := (o + length (flat_key k))%nat in
    {| item_key := name k; key_start := s; key_end := s + length (literal k); value_start := v; value_end := v + length (flat c) |}
    :: items_of (v + length (flat c) + length a + 1) ms'
  end.

Lemma span_fuel_enough t i a r : drop i t = a ++ r -> (2 * length a < span_fuel t)%nat.
Proof. intros H. apply (f_equal length) in H. rewrite length_drop, length_app in H. unfold span_fuel. lia. Qed.

Lemma object_items_tree ms : forall fuel t stop i w r, wf_members ms -> finite_members ms -> ms <> MNil ->
  drop i t = w ++ flat_members ms ++ 125 :: r -> white w -> stop = (i + length w + length (flat_members ms) + 1)%nat ->
  (length (flat_members ms) < fuel)%nat -> object_items fuel t stop i = Ok (items_of (i + length w) ms).
Proof.
  induction ms as [|k c a ms IH]; [done|]. intros fuel t stop i w r ((Hl & Hlit & Hbc & Hac) & Hc & Ha & Hms) [Fc Fms] _ H Hw Hstop Hf.
  destruct fuel as [|fuel]; [lia|]. pose proof Hlit as (b & ts & El & Hb & Hn).
  cbn [flat_members] in *. unfold flat_key in *. rewrite !length_app in *. cbn [object_items items_of]. cbn [length] in Hstop, Hf.
  set (more := match ms with MNil => [] | _ => [44] ++ flat_members ms end) in *.
  set (tail := flat c ++ a ++ more ++ 125 :: r) in *.
  destruct (skip_to t i (w ++ lead k) 34 (b ++ before_colon k ++ 58 :: after_colon k ++ tail)) as (E & _ & Hat);
    [rewrite H, El; subst tail; drop_tac|by apply white_app|done|].
  rewrite length_app in E. rewrite !Hat. change (34 =? 125) with false. change (34 =? 34) with true.
  rewrite (proj2 (Nat.leb_gt _ _)) by (rewrite El in Hstop; cbn [length] in Hstop; lia). cbn [orb negb].
  assert (drop (skip t i) t = literal k ++ before_colon k ++ 58 :: after_colon k ++ tail) as D.
  { rewrite E, <- length_app. eapply drop_step. rewrite H. subst tail. drop_tac. }
  rewrite (string_span_tree _ _ _ _ _ D Hlit). cbn [rbind fst snd]. pose proof (drop_step _ _ _ _ D) as D2.
  destruct (skip_to _ _ _ _ _ D2 Hbc ltac:(done)) as (E2 & _ & Hat2). unfold inside_char. rewrite Hat2. change (58 =? 58) with true.
  rewrite (proj2 (Nat.ltb_lt _ _)) by lia. cbn [negb andb].
  pose proof (drop_step _ _ _ _ D2) as D3. rewrite <- E2 in D3. destruct (drop_char _ _ _ _ D3) as [_ D4]. subst tail.
  assert (ends (a ++ more ++ 125 :: r)) as He by (subst more; destruct ms; cbn [app]; by apply white_ends_closer).
  pose proof (drop_step _ _ _ _ D4) as D4'. pose proof (span_fuel_enough _ _ _ _ D4') as Hfuel.
  rewrite (proj1 value_span_tree c Hc Fc _ t _ _ _ D4 Hac He Hfuel). cbn [rbind fst snd].
  pose proof (drop_step _ _ _ _ D4') as D5.
  replace (length (lead k) + (length (literal k) + (length (before_colon k) + (length [58] + length (after_colon k)))))%nat
    with (length (lead k) + length (literal k) + length (before_colon k) + 1 + length (after_colon k))%nat by (cbn [length]; lia).
  assert (forall n, S (skip t (skip t i + length (literal k))) + length (after_colon k) + n =
    i + length w + (length (lead k) + length (literal k) + length (before_colon k) + 1 + length (after_colon k)) + n)%nat as Epos by (intros n; lia).
  pose proof (Epos 0%nat) as Epos0. rewrite !Nat.add_0_r in Epos0.
  destruct ms as [|k2 c2 a2 ms]; subst more; cbn [app length] in *.
  - destruct (skip_to _ _ _ _ _ D5 Ha ltac:(done)) as (E5 & _ & Hat5). rewrite !Hat5. change (125 =? 44) with false. change (125 =? 125) with true.
    rewrite andb_false_r. rewrite (proj2 (Nat.ltb_lt _ _)) by lia. cbn [andb items_of]. do 2 f_equal. f_equal; unfold flat_key; rewrite ?length_app; cbn [length]; lia.
  - destruct (skip_to _ _ _ _ _ D5 Ha ltac:(done)) as (E5 & _ & Hat5). rewrite !Hat5. change (44 =? 44) with true.
    rewrite (proj2 (Nat.ltb_lt _ _)) by lia. cbn [andb].
    pose proof (drop_step _ _ _ _ D5) as D6. rewrite <- E5 in D6. destruct (drop_char _ _ _ _ D6) as [_ D7].
    rewrite (IH fuel t stop _ [] r Hms Fms ltac:(done) D7 white_nil) by (cbn [length]; lia). cbn [rbind length]. rewrite Nat.add_0_r.
    do 2 f_equal; f_equal; unfold flat_key; rewrite ?length_app; cbn [length]; lia.
Qed.

(** ** Members by key *)
Definition tail_text (ms : members) : text := match ms with MNil => [] | _ => [44] ++ flat_members ms end.

(** The first member of a key, between the text before it and the members after it. *)
Inductive first_member (key : text) : members -> text -> Key -> cst -> text -> members -> Prop :=
| First_here k c a ms : name k = key -> first_member key (MCons k c a ms) [] k c a ms
| First_next k' c' a' ms p k c a rest : name k' <> key -> first_member key ms p k c a rest ->
    first_member key (MCons k' c' a' ms) (flat_key k' ++ flat c' ++ a' ++ [44] ++ p) k c a rest.

Fixpoint names (ms : members) : list text := match ms with MNil => [] | MCons k _ _ ms' => name k :: names ms' end.

Lemma first_or_absent key ms : (exists p k c a rest, first_member key ms p k c a rest) \/ key ∉ names ms.
Proof.
  induction ms as [|k c a ms IH]; [right; apply not_elem_of_nil|]. destruct (decide (name k = key)) as [<-|Hne].
  - left. by eexists _, _, _, _, _; constructor.
  - destruct IH as [(p & k' & c' & a' & rest & H)|H]; [left; by eexists _, _, _, _, _; constructor|right].
    cbn. rewrite not_elem_of_cons. done.
Qed.

Section First.
Context {key : text} {ms : members} {p : text} {k : Key} {c : cst} {a : text} {rest : members}.

Lemma first_name (H : first_member key ms p k c a rest) : name k = key.
Proof. by induction H. Qed.
Lemma first_nonempty (H : first_member key ms p k c a rest) : ms <> MNil.
Proof. by destruct H. Qed.
End First.

Lemma first_text key ms p k c a rest : first_member key ms p k c a rest ->
  flat_members ms = p ++ flat_key k ++ flat c ++ a ++ tail_text rest.
Proof.
  induction 1 as [k c a ms _|k' c' a' ms p k c a rest _ H IH]; cbn [flat_members]; [done|].
  rewrite <- !app_assoc. do 3 f_equal. destruct ms; [by inversion H|]. by rewrite IH.
Qed.

Lemma first_wf key ms p k c a rest : first_member key ms p k c a rest -> wf_members ms -> wf_key k /\ wf c /\ white a /\ wf_members rest.
Proof. induction 1 as [|? ? ? ? ? ? ? ? ? _ _ IH]; cbn [wf_members]; [done|]. intros (_ & _ & _ & H). by apply IH. Qed.
Lemma first_finite key ms p k c a rest : first_member key ms p k c a rest -> finite_members ms -> finite c /\ finite_members rest.
Proof. induction 1 as [|? ? ? ? ? ? ? ? ? _ _ IH]; cbn [finite_members]; [done|]. intros [_ H]. by apply IH. Qed.

(** Another value for the first member of the key. *)
Lemma first_replace key ms p k c a rest c' : first_member key ms p k c a rest -> wf_members ms -> wf c' ->
  exists ms', first_member key ms' p k c' a rest /\ wf_members ms' /\
    member_vals VDict ms' = dset key (val VDict c') (member_vals VDict ms).
Proof.
  intros H Hw Hc'. induction H as [k c a ms Hk|k2 c2 a2 ms p k c a rest Hne H IH]; cbn [wf_members] in Hw.
  - destruct Hw as (H1 & _ & H3 & H4). exists (MCons k c' a ms). split; [by constructor|]. split; [done|].
    cbn [member_vals dset]. rewrite bool_decide_eq_true_2 by done. by rewrite Hk.
  - destruct Hw as (H1 & H2 & H3 & H4). destruct (IH H4) as (ms' & Hf & Hw' & Hv). exists (MCons k2 c2 a2 ms'). split; [by constructor|].
    split; [done|]. cbn [member_vals dset]. rewrite bool_decide_eq_false_2 by congruence. by rewrite Hv.
Qed.

Lemma first_val key ms p k c a rest : first_member key ms p k c a rest -> dget key (member_vals VDict ms) = Some (val VDict c).
Proof.
  induction 1 as [k c a ms Hk|k2 c2 a2 ms p k c a rest Hne _ IH]; cbn [member_vals dget].
  - by rewrite bool_decide_eq_true_2.
  - by rewrite bool_decide_eq_false_2.
Qed.
Lemma member_keys ms : dkeys (member_vals VDict ms) = names ms.
Proof. unfold dkeys. induction ms as [|k c a ms IH]; [done|]. cbn. by rewrite IH. Qed.
Lemma absent_val key ms : key ∉ names ms -> dget key (member_vals VDict ms) = None.
Proof. rewrite <- member_keys. apply dget_None. Qed.

Lemma find_first key ms p k c a rest o : first_member key ms p k c a rest ->
  List.find (fun item => bool_decide (item_key item = key)) (items_of o ms) =
  Some {| item_key := key; key_start := o + length p + length (lead k); key_end := o + length p + length (lead k) + length (literal k);
          value_start := o + length p + length (flat_key k); value_end := o + length p + length (flat_key k) + length (flat c) |}.
Proof.
  intros H. revert o. induction H as [k c a ms Hk|k2 c2 a2 ms p k c a rest Hne _ IH]; intros o; cbn [items_of List.find item_key].
  - rewrite bool_decide_eq_true_2 by done. rewrite Hk. cbn [length]. by rewrite Nat.add_0_r.
  - rewrite bool_decide_eq_false_2, IH by done. rewrite !length_app. cbn [length]. do 2 f_equal; lia.
Qed.

Lemma find_absent key ms o : key ∉ names ms -> List.find (fun item => bool_decide (item_key item = key)) (items_of o ms) = None.
Proof.
  revert o. induction ms as [|k c a ms IH]; intros o H; [done|]. cbn in *. rewrite not_elem_of_cons in H. destruct H as [Hne H].
  rewrite bool_decide_eq_false_2 by done. by apply IH.
Qed.

(** ** Paths *)
(** [focus path c p o q]: the objects of [c] have [o] at [path], between the texts [p] and [q]. *)
Inductive focus : list text -> cst -> text -> cst -> text -> Prop :=
| Focus_here c : focus [] c [] c []
| Focus_in key path gap ms p k c a rest p' o q : first_member key ms p k c a rest -> focus path c p' o q ->
    focus (key :: path) (CObj gap ms) ([123] ++ gap ++ p ++ flat_key k ++ p') o (q ++ a ++ tail_text rest ++ [125]).

Lemma focus_text path c p o q : focus path c p o q -> flat c = p ++ flat o ++ q.
Proof.
  induction 1 as [c|key path gap ms p k c a rest p' o q H _ IH]; [by rewrite app_nil_r|].
  cbn [flat]. rewrite (first_text _ _ _ _ _ _ _ H), IH. by rewrite <- !app_assoc.
Qed.
Lemma focus_wf path c p o q : focus path c p o q -> wf c -> wf o.
Proof. induction 1 as [c|key path gap ms p k c a rest p' o q H _ IH]; [done|]. intros [_ Hm]. by apply IH, (first_wf _ _ _ _ _ _ _ H). Qed.
Lemma focus_finite path c p o q : focus path c p o q -> finite c -> finite o.
Proof. induction 1 as [c|key path gap ms p k c a rest p' o q H _ IH]; [done|]. intros Hm. by apply IH, (first_finite _ _ _ _ _ _ _ H). Qed.

Lemma focus_snoc path c p gap ms q key p' k c' a rest : focus path c p (CObj gap ms) q -> first_member key ms p' k c' a rest ->
  focus (path ++ [key]) c (p ++ [123] ++ gap ++ p' ++ flat_key k) c' (a ++ tail_text rest ++ [125] ++ q).
Proof.
  intros H Hf. remember (CObj gap ms) as o eqn:Eo. induction H as [c|key' path gap' ms' p2 k2 c2 a2 rest2 p2' o q H _ IH]; subst.
  - pose proof (Focus_in key [] gap ms p' k c' a rest [] c' [] Hf (Focus_here c')) as H. rewrite !app_nil_r in *. cbn [app]. exact H.
  - specialize (IH eq_refl). pose proof (Focus_in _ _ gap' _ _ _ _ _ _ _ _ _ H IH) as H'. cbn [app] in *.
    rewrite <- !app_assoc in *. cbn [app] in *. rewrite <- ?app_assoc in *. exact H'.
Qed.

Definition is_obj (c : cst) : bool := match c with CObj _ _ => true | _ => false end.

(** A path leads to its last key in an object, present or not, or ends early: at an object without the
    next key, or at a value that is not an object. *)
Inductive route (path : list text) (c : cst) : Prop :=
| Route_found walked key p gap ms q p' k c' a rest : path = walked ++ [key] -> focus walked c p (CObj gap ms) q ->
    first_member key ms p' k c' a rest -> route path c
| Route_missing walked key others p gap ms q : path = walked ++ key :: others -> focus walked c p (CObj gap ms) q -> key ∉ names ms -> route path c
| Route_refused walked key next others p gap ms q p' k c' a rest : path = walked ++ key :: next :: others -> focus walked c p (CObj gap ms) q ->
    first_member key ms p' k c' a rest -> is_obj c' = false -> route path c.

Lemma routes path gap ms : path <> [] -> route path (CObj gap ms).
Proof.
  revert gap ms. induction path as [|key path IH]; [done|]. intros gap ms _. destruct (first_or_absent key ms) as [(p & k & c & a & rest & H)|H].
  2: { by eapply (Route_missing _ _ [] key path); [|constructor|]. }
  destruct path as [|next others]; [by eapply (Route_found _ _ [] key); [|constructor|]|].
  assert ((exists gap' ms', c = CObj gap' ms') \/ is_obj c = false) as [(gap' & ms' & ->)|Hc] by (destruct c; eauto).
  - destruct (IH gap' ms' ltac:(done)) as [walked key' p1 g1 m1 q1 p1' k1 c1 a1 r1 E F1 F2|walked key' o1 p1 g1 m1 q1 E F1 F2|walked key' n1 o1 p1 g1 m1 q1 p1' k1 c1 a1 r1 E F1 F2 F3];
      rewrite E; pose proof (Focus_in _ _ gap _ _ _ _ _ _ _ _ _ H F1) as F.
    + by eapply (Route_found _ _ (key :: walked) key').
    + by eapply (Route_missing _ _ (key :: walked) key').
    + by eapply (Route_refused _ _ (key :: walked) key').
  - by eapply (Route_refused _ _ [] key next others); [|constructor| |].
Qed.

(** ** The locator *)
Section Locate.
Context (t : text).

Lemma drop_pre (pre r : text) : t = pre ++ r -> drop (length pre) t = r.
Proof. intros ->. apply drop_app_length. Qed.

Lemma items_at pre gap ms post : t = pre ++ flat (CObj gap ms) ++ post -> wf (CObj gap ms) -> finite (CObj gap ms) ->
  object_items (S (length t)) t (length pre + length (flat (CObj gap ms))) (S (length pre)) = Ok (items_of (S (length pre) + length gap) ms).
Proof.
  intros Ht [Hg Hm] Hf. assert (drop (length pre) t = 123 :: gap ++ flat_members ms ++ 125 :: post) as D.
  { apply drop_pre. rewrite Ht. cbn [flat]. drop_tac. }
  destruct (drop_char _ _ _ _ D) as [_ D']. destruct ms as [|k c a ms].
  - cbn [object_items flat flat_members items_of app length] in *. destruct (skip_to _ _ _ _ _ D' Hg ltac:(done)) as (_ & _ & Hat).
    rewrite Hat. change (125 =? 125) with true. by rewrite orb_true_r.
  - apply (object_items_tree _ _ _ _ _ gap post Hm Hf ltac:(done) D' Hg).
    + cbn [flat]. rewrite !length_app. cbn [length]. lia.
    + apply (f_equal length) in D'. rewrite length_drop, !length_app in D'. cbn [length] in D'. lia.
Qed.

Lemma at_value pre c post : t = pre ++ flat c ++ post -> wf c -> skip t (length pre) = length pre /\ drop (length pre) t = flat c ++ post.
Proof.
  intros Ht Hc. pose proof (drop_pre _ _ Ht) as D. split; [|done].
  destruct (flat_head c Hc) as (x & l & E & Hx & _). rewrite E in D. cbn [app] in D. by destruct (skip_to t _ [] x _ D white_nil Hx) as [-> _].
Qed.

Lemma opens_object pre c post : t = pre ++ flat c ++ post -> wf c -> exists x, t !! length pre = Some x /\ (x =? 123) = is_obj c.
Proof.
  intros Ht Hc. pose proof (drop_pre _ _ Ht) as D. destruct c as [lit x|lex v|gap es|gap ms]; cbn [wf flat] in *.
  - destruct Hc as (b & ts & -> & _). destruct (drop_char _ _ _ _ D) as [H _]. by exists 34.
  - destruct (atom_head _ _ Hc) as (x & l & -> & Hx). destruct (drop_char _ _ _ _ D) as [H _]. exists x. split; [done|].
    by destruct (opens_not _ Hx) as (_ & E & _).
  - destruct (drop_char t _ 91 _ D) as [H _]. by exists 91.
  - destruct (drop_char t _ 123 _ D) as [H _]. by exists 123.
Qed.

(** Where the value of the first member of a key starts. *)
Definition value_at (pre gap p : text) (k : Key) : nat := length (pre ++ [123] ++ gap ++ p ++ flat_key k).

Lemma locate_first pre gap ms post key p k c a rest others :
  t = pre ++ flat (CObj gap ms) ++ post -> wf (CObj gap ms) -> finite (CObj gap ms) -> first_member key ms p k c a rest ->
  let start := value_at pre gap p k in
  locate_in t (length pre) (length pre + length (flat (CObj gap ms))) (key :: others) =
  match others with
  | [] => Ok (Found start (start + length (flat c)) (length (pre ++ [123] ++ gap ++ p ++ lead k)))
  | _ => if is_obj c then locate_in t start (start + length (flat c)) others else not_an_object key
  end.
Proof.
  intros Ht Hw Hf H start. cbn [locate_in]. rewrite (items_at _ _ _ _ Ht Hw Hf). cbn [rbind].
  rewrite (find_first _ _ _ _ _ _ _ _ H). cbn [value_start value_end key_start].
  replace (S (length pre) + length gap + length p + length (flat_key k))%nat with start
    by (unfold start, value_at; rewrite !length_app; cbn [length]; lia).
  replace (S (length pre) + length gap + length p + length (lead k))%nat with (length (pre ++ [123] ++ gap ++ p ++ lead k))
    by (rewrite !length_app; cbn [length]; lia).
  destruct others as [|next others]; [done|].
  assert (t = (pre ++ [123] ++ gap ++ p ++ flat_key k) ++ flat c ++ (a ++ tail_text rest ++ [125] ++ post)) as Ht'.
  { rewrite Ht. cbn [flat]. rewrite (first_text _ _ _ _ _ _ _ H). by rewrite <- !app_assoc. }
  assert (wf c) as Hc by apply (first_wf _ _ _ _ _ _ _ H (proj2 Hw)).
  destruct (at_value _ _ _ Ht' Hc) as [Es _]. unfold start, value_at. rewrite Es.
  destruct (opens_object _ _ _ Ht' Hc) as (x & -> & ->). by destruct (is_obj c).
Qed.

Lemma locate_focus path c p o q : focus path c p o q -> forall pre post others, t = pre ++ flat c ++ post -> wf c -> finite c ->
  is_obj o = true -> others <> [] ->
  locate_in t (length pre) (length pre + length (flat c)) (path ++ others) =
  locate_in t (length (pre ++ p)) (length (pre ++ p) + length (flat o)) others.
Proof.
  induction 1 as [c|key path gap ms p k c a rest p' o q H F IH]; intros pre post others Ht Hw Hf Ho Hne; [by rewrite app_nil_r|].
  cbn [app]. rewrite (locate_first _ _ _ _ _ _ _ _ _ _ (path ++ others) Ht Hw Hf H).
  assert (is_obj c = true) as -> by (destruct F; [done|done]).
  assert (t = (pre ++ [123] ++ gap ++ p ++ flat_key k) ++ flat c ++ (a ++ tail_text rest ++ [125] ++ post)) as Ht'.
  { rewrite Ht. cbn [flat]. rewrite (first_text _ _ _ _ _ _ _ H). by rewrite <- !app_assoc. }
  specialize (IH _ _ others Ht' ltac:(apply (first_wf _ _ _ _ _ _ _ H (proj2 Hw))) ltac:(apply (first_finite _ _ _ _ _ _ _ H Hf)) Ho Hne).
  destruct (path ++ others) as [|x l] eqn:E; [by destruct path|]. unfold value_at. rewrite IH. rewrite <- !app_assoc. done.
Qed.

Lemma locate_absent pre gap ms post key others : t = pre ++ flat (CObj gap ms) ++ post -> wf (CObj gap ms) -> finite (CObj gap ms) ->
  key ∉ names ms -> locate_in t (length pre) (length pre + length (flat (CObj gap ms))) (key :: others) =
  Ok (Missing (length pre) (length pre + length (flat (CObj gap ms))) (key :: others)).
Proof. intros Ht Hw Hf H. cbn [locate_in]. rewrite (items_at _ _ _ _ Ht Hw Hf). cbn [rbind]. by rewrite find_absent. Qed.

(** From the top of a document. *)
Section Top.
Context (w1 : text) (c : cst) (w2 : text).
Hypothesis (Ht : t = document w1 c w2) (Hw1 : white w1) (Hc : wf c) (Hw2 : white w2) (Hf : finite c).

Lemma locate_top path : locate t path = if is_obj c then locate_in t (length w1) (length w1 + length (flat c)) path else not_an_object (u "top level").
Proof.
  unfold locate. destruct (flat_head c Hc) as (x & l & E & Hx & _).
  assert (drop 0 t = w1 ++ x :: l ++ w2) as D by (rewrite Ht; unfold document; by rewrite E).
  destruct (skip_to t 0 w1 x _ D Hw1 Hx) as (Es & _ & Hat). rewrite Hat. cbn [Nat.add] in Es.
  destruct (opens_object w1 c w2 Ht Hc) as (y & Hy & <-). assert (x = y) as <-.
  { pose proof (drop_pre w1 (flat c ++ w2) Ht) as D'. rewrite E in D'. cbn [app] in D'. destruct (drop_char _ _ _ _ D') as [H _]. congruence. }
  destruct (x =? 123); [|done]. cbn [negb]. rewrite Es. pose proof (drop_pre w1 (flat c ++ w2) Ht) as D'.
  assert (ends w2) as He by (destruct w2 as [|y w]; [done|]; rewrite <- (app_nil_r (y :: w)); by apply white_ends).
  rewrite (proj1 value_span_tree c Hc Hf _ t (length w1) [] w2 D' white_nil He) by by eapply span_fuel_enough.
  cbn [rbind fst snd length]. by rewrite !Nat.add_0_r.
Qed.

Lemma locate_found walked key p gap ms q p' k c' a rest : focus walked c p (CObj gap ms) q -> first_member key ms p' k c' a rest ->
  let start := value_at (w1 ++ p) gap p' k in
  locate t (walked ++ [key]) = Ok (Found start (start + length (flat c')) (length ((w1 ++ p) ++ [123] ++ gap ++ p' ++ lead k))).
Proof.
  intros F H start. rewrite locate_top. assert (is_obj c = true) as -> by (inversion F; done).
  rewrite (locate_focus _ _ _ _ _ F w1 w2 [key]) by done.
  apply (locate_first _ gap ms (q ++ w2) key p' k c' a rest []); [|by eapply focus_wf|by eapply focus_finite|done].
  rewrite Ht. unfold document. rewrite (focus_text _ _ _ _ _ F). by rewrite <- !app_assoc.
Qed.

Lemma locate_missing walked key others p gap ms q : focus walked c p (CObj gap ms) q -> key ∉ names ms ->
  locate t (walked ++ key :: others) = Ok (Missing (length (w1 ++ p)) (length (w1 ++ p) + length (flat (CObj gap ms))) (key :: others)).
Proof.
  intros F H. rewrite locate_top. assert (is_obj c = true) as -> by (inversion F; done).
  rewrite (locate_focus _ _ _ _ _ F w1 w2 (key :: others)) by done.
  apply (locate_absent _ gap ms (q ++ w2)); [|by eapply focus_wf|by eapply focus_finite|done].
  rewrite Ht. unfold document. rewrite (focus_text _ _ _ _ _ F). by rewrite <- !app_assoc.
Qed.

Lemma locate_refused walked key next others p gap ms q p' k c' a rest : focus walked c p (CObj gap ms) q -> first_member key ms p' k c' a rest ->
  is_obj c' = false -> locate t (walked ++ key :: next :: others) = not_an_object key.
Proof.
  intros F H Hobj. rewrite locate_top. assert (is_obj c = true) as -> by (inversion F; done).
  rewrite (locate_focus _ _ _ _ _ F w1 w2 (key :: next :: others)) by done.
  rewrite (locate_first _ gap ms (q ++ w2) key p' k c' a rest (next :: others)) by (first [exact H|by eapply focus_wf|by eapply focus_finite|
    rewrite Ht; unfold document; rewrite (focus_text _ _ _ _ _ F); by rewrite <- !app_assoc]).
  by rewrite Hobj.
Qed.
End Top.
End Locate.
