(* ===== verification/JsonWrite.v ===== *)
(** * What the encoder writes

    [json.dumps] of a value without floats, padded as the editor pads it, is the text of a well-formed
    tree of that value: what the installer writes it reads back. *)
From S2P Require Import Prelude Float64 Json Serialize Text PyStrings JsonText JsonEdit JsonLocate.
Open Scope Z_scope.

(** ** Padding *)
Definition pad_lines (pad t : text) : text := flat_map (fun c => if c =? 10 then 10 :: pad else [c]) t.

Lemma pad_app pad a b : pad_lines pad (a ++ b) = pad_lines pad a ++ pad_lines pad b.
Proof. apply flat_map_app. Qed.
Lemma pad_id pad t : Forall (fun c => not_newline c = true) t -> pad_lines pad t = t.
Proof. induction 1 as [|c t Hc _ IH]; [done|]. unfold pad_lines in *. cbn. unfold not_newline in Hc. apply negb_true_iff in Hc. by rewrite Hc, IH. Qed.

Lemma place_pad t pad : place t pad = pad_lines pad t.
Proof.
  unfold place. induction t as [|c t IH]; [done|]. cbn [split_char]. change (pad_lines pad (c :: t)) with ((if c =? 10 then 10 :: pad else [c]) ++ pad_lines pad t).
  rewrite <- IH. destruct (c =? 10) eqn:E.
  - apply Z.eqb_eq in E as ->. destruct (split_char 10 t) as [|f ls] eqn:Es; [by destruct t as [|d t]; cbn in Es; [|destruct (d =? 10); [|destruct (split_char 10 t)]]|].
    cbn [fmap list_fmap]. destruct ls; cbn [join fmap list_fmap app]; [done|]. by rewrite <- !app_assoc.
  - destruct (split_char 10 t) as [|f ls] eqn:Es; [by destruct t as [|d t]; cbn in Es; [|destruct (d =? 10); [|destruct (split_char 10 t)]]|].
    by destruct ls.
Qed.

(** ** Values the encoder writes back *)
Definition code_points (t : text) : Prop := Forall (fun c => 0 <= c) t.

Fixpoint writable (v : value) : Prop :=
  match v with
  | VNone | VBool _ => True
  | VInt n => (length (digits (Z.abs n)) <= 4300)%nat
  | VFloat _ => False
  | VStr t => code_points t
  | VList l => fold_right (fun v P => writable v /\ P) True l
  | VDict d => NoDup (dkeys d) /\ fold_right (fun kv P => (code_points kv.1 /\ writable kv.2) /\ P) True d
  end.

Lemma writable_list l : fold_right (fun v P => writable v /\ P) True l <-> Forall writable l.
Proof. induction l as [|v l IH]; cbn; [split; [constructor|done]|]. by rewrite Forall_cons, IH. Qed.
Lemma writable_dict (d : dict value) : fold_right (fun kv P => (code_points kv.1 /\ writable kv.2) /\ P) True d <-> Forall (fun kv => code_points kv.1 /\ writable kv.2) d.
Proof. induction d as [|v l IH]; cbn; [split; [constructor|done]|]. by rewrite Forall_cons, IH. Qed.

Definition code_points_b (t : text) : bool := forallb (fun c => 0 <=? c) t.
Lemma code_points_b_sound t : code_points_b t = true -> code_points t.
Proof. unfold code_points_b. rewrite forallb_forall. intros H. apply Forall_forall. intros c Hc. by apply Z.leb_le, H, list_elem_of_In. Qed.

Fixpoint writable_b (v : value) : bool :=
  match v with
  | VInt n => (length (digits (Z.abs n)) <=? 4300)%nat
  | VFloat _ => false
  | VStr t => code_points_b t
  | VList l => forallb writable_b l
  | VDict d => bool_decide (NoDup (dkeys d)) && forallb (fun kv => code_points_b kv.1 && writable_b kv.2) d
  | _ => true
  end.
Lemma writable_b_sound v : writable_b v = true -> writable v.
Proof.
  induction v as [| |n| |t|l IH|d IH] using value_induction; try done.
  - apply Nat.leb_le.
  - apply code_points_b_sound.
  - cbn. rewrite writable_list, forallb_forall. intros H. induction IH as [|v l Hv _ IHl]; constructor; [by apply Hv, H; left|].
    apply IHl. intros w Hw. apply H. by right.
  - cbn. rewrite writable_dict, andb_true_iff, bool_decide_eq_true, forallb_forall. intros [Hn H]. split; [done|]. clear Hn.
    induction IH as [|kv d Hv _ IHd]; constructor.
    + destruct (andb_prop _ _ (H kv (or_introl eq_refl))) as [H1 H2]. split; [by apply code_points_b_sound|by apply Hv].
    + apply IHd. intros w Hw. apply H. by right.
Qed.

Lemma writable_wf v : writable v -> wf_value v.
Proof.
  induction v as [| | | | |l IH|d IH] using value_induction; try done.
  - cbn. rewrite writable_list. intros H. induction IH as [|v l Hv _ IHl]; [done|]. inversion H; subst. cbn. split; [by apply Hv|by apply IHl].
  - cbn. rewrite writable_dict. intros [Hn H]. split; [done|]. clear Hn. induction IH as [|kv d Hv _ IHl]; [done|]. inversion H as [|? ? [_ Hw] H']; subst.
    cbn. split; [by apply Hv|by apply IHl].
Qed.

(** ** Strings *)
Lemma hex_of_value c x : hex_value c = Some x -> hex_of c = Some x.
Proof. unfold hex_value, hex_of. destruct (is_digit c); [done|]. by destruct ((97 <=? c) && (c <=? 102)). Qed.
Lemma hex4_of_value a b c d x : hex4_value a b c d = Some x -> hex4_of a b c d = Some x.
Proof.
  unfold hex4_value, hex4_of. destruct (hex_value a) eqn:Ea, (hex_value b) eqn:Eb, (hex_value c) eqn:Ec, (hex_value d) eqn:Ed; try done.
  by rewrite (hex_of_value _ _ Ea), (hex_of_value _ _ Eb), (hex_of_value _ _ Ec), (hex_of_value _ _ Ed).
Qed.

(** One character is written as one token that stands for it and pairs with nothing. *)
Definition stands_for (tok : token) (c : Z) : Prop := tok = Raw c \/ tok = Escaped c /\ c < 32.

Lemma escaped_body c b ts : 0 <= c -> body b ts -> exists tok, stands_for tok c /\ body (escaped_char c ++ b) (tok :: ts).
Proof.
  intros Hc Hb. unfold escaped_char.
  destruct (c =? 34) eqn:E34; [apply Z.eqb_eq in E34 as ->; exists (Raw 34); split; [by left|by apply B_short]|].
  destruct (c =? 92) eqn:E92; [apply Z.eqb_eq in E92 as ->; exists (Raw 92); split; [by left|by apply B_short]|].
  destruct (c =? 8) eqn:E8; [apply Z.eqb_eq in E8 as ->; exists (Raw 8); split; [by left|by apply B_short]|].
  destruct (c =? 12) eqn:E12; [apply Z.eqb_eq in E12 as ->; exists (Raw 12); split; [by left|by apply B_short]|].
  destruct (c =? 10) eqn:E10; [apply Z.eqb_eq in E10 as ->; exists (Raw 10); split; [by left|by apply B_short]|].
  destruct (c =? 13) eqn:E13; [apply Z.eqb_eq in E13 as ->; exists (Raw 13); split; [by left|by apply B_short]|].
  destruct (c =? 9) eqn:E9; [apply Z.eqb_eq in E9 as ->; exists (Raw 9); split; [by left|by apply B_short]|].
  destruct (c <? 32) eqn:E32.
  - apply Z.ltb_lt in E32. destruct (hex4_roundtrip c b ltac:(lia)) as (h1 & h2 & h3 & h4 & E & Hv). exists (Escaped c). split; [by right|].
    cbn [app]. rewrite E. apply B_hex; [by apply hex4_of_value|done].
  - exists (Raw c). split; [by left|]. apply Z.eqb_neq in E34, E92. by apply B_raw.
Qed.

Lemma join_stands tok c ts : stands_for tok c -> join_tokens (tok :: ts) = c :: join_tokens ts.
Proof.
  intros [->|[-> Hc]]; [done|]. cbn [join_tokens]. destruct ts as [|[d|d] ts]; [done|done|].
  replace (Utf16.is_high c) with false; [done|]. unfold Utf16.is_high. lia.
Qed.

Lemma dumps_body t : code_points t -> exists ts, body (concat (escaped_char <$> t) ++ dq) ts /\ join_tokens ts = t.
Proof.
  induction 1 as [|c t Hc _ (ts & Hb & Hj)]; [exists []; split; [constructor|done]|].
  destruct (escaped_body c _ _ Hc Hb) as (tok & Ht & Hb'). exists (tok :: ts). cbn [fmap list_fmap concat]. rewrite <- app_assoc.
  split; [done|]. by rewrite (join_stands _ _ _ Ht), Hj.
Qed.

Lemma dumps_literal t : code_points t -> literal_of (dumps_string t) t.
Proof. intros H. destruct (dumps_body t H) as (ts & Hb & Hj). by exists (concat (escaped_char <$> t) ++ dq), ts. Qed.

Lemma body_no_newline b ts : body b ts -> Forall (fun c => not_newline c = true) b.
Proof.
  induction 1 as [|c b ts _ _ H3 _ IH|e v b ts Hs _ IH|h1 h2 h3 h4 v b ts Hv _ IH].
  - by repeat constructor.
  - constructor; [unfold not_newline; lia|done].
  - constructor; [done|]. constructor; [|done]. unfold not_newline. destruct (e =? 10) eqn:E; [apply Z.eqb_eq in E as ->; done|done].
  - assert (forall h, is_Some (hex_of h) -> not_newline h = true) as Hh.
    { intros h [x Hx]. unfold not_newline. destruct (h =? 10) eqn:E; [by apply Z.eqb_eq in E as ->|done]. }
    unfold hex4_of in Hv. destruct (hex_of h1) eqn:E1, (hex_of h2) eqn:E2, (hex_of h3) eqn:E3, (hex_of h4) eqn:E4; try done.
    repeat (constructor; [first [done|apply Hh; by eexists]|]). done.
Qed.

Lemma literal_pad lit t pad : literal_of lit t -> pad_lines pad lit = lit.
Proof. intros (b & ts & -> & Hb & _). apply pad_id. constructor; [done|by eapply body_no_newline]. Qed.

(** ** Integers *)
Lemma digits_go_leading fuel n acc : 0 < n < 2 ^ Z.of_nat fuel -> exists c l, digits_go fuel n acc = c :: l /\ c <> 48.
Proof.
  revert n acc. induction fuel as [|fuel IH]; intros n acc Hn; [cbn in Hn; lia|]. cbn [digits_go]. destruct (n <? 10) eqn:E.
  - eexists _, _. split; [done|]. rewrite Z.mod_small by lia. lia.
  - apply IH. split; [apply Z.div_str_pos; lia|]. apply Z.div_lt_upper_bound; [lia|]. rewrite Nat2Z.inj_succ, Z.pow_succ_r in Hn by lia. lia.
Qed.

Lemma digits_leading n : 0 <= n -> digits n = [48] \/ exists c l, digits n = c :: l /\ c <> 48.
Proof.
  intros Hn. destruct (Z.eq_dec n 0) as [->|]; [by left|right]. unfold digits. apply digits_go_leading. split; [lia|].
  rewrite Nat2Z.inj_succ, Z2Nat.id by apply Z.log2_nonneg. apply Z.log2_spec. lia.
Qed.

Lemma scan_digits n r : 0 <= n -> ends r -> scan_whole (digits n ++ r) = Some (digits n, r).
Proof.
  intros Hn Hr. pose proof (digits_digit n Hn) as Hd. destruct (digits_leading n Hn) as [->|(c & l & E & Hc)]; [done|].
  rewrite E in *. unfold scan_whole. cbn [app]. rewrite (proj2 (Z.eqb_neq _ _) Hc). change (c :: l ++ r) with ((c :: l) ++ r).
  by rewrite span_digits_app by (done || by apply ends_digit).
Qed.

Definition int_number (n : Z) : number :=
  {| negative := n <? 0; whole := digits (Z.abs n); fraction := []; exponent := None; lexeme := str_of_Z n |}.

Lemma scan_int n r : ends r -> scan_number (str_of_Z n ++ r) = Some (int_number n, r).
Proof.
  intros Hr. pose proof (scan_fraction_sound r [] r) as Hfr. unfold scan_number, int_number, str_of_Z.
  assert (scan_fraction r = ([], r)) as Ef.
  { destruct r as [|c r]; [done|]. cbn. destruct (c =? 46) eqn:E; [|done]. apply Z.eqb_eq in E as ->. done. }
  destruct (n <? 0) eqn:E.
  - cbn [app]. change (45 =? 45) with true. cbv iota. rewrite scan_digits by (done || lia). rewrite Ef, scan_exponent_none by done.
    rewrite app_nil_r. by replace (Z.abs n) with (- n) by lia.
  - replace (Z.abs n) with n by lia. pose proof (scan_digits n r ltac:(lia) Hr) as Hd.
    destruct (digits n) as [|d ds] eqn:Ed; [by destruct (digits_nonempty n)|]. cbn [app] in *.
    pose proof (digits_digit n ltac:(lia)) as Hdig. rewrite Ed in Hdig. destruct (d =? 45) eqn:E45; [apply Z.eqb_eq in E45 as ->; inversion Hdig; done|].
    rewrite Hd, Ef, scan_exponent_none by done. cbn [app]. by rewrite app_nil_r.
Qed.

Lemma int_atom n : (length (digits (Z.abs n)) <= 4300)%nat -> atom_of (str_of_Z n) (VInt n).
Proof.
  intros Hl. pose proof (scan_int n [] I) as H. rewrite app_nil_r in H. apply scan_number_sound in H as (_ & H2 & H3 & _).
  apply (Atom_number (int_number n)); cbn [lexeme int_number] in *; try done.
  - destruct H3 as (c & x & -> & _). done.
  - intros r. apply scan_int.
  - unfold number_value, int_number. cbn [fraction exponent whole negative]. rewrite (proj2 (Nat.ltb_ge _ _) Hl).
    rewrite int_of_digits_digits by lia. do 2 f_equal. destruct (n <? 0) eqn:E; lia.
Qed.

(** ** The tree of a written value *)
Section Written.
Context (indent : option text).

Definition written_key (nl k : text) : Key :=
  {| lead := deeper indent nl; literal := dumps_string k; name := k; before_colon := [];
     after_colon := match indent with None => [] | Some _ => [32] end |}.

Fixpoint written_elems (nl : text) (cs : list cst) : elems :=
  match cs with [] => ENil | c :: cs' => ECons (deeper indent nl) c (match cs' with [] => nl | _ => [] end) (written_elems nl cs') end.
Fixpoint written_members (nl : text) (kcs : list (text * cst)) : members :=
  match kcs with
  | [] => MNil
  | (k, c) :: kcs' => MCons (written_key nl k) c (match kcs' with [] => nl | _ => [] end) (written_members nl kcs')
  end.

Fixpoint written (nl : text) (v : value) : cst :=
  match v with
  | VNone => CAtom (u "null") VNone
  | VBool true => CAtom (u "true") (VBool true)
  | VBool false => CAtom (u "false") (VBool false)
  | VInt n => CAtom (str_of_Z n) (VInt n)
  | VFloat x => CAtom (float_repr x) (VFloat x)
  | VStr t => CStr (dumps_string t) t
  | VList l => CArr [] (written_elems nl (List.map (written (deeper indent nl)) l))
  | VDict d => CObj [] (written_members nl (List.map (fun kv => (kv.1, written (deeper indent nl) kv.2)) d))
  end.

Hypothesis Hindent : match indent with None => True | Some i => white i /\ Forall (fun c => not_newline c = true) i end.

Lemma deeper_white nl : white nl -> white (deeper indent nl).
Proof. intros H. unfold deeper. destruct indent as [i|]; [apply white_app; by destruct Hindent|done]. Qed.
Lemma deeper_pad pad nl : pad_lines pad (deeper indent nl) = deeper indent (pad_lines pad nl).
Proof. unfold deeper. destruct indent as [i|]; [|done]. destruct Hindent as [_ H]. by rewrite pad_app, (pad_id pad i). Qed.

Lemma flat_written_elems nl cs : cs <> [] ->
  flat_elems (written_elems nl cs) = deeper indent nl ++ join (u "," ++ deeper indent nl) (flat <$> cs) ++ nl.
Proof.
  induction cs as [|c cs IH]; [done|]. intros _. destruct cs as [|c2 cs].
  - cbn. by rewrite app_nil_r.
  - specialize (IH ltac:(done)).
    change (flat_elems (written_elems nl (c :: c2 :: cs))) with (deeper indent nl ++ flat c ++ [] ++ [44] ++ flat_elems (written_elems nl (c2 :: cs))).
    rewrite IH. cbn [fmap list_fmap]. rewrite (join_cons _ (flat c)) by done. cbn [app]. by rewrite <- !app_assoc.
Qed.

Lemma flat_written_members nl kcs : kcs <> [] ->
  flat_members (written_members nl kcs) =
  deeper indent nl ++ join (u "," ++ deeper indent nl) ((fun kc => dumps_string kc.1 ++ key_separator indent ++ flat kc.2) <$> kcs) ++ nl.
Proof.
  assert (forall nl k c, flat_key (written_key nl k) ++ flat c = deeper indent nl ++ dumps_string k ++ key_separator indent ++ flat c) as Hk.
  { intros nl' k c. unfold flat_key, written_key, key_separator. cbn [lead literal before_colon after_colon app]. rewrite <- !app_assoc. by destruct indent. }
  induction kcs as [|[k c] kcs IH]; [done|]. intros _. destruct kcs as [|[k2 c2] kcs].
  - cbn [written_members flat_members fmap list_fmap fst snd join]. rewrite (app_assoc (flat_key _)), Hk. by rewrite <- !app_assoc, app_nil_r.
  - specialize (IH ltac:(done)).
    change (flat_members (written_members nl ((k, c) :: (k2, c2) :: kcs)))
      with (flat_key (written_key nl k) ++ flat c ++ [] ++ [44] ++ flat_members (written_members nl ((k2, c2) :: kcs))).
    rewrite IH, (app_assoc (flat_key _)), Hk. cbn [fmap list_fmap fst snd]. rewrite (join_cons _ (dumps_string k ++ _)) by done.
    cbn [app]. by rewrite <- !app_assoc.
Qed.

Lemma pad_join pad sep l : pad_lines pad (join sep l) = join (pad_lines pad sep) (pad_lines pad <$> l).
Proof.
  induction l as [|t l IH]; [done|]. destruct l as [|t2 l]; [done|]. cbn [fmap list_fmap] in *.
  rewrite !join_cons by done. by rewrite !pad_app, IH.
Qed.

(** The encoder's text, padded, is the text of the tree. *)
Lemma written_text pad v : writable v -> forall nl, pad_lines pad (dumps_at indent nl v) = flat (written (pad_lines pad nl) v).
Proof.
  induction v as [|[]|n|x|t|l IH|d IH] using value_induction; intros Hw nl; try done.
  - cbn [dumps_at written flat]. apply pad_id. pose proof (scan_int n [] I) as H. rewrite app_nil_r in H.
    apply scan_number_sound in H as (_ & H & _). eapply Forall_impl; [exact H|]. unfold numberish, is_digit, not_newline. intros c Hc. lia.
  - cbn [dumps_at written flat]. by eapply literal_pad, dumps_literal.
  - cbn [writable] in Hw. rewrite writable_list in Hw. destruct l as [|v l]; [done|].
    cbn [written flat]. rewrite flat_written_elems by done. set (vl := v :: l) in *.
    change (dumps_at indent nl (VList vl)) with (u "[" ++ deeper indent nl ++ join (u "," ++ deeper indent nl) (List.map (dumps_at indent (deeper indent nl)) vl) ++ nl ++ u "]").
    rewrite !pad_app, pad_join, !pad_app, !deeper_pad. change (pad_lines pad (u "[")) with [91]. change (pad_lines pad (u ",")) with (u ",").
    change (pad_lines pad (u "]")) with [93]. rewrite <- !app_assoc. cbn [app]. do 3 f_equal.
    assert (pad_lines pad <$> List.map (dumps_at indent (deeper indent nl)) vl = flat <$> List.map (written (deeper indent (pad_lines pad nl))) vl) as ->; [|done].
    clear -IH Hw Hindent. induction vl as [|w vl IHl]; [done|]. inversion Hw; inversion IH; subst. cbn. rewrite IHl by done. rewrite <- deeper_pad. f_equal. auto.
  - cbn [writable] in Hw. rewrite writable_dict in Hw. destruct Hw as [_ Hw]. destruct d as [|kv d]; [done|].
    cbn [written flat]. rewrite flat_written_members by done. set (vl := kv :: d) in *.
    change (dumps_at indent nl (VDict vl)) with (u "{" ++ deeper indent nl ++ join (u "," ++ deeper indent nl)
      (List.map (fun kv => dumps_string kv.1 ++ key_separator indent ++ dumps_at indent (deeper indent nl) kv.2) vl) ++ nl ++ u "}").
    rewrite !pad_app, pad_join, !pad_app, !deeper_pad. change (pad_lines pad (u "{")) with [123]. change (pad_lines pad (u ",")) with (u ",").
    change (pad_lines pad (u "}")) with [125]. rewrite <- !app_assoc. cbn [app]. do 3 f_equal.
    match goal with |- join _ ?a = join _ ?b => assert (a = b) as ->; [|done] end.
    clear -IH Hw Hindent. induction vl as [|[k w] vl IHl]; [done|]. inversion Hw as [|? ? [Hk Hv] Hw']; inversion IH; subst. cbn [List.map fmap list_fmap fst snd] in *.
    rewrite IHl by done. f_equal. rewrite !pad_app, <- deeper_pad. rewrite (literal_pad _ k) by by apply dumps_literal.
    do 2 f_equal; [|auto]. unfold key_separator. by destruct indent.
Qed.

Definition good (c : cst) (v : value) : Prop := wf c /\ finite c /\ val VDict c = v.

Lemma written_elems_good nl cs vs : white nl -> Forall2 good cs vs ->
  wf_elems (written_elems nl cs) /\ finite_elems (written_elems nl cs) /\ elem_vals VDict (written_elems nl cs) = vs.
Proof.
  intros Hnl. pose proof (deeper_white nl Hnl). induction 1 as [|c v cs vs (H1 & H2 & H3) _ (G1 & G2 & G3)]; [done|].
  cbn [written_elems wf_elems finite_elems elem_vals]. rewrite H3, G3. repeat split; try done. by destruct cs.
Qed.

Lemma written_key_wf nl k : white nl -> code_points k -> wf_key (written_key nl k).
Proof.
  intros Hnl Hk. repeat split; [by apply deeper_white|by apply dumps_literal|done|]. cbn. destruct indent; [by repeat constructor|done].
Qed.

Lemma written_members_good nl kcs (kvs : dict value) : white nl -> Forall2 (fun kc kv => kc.1 = kv.1 /\ code_points kc.1 /\ good kc.2 kv.2) kcs kvs ->
  wf_members (written_members nl kcs) /\ finite_members (written_members nl kcs) /\ member_vals VDict (written_members nl kcs) = kvs.
Proof.
  intros Hnl. induction 1 as [|[k c] [k' v] kcs kvs (Hk & Hc & H1 & H2 & H3) _ (G1 & G2 & G3)]; [done|]. cbn [fst snd] in *. subst k'.
  cbn [written_members wf_members finite_members member_vals]. rewrite H3, G3. repeat split; try done; try (by apply deeper_white).
  - by apply dumps_literal.
  - cbn. destruct indent; [by repeat constructor|done].
  - by destruct kcs.
Qed.

Lemma written_good v : writable v -> forall nl, white nl -> good (written nl v) v.
Proof.
  unfold good. induction v as [|[]|n|x|t|l IH|d IH] using value_induction; intros Hw nl Hnl; try done.
  - split; [|done]. apply Atom_constant. unfold constants. set_solver.
  - split; [|done]. apply Atom_constant. unfold constants. set_solver.
  - split; [|done]. apply Atom_constant. unfold constants. set_solver.
  - split; [by apply int_atom|]. split; [|done]. cbn. pose proof (scan_int n [] I) as H. rewrite app_nil_r in H.
    apply scan_number_sound in H as (_ & _ & (c & x & E & Hc) & _). cbn [lexeme int_number] in E. unfold finite_atom. rewrite E.
    split; [intros [= -> _]; destruct Hc; done|]. split; [intros [= -> _]; destruct Hc; done|]. intros [= -> ->].
    unfold str_of_Z in E. destruct (n <? 0) eqn:En.
    + injection E as E. pose proof (digits_digit (- n) ltac:(lia)) as Hd. rewrite E in Hd. by inversion Hd.
    + pose proof (digits_digit n ltac:(lia)) as Hd. rewrite E in Hd. by inversion Hd.
  - split; [by apply dumps_literal|done].
  - cbn [writable] in Hw. rewrite writable_list in Hw. cbn [written wf finite val].
    destruct (written_elems_good nl (List.map (written (deeper indent nl)) l) l Hnl) as (H1 & H2 & ->); [|done].
    clear -IH Hw Hnl Hindent. induction l as [|v l IHl]; [constructor|]. inversion Hw; inversion IH; subst. constructor; [|by apply IHl].
    match goal with H : writable v -> _ |- _ => apply H; [done|by apply deeper_white] end.
  - cbn [writable] in Hw. rewrite writable_dict in Hw. destruct Hw as [_ Hw]. cbn [written wf finite val].
    destruct (written_members_good nl (List.map (fun kv => (kv.1, written (deeper indent nl) kv.2)) d) d Hnl) as (H1 & H2 & ->); [|done].
    clear -IH Hw Hnl Hindent. induction d as [|[k v] d IHl]; [constructor|]. inversion Hw as [|? ? [Hk Hv] Hw']; inversion IH; subst. constructor; [|by apply IHl].
    cbn [fst snd] in *. split; [done|]. split; [done|]. match goal with H : writable v -> _ |- _ => apply H; [done|by apply deeper_white] end.
Qed.
End Written.

(** What the editor splices in: the text of a tree of the value. *)
Lemma rendered_tree v indent pad : writable v -> white pad -> Forall (fun c => not_newline c = true) pad ->
  match indent with None => True | Some i => white i /\ Forall (fun c => not_newline c = true) i end ->
  exists c, good c v /\ place (render v indent) pad = flat c.
Proof.
  intros Hv Hw Hn Hi. rewrite place_pad. unfold render, json_dumps.
  set (nl := match indent with None => [] | Some _ => [10] end).
  exists (written indent (pad_lines pad nl) v). split; [|by apply written_text]. apply written_good; [done|done|].
  subst nl. destruct indent; [|done]. cbn. constructor; [done|]. by rewrite app_nil_r.
Qed.
