(* ===== verification/JsonEditSpec.v ===== *)
(** * What an edit does to a document

    The text [assign] returns reads as the old document with the value in its place, and the text that
    [remove] returns as the document without the key, on the layouts where the cut leaves one. *)
From S2P Require Import Prelude Float64 Json PyStrings JsonText JsonEdit JsonLocate JsonWrite.
Open Scope Z_scope.

(** ** Specification *)
(** The document stands for [v], with no key repeated in an object; a blank one for an empty object. *)
Definition reads (t : text) (v : value) : Prop :=
  if blank t then v = VDict [] else exists m, mask_comments t = Ok m /\ json_pairs m = Ok v /\ wf_value v.

(** Every number is finite: the editor does not recognise the constants of the infinities and of NaN. *)
Fixpoint finite_value (v : value) : Prop :=
  match v with
  | VFloat x => is_finite x = true
  | VList l => fold_right (fun v P => finite_value v /\ P) True l
  | VDict d => fold_right (fun kv P => finite_value kv.2 /\ P) True d
  | _ => True
  end.

(** The value with [x] at the end of the path; missing objects are made on the way. *)
Fixpoint set_at (path : list text) (x v : value) : value :=
  match path with
  | [] => x
  | key :: path' =>
    match v with
    | VDict d => VDict (dset key (match dget key d with Some w => set_at path' x w | None => nest path' x end) d)
    | _ => v
    end
  end.

(** What [f] makes of the value at the path, where the path leads to one. *)
Fixpoint update_at (path : list text) (f : value -> value) (v : value) : value :=
  match path with
  | [] => f v
  | key :: path' =>
    match v with
    | VDict d => match dget key d with Some w => VDict (dset key (update_at path' f w) d) | None => v end
    | _ => v
    end
  end.

(** An object without a key. *)
Fixpoint without (key : text) (d : dict value) : dict value :=
  match d with [] => [] | kv :: d' => if bool_decide (kv.1 = key) then d' else kv :: without key d' end.
Definition unset (key : text) (v : value) : value := match v with VDict d => VDict (without key d) | _ => v end.
Definition remove_at (path : list text) (v : value) : value :=
  match last path with Some key => update_at (removelast path) (unset key) v | None => v end.

(** Everything on the way to the last key is an object, as far as it is there. *)
Fixpoint objects_on (path : list text) (v : value) : bool :=
  match path with
  | [] => true
  | key :: path' =>
    match v with
    | VDict d =>
      match path' with
      | [] => true
      | _ => match dget key d with Some w => objects_on path' w | None => true end
      end
    | _ => false
    end
  end.

(** ** Reading *)
Lemma lstrip_nil t : lstrip t = [] <-> Forall (fun c => is_space c = true) t.
Proof.
  induction t as [|c t IH]; cbn; [split; [constructor|done]|]. rewrite Forall_cons. destruct (is_space c); [|split; [done|by intros [? _]]].
  rewrite IH. tauto.
Qed.
Lemma blank_spec t : blank t = true <-> Forall (fun c => is_space c = true) t.
Proof.
  unfold blank. rewrite bool_decide_eq_true. unfold strip, rstrip. split.
  - intros H. apply (f_equal (@rev Z)) in H. rewrite rev_involutive in H. cbn in H. apply lstrip_nil in H.
    rewrite <- lstrip_nil. destruct (lstrip t) as [|c l] eqn:E; [done|]. exfalso.
    assert (is_space c = false) as Hc.
    { clear H. induction t as [|d t IH]; [done|]. cbn in E. destruct (is_space d) eqn:Ed; [by apply IH|]. by injection E as <- _. }
    cbn in H. apply Forall_app in H as [_ H]. inversion H. congruence.
  - intros H%lstrip_nil. by rewrite H.
Qed.

Lemma spaces_mask t : Forall (fun c => is_space c = true) t -> mask_comments t = Ok t.
Proof.
  induction 1 as [|c t Hc _ IH]; [done|]. rewrite mask_char; [by rewrite IH|intros ->; done|intros ->; done].
Qed.

Lemma object_not_blank t m w1 c w2 : mask_comments t = Ok m -> m = document w1 c w2 -> is_obj c = true -> blank t = false.
Proof.
  intros Hm E Hc. destruct (blank t) eqn:Eb; [|done]. apply blank_spec in Eb. rewrite (spaces_mask t Eb) in Hm. injection Hm as ->.
  rewrite E in Eb. unfold document in Eb. destruct c as [| | |gap ms]; try done. apply Forall_app in Eb as [_ Eb]. cbn in Eb. inversion Eb. done.
Qed.

(** A document of an object, as a tree. *)
Record tree_document (t : text) (w1 : text) (c : cst) (w2 : text) : Prop := {
  doc_mask : mask_comments t = Ok (document w1 c w2);
  doc_white1 : white w1; doc_wf : wf c; doc_white2 : white w2
}.

Lemma tree_reads t w1 c w2 : tree_document t w1 c w2 -> is_obj c = true -> wf_value (val VDict c) -> reads t (val VDict c).
Proof.
  intros [H1 H2 H3 H4] Hc Hv. unfold reads. rewrite (object_not_blank t _ w1 c w2 H1 eq_refl Hc). eexists. split; [done|]. split; [|done].
  by apply decode_document.
Qed.

Lemma reads_tree t v : reads t v -> blank t = false -> exists w1 c w2, tree_document t w1 c w2 /\ val VDict c = v /\ wf_value v.
Proof.
  unfold reads. intros H E. rewrite E in H. destruct H as (m & Hm & Hp & Hv). apply decode_sound in Hp as (w1 & c & w2 & H1 & Hc & H2 & -> & Hval).
  by exists w1, c, w2.
Qed.

Lemma reads_loads t v : reads t v -> loads t = Ok v.
Proof.
  intros H. unfold loads. destruct (blank t) eqn:E; [unfold reads in H; rewrite E in H; by rewrite H|].
  destruct (reads_tree t v H E) as (w1 & c & w2 & [-> H1 Hc H2] & <- & Hv). cbn [rbind]. unfold json_loads.
  rewrite decode_document by done. cbn. by rewrite (proj1 same_values).
Qed.

Lemma finite_tree :
  (forall c, wf c -> finite_value (val VDict c) -> finite c) /\
  (forall es, wf_elems es -> fold_right (fun v P => finite_value v /\ P) True (elem_vals VDict es) -> finite_elems es) /\
  (forall ms, wf_members ms -> fold_right (fun kv P => finite_value kv.2 /\ P) True (member_vals VDict ms) -> finite_members ms).
Proof.
  apply cst_elems_members; cbn; try done.
  - intros lex v [lex' v' Hin|n v' _ Hall (c & x & E & Hc) _ _] Hf.
    + destruct (constant_cases _ _ Hin) as [[= -> ->]|[[= -> ->]|[[= -> ->]|[[= -> ->]|[[= -> ->]|[= -> ->]]]]]]; done.
    + unfold finite_atom. rewrite E in *. split; [intros [= -> _]; destruct Hc; done|]. split; [intros [= -> _]; destruct Hc; done|].
      intros [= -> ->]. inversion Hall as [|? ? _ H]; subst. by inversion H.
  - intros gap es IH [_ H]. by apply IH.
  - intros gap ms IH [_ H]. by apply IH.
  - intros b c IHc a es IHe (_ & Hc & _ & He) [H1 H2]. split; [by apply IHc|by apply IHe].
  - intros k c IHc a ms IHm (_ & Hc & _ & Hm) [H1 H2]. split; [by apply IHc|by apply IHm].
Qed.

(** ** Shape *)
Lemma require_spec path : forall v, path <> [] ->
  if objects_on path v then require_object v path = Ok tt else exists msg, require_object v path = Raise (ConfigShapeError msg).
Proof.
  assert (forall walked v msg, path <> [] ->
    let r := (let? found := walk_objects walked v (removelast path) in
      match found with None => Ok tt | Some current => if is_none (is_json_object current) then not_an_object msg else Ok tt end) in
    if objects_on path v then r = Ok tt else exists msg', r = Raise (ConfigShapeError msg')) as H.
  { induction path as [|key path IH]; [done|]. intros walked v msg _. destruct path as [|next path].
    - cbn. destruct v; cbn; try done; by eexists.
    - change (removelast (key :: next :: path)) with (key :: removelast (next :: path)). cbn [walk_objects objects_on].
      destruct (bool_decide (walked = []) && _) eqn:Eq.
      { apply andb_true_iff in Eq as [_ Eq]. destruct v as [| | | | | |[|]]; try done. }
      destruct v as [| | | | | |d]; cbn [is_json_object]; try by eexists.
      destruct (dget key d) as [w|] eqn:Ed; [|done]. exact (IH (walked ++ [key]) w msg ltac:(done)). }
  intros v Hp. exact (H [] v _ Hp).
Qed.

Lemma focus_objects path c p o q rest : focus path c p o q -> rest <> [] -> objects_on (path ++ rest) (val VDict c) = objects_on rest (val VDict o).
Proof.
  induction 1 as [c|key path gap ms p k c a rest' p' o q H F IH]; [done|]. intros Hr. cbn [app objects_on val].
  destruct (path ++ rest) as [|x l] eqn:E; [by destruct path|]. rewrite (first_val _ _ _ _ _ _ _ H). by apply IH.
Qed.

(** ** Values *)
Lemma nest_wf keys x : wf_value x -> wf_value (nest keys x).
Proof. intros H. induction keys as [|k keys IH]; [done|]. cbn. split; [apply NoDup_singleton|done]. Qed.

Lemma set_at_wf path x : forall v, wf_value x -> wf_value v -> wf_value (set_at path x v).
Proof.
  induction path as [|key path IH]; intros v Hx Hv; [done|]. cbn [set_at]. destruct v as [| | | | | |d]; try done.
  apply wf_dict_dset; [done|]. destruct (dget key d) as [w|] eqn:E; [|by apply nest_wf].
  apply IH; [done|]. apply (wf_dict_elem d key); [done|by apply dget_elem].
Qed.

Lemma update_at_wf path f : (forall v, wf_value v -> wf_value (f v)) -> forall v, wf_value v -> wf_value (update_at path f v).
Proof.
  intros Hf. induction path as [|key path IH]; intros v Hv; [by apply Hf|]. cbn [update_at]. destruct v as [| | | | | |d]; try done.
  destruct (dget key d) as [w|] eqn:E; [|done]. apply wf_dict_dset; [done|]. apply IH. apply (wf_dict_elem d key); [done|by apply dget_elem].
Qed.

Lemma focus_set_at path c p o q rest x : focus path c p o q -> set_at (path ++ rest) x (val VDict c) = update_at path (set_at rest x) (val VDict c).
Proof.
  induction 1 as [c|key path gap ms p k c a rest' p' o q H F IH]; [done|]. cbn [app set_at update_at val].
  by rewrite (first_val _ _ _ _ _ _ _ H), IH.
Qed.

(** Another tree at a focus: the document's tree with that change. *)
Lemma focus_update path c p o q f o' : focus path c p o q -> wf c -> wf o' -> val VDict o' = f (val VDict o) ->
  exists c', wf c' /\ flat c' = p ++ flat o' ++ q /\ val VDict c' = update_at path f (val VDict c) /\
    is_obj c' = match path with [] => is_obj o' | _ => true end.
Proof.
  induction 1 as [c|key path gap ms p k c a rest' p' o q H F IH]; intros Hw Ho' Hv.
  - exists o'. by rewrite app_nil_r.
  - destruct Hw as [Hg Hm]. destruct (first_wf _ _ _ _ _ _ _ H Hm) as (Hk & Hc & Ha & Hr).
    destruct (IH Hc Ho' Hv) as (c' & Hc' & Et & Ev & _). destruct (first_replace _ _ _ _ _ _ _ c' H Hm Hc') as (ms' & Hf & Hw' & Em).
    exists (CObj gap ms'). split; [done|]. split; [|split; [|done]].
    + cbn [flat]. rewrite (first_text _ _ _ _ _ _ _ Hf), Et. by rewrite <- !app_assoc.
    + cbn [val update_at]. by rewrite (first_val _ _ _ _ _ _ _ H), Em, Ev.
Qed.

(** ** Splices *)
Lemma first_plain key ms p k c a rest : first_member key ms p k c a rest -> wf_members ms -> plain p.
Proof.
  induction 1 as [|k' c' a' ms p k c a rest _ _ IH]; cbn [wf_members]; [constructor|]. intros (Hk & Hc & Ha & Hm).
  apply plain_app; [by apply key_plain|]. apply plain_app; [by apply cst_plain|]. apply plain_app; [by apply plain_white|].
  apply plain_app; [by apply plain_one|by apply IH].
Qed.

Lemma focus_plain path c p o q : focus path c p o q -> wf c -> plain p.
Proof.
  induction 1 as [|key path gap ms p k c a rest p' o q H F IH]; [constructor|]. intros [Hg Hm].
  destruct (first_wf _ _ _ _ _ _ _ H Hm) as (Hk & Hc & _). apply plain_app; [by apply plain_one|]. apply plain_app; [by apply plain_white|].
  apply plain_app; [by eapply first_plain|]. apply plain_app; [by apply key_plain|by apply IH].
Qed.

(** The text behind a tree in the middle of a masked copy. *)
Lemma splice t m1 o m2 : mask_comments t = Ok (m1 ++ flat o ++ m2) -> plain m1 -> wf o ->
  exists p b q, t = p ++ b ++ q /\ lexed p m1 /\ lexed b (flat o) /\ mask_comments q = Ok m2.
Proof.
  intros Hm Hp Ho. destruct (flat_solid o Ho) as [He (x & l & E & Hx)].
  assert (starts_solid (flat o ++ m2)) as Hs by (exists x, (l ++ m2); by rewrite E).
  destruct (mask_split t m1 _ Hm Hp) as (p & r & -> & Hl & Hr); [by auto|].
  destruct (mask_split r (flat o) m2 Hr) as (b & q & -> & Hb & Hq); [by apply cst_plain|by auto|]. by exists p, b, q.
Qed.

Section Parts.
Context (p b q m1 : text) (o : cst).
Hypothesis (Hp : lexed p m1) (Hb : lexed b (flat o)).

Lemma take_part : take (length m1) (p ++ b ++ q) = p.
Proof. rewrite <- (lexed_length _ _ Hp). apply take_app_length. Qed.
Lemma drop_part : drop (length m1 + length (flat o)) (p ++ b ++ q) = q.
Proof. rewrite <- (lexed_length _ _ Hp), <- (lexed_length _ _ Hb), app_assoc, <- length_app. apply drop_app_length. Qed.
End Parts.

Lemma ends_with_one x t : ends_with [x] t = true <-> exists a, t = a ++ [x].
Proof.
  induction t as [|c t IH]; cbn [ends_with].
  - rewrite orb_false_r, bool_decide_eq_true. split; [done|]. by intros ([|? ?] & ?).
  - rewrite orb_true_iff, IH, bool_decide_eq_true. split.
    + intros [[= <- <-]|(a & ->)]; [by exists []|by exists (c :: a)].
    + intros ([|d a] & E); [left; by injection E as -> ->|]. injection E as <- E. right. by exists a.
Qed.

Lemma ends_with_suffix x a s : s <> [] -> ends_with [x] (a ++ s) = ends_with [x] s.
Proof.
  intros Hs. destruct (exists_last Hs) as (s' & d & ->). rewrite app_assoc.
  assert (forall b, ends_with [x] (b ++ [d]) = (d =? x)) as H.
  { intros b. destruct (d =? x) eqn:E; [apply Z.eqb_eq in E as ->; apply ends_with_one; by exists b|].
    apply not_true_iff_false. intros (a' & E')%ends_with_one. apply app_inj_tail in E' as [_ ->]. by rewrite Z.eqb_refl in E. }
  by rewrite !H.
Qed.

(** [_finish] has nothing to add to an edit that keeps the end of the text. *)
Lemma finish_suffix a b s : s <> [] -> finish (a ++ s) (b ++ s) = b ++ s.
Proof. intros Hs. unfold finish. rewrite !ends_with_suffix by done. by destruct (ends_with [10] s). Qed.

Lemma mask_nonempty q m : mask_comments q = Ok m -> m <> [] -> q <> [].
Proof. intros H Hm ->. by injection H as <-. Qed.

(** ** Indentation *)
Definition blanks (t : text) : Prop := Forall (fun c => is_blank c = true) t.
Lemma blanks_white t : blanks t -> white t.
Proof. intros H. eapply Forall_impl; [exact H|]. unfold is_blank, is_ws. intros c Hc. lia. Qed.
Lemma blanks_no_newline t : blanks t -> Forall (fun c => not_newline c = true) t.
Proof. intros H. eapply Forall_impl; [exact H|]. unfold is_blank, not_newline. intros c Hc. lia. Qed.
Lemma blanks_lexed t : blanks t -> lexed t t.
Proof. intros H. by apply plain_lexed, plain_white, blanks_white. Qed.

Lemma line_indent_blanks t i : blanks (line_indent t i).
Proof. apply take_while_all. Qed.

Lemma detect_indent_blanks t : match detect_indent t with None => True | Some i => blanks i end.
Proof.
  unfold detect_indent. destruct (negb _); [done|]. assert (match first_indent t with Some i => blanks i | None => True end) as H.
  { induction t as [|c t IH]; [done|]. cbn [first_indent]. destruct (_ && _); [|done]. apply take_while_all. }
  destruct (first_indent t); [done|]. by repeat constructor.
Qed.

Lemma detect_indent_ok t : match detect_indent t with None => True | Some i => white i /\ Forall (fun c => not_newline c = true) i end.
Proof. pose proof (detect_indent_blanks t) as H. destruct (detect_indent t); [|done]. split; [by apply blanks_white|by apply blanks_no_newline]. Qed.

Lemma child_indent_blanks t i : blanks (child_indent t i (detect_indent t)).
Proof.
  unfold child_indent. apply Forall_app. split; [apply line_indent_blanks|]. pose proof (detect_indent_blanks t) as H.
  by destruct (detect_indent t); [|constructor].
Qed.

(** ** Replacing a value *)
Section Document.
Context (t : text) (w1 : text) (c : cst) (w2 : text).
Hypothesis (Hdoc : tree_document t w1 c w2).

Lemma doc_focus path p o q : focus path c p o q -> exists tp tb tq, t = tp ++ tb ++ tq /\
  lexed tp (w1 ++ p) /\ lexed tb (flat o) /\ mask_comments tq = Ok (q ++ w2).
Proof.
  intros F. destruct Hdoc as [Hm Hw1 Hc Hw2]. unfold document in Hm. rewrite (focus_text _ _ _ _ _ F) in Hm.
  apply splice; [by rewrite <- !app_assoc in *|apply plain_app; [by apply plain_white|by eapply focus_plain]|by eapply focus_wf].
Qed.

(** A text put at a focus, whose mask is a tree, makes a document of that tree there. *)
Lemma put_mask t' path p o q f o' : focus path c p o q -> mask_comments t' = Ok (w1 ++ p ++ flat o' ++ q ++ w2) ->
  wf o' -> val VDict o' = f (val VDict o) -> (path = [] -> is_obj o' = true) ->
  wf_value (update_at path f (val VDict c)) -> reads t' (update_at path f (val VDict c)).
Proof.
  intros F Hm' Ho Hv Hobj Hwf. destruct Hdoc as [Hm Hw1 Hc Hw2].
  destruct (focus_update _ _ _ _ _ f o' F Hc Ho Hv) as (c' & Hc' & Et & Ev & Hobj'). rewrite <- Ev.
  apply (tree_reads _ w1 c' w2).
  - constructor; [|done..]. unfold document. by rewrite Et, <- !app_assoc.
  - rewrite Hobj'. destruct path; [by apply Hobj|done].
  - by rewrite Ev.
Qed.

Lemma set_at_reads path p o q rest x o' tp tb tq : focus path c p o q -> lexed tp (w1 ++ p) -> lexed tb (flat o') ->
  mask_comments tq = Ok (q ++ w2) -> wf o' -> val VDict o' = set_at rest x (val VDict o) -> (path = [] -> is_obj o' = true) ->
  wf_value x -> wf_value (val VDict c) -> reads (tp ++ tb ++ tq) (set_at (path ++ rest) x (val VDict c)).
Proof.
  intros F Hp Hb Hq Ho Hv Hobj Hx Hvc. rewrite (focus_set_at _ _ _ _ _ _ _ F). eapply put_mask; try done.
  - rewrite (app_assoc w1). by apply lexed_mask, lexed_mask.
  - apply update_at_wf; [|done]. intros v Hw. by apply set_at_wf.
Qed.
End Document.

(** ** What stands between a last member and its brace *)
Definition spaces (t : text) : Prop := Forall (fun c => is_space c = true) t.

Lemma lstrip_app a b : lstrip (a ++ b) = match lstrip a with [] => lstrip b | s => s ++ b end.
Proof. induction a as [|c a IH]; [done|]. cbn. by destruct (is_space c). Qed.
Lemma rstrip_nil t : rstrip t = [] <-> spaces t.
Proof.
  unfold rstrip. split; intros H.
  - apply (f_equal (@rev Z)) in H. rewrite rev_involutive in H. apply lstrip_nil in H. rewrite <- (rev_involutive t).
    by apply Forall_rev.
  - assert (lstrip (rev t) = []) as -> by by apply lstrip_nil, Forall_rev. done.
Qed.
Lemma rstrip_app a b : rstrip (a ++ b) = match rstrip b with [] => rstrip a | s => a ++ s end.
Proof.
  unfold rstrip. rewrite rev_app_distr, lstrip_app. destruct (lstrip (rev b)) as [|c l] eqn:E; [done|].
  rewrite rev_app_distr, rev_involutive. destruct (rev (c :: l)) eqn:Er; [|done]. apply (f_equal length) in Er. rewrite length_rev in Er. done.
Qed.
Lemma rstrip_prefix t : exists s, t = rstrip t ++ s /\ spaces s.
Proof.
  induction t as [|x t (s & E & Hs)] using rev_ind; [by exists []; split; [|constructor]|]. rewrite rstrip_app.
  destruct (is_space x) eqn:Hx.
  - assert (rstrip [x] = []) as -> by (apply rstrip_nil; by repeat constructor). exists (s ++ [x]).
    split; [by rewrite app_assoc, <- E|]. apply Forall_app. split; [done|by repeat constructor].
  - assert (rstrip [x] = [x]) as -> by (unfold rstrip; cbn; by rewrite Hx). exists []. by rewrite app_nil_r; split; [|constructor].
Qed.
Lemma rstrip_cons c t : is_space c = false -> rstrip (c :: t) = c :: rstrip t.
Proof.
  intros Hc. change (c :: t) with ([c] ++ t). rewrite rstrip_app. destruct (rstrip t); [unfold rstrip; cbn; by rewrite Hc|done].
Qed.

Lemma white_spaces w : white w -> spaces w.
Proof. intros H. eapply Forall_impl; [exact H|]. unfold is_ws, is_space. intros c Hc. lia. Qed.

(** Comments stay whole when the white space after them is dropped and their line ended. *)
Lemma gap_rstrip b w : lexed b w -> white w -> exists w', white w' /\ lexed (rstrip b ++ [10]) w'.
Proof.
  assert (lexed [10] [10]) as Hnl by (repeat constructor; done). assert (white [10]) as Wnl by by repeat constructor.
  induction 1 as [|c p m Hc Hl IH|b p m Hb Hl IH|body p m Hb Hl IH|b p m Hb He Hl IH]; intros Hw.
  - by exists [10].
  - inversion Hw as [|? ? Hwc Hwm]; subst. destruct (IH Hwm) as (w' & Hw' & Hl'). change (c :: p) with ([c] ++ p). rewrite rstrip_app.
    destruct (rstrip p) as [|x l] eqn:E.
    + assert (rstrip [c] = []) as -> by (apply rstrip_nil, white_spaces; by repeat constructor). by exists [10].
    + exists (c :: w'). split; [by constructor|]. cbn [app]. by constructor.
  - by inversion Hw.
  - assert (white m) as Hwm by (inversion Hw as [|? ? _ H]; inversion H as [|? ? _ H']; apply Forall_app in H' as [_ H']; by inversion H').
    destruct (IH Hwm) as (w' & Hw' & Hl').
    change (47 :: 47 :: body ++ 10 :: p) with ((47 :: 47 :: body) ++ ([10] ++ p)). rewrite rstrip_app.
    change ([10] ++ p) with ([10] ++ p). destruct (rstrip p) as [|x l] eqn:E.
    + assert (rstrip ([10] ++ p) = []) as ->. { rewrite rstrip_app, E. done. }
      rewrite !rstrip_cons by done. destruct (rstrip_prefix body) as (s & Es & _).
      exists (32 :: 32 :: repeat 32 (length (rstrip body)) ++ [10]). split.
      * do 2 (constructor; [done|]). apply Forall_app. split; [apply repeat_white|done].
      * cbn [app]. apply L_line; [|constructor]. rewrite Es in Hb. by apply Forall_app in Hb as [Hb _].
    + assert (rstrip ([10] ++ p) = [10] ++ rstrip p) as -> by (rewrite rstrip_app, E; done). rewrite E.
      exists (32 :: 32 :: repeat 32 (length body) ++ 10 :: w'). split.
      * do 2 (constructor; [done|]). apply Forall_app. split; [apply repeat_white|by constructor].
      * cbn [app]. rewrite <- app_assoc. cbn [app]. by apply L_line.
  - assert (white m) as Hwm by (inversion Hw as [|? ? _ H]; inversion H as [|? ? _ H']; by apply Forall_app in H' as [_ H']).
    destruct (IH Hwm) as (w' & Hw' & Hl'). exists (32 :: 32 :: masked_block b ++ w'). split.
    { do 2 (constructor; [done|]). apply Forall_app. split; [apply block_white|done]. }
    change (47 :: 42 :: b ++ p) with ((47 :: 42 :: b) ++ p). rewrite rstrip_app. destruct (rstrip p) as [|x l] eqn:E.
    + apply ends_with_one in He as (b' & ->). assert (rstrip (47 :: 42 :: b' ++ [47]) = 47 :: 42 :: b' ++ [47]) as ->.
      { change (47 :: 42 :: b' ++ [47]) with ((47 :: 42 :: b') ++ [47]). by rewrite rstrip_app. }
      cbn [app]. apply L_block; [done|apply ends_with_one; by exists b'|exact Hl'].
    + cbn [app]. rewrite <- app_assoc. by apply L_block.
Qed.

(** ** The last member *)
Lemma last_char c : wf c -> exists a x, flat c = a ++ [x] /\ is_ws x = false /\ x <> 44.
Proof.
  intros H. destruct (proj1 (flat_solid c H)) as (a & x & E & Hx). exists a, x. split; [done|]. split; [done|]. intros ->.
  destruct c; cbn [wf flat] in *.
  - destruct H as (b & ts & -> & Hb & _). destruct (body_last _ _ Hb) as [b' ->]. by apply (app_inj_tail (34 :: b')) in E as [_ E].
  - destruct H as [lex v Hin|n v Hne Hall _ _ _].
    + assert (last lex = Some 44) as Hl by (rewrite E; apply last_snoc).
      destruct (constant_cases _ _ Hin) as [[= -> ->]|[[= -> ->]|[[= -> ->]|[[= -> ->]|[[= -> ->]|[= -> ->]]]]]]; done.
    + rewrite E in Hall. apply Forall_app in Hall as [_ H]. by inversion H.
  - rewrite !app_assoc in E. by apply app_inj_tail in E as [_ E].
  - rewrite !app_assoc in E. by apply app_inj_tail in E as [_ E].
Qed.

(** The members up to the end of the last value, where a new member goes. *)
Lemma last_member ms : wf_members ms -> ms <> MNil -> exists b x a, flat_members ms = (b ++ [x]) ++ a /\ is_ws x = false /\ x <> 44 /\ white a /\ plain (b ++ [x]) /\
  (forall k d e, wf_key k -> wf d -> white e -> exists ms', wf_members ms' /\ flat_members ms' = (b ++ [x]) ++ [44] ++ flat_key k ++ flat d ++ e /\
    member_vals VDict ms' = member_vals VDict ms ++ [(name k, val VDict d)]).
Proof.
  induction ms as [|k c a ms IH]; [done|]. intros (Hk & Hc & Ha & Hm) _. destruct ms as [|k2 c2 a2 ms].
  - destruct (last_char c Hc) as (l & x & E & Hx & H44). exists (flat_key k ++ l), x, a. cbn [flat_members]. rewrite E.
    split; [by rewrite app_nil_r, <- !app_assoc|]. split; [done|]. split; [done|]. split; [done|].
    split; [rewrite <- app_assoc, <- E; apply plain_app; [by apply key_plain|by apply cst_plain]|].
    intros k' d e Hk' Hd He. exists (MCons k c [] (MCons k' d e MNil)). split; [done|]. split; [|done].
    cbn [flat_members app]. rewrite E, app_nil_r, <- !app_assoc. done.
  - destruct (IH Hm ltac:(done)) as (b & x & a' & E & Hx & H44 & Ha' & Hp & Hadd).
    assert (forall ms', ms' <> MNil -> flat_members (MCons k c a ms') = flat_key k ++ flat c ++ a ++ [44] ++ flat_members ms') as Hcons by by intros [].
    exists (flat_key k ++ flat c ++ a ++ [44] ++ b), x, a'. rewrite Hcons by done. rewrite E.
    split; [by rewrite <- !app_assoc|]. split; [done|]. split; [done|]. split; [done|]. split.
    { rewrite <- !app_assoc. apply plain_app; [by apply key_plain|]. apply plain_app; [by apply cst_plain|]. apply plain_app; [by apply plain_white|].
      apply plain_app; [by apply plain_one|done]. }
    intros k' d e Hk' Hd He. destruct (Hadd k' d e Hk' Hd He) as (ms' & Hw' & Et & Ev). exists (MCons k c a ms').
    assert (ms' <> MNil) as Hne by (intros ->; apply (f_equal length) in Ev; rewrite length_app in Ev; cbn in Ev; lia).
    split; [done|]. split; [rewrite Hcons, Et by done; by rewrite <- !app_assoc|]. cbn [member_vals]. by rewrite Ev.
Qed.

(** ** Inserting a member *)
Lemma lexed_mask_self p m : lexed p m -> mask_comments p = Ok m.
Proof. intros H. rewrite <- (app_nil_r p), <- (app_nil_r m). by apply (lexed_mask _ _ [] []). Qed.

Lemma mask_one t x : mask_comments t = Ok [x] -> is_ws x = false -> t = [x].
Proof.
  intros H Hx. apply mask_aligned in H. inversion H as [|c y t' m [->|[-> _]] Ht]; subst; [by inversion Ht|done].
Qed.

(** The text of an object: its braces, and a text lexed to what stands between them. *)
Lemma object_text tb gap ms : lexed tb (flat (CObj gap ms)) -> wf (CObj gap ms) ->
  exists ti, tb = [123] ++ ti ++ [125] /\ lexed ti (gap ++ flat_members ms).
Proof.
  intros H%lexed_mask_self [Hg Hm]. cbn [flat] in H. destruct (mask_split tb [123] _ H) as (p & r & -> & Hp & Hr).
  - by apply plain_one.
  - right; left. by exists [], 123.
  - apply lexed_mask_self, mask_one in Hp as ->; [|done]. rewrite app_assoc in Hr.
    destruct (mask_split r (gap ++ flat_members ms) [125] Hr) as (ti & e & -> & Hi & He).
    + apply plain_app; [by apply plain_white|by apply tree_plain].
    + right; right. by exists 125, [].
    + apply mask_one in He as ->; [|done]. by exists ti.
Qed.

(** A member of the given key and value, as it is written. *)
Definition new_key (lead key : text) : Key :=
  {| lead := lead; literal := dumps_string key; name := key; before_colon := []; after_colon := [32] |}.

Lemma new_key_wf w key : white w -> code_points key -> wf_key (new_key w key).
Proof. intros Hw Hk. repeat split; [done|by apply dumps_literal|done|by repeat constructor]. Qed.

Lemma members_not_blank ms gap : ms <> MNil -> wf_members ms -> blank (gap ++ flat_members ms) = false.
Proof.
  destruct ms as [|k c a ms]; [done|]. intros _ ((_ & (b & ts & El & _) & _) & _). apply not_true_iff_false. rewrite blank_spec.
  intros [_ H]%Forall_app. cbn [flat_members] in H. unfold flat_key in H. rewrite El, <- !app_assoc in H. apply Forall_app in H as [_ H].
  cbn in H. by inversion H.
Qed.
Lemma white_blank w : white w -> blank w = true.
Proof. intros H. by apply blank_spec, white_spaces. Qed.

Lemma members_cases ms : ms = MNil \/ ms <> MNil.
Proof. destruct ms; [by left|by right]. Qed.

(** From white space back to the solid character before it. *)
Lemma back_to_solid low A x a : is_ws x = false -> white a -> (low <= length A)%nat -> forall r,
  back_to (A ++ [x] ++ a ++ r) low (length A + length a) = length A.
Proof.
  intros Hx Ha Hlow. induction a as [|c a IH] using rev_ind; intros r.
  - rewrite Nat.add_0_r. cbn [app]. destruct (length A) as [|n] eqn:E; [done|]. cbn [back_to]. unfold is_ws_at.
    rewrite <- E, list_lookup_middle by done. by rewrite Hx, andb_false_r.
  - apply Forall_app in Ha as [Ha Hc]. inversion Hc as [|? ? Hwc _]; subst. rewrite length_app. cbn [length].
    replace (length A + (length a + 1))%nat with (S (length A + length a)) by lia. cbn [back_to].
    rewrite (proj2 (Nat.ltb_lt _ _)) by lia. unfold is_ws_at.
    assert ((A ++ [x] ++ (a ++ [c]) ++ r) = (A ++ [x] ++ a) ++ c :: r) as E by by rewrite <- !app_assoc.
    rewrite E, list_lookup_middle by (rewrite !length_app; cbn; lia). rewrite Hwc. cbn [andb]. rewrite <- E.
    replace ((A ++ [x] ++ (a ++ [c]) ++ r)) with (A ++ [x] ++ a ++ (c :: r)) by by rewrite <- !app_assoc. by apply IH.
Qed.

Section Insert.
Context (tp tb tq m1 m2 gap : text) (ms : members) (key pad : text) (d : cst) (indent : option text).
Let o := CObj gap ms.
Let t := tp ++ tb ++ tq.
Let masked := m1 ++ flat o ++ m2.
Hypothesis (Hp : lexed tp m1) (Hb : lexed tb (flat o)) (Ho : wf o) (Hd : wf d) (Hkey : code_points key) (Hpad : blanks pad).

Definition member_text : text := dumps_string key ++ u ": " ++ flat d.

Lemma member_lexed w tw e te : lexed tw w -> lexed te e -> lexed (tw ++ member_text ++ te) (flat_key (new_key w key) ++ flat d ++ e).
Proof.
  intros Hw He. unfold flat_key, new_key, member_text. cbn [lead literal before_colon after_colon app]. rewrite <- !app_assoc.
  apply lexed_app; [done|]. apply lexed_app; [by eapply plain_lexed, literal_plain, dumps_literal|].
  change (u ": ") with [58; 32]. cbn [app]. do 2 (constructor; [done|]). apply lexed_app; [by apply plain_lexed, cst_plain|done].
Qed.

(** The new text of the object and its tree. *)
Definition inserted (tb' : text) (o' : cst) : Prop :=
  lexed tb' (flat o') /\ wf o' /\ is_obj o' = true /\ val VDict o' = VDict (member_vals VDict ms ++ [(key, val VDict d)]) /\
  exists b, tb' = b ++ [125].

Lemma inserted_only w tw e te : ms = MNil -> lexed tw w -> white w -> lexed te e -> white e ->
  inserted (u "{" ++ tw ++ member_text ++ te ++ u "}") (CObj [] (MCons (new_key w key) d e MNil)).
Proof.
  intros Ems Hw Ww He We. unfold inserted. rewrite Ems. split; [|split; [|split; [done|split; [done|]]]].
  - cbn [flat flat_members app]. constructor; [done|]. rewrite app_nil_r.
    replace (tw ++ member_text ++ te ++ u "}") with ((tw ++ member_text ++ te) ++ [125]) by by rewrite <- !app_assoc.
    apply lexed_app; [by apply member_lexed|]. apply plain_lexed. by apply plain_one.
  - split; [done|]. split; [by apply new_key_wf|done].
  - exists (u "{" ++ tw ++ member_text ++ te). by rewrite <- !app_assoc.
Qed.

Lemma parts : exists ti, tb = [123] ++ ti ++ [125] /\ lexed ti (gap ++ flat_members ms) /\
  slice t (S (length m1)) (length m1 + length (flat o) - 1) = ti /\
  slice masked (S (length m1)) (length m1 + length (flat o) - 1) = gap ++ flat_members ms /\
  take (length m1) t = tp /\ drop (length m1 + length (flat o)) t = tq.
Proof.
  destruct (object_text tb gap ms Hb Ho) as (ti & E & Hi). exists ti. split; [done|]. split; [done|].
  pose proof (lexed_length _ _ Hp) as Lp. pose proof (lexed_length _ _ Hi) as Li. rewrite length_app in Li.
  assert (length (flat o) = S (S (length ti))) as Lo by (unfold o; cbn [flat]; rewrite !length_app; cbn [length]; lia).
  split; [|split; [|split; [by apply take_part|by apply drop_part]]].
  - unfold slice. replace (length m1 + length (flat o) - 1 - S (length m1))%nat with (length ti) by lia.
    replace (S (length m1)) with (length (tp ++ [123])) by (rewrite length_app; cbn [length]; lia).
    unfold t. rewrite E. rewrite <- !app_assoc, (app_assoc tp), drop_app_length. apply take_app_length.
  - unfold slice. replace (length m1 + length (flat o) - 1 - S (length m1))%nat with (length (gap ++ flat_members ms)) by (rewrite length_app; lia).
    replace (S (length m1)) with (length (m1 ++ [123])) by (rewrite length_app; cbn [length]; lia).
    unfold masked, o. cbn [flat]. rewrite <- !app_assoc, (app_assoc m1), drop_app_length, app_assoc. apply take_app_length.
Qed.

Lemma insert_tree : exists tb' o', insert t masked (length m1) (length m1 + length (flat o)) member_text pad indent = tp ++ tb' ++ tq /\ inserted tb' o'.
Proof.
  destruct parts as (ti & E & Hi & Si & Sm & Tt & Dt). unfold insert. rewrite Si, Sm, Tt, Dt. destruct Ho as [Hg Hm].
  set (ppad := line_indent t (length m1)). assert (blanks ppad) as Hpp by apply line_indent_blanks.
  assert (lexed (10 :: ppad) (10 :: ppad)) as Lpp by (constructor; [done|by apply blanks_lexed]).
  assert (white (10 :: ppad)) as Wpp by (constructor; [done|by apply blanks_white]).
  assert (lexed (10 :: pad) (10 :: pad)) as Lpad by (constructor; [done|by apply blanks_lexed]).
  assert (white (10 :: pad)) as Wpad by (constructor; [done|by apply blanks_white]).
  destruct (members_cases ms) as [Ems|Hne].
  - rewrite Ems in *. cbn [flat_members] in *. rewrite app_nil_r in *. rewrite white_blank by done.
    destruct indent as [i|].
    + destruct (blank ti) eqn:Eb.
      * eexists _, _. split; [|apply (inserted_only (10 :: pad) (10 :: pad) (10 :: ppad) (10 :: ppad) Ems); done].
        cbn [app]. by rewrite <- !app_assoc.
      * destruct (gap_rstrip ti gap Hi Hg) as (w' & Hw' & Hl').
        eexists _, _. split; [|apply (inserted_only (w' ++ pad) ((rstrip ti ++ [10]) ++ pad) (10 :: ppad) (10 :: ppad) Ems); try done].
        -- drop_tac.
        -- apply lexed_app; [done|by apply blanks_lexed].
        -- apply white_app. split; [done|by apply blanks_white].
    + eexists _, _. split; [|apply (inserted_only [] [] [] [] Ems); try done; constructor]. cbn [app]. by rewrite <- !app_assoc.
  - rewrite members_not_blank by done. destruct (last_member ms Hm Hne) as (b & x & a & Ef & Hx & H44 & Ha & Hpl & Hadd).
    assert (gap ++ flat_members ms = (gap ++ b ++ [x]) ++ a) as Ei by (rewrite Ef; by rewrite <- !app_assoc).
    destruct (lexed_split _ _ Hi (gap ++ b ++ [x]) a Ei) as (tx & ta & -> & Hlx & Hla).
    { apply plain_app; [by apply plain_white|done]. }
    { right; left. exists (gap ++ b), x. by rewrite app_assoc. }
    pose proof (lexed_length _ _ Hla) as Lta.
    pose proof (lexed_length _ _ Hp) as Lp. pose proof (lexed_length _ _ Hlx) as Lx. rewrite !length_app in Lx. cbn [length] in Lx.
    set (A := m1 ++ [123] ++ gap ++ b).
    assert (masked = A ++ [x] ++ a ++ [125] ++ m2) as Emask by (unfold masked, o, A; cbn [flat]; rewrite Ef; by rewrite <- !app_assoc).
    assert (length m1 + length (flat o) - 1 = length A + 1 + length a)%nat as Eclose.
    { unfold o, A. cbn [flat]. rewrite Ef, !length_app. cbn [length]. lia. }
    rewrite Eclose. replace (length A + 1 + length a - 1)%nat with (length A + length a)%nat by lia.
    rewrite Emask, (back_to_solid (length m1) A x a Hx Ha) by (unfold A; rewrite length_app; lia).
    assert (at_char (A ++ [x] ++ a ++ [125] ++ m2) (length A) 44 = false) as ->.
    { unfold at_char. apply bool_decide_eq_false_2. cbn [app]. rewrite list_lookup_middle by done. congruence. }
    assert (S (length A) = length (tp ++ [123] ++ tx)) as ES by (unfold A; rewrite !length_app; cbn [length]; lia).
    assert (t = (tp ++ [123] ++ tx) ++ ta ++ [125] ++ tq) as Et by (unfold t; rewrite E; by rewrite <- !app_assoc).
    assert (take (S (length A)) t = tp ++ [123] ++ tx) as -> by (rewrite ES, Et; apply take_app_length).
    assert (slice t (S (length A)) (length A + 1 + length a) = ta) as ->.
    { unfold slice. rewrite ES, Et, drop_app_length. replace (length A + 1 + length a - length (tp ++ [123%Z] ++ tx))%nat with (length ta) by lia. apply take_app_length. }
    assert (drop (length A + 1 + length a) t = [125] ++ tq) as ->.
    { rewrite Et, app_assoc. replace (length A + 1 + length a)%nat with (length ((tp ++ [123] ++ tx) ++ ta)) by (rewrite length_app; lia). apply drop_app_length. }
    destruct (gap_rstrip ta a Hla Ha) as (w' & Hw' & Hl').
    destruct (Hadd (new_key (w' ++ pad) key) d (10 :: ppad)) as (ms' & Hm' & Ef' & Ev); [|done|done|].
    { apply new_key_wf; [|done]. apply white_app. split; [done|by apply blanks_white]. }
    exists ([123] ++ tx ++ u "," ++ ((rstrip ta ++ [10]) ++ pad) ++ member_text ++ (10 :: ppad) ++ [125]), (CObj gap ms').
    split; [drop_tac|]. split; [|split; [done|split; [done|split]]].
    + cbn [flat]. rewrite Ef'. cbn [app]. constructor; [done|].
      replace (gap ++ ((b ++ [x]) ++ 44 :: flat_key (new_key (w' ++ pad) key) ++ flat d ++ 10 :: ppad) ++ [125])
        with ((gap ++ b ++ [x]) ++ [44] ++ (flat_key (new_key (w' ++ pad) key) ++ flat d ++ 10 :: ppad) ++ [125]) by drop_tac.
      apply lexed_app; [done|]. change (u ",") with [44]. cbn [app]. constructor; [done|].
      replace (((rstrip ta ++ [10]) ++ pad) ++ member_text ++ 10 :: ppad ++ [125]) with ((((rstrip ta ++ [10]) ++ pad) ++ member_text ++ 10 :: ppad) ++ [125])
        by drop_tac.
      apply lexed_app; [|apply plain_lexed; by apply plain_one]. apply member_lexed; [|done]. apply lexed_app; [done|by apply blanks_lexed].
    + cbn [val]. by rewrite Ev.
    + exists ([123] ++ tx ++ u "," ++ ((rstrip ta ++ [10]) ++ pad) ++ member_text ++ (10 :: ppad)). drop_tac.
Qed.
End Insert.

(** ** assign *)
Lemma atom_not_dict lex v : atom_of lex v -> forall d, v <> VDict d.
Proof.
  intros [lex' v' Hin|n v' _ _ _ _ Hv] d.
  - by destruct (constant_cases _ _ Hin) as [[= -> ->]|[[= -> ->]|[[= -> ->]|[[= -> ->]|[[= -> ->]|[= -> ->]]]]]].
  - unfold number_value in Hv. destruct (fraction n), (exponent n); try (by injection Hv as <-). destruct (_ <? _)%nat; [done|]. by injection Hv as <-.
Qed.

Lemma object_value c : wf c -> is_obj c = false -> forall d, val VDict c <> VDict d.
Proof. destruct c; cbn; try done. intros H _. by eapply atom_not_dict. Qed.

Lemma nest_writable keys x : Forall code_points keys -> writable x -> writable (nest keys x).
Proof. intros Hk Hx. induction Hk as [|k keys Hk _ IH]; [done|]. cbn. split; [apply NoDup_singleton|done]. Qed.

Section Assign.
Context (t : text) (w1 : text) (c : cst) (w2 : text) (x : value).
Hypothesis (Hdoc : tree_document t w1 c w2) (Hobj : is_obj c = true) (Hfin : finite c) (Hx : writable x) (Hv : wf_value (val VDict c)).

Lemma doc_not_blank : blank t = false.
Proof. destruct Hdoc. by eapply object_not_blank. Qed.
Lemma doc_reads : reads t (val VDict c).
Proof. by eapply tree_reads. Qed.

(** The members up to the located one, and whether the loaded value has objects on the way. *)
Lemma assign_steps path : path <> [] -> objects_on path (val VDict c) = true ->
  assign t path x =
  (let? located := locate (document w1 c w2) path in
   match located with
   | Found value_start value_end _ =>
     Ok (finish t (take value_start t ++ place (render x (detect_indent t)) (line_indent t value_start) ++ drop value_end t))
   | Missing parent_start parent_end [] => Raise IndexError
   | Missing parent_start parent_end (first :: others) =>
     let pad := child_indent t parent_start (detect_indent t) in
     Ok (finish t (insert t (document w1 c w2) parent_start parent_end
       (dumps_string first ++ u ": " ++ place (render (nest others x) (detect_indent t)) pad) pad (detect_indent t)))
   end).
Proof.
  intros Hp Ho. unfold assign. destruct path as [|key path]; [done|]. rewrite doc_not_blank. destruct Hdoc as [-> H1 Hc H2]. cbn [rbind].
  rewrite (reads_loads _ _ doc_reads). cbn [rbind]. pose proof (require_spec (key :: path) (val VDict c) ltac:(done)) as Hr. rewrite Ho in Hr. rewrite Hr.
  cbn [rbind]. by destruct (locate _ _) as [[]|].
Qed.

Lemma assign_found walked key p gap ms q p' k c' a rest : focus walked c p (CObj gap ms) q -> first_member key ms p' k c' a rest ->
  objects_on (walked ++ [key]) (val VDict c) = true ->
  exists t', assign t (walked ++ [key]) x = Ok t' /\ reads t' (set_at (walked ++ [key]) x (val VDict c)).
Proof.
  intros F Hf Ho. assert (walked ++ [key] <> []) as Hne by by destruct walked. rewrite (assign_steps _ Hne Ho).
  pose proof (focus_snoc _ _ _ _ _ _ _ _ _ _ _ _ F Hf) as F'. pose proof Hdoc as [_ H1 Hc H2].
  rewrite (locate_found _ w1 c w2 eq_refl H1 Hc H2 Hfin _ _ _ _ _ _ _ _ _ _ _ F Hf). cbn [rbind].
  destruct (doc_focus t w1 c w2 Hdoc _ _ _ _ F') as (tp & tb & tq & Et & Hlp & Hlb & Hq).
  assert (value_at (w1 ++ p) gap p' k = length (w1 ++ p ++ [123] ++ gap ++ p' ++ flat_key k)) as -> by (unfold value_at; by rewrite <- !app_assoc).
  set (vs := length (w1 ++ p ++ [123] ++ gap ++ p' ++ flat_key k)) in *.
  assert (take vs t = tp) as -> by (rewrite Et; by eapply take_part).
  assert (drop (vs + length (flat c')) t = tq) as -> by (rewrite Et; by eapply drop_part).
  destruct (rendered_tree x (detect_indent t) (line_indent t vs)) as (d & (Hd & _ & Hval) & ->);
    [done|apply blanks_white, line_indent_blanks|apply blanks_no_newline, line_indent_blanks|apply detect_indent_ok|].
  assert (tq <> []) as Hqne by (eapply mask_nonempty; [exact Hq|]; destruct (tail_text rest); by destruct a).
  exists (tp ++ flat d ++ tq). split.
  - f_equal. rewrite Et at 1. rewrite !app_assoc. by apply finish_suffix.
  - rewrite <- (app_nil_r (walked ++ [key])). eapply (set_at_reads t w1 c w2 Hdoc _ _ _ _ [] x d); try done.
    + by apply plain_lexed, cst_plain.
    + by apply writable_wf.
Qed.

Lemma assign_missing walked key others p gap ms q : focus walked c p (CObj gap ms) q -> key ∉ names ms ->
  objects_on (walked ++ key :: others) (val VDict c) = true -> Forall code_points (key :: others) ->
  exists t', assign t (walked ++ key :: others) x = Ok t' /\ reads t' (set_at (walked ++ key :: others) x (val VDict c)).
Proof.
  intros F Hn Ho Hcp. assert (walked ++ key :: others <> []) as Hne by by destruct walked. rewrite (assign_steps _ Hne Ho).
  pose proof Hdoc as [Hmask H1 Hc H2]. rewrite (locate_missing _ w1 c w2 eq_refl H1 Hc H2 Hfin _ _ others _ _ _ _ F Hn). cbn [rbind].
  destruct (doc_focus t w1 c w2 Hdoc _ _ _ _ F) as (tp & tb & tq & Et & Hlp & Hlb & Hq).
  pose proof (focus_wf _ _ _ _ _ F Hc) as Hwo. apply Forall_cons in Hcp as [Hk Hks]. rewrite Et. cbv zeta.
  set (pad := child_indent (tp ++ tb ++ tq) (length (w1 ++ p)) (detect_indent (tp ++ tb ++ tq))).
  assert (blanks pad) as Hpad by apply child_indent_blanks.
  destruct (rendered_tree (nest others x) (detect_indent (tp ++ tb ++ tq)) pad) as (d & (Hd & _ & Hval) & ->);
    [by apply nest_writable|by apply blanks_white|by apply blanks_no_newline|apply detect_indent_ok|].
  assert (document w1 c w2 = (w1 ++ p) ++ flat (CObj gap ms) ++ (q ++ w2)) as -> by (unfold document; rewrite (focus_text _ _ _ _ _ F); by rewrite <- !app_assoc).
  change (dumps_string key ++ u ": " ++ flat d) with (member_text key d).
  destruct (insert_tree tp tb tq (w1 ++ p) (q ++ w2) gap ms key pad d (detect_indent (tp ++ tb ++ tq)) Hlp Hlb Hwo Hd Hk Hpad)
    as (tb' & o' & -> & Hl' & Ho' & Hobj' & Hv' & b' & Eb').
  destruct (object_text _ _ _ Hlb Hwo) as (ti & Eb & _).
  exists (tp ++ tb' ++ tq). split.
  - f_equal. rewrite Eb, Eb'. replace (tp ++ ([123] ++ ti ++ [125]) ++ tq) with ((tp ++ [123] ++ ti) ++ ([125] ++ tq)) by by rewrite <- !app_assoc.
    replace (tp ++ (b' ++ [125]) ++ tq) with ((tp ++ b') ++ ([125] ++ tq)) by by rewrite <- !app_assoc. by apply finish_suffix.
  - eapply (set_at_reads _ w1 c w2 Hdoc _ _ _ _ (key :: others) x o'); try done; [|by apply writable_wf].
    rewrite Hv'. cbn [set_at val]. rewrite absent_val, Hval by done. f_equal. symmetry. apply dset_new. by rewrite member_keys.
Qed.
End Assign.

Lemma empty_document : tree_document (u "{}" ++ [10]) [] (CObj [] MNil) [10].
Proof. constructor; [done|done|done|by repeat constructor]. Qed.

Lemma objects_route path c : wf c -> path <> [] -> objects_on path (val VDict c) = true -> is_obj c = true /\
  ((exists walked key p gap ms q p' k c' a rest, path = walked ++ [key] /\ focus walked c p (CObj gap ms) q /\ first_member key ms p' k c' a rest) \/
   (exists walked key others p gap ms q, path = walked ++ key :: others /\ focus walked c p (CObj gap ms) q /\ key ∉ names ms)).
Proof.
  intros Hc Hp Ho. destruct (is_obj c) eqn:E.
  2: { exfalso. destruct path as [|key path]; [done|]. cbn in Ho. pose proof (object_value c Hc E) as H. destruct (val VDict c); try done. by destruct (H d). }
  split; [done|]. destruct c as [| | |gap ms]; try done.
  destruct (routes path gap ms Hp) as [walked key' p1 g1 m1 q1 p1' k1 c1 a1 r1 Ep F1 F2|walked key' o1 p1 g1 m1 q1 Ep F1 F2|walked key' n1 o1 p1 g1 m1 q1 p1' k1 c1 a1 r1 Ep F1 F2 F3].
  - left. eauto 20.
  - right. eauto 20.
  - exfalso. rewrite Ep, (focus_objects _ _ _ _ _ (key' :: n1 :: o1) F1) in Ho by done. cbn [objects_on val] in Ho. rewrite (first_val _ _ _ _ _ _ _ F2) in Ho.
    pose proof (focus_wf _ _ _ _ _ F1 Hc) as [_ Hm]. destruct (first_wf _ _ _ _ _ _ _ F2 Hm) as (_ & Hc1 & _).
    pose proof (object_value c1 Hc1 F3) as H. destruct (val VDict c1); try done. by destruct (H d).
Qed.

Lemma assign_blank t path x : blank t = true -> assign t path x = assign (u "{}" ++ [10]) path x.
Proof. intros H. unfold assign. rewrite H. done. Qed.

Lemma assign_tree w1 c w2 t path x : tree_document t w1 c w2 -> wf_value (val VDict c) -> finite_value (val VDict c) -> writable x ->
  path <> [] -> Forall code_points path -> objects_on path (val VDict c) = true ->
  exists t', assign t path x = Ok t' /\ reads t' (set_at path x (val VDict c)).
Proof.
  intros Hdoc Hwf Hf Hx Hp Hcp Ho. pose proof (doc_wf _ _ _ _ Hdoc) as Hc. pose proof (proj1 finite_tree c Hc Hf) as Hfc.
  destruct (objects_route path c Hc Hp Ho) as [Hobj [(walked & key & p & gap & ms & q & p' & k & c' & a & rest & -> & F & Hf')|
    (walked & key & others & p & gap & ms & q & -> & F & Hn)]].
  - by eapply assign_found.
  - eapply assign_missing; try done. by apply Forall_app in Hcp as [_ Hcp].
Qed.

Lemma assign_reads t path x v : reads t v -> finite_value v -> writable x -> path <> [] -> Forall code_points path ->
  objects_on path v = true -> exists t', assign t path x = Ok t' /\ reads t' (set_at path x v).
Proof.
  intros Hr Hfin Hx Hp Hcp Ho. destruct (blank t) eqn:Eb.
  - assert (v = VDict []) as -> by (unfold reads in Hr; by rewrite Eb in Hr).
    rewrite (assign_blank t path x Eb). apply (assign_tree _ _ _ _ _ _ empty_document); [by split; [constructor|]|done..].
  - destruct (reads_tree t v Hr Eb) as (w1 & c & w2 & Hdoc & <- & Hwf). by eapply assign_tree.
Qed.


(** ** The sample *)
Definition sample_value : value := VDict [(u "a", VDict [(u "b", VList [VInt 1])]); (u "c", VNone)].
Definition sample_entry : value := VDict [(u "command", VStr (u "uvx"))].
Lemma sample_reads : reads sample_config sample_value.
Proof.
  unfold reads. change (blank sample_config) with false. eexists. split; [by vm_compute|]. split; [by vm_compute|].
  cbn. repeat split; repeat constructor; vm_compute; set_solver.
Qed.
Lemma sample_writable : writable sample_entry.
Proof. cbn. repeat split; repeat constructor. all: vm_compute; set_solver. Qed.


(** * Removing a key of a document

    [delete] cuts a member by its lines.  Where the key has its line to itself, or a comma before it to
    take along, what is left reads as the document without the key ([delete_unsets]); elsewhere the cut
    can take a neighbour, as [JsonEdit.delete_takes_the_line] shows. *)

(** ** Specification *)
Fixpoint present (path : list text) (v : value) : bool :=
  match path with
  | [] => true
  | key :: path' => match v with VDict d => match dget key d with Some w => present path' w | None => false end | _ => false end
  end.

(** The layouts [delete] copes with.  A member with its comma after it on the same line: only blanks
    before it on its line.  Otherwise: a comma before it, or blanks before it and the closing brace after. *)
Definition removable (t masked : text) (value_end key_start : nat) : bool :=
  let on_line := forallb is_blank (slice t (property_line_start t key_start) key_start) in
  if at_char masked (skip_inline masked value_end) 44 then on_line
  else at_char masked (trimmed masked key_start - 1) 44 || (on_line && at_char masked (skip masked value_end) 125).

Definition removable_at (t : text) (path : list text) : bool :=
  match mask_comments t with
  | Ok masked => match locate masked path with Ok (Found _ value_end key_start) => removable t masked value_end key_start | _ => false end
  | Raise _ => false
  end.

(** ** Members without one *)
Lemma dkeys_without key (d : dict value) k : k ∈ dkeys (without key d) -> k ∈ dkeys d.
Proof. unfold dkeys. induction d as [|[k' v] d IH]; cbn; [done|]. case_bool_decide; rewrite ?elem_of_cons; cbn; [tauto|]. rewrite elem_of_cons. tauto. Qed.

Lemma unset_wf key v : wf_value v -> wf_value (unset key v).
Proof.
  destruct v as [| | | | | |d]; try done. intros [Hn Hd]. cbn [unset wf_value]. induction d as [|[k w] d IH]; [done|].
  cbn [without fst]. inversion Hn as [|? ? Hk Hn']; subst. destruct Hd as [Hw Hd]. case_bool_decide as Hkey; [done|]. destruct (IH Hn' Hd) as [H1 H2]. split.
  - constructor; [|done]. intros Hin. apply Hk. by eapply dkeys_without.
  - by split.
Qed.

(** A member goes, and the white space before it stays before the next. *)
Lemma drop_to_next key ms p k c a rest : first_member key ms p k c a rest -> wf_members ms -> rest <> MNil -> forall w, white w ->
  exists ms', wf_members ms' /\ flat_members ms' = p ++ w ++ flat_members rest /\ member_vals VDict ms' = without key (member_vals VDict ms) /\ ms' <> MNil.
Proof.
  intros H Hm Hr w Hw. induction H as [k c a ms Hk|k' c' a' ms p k c a rest Hne H IH]; cbn [wf_members] in Hm.
  - destruct ms as [|k2 c2 a2 ms]; [done|]. destruct Hm as (_ & _ & _ & (H1 & H2 & H3 & H4) & Hc2 & Ha2 & Hms).
    exists (MCons {| lead := w ++ lead k2; literal := literal k2; name := name k2; before_colon := before_colon k2; after_colon := after_colon k2 |} c2 a2 ms).
    split; [|split; [|split; [|done]]].
    + cbn [wf_members]. repeat split; try done. by apply white_app.
    + cbn [flat_members]. unfold flat_key. cbn [lead literal before_colon after_colon app]. by rewrite <- !app_assoc.
    + cbn [member_vals without fst name]. by rewrite bool_decide_eq_true_2.
  - destruct Hm as (Hk' & Hc' & Ha' & Hm). destruct (IH Hm Hr) as (ms' & Hw' & Et & Ev & Hn'). exists (MCons k' c' a' ms').
    split; [done|]. split; [|split; [|done]].
    + cbn [flat_members]. destruct ms' as [|k3 c3 a3 ms']; [done|]. rewrite Et. by rewrite <- !app_assoc.
    + cbn [member_vals without fst]. rewrite bool_decide_eq_false_2 by done. by rewrite Ev.
Qed.

(** A member goes with the comma before it. *)
Lemma drop_with_comma key ms p k c a rest : first_member key ms p k c a rest -> wf_members ms -> forall p0, p = p0 ++ [44] ->
  exists ms', wf_members ms' /\ flat_members ms' = p0 ++ a ++ tail_text rest /\ member_vals VDict ms' = without key (member_vals VDict ms).
Proof.
  intros H Hm. induction H as [k c a ms Hk|k' c' a' ms p k c a rest Hne H IH]; intros p0 Ep; cbn [wf_members] in Hm; [by destruct p0|].
  destruct Hm as (Hk' & Hc' & Ha' & Hm). cbn [member_vals without fst]. rewrite bool_decide_eq_false_2 by done.
  destruct H as [k c a ms Hk|k2 c2 a2 ms p k c a rest Hne2 H].
  - cbn [wf_members] in Hm. destruct Hm as (_ & Hc & Ha & Hm). exists (MCons k' c' (a' ++ a) ms). split; [cbn [wf_members]; rewrite white_app; done|].
    rewrite app_nil_r, !app_assoc in Ep. apply app_inj_tail in Ep as [<- _]. split.
    + cbn [flat_members]. change (match ms with MNil => [] | MCons _ _ _ _ => [44] ++ flat_members ms end) with (tail_text ms). by rewrite <- !app_assoc.
    + cbn [member_vals without fst]. by rewrite bool_decide_eq_true_2.
  - set (p2 := flat_key k2 ++ flat c2 ++ a2 ++ [44] ++ p) in *.
    assert (exists p1, p2 = p1 ++ [44]) as [p1 Ep2].
    { destruct (exists_last (l := p2)) as (p1 & y & E); [unfold p2; destruct (flat_key k2); [by destruct (flat c2); [destruct a2|]|done]|].
      exists p1. rewrite E in Ep. rewrite !app_assoc in Ep. apply app_inj_tail in Ep as [_ ->]. done. }
    destruct (IH Hm p1 Ep2) as (ms' & Hw' & Et & Ev). exists (MCons k' c' a' ms'). split; [done|].
    assert (ms' <> MNil) as Hn.
    { intros ->. cbn in Ev. rewrite bool_decide_eq_false_2 in Ev by done. done. }
    assert (p0 = flat_key k' ++ flat c' ++ a' ++ [44] ++ p1) as ->.
    { rewrite Ep2 in Ep. replace (flat_key k' ++ flat c' ++ a' ++ [44] ++ p1 ++ [44]) with ((flat_key k' ++ flat c' ++ a' ++ [44] ++ p1) ++ [44]) in Ep by by rewrite <- !app_assoc.
      by apply app_inj_tail in Ep as [<- _]. }
    split; [|cbn [member_vals]; by rewrite Ev]. cbn [flat_members]. destruct ms' as [|k3 c3 a3 ms']; [done|]. rewrite Et. by rewrite <- !app_assoc.
Qed.

(** What precedes a member is nothing or ends in a comma. *)
Lemma before_member key ms p k c a rest : first_member key ms p k c a rest -> wf_members ms -> p = [] \/ exists p0, p = p0 ++ [44] /\ plain p0.
Proof.
  induction 1 as [|k' c' a' ms p k c a rest _ _ IH]; [by left|]. intros (Hk & Hc & Ha & Hm). right.
  assert (forall x, plain x -> plain (flat_key k' ++ flat c' ++ a' ++ x)) as Hp.
  { intros x Hx. apply plain_app; [by apply key_plain|]. apply plain_app; [by apply cst_plain|]. apply plain_app; [by apply plain_white|done]. }
  destruct (IH Hm) as [->|(p0 & -> & Hp0)].
  - exists (flat_key k' ++ flat c' ++ a'). rewrite app_nil_r, <- !app_assoc. split; [done|]. rewrite <- (app_nil_r a'). apply Hp. constructor.
  - exists (flat_key k' ++ flat c' ++ a' ++ [44] ++ p0). rewrite <- !app_assoc. split; [done|]. apply Hp, plain_app; [by apply plain_one|done].
Qed.

Lemma only_member key ms k c a rest : first_member key ms [] k c a rest -> rest = MNil -> without key (member_vals VDict ms) = [].
Proof.
  intros H ->. inversion H as [k0 c0 a0 ms0 Hk|k2 c2 a2 ms2 p2 k0 c0 a0 r0 _ _ E]; subst.
  - cbn. by rewrite bool_decide_eq_true_2.
  - by destruct (flat_key k2); [destruct (flat c2); [destruct a2|]|].
Qed.

(** ** Cutting at blanks *)
Lemma closed_last b : closed_literal b -> exists b', b = b' ++ [34].
Proof.
  unfold closed_literal. induction b as [b IH] using text_induction. destruct b as [|c l1]; [done|]. cbn [close_quote]. destruct (c =? 92) eqn:E92.
  - destruct l1 as [|d l2]; [done|]. destruct (close_quote l2) as [n|] eqn:E; [|done]. intros [= En]. subst n.
    destruct (IH l2 ltac:(cbn; lia) E) as [b' ->]. by exists (c :: d :: b').
  - destruct (c =? 34) eqn:E34.
    + apply Z.eqb_eq in E34 as ->. intros [= E]. destruct l1; [by exists []|done].
    + destruct (close_quote l1) as [n|] eqn:E; [|done]. intros [= En]. subst n. destruct (IH l1 ltac:(cbn; lia) E) as [b' ->]. by exists (c :: b').
Qed.

Lemma app_snoc_cases {A} (x p a : list A) e : x ++ p = a ++ [e] -> p = [] /\ x = a ++ [e] \/ exists p', p = p' ++ [e] /\ a = x ++ p'.
Proof.
  intros E. destruct p as [|y p _] using rev_ind; [left; by rewrite app_nil_r in E|right]. rewrite app_assoc in E.
  apply app_inj_tail in E as [<- <-]. by exists p.
Qed.

(** A blank at the end of whole tokens is a token of its own. *)
Lemma lexed_snoc_blank t m : lexed t m -> forall a e, t = a ++ [e] -> is_blank e = true -> exists m', m = m' ++ [e] /\ lexed a m'.
Proof.
  induction 1 as [|c p m Hc Hl IH|b p m Hb Hl IH|body p m Hb Hl IH|b p m Hb He Hl IH]; intros a e E Hblank.
  - by destruct a.
  - change (c :: p) with ([c] ++ p) in E. apply app_snoc_cases in E as [[-> E]|(p' & -> & ->)].
    + inversion Hl; subst. destruct a as [|x a]; [injection E as ->; exists []; split; [done|constructor]|by destruct a].
    + destruct (IH p' e eq_refl Hblank) as (m' & -> & H'). exists (c :: m'). split; [done|]. by constructor.
  - change (34 :: b ++ p) with ((34 :: b) ++ p) in E. apply app_snoc_cases in E as [[-> E]|(p' & -> & ->)].
    + destruct (closed_last _ Hb) as [b' ->]. change (34 :: b' ++ [34]) with ((34 :: b') ++ [34]) in E. by apply app_inj_tail in E as [_ <-].
    + destruct (IH p' e eq_refl Hblank) as (m' & -> & H'). exists (34 :: b ++ m'). split; [cbn; by rewrite <- app_assoc|]. by apply L_string.
  - replace (47 :: 47 :: body ++ 10 :: p) with ((47 :: 47 :: body ++ [10]) ++ p) in E by (cbn; by rewrite <- app_assoc).
    apply app_snoc_cases in E as [[-> E]|(p' & -> & ->)].
    + change (47 :: 47 :: body ++ [10]) with ((47 :: 47 :: body) ++ [10]) in E. by apply app_inj_tail in E as [_ <-].
    + destruct (IH p' e eq_refl Hblank) as (m' & -> & H'). exists (32 :: 32 :: repeat 32 (length body) ++ 10 :: m').
      split; [cbn; by rewrite <- app_assoc|]. cbn. rewrite <- app_assoc. by apply L_line.
  - change (47 :: 42 :: b ++ p) with ((47 :: 42 :: b) ++ p) in E. apply app_snoc_cases in E as [[-> E]|(p' & -> & ->)].
    + apply ends_with_one in He as [b' ->]. change (47 :: 42 :: b' ++ [47]) with ((47 :: 42 :: b') ++ [47]) in E. by apply app_inj_tail in E as [_ <-].
    + destruct (IH p' e eq_refl Hblank) as (m' & -> & H'). exists (32 :: 32 :: masked_block b ++ m'). split; [cbn; by rewrite <- app_assoc|]. by apply L_block.
Qed.

Lemma lexed_cut_blanks a b m : lexed (a ++ b) m -> blanks b -> exists m', m = m' ++ b /\ lexed a m'.
Proof.
  revert a m. induction b as [|e b IH] using rev_ind; intros a m H Hb; [rewrite app_nil_r in H; exists m; by rewrite app_nil_r|].
  apply Forall_app in Hb as [Hb He]. inversion He; subst. destruct (lexed_snoc_blank _ _ H (a ++ b) e ltac:(by rewrite app_assoc) ltac:(done)) as (m' & -> & H').
  destruct (IH _ _ H' Hb) as (m2 & -> & Hm2). exists m2. by rewrite <- app_assoc.
Qed.

(** A character that is not blank bounds the blanks after it. *)
Lemma blanks_bounded x e y m b : x ++ [e] ++ y = m ++ b -> is_blank e = false -> blanks b -> exists g, m = x ++ [e] ++ g /\ y = g ++ b.
Proof.
  intros E He Hb. rewrite app_assoc in E. apply app_eq_inv in E as [(k & E1 & E2)|(k & -> & E2)].
  - destruct k as [|y' k _] using rev_ind; [exists []; rewrite app_nil_r in E1; split; [by rewrite <- E1|by rewrite E2]|].
    rewrite app_assoc in E1. apply app_inj_tail in E1 as [_ <-]. exfalso. rewrite E2 in Hb. apply Forall_app in Hb as [Hb _].
    apply Forall_app in Hb as [_ Hb]. inversion Hb. congruence.
  - exists k. by rewrite <- app_assoc.
Qed.

(** ** The cuts of a member *)
Lemma line_start_bound t i : (line_start t i <= i)%nat.
Proof. unfold line_start. rewrite length_take. lia. Qed.
Lemma property_line_start_bound t i : (property_line_start t i <= i)%nat.
Proof. unfold property_line_start. destruct (mem _ _); [apply line_start_bound|lia]. Qed.

Lemma skip_inline_spec t i r : drop i t = r -> skip_inline t i = (i + length (take_while is_blank r))%nat.
Proof. intros <-. done. Qed.

Lemma tail_cases rest : rest = MNil /\ tail_text rest = [] \/ rest <> MNil /\ tail_text rest = [44] ++ flat_members rest.
Proof. destruct rest; [by left|by right]. Qed.

(** A comma on the line of a value is the one after it. *)
Lemma comma_after masked i a y s : drop i masked = a ++ y :: s -> white a -> is_ws y = false ->
  at_char masked (skip_inline masked i) 44 = true -> y = 44 /\ skip_inline masked i = (i + length a)%nat.
Proof.
  intros D Ha Hy Hc. rewrite (skip_inline_spec _ _ _ D) in *. unfold at_char in Hc. apply bool_decide_eq_true_1 in Hc.
  rewrite <- lookup_drop, D in Hc. assert (take_while is_blank (a ++ y :: s) = take_while is_blank a) as E.
  { clear -Hy. assert (is_blank y = false) as Hb by (unfold is_ws, is_blank in *; lia). induction a as [|x a IH]; cbn; [by rewrite Hb|]. destruct (is_blank x); [by rewrite IH|done]. }
  rewrite E in *. pose proof (take_while_split is_blank a) as Es. set (tw := take_while is_blank a) in *. clearbody tw. clear E.
  destruct (drop (length tw) a) as [|x r] eqn:Er.
  - rewrite app_nil_r in Es. subst tw. rewrite list_lookup_middle in Hc by done. split; [congruence|done].
  - exfalso. rewrite Es, <- app_assoc in Hc. cbn [app] in Hc. rewrite list_lookup_middle in Hc by done. injection Hc as ->.
    rewrite Es in Ha. apply Forall_app in Ha as [_ Ha]. by inversion Ha.
Qed.

(** The last solid character before an index. *)
Lemma trimmed_solid masked i x e w : take i masked = x ++ [e] ++ w -> is_ws e = false -> white w -> trimmed masked i = S (length x).
Proof.
  intros E He Hw. unfold trimmed. rewrite E, !rev_app_distr, <- app_assoc, skip_ws_white.
  - cbn. rewrite He. cbn. by rewrite length_rev.
  - by apply Forall_rev.
Qed.

Section Cut.
Context (t w1 w2 : text) (c : cst) (walked : list text) (key p gap : text) (ms : members) (q p' : text) (k : Key) (c' : cst) (a : text) (rest : members).
Hypothesis (Hdoc : tree_document t w1 c w2) (F : focus walked c p (CObj gap ms) q) (H : first_member key ms p' k c' a rest).
Hypothesis (Hwf : wf_value (val VDict c)).

Let before := w1 ++ p ++ [123] ++ gap ++ p' ++ lead k.
Let member := literal k ++ before_colon k ++ [58] ++ after_colon k ++ flat c'.
Let beyond := a ++ tail_text rest ++ [125] ++ q ++ w2.
Let masked := document w1 c w2.

Lemma cut_masked : masked = before ++ member ++ beyond.
Proof.
  unfold masked, document, before, member, beyond. rewrite (focus_text _ _ _ _ _ F). cbn [flat]. rewrite (first_text _ _ _ _ _ _ _ H). unfold flat_key.
  by rewrite <- !app_assoc.
Qed.

Lemma object_wf : wf (CObj gap ms).
Proof. destruct Hdoc. by eapply focus_wf. Qed.
Lemma member_wf : white gap /\ wf_members ms /\ wf_key k /\ wf c' /\ white a /\ wf_members rest.
Proof. pose proof object_wf as [Hg Hm]. destruct (first_wf _ _ _ _ _ _ _ H Hm) as (? & ? & ? & ?). done. Qed.

(** The text before the key, the member and the text after it. *)
Lemma cut_text : exists t1 t2 t3, t = t1 ++ t2 ++ t3 /\ lexed t1 before /\ length t2 = length member /\ mask_comments t3 = Ok beyond /\ t3 <> [].
Proof.
  destruct member_wf as (Hg & Hm & (Hl & Hlit & Hbc & Hac) & Hc & Ha & Hr). destruct Hdoc as [Hmask H1 Hcc H2].
  fold masked in Hmask. rewrite cut_masked in Hmask. pose proof Hlit as (b & ts & El & Hb & Hj).
  destruct (mask_split t before (member ++ beyond) Hmask) as (t1 & r & -> & Hl1 & Hr1).
  - unfold before. apply plain_app; [by apply plain_white|]. apply plain_app; [by eapply focus_plain|]. apply plain_app; [by apply plain_one|].
    apply plain_app; [by apply plain_white|]. apply plain_app; [by eapply first_plain|by apply plain_white].
  - right; right. unfold member. rewrite El. by eexists 34, _.
  - destruct (mask_split r member beyond Hr1) as (t2 & t3 & -> & Hl2 & Hr2).
    + unfold member. apply plain_app; [by eapply literal_plain|]. apply plain_app; [by apply plain_white|]. apply plain_app; [by apply plain_one|].
      apply plain_app; [by apply plain_white|by apply cst_plain].
    + right; left. unfold member. do 4 apply ends_solid_prepend. by apply flat_solid.
    + exists t1, t2, t3. split; [done|]. split; [done|]. split; [by apply lexed_length|]. split; [done|].
      eapply mask_nonempty; [exact Hr2|]. unfold beyond. by destruct a; [destruct (tail_text rest)|].
Qed.

Lemma removed_reads t' o' : mask_comments t' = Ok (w1 ++ p ++ flat o' ++ q ++ w2) -> wf o' -> is_obj o' = true ->
  val VDict o' = VDict (without key (member_vals VDict ms)) -> reads t' (remove_at (walked ++ [key]) (val VDict c)).
Proof.
  intros Hm Ho Hobj Hv. unfold remove_at. rewrite last_snoc, removelast_last.
  eapply (put_mask t w1 c w2 Hdoc t' walked p (CObj gap ms) q (unset key) o'); try done.
  apply update_at_wf; [|done]. apply unset_wf.
Qed.

(** The three cuts, on the text around the member. *)
Section Texts.
Context (t1 t2 t3 : text).
Hypothesis (Et : t = t1 ++ t2 ++ t3) (L1 : lexed t1 before) (L2 : length t2 = length member) (M3 : mask_comments t3 = Ok beyond) (Hne : t3 <> []).
Let ks := length before.
Let ve := length (before ++ member).
Let kept := take (property_line_start t ks) t.
Let on_line := forallb is_blank (slice t (property_line_start t ks) ks).

Lemma drop_masked : drop ve masked = beyond.
Proof. unfold ve. rewrite cut_masked, app_assoc. apply drop_app_length. Qed.
Lemma drop_text : drop ve t = t3.
Proof. pose proof (lexed_length _ _ L1) as Len1. unfold ve. rewrite Et, app_assoc, length_app, <- Len1, <- L2, <- length_app. apply drop_app_length. Qed.
Lemma take_masked : take ks masked = before.
Proof. unfold ks. rewrite cut_masked. apply take_app_length. Qed.
Lemma finish_text s : finish t (s ++ t3) = s ++ t3.
Proof. rewrite Et at 1. rewrite app_assoc. by apply finish_suffix. Qed.

(** The blanks before the key on its line. *)
Lemma cut_line : on_line = true -> exists g b, lexed kept (w1 ++ p ++ [123] ++ g) /\ gap ++ p' ++ lead k = g ++ b /\ blanks b /\ t = kept ++ (b ++ t2 ++ t3).
Proof.
  intros Hb. unfold on_line, kept in *. set (L := property_line_start t ks) in *.
  assert (take ks t = t1) as Tt by (unfold ks; rewrite Et, <- (lexed_length _ _ L1); apply take_app_length).
  pose proof (property_line_start_bound t ks) as HL. fold L in HL.
  assert (t1 = take L t ++ slice t L ks) as E1.
  { unfold slice. rewrite <- Tt. rewrite <- (take_drop L (take ks t)), take_take, Nat.min_l by done. f_equal. by rewrite skipn_firstn_comm. }
  assert (blanks (slice t L ks)) as HB by (apply Forall_forall; intros x Hx; rewrite forallb_forall in Hb; apply Hb; by apply list_elem_of_In).
  rewrite E1 in L1. destruct (lexed_cut_blanks _ _ _ L1 HB) as (m' & Eb & Hl). unfold before in Eb. rewrite (app_assoc w1) in Eb.
  destruct (blanks_bounded _ _ _ _ _ Eb ltac:(done) HB) as (g & -> & Eg). exists g, (slice t L ks). rewrite <- app_assoc in Hl. split; [done|]. split; [done|]. split; [done|].
  rewrite Et at 1. rewrite E1. by rewrite <- app_assoc.
Qed.

Lemma white_before g b : gap ++ lead k = g ++ b -> white g.
Proof.
  intros E. destruct member_wf as (Hg & _ & (Hl & _) & _). assert (white (gap ++ lead k)) as W by by apply white_app.
  rewrite E in W. by apply white_app in W as [W _].
Qed.

(** The comma after the member goes with it. *)
Lemma cut_next : at_char masked (skip_inline masked ve) 44 = true -> on_line = true ->
  exists t', finish t (kept ++ drop (S (skip_inline masked ve)) t) = t' /\ reads t' (remove_at (walked ++ [key]) (val VDict c)).
Proof.
  intros Ecomma Hrem. destruct member_wf as (Hg & Hm & Hk & Hc & Ha & Hr). pose proof drop_masked as Dm. pose proof drop_text as Dt.
  destruct (tail_cases rest) as [[_ Et0]|[Hrest Et0]].
  { exfalso. unfold beyond in Dm. rewrite Et0 in Dm. by destruct (comma_after masked ve a 125 _ Dm Ha eq_refl Ecomma). }
  assert (beyond = a ++ [44] ++ flat_members rest ++ [125] ++ q ++ w2) as Eb by (unfold beyond; rewrite Et0; by rewrite <- !app_assoc).
  rewrite Eb in Dm. destruct (comma_after masked ve a 44 _ Dm Ha eq_refl Ecomma) as [_ ->].
  destruct (cut_line Hrem) as (g & b & Lg & Eg & Hb & Etl).
  rewrite Eb, app_assoc in M3. destruct (mask_split t3 (a ++ [44]) _ M3) as (ta & t4 & E3 & La & M4).
  { apply plain_app; [by apply plain_white|by apply plain_one]. }
  { right; left. by apply solid_last. }
  assert (drop (S (ve + length a)) t = t4) as ->.
  { pose proof (lexed_length _ _ La) as Lta. rewrite length_app in Lta. cbn [length] in Lta.
    replace (S (ve + length a)) with (ve + length ta)%nat by lia. rewrite <- drop_drop, Dt, E3. apply drop_app_length. }
  assert (t4 <> []) as Hne4 by (eapply mask_nonempty; [exact M4|]; by destruct (flat_members rest)).
  assert (finish t (kept ++ t4) = kept ++ t4) as ->.
  { rewrite Etl, E3. rewrite !app_assoc. by apply finish_suffix. }
  eexists. split; [done|].
  assert (forall o', flat o' = [123] ++ g ++ flat_members rest ++ [125] -> mask_comments (kept ++ t4) = Ok (w1 ++ p ++ flat o' ++ q ++ w2)) as Hmask.
  { intros o' ->. replace (w1 ++ p ++ ([123] ++ g ++ flat_members rest ++ [125]) ++ q ++ w2) with ((w1 ++ p ++ [123] ++ g) ++ (flat_members rest ++ [125] ++ q ++ w2)) by by rewrite <- !app_assoc.
    by apply lexed_mask. }
  destruct (before_member _ _ _ _ _ _ _ H Hm) as [Ep|(p0 & Ep & Hp0)].
  + (* the first member *)
    rewrite Ep in Eg. cbn [app] in Eg. assert (white g) as Wg.
    { destruct Hk as (Hl & _). assert (white (gap ++ lead k)) as W by by apply white_app. rewrite Eg in W. by apply white_app in W as [W _]. }
    assert (member_vals VDict rest = without key (member_vals VDict ms)) as Ev.
    { clear -H Ep. rewrite Ep in H. inversion H as [k0 c0 a0 ms0 Hk|k2 c2 a2 ms2 p2 k0 c0 a0 r0 _ _ E]; subst.
      - cbn. by rewrite bool_decide_eq_true_2.
      - by destruct (flat_key k2); [destruct (flat c2); [destruct a2|]|]. }
    apply (removed_reads _ (CObj g rest)); [by apply Hmask|done|done|]. cbn [val]. by rewrite Ev.
  + (* a comma before it stays *)
    assert (exists l1, g = gap ++ p' ++ l1 /\ white l1) as (l1 & -> & Wl1).
    { rewrite Ep in Eg. replace (gap ++ (p0 ++ [44]) ++ lead k) with ((gap ++ p0) ++ [44] ++ lead k) in Eg by by rewrite <- !app_assoc.
      destruct (blanks_bounded _ _ _ _ _ Eg ltac:(done) Hb) as (l1 & -> & El). exists l1. rewrite Ep. split; [by rewrite <- !app_assoc|].
      destruct Hk as (Hl & _). rewrite El in Hl. by apply white_app in Hl as [Hl _]. }
    destruct (drop_to_next _ _ _ _ _ _ _ H Hm Hrest l1 Wl1) as (ms' & Hw' & Ef & Ev & _).
    apply (removed_reads _ (CObj gap ms')); [|done|done|cbn [val]; by rewrite Ev].
    apply Hmask. cbn [flat]. rewrite Ef. by rewrite <- !app_assoc.
Qed.

(** The only member leaves an empty object. *)
Lemma cut_only : p' = [] -> on_line = true -> at_char masked (skip masked ve) 125 = true ->
  exists t', finish t (kept ++ t3) = t' /\ reads t' (remove_at (walked ++ [key]) (val VDict c)).
Proof.
  intros Ep Hl Hclose. destruct member_wf as (Hg & Hm & Hk & Hc & Ha & Hr). pose proof drop_masked as Dm. destruct (cut_line Hl) as (g & b & Lg & Eg & Hb & Etl).
  assert (rest = MNil) as Erest.
  { destruct (tail_cases rest) as [[? _]|[_ Et0]]; [done|exfalso]. unfold beyond in Dm. rewrite Et0 in Dm. rewrite <- !app_assoc in Dm.
    destruct (skip_to masked ve a 44 _ Dm Ha eq_refl) as (_ & _ & Hat). by rewrite Hat in Hclose. }
  rewrite finish_text. eexists. split; [done|]. rewrite Ep in Eg. cbn [app] in Eg. assert (white g) as Wg.
  { destruct Hk as (Hlead & _). assert (white (gap ++ lead k)) as W by by apply white_app. rewrite Eg in W. by apply white_app in W as [W _]. }
  assert (without key (member_vals VDict ms) = []) as Ev by (clear -H Ep Erest; rewrite Ep in H; by eapply only_member).
  apply (removed_reads _ (CObj (g ++ a) MNil)); [|cbn; split; [by apply white_app|done]|done|cbn [val member_vals]; by rewrite Ev].
  assert (w1 ++ p ++ flat (CObj (g ++ a) MNil) ++ q ++ w2 = (w1 ++ p ++ [123] ++ g) ++ beyond) as ->; [|by apply lexed_mask].
  unfold beyond. rewrite Erest. cbn [flat flat_members tail_text]. drop_tac.
Qed.

(** The comma before the member goes with it. *)
Lemma cut_comma p0 : p' = p0 ++ [44] -> plain p0 ->
  trimmed masked ks = S (length (w1 ++ p ++ [123] ++ gap ++ p0)) /\ at_char masked (trimmed masked ks - 1) 44 = true /\
  exists t', finish t (take (trimmed masked ks - 1) t ++ t3) = t' /\ reads t' (remove_at (walked ++ [key]) (val VDict c)).
Proof.
  intros Ep Hp0. destruct member_wf as (Hg & Hm & Hk & Hc & Ha & Hr). pose proof cut_masked as Em. pose proof take_masked as Tm.
  assert (trimmed masked ks = S (length (w1 ++ p ++ [123] ++ gap ++ p0))) as Etr.
  { apply (trimmed_solid _ _ _ 44 (lead k)); [|done|by destruct Hk]. rewrite Tm. unfold before. rewrite Ep. by rewrite <- !app_assoc. }
  set (x := w1 ++ p ++ [123] ++ gap ++ p0) in *.
  assert (before = x ++ [44] ++ lead k) as Ebx by (unfold before, x; rewrite Ep; by rewrite <- !app_assoc).
  split; [done|]. split.
  { rewrite Etr. cbn [Nat.sub]. rewrite Nat.sub_0_r. unfold at_char. apply bool_decide_eq_true_2. rewrite Em, Ebx, <- !app_assoc. cbn [app]. by rewrite list_lookup_middle. }
  rewrite Etr. cbn [Nat.sub]. rewrite Nat.sub_0_r.
  rewrite Ebx in L1. destruct (lexed_split _ _ L1 x ([44] ++ lead k) eq_refl) as (ta & tb & E1 & La & _).
  { unfold x. destruct Hdoc. apply plain_app; [by apply plain_white|]. apply plain_app; [by eapply focus_plain|].
    apply plain_app; [by apply plain_one|]. apply plain_app; [by apply plain_white|done]. }
  { right; right. by exists 44, (lead k). }
  assert (take (length x) t = ta) as -> by (rewrite Et, E1, <- (lexed_length _ _ La), <- !app_assoc; apply take_app_length).
  rewrite finish_text. eexists. split; [done|].
  destruct (drop_with_comma _ _ _ _ _ _ _ H Hm p0 Ep) as (ms' & Hw' & Ef & Ev).
  apply (removed_reads _ (CObj gap ms')); [|done|done|cbn [val]; by rewrite Ev]. cbn [flat]. rewrite Ef.
  replace (w1 ++ p ++ ([123] ++ gap ++ (p0 ++ a ++ tail_text rest) ++ [125]) ++ q ++ w2) with (x ++ beyond) by (unfold x, beyond; by rewrite <- !app_assoc).
  by apply lexed_mask.
Qed.
End Texts.

(** What the removal does to the text of the member. *)
Lemma remove_reads : let ks := length before in let ve := length (before ++ member) in
  removable t masked ve ks = true -> exists t', finish t (remove_property t masked ve ks) = t' /\ reads t' (remove_at (walked ++ [key]) (val VDict c)).
Proof.
  intros ks ve Hrem. destruct cut_text as (t1 & t2 & t3 & Et & L1 & L2 & M3 & Hne). destruct member_wf as (Hg & Hm & Hk & _).
  unfold removable in Hrem. unfold remove_property. destruct (at_char masked (skip_inline masked ve) 44) eqn:Ecomma; [by eapply cut_next|].
  unfold ve at 1. rewrite (drop_text t1 t2 t3 Et L1 L2). apply orb_true_iff in Hrem.
  destruct (before_member _ _ _ _ _ _ _ H Hm) as [Ep|(p0 & Ep & Hp0)].
  - assert (at_char masked (trimmed masked ks - 1) 44 = false) as Enc.
    { rewrite (trimmed_solid _ _ (w1 ++ p) 123 (gap ++ lead k)); [|by unfold ks; rewrite take_masked; unfold before; rewrite Ep, <- !app_assoc|done|apply white_app; split; [done|by destruct Hk]].
      cbn [Nat.sub]. rewrite Nat.sub_0_r. unfold at_char. apply bool_decide_eq_false_2. rewrite cut_masked. unfold before.
      rewrite <- !app_assoc, (app_assoc w1). cbn [app]. by rewrite list_lookup_middle. }
    rewrite Enc in *. rewrite andb_false_r. destruct Hrem as [|[Hl Hclose]%andb_true_iff]; [done|]. by eapply cut_only.
  - destruct (cut_comma t1 t2 t3 Et L1 M3 Hne p0 Ep Hp0) as (Etr & Ec & Hcut). fold ks in Etr, Ec, Hcut. rewrite Ec, Etr, (proj2 (Nat.ltb_lt _ _)) by lia.
    rewrite Etr in Hcut. exact Hcut.
Qed.
End Cut.

(** ** delete *)

Lemma present_focus walked c p o q rest : focus walked c p o q -> present (walked ++ rest) (val VDict c) = present rest (val VDict o).
Proof.
  induction 1 as [c|key' path gap' ms' p2 k2 c2 a2 rest2 p2' o q H' F IH]; [done|]. cbn [app present val]. by rewrite (first_val _ _ _ _ _ _ _ H').
Qed.

Lemma delete_steps t w1 c w2 path : tree_document t w1 c w2 -> is_obj c = true -> wf_value (val VDict c) ->
  delete t path =
  (let? located := locate (document w1 c w2) path in
   match located with
   | Missing _ _ _ => Ok t
   | Found _ value_end key_start => Ok (finish t (remove_property t (document w1 c w2) value_end key_start))
   end).
Proof.
  intros Hdoc Hobj Hwf. unfold delete. pose proof Hdoc as [Hm H1 Hc H2]. rewrite (object_not_blank t _ w1 c w2 Hm eq_refl Hobj), Hm. cbn [rbind].
  by rewrite (reads_loads _ _ (tree_reads _ _ _ _ Hdoc Hobj Hwf)).
Qed.

(** Removing a key of a configuration, on a document that reads as [v]: a key that is not there
    leaves the text as it is; a value on the way that is not an object is refused; and a key that is
    there, in a layout [removable] describes, is removed: the new text reads as [v] without the key,
    every other key and value as it was. *)
Theorem delete_unsets t path v : reads t v -> finite_value v -> path <> [] -> blank t = false ->
  (objects_on path v = false -> exists msg, delete t path = Raise (ConfigShapeError msg)) /\
  (objects_on path v = true -> present path v = false -> delete t path = Ok t) /\
  (present path v = true -> removable_at t path = true -> exists t', delete t path = Ok t' /\ reads t' (remove_at path v)).
Proof.
  intros Hr Hfin Hp Hb. destruct (reads_tree t v Hr Hb) as (w1 & c & w2 & Hdoc & <- & Hwf). pose proof Hdoc as [Hm H1 Hc H2].
  pose proof (proj1 finite_tree c Hc Hfin) as Hf. destruct (is_obj c) eqn:Hobj.
  2: { assert (objects_on path (val VDict c) = false /\ present path (val VDict c) = false) as [-> ->].
       { destruct path; [done|]. pose proof (object_value c Hc Hobj) as H. destruct (val VDict c) as [| | | | | |d]; try done. by destruct (H d). }
       split; [|done]. intros _. unfold delete. rewrite Hb, Hm. cbn [rbind]. rewrite (reads_loads _ _ Hr). cbn [rbind].
       rewrite (locate_top _ w1 c w2 eq_refl H1 Hc H2 Hf), Hobj. by eexists. }
  rewrite (delete_steps t w1 c w2 path Hdoc Hobj Hwf). unfold removable_at. rewrite Hm. destruct c as [| | |gap0 ms0]; try done.
  destruct (routes path gap0 ms0 Hp) as [walked key p gap ms q p' k c' a rest Ep F H|walked key others p gap ms q Ep F H|walked key next others p gap ms q p' k c' a rest Ep F H Hno]; subst path.
  - rewrite (locate_found _ w1 _ w2 eq_refl H1 Hc H2 Hf _ _ _ _ _ _ _ _ _ _ _ F H). cbn [rbind].
    rewrite (focus_objects _ _ _ _ _ [key] F), (present_focus _ _ _ _ _ [key] F) by done. cbn [objects_on present val]. rewrite (first_val _ _ _ _ _ _ _ H).
    split; [done|]. split; [done|]. intros _ Hrem.
    assert ((w1 ++ p) ++ [123] ++ gap ++ p' ++ lead k = w1 ++ p ++ [123] ++ gap ++ p' ++ lead k) as E by by rewrite <- !app_assoc. rewrite E in *.
    assert (Nat.add (value_at (w1 ++ p) gap p' k) (length (flat c')) = length ((w1 ++ p ++ [123] ++ gap ++ p' ++ lead k) ++ (literal k ++ before_colon k ++ [58] ++ after_colon k ++ flat c'))) as E2.
    { unfold value_at, flat_key. rewrite !length_app. lia. }
    rewrite E2 in *. destruct (remove_reads t w1 w2 _ walked key p gap ms q p' k c' a rest Hdoc F H Hwf Hrem) as (t' & -> & Hr'). by exists t'.
  - rewrite (locate_missing _ w1 _ w2 eq_refl H1 Hc H2 Hf _ _ others _ _ _ _ F H). cbn [rbind].
    rewrite (focus_objects _ _ _ _ _ (key :: others) F), (present_focus _ _ _ _ _ (key :: others) F) by done. cbn [objects_on present val]. rewrite (absent_val _ _ H).
    split; [by destruct others|done].
  - rewrite (locate_refused _ w1 _ w2 eq_refl H1 Hc H2 Hf _ _ next others _ _ _ _ _ _ _ _ _ F H Hno).
    rewrite (focus_objects _ _ _ _ _ (key :: next :: others) F), (present_focus _ _ _ _ _ (key :: next :: others) F) by done.
    cbn [objects_on present val]. rewrite (first_val _ _ _ _ _ _ _ H). pose proof (focus_wf _ _ _ _ _ F Hc) as [_ Hms]. destruct (first_wf _ _ _ _ _ _ _ H Hms) as (_ & Hc' & _).
    pose proof (object_value c' Hc' Hno) as Hnot. split; [by eexists|]. split; intros Ho; exfalso.
    all: destruct (val VDict c') as [| | | | | |d]; try done; by destruct (Hnot d).
Qed.

(** The samples' document: a last key behind a comma is removed, a missing one left. *)
Lemma delete_unsets_witness :
  removable_at sample_config [u "c"] = true /\
  (exists t', delete sample_config [u "c"] = Ok t' /\ reads t' (VDict [(u "a", VDict [(u "b", VList [VInt 1])])])) /\
  delete sample_config [u "a"; u "x"] = Ok sample_config /\
  exists msg, delete sample_config [u "c"; u "x"] = Raise (ConfigShapeError msg).
Proof.
  assert (finite_value sample_value) as Hf by by repeat constructor.
  split; [by vm_compute|]. split; [|split].
  - by apply (delete_unsets sample_config [u "c"] sample_value sample_reads Hf).
  - by apply (delete_unsets sample_config [u "a"; u "x"] sample_value sample_reads Hf).
  - by apply (delete_unsets sample_config [u "c"; u "x"] sample_value sample_reads Hf).
Defined.
