(* ===== verification/InstallRedact.v ===== *)
(** * Key material in the installer's output

    Models [install/redact.py]: which values of an entry are the key itself, the copy of an entry whose
    key is a placeholder, the text that is hashed for the state file, and the redaction of the
    summaries and diffs.  The three patterns are written as scanners: each of their repetitions stops at
    a character the next part of the pattern starts with, so the engine never has a second way. *)
From S2P Require Import Prelude Json PyStrings JsonText Redact.
From Stdlib Require Import SpecFloat.
Open Scope Z_scope.

Definition HASH_PLACEHOLDER : text := u "<redacted>".
Definition KEY_NAME : text := u "TYPESAFE_API_KEY".

Definition is_reference (t : text) : bool := starts_with (u "${") t || starts_with (u "{env:") t || bool_decide (t = KEY_NAME).

(** ** Entries *)
Fixpoint walk (v : value) (key : option text) : value :=
  match v with
  | VDict d => VDict ((fun kv => (kv.1, walk kv.2 (Some kv.1))) <$> d)
  | VList l => VList ((fun item => walk item None) <$> l)
  | VStr t => if bool_decide (key = Some KEY_NAME) && negb (is_reference t) then VStr HASH_PLACEHOLDER else v
  | _ => v
  end.
Definition redact_tree (v : value) : value := walk v None.

Fixpoint found_literal (v : value) (key : option text) : bool :=
  match v with
  | VDict d => existsb (fun kv => found_literal kv.2 (Some kv.1)) d
  | VList l => existsb (fun item => found_literal item None) l
  | VStr t => bool_decide (key = Some KEY_NAME) && negb (is_reference t)
  | _ => false
  end.
Definition holds_literal (v : value) : bool := found_literal v None.

(** ** [json.dumps] with its other options

    [sort_keys], the default separators and [ensure_ascii]. *)
Fixpoint sort_keys (v : value) : value :=
  match v with
  | VDict d => VDict (stable_sort (fun a b => text_ltb a.1 b.1) ((fun kv => (kv.1, sort_keys kv.2)) <$> d))
  | VList l => VList (sort_keys <$> l)
  | _ => v
  end.

Definition surrogate_pair (c : Z) : text :=
  [92; 117] ++ Serialize.hex4 (0xD800 + (c - 0x10000) / 1024) ++ [92; 117] ++ Serialize.hex4 (0xDC00 + (c - 0x10000) mod 1024).
Definition ascii_char (c : Z) : text :=
  if (c =? 34) || (c =? 92) || (c <? 32) then escaped_char c
  else if c <? 127 then [c]
  else if c <? 0x10000 then [92; 117] ++ Serialize.hex4 c else surrogate_pair c.
Definition ascii_string (t : text) : text := dq ++ concat (ascii_char <$> t) ++ dq.

(** On one line, with [item] and [colon] between the parts. *)
Section Line.
Context (string_of : text -> text) (item colon : text).
Fixpoint dumps_line (v : value) : text :=
  match v with
  | VNone => u "null"
  | VBool b => if b then u "true" else u "false"
  | VInt n => str_of_Z n
  | VFloat x => float_repr x
  | VStr t => string_of t
  | VList l => u "[" ++ join item (List.map dumps_line l) ++ u "]"
  | VDict d => u "{" ++ join item (List.map (fun kv => string_of kv.1 ++ colon ++ dumps_line kv.2) d) ++ u "}"
  end.
End Line.
Definition dumps_default : value -> text := dumps_line ascii_string (u ", ") (u ": ").

Definition canonical_hash_payload (entry : dict value) : text :=
  dumps_line dumps_string (u ",") (u ":") (sort_keys (redact_tree (VDict entry))).

(** ** Summaries *)
(** The body of a basic string and its closing quote: [(?:\\.|[^"\\])*"]. *)
Fixpoint basic_string (l : text) : option nat :=
  match l with
  | [] => None
  | c :: l1 =>
    if c =? 92 then match l1 with d :: l2 => if d =? 10 then None else (fun n => S (S n)) <$> basic_string l2 | [] => None end
    else if c =? 34 then Some O
    else S <$> basic_string l1
  end.

(** [[^']*']. *)
Fixpoint literal_string (l : text) : option nat :=
  match l with
  | [] => None
  | c :: l1 => if c =? 39 then Some O else S <$> literal_string l1
  end.

Definition spaces (l : text) : nat := (length l - length (lstrip l))%nat.
Definition refers (l : text) : bool := starts_with (u "${") l || starts_with (u "{env:") l.

(** A pattern at the start of a text: the lengths of its first group and of its second, with the
    quote [open_] around the value. *)
Definition assignment (keys : list text) (eq open_ : Z) (body : text -> option nat) (l : text) : option (nat * nat) :=
  match List.find (fun key => starts_with key l) keys with
  | None => None
  | Some key =>
    let l1 := drop (length key) l in
    let l2 := drop (spaces l1) l1 in
    match l2 with
    | c :: l3 =>
      if c =? eq then
        match drop (spaces l3) l3 with
        | q :: l4 =>
          if (q =? open_) && negb (refers l4) then
            (fun n => ((length key + spaces l1 + 1 + spaces l3 + 1)%nat, n)) <$> body l4
          else None
        | [] => None
        end
      else None
    | [] => None
    end
  end.

Definition toml_keys : list text := [dq ++ KEY_NAME ++ dq; [39] ++ KEY_NAME ++ [39]; KEY_NAME].
Definition JSON_LITERAL : text -> option (nat * nat) := assignment [dq ++ KEY_NAME ++ dq] 58 34 basic_string.
Definition TOML_LITERAL : text -> option (nat * nat) := assignment toml_keys 61 34 basic_string.
Definition TOML_LITERAL_SINGLE : text -> option (nat * nat) := assignment toml_keys 61 39 literal_string.

(** [pattern.sub(r"\1[redacted]\3", t)]: what is left to do with the characters of the current match,
    the marker going before the closing quote. *)
Inductive step := Copy | Drop | Mark.
Fixpoint sub (pattern : text -> option (nat * nat)) (todo : list step) (t : text) : text :=
  match t with
  | [] => []
  | c :: t' =>
    match match todo with
          | [] => match pattern t with Some (group, body) => replicate group Copy ++ replicate body Drop ++ [Mark] | None => [Copy] end
          | _ => todo
          end with
    | Copy :: todo' => c :: sub pattern todo' t'
    | Drop :: todo' => sub pattern todo' t'
    | Mark :: todo' => REDACTED ++ c :: sub pattern todo' t'
    | [] => c :: sub pattern [] t'
    end
  end.
Definition sub_all (pattern : text -> option (nat * nat)) (t : text) : text := sub pattern [] t.

(** [redact_text]: the secrets longest first, then every literal assignment of the key.  Python's set has
    no fixed order, so secrets of one length may be replaced in another order. *)
Definition redact_text (t : text) (secrets : list text) : text :=
  let known := stable_sort (fun a b => (length b <? length a)%nat) (remove_dups (List.filter (fun s => negb (bool_decide (s = []))) secrets)) in
  let t := fold_left (fun t secret => replace secret REDACTED t) known t in
  sub_all TOML_LITERAL_SINGLE (sub_all TOML_LITERAL (sub_all JSON_LITERAL t)).

Example redact_json : redact_text (u "x " ++ dq ++ KEY_NAME ++ dq ++ u " : " ++ dq ++ u "ab\" ++ dq ++ u "c" ++ dq ++ u ", k1") [u "k1"; []]
  = u "x " ++ dq ++ KEY_NAME ++ dq ++ u " : " ++ dq ++ REDACTED ++ dq ++ u ", " ++ REDACTED.
Proof. vm_compute. reflexivity. Qed.
Example redact_toml : redact_text (KEY_NAME ++ u "= 'abc' #" ++ [10] ++ [39] ++ KEY_NAME ++ [39] ++ u " =" ++ dq ++ u "${X}" ++ dq) []
  = KEY_NAME ++ u "= '" ++ REDACTED ++ u "' #" ++ [10] ++ [39] ++ KEY_NAME ++ [39] ++ u " =" ++ dq ++ u "${X}" ++ dq.
Proof. vm_compute. reflexivity. Qed.
Example dumps_sorted : dumps_default (sort_keys (VDict [(u "b", VList [VInt 1; VNone]); (u "a", VStr [233; 128512; 34])]))
  = u "{" ++ dq ++ u "a" ++ dq ++ u ": " ++ dq ++ u "\u00e9\ud83d\ude00\" ++ dq ++ dq ++ u ", " ++ dq ++ u "b" ++ dq ++ u ": [1, null]}".
Proof. vm_compute. reflexivity. Qed.

(** ** Facts *)
Lemma walk_again v : forall key, walk (walk v key) key = walk v key.
Proof.
  induction v as [| | | |t|l IH|d IH] using value_induction; intros key; try done.
  - cbn [walk]. destruct (bool_decide (key = Some KEY_NAME) && negb (is_reference t)) eqn:E; cbn [walk]; [|by rewrite E].
    apply andb_true_iff in E as [-> _]. by vm_compute.
  - cbn [walk]. f_equal. induction IH as [|v l Hv _ IHl]; [done|]. cbn. by rewrite Hv, IHl.
  - cbn [walk]. f_equal. induction IH as [|[k v] d Hv _ IHd]; [done|]. cbn in *. by rewrite Hv, IHd.
Qed.

Lemma walk_dict d key : walk (VDict d) key = VDict ((fun kv => (kv.1, walk kv.2 (Some kv.1))) <$> d).
Proof. done. Qed.

(** Values that differ at one key and are alike once walked leave objects that are alike. *)
Lemma walk_dset k v w d key : walk v (Some k) = walk w (Some k) -> walk (VDict (dset k v d)) key = walk (VDict (dset k w d)) key.
Proof.
  intros H. rewrite !walk_dict. f_equal. induction d as [|[k' x] d IH]; cbn [dset].
  - unfold fmap, list_fmap. cbn [fst snd]. by rewrite H.
  - case_bool_decide as E; rewrite !fmap_cons; cbn [fst snd]; [subst k'; by rewrite H|by rewrite IH].
Qed.

(** The key itself is not part of what is hashed: another literal in its place gives the same text. *)
Lemma payload_hides_key entry env k1 k2 : is_reference k1 = false -> is_reference k2 = false ->
  canonical_hash_payload (dset (u "env") (VDict (dset KEY_NAME (VStr k1) env)) entry)
  = canonical_hash_payload (dset (u "env") (VDict (dset KEY_NAME (VStr k2) env)) entry).
Proof.
  intros H1 H2. unfold canonical_hash_payload. do 2 f_equal. apply walk_dset, walk_dset. cbn [walk]. by rewrite H1, H2.
Qed.

(** ** Facts: summaries *)
(** What a match leaves to do. *)
Definition match_steps (group body : nat) : list step := replicate group Copy ++ replicate body Drop ++ [Mark].

(** A value without the opening bracket begins the substituted text only if it begins the text ... *)
Lemma sub_dropping pattern body : forall t s', 91 ∉ s' -> starts_with s' (sub pattern (match_steps 0 body) t) = true -> s' = [].
Proof.
  unfold match_steps. cbn [replicate app]. induction body as [|body IH]; intros [|c t] s' Hs; cbn [sub replicate app]; try (by destruct s').
  - destruct s' as [|d s']; [done|]. cbn. intros [->%Z.eqb_eq _]%andb_prop. by destruct Hs; left.
  - intros H. by eapply IH.
Qed.

Lemma sub_prefix pattern : forall t todo s', 91 ∉ s' -> todo = [] \/ (exists group body, todo = match_steps group body) ->
  starts_with s' (sub pattern todo t) = true -> starts_with s' t = true.
Proof.
  induction t as [|c t IH]; intros todo s' Hs Hr; [done|].
  assert (forall group body, starts_with s' (match match_steps group body with
      | Copy :: todo' => c :: sub pattern todo' t | Drop :: todo' => sub pattern todo' t
      | Mark :: todo' => REDACTED ++ c :: sub pattern todo' t | [] => c :: sub pattern [] t end) = true -> starts_with s' (c :: t) = true) as Hm.
  { intros [|group] body H.
    - assert (s' = []) as ->; [|done]. apply (sub_dropping pattern body (c :: t) s' Hs). by destruct body.
    - cbn in H. destruct s' as [|d s']; [done|]. cbn [starts_with] in *. apply andb_true_iff in H as [-> H]. apply not_elem_of_cons in Hs as [_ Hs].
      apply (IH _ s' Hs) in H; [done|]. right. by exists group, body. }
  destruct Hr as [->|(group & body & ->)]; [|destruct group as [|group]; [destruct body as [|body]|]; [exact (Hm 0%nat 0%nat)|exact (Hm 0%nat (S body))|exact (Hm (S group) body)]].
  cbn [sub]. destruct (pattern (c :: t)) as [[group body]|]; [by apply (Hm group body)|].
  destruct s' as [|d s']; [done|]. cbn [starts_with]. intros [-> H]%andb_prop. apply not_elem_of_cons in Hs as [_ Hs].
  apply (IH [] s' Hs) in H; [done|by left].
Qed.

(** ... and no substitution makes a value the marker cannot spell. *)
Lemma sub_occurs pattern s : unmarked s -> forall t todo, todo = [] \/ (exists group body, todo = match_steps group body) ->
  occurs s (sub pattern todo t) -> occurs s t.
Proof.
  intros Hu. induction t as [|c t IH]; intros todo Hr; [done|].
  assert (forall pre, occurs s t -> occurs s (pre ++ t)) as Happ by (intros pre; apply occurs_app_r).
  assert (forall todo', todo' = [] \/ (exists group body, todo' = match_steps group body) ->
    occurs s (c :: sub pattern todo' t) -> occurs s (c :: t)) as Hcopy.
  { intros todo' H [Hs|Ho]%occurs_cons; [|by apply (Happ [c]), (IH todo')].
    assert (starts_with s (c :: t) = true) as E.
    { destruct s as [|d s]; [done|]. cbn [starts_with] in *. apply andb_true_iff in Hs as [-> Hs]. destruct Hu as (H1 & _).
      apply not_elem_of_cons in H1 as [_ H1]. by eapply sub_prefix. }
    apply starts_with_spec in E as [rest ->]. by exists [], rest. }
  assert (forall group body, occurs s (sub pattern (match_steps group body) (c :: t)) -> occurs s (c :: t)) as Hm.
  { intros [|group] body; [destruct body as [|body]|]; cbn [sub match_steps replicate app].
    - intros Ho%occurs_marker; [|done]. apply (Hcopy []); [by left|done].
    - intros Ho. apply (Happ [c]), (IH (match_steps 0 body)); [right; by exists 0%nat, body|done].
    - apply (Hcopy (match_steps group body)). right. by exists group, body. }
  destruct Hr as [->|(group & body & ->)]; [|apply Hm]. cbn [sub]. destruct (pattern (c :: t)) as [[group body]|]; [|apply (Hcopy []); by left].
  intros H. apply (Hm group body). destruct group as [|group]; [destruct body as [|body]|]; exact H.
Qed.

(** No secret survives in what is shown, nor does a text without one change but at a literal. *)
Lemma redact_text_hides t secrets s : s ∈ secrets -> s <> [] -> unmarked s -> ~ occurs s (redact_text t secrets).
Proof.
  intros Hs Hne Hu H. unfold redact_text, sub_all in H.
  do 3 (apply sub_occurs in H; [|done|by left]).
  set (known := stable_sort _ _) in H.
  assert (forall v, v ∈ known <-> v ∈ secrets /\ v <> []) as Hk.
  { intros v. unfold known. rewrite (elem_of_Permutation_proper v _ _ (stable_sort_perm _ _)), elem_of_remove_dups, list_elem_of_In, List.filter_In, <- list_elem_of_In, negb_true_iff, bool_decide_eq_false. done. }
  clearbody known. assert (s ∈ known) as Hin by by apply Hk.
  apply list_elem_of_split in Hin as (before & after & ->). rewrite fold_left_app in H. cbn [fold_left] in H.
  apply (redact_occurs after) in H; [by eapply replace_removes| |done].
  apply Forall_forall. intros v Hv. apply Hk. apply elem_of_app. right. by right.
Qed.
