(* ===== verification/InstallFs.v ===== *)
(** * The installer's files

    Models [install/fs.py] over a store: pure paths as [pathlib] joins and prints them, the nodes of
    a disk by path, and the calls of [os] the installer makes, each with the failures it can have.
    A computation of [M] threads the disk and keeps, on an exception, what was done before it.  The
    directories on the way to a path are not links, so that a path names one node; a link is a last
    component, with where it resolves to.  SHA-256, the choice of a temporary name and the failures are
    parameters ([Host]). *)
From S2P Require Import Prelude Json PyStrings JsonText JsonEdit InstallRedact Utf8 Paths.
Open Scope Z_scope.

(** ** Paths *)
Record PurePath := { rooted : bool; parts : list text }.
#[export] Instance PurePath_eq_dec : EqDecision PurePath.
Proof. solve_decision. Defined.

Definition pure (t : text) : PurePath := {| rooted := is_absolute t; parts := components t |}.
(** [p / t]. *)
Definition child (p : PurePath) (t : text) : PurePath :=
  if is_absolute t then pure t else {| rooted := rooted p; parts := parts p ++ components t |}.
Definition parent (p : PurePath) : PurePath := {| rooted := rooted p; parts := removelast (parts p) |}.
Lemma parent_child p t c : is_absolute t = false -> components t = [c] -> parent (child p t) = p.
Proof. intros H1 H2. unfold parent, child. rewrite H1, H2. cbn. rewrite removelast_last. by destruct p. Qed.
Definition str_path (p : PurePath) : text :=
  if rooted p then u "/" ++ join (u "/") (parts p) else match parts p with [] => u "." | _ => join (u "/") (parts p) end.

(** [path.suffix], for a name. *)
Fixpoint last_dot (t : text) : option text :=
  match t with
  | [] => None
  | c :: t' => match last_dot t' with Some s => Some s | None => if c =? 46 then Some t else None end
  end.
Definition suffix (p : PurePath) : text :=
  match last (parts p) with
  | Some (c :: name) => match last_dot name with Some s => if (1 <? length s)%nat then s else [] | None => [] end
  | _ => []
  end.

(** ** The disk *)
Inductive Node := File (data : list Z) (mode : Z) | Directory (mode : Z).
Record Disk := { nodes : gmap text Node; links : gmap text text }.

Definition is_symlink (d : Disk) (p : PurePath) : bool := negb (is_none (links d !! str_path p)).
(** The name the operating system ends at. *)
Definition real (d : Disk) (p : text) : text := or_else (links d !! p) p.
Definition node_of (d : Disk) (p : PurePath) : option Node := nodes d !! real d (str_path p).
Definition exists_ (d : Disk) (p : PurePath) : bool := negb (is_none (node_of d p)).
Definition is_file (d : Disk) (p : PurePath) : bool := match node_of d p with Some (File _ _) => true | _ => false end.
Definition is_dir (d : Disk) (p : PurePath) : bool := match node_of d p with Some (Directory _) => true | _ => false end.

Definition put (p : text) (n : Node) (d : Disk) : Disk := {| nodes := <[p := n]> (nodes d); links := links d |}.
Definition drop_node (p : text) (d : Disk) : Disk := {| nodes := base.delete p (nodes d); links := links d |}.

(** ** Exceptions and computations *)
Inductive Exn :=
| Config (f : Failure)                     (* [ConfigParseError], [ConfigShapeError] and what [loads] lets through *)
| ConfigChangedError (msg : text)
| InstallError (msg : text)
| OSError (strerror : text)
| UnicodeError_ (codec : text)             (* its first argument *)
| ValueError_.                             (* [json.loads] on an integer above 4300 digits *)

Definition M (A : Type) : Type := Disk -> result Exn A * Disk.
Definition ret {A} (a : A) : M A := fun d => (Ok a, d).
Definition raise {A} (e : Exn) : M A := fun d => (Raise e, d).
Definition lift {A} (r : result Exn A) : M A := fun d => (r, d).
Definition look {A} (f : Disk -> result Exn A) : M A := fun d => (f d, d).
Definition modify (f : Disk -> Disk) : M unit := fun d => (Ok tt, f d).
Definition bind {A B} (m : M A) (f : A -> M B) : M B :=
  fun d => match m d with (Ok a, d) => f a d | (Raise e, d) => (Raise e, d) end.
Definition catch {A} (m : M A) (handler : Exn -> M A) : M A :=
  fun d => match m d with (Ok a, d) => (Ok a, d) | (Raise e, d) => handler e d end.

Declare Scope install_scope.
Notation "'let*' x := m 'in' k" := (bind m (fun x => k)) (at level 200, x name, m at level 100, k at level 200) : install_scope.
Notation "'let*' ' p := m 'in' k" := (bind m (fun p => k)) (at level 200, p strict pattern, m at level 100, k at level 200) : install_scope.
Notation "m ;; k" := (bind m (fun _ => k)) (at level 100, k at level 200, right associativity) : install_scope.
#[local] Open Scope install_scope.

(** [except BaseException: with suppress(OSError): cleanup; raise]. *)
Definition cleaning {A} (m : M A) (cleanup : M unit) : M A :=
  catch m (fun e => catch cleanup (fun e' => match e' with OSError _ => ret tt | _ => raise e' end) ;; raise e).

(** ** The operating system *)
Inductive Op :=
| Read (p : text) | Mkdir (p : text) | Chmod (p : text) | Temp (dir : text) | Write (p : text) | Fsync (p : text)
| Unlink (p : text) | Replace (from to : text) | Create (p : text).

Record Host := {
  fault : Op -> option text;                                  (* the [strerror] of a call that fails *)
  sha256 : list Z -> text;                                    (* the hexadecimal digest *)
  temporary : Disk -> PurePath -> text -> option text;        (* the name [mkstemp] takes *)
  rival : Disk -> Disk                                        (* what others do while a write is staged *)
}.

(** [mkstemp] opens its file exclusively. *)
Class HostLaws (host : Host) : Prop :=
  temporary_fresh : forall d dir prefix t, temporary host d dir prefix = Some t -> nodes d !! t = None /\ links d !! t = None.

(** A mode as it is written. *)
Definition octal (user group others : Z) : Z := user * 64 + group * 8 + others.

Section Fs.
Context (host : Host).

Definition attempt (op : Op) : M unit := match fault host op with Some reason => raise (OSError reason) | None => ret tt end.

Definition not_found {A} : M A := raise (OSError (u "No such file or directory")).

(** The directories [mkdir(parents=True)] makes. *)
Definition ancestors (p : PurePath) : list PurePath :=
  (fun n => {| rooted := rooted p; parts := take n (parts p) |}) <$> seq 1 (length (parts p)).

Definition DIRECTORY_MODE : Z := (octal 7 7 7).

(** What stands in the way at a name: a file, or a link to nothing. *)
Definition obstacle (d : Disk) (p a : PurePath) : option text :=
  if is_file d a then Some (if bool_decide (a = p) then u "File exists" else u "Not a directory")
  else if is_symlink d a && negb (exists_ d a) then Some (u "File exists") else None.

Definition mkdir (p : PurePath) : M unit :=
  attempt (Mkdir (str_path p)) ;;
  look (fun d => match omap (obstacle d p) (ancestors p) with reason :: _ => Raise (OSError reason) | [] => Ok tt end) ;;
  modify (fun d => fold_left (fun d a => if exists_ d a then d else put (str_path a) (Directory DIRECTORY_MODE) d) (ancestors p) d).

Definition with_mode (mode : Z) (n : Node) : Node := match n with File data _ => File data mode | Directory _ => Directory mode end.

Definition chmod_at (p : text) (mode : Z) : M unit :=
  attempt (Chmod p) ;;
  let* found := look (fun d => Ok (nodes d !! p)) in
  match found with None => not_found | Some n => modify (put p (with_mode mode n)) end.
Definition chmod (p : PurePath) (mode : Z) : M unit := let* q := look (fun d => Ok (real d (str_path p))) in chmod_at q mode.

Definition unlink (p : text) : M unit :=
  attempt (Unlink p) ;;
  let* found := look (fun d => Ok (nodes d !! p)) in
  match found with None => not_found | Some _ => modify (drop_node p) end.

(** [os.replace]: the node goes over what is at the name, a link included. *)
Definition replace_file (from to : text) : M unit :=
  attempt (Replace from to) ;;
  let* found := look (fun d => Ok (nodes d !! from)) in
  match found with
  | None => not_found
  | Some n =>
    let* there := look (fun d => Ok (match links d !! to with Some _ => None | None => nodes d !! to end)) in
    match there with
    | Some (Directory _) => raise (OSError (u "Is a directory"))
    | _ => modify (fun d => {| nodes := <[to := n]> (base.delete from (nodes d)); links := base.delete to (links d) |})
    end
  end.

(** ** [install/fs.py] *)
Definition utf8 (t : text) : result Exn (list Z) := if forallb is_scalar t then Ok (encode t) else Raise (UnicodeError_ (u "utf-8")).

Definition entry_hash (entry : dict value) : result Exn text :=
  let? data := utf8 (canonical_hash_payload entry) in Ok (sha256 host data).

Definition ensure_private_dir (p : PurePath) : M unit := mkdir p ;; chmod p (octal 7 0 0).

Definition node_mode (n : Node) : Z := match n with File _ mode => mode | Directory mode => mode end.
Definition file_mode (d : Disk) (p : PurePath) : option Z := node_mode <$> node_of d p.
Definition mode_is_loose (mode : Z) : bool := negb (Z.land mode (octal 0 7 7) =? 0).

(** The bytes at a name, if something is there. *)
Definition bytes_at (p : text) (d : Disk) : result Exn (option (list Z)) :=
  match nodes d !! p with
  | None => Ok None
  | Some (Directory _) => Raise (OSError (u "Is a directory"))
  | Some (File data _) => match fault host (Read p) with Some reason => Raise (OSError reason) | None => Ok (Some data) end
  end.
Definition read_bytes (p : PurePath) (d : Disk) : result Exn (option (list Z)) := bytes_at (real d (str_path p)) d.

Definition write_temporary (dir : PurePath) (prefix : text) (data : list Z) (mode : Z) : M text :=
  attempt (Temp (str_path dir)) ;;
  let* name := look (fun d => Ok (if is_dir d dir then temporary host d dir prefix else None)) in
  match name with
  | None => not_found
  | Some t =>
    modify (put t (File [] (octal 6 0 0))) ;;
    cleaning (attempt (Write t) ;; modify (put t (File data (octal 6 0 0))) ;; attempt (Fsync t) ;; chmod_at t mode ;; ret t) (unlink t)
  end.

Definition changed {A} (p : PurePath) : M A := raise (ConfigChangedError (str_path p ++ u ": changed during install, re-run")).

Definition unchanged (p : PurePath) (q : text) (expected : option (list Z)) : M unit :=
  let* current := look (bytes_at q) in if bool_decide (current = expected) then ret tt else changed p.

Definition atomic_write (p : PurePath) (t : text) (mode : Z) (expected : option (list Z)) : M unit :=
  let* q := look (fun d => Ok (real d (str_path p))) in
  let target := pure q in
  mkdir (parent target) ;;
  unchanged p q expected ;;
  let* data := lift (utf8 t) in
  let* staged := write_temporary (parent target) (u ".jev-install-") data mode in
  cleaning (modify (rival host) ;; unchanged p q expected ;; replace_file staged q) (unlink staged) ;;
  chmod_at q mode.

(** [suffix or ".txt"]. *)
Definition or_txt (suffix : text) : text := match suffix with [] => u ".txt" | _ => suffix end.

Definition write_backup (state_dir : PurePath) (stamp target suffix : text) (data : list Z) : M PurePath :=
  ensure_private_dir state_dir ;;
  let backups := child state_dir (u "backups") in
  ensure_private_dir backups ;;
  let directory := child backups stamp in
  ensure_private_dir directory ;;
  let destination := child directory (target ++ or_txt suffix) in
  let* q := look (fun d => Ok (real d (str_path destination))) in
  attempt (Create q) ;;
  let* found := look (fun d => Ok (nodes d !! q)) in
  match found with
  | Some (Directory _) => raise (OSError (u "Is a directory"))
  | _ =>
    let mode := match found with Some n => node_mode n | None => (octal 6 0 0) end in
    modify (put q (File [] mode)) ;; attempt (Write q) ;; modify (put q (File data mode)) ;; attempt (Fsync q) ;;
    chmod destination (octal 6 0 0) ;; ret destination
  end.

(** *** The state file *)
Definition no_targets : value := VDict [(u "targets", VDict [])].
Definition strict (data : list Z) : result Exn text := match decode data with Some t => Ok t | None => Raise (UnicodeError_ (u "utf-8")) end.

Definition load_state (p : PurePath) (d : Disk) : result Exn value :=
  if negb (is_file d p) then Ok no_targets
  else
    match read_bytes p d with
    | Raise (OSError _) => Ok no_targets
    | Raise e => Raise e
    | Ok data =>
      let? t := strict (or_else data []) in
      match json_loads t with
      | Raise (JSONDecodeError _) => Ok no_targets
      | Raise _ => Raise ValueError_
      | Ok parsed =>
        match parsed with
        | VDict state => match dget (u "targets") state with Some (VDict _) => Ok parsed | _ => Ok no_targets end
        | _ => Ok no_targets
        end
      end
    end.

Definition state_hash (state : value) (target : text) : option text :=
  match get (u "targets") (match state with VDict d => d | _ => [] end) with
  | VDict targets =>
    match dget target targets with
    | Some (VDict record) => match dget (u "entry_sha256") record with Some (VStr t) => Some t | _ => None end
    | _ => None
    end
  | _ => None
  end.

(** [json.dumps(state, indent=2, sort_keys=True)]. *)
Fixpoint dumps_ascii (nl : text) (v : value) : text :=
  match v with
  | VStr t => ascii_string t
  | VList (_ as l) =>
    match l with
    | [] => u "[]"
    | _ => u "[" ++ (nl ++ u "  ") ++ join (u "," ++ nl ++ u "  ") (List.map (dumps_ascii (nl ++ u "  ")) l) ++ nl ++ u "]"
    end
  | VDict d =>
    match d with
    | [] => u "{}"
    | _ => u "{" ++ (nl ++ u "  ") ++ join (u "," ++ nl ++ u "  ")
             (List.map (fun kv => ascii_string kv.1 ++ u ": " ++ dumps_ascii (nl ++ u "  ") kv.2) d) ++ nl ++ u "}"
    end
  | _ => dumps_default v
  end.

Definition write_state (p : PurePath) (state : value) : M unit :=
  ensure_private_dir (parent p) ;;
  let* data := lift (utf8 (dumps_ascii [10] (sort_keys state) ++ [10])) in
  let* staged := write_temporary (parent p) (u ".jev-state-") data (octal 6 0 0) in
  cleaning (replace_file staged (str_path p)) (unlink staged) ;;
  chmod p (octal 6 0 0).
End Fs.

(** ** Samples *)
(** A system on which nothing fails, whose temporary files are named [x]. *)
Definition sample_host : Host :=
  {| fault := fun _ => None; sha256 := fun data => data;
     temporary := fun d dir prefix =>
       let t := str_path (child dir (prefix ++ u "x")) in if is_none (nodes d !! t) && is_none (links d !! t) then Some t else None;
     rival := fun d => d |}.
#[export] Instance sample_host_laws : HostLaws sample_host.
Proof.
  intros d dir prefix t. cbn. destruct (nodes d !! _) eqn:E1; [done|]. destruct (links d !! _) eqn:E2; [done|]. by intros [= <-].
Qed.

(** * What the installer leaves alone

    A computation [keeps] to a relation between disks when that is all it does, whatever happens.  The
    calls of InstallFs.v keep to any relation with their [Footprint]: to leaving a file they are not told
    to write ([frame]), and to making no links ([fewer_links]). *)

#[local] Open Scope install_scope.

(** ** Inversions of computations that succeed *)
Lemma bind_ok {A B} (m : M A) (f : A -> M B) d b d' : bind m f d = (Ok b, d') -> exists a d1, m d = (Ok a, d1) /\ f a d1 = (Ok b, d').
Proof. unfold bind. destruct (m d) as [[a|e] d1]; [|done]. intros H. by exists a, d1. Qed.
Lemma look_ok {A} (f : Disk -> result Exn A) d a d' : look f d = (Ok a, d') -> f d = Ok a /\ d' = d.
Proof. by intros [= -> ->]. Qed.
Lemma lift_ok {A} (r : result Exn A) d a d' : lift r d = (Ok a, d') -> r = Ok a /\ d' = d.
Proof. by intros [= -> ->]. Qed.
Lemma modify_ok f d u d' : modify f d = (Ok u, d') -> d' = f d.
Proof. by intros [= _ <-]. Qed.
Lemma ret_ok {A} (a b : A) d d' : ret a d = (Ok b, d') -> b = a /\ d' = d.
Proof. by intros [= <- <-]. Qed.
Lemma attempt_ok host op d u d' : attempt host op d = (Ok u, d') -> d' = d.
Proof. unfold attempt. destruct (fault host op); [done|]. by intros [= _ <-]. Qed.
Lemma cleaning_ok {A} (m : M A) c d a d' : cleaning m c d = (Ok a, d') -> m d = (Ok a, d').
Proof.
  unfold cleaning, catch. destruct (m d) as [[a'|e] d1]; [done|]. unfold bind. destruct (c d1) as [[|e'] d2]; [done|].
  by destruct e'.
Qed.

(** ** What stays *)
(** The file at a name is as it was, and no link was made. *)
Definition frame (x : text) (d d' : Disk) : Prop :=
  (forall data mode, nodes d !! x = Some (File data mode) -> nodes d' !! x = Some (File data mode)) /\
  (forall p q, links d' !! p = Some q -> links d !! p = Some q).

#[export] Instance frame_preorder x : PreOrder (frame x).
Proof.
  split; [by split|]. intros d1 d2 d3 [A1 A2] [B1 B2]. split; [intros data mode H; by apply B1, A1|intros p q H; by apply A2, B2].
Qed.

(** A path that names another file. *)
Definition away (x : text) (d : Disk) (p : PurePath) : Prop := str_path p <> x /\ real d (str_path p) <> x.

Lemma away_frame x d d' p : frame x d d' -> away x d p -> away x d' p.
Proof.
  intros [_ Hl] [H1 H2]. split; [done|]. unfold real in *. destruct (links d' !! str_path p) as [q|] eqn:E; [|done].
  apply Hl in E. by rewrite E in H2.
Qed.

(** ** Computations within a relation

    [R] is what a computation may do to a disk, from disks that are [good]. *)
Class Stable (R : Disk -> Disk -> Prop) (good : Disk -> Prop) : Prop := {
  #[global] stable_preorder :: PreOrder R;
  stable : forall d d', good d -> R d d' -> good d'
}.

Section Keeps.
Context (host : Host) {R : Disk -> Disk -> Prop} {good : Disk -> Prop} `{!Stable R good}.

(** The computation stays within the relation, and its result, if it has one, is in [Q]. *)
Definition keeps {A} (m : M A) (Q : A -> Prop) : Prop :=
  forall d, good d -> R d (m d).2 /\ (forall a, (m d).1 = Ok a -> Q a).

Lemma keeps_weaken {A} (m : M A) (Q Q' : A -> Prop) : keeps m Q -> (forall a, Q a -> Q' a) -> keeps m Q'.
Proof. intros H HQ d Hd. destruct (H d Hd) as [H1 H2]. split; [done|]. intros a Ha. by apply HQ, H2. Qed.
Lemma keeps_ret {A} (a : A) (Q : A -> Prop) : Q a -> keeps (ret a) Q.
Proof. intros Ha d _. split; [done|]. by intros b [= <-]. Qed.
Lemma keeps_raise {A} e (Q : A -> Prop) : keeps (raise e) Q.
Proof. intros d _. by split. Qed.
Lemma keeps_lift {A} (r : result Exn A) : keeps (lift r) (fun a => r = Ok a).
Proof. intros d _. by split. Qed.
Lemma keeps_look {A} (f : Disk -> result Exn A) (Q : A -> Prop) : (forall d a, good d -> f d = Ok a -> Q a) -> keeps (look f) Q.
Proof. intros H d Hd. split; [done|]. cbn. eauto. Qed.
Lemma keeps_modify f : (forall d, good d -> R d (f d)) -> keeps (modify f) (fun _ => True).
Proof. intros H d Hd. split; [by apply H|done]. Qed.
Lemma keeps_bind {A B} (m : M A) (f : A -> M B) Q Q' : keeps m Q -> (forall a, Q a -> keeps (f a) Q') -> keeps (bind m f) Q'.
Proof.
  intros Hm Hf d Hd. unfold bind. destruct (Hm d Hd) as [H1 H2]. destruct (m d) as [[a|e] d1]; cbn in *; [|by split].
  destruct (Hf a (H2 a eq_refl) d1 (stable _ _ Hd H1)) as [H3 H4]. split; [by transitivity d1|done].
Qed.
Lemma keeps_then {A B} (m : M A) (k : M B) Q Q' : keeps m Q -> keeps k Q' -> keeps (bind m (fun _ => k)) Q'.
Proof. intros Hm Hk. eapply keeps_bind; [exact Hm|]. by intros. Qed.
Lemma keeps_catch {A} (m : M A) h Q : keeps m Q -> (forall e, keeps (h e) Q) -> keeps (catch m h) Q.
Proof.
  intros Hm Hh d Hd. unfold catch. destruct (Hm d Hd) as [H1 H2]. destruct (m d) as [[a|e] d1]; cbn in *; [by split|].
  destruct (Hh e d1 (stable _ _ Hd H1)) as [H3 H4]. split; [by transitivity d1|done].
Qed.
Lemma keeps_cleaning {A} (m : M A) c Q : keeps m Q -> keeps c (fun _ => True) -> keeps (cleaning m c) Q.
Proof.
  intros Hm Hc. apply keeps_catch; [done|]. intros e. eapply keeps_then; [|apply keeps_raise].
  apply (keeps_catch _ _ (fun _ => True)); [done|]. intros []; first [apply keeps_raise|by apply keeps_ret].
Qed.

Lemma keeps_assume {A} (P : Prop) (m : M A) Q : (forall d, good d -> P) -> (P -> keeps m Q) -> keeps m Q.
Proof. intros HP Hm d Hd. by apply Hm; [eapply HP|]. Qed.

(** Steps of a computation: what is done for its effect is left to the hints, what is read is any value. *)
Create HintDb keeps.
#[local] Hint Resolve keeps_raise : keeps.
Local Ltac keep := lazymatch goal with
  | |- keeps (@bind unit _ (look _) _) _ => eapply keeps_then; [by apply (keeps_look _ (fun _ => True))|]
  | |- keeps (@bind unit _ _ _) _ => eapply keeps_then; [solve [eauto with keeps]|]
  | |- keeps (bind (lift _) _) _ => eapply keeps_bind; [apply keeps_lift|]; intros ? _
  | |- keeps (bind (look _) _) _ => eapply keeps_bind; [by apply (keeps_look _ (fun _ => True))|]; intros ? _
  | |- keeps (ret _) _ => by apply keeps_ret
  | |- _ => solve [eauto with keeps]
  end.

(** *** The calls

    What a relation allows: a node under an allowed name is written, dropped or moved, a missing directory
    is made, and the names of [own] and of temporary files are allowed. *)
Record Footprint (allowed : text -> Prop) (own : list PurePath) : Prop := {
  allows_put p n d : allowed p -> R d (put p n d);
  allows_drop p d : allowed p -> R d (drop_node p d);
  allows_replace from to n d : allowed from -> allowed to ->
    R d {| nodes := <[to := n]> (base.delete from (nodes d)); links := base.delete to (links d) |};
  allows_directory a d : good d -> exists_ d a = false -> R d (put (str_path a) (Directory DIRECTORY_MODE) d);
  allows_own p d : good d -> p ∈ own -> allowed (str_path p) /\ allowed (real d (str_path p));
  allows_temporary d dir prefix t : good d -> temporary host d dir prefix = Some t -> allowed t
}.
Context (allowed : text -> Prop) (own : list PurePath) (Hfoot : Footprint allowed own).

Lemma keeps_put p n : allowed p -> keeps (modify (put p n)) (fun _ => True).
Proof. intros H. apply keeps_modify. intros d _. by apply (allows_put _ _ Hfoot). Qed.
Lemma keeps_drop p : allowed p -> keeps (modify (drop_node p)) (fun _ => True).
Proof. intros H. apply keeps_modify. intros d _. by apply (allows_drop _ _ Hfoot). Qed.
Lemma keeps_attempt op : keeps (attempt host op) (fun _ => True).
Proof. unfold attempt. destruct (fault host op); [apply keeps_raise|by apply keeps_ret]. Qed.
#[local] Hint Resolve keeps_put keeps_drop keeps_attempt : keeps.

Lemma keeps_mkdir p : keeps (mkdir host p) (fun _ => True).
Proof.
  unfold mkdir. do 2 keep. apply keeps_modify. intros d Hd. revert d Hd. induction (ancestors p) as [|a l IH]; intros d Hd; [done|].
  cbn [fold_left]. destruct (exists_ d a) eqn:E; [by apply IH|].
  pose proof (allows_directory _ _ Hfoot a d Hd E) as Hf. etransitivity; [exact Hf|]. apply IH. by eapply stable.
Qed.

Lemma keeps_chmod_at p mode : allowed p -> keeps (chmod_at host p mode) (fun _ => True).
Proof. intros Hp. unfold chmod_at. do 2 keep. case_match; keep. Qed.
#[local] Hint Resolve keeps_mkdir keeps_chmod_at : keeps.

Lemma keeps_real p : p ∈ own -> keeps (look (fun d => Ok (real d (str_path p)))) allowed.
Proof. intros Hp. apply keeps_look. intros d q Hd [= <-]. by apply (allows_own _ _ Hfoot). Qed.

Lemma keeps_chmod p mode : p ∈ own -> keeps (chmod host p mode) (fun _ => True).
Proof. intros Hp. eapply keeps_bind; [by apply keeps_real|]. intros q Hq. keep. Qed.

Lemma keeps_unlink p : allowed p -> keeps (unlink host p) (fun _ => True).
Proof. intros Hp. unfold unlink. do 2 keep. case_match; keep. Qed.

Lemma keeps_replace from to : allowed from -> allowed to -> keeps (replace_file host from to) (fun _ => True).
Proof.
  intros Hf Ht. unfold replace_file. do 2 keep. case_match; [|keep]. keep.
  assert (keeps (modify (fun d => {| nodes := <[to := n]> (base.delete from (nodes d)); links := base.delete to (links d) |})) (fun _ => True)) as Hm.
  { apply keeps_modify. intros d _. by apply (allows_replace _ _ Hfoot). }
  repeat case_match; first [exact Hm|keep].
Qed.
#[local] Hint Resolve keeps_chmod keeps_unlink keeps_replace : keeps.

Lemma keeps_private p : p ∈ own -> keeps (ensure_private_dir host p) (fun _ => True).
Proof. intros Hp. unfold ensure_private_dir. keep. keep. Qed.

Lemma keeps_write_temporary dir prefix data mode : keeps (write_temporary host dir prefix data mode) allowed.
Proof.
  unfold write_temporary. keep. eapply keeps_bind with (Q := fun name => forall t, name = Some t -> allowed t).
  { apply keeps_look. intros d name Hd [= <-] t Ht. destruct (is_dir d dir); [|done]. by eapply (allows_temporary _ _ Hfoot). }
  intros [t|] Ht; [|keep]. specialize (Ht t eq_refl). keep. apply keeps_cleaning; [|keep]. do 4 keep. by apply keeps_ret.
Qed.
#[local] Hint Resolve keeps_private keeps_write_temporary : keeps.

Lemma keeps_unchanged p q expected : keeps (unchanged host p q expected) (fun _ => True).
Proof. unfold unchanged. keep. case_bool_decide; keep. Qed.
#[local] Hint Resolve keeps_unchanged : keeps.

(** Others keep to the relation, too. *)
Lemma keeps_atomic_write p t mode expected : (forall d, good d -> R d (rival host d)) -> p ∈ own -> keeps (atomic_write host p t mode expected) (fun _ => True).
Proof.
  intros Hrival Hp. unfold atomic_write. pose proof (keeps_modify _ Hrival) as Hr. eapply keeps_bind; [by apply keeps_real|]. intros q Hq. cbn beta. do 3 keep.
  eapply keeps_bind; [apply keeps_write_temporary|]. intros staged Hs. eapply keeps_then; [|keep].
  apply (keeps_cleaning _ _ (fun _ => True)); [|keep]. do 2 keep. keep.
Qed.

Lemma keeps_write_backup dir stamp target suffix data :
  let backups := child dir (u "backups") in let directory := child backups stamp in
  let destination := child directory (target ++ or_txt suffix) in
  dir ∈ own -> backups ∈ own -> directory ∈ own -> destination ∈ own ->
  keeps (write_backup host dir stamp target suffix data) (fun _ => True).
Proof.
  intros backups directory destination H1 H2 H3 H4. unfold write_backup. fold backups directory destination. do 3 keep.
  eapply keeps_bind; [by apply keeps_real|]. intros q Hq. do 2 keep. repeat case_match; repeat keep.
Qed.

Lemma keeps_write_state p state : p ∈ own -> parent p ∈ own -> keeps (write_state host p state) (fun _ => True).
Proof.
  intros Hp Hd. unfold write_state. do 2 keep. apply (keeps_assume (allowed (str_path p))).
  { intros d Hg. by destruct (allows_own _ _ Hfoot p d Hg Hp). }
  intros Hx. eapply keeps_bind; [apply keeps_write_temporary|]. intros staged Hs. eapply keeps_then; [|keep].
  apply (keeps_cleaning _ _ (fun _ => True)); keep.
Qed.
End Keeps.

(** ** One file that stays *)
Section File.
Context (host : Host) `{!HostLaws host} (x : text) (own : list PurePath).

(** The file is there and none of the names in [own]. *)
Definition good (d : Disk) : Prop :=
  (exists data mode, nodes d !! x = Some (File data mode)) /\ links d !! x = None /\ Forall (away x d) own.

Lemma good_frame d d' : good d -> frame x d d' -> good d'.
Proof.
  intros ((data & mode & H) & Hl & Ho) Hf. split; [exists data, mode; by apply (proj1 Hf)|]. split.
  - destruct (links d' !! x) as [q|] eqn:E; [|done]. apply (proj2 Hf) in E. congruence.
  - eapply Forall_impl; [exact Ho|]. intros p. by apply away_frame.
Qed.

#[export] Instance frame_stable : Stable (frame x) good.
Proof. split; [apply _|apply good_frame]. Qed.

Lemma frame_put p n d : p <> x -> frame x d (put p n d).
Proof. intros H. split; [|done]. intros data mode Hx. cbn. by rewrite lookup_insert_ne. Qed.

Lemma frame_footprint : Footprint (R := frame x) (good := good) host (fun t => t <> x) own.
Proof.
  split.
  - intros p n d. apply frame_put.
  - intros p d Hp. split; [|done]. intros data mode Hx. cbn. by rewrite lookup_delete_ne.
  - intros from to n d Hf Ht. split; cbn.
    + intros data mode Hx. by rewrite lookup_insert_ne, lookup_delete_ne.
    + intros p q Hq. by apply lookup_delete_Some in Hq as [_ ?].
  - intros a d ((data & mode & Hx) & Hl & _) E. apply frame_put. intros Ea. unfold exists_, node_of, real in E. rewrite Ea, Hl in E.
    cbn in E. by rewrite Hx in E.
  - intros p d (_ & _ & Ho) Hp. rewrite Forall_forall in Ho. apply (Ho p Hp).
  - intros d dir prefix t ((data & mode & Hx) & _) [Hn _]%temporary_fresh. congruence.
Qed.
End File.

(** ** No new links *)
Definition fewer_links (d d' : Disk) : Prop := forall p q, links d' !! p = Some q -> links d !! p = Some q.
#[export] Instance fewer_links_preorder : PreOrder fewer_links.
Proof. split; [by intros d p q|]. intros d1 d2 d3 A B p q H. by apply A, B. Qed.

#[export] Instance links_stable : Stable fewer_links (fun _ => True).
Proof. split; [apply _|done]. Qed.

Lemma links_footprint host own : Footprint (R := fewer_links) (good := fun _ => True) host (fun _ => True) own.
Proof.
  split; [by intros p n d _ q r|by intros p d _ q r| |by intros a d _ _ q r|by split|done].
  intros from to n d _ _ p q Hq. cbn in Hq. by apply lookup_delete_Some in Hq as [_ ?].
Qed.
