(* ===== verification/Layout.v ===== *)
(** * Where the installer's targets keep their configurations, and what an entry launches

    Models [install/layout.py] (every path the installer may read or write, and the probes for the Pi
    adapter and the desktop apps) and [install/launch.py] (the launch of [uvx], the entries and their
    checks).  [plistlib], [tomllib], the order of a directory's listing, the metadata of the installed
    distribution and the process that prints the version of [uvx] are parameters. *)
From S2P Require Import Prelude Json PyStrings Responses JsonText JsonEdit InstallRedact Utf8 InstallFs.
Open Scope Z_scope.

#[local] Open Scope install_scope.

Definition PYTHINKER_DESKTOP_ID : text := u "com.pythinker.desktop".
Definition PI_ADAPTER_HINT : text := u "pi install npm:pi-mcp-adapter".

Record Layout := {
  home : PurePath;
  claude_config_dir : option PurePath;
  codex_home : option PurePath;
  xdg_config_home : PurePath;
  pi_agent_dir : option PurePath;
  omp_profile : option text;
  pythinker_home : option PurePath;
  xdg_state_home : PurePath;
  applications : PurePath;
  application_support : PurePath
}.

Declare Scope path_scope.
Notation "p / t" := (child p (u t)) (at level 40, left associativity) : path_scope.
#[local] Open Scope path_scope.

Definition claude_code_file (l : Layout) : PurePath :=
  match claude_config_dir l with Some dir => dir / ".claude.json" | None => home l / ".claude.json" end.
Definition claude_code_dir (l : Layout) : PurePath := or_else (claude_config_dir l) (home l / ".claude").
Definition claude_desktop_file (l : Layout) : PurePath := application_support l / "Claude" / "claude_desktop_config.json".
Definition codex_dir (l : Layout) : PurePath := or_else (codex_home l) (home l / ".codex").
Definition codex_file (l : Layout) : PurePath := codex_dir l / "config.toml".
Definition cursor_dir (l : Layout) : PurePath := home l / ".cursor".
Definition cursor_file (l : Layout) : PurePath := cursor_dir l / "mcp.json".
Definition opencode_dir (l : Layout) : PurePath := xdg_config_home l / "opencode".
Definition opencode_file (l : Layout) (d : Disk) : PurePath :=
  let jsonc := opencode_dir l / "opencode.jsonc" in
  if exists_ d jsonc then jsonc else opencode_dir l / "opencode.json".
Definition pi_dir (l : Layout) : PurePath := or_else (pi_agent_dir l) (home l / ".pi" / "agent").
Definition pi_file (l : Layout) : PurePath := pi_dir l / "mcp.json".
Definition pi_settings (l : Layout) : PurePath := pi_dir l / "settings.json".
Definition omp_file (l : Layout) : PurePath :=
  let root := home l / ".omp" in
  match omp_profile l with
  | Some ((_ :: _) as profile) => child (root / "profiles") profile / "agent" / "mcp.json"
  | _ => root / "agent" / "mcp.json"
  end.
Definition pythinker_dir (l : Layout) : PurePath := or_else (pythinker_home l) (home l / ".pythinker-code").
Definition pythinker_file (l : Layout) : PurePath := pythinker_dir l / "mcp.json".
Definition state_dir (l : Layout) : PurePath := xdg_state_home l / "jev-mcp".
Definition state_file (l : Layout) : PurePath := state_dir l / "install.json".

(** [None] is the [KeyError] of a name that is no target. *)
Definition target_path (l : Layout) (d : Disk) (target : text) : option PurePath :=
  dget target
    [(u "claude-code", claude_code_file l); (u "claude-desktop", claude_desktop_file l); (u "codex", codex_file l);
     (u "cursor", cursor_file l); (u "opencode", opencode_file l d); (u "pi", pi_file l); (u "omp", omp_file l);
     (u "pythinker", pythinker_file l)].

Definition optional_path (t : option text) : option PurePath :=
  match t with None | Some [] => None | Some t => Some (pure t) end.
Definition filled (t : option text) : option text := match t with Some [] => None | _ => t end.

Definition layout_from_env (environ : dict text) (home : PurePath) (applications application_support : option PurePath) : Layout :=
  {| home := home;
     claude_config_dir := optional_path (dget (u "CLAUDE_CONFIG_DIR") environ);
     codex_home := optional_path (dget (u "CODEX_HOME") environ);
     xdg_config_home := or_else (optional_path (dget (u "XDG_CONFIG_HOME") environ)) (home / ".config");
     pi_agent_dir := optional_path (dget (u "PI_CODING_AGENT_DIR") environ);
     omp_profile := match filled (dget (u "OMP_PROFILE") environ) with
                    | Some profile => Some profile
                    | None => filled (dget (u "PI_PROFILE") environ)
                    end;
     pythinker_home := optional_path (dget (u "PYTHINKER_CODE_HOME") environ);
     xdg_state_home := or_else (optional_path (dget (u "XDG_STATE_HOME") environ)) (home / ".local" / "state");
     applications := or_else applications (pure (u "/Applications"));
     application_support := or_else application_support (home / "Library" / "Application Support") |}.

Section Probes.
Context {U : Unicode} (host : Host) (plist : list Z -> option value) (names : Disk -> PurePath -> list text).

(** [read_text] on a file that is no UTF-8 raises what nothing here catches. *)
Definition pi_adapter_installed (settings : PurePath) (d : Disk) : result Exn bool :=
  if negb (is_file d settings) then Ok false
  else
    match read_bytes host settings d with
    | Raise (OSError _) => Ok false
    | Raise e => Raise e
    | Ok data =>
      let? t := strict (or_else data []) in
      match json_loads t with
      | Raise (JSONDecodeError _) => Ok false
      | Raise _ => Raise ValueError_
      | Ok parsed =>
        match parsed with
        | VDict fields =>
          match dget (u "packages") fields with
          | Some (VList packages) =>
            Ok (existsb (fun item => match item with VStr t => contains_text (u "pi-mcp-adapter") t | _ => false end) packages)
          | _ => Ok false
          end
        | _ => Ok false
        end
      end
    end.

(** A bundle's property list ([None]: it cannot be read or is none). *)
Definition bundle_id (app : PurePath) (d : Disk) : option value :=
  let path := app / "Contents" / "Info.plist" in
  if negb (is_file d path) then None
  else match read_bytes host path d with Ok (Some data) => plist data | _ => None end.

Definition pythinker_desktop_installed (applications : PurePath) (d : Disk) : bool :=
  is_dir d applications &&
  existsb (fun name =>
    contains_text (u "pythinker") (uni_lower name) && ends_with (u ".app") (uni_lower name) &&
    match bundle_id (child applications name) d with
    | Some (VDict info) => match dget (u "CFBundleIdentifier") info with Some (VStr t) => bool_decide (t = PYTHINKER_DESKTOP_ID) | _ => false end
    | _ => false
    end) (names d applications).

Definition chatgpt_installed (applications : PurePath) (d : Disk) : bool := exists_ d (applications / "ChatGPT.app").
End Probes.

Definition running_on_macos (platform : text) : bool := bool_decide (platform = u "darwin").

(** * What a configuration entry launches

    Models [install/launch.py]: the launch of [uvx], its spec and the check of it, the entry of each
    agent, and the literal key an entry keeps.  The metadata of the installed distribution
    ([importlib.metadata]), the process that prints the version of [uvx], [tomllib] and the names of the
    published tools are parameters. *)

#[local] Open Scope install_scope.

Definition PACKAGE : text := u "jev-judge-mcp".
Definition SERVER_NAME : text := u "jev-mcp".
Definition REFERENCE : text := u "${TYPESAFE_API_KEY}".
Definition OPENCODE_REFERENCE : text := u "{env:TYPESAFE_API_KEY}".
Definition CURSOR_REFERENCE : text := u "${env:TYPESAFE_API_KEY}".
Definition EXTRA : text := u "typesafe".
Definition PI_SKILL_TOOL : text := u "get_jev_mcp_skill_md".
Definition CHECKOUT_MIN_UV : list Z := [0; 10; 10].

(** ** The version of [uvx] *)
(** [re.match(r"uvx (\d+)\.(\d+)\.(\d+)", t)]: the digits of the groups. *)
Definition number_then (mark : text) (t : text) : option (list Z * text) :=
  match strip_prefix mark t with
  | None => None
  | Some t => match Responses.span_digits t with ([], _) => None | found => Some found end
  end.
Definition uvx_version (t : text) : option (list (list Z)) :=
  match number_then (u "uvx ") t with
  | None => None
  | Some (a, t) =>
    match number_then (u ".") t with
    | None => None
    | Some (b, t) => (fun c => [a; b; c.1]) <$> number_then (u ".") t
    end
  end.

(** Python's order of tuples. *)
Fixpoint tuple_ltb (a b : list Z) : bool :=
  match a, b with
  | x :: a, y :: b => (x <? y) || ((x =? y) && tuple_ltb a b)
  | [], _ :: _ => true
  | _, [] => false
  end.

(** [reported] is what the process printed, or the text of its failure; [repr] is Python's. *)
Definition require_checkout_uvx (repr : text -> text) (uvx : text) (reported : result text text) : result Exn unit :=
  match reported with
  | Raise failure => Raise (InstallError (u "could not read the uvx version from " ++ uvx ++ u ": " ++ failure))
  | Ok printed =>
    match uvx_version printed with
    | None => Raise (InstallError (u "unrecognized `uvx --version` output: " ++ repr (strip printed)))
    | Some groups =>
      match rmap int_of_values groups with
      | Raise _ => Raise ValueError_
      | Ok found =>
        if tuple_ltb found CHECKOUT_MIN_UV then
          Raise (InstallError (u "uvx " ++ join (u ".") (str_of_Z <$> found) ++ u " keeps serving its first build of a checkout after edits; "
            ++ u "--from-checkout needs uv 0.10.10 or newer (run `uv self update`)"))
        else Ok tt
      end
    end
  end.

(** ** Launches *)
Record Launch := { uvx : text; spec : text; python : option text }.
Definition args (l : Launch) : list text :=
  match python l with Some request => [u "--python"; request] | None => [] end ++ [u "--from"; spec l; PACKAGE].
Definition invoke (l : Launch) : list text := uvx l :: args l.

(** The metadata of the distribution: [None] is [PackageNotFoundError]. *)
Record Metadata := { dist_version : option text; dist_requires : option (option text); dist_direct_url : option (option text) }.

Definition installed_version (meta : Metadata) : result Exn text :=
  match dist_version meta with
  | Some t => Ok t
  | None => Raise (InstallError (PACKAGE ++ u " is not installed in this environment, so its version cannot be pinned; "
      ++ u "install the package, or use --from-checkout"))
  end.

Definition requires_python (meta : Metadata) : option text :=
  match dist_requires meta with
  | None => None
  | Some raw => match join (u " ") (words (or_else raw [])) with [] => None | t => Some t end
  end.

Definition pypi_launch (meta : Metadata) (uvx : text) : result Exn Launch :=
  let? pinned := installed_version meta in
  Ok {| uvx := uvx; spec := PACKAGE ++ u "[" ++ EXTRA ++ u "]==" ++ pinned; python := requires_python meta |}.

(** [root] is absolute, or [resolve] makes it so. *)
Definition checkout_launch (meta : Metadata) (resolve : PurePath -> PurePath) (uvx : text) (root : PurePath) : Launch :=
  let root := if rooted root then root else resolve root in
  {| uvx := uvx; spec := str_path root ++ u "[" ++ EXTRA ++ u "]"; python := requires_python meta |}.

Definition local_install_warning (meta : Metadata) : result Exn (option text) :=
  match dist_direct_url meta with
  | Some (Some ((_ :: _) as raw)) =>
    match json_loads raw with
    | Raise (JSONDecodeError _) => Ok None
    | Raise _ => Raise ValueError_
    | Ok parsed =>
      match parsed with
      | VDict fields =>
        match dget (u "url") fields with
        | Some (VStr url) =>
          if starts_with (u "file://") url then
            let? pinned := installed_version meta in
            Ok (Some (u "note: this installer runs from a local checkout, so the pinned PyPI build "
              ++ PACKAGE ++ u "[" ++ EXTRA ++ u "]==" ++ pinned ++ u " does not include your local changes; "
              ++ u "pass --from-checkout to install this tree instead"))
          else Ok None
        | _ => Ok None
        end
      | _ => Ok None
      end
    end
  | _ => Ok None
  end.

(** The first of the parents of the installer whose [pyproject.toml] names the package. *)
Fixpoint find_package_root (host : Host) (toml_loads : text -> option (dict value)) (parents : list PurePath) (d : Disk) : result Exn PurePath :=
  match parents with
  | [] => Raise (InstallError (u "could not find a jev-judge-mcp source checkout (a directory whose pyproject.toml names "
      ++ u "jev-judge-mcp); --from-checkout needs one"))
  | dir :: parents =>
    let manifest := child dir (u "pyproject.toml") in
    let unreadable := InstallError (u "could not read " ++ str_path manifest) in
    if negb (is_file d manifest) then find_package_root host toml_loads parents d
    else
      match read_bytes host manifest d with
      | Raise (OSError _) => Raise unreadable
      | Raise e => Raise e
      | Ok data =>
        let? t := strict (or_else data []) in
        match toml_loads t with
        | None => Raise unreadable
        | Some loaded =>
          match match dget (u "project") loaded with Some (VDict project) => dget (u "name") project | _ => None end with
          | Some (VStr name) => if bool_decide (name = PACKAGE) then Ok dir else find_package_root host toml_loads parents d
          | _ => find_package_root host toml_loads parents d
          end
        end
      end
  end.

(** The two shapes of spec: pinned, with no white space or quote in the version, or an absolute checkout. *)
Definition pinned_version (spec : text) : option text :=
  match strip_prefix (PACKAGE ++ u "[" ++ EXTRA ++ u "]==") spec with
  | Some ((_ :: _) as pinned) => if existsb is_space pinned then None else Some pinned
  | _ => None
  end.
Definition checkout_path (spec : text) : option text :=
  let tail := u "[typesafe]" in
  let root := take (length spec - length tail) spec in
  if ends_with tail spec && negb (bool_decide (root = [])) && negb (mem 10 root) then Some root else None.
Definition supported_spec (spec : text) : bool :=
  match pinned_version spec with
  | Some pinned => negb (mem 34 pinned)
  | None => match checkout_path spec with Some root => Paths.is_absolute root | None => false end
  end.

(** ** Entries *)
Definition texts (l : list text) : value := VList (VStr <$> l).
Definition key_env (key : text) : value := VDict [(KEY_NAME, VStr key)].

Definition claude_code_entry (l : Launch) : dict value :=
  [(u "type", VStr (u "stdio")); (u "command", VStr (uvx l)); (u "args", texts (args l)); (u "env", key_env REFERENCE)].
Definition claude_desktop_entry (l : Launch) (key : text) : dict value :=
  [(u "command", VStr (uvx l)); (u "args", texts (args l)); (u "env", key_env key)].
Definition cursor_entry (l : Launch) : dict value :=
  [(u "command", VStr (uvx l)); (u "args", texts (args l)); (u "env", key_env CURSOR_REFERENCE)].
Definition opencode_entry (l : Launch) : dict value :=
  [(u "type", VStr (u "local")); (u "command", texts (invoke l)); (u "environment", key_env OPENCODE_REFERENCE)].
Definition pi_direct_tools (tools : list text) : list text := tools ++ [PI_SKILL_TOOL].
Definition pi_entry (tools : list text) (l : Launch) : dict value :=
  [(u "command", VStr (uvx l)); (u "args", texts (args l)); (u "env", key_env REFERENCE); (u "lifecycle", VStr (u "eager"));
   (u "directTools", texts (pi_direct_tools tools)); (u "toolPrefix", VStr (u "none"))].
Definition omp_entry (l : Launch) : dict value :=
  [(u "type", VStr (u "stdio")); (u "command", VStr (uvx l)); (u "args", texts (args l)); (u "env", key_env REFERENCE)].
Definition pythinker_entry (l : Launch) (key : option text) : dict value :=
  [(u "command", VStr (uvx l)); (u "args", texts (args l))] ++ match key with Some k => [(u "env", key_env k)] | None => [] end.
Definition codex_entry (l : Launch) (key : option text) : dict value :=
  [(u "command", VStr (uvx l)); (u "args", texts (args l)); (u "env_vars", texts [KEY_NAME])]
  ++ match key with Some k => [(u "env", key_env k)] | None => [] end.

Definition env_mapping (v : option value) : dict value := match v with Some (VDict d) => d | _ => [] end.

(** The literal key that is there stays when this run has none to store. *)
Definition stored_literal (current : dict value) : option text :=
  match dget (u "env") current with
  | Some (VDict env) => match dget KEY_NAME env with Some (VStr t) => if is_reference t then None else Some t | _ => None end
  | _ => None
  end.
Definition with_preserved_literal (desired : dict value) (current : option (dict value)) : dict value :=
  match current with
  | None => desired
  | Some current =>
    match stored_literal current with
    | None => desired
    | Some key => dset (u "env") (VDict (dset KEY_NAME (VStr key) (env_mapping (dget (u "env") desired)))) desired
    end
  end.
