(* ===== verification/Documents.v ===== *)
(** * The named server entry of a configuration

    Models [install/documents.py]: where a client's document keeps the entry of a server, reading it,
    and the new text with the entry set or removed.  JSON documents go through the editor of
    JsonEdit.v; TOML ones through [tomllib] and [tomlkit], which are parameters ([Tomlkit]). *)
From S2P Require Import Prelude Float64 Json PyStrings JsonText JsonEdit JsonLocate JsonWrite JsonEditSpec.
Open Scope Z_scope.

(** ** JSON *)
Definition opencode_path (document : value) (name : text) : result Failure (list text) :=
  match document with
  | VDict d =>
    match dget (u "mcp") d with
    | None => Ok [u "mcp"; name]
    | Some (VDict mcp) =>
      match dget (u "servers") mcp with
      | None => Ok [u "mcp"; name]
      | Some (VDict _) => Ok [u "mcp"; u "servers"; name]
      | Some _ => shape_error (u "mcp.servers is not an object")
      end
    | Some _ => shape_error (u "mcp is not an object")
    end
  | _ => shape_error (u "top level is not an object")
  end.

Definition json_entry_path (target : text) (document : value) (name : text) : result Failure (list text) :=
  if bool_decide (target = u "opencode") then opencode_path document name
  else
    match document with
    | VDict d =>
      match dget (u "mcpServers") d with
      | None | Some (VDict _) => Ok [u "mcpServers"; name]
      | Some _ => shape_error (u "mcpServers is not an object")
      end
    | _ => shape_error (u "top level is not an object")
    end.

(** The object the last key of a path is looked up in; [None] where a key on the way is missing. *)
Fixpoint walk_down (current : value) (keys : list text) : result Failure (option value) :=
  match keys with
  | [] => Ok (Some current)
  | key :: keys =>
    match current with
    | VDict d => match dget key d with Some v => walk_down v keys | None => Ok None end
    | _ => shape_error (key ++ u " is not an object")
    end
  end.

Definition read_entry (document : value) (path : list text) : result Failure (option (dict value)) :=
  let? found := walk_down document (removelast path) in
  match found, last path with
  | None, _ => Ok None
  | Some (VDict d), Some key =>
    match dget key d with
    | None => Ok None
    | Some (VDict entry) => Ok (Some entry)
    | Some _ => shape_error (key ++ u " is not an object")
    end
  | Some (VDict _), None => Raise IndexError
  | Some _, _ => shape_error (or_top (join (u ".") (removelast path)) ++ u " is not an object")
  end.

Definition server_map (document : value) (path : list text) : dict value :=
  match walk_down document (removelast path) with
  | Ok (Some (VDict d)) => d
  | _ => []
  end.

(** An empty document of [omp] starts with the map of servers. *)
Definition omp_document : text := json_dumps (Some (u "  ")) (VDict [(u "mcpServers", VDict [])]) ++ [10].

Definition render_json (target t name : text) (entry : dict value) : result Failure text :=
  let t := if bool_decide (target = u "omp") && blank t then omp_document else t in
  let? document := if blank t then Ok (VDict []) else loads t in
  let? path := json_entry_path target document name in
  assign (if blank t then u "{}" ++ [10] else t) path (VDict entry).

Definition remove_json (target t name : text) : result Failure text :=
  let? document := if blank t then Ok (VDict []) else loads t in
  let? path := json_entry_path target document name in
  delete t path.

(** ** TOML *)
(** What [_add_toml] puts in a table. *)
Inductive Toml := TStr (t : text) | TStrings (l : list text) | TTable (fields : dict Toml).

Record Tomlkit := {
  Doc : Type;
  tomllib_loads : text -> option (dict value);       (* [None]: [TOMLDecodeError]; no date or time in [mcp_servers] *)
  toml_parse : text -> option Doc;                   (* [None]: [TOMLKitError] *)
  toml_dumps : Doc -> text;
  toml_in : text -> Doc -> bool;                     (* [key in document] *)
  toml_is_table : Doc -> text -> bool;               (* [isinstance(document[key], Table)] *)
  toml_add_table : Doc -> text -> Doc;               (* [document.add(key, tomlkit.table())] *)
  toml_in_table : text -> Doc -> text -> bool;       (* [name in document[key]] *)
  toml_assign : Doc -> text -> text -> dict Toml -> Doc;   (* [document[key][name] = table] *)
  toml_remove : Doc -> text -> text -> Doc           (* [del document[key][name]] *)
}.

Definition strings_of (l : list value) : option (list text) := mapM (fun v => match v with VStr t => Some t | _ => None end) l.

Fixpoint add_toml (key : text) (v : value) : result Failure Toml :=
  match v with
  | VStr t => Ok (TStr t)
  | VList l => match strings_of l with Some ts => Ok (TStrings ts) | None => shape_error (key ++ u " is not a list of strings") end
  | VDict d =>
    let? fields := (fix go (d : dict value) : result Failure (dict Toml) :=
      match d with
      | [] => Ok []
      | (k, w) :: d => let? t := add_toml k w in let? rest := go d in Ok ((k, t) :: rest)
      end) d in
    Ok (TTable fields)
  | _ => shape_error (key ++ u " is not a TOML value this installer writes")
  end.

Definition entry_table (entry : dict value) : result Failure (dict Toml) :=
  rmap (fun kv => let? t := add_toml kv.1 kv.2 in Ok (kv.1, t)) entry.

Section Codex.
Context (toml : Tomlkit).

Definition MCP_SERVERS : text := u "mcp_servers".

Definition codex_document (t : text) : result Failure (Doc toml) :=
  match toml_parse toml t with Some d => Ok d | None => parse_error "invalid TOML" end.

(** The document with the table in it; [None] where it is missing and not to be made. *)
Definition toml_table (document : Doc toml) (key : text) (create : bool) : result Failure (option (Doc toml)) :=
  if negb (toml_in toml key document) then Ok (if create then Some (toml_add_table toml document key) else None)
  else if toml_is_table toml document key then Ok (Some document)
  else shape_error (key ++ u " is not a table").

Definition servers_table (document : Doc toml) : result Failure (Doc toml) :=
  let? found := toml_table document MCP_SERVERS true in
  match found with Some d => Ok d | None => shape_error (u "mcp_servers is missing") end.

Definition with_newline (t : text) : text := if ends_with [10] t then t else t ++ [10].

Definition render_codex (t name : text) (entry : dict value) : result Failure text :=
  let? document := codex_document t in
  let? document := servers_table document in
  let? table := entry_table entry in
  Ok (with_newline (toml_dumps toml (toml_assign toml document MCP_SERVERS name table))).

Definition remove_codex (t name : text) : result Failure text :=
  let? document := codex_document t in
  let? found := toml_table document MCP_SERVERS false in
  let document :=
    match found with
    | Some d => if toml_in_table toml name d MCP_SERVERS then toml_remove toml d MCP_SERVERS name else d
    | None => document
    end in
  Ok (with_newline (toml_dumps toml document)).

Definition read_codex_entry (t name : text) : result Failure (option (dict value) * dict value) :=
  if blank t then Ok (None, [])
  else
    match tomllib_loads toml t with
    | None => parse_error "invalid TOML"
    | Some loaded =>
      match dget MCP_SERVERS loaded with
      | None => Ok (None, [])
      | Some (VDict servers) =>
        match dget name servers with
        | None => Ok (None, servers)
        | Some (VDict entry) => Ok (Some entry, servers)
        | Some _ => shape_error (name ++ u " is not a table")
        end
      | Some _ => shape_error (u "mcp_servers is not a table")
      end
    end.
End Codex.

(** * Editing an entry of a configuration

    The document [render_json] returns reads as the old one with the entry in its place, and reading the
    entry back gives what was written. *)

(** The document an edit starts from: an empty one of [omp] has its map of servers already. *)
Definition base_text (target t : text) : text :=
  if bool_decide (target = u "omp") && blank t then omp_document else t.
Definition base_value (target t : text) (v : value) : value :=
  if bool_decide (target = u "omp") && blank t then VDict [(u "mcpServers", VDict [])] else v.

Lemma base_reads target t v : reads t v -> reads (base_text target t) (base_value target t v).
Proof.
  unfold base_text, base_value. destruct (_ && _); [|done]. intros _. unfold reads. change (blank omp_document) with false.
  eexists. split; [by vm_compute|]. split; [by vm_compute|]. cbn. repeat split; repeat constructor. set_solver.
Qed.
Lemma base_finite target t v : finite_value v -> finite_value (base_value target t v).
Proof. unfold base_value. by destruct (_ && _). Qed.

Lemma blank_reads t v : blank t = true -> reads t v -> v = VDict [].
Proof. intros Hb. unfold reads. by rewrite Hb. Qed.

(** ** Paths *)
(** Where an entry can be: under the map of servers, or under it in opencode's older form. *)
Lemma entry_path_objects target v name keys : json_entry_path target v name = Ok keys ->
  keys <> [] /\ objects_on keys v = true /\ (code_points name -> Forall code_points keys) /\ last keys = Some name.
Proof.
  assert (forall s, code_points (u s)) as Hu.
  { intros s. apply Forall_fmap, Forall_true. intros c. cbn. lia. }
  unfold json_entry_path, opencode_path. case_bool_decide.
  - destruct v as [| | | | | |d]; try done. destruct (dget (u "mcp") d) as [m|] eqn:E.
    + destruct m as [| | | | | |m]; try done. destruct (dget (u "servers") m) as [s|] eqn:E2.
      * destruct s as [| | | | | |s]; try done. intros [= <-]. cbn [objects_on]. rewrite E, E2. repeat split; try done. intros Hn. by repeat constructor.
      * intros [= <-]. cbn [objects_on]. rewrite E. repeat split; try done. intros Hn. by repeat constructor.
    + intros [= <-]. cbn [objects_on]. rewrite E. repeat split; try done. intros Hn. by repeat constructor.
  - destruct v as [| | | | | |d]; try done. destruct (dget (u "mcpServers") d) as [m|] eqn:E.
    + destruct m as [| | | | | |m]; try done. intros [= <-]. cbn [objects_on]. rewrite E. repeat split; try done. intros Hn. by repeat constructor.
    + intros [= <-]. cbn [objects_on]. rewrite E. repeat split; try done. intros Hn. by repeat constructor.
Qed.

Lemma entry_path_base target t v name keys : reads t v -> json_entry_path target v name = Ok keys -> json_entry_path target (base_value target t v) name = Ok keys.
Proof.
  intros Hr. unfold base_value. case_bool_decide as Ht; [subst target|done]. cbn [andb]. destruct (blank t) eqn:Hb; [|done].
  rewrite (blank_reads t v Hb Hr). done.
Qed.

Lemma entry_path_again target v name keys x : json_entry_path target v name = Ok keys -> name <> u "servers" ->
  json_entry_path target (set_at keys x v) name = Ok keys.
Proof.
  intros H Hn. unfold json_entry_path, opencode_path in *. case_bool_decide.
  - destruct v as [| | | | | |d]; try done. destruct (dget (u "mcp") d) as [m|] eqn:E.
    + destruct m as [| | | | | |m]; try done. destruct (dget (u "servers") m) as [s|] eqn:E2.
      * destruct s as [| | | | | |s]; try done. injection H as <-. cbn [set_at]. rewrite E. cbn [set_at]. rewrite E2. by rewrite !dget_dset_eq.
      * injection H as <-. cbn [set_at]. rewrite E. cbn [set_at]. rewrite dget_dset_eq. rewrite dget_dset_ne by done. by rewrite E2.
    + injection H as <-. cbn [set_at]. rewrite E. rewrite dget_dset_eq. cbn [nest foldr dget]. by rewrite bool_decide_eq_false_2.
  - destruct v as [| | | | | |d]; try done. destruct (dget (u "mcpServers") d) as [m|] eqn:E.
    + destruct m as [| | | | | |m]; try done. injection H as <-. cbn [set_at]. rewrite E. cbn [set_at]. by rewrite dget_dset_eq.
    + injection H as <-. cbn [set_at]. rewrite E. by rewrite dget_dset_eq.
Qed.

(** ** Entries *)
Lemma walk_nest keys k x : exists d, walk_down (nest (keys ++ [k]) x) keys = Ok (Some (VDict d)) /\ dget k d = Some x.
Proof.
  induction keys as [|key keys IH].
  - exists [(k, x)]. split; [done|]. cbn [dget]. by rewrite bool_decide_eq_true_2.
  - destruct IH as (d & IH & Hd). exists d. split; [|done]. cbn [app nest foldr walk_down dget]. rewrite bool_decide_eq_true_2 by done. exact IH.
Qed.

Lemma walk_set keys k x : forall v, objects_on (keys ++ [k]) v = true ->
  exists d, walk_down (set_at (keys ++ [k]) x v) keys = Ok (Some (VDict d)) /\ dget k d = Some x.
Proof.
  induction keys as [|key keys IH]; intros v Ho; cbn [app objects_on] in Ho; destruct v as [| | | | | |d]; try done.
  - cbn [app set_at walk_down]. destruct (dget k d); cbn [set_at nest foldr]; eexists; (split; [done|by rewrite dget_dset_eq]).
  - cbn [app set_at walk_down]. rewrite dget_dset_eq. destruct (dget key d) as [w|]; [|apply walk_nest].
    apply IH. by destruct keys.
Qed.

Lemma read_entry_set keys e v : keys <> [] -> objects_on keys v = true -> read_entry (set_at keys (VDict e) v) keys = Ok (Some e).
Proof.
  intros Hk Ho. destruct (exists_last Hk) as (keys' & k & ->). unfold read_entry. rewrite removelast_last, last_snoc.
  destruct (walk_set keys' k (VDict e) v Ho) as (d & -> & Hd). cbn [rbind]. by rewrite Hd.
Qed.

(** The edit of an entry, where the document reads as a value with a place for it. *)
Lemma render_json_reads target t name e v keys : reads t v -> finite_value v -> writable (VDict e) -> code_points name ->
  json_entry_path target v name = Ok keys ->
  exists t', render_json target t name e = Ok t' /\ reads t' (set_at keys (VDict e) (base_value target t v)).
Proof.
  intros Hr Hf Hw Hn Hp. pose proof (entry_path_base target t v name keys Hr Hp) as Hp'.
  destruct (entry_path_objects _ _ _ _ Hp') as (Hne & Ho & Hc & _).
  pose proof (base_reads target t v Hr) as Hr'. pose proof (base_finite target t v Hf) as Hf'.
  unfold render_json. change (if bool_decide (target = u "omp") && blank t then omp_document else t) with (base_text target t).
  destruct (assign_reads (base_text target t) keys (VDict e) _ Hr' Hf' Hw Hne (Hc Hn) Ho) as (t' & Ha & Hr2).
  exists t'. split; [|done]. destruct (blank (base_text target t)) eqn:Hb.
  - rewrite (blank_reads _ _ Hb Hr') in Hp'. cbn [rbind]. rewrite Hp'. cbn [rbind]. by rewrite <- (assign_blank _ _ _ Hb).
  - rewrite (reads_loads _ _ Hr'). cbn [rbind]. rewrite Hp'. cbn [rbind]. done.
Qed.

(** ** Bytes *)
Lemma mask_bom t m : mask_comments t = Ok m -> head t = Some 0xFEFF -> head m = Some 0xFEFF.
Proof.
  destruct t as [|c t]; [done|]. intros H [= ->]. rewrite mask_char in H by done. by destruct (mask_comments t); [injection H as <-|].
Qed.

(** A document that reads as a value does not begin with a mark of byte order. *)
Lemma reads_no_bom t v : reads t v -> head t <> Some 0xFEFF.
Proof.
  intros Hr Hh. unfold reads in Hr. destruct (blank t) eqn:Hb.
  - apply blank_spec in Hb. destruct t as [|c t]; [done|]. injection Hh as ->. by inversion Hb.
  - destruct Hr as (m & Hm & Hp & _). pose proof (mask_bom t m Hm Hh) as Hhm. unfold json_pairs, decode in Hp. by rewrite bool_decide_eq_true_2 in Hp.
Qed.
