(* ===== verification/Engine.v ===== *)
(** * Planning and applying the installation

    Models [install/engine.py]: detection of the agents, the selection, the plan of each target with
    the classification of the entry that is there, and the application that writes, checks and records.
    A run threads the disk.  The clock, [repr], [difflib], the process that checks a server and the
    user's answers are parameters of the request or of the section. *)
From S2P Require Import Prelude Json PyStrings JsonText JsonEdit Credential FileState InstallRedact Utf8 InstallFs Layout Documents.
Open Scope Z_scope.
#[local] Open Scope install_scope.
#[local] Open Scope path_scope.

Definition TARGETS : list text :=
  [u "claude-code"; u "claude-desktop"; u "codex"; u "cursor"; u "opencode"; u "pi"; u "omp"; u "pythinker"].

(** [_NAME]. *)
Definition name_char (c : Z) : bool := Regex.is_alnum c || mem c (u "._-").
Definition valid_name (t : text) : bool := negb (bool_decide (t = [])) && forallb name_char t.

Definition CHECKS (name : text) : dict text :=
  [(u "claude-code", u "claude mcp get " ++ name);
   (u "claude-desktop", u "restart Claude Desktop and confirm the " ++ name ++ u " server");
   (u "codex", u "codex mcp get " ++ name);
   (u "cursor", u "restart Cursor and confirm the " ++ name ++ u " server");
   (u "opencode", u "opencode mcp list");
   (u "pi", u "in Pi, run /mcp");
   (u "omp", u "in omp, run /mcp test " ++ name);
   (u "pythinker", u "in Pythinker, run /mcp")].

(** A request.  The user and the check run while others may write, so each hands a disk on. *)
Record Request := {
  layout : Layout;
  launch : Launch;
  agents : list text;
  select_all : bool;
  assume_yes : bool;
  dry_run : bool;
  remove : bool;
  force : bool;
  name : text;
  desktop_key : option text;
  secrets : list text;
  platform : text;
  bins : dict bool;
  key_in_environment : bool;
  confirmer : option (text -> Disk -> bool * Disk);
  chooser : option (text -> list text);
  verify : option (list text -> Disk -> result text unit * Disk);
  before_write : option (PurePath -> Disk -> Disk);
  stamp : option text
}.

Record Hit := { hit_target : text; reason : text; gui : bool }.

Inductive Kind := Add | Update | Remove_ | UpToDate | Skip | Fail_.
#[export] Instance Kind_eq_dec : EqDecision Kind.
Proof. solve_decision. Defined.
Definition kind_text (k : Kind) : text :=
  match k with Add => u "add" | Update => u "update" | Remove_ => u "remove" | UpToDate => u "up to date" | Skip => u "skip" | Fail_ => u "fail" end.

Record Action := {
  target : text;
  path : option PurePath;
  kind : Kind;
  message : text;
  overwrite : bool;
  ok : bool;
  before : option (list Z);
  after : option text;
  entry : option (dict value);
  literal : bool;
  diff : text
}.

Definition with_message (msg : text) (a : Action) : Action :=
  {| target := target a; path := path a; kind := kind a; message := msg; overwrite := overwrite a; ok := ok a; before := before a;
     after := after a; entry := entry a; literal := literal a; diff := diff a |}.
Definition with_literal (b : bool) (a : Action) : Action :=
  {| target := target a; path := path a; kind := kind a; message := message a; overwrite := overwrite a; ok := ok a; before := before a;
     after := after a; entry := entry a; literal := b; diff := diff a |}.
Definition not_ok (msg : text) (a : Action) : Action :=
  {| target := target a; path := path a; kind := kind a; message := msg; overwrite := overwrite a; ok := false; before := before a;
     after := after a; entry := entry a; literal := literal a; diff := diff a |}.
Definition failed (msg : text) (a : Action) : Action :=
  {| target := target a; path := path a; kind := Fail_; message := msg; overwrite := overwrite a; ok := false; before := before a;
     after := None; entry := entry a; literal := literal a; diff := diff a |}.

(** An action that writes nothing. *)
Definition settled_action (t : text) (p : option PurePath) (k : Kind) (msg : text) (good : bool) (b : option (list Z)) (e : option (dict value)) : Action :=
  {| target := t; path := p; kind := k; message := msg; overwrite := false; ok := good; before := b; after := None; entry := e;
     literal := false; diff := [] |}.

Definition config {A} (r : result Failure A) : result Exn A := match r with Ok a => Ok a | Raise f => Raise (Config f) end.

(** [list(dict.fromkeys(l))]. *)
Definition from_keys (l : list text) : list text := dkeys (fold_left (fun d k => dset k tt d) l []).

(** [(a + " " + b).strip()]. *)
Definition spaced (a b : text) : text := strip (a ++ u " " ++ b).

Section Engine.
Context {U : Unicode} (host : Host) (toml : Tomlkit) (plist : list Z -> option value) (names : Disk -> PurePath -> list text)
  (tools : list text) (repr : text -> text) (unified_diff : list text -> list text -> text -> list text)
  (now : text) (package_version : option text).

Definition VERSION : text := or_else package_version (u "0.0.0").

(** ** Validation and detection *)
Definition unknown_agent (agent : text) : Exn :=
  InstallError (u "unknown agent " ++ repr agent ++ u "; choose from " ++ join (u ", ") TARGETS).
Definition unknown (names : list text) : list text := List.filter (fun t => negb (mem t TARGETS)) names.

Definition validate (r : Request) : result Exn unit :=
  if negb (valid_name (name r)) then Raise (InstallError (u "server name must be letters, digits, '.', '_' or '-'"))
  else
    match unknown (agents r) with
    | agent :: _ => Raise (unknown_agent agent)
    | [] =>
      if negb (bool_decide (last (args (launch r)) = Some PACKAGE)) then
        Raise (InstallError (u "refusing to write a package name other than jev-judge-mcp"))
      else if negb (supported_spec (spec (launch r))) then
        Raise (InstallError (u "unsupported launch spec; use the version-pinned PyPI spec "
          ++ u "'jev-judge-mcp[typesafe]==<version>' or a checkout spec '<absolute path>[typesafe]'"))
      else Ok tt
    end.

Definition there (d : Disk) (p : PurePath) : list text := if exists_ d p then [str_path p ++ u " exists"] else [].
Definition on_path (r : Request) (bin : string) : list text :=
  if or_else (dget (u bin) (bins r)) false then [u bin ++ u " is on PATH"] else [].
(** A hit where there is a reason, with the note of a desktop app that shares the configuration. *)
Definition hit (t : string) (reasons : list text) (gui : bool) (note : string) : list Hit :=
  match reasons with
  | [] => []
  | _ => [{| hit_target := u t; reason := join (u "; ") reasons ++ (if gui then u note else []); gui := gui |}]
  end.

Definition survey (r : Request) (d : Disk) : result Exn (list Hit * bool) :=
  let l := layout r in
  let adapter := pi_adapter_installed host (pi_settings l) d in
  let? adapter := adapter in
  let claude_code := hit "claude-code" (there d (claude_code_dir l) ++ on_path r "claude") false "" in
  let desktop :=
    if running_on_macos (platform r) then
      match there d (application_support l / "Claude") ++ there d (applications l / "Claude.app") with
      | [] => []
      | reasons => [{| hit_target := u "claude-desktop"; reason := join (u "; ") reasons; gui := true |}]
      end
    else [] in
  let codex := hit "codex" (there d (codex_dir l) ++ on_path r "codex") (chatgpt_installed (applications l) d) "; ChatGPT.app shares this config" in
  let cursor := hit "cursor" (there d (cursor_dir l) ++ on_path r "cursor") false "" in
  let opencode := hit "opencode" (there d (opencode_dir l) ++ on_path r "opencode") false "" in
  let pi :=
    if exists_ d (pi_dir l) && adapter then
      [{| hit_target := u "pi"; reason := str_path (pi_dir l) ++ u " exists and pi-mcp-adapter is installed"; gui := false |}]
    else [] in
  let omp := hit "omp" (there d (home l / ".omp") ++ on_path r "omp") false "" in
  let pythinker := hit "pythinker" (there d (pythinker_dir l) ++ on_path r "pythinker")
    (pythinker_desktop_installed host plist names (applications l) d) "; com.pythinker.desktop shares this config" in
  Ok (claude_code ++ desktop ++ codex ++ cursor ++ opencode ++ pi ++ omp ++ pythinker, exists_ d (pi_dir l) && negb adapter).

(** ** Selection *)
Record Selection := { selected : list text; lines : list text; exit_now : option Z; pi_failed : bool }.

(** What was asked for, before Pi's adapter is looked at: the agents and whether the user chose them. *)
Definition choice (r : Request) (detected : list text) : result Exn (Selection + list text * list text * bool) :=
  match agents r with
  | _ :: _ => Ok (inr (if select_all r then from_keys (detected ++ agents r) else agents r, [], false))
  | [] =>
    match detected with
    | _ :: _ => Ok (inr (detected, [], false))
    | [] =>
      let line := u "No agents detected. Pass --agent for one of: " ++ join (u ", ") TARGETS in
      let stop lines code := Ok (inl {| selected := []; lines := lines; exit_now := Some code; pi_failed := false |}) in
      match chooser r with
      | None => stop [line] 1
      | Some choose =>
        if assume_yes r then stop [line] 1
        else
          match choose line with
          | [] => stop [line; u "installation cancelled"] 0
          | chosen =>
            match unknown chosen with
            | agent :: _ => Raise (unknown_agent agent)
            | [] => Ok (inr (chosen, [line], true))
            end
          end
      end
    end
  end.

Definition adapter_line : text :=
  u "Pi needs the MCP adapter before it can run this server. Install it with `" ++ PI_ADAPTER_HINT
  ++ u "`, then re-run. The Pi config was not changed.".

Definition select (r : Request) (hits : list Hit) (pi_directory_without_adapter : bool) (d : Disk) : result Exn Selection :=
  let? choice := choice r (hit_target <$> hits) in
  match choice with
  | inl stop => Ok stop
  | inr (chosen, said, explicitly) =>
    let automatic := (bool_decide (agents r = []) && negb explicitly) || select_all r in
    let? installed :=
      if mem (u "pi") chosen || (automatic && pi_directory_without_adapter)
      then pi_adapter_installed host (pi_settings (layout r)) d else Ok true in
    if installed then Ok {| selected := chosen; lines := said; exit_now := None; pi_failed := false |}
    else
      let rest := List.filter (fun t => negb (bool_decide (t = u "pi"))) chosen in
      let lines := said ++ [adapter_line] in
      match rest with
      | [] => Ok {| selected := []; lines := lines; exit_now := Some 1; pi_failed := true |}
      | _ => Ok {| selected := rest; lines := lines; exit_now := None; pi_failed := true |}
      end
  end.

(** ** The plan of one target *)
Definition gui_for_unlisted (r : Request) (t : text) (d : Disk) : bool :=
  if bool_decide (t = u "claude-desktop") then true
  else if bool_decide (t = u "codex") then chatgpt_installed (applications (layout r)) d
  else if bool_decide (t = u "pythinker") then pythinker_desktop_installed host plist names (applications (layout r)) d
  else false.

Definition shares_gui (t : text) : bool := mem t [u "codex"; u "pythinker"].

Definition literal_key (t : text) (gui : bool) (key : option text) : option text :=
  if bool_decide (t = u "claude-desktop") || (gui && shares_gui t) then key else None.

Definition desired_entry (t : text) (l : Launch) (key : option text) : result Exn (dict value) :=
  match dget t
    [(u "claude-code", claude_code_entry l); (u "claude-desktop", claude_desktop_entry l (or_else key [])); (u "cursor", cursor_entry l);
     (u "opencode", opencode_entry l); (u "pi", pi_entry tools l); (u "omp", omp_entry l); (u "pythinker", pythinker_entry l key);
     (u "codex", codex_entry l key)] with
  | Some e => Ok e
  | None => Raise (InstallError (u "unknown agent " ++ repr t))
  end.

(** [before.decode("utf-8-sig")]. *)
Definition BOM : list Z := [0xEF; 0xBB; 0xBF].
Definition decode_sig (data : list Z) : result Exn text :=
  strict (if bool_decide (take 3 data = BOM) then drop 3 data else data).

Record Loaded := { current : option (dict value); servers : dict value; loaded_text : text; bytes : option (list Z) }.

Definition load (t : text) (p : PurePath) (name : text) (d : Disk) : result Exn Loaded :=
  let? found := read_bytes host p d in
  match found with
  | None => Ok {| current := None; servers := []; loaded_text := []; bytes := None |}
  | Some data =>
    let? txt := decode_sig data in
    if bool_decide (t = u "codex") then
      let? (entry, servers) := config (read_codex_entry toml txt name) in
      Ok {| current := entry; servers := servers; loaded_text := txt; bytes := found |}
    else
      let? document := config (loads txt) in
      let? keys := config (json_entry_path t document name) in
      let? entry := config (read_entry document keys) in
      Ok {| current := entry; servers := server_map document keys; loaded_text := txt; bytes := found |}
  end.

Definition render_set (t txt name : text) (e : dict value) : result Exn text :=
  config (if bool_decide (t = u "codex") then render_codex toml txt name e else render_json t txt name e).
Definition render_remove (t txt name : text) : result Exn text :=
  config (if bool_decide (t = u "codex") then remove_codex toml txt name else remove_json t txt name).

Definition same (a b : dict value) : bool :=
  bool_decide (dumps_default (InstallRedact.sort_keys (VDict a)) = dumps_default (InstallRedact.sort_keys (VDict b))).

Definition other_servers (servers : dict value) (name : text) : text :=
  let found := (List.filter (fun kv => negb (bool_decide (kv.1 = name)) &&
    (bool_decide (kv.1 = u "evaluate") || contains_text (u "@jkudish/jev-mcp") (dumps_default kv.2))) servers).*1 in
  match found with [] => [] | _ => u " other Jev-related servers found: " ++ join (u ", ") found end.

Definition diff_text (p : PurePath) (before after : text) (secrets : list text) : text :=
  let shown t := splitlines (redact_literals (redact_text t secrets)) in
  join [10] (unified_diff (shown before) (shown after) (str_path p)).

(** A change of the file. *)
Definition write_action (r : Request) (t : text) (p : PurePath) (k : Kind) (msg : text) (over : bool) (before : option (list Z))
    (txt after : text) (e : option (dict value)) : Action :=
  {| target := t; path := Some p; kind := k; message := msg; overwrite := over; ok := true; before := before; after := Some after;
     entry := e; literal := false; diff := diff_text p txt after (secrets r) |}.

(** [recorded is not None and recorded == entry_hash(current)]: the digest is taken only then. *)
Definition owned (recorded : option text) (e : dict value) : result Exn bool :=
  match recorded with
  | None => Ok false
  | Some digest => let? h := entry_hash host e in Ok (bool_decide (digest = h))
  end.

Definition classify (r : Request) (t : text) (p : PurePath) (current : option (dict value)) (desired : dict value)
    (recorded : option text) (txt : text) (before : option (list Z)) : result Exn Action :=
  let keep msg e := Ok (settled_action t (Some p) Skip msg true before e) in
  let set k msg over := let? after := render_set t txt (name r) desired in Ok (write_action r t p k msg over before txt after (Some desired)) in
  if remove r then
    match current with
    | None => keep (u "no entry to remove") None
    | Some e =>
      let? mine := owned recorded e in
      if mine then let? after := render_remove t txt (name r) in Ok (write_action r t p Remove_ [] false before txt after None)
      else keep (u "left foreign entry") None
    end
  else
    match current with
    | None => set Add [] false
    | Some e =>
      if same e desired then Ok (settled_action t (Some p) UpToDate [] true before (Some e))
      else
        let? mine := owned recorded e in
        if mine then set Update [] true
        else if force r then set Update (u "replacing foreign entry") true
        else keep (u "foreign entry (use --force)") (Some e)
    end.

Definition octal_text (mode : Z) : text := [48 + mode / 512 mod 8; 48 + mode / 64 mod 8; 48 + mode / 8 mod 8; 48 + mode mod 8].

Definition mode_warning (p : PurePath) (literal : bool) (d : Disk) : text :=
  if negb literal then []
  else
    match file_mode d p with
    | Some mode =>
      if mode_is_loose mode then
        u "mode " ++ octal_text mode ++ u " is looser than 0600. GUI apps rewrite this file, "
        ++ u "so the installer cannot keep the mode at 0600."
      else []
    | None => []
    end.

Definition holds (e : option (dict value)) : bool := match e with Some e => holds_literal (VDict e) | None => false end.

(** The body of the [try]: the document, what is wanted of it, and the action with its notes. *)
Definition considered (r : Request) (t : text) (p : PurePath) (key : option text) (d : Disk) : result Exn (Action * option (dict value) * text) :=
  let? loaded := load t p (name r) d in
  let note := other_servers (servers loaded) (name r) in
  let? desired := desired_entry t (launch r) key in
  let? state := load_state host (state_file (layout r)) d in
  let recorded := state_hash state t in
  let? desired :=
    match current loaded, key with
    | Some e, None =>
      let? h := entry_hash host e in
      Ok (if bool_decide (recorded = Some h) then with_preserved_literal desired (Some e) else desired)
    | _, _ => Ok desired
    end in
  let? a := classify r t p (current loaded) desired recorded (loaded_text loaded) (bytes loaded) in
  Ok (a, current loaded, note).

Definition without_key_note (t : text) : text :=
  u " " ++ (if bool_decide (t = u "codex") then u "ChatGPT" else u "Pythinker desktop")
  ++ u " was not given the key; re-run with --desktop-key.".

Definition KEY_MISSING : text :=
  u "no TYPESAFE_API_KEY to store; set it in the environment or run in a terminal so it can be prompted".

(** The target's configuration is shared with a desktop app, and the key to store in it. *)
Definition gui_of (r : Request) (hits : list Hit) (d : Disk) (t : text) : bool :=
  match List.find (fun h => bool_decide (hit_target h = t)) hits with Some h => gui h | None => false end || gui_for_unlisted r t d.
Definition key_of (r : Request) (hits : list Hit) (d : Disk) (t : text) : option text := literal_key t (gui_of r hits d t) (desktop_key r).

Definition plan (r : Request) (hits : list Hit) (d : Disk) (t : text) : result Exn Action :=
  if bool_decide (t = u "claude-desktop") && negb (running_on_macos (platform r)) then
    Ok (settled_action t None Fail_ (u "Claude Desktop install is macOS only") false None None)
  else
    match target_path (layout r) d t with
    | None => Raise (Config IndexError)
    | Some p =>
      let stop k msg good := Ok (settled_action t (Some p) k msg good None None) in
      if is_symlink d p && negb (exists_ d p) then stop Fail_ (u "broken symlink; left unchanged") false
      else
        let key := key_of r hits d t in
        if bool_decide (key = Some []) then stop Fail_ KEY_MISSING false
        else if bool_decide (t = u "claude-desktop") && is_none key then stop Skip (u "needs --desktop-key before the key is written") true
        else
          match considered r t p key d with
          | Raise (Config (ConfigParseError msg)) | Raise (Config (ConfigShapeError msg)) | Raise (UnicodeError_ msg) =>
            stop Fail_ (msg ++ u "; left unchanged") false
          | Raise e => Raise e
          | Ok (a, current, note) =>
            let a := with_message (strip (message a ++ note)) a in
            let a := with_literal (holds (entry a) || holds current) a in
            let a :=
              if gui_of r hits d t && is_none key && shares_gui t && negb (bool_decide (kind a = Fail_))
              then with_message (strip (message a ++ without_key_note t)) a else a in
            match mode_warning p (literal a) d with
            | [] => Ok a
            | warning => Ok (with_message (spaced (message a) warning) a)
            end
          end
    end.

(** ** The report *)
Definition describe (r : Request) (hits : list Hit) (actions : list Action) : list text :=
  ((fun h => u "detected " ++ hit_target h ++ u ": " ++ reason h) <$> hits) ++
  ((fun a =>
      target a ++ u ": " ++ kind_text (kind a) ++ match path a with Some p => u " " ++ str_path p | None => [] end
      ++ (if overwrite a then u " overwrites: " ++ name r else [])
      ++ match message a with [] => [] | msg => u " " ++ msg end) <$> actions).

Definition diffs (actions : list Action) : list text := List.filter (fun t => negb (bool_decide (t = []))) (diff <$> actions).

Definition applied_lines (actions : list Action) : list text :=
  omap (fun a =>
    if bool_decide (kind a = Fail_) then Some (target a ++ u ": fail " ++ message a)
    else if negb (ok a) then Some (strip (target a ++ u ": " ++ kind_text (kind a) ++ u " " ++ message a))
    else if contains_text (u "mode ") (message a) then Some (target a ++ u ": " ++ message a)
    else None) actions.

Definition finish (r : Request) (lines : list text) (actions : list Action) (applied : bool) : text :=
  let checks := omap (fun a =>
    if ok a && mem (kind a) [Add; Update; UpToDate] then Some (u "check: " ++ or_else (dget (target a) (CHECKS (name r))) []) else None) actions in
  let lines :=
    if applied && negb (remove r) then
      lines ++ checks ++ (if key_in_environment r then [] else
        [u "TYPESAFE_API_KEY is unset in this environment. Terminal agents start without a key until you export it."])
    else lines in
  redact_text (rstrip (join [10] lines) ++ [10]) (secrets r).

Definition exit_code (actions : list Action) (pi_failed : bool) : Z :=
  if pi_failed || existsb (fun a => negb (ok a)) actions then 1 else 0.

(** ** Application *)
(** The action is to be written. *)
Definition pending (a : Action) : option (PurePath * text) :=
  match after a, path a with Some t, Some p => if ok a then Some (p, t) else None | _, _ => None end.

(** The record of an entry: the file never holds the entry itself. *)
Definition record (r : Request) (p : PurePath) (e : dict value) : result Exn (dict value) :=
  let? h := entry_hash host e in
  Ok [(u "path", VStr (str_path p)); (u "name", VStr (name r)); (u "installer_version", VStr VERSION); (u "entry_sha256", VStr h)].

Definition remove_key {A} (k : text) (d : dict A) : dict A := List.filter (fun kv => negb (bool_decide (kv.1 = k))) d.

Fixpoint planned_targets (r : Request) (actions : list Action) (targets : dict value) : result Exn (dict value) :=
  match actions with
  | [] => Ok targets
  | a :: actions =>
    match pending a with
    | None => planned_targets r actions targets
    | Some (p, _) =>
      if bool_decide (kind a = Remove_) then planned_targets r actions (remove_key (target a) targets)
      else
        match entry a with
        | None => planned_targets r actions targets
        | Some e => let? rec := record r p e in planned_targets r actions (dset (target a) (VDict rec) targets)
        end
    end
  end.

Definition mutable_targets (state : value) : dict value :=
  match get (u "targets") (match state with VDict d => d | _ => [] end) with
  | VDict raw => List.filter (fun kv => match kv.2 with VDict _ => true | _ => false end) raw
  | _ => []
  end.

Definition refuse_secret (payload : value) (secrets : list text) : result Exn unit :=
  let blob := dumps_default payload in
  if existsb (fun s => negb (bool_decide (s = [])) && contains_text s blob) secrets
  then Raise (InstallError (u "refusing to record the API key in the state file")) else Ok tt.

(** A file that receives the literal key loses every bit but the owner's; a new file is 0600. *)
Definition write_mode (p : PurePath) (literal : bool) (d : Disk) : Z :=
  match file_mode d p with
  | None => octal 6 0 0
  | Some existing => if literal then Z.land existing (octal 6 0 0) else existing
  end.

Definition write_one (r : Request) (a : Action) (p : PurePath) (t stamp : text) : M unit :=
  let* found := look (read_bytes host p) in
  (if bool_decide (found = before a) then ret tt else changed p) ;;
  match found with
  | Some data => write_backup host (state_dir (layout r)) stamp (target a) (suffix p) data ;; ret tt
  | None => ret tt
  end ;;
  match before_write r with Some hook => modify (hook p) | None => ret tt end ;;
  let* mode := look (fun d => Ok (write_mode p (literal a) d)) in
  atomic_write host p t mode (before a).

(** The check of a server just written: the action and what is recorded of it. *)
Definition checked (r : Request) (a : Action) : M (Action * option bool) :=
  match verify r with
  | Some check =>
    if mem (kind a) [Add; Update] then
      fun d =>
        match check (invoke (launch r)) d with
        | (Ok _, d) => (Ok (a, Some true), d)
        | (Raise failure, d) => (Ok (not_ok (strip (message a ++ u " verify failed: " ++ failure)) a, Some false), d)
        end
    else ret (a, None)
  | None => ret (a, None)
  end.

(** One action that was written: the warning, the check and the state's targets. *)
Definition written (r : Request) (a : Action) (p : PurePath) (targets : dict value) : M (Action * dict value) :=
  let* rec := lift (if bool_decide (kind a = Remove_) then Ok None
    else match entry a with Some e => let? rec := record r p e in Ok (Some rec) | None => Ok None end) in
  let targets := if bool_decide (kind a = Remove_) then remove_key (target a) targets else targets in
  let* warning := look (fun d => Ok (mode_warning p (holds (entry a) || literal a) d)) in
  let a :=
    if negb (bool_decide (warning = [])) && negb (contains_text warning (message a)) then with_message (spaced (message a) warning) a else a in
  let* '(a, verified) := checked r a in
  ret (a,
    match rec with
    | Some rec => dset (target a) (VDict (rec ++ match verified with Some b => [(u "verified", VBool b)] | None => [] end)) targets
    | None => targets
    end).

(** The actions in order: a failure to write one is noted on it, and the others go on. *)
Fixpoint apply_actions (r : Request) (stamp : text) (actions : list Action) (targets : dict value) (changed : bool)
    : M (list Action * dict value * bool) :=
  match actions with
  | [] => ret ([], targets, changed)
  | a :: actions =>
    match pending a with
    | None =>
      let* '(rest, targets, changed) := apply_actions r stamp actions targets changed in ret (a :: rest, targets, changed)
    | Some (p, t) =>
      let* outcome := catch (write_one r a p t stamp ;; ret None) (fun e =>
        match e with
        | ConfigChangedError msg => ret (Some msg)
        | OSError strerror => ret (Some (u "could not write " ++ str_path p ++ u ": " ++ strerror))
        | _ => raise e
        end) in
      match outcome with
      | Some msg =>
        let* '(rest, targets, changed) := apply_actions r stamp actions targets changed in
        ret (failed msg a :: rest, targets, changed)
      | None =>
        let* '(a, targets) := written r a p targets in
        let* '(rest, targets, changed) := apply_actions r stamp actions targets true in
        ret (a :: rest, targets, changed)
      end
    end
  end.

Definition apply (r : Request) (actions : list Action) : M (list Action) :=
  let* state := look (load_state host (state_file (layout r))) in
  let targets := mutable_targets state in
  let* planned := lift (planned_targets r actions targets) in
  lift (refuse_secret (VDict [(u "targets", VDict planned)]) (secrets r)) ;;
  let stamp := match stamp r with Some ((_ :: _) as t) => t | _ => now end in
  let* '(actions, targets, changed) := apply_actions r stamp actions targets false in
  (if changed : bool then write_state host (state_file (layout r)) (VDict [(u "targets", VDict targets)]) else ret tt) ;;
  ret actions.

(** ** The run *)
Definition PROMPT : text := [10] ++ u "Proceed with installation? [y/N]".

Definition applied (r : Request) (lines : list text) (actions : list Action) (pi_failed : bool) : M (text * Z) :=
  let* actions := apply r actions in
  ret (finish r (lines ++ applied_lines actions) actions true, exit_code actions pi_failed).

Definition run (r : Request) : M (text * Z) :=
  lift (validate r) ;;
  let* '(hits, pi_directory_without_adapter) := look (survey r) in
  let* chosen := look (select r hits pi_directory_without_adapter) in
  let report lines := redact_text (join [10] lines ++ [10]) (secrets r) in
  match exit_now chosen with
  | Some code => ret (report (lines chosen), code)
  | None =>
    let* actions := look (fun d => rmap (plan r hits d) (selected chosen)) in
    let lines := lines chosen ++ describe r hits actions in
    if dry_run r then
      ret (finish r (lines ++ diffs actions ++ [u "dry-run: wrote nothing"]) actions false, exit_code actions (pi_failed chosen))
    else if existsb (fun a => negb (is_none (after a)) && ok a) actions && negb (assume_yes r) then
      match confirmer r with
      | None => ret (report (lines ++ [u "pass -y to install without a prompt"]), 1)
      | Some confirm =>
        let* agreed := (fun d => let (answer, d) := confirm (redact_text (join [10] lines ++ PROMPT) (secrets r)) d in (Ok answer, d)) in
        if agreed : bool then applied r lines actions (pi_failed chosen)
        else ret (report (lines ++ [u "installation cancelled"]), if pi_failed chosen then 1 else 0)
      end
    else applied r lines actions (pi_failed chosen)
  end.
End Engine.

(** ** Samples *)
(** A parser of TOML that reads nothing: the samples have no such configuration. *)
Definition sample_toml : Tomlkit :=
  {| Doc := unit; tomllib_loads := fun _ => None; toml_parse := fun _ => None; toml_dumps := fun _ => []; toml_in := fun _ _ => false;
     toml_is_table := fun _ _ => false; toml_add_table := fun d _ => d; toml_in_table := fun _ _ _ => false;
     toml_assign := fun d _ _ _ => d; toml_remove := fun d _ _ => d |}.

Definition sample_launch : Launch := {| uvx := u "/bin/uvx"; spec := u "jev-judge-mcp[typesafe]==1.0"; python := None |}.
Definition sample_request (agents : list text) (dry yes : bool) : Request :=
  {| layout := layout_from_env [] (pure (u "/h")) None None; launch := sample_launch; agents := agents; select_all := false;
     assume_yes := yes; dry_run := dry; remove := false; force := false; name := u "jev"; desktop_key := None; secrets := [u "sk-1"];
     platform := u "linux"; bins := []; key_in_environment := true; confirmer := None; chooser := None; verify := None;
     before_write := None; stamp := Some (u "S") |}.

(** A home with a configuration of Cursor. *)
Definition sample_disk (servers : text) : Disk :=
  {| nodes := list_to_map
       [(u "/h", Directory (octal 7 0 0)); (u "/h/.cursor", Directory (octal 7 0 0));
        (u "/h/.cursor/mcp.json", File (encode (lines_of [u "{ // mine"; u "  " ++ quoted "mcpServers" ++ u ": " ++ servers; u "}"])) (octal 6 4 4))];
     links := ∅ |}.
Definition no_servers : text := u "{}".
Definition foreign_server : text := u "{" ++ quoted "jev" ++ u ": {" ++ quoted "command" ++ u ": " ++ quoted "mine" ++ u "}}".

Definition sample_run (r : Request) : M (text * Z) :=
  run (U := ascii_unicode) sample_host sample_toml (fun _ => None) (fun _ _ => []) [u "jev_review"] (fun t => t) (fun _ _ _ => []) (u "now") None r.
Definition bytes_of (d : Disk) (p : string) : option (list Z) := match nodes d !! u p with Some (File data _) => Some data | _ => None end.

Example run_adds : let '(result, d) := sample_run (sample_request [u "cursor"] false true) (sample_disk no_servers) in
  result = Ok (lines_of [u "detected cursor: /h/.cursor exists"; u "cursor: add /h/.cursor/mcp.json"; u "check: restart Cursor and confirm the jev server"], 0) /\
  bytes_of d "/h/.cursor/mcp.json" = Some (encode (lines_of
    [u "{ // mine"; u "  " ++ quoted "mcpServers" ++ u ": {"; u "    " ++ quoted "jev" ++ u ": {"; u "      " ++ quoted "command" ++ u ": " ++ quoted "/bin/uvx" ++ u ",";
     u "      " ++ quoted "args" ++ u ": ["; u "        " ++ quoted "--from" ++ u ","; u "        " ++ quoted "jev-judge-mcp[typesafe]==1.0" ++ u ",";
     u "        " ++ quoted "jev-judge-mcp"; u "      ],"; u "      " ++ quoted "env" ++ u ": {"; u "        " ++ quoted "TYPESAFE_API_KEY" ++ u ": " ++ quoted "${env:TYPESAFE_API_KEY}";
     u "      }"; u "    }"; u "  }"; u "}"])) /\
  bytes_of d "/h/.local/state/jev-mcp/backups/S/cursor.json" = bytes_of (sample_disk no_servers) "/h/.cursor/mcp.json".
Proof. vm_compute. done. Qed.

(** An agent named twice is planned twice from the same bytes: the second write finds the first one's
    and the run reports a failure. *)
Example repeated_agent_fails : (sample_run (sample_request [u "cursor"; u "cursor"] false true) (sample_disk no_servers)).1 = Ok (lines_of
  [u "detected cursor: /h/.cursor exists"; u "cursor: add /h/.cursor/mcp.json"; u "cursor: add /h/.cursor/mcp.json";
   u "cursor: fail /h/.cursor/mcp.json: changed during install, re-run"; u "check: restart Cursor and confirm the jev server"], 1).
Proof. vm_compute. reflexivity. Qed.
