(* ===== verification/EnginePlan.v ===== *)
(** * What a plan does to a configuration

    A plan adds or replaces one entry and leaves the rest of the document as it reads; planned again
    over what it wrote, it finds nothing to do.  It writes only where there is no entry, where the state
    file names the entry that is there, or where the user forces it. *)
From S2P Require Import Prelude Float64 Json PyStrings JsonText JsonEdit JsonLocate JsonWrite JsonEditSpec Credential InstallRedact Utf8 InstallFs Layout Documents Engine.
Open Scope Z_scope.

(** ** Bytes *)
Lemma utf8_ok t data : utf8 t = Ok data -> data = encode t /\ Forall (fun c => is_scalar c = true) t.
Proof.
  unfold utf8. destruct (forallb is_scalar t) eqn:E; [|done]. intros [= <-]. split; [done|].
  apply Forall_forall. intros c Hc. rewrite forallb_forall in E. by apply E, list_elem_of_In.
Qed.

Lemma decode_sig_encode t data : utf8 t = Ok data -> head t <> Some 0xFEFF -> decode_sig data = Ok t.
Proof.
  intros [-> Ht]%utf8_ok Hh. unfold decode_sig. case_bool_decide as E.
  - exfalso. apply Hh. pose proof (decode_encode t Ht) as Hd. unfold decode in Hd. apply mapM_Some_1 in Hd.
    rewrite <- (take_drop 3 (encode t)) in Hd. rewrite E in Hd. cbn [BOM app] in Hd. rewrite decoded_cons in Hd. cbn in Hd.
    inversion Hd as [|? c ? t' Hc _]; subst. by injection Hc as <-.
  - unfold strict. by rewrite (decode_encode t Ht).
Qed.

Section Plan.
Context {U : Unicode} (host : Host) (toml : Tomlkit) (plist : list Z -> option value) (names : Disk -> PurePath -> list text)
  (tools : list text) (repr : text -> text) (unified_diff : list text -> list text -> text -> list text).

Abbreviation plan := (plan host toml plist names tools repr unified_diff).
Abbreviation considered := (considered host toml tools repr unified_diff).
Abbreviation classify := (classify host toml unified_diff).
Abbreviation load := (load host toml).
Abbreviation key_of := (key_of host plist names).
Abbreviation desired_entry := (desired_entry tools repr).

(** ** Inversions *)
(** The parts of an action that its notes do not touch. *)
Definition noted (a b : Action) : Prop :=
  target a = target b /\ path a = path b /\ kind a = kind b /\ ok a = ok b /\ before a = before b /\ after a = after b /\ entry a = entry b.

Lemma plan_cases r hits d t a : plan r hits d t = Ok a ->
  (after a = None /\ kind a <> UpToDate) \/
  exists p a0 cur note, target_path (layout r) d t = Some p /\ considered r t p (key_of r hits d t) d = Ok (a0, cur, note) /\ noted a a0 /\
    (t = u "claude-desktop" -> key_of r hits d t <> None).
Proof.
  unfold Engine.plan. destruct (_ && _); [intros [= <-]; by left|].
  destruct (target_path _ _ _) as [p|] eqn:Ep; [|done]. destruct (_ && _); [intros [= <-]; by left|].
  case_bool_decide; [intros [= <-]; by left|]. destruct (_ && is_none _) eqn:Ed; [intros [= <-]; by left|].
  destruct (Engine.considered _ _ _ _ _ _ _ _ _ _) as [[[a0 cur] note]|e] eqn:Ec.
  - intros Ha. right. exists p, a0, cur, note. split; [done|]. split; [done|]. split.
    + destruct (mode_warning _ _ _); injection Ha as <-; destruct (_ && _ && _ && _); by repeat split.
    + intros -> Hk. rewrite bool_decide_eq_true_2 in Ed by done. by rewrite Hk in Ed.
  - destruct e as [[msg|msg| |]| | | | |]; try done; intros [= <-]; by left.
Qed.

Lemma considered_inv r t p key d a cur note : considered r t p key d = Ok (a, cur, note) ->
  exists l desired0 desired state, load t p (name r) d = Ok l /\ cur = current l /\ desired_entry t (launch r) key = Ok desired0 /\
    load_state host (state_file (layout r)) d = Ok state /\
    match current l, key with
    | Some e, None => exists h, entry_hash host e = Ok h /\ desired = (if bool_decide (state_hash state t = Some h) then with_preserved_literal desired0 (Some e) else desired0)
    | _, _ => desired = desired0
    end /\
    classify r t p cur desired (state_hash state t) (loaded_text l) (bytes l) = Ok a.
Proof.
  unfold Engine.considered. destruct (Engine.load _ _ _ _ _ _) as [l|] eqn:El; [|done]. cbn [rbind].
  destruct (Engine.desired_entry _ _ _ _ _) as [desired0|] eqn:Ed; [|done]. cbn [rbind].
  destruct (load_state _ _ _) as [state|] eqn:Es; [|done]. cbn [rbind].
  destruct (match current l with Some e => _ | None => _ end) as [desired|] eqn:Ep; [|done]. cbn [rbind].
  destruct (Engine.classify _ _ _ _ _ _ _ _ _ _ _) as [a'|] eqn:Ec; [|done]. cbn [rbind]. intros [= -> <- _].
  exists l, desired0, desired, state. repeat split; try done. destruct (current l) as [e|]; [|by injection Ep as <-].
  destruct key; [by injection Ep as <-|]. destruct (entry_hash host e) as [h|]; [|done]. cbn [rbind] in Ep. injection Ep as <-. by exists h.
Qed.

(** What a classification writes: the wanted entry where there was none, over one the state file names or
    by force; or nothing in the place of one the state file names. *)
Lemma classify_inv r t p cur desired recorded txt before a : classify r t p cur desired recorded txt before = Ok a ->
  match after a with
  | None => kind a = Skip \/ (kind a = UpToDate /\ exists e, cur = Some e /\ same e desired = true)
  | Some out =>
    path a = Some p /\ ok a = true /\ target a = t /\
    if remove r then kind a = Remove_ /\ entry a = None /\ render_remove toml t txt (name r) = Ok out /\
      exists e h, cur = Some e /\ entry_hash host e = Ok h /\ recorded = Some h
    else entry a = Some desired /\ render_set toml t txt (name r) desired = Ok out /\
      match cur with
      | None => kind a = Add
      | Some e => kind a = Update /\ (force r = true \/ exists h, entry_hash host e = Ok h /\ recorded = Some h)
      end
  end.
Proof.
  assert (forall e b, owned host recorded e = Ok b -> b = true -> exists h, entry_hash host e = Ok h /\ recorded = Some h) as Howned.
  { intros e b. unfold owned. destruct recorded as [digest|]; [|by intros [= <-]]. destruct (entry_hash host e) as [h|]; [|done].
    cbn [rbind]. intros [= <-] Hb. apply bool_decide_eq_true_1 in Hb as ->. by exists h. }
  unfold Engine.classify. destruct (remove r).
  - destruct cur as [e|]; [|intros [= <-]; by left]. destruct (owned host recorded e) as [mine|] eqn:Eo; [|done]. cbn [rbind].
    destruct mine; [|intros [= <-]; by left]. destruct (render_remove _ _ _ _) as [out|] eqn:Er; [|done]. cbn [rbind]. intros [= <-].
    cbn. repeat split; try done. destruct (Howned e true Eo eq_refl) as (h & H1 & H2). by exists e, h.
  - destruct cur as [e|].
    + destruct (same e desired) eqn:Es; [intros [= <-]; right; split; [done|]; by exists e|].
      destruct (owned host recorded e) as [mine|] eqn:Eo; [|done]. cbn [rbind]. destruct mine; [|destruct (force r)]; [| |intros [= <-]; by left].
      all: destruct (render_set _ _ _ _ _) as [out|] eqn:Er; [|done]; cbn [rbind]; intros [= <-]; cbn; repeat split; try done; eauto.
    + destruct (render_set _ _ _ _ _) as [out|] eqn:Er; [|done]. cbn [rbind]. intros [= <-]. by cbn.
Qed.

(** ** The literal key that is kept *)
Lemma stored_literal_key e k : stored_literal e = Some k -> is_reference k = false.
Proof.
  unfold stored_literal. destruct (dget (u "env") e) as [[| | | | | |env]|]; try done. destruct (dget KEY_NAME env) as [[| | | |t| |]|]; try done.
  destruct (is_reference t) eqn:E; [done|]. by intros [= <-].
Qed.

Lemma stored_literal_set k env e : is_reference k = false -> stored_literal (dset (u "env") (VDict (dset KEY_NAME (VStr k) env)) e) = Some k.
Proof. intros H. unfold stored_literal. rewrite !dget_dset_eq. by rewrite H. Qed.

(** Without a key to store, what is wanted holds none ... *)
Lemma desired_reference t l e : desired_entry t l None = Ok e -> t <> u "claude-desktop" -> stored_literal e = None.
Proof.
  unfold Engine.desired_entry. cbn [dget]. intros H Ht.
  repeat (case_bool_decide as E; [first [by destruct Ht|injection H as <-; reflexivity]|clear E]). done.
Qed.

(** ... and keeping the literal of an entry that was written that way changes nothing. *)
Lemma preserved_again t l e cur : desired_entry t l None = Ok e -> t <> u "claude-desktop" ->
  let written := with_preserved_literal e cur in with_preserved_literal e (Some written) = written /\
    with_preserved_literal e (Some e) = e.
Proof.
  intros H Ht written. pose proof (desired_reference t l e H Ht) as Hn. assert (with_preserved_literal e (Some e) = e) as He.
  { unfold with_preserved_literal. by rewrite Hn. }
  split; [|done]. unfold written. destruct cur as [c|]; [|exact He]. cbn [with_preserved_literal].
  destruct (stored_literal c) as [k|] eqn:Ec; [|by rewrite Hn]. by rewrite (stored_literal_set k _ _ (stored_literal_key _ _ Ec)).
Qed.

(** ** Planned again *)
Lemma same_refl e : same e e = true.
Proof. unfold same. by apply bool_decide_eq_true_2. Qed.

Lemma valid_name_points t : valid_name t = true -> code_points t.
Proof.
  unfold valid_name. intros [_ Hf]%andb_prop. rewrite forallb_forall in Hf. apply Forall_forall. intros c Hc.
  specialize (Hf c (proj1 (list_elem_of_In _ _) Hc)). unfold name_char, Regex.is_alnum, Regex.is_upper, Regex.is_lower, Regex.is_digit in Hf.
  destruct (mem c (u "._-")) eqn:Em; [|lia]. apply mem_spec in Em. change (u "._-") with [46; 95; 45] in Em. set_unfold in Em. lia.
Qed.

Lemma read_bytes_exists p d data : read_bytes host p d = Ok (Some data) -> exists_ d p = true.
Proof. unfold read_bytes, bytes_at, exists_, node_of. by destruct (nodes d !! real d (str_path p)). Qed.

Lemma is_none_value {A} (o : option A) : is_none o = true <-> o = None.
Proof. by destruct o. Qed.

(** An action that goes by what is there: planning does not stop before the document is read. *)
Lemma plan_considers r hits d t p : target_path (layout r) d t = Some p -> exists_ d p = true ->
  key_of r hits d t <> Some [] -> (t = u "claude-desktop" -> key_of r hits d t <> None /\ running_on_macos (platform r) = true) ->
  forall a cur note, considered r t p (key_of r hits d t) d = Ok (a, cur, note) -> exists a', plan r hits d t = Ok a' /\ noted a' a.
Proof.
  intros Hp He Hk Hd a cur note Hc. unfold Engine.plan.
  replace (bool_decide (t = u "claude-desktop") && negb (running_on_macos (platform r))) with false
    by (case_bool_decide as E; [by rewrite (proj2 (Hd E))|done]).
  rewrite Hp, He. rewrite andb_false_r. rewrite bool_decide_eq_false_2 by done.
  replace (bool_decide (t = u "claude-desktop") && is_none (key_of r hits d t)) with false
    by (case_bool_decide as E; [destruct (Hd E) as [Hn _]; by destruct (key_of r hits d t)|done]).
  rewrite Hc. destruct (mode_warning _ _ _); (eexists; split; [done|]); destruct (_ && _ && _ && _); by repeat split.
Qed.

Lemma plan_written r hits d t a out : plan r hits d t = Ok a -> after a = Some out ->
  exists p, path a = Some p /\ target a = t /\ ok a = true /\ target_path (layout r) d t = Some p /\ key_of r hits d t <> Some [] /\
    (t = u "claude-desktop" -> key_of r hits d t <> None /\ running_on_macos (platform r) = true).
Proof.
  intros Hpl Ha. pose proof Hpl as Hpl'. destruct (plan_cases _ _ _ _ _ Hpl) as [[Hn _]|(p & a0 & cur & note & Hp & Hc & (N1 & N2 & N3 & N4 & N5 & N6 & N7) & Hk)]; [congruence|].
  destruct (considered_inv _ _ _ _ _ _ _ _ Hc) as (l & d0 & de & st & _ & _ & _ & _ & _ & Hcl).
  pose proof (classify_inv _ _ _ _ _ _ _ _ _ Hcl) as Hi. rewrite <- N6, Ha in Hi. destruct Hi as (I1 & I2 & I3 & _).
  exists p. rewrite N1, N2, N4. split; [done|]. split; [done|]. split; [done|]. split; [done|]. split.
  - intros Hkk. unfold Engine.plan in Hpl'. destruct (_ && negb _); [injection Hpl' as <-; done|]. rewrite Hp in Hpl'.
    destruct (_ && negb _); [injection Hpl' as <-; done|]. rewrite Hkk in Hpl'. rewrite bool_decide_eq_true_2 in Hpl' by done. by injection Hpl' as <-.
  - intros Ht. split; [by apply Hk|]. unfold Engine.plan in Hpl'. rewrite bool_decide_eq_true_2 in Hpl' by done. cbn [andb] in Hpl'.
    destruct (running_on_macos (platform r)); [done|]. by injection Hpl' as <-.
Qed.

Lemma load_json t p n d l : load t p n d = Ok l -> t <> u "codex" ->
  (bytes l = None /\ current l = None /\ loaded_text l = []) \/
  exists document keys, loads (loaded_text l) = Ok document /\ json_entry_path t document n = Ok keys /\
    read_entry document keys = Ok (current l).
Proof.
  unfold Engine.load. intros H Ht. destruct (read_bytes host p d) as [[data|]|]; [| |done]; cbn [rbind] in H; [|injection H as <-; by left].
  destruct (decode_sig data) as [txt|]; [|done]. cbn [rbind] in H. rewrite bool_decide_eq_false_2 in H by done.
  destruct (loads txt) as [document|] eqn:El; [|done]. cbn [config rbind] in H.
  destruct (json_entry_path t document n) as [keys|] eqn:Ek; [|done]. cbn [config rbind] in H.
  destruct (read_entry document keys) as [entry|] eqn:Ee; [|done]. cbn [config rbind] in H. injection H as <-.
  right. by exists document, keys.
Qed.

(** Loading what was written. *)
Lemma load_written t p n d txt data document keys e : t <> u "codex" -> read_bytes host p d = Ok (Some data) -> decode_sig data = Ok txt ->
  loads txt = Ok document -> json_entry_path t document n = Ok keys -> read_entry document keys = Ok (Some e) ->
  load t p n d = Ok {| current := Some e; servers := server_map document keys; loaded_text := txt; bytes := Some data |}.
Proof.
  intros Ht Hb Hd Hl Hk He. unfold Engine.load. rewrite Hb. cbn [rbind]. rewrite Hd. cbn [rbind]. rewrite bool_decide_eq_false_2 by done.
  rewrite Hl. cbn [config rbind]. rewrite Hk. cbn [config rbind]. rewrite He. done.
Qed.

(** A disk on which an installation is recorded: the file holds the text, the state file the digest of
    the entry, and the target has its configuration where it was, to be given the same key. *)
Record installed_on (r : Request) (hits : list Hit) (d : Disk) (t : text) (p : PurePath) (e : dict value) (data : list Z)
    (hits' : list Hit) (d' : Disk) : Prop := {
  in_place : target_path (layout r) d' t = Some p;
  holds_data : read_bytes host p d' = Ok (Some data);
  recorded_entry : exists state h, load_state host (state_file (layout r)) d' = Ok state /\ entry_hash host e = Ok h /\ state_hash state t = Some h;
  same_key : key_of r hits' d' t = key_of r hits d t
}.

(** An installation changes exactly its entry and is done once.  For a target with a JSON
    configuration of finite numbers and distinct keys, an action that adds or updates the entry carries
    a document that reads as the old one with the entry at its path; and wherever that document is on
    disk and recorded, planning the target again finds it up to date and writes nothing. *)
Theorem install_sets_entry r hits d t a out e : plan r hits d t = Ok a -> remove r = false -> after a = Some out -> entry a = Some e ->
  t <> u "codex" -> valid_name (name r) = true -> name r <> u "servers" -> writable (VDict e) ->
  (forall p l, target_path (layout r) d t = Some p -> load t p (name r) d = Ok l -> exists v, reads (loaded_text l) v /\ finite_value v) ->
  exists p l v keys, target_path (layout r) d t = Some p /\ load t p (name r) d = Ok l /\ reads (loaded_text l) v /\
    json_entry_path t v (name r) = Ok keys /\ reads out (set_at keys (VDict e) (base_value t (loaded_text l) v)) /\
    forall hits' d' data, utf8 out = Ok data -> installed_on r hits d t p e data hits' d' ->
      exists a', plan r hits' d' t = Ok a' /\ kind a' = UpToDate /\ after a' = None /\ ok a' = true.
Proof.
  intros Hpl Hrm Ha He Ht Hname Hserv Hw Hdoc.
  destruct (plan_written _ _ _ _ _ _ Hpl Ha) as (p & _ & _ & _ & Hp & Hk1 & Hk2).
  destruct (plan_cases _ _ _ _ _ Hpl) as [[Hn _]|(p0 & a0 & cur & note & Hp0 & Hc & (N1 & N2 & N3 & N4 & N5 & N6 & N7) & _)]; [congruence|].
  assert (p0 = p) as -> by congruence. clear Hp0.
  destruct (considered_inv _ _ _ _ _ _ _ _ Hc) as (l & desired0 & desired & state & Hl & -> & Hd0 & Hs & Hpres & Hcl).
  pose proof (classify_inv _ _ _ _ _ _ _ _ _ Hcl) as Hi. rewrite <- N6, Ha in Hi. destruct Hi as (_ & _ & _ & Hi). rewrite Hrm in Hi.
  destruct Hi as (Hent & Hset & _). assert (desired = e) as -> by congruence. clear Hent.
  destruct (Hdoc p l Hp Hl) as (v & Hr & Hf).
  assert (exists keys, json_entry_path t v (name r) = Ok keys) as [keys Hkeys].
  { destruct (load_json _ _ _ _ _ Hl Ht) as [(_ & _ & El)|(document & keys & H1 & H2 & _)].
    - rewrite El in Hr. pose proof (blank_reads [] v eq_refl Hr) as ->. unfold json_entry_path. case_bool_decide; by eexists.
    - rewrite (reads_loads _ _ Hr) in H1. injection H1 as <-. by exists keys. }
  destruct (render_json_reads t (loaded_text l) (name r) e v keys Hr Hf Hw (valid_name_points _ Hname) Hkeys) as (out' & Hout & Hr').
  unfold render_set in Hset. rewrite bool_decide_eq_false_2 in Hset by done. rewrite Hout in Hset. injection Hset as ->.
  exists p, l, v, keys. repeat split; try done. intros hits' d' data Hdata [Hp' Hb (state' & h & Hs' & Hh & Hrec) Hkey].
  pose proof (entry_path_base _ _ _ _ _ Hr Hkeys) as Hkeys'. destruct (entry_path_objects _ _ _ _ Hkeys') as (Hne & Hobj & _ & _).
  pose proof (load_written t p (name r) d' out data _ keys e Ht Hb (decode_sig_encode _ _ Hdata (reads_no_bom _ _ Hr')) (reads_loads _ _ Hr')
    (entry_path_again _ _ _ _ _ Hkeys' Hserv) (read_entry_set _ _ _ Hne Hobj)) as Hload.
  assert (considered r t p (key_of r hits d t) d' = Ok (settled_action t (Some p) UpToDate [] true (Some data) (Some e), Some e,
    other_servers (server_map (set_at keys (VDict e) (base_value t (loaded_text l) v)) keys) (name r))) as Hc'.
  { unfold Engine.considered. rewrite Hload. cbn [rbind current loaded_text bytes servers]. rewrite Hd0. cbn [rbind]. rewrite Hs'. cbn [rbind].
    assert (match key_of r hits d t with None => with_preserved_literal desired0 (Some e) = e | Some _ => desired0 = e end) as Hagain.
    { destruct (key_of r hits d t) as [k|] eqn:Ek; [by destruct (current l)|].
      assert (t <> u "claude-desktop") as Hnd by (intros E; by destruct (Hk2 E)).
      destruct (current l) as [c|]; [|rewrite Hpres; by apply (preserved_again t (launch r) desired0 None)].
      destruct Hpres as (h0 & _ & ->). destruct (preserved_again t (launch r) desired0 (Some c) Hd0 Hnd) as [H1 H2]. by case_bool_decide. }
    destruct (key_of r hits d t) as [k|].
    - cbn [rbind]. subst desired0. unfold Engine.classify. rewrite Hrm, same_refl. done.
    - rewrite Hh. cbn [rbind]. rewrite Hrec. rewrite bool_decide_eq_true_2 by done. rewrite Hagain. cbn [rbind].
      unfold Engine.classify. rewrite Hrm, same_refl. done. }
  rewrite <- Hkey in Hc', Hk1, Hk2.
  destruct (plan_considers r hits' d' t p Hp' (read_bytes_exists _ _ _ Hb) Hk1 Hk2 _ _ _ Hc') as (a' & Hpl' & (M1 & M2 & M3 & M4 & M5 & M6 & M7)).
  exists a'. rewrite Hpl', M3, M6, M4. done.
Qed.
End Plan.

(** ** The sample, installed and planned again *)
Definition sample_plan (r : Request) (d : Disk) (t : text) : result Exn Action :=
  plan (U := ascii_unicode) sample_host sample_toml (fun _ => None) (fun _ _ => []) [u "jev_review"] (fun t => t) (fun _ _ _ => []) r [] d t.
Definition sample_out : text :=
  match sample_plan (sample_request [u "cursor"] false true) (sample_disk no_servers) (u "cursor") with Ok a => or_else (after a) [] | Raise _ => [] end.

Definition sample_recorded : value := Eval vm_compute in
  match load_state sample_host (state_file (layout (sample_request [u "cursor"] false true))) (sample_run (sample_request [u "cursor"] false true) (sample_disk no_servers)).2 with
  | Ok state => state
  | Raise _ => VDict []
  end.
Definition sample_hash : text := Eval vm_compute in match entry_hash sample_host (cursor_entry sample_launch) with Ok h => h | Raise _ => [] end.

Lemma sample_disk_reads p l : target_path (layout (sample_request [u "cursor"] false true)) (sample_disk no_servers) (u "cursor") = Some p ->
  load sample_host sample_toml (u "cursor") p (u "jev") (sample_disk no_servers) = Ok l ->
  reads (loaded_text l) (VDict [(u "mcpServers", VDict [])]).
Proof.
  intros Hp Hl. vm_compute in Hp. injection Hp as <-. vm_compute in Hl. injection Hl as <-. unfold reads. cbn [loaded_text].
  match goal with |- if blank ?t then _ else _ => change (blank t) with false end. cbn iota.
  eexists. split; [by vm_compute|]. split; [by vm_compute|]. apply wf_check_sound. by vm_compute.
Qed.

(** Cursor's configuration gets its entry, in the document as it reads; on the disk the run leaves,
    planning again writes nothing. *)
Lemma install_sets_entry_witness :
  let r := sample_request [u "cursor"] false true in let e := cursor_entry sample_launch in
  reads sample_out (VDict [(u "mcpServers", VDict [(u "jev", VDict e)])]) /\
  exists a', sample_plan r (sample_run r (sample_disk no_servers)).2 (u "cursor") = Ok a' /\ kind a' = UpToDate.
Proof.
  cbn zeta. set (r := sample_request [u "cursor"] false true). set (d := sample_disk no_servers). set (e := cursor_entry sample_launch).
  set (d' := (sample_run r d).2). destruct (sample_plan r d (u "cursor")) as [a|] eqn:Ea; [|by vm_compute in Ea].
  assert (after a = Some sample_out /\ entry a = Some e) as [Eo Ee] by (vm_compute in Ea; injection Ea as <-; by vm_compute).
  destruct (install_sets_entry (U := ascii_unicode) sample_host sample_toml (fun _ => None) (fun _ _ => []) [u "jev_review"] (fun t => t) (fun _ _ _ => [])
    r [] d (u "cursor") a sample_out e Ea eq_refl Eo Ee ltac:(done) eq_refl ltac:(done) (writable_b_sound (VDict e) eq_refl))
    as (p & l & v & keys & Hp & Hl & Hr & Hk & Hout & Hagain).
  { intros p l Hp Hl. exists (VDict [(u "mcpServers", VDict [])]). split; [by eapply sample_disk_reads|by repeat constructor]. }
  assert (v = VDict [(u "mcpServers", VDict [])]) as ->.
  { pose proof (reads_loads _ _ Hr) as H1. pose proof (reads_loads _ _ (sample_disk_reads p l Hp Hl)) as H2. congruence. }
  vm_compute in Hk. injection Hk as <-. split.
  - replace (base_value (u "cursor") (loaded_text l) (VDict [(u "mcpServers", VDict [])])) with (VDict [(u "mcpServers", VDict [])]) in Hout by by vm_compute. exact Hout.
  - assert (Some p = Some (cursor_file (layout r))) as [= ->] by (rewrite <- Hp; by vm_compute). destruct (utf8 sample_out) as [data|] eqn:Ed; [|by vm_compute in Ed].
    destruct (Hagain [] d' data eq_refl) as (a' & Ha & Hkind & _); [|exists a'; split; [exact Ha|exact Hkind]].
    split; [by vm_compute| | |by vm_compute].
    + transitivity (let? data := utf8 sample_out in Ok (Some data) : result Exn (option (list Z))); [by vm_compute|by rewrite Ed].
    + exists sample_recorded, sample_hash. split; [|split]; vm_compute; reflexivity.
Defined.
