(* ===== verification/EngineRun.v ===== *)
(** * What a run leaves alone, and what it writes

    A run writes the configurations its plan changes, the backups of them and the state file, and keeps
    every other file: an entry that is not the installer's survives unless the user forces it, and without
    consent nothing is written at all.  A successful write puts the planned text in place of what the plan
    read, and a run that ends with exit code 0 has every planned text in place. *)
From S2P Require Import Prelude Float64 Json PyStrings JsonText JsonEdit Credential Redact InstallRedact Utf8 InstallFs Layout Documents Engine EnginePlan.
Open Scope Z_scope.

#[local] Open Scope install_scope.
#[local] Open Scope path_scope.

Lemma elem_of_rmap {E A B} (f : A -> result E B) l bs b : rmap f l = Ok bs -> b ∈ bs -> exists a, a ∈ l /\ f a = Ok b.
Proof.
  revert bs. induction l as [|a l IH]; intros bs; cbn; [intros [= <-]; by intros ?%elem_of_nil|].
  destruct (f a) as [b'|] eqn:E1; [|done]. cbn. destruct (rmap f l) as [bs'|]; [|done]. cbn. intros [= <-] [->|Hb]%elem_of_cons.
  - exists a. split; [left|done].
  - destruct (IH bs' eq_refl Hb) as (a' & H1 & H2). exists a'. split; [by right|done].
Qed.

Lemma target_path_targets l d t p : target_path l d t = Some p -> t ∈ TARGETS.
Proof.
  unfold target_path. cbn [dget]. unfold TARGETS. rewrite !elem_of_cons.
  repeat (case_bool_decide; [subst; intros _; tauto|]). done.
Qed.

Section Run.
Context {U : Unicode} (host : Host) `{!HostLaws host} (toml : Tomlkit) (plist : list Z -> option value) (names : Disk -> PurePath -> list text)
  (tools : list text) (repr : text -> text) (unified_diff : list text -> list text -> text -> list text)
  (now : text) (package_version : option text).

Abbreviation plan := (plan host toml plist names tools repr unified_diff).
Abbreviation run := (run host toml plist names tools repr unified_diff now package_version).
Abbreviation apply := (apply host now package_version).
Abbreviation apply_actions := (apply_actions host package_version).
Abbreviation load := (load host toml).
Abbreviation survey := (survey host plist names).
Abbreviation select := (select host repr).
Abbreviation validate := (validate repr).

(** ** The installer's own files *)
Definition stamp_of (r : Request) : text := match stamp r with Some ((_ :: _) as t) => t | _ => now end.
Definition backups (r : Request) : PurePath := state_dir (layout r) / "backups".
Definition backup_of (r : Request) (t : text) (p : PurePath) : PurePath :=
  child (child (backups r) (stamp_of r)) (t ++ or_txt (suffix p)).
Definition own_files (r : Request) (d : Disk) : list PurePath :=
  [state_dir (layout r); backups r; child (backups r) (stamp_of r); state_file (layout r)]
  ++ omap (fun t => backup_of r t <$> target_path (layout r) d t) TARGETS.

(** Other programs, the check and the user keep to a relation. *)
Record others_keep (r : Request) (R : Disk -> Disk -> Prop) : Prop := {
  rival_keeps d : R d (rival host d);
  hook_keeps hook p d : before_write r = Some hook -> R d (hook p d);
  check_keeps check c d : verify r = Some check -> R d (check c d).2;
  confirm_keeps confirm prompt d : confirmer r = Some confirm -> R d (confirm prompt d).2
}.

Section Keep.
Context (r : Request) (R : Disk -> Disk -> Prop) (good : Disk -> Prop) `{!Stable R good}
  (allowed : text -> Prop) (own : list PurePath) (Hfoot : Footprint (R := R) (good := good) host allowed own) (Hothers : others_keep r R).
Abbreviation keeps := (keeps (R := R) (good := good)).
Hypothesis Hown : state_dir (layout r) ∈ own /\ backups r ∈ own /\ child (backups r) (stamp_of r) ∈ own /\ state_file (layout r) ∈ own.

Lemma keeps_write_one a p t : p ∈ own -> backup_of r (target a) p ∈ own -> keeps (write_one host r a p t (stamp_of r)) (fun _ => True).
Proof.
  intros Hp Hb. unfold write_one. eapply keeps_bind; [by apply (keeps_look _ (fun _ => True))|]. intros found _.
  eapply keeps_then; [case_bool_decide; [by apply (keeps_ret _ (fun _ => True))|apply keeps_raise]|]. eapply keeps_then; [|eapply keeps_then].
  - destruct found as [data|]; [|by apply (keeps_ret _ (fun _ => True))]. eapply keeps_then; [|by apply (keeps_ret _ (fun _ => True))].
    destruct Hown as (H1 & H2 & H3 & _). eapply keeps_write_backup; [done..| | | |]; [exact H1|exact H2|exact H3|exact Hb].
  - destruct (before_write r) as [hook|] eqn:E; [|by apply (keeps_ret _ (fun _ => True))]. apply keeps_modify. intros d _. by apply (hook_keeps _ _ Hothers).
  - eapply keeps_bind; [by apply (keeps_look _ (fun _ => True))|]. intros mode _. eapply keeps_atomic_write; try done. intros d _. apply (rival_keeps _ _ Hothers).
Qed.

Lemma keeps_checked a : keeps (checked r a) (fun _ => True).
Proof.
  unfold checked. destruct (verify r) as [check|] eqn:E; [|by apply keeps_ret]. destruct (mem _ _); [|by apply keeps_ret].
  intros d _. pose proof (check_keeps _ _ Hothers check (invoke (launch r)) d E) as H. by destruct (check _ d) as [[|] d'].
Qed.

Lemma keeps_written a p targets : keeps (written host package_version r a p targets) (fun _ => True).
Proof.
  unfold written. eapply keeps_bind; [apply keeps_lift|]. intros rec _. eapply keeps_bind; [by apply (keeps_look _ (fun _ => True))|].
  intros warning _. eapply keeps_bind; [apply keeps_checked|]. intros [a' verified] _. by apply keeps_ret.
Qed.

Lemma keeps_apply_actions actions : (forall a p t, a ∈ actions -> pending a = Some (p, t) -> p ∈ own /\ backup_of r (target a) p ∈ own) ->
  forall targets changed, keeps (apply_actions r (stamp_of r) actions targets changed) (fun _ => True).
Proof.
  induction actions as [|a actions IH]; intros Hp targets changed; [by apply keeps_ret|]. cbn [Engine.apply_actions].
  assert (forall targets changed a', keeps (let* '(rest, targets, changed) := apply_actions r (stamp_of r) actions targets changed in
    ret (a' :: rest, targets, changed)) (fun _ => True)) as Hrest.
  { intros targets' changed' a'. eapply keeps_bind; [apply IH; intros b p t Hb; apply Hp; by right|]. intros [[rest tg] ch] _. by apply keeps_ret. }
  destruct (pending a) as [[p t]|] eqn:E; [|apply Hrest].
  destruct (Hp a p t ltac:(left) E) as [H1 H2]. eapply keeps_bind with (Q := fun _ => True).
  - apply keeps_catch; [eapply keeps_then; [by apply keeps_write_one|by apply (keeps_ret _ (fun _ => True))]|].
    intros []; first [by apply (keeps_ret _ (fun _ => True))|apply keeps_raise].
  - intros [msg|] _; [apply Hrest|]. eapply keeps_bind; [apply keeps_written|]. intros [a' targets'] _. apply Hrest.
Qed.

Lemma keeps_apply actions : (forall a p t, a ∈ actions -> pending a = Some (p, t) -> p ∈ own /\ backup_of r (target a) p ∈ own) ->
  keeps (apply r actions) (fun _ => True).
Proof.
  intros Hp. unfold Engine.apply. eapply keeps_bind; [by apply (keeps_look _ (fun _ => True))|]. intros state _.
  eapply keeps_bind; [apply keeps_lift|]. intros planned _. eapply keeps_then; [apply keeps_lift|]. cbn beta zeta.
  eapply keeps_bind; [by apply keeps_apply_actions|]. intros [[actions' targets] changed] _.
  eapply keeps_then; [|by apply (keeps_ret _ (fun _ => True))].
  destruct changed; [|by apply (keeps_ret _ (fun _ => True))]. destruct Hown as (H1 & _ & _ & H4). eapply keeps_write_state; try done.
  unfold state_file. by rewrite (parent_child _ _ (u "install.json")).
Qed.

Lemma run_keeps d : good d ->
  (forall hits t a p out, plan r hits d t = Ok a -> pending a = Some (p, out) -> p ∈ own /\ backup_of r (target a) p ∈ own) ->
  R d (run r d).2.
Proof.
  intros Hgood Hplan. unfold Engine.run, bind, lift, look. destruct (validate r) as [[]|e]; [|done].
  destruct (survey r d) as [[hits without]|e]; [|done]. destruct (select r hits without d) as [chosen|e]; [|done].
  destruct (exit_now chosen) as [code|]; [done|]. destruct (rmap (plan r hits d) (selected chosen)) as [actions|e] eqn:Ea; [|done].
  assert (forall lines failed d', good d' -> R d' (applied host now package_version r lines actions failed d').2) as Happ.
  { intros lines failed d' Hd'. unfold applied, bind. pose proof (keeps_apply actions) as Hk.
    destruct (Hk ltac:(intros a p t Ha Hp; destruct (elem_of_rmap _ _ _ _ Ea Ha) as (t' & _ & Ht'); by eapply Hplan) d' Hd') as [Hf _].
    by destruct (apply r actions d') as [[|] d'']. }
  destruct (dry_run r); [done|]. destruct (_ && negb (assume_yes r)); [|by apply Happ].
  destruct (confirmer r) as [confirm|] eqn:Ec; [|done].
  pose proof (confirm_keeps _ _ Hothers confirm (redact_text (join [10] (lines chosen ++ describe r hits actions) ++ PROMPT) (secrets r)) d Ec) as Hf.
  destruct (confirm _ d) as [[] d']; cbn in *; [|done]. etransitivity; [exact Hf|]. apply Happ. by eapply stable.
Qed.
End Keep.

(** C17 An entry of the user's survives.  Unless it is forced, a run that finds under its name an entry the
    state file does not name leaves the file of that configuration as it was, byte for byte and with its
    mode, whatever else it installs, removes or fails at: as long as no other target and none of the
    installer's own files is the same file, and the other programs leave it. *)
Theorem foreign_entries_kept r d t p l e h state data mode :
  target_path (layout r) d t = Some p -> load t p (name r) d = Ok l -> current l = Some e -> entry_hash host e = Ok h ->
  load_state host (state_file (layout r)) d = Ok state -> state_hash state t <> Some h -> force r = false \/ remove r = true ->
  let x := real d (str_path p) in
  nodes d !! x = Some (File data mode) -> links d !! x = None ->
  (forall t' p', t' <> t -> target_path (layout r) d t' = Some p' -> away x d p') ->
  Forall (away x d) (own_files r d) -> others_keep r (frame x) ->
  nodes (run r d).2 !! x = Some (File data mode).
Proof.
  intros Hp Hl Hc Hh Hs Hrec Hforce x Hx Hlx Hother Hown Hleave.
  set (others := omap (fun t' => if bool_decide (t' = t) then None else target_path (layout r) d t') TARGETS).
  assert (good x (own_files r d ++ others) d) as Hgood.
  { split; [by exists data, mode|]. split; [done|]. apply Forall_app. split; [done|]. apply Forall_forall. intros p' Hin.
    apply list_elem_of_omap in Hin as (t' & _ & Ht'). case_bool_decide; [done|]. by apply (Hother t'). }
  assert (frame x d (run r d).2) as [Hf _]; [|by apply Hf].
  apply (run_keeps r (frame x) (good x (own_files r d ++ others)) (fun t => t <> x) (own_files r d ++ others)); [|done| |done|].
  - by apply frame_footprint.
  - unfold own_files. repeat split; apply elem_of_app; left; apply elem_of_app; left; by repeat constructor.
  - intros hits t' a p' out Hpl Hpend. unfold pending in Hpend. destruct (after a) as [out'|] eqn:Ea; [|done].
    destruct (plan_written _ _ _ _ _ _ _ _ _ _ _ _ _ Hpl Ea) as (p0 & Hpa & Hta & Hok & Hp0 & _). rewrite Hpa, Hok in Hpend. injection Hpend as <- <-.
    rewrite Hta. assert (t' <> t) as Hne.
    { intros ->. assert (p0 = p) as -> by congruence.
      destruct (plan_cases _ _ _ _ _ _ _ _ _ _ _ _ Hpl) as [[Hn _]|(p1 & a0 & cur & note & Hp1 & Hcon & (_ & _ & _ & _ & _ & N6 & _) & _)]; [congruence|].
      assert (p1 = p) as -> by congruence. destruct (considered_inv _ _ _ _ _ _ _ _ _ _ _ _ _ Hcon) as (l' & d0 & de & st & Hl' & -> & _ & Hs' & _ & Hcl).
      assert (l' = l) as -> by congruence. assert (st = state) as -> by congruence.
      pose proof (classify_inv _ _ _ _ _ _ _ _ _ _ _ _ Hcl) as Hi. rewrite <- N6, Ea, Hc in Hi. destruct Hi as (_ & _ & _ & Hi).
      destruct (remove r).
      - destruct Hi as (_ & _ & _ & e' & h' & [= <-] & Hh' & Hr'). congruence.
      - destruct Hi as (_ & _ & _ & [Hfr|(h' & Hh' & Hr')]); [|congruence]. destruct Hforce; congruence. }
    pose proof (target_path_targets _ _ _ _ Hp0) as Hin. split; apply elem_of_app.
    + right. apply list_elem_of_omap. exists t'. by rewrite bool_decide_eq_false_2.
    + left. unfold own_files. apply elem_of_app. right. apply list_elem_of_omap. exists t'. by rewrite Hp0.
Qed.

(** Nothing is written without consent.  A dry run leaves the disk as it is, and so does a run that has
    something to write when nobody said yes: without [-y], without a prompt or with another answer. *)
Theorem consent_before_writing r d :
  dry_run r = true \/ (assume_yes r = false /\ forall confirm, confirmer r = Some confirm -> forall prompt d, confirm prompt d = (false, d)) ->
  (run r d).2 = d.
Proof.
  intros Hr. unfold Engine.run, bind, lift, look. destruct (validate r) as [[]|e]; [|done].
  destruct (survey r d) as [[hits without]|e]; [|done]. destruct (select r hits without d) as [chosen|e]; [|done].
  destruct (exit_now chosen) as [code|]; [done|]. destruct (rmap (plan r hits d) (selected chosen)) as [actions|e] eqn:Ea; [|done].
  destruct (dry_run r) eqn:Ed; [done|]. destruct Hr as [|[-> Hc]]; [done|].
  destruct (existsb _ actions) eqn:Ex; cbn [andb negb].
  - destruct (confirmer r) as [confirm|] eqn:E; [|done]. by rewrite (Hc confirm eq_refl).
  - assert (forall a, a ∈ actions -> pending a = None) as Hnone.
    { intros a Ha. unfold pending. destruct (after a) as [t|] eqn:E1; [|done]. destruct (path a); [|done]. destruct (ok a) eqn:E2; [|done].
      assert (existsb (fun a => negb (is_none (after a)) && ok a) actions = true) as Ht; [|congruence].
      apply existsb_exists. exists a. split; [by apply list_elem_of_In|]. by rewrite E1, E2. }
    assert (forall targets changed, apply_actions r (stamp_of r) actions targets changed d = (Ok (actions, targets, changed), d)) as Hid.
    { clear Ex Ea. induction actions as [|a actions IH]; intros targets changed; [done|]. cbn [Engine.apply_actions]. rewrite (Hnone a) by left.
      unfold bind. rewrite IH; [done|]. intros b Hb. apply Hnone. by right. }
    unfold applied, Engine.apply, bind, look, lift. destruct (load_state _ _ d) as [state|]; [|done]. destruct (planned_targets _ _ _ _ _) as [planned|]; [|done].
    destruct (refuse_secret _ _) as [[]|]; [|done]. fold (stamp_of r). by rewrite Hid.
Qed.

(** What a run prints has been through the redactor. *)
Lemma run_redacted r d txt code : (run r d).1 = Ok (txt, code) -> exists t, txt = redact_text t (secrets r).
Proof.
  unfold Engine.run, bind, lift, look. destruct (validate r) as [[]|e]; [|done].
  destruct (survey r d) as [[hits without]|e]; [|done]. destruct (select r hits without d) as [chosen|e]; [|done].
  destruct (exit_now chosen) as [c|]; [intros [= <- _]; by eexists|]. destruct (rmap (plan r hits d) (selected chosen)) as [actions|e]; [|done].
  assert (forall lines failed d', (applied host now package_version r lines actions failed d').1 = Ok (txt, code) -> exists t, txt = redact_text t (secrets r)) as Happ.
  { intros lines failed d'. unfold applied, bind. destruct (apply r actions d') as [[acts|] d'']; [|done]. intros [= <- _]. by eexists. }
  destruct (dry_run r); [intros [= <- _]; by eexists|]. destruct (_ && _); [|apply Happ].
  destruct (confirmer r) as [confirm|]; [|intros [= <- _]; by eexists]. destruct (confirm _ d) as [[] d']; [apply Happ|intros [= <- _]; by eexists].
Qed.

(** What a run prints holds no secret of the request: no value it was given to hide occurs in its
    summary, its diffs or its messages, provided the marker does not spell it. *)
Theorem run_hides_secrets r d txt code s : (run r d).1 = Ok (txt, code) -> s ∈ secrets r -> s <> [] -> unmarked s -> ~ occurs s txt.
Proof. intros [t ->]%run_redacted Hs Hne Hu. by apply redact_text_hides. Qed.
End Run.

(** ** The samples, decided *)
Definition away_b (x : text) (d : Disk) (p : PurePath) : bool :=
  negb (bool_decide (str_path p = x)) && negb (bool_decide (real d (str_path p) = x)).
Lemma away_b_spec x d p : away_b x d p = true -> away x d p.
Proof. unfold away_b, away. rewrite andb_true_iff, !negb_true_iff, !bool_decide_eq_false. done. Qed.
Lemma away_all x d ps : forallb (away_b x d) ps = true -> Forall (away x d) ps.
Proof. rewrite forallb_forall, Forall_forall. intros H p Hp. by apply away_b_spec, H, list_elem_of_In. Qed.

(** A property of every target's configuration, target by target. *)
Lemma targets_all l d (P : text -> PurePath -> bool) : forallb (fun t => match target_path l d t with Some p => P t p | None => true end) TARGETS = true ->
  forall t p, target_path l d t = Some p -> P t p = true.
Proof.
  rewrite forallb_forall. intros H t p Hp. pose proof (target_path_targets _ _ _ _ Hp) as Ht. specialize (H t (proj1 (list_elem_of_In _ _) Ht)).
  by rewrite Hp in H.
Qed.

Lemma sample_others (R : Disk -> Disk -> Prop) `{!PreOrder R} agents dry yes : others_keep sample_host (sample_request agents dry yes) R.
Proof. split; done. Qed.

(** Another server of the name in Cursor's configuration: a run for two agents leaves it. *)
Lemma foreign_entries_kept_witness :
  let r := sample_request [u "cursor"; u "omp"] false true in let d := sample_disk foreign_server in
  let d' := (sample_run r d).2 in
  nodes d' !! u "/h/.cursor/mcp.json" = nodes d !! u "/h/.cursor/mcp.json" /\ bytes_of d' "/h/.omp/agent/mcp.json" <> None.
Proof.
  cbn zeta. split; [|by vm_compute].
  set (r := sample_request [u "cursor"; u "omp"] false true). set (d := sample_disk foreign_server).
  eassert (nodes d !! u "/h/.cursor/mcp.json" = Some (File _ _)) as Hx by by vm_compute. rewrite Hx.
  destruct (load sample_host sample_toml (u "cursor") (cursor_file (layout r)) (name r) d) as [l|] eqn:El; [|by vm_compute in El].
  destruct (current l) as [e|] eqn:Ec; [|exfalso; revert Ec; vm_compute in El; injection El as <-; by vm_compute].
  destruct (entry_hash sample_host e) as [h|] eqn:Eh; [|exfalso; vm_compute in El; injection El as <-; injection Ec as <-; by vm_compute in Eh].
  refine (foreign_entries_kept (U := ascii_unicode) sample_host sample_toml (fun _ => None) (fun _ _ => []) [u "jev_review"] (fun t => t) (fun _ _ _ => []) (u "now") None
    r d (u "cursor") (cursor_file (layout r)) l e h no_targets _ _ eq_refl El Ec Eh eq_refl _ (or_introl eq_refl) Hx eq_refl _ _ (sample_others _ _ _ _)).
  - by vm_compute.
  - intros t' p' Ht Hp. apply away_b_spec. revert t' p' Hp Ht.
    assert (forall t' p', target_path (layout r) d t' = Some p' -> bool_decide (t' = u "cursor") || away_b (u "/h/.cursor/mcp.json") d p' = true) as H
      by (apply targets_all; by vm_compute).
    intros t' p' Hp Ht. specialize (H t' p' Hp). by rewrite bool_decide_eq_false_2 in H.
  - apply away_all. by vm_compute.
Defined.

(** A dry run of an installation that would write, and one that nobody agreed to. *)
Lemma consent_before_writing_witness :
  let d := sample_disk no_servers in
  (sample_run (sample_request [u "cursor"] true true) d).2 = d /\ (sample_run (sample_request [u "cursor"] false false) d).2 = d /\
  (sample_run (sample_request [u "cursor"] false true) d).2 <> d.
Proof.
  split; [|split].
  - apply (consent_before_writing (U := ascii_unicode) sample_host sample_toml (fun _ => None) (fun _ _ => []) [u "jev_review"] (fun t => t) (fun _ _ _ => []) (u "now") None). by left.
  - apply (consent_before_writing (U := ascii_unicode) sample_host sample_toml (fun _ => None) (fun _ _ => []) [u "jev_review"] (fun t => t) (fun _ _ _ => []) (u "now") None). by right.
  - intros E. apply (f_equal (fun d => bytes_of d "/h/.local/state/jev-mcp/install.json")) in E. by vm_compute in E.
Defined.

(** The secret of the request is not in what a dry run prints. *)
Lemma run_hides_secrets_witness :
  let d := sample_disk (u "{" ++ quoted "sk-1" ++ u ": {" ++ quoted "x" ++ u ": 1}}") in
  exists txt code, (sample_run (sample_request [u "cursor"] true true) d).1 = Ok (txt, code) /\ ~ occurs (u "sk-1") txt.
Proof.
  cbn zeta. set (d := sample_disk _). destruct (sample_run (sample_request [u "cursor"] true true) d).1 as [[txt code]|] eqn:E; [|by vm_compute in E].
  exists txt, code. split; [done|].
  apply (run_hides_secrets (U := ascii_unicode) sample_host sample_toml (fun _ => None) (fun _ _ => []) [u "jev_review"] (fun t => t) (fun _ _ _ => []) (u "now") None _ _ _ _ _ E).
  - left.
  - done.
  - apply unmarked_b_spec. by vm_compute.
Defined.

(** * What a run writes

    A successful write puts the planned text in place of what the plan read, with a copy of that put
    aside, and refuses a file that changed in between; a run that ends with exit code 0 has every planned
    text in place. *)

#[local] Open Scope install_scope.

Section Apply.
Context (host : Host) `{!HostLaws host}.
(** Others leave the temporary files. *)
Hypothesis Htemp : forall d d0 dir prefix t, temporary host d0 dir prefix = Some t -> nodes (rival host d) !! t = nodes d !! t.

Lemma chmod_at_ok p mode d u d' : chmod_at host p mode d = (Ok u, d') -> exists n, nodes d !! p = Some n /\ d' = put p (with_mode mode n) d.
Proof.
  unfold chmod_at. intros H. apply bind_ok in H as (? & d1 & ->%attempt_ok & H). apply bind_ok in H as (found & d2 & [[= <-] ->]%look_ok & H).
  destruct (nodes d !! p) as [n|]; [|done]. apply modify_ok in H as ->. by exists n.
Qed.

Lemma write_temporary_ok dir prefix data mode d t d' : write_temporary host dir prefix data mode d = (Ok t, d') ->
  nodes d' !! t = Some (File data mode) /\ links d' = links d /\ (exists d0 dir prefix, temporary host d0 dir prefix = Some t) /\
  (forall y, y <> t -> nodes d' !! y = nodes d !! y) /\ nodes d !! t = None.
Proof.
  unfold write_temporary. intros H. apply bind_ok in H as (? & d1 & ->%attempt_ok & H).
  apply bind_ok in H as (name & d2 & [[= E] ->]%look_ok & H). destruct name as [t'|]; [|done].
  apply bind_ok in H as (? & d3 & ->%modify_ok & H). apply cleaning_ok in H.
  apply bind_ok in H as (? & d4 & ->%attempt_ok & H). apply bind_ok in H as (? & d5 & ->%modify_ok & H).
  apply bind_ok in H as (? & d6 & ->%attempt_ok & H). apply bind_ok in H as (? & d7 & (n & Hn & ->)%chmod_at_ok & H).
  apply ret_ok in H as [-> ->]. cbn in Hn. rewrite lookup_insert_eq in Hn. injection Hn as <-.
  assert (temporary host d dir prefix = Some t') as Et by (by destruct (is_dir d dir)). repeat split.
  - cbn. by rewrite lookup_insert_eq.
  - by exists d, dir, prefix.
  - intros y Hy. cbn. by rewrite !lookup_insert_ne.
  - by apply (temporary_fresh _ _ _ _ Et).
Qed.

Lemma replace_ok from to d u d' : replace_file host from to d = (Ok u, d') ->
  nodes d' !! to = nodes d !! from /\ exists n, nodes d !! from = Some n.
Proof.
  unfold replace_file. intros H. apply bind_ok in H as (? & d1 & ->%attempt_ok & H).
  apply bind_ok in H as (found & d2 & [[= <-] ->]%look_ok & H). destruct (nodes d !! from) as [n|]; [|done].
  apply bind_ok in H as (there & d3 & [[= <-] ->]%look_ok & H).
  assert (modify (fun d => {| nodes := <[to := n]> (base.delete from (nodes d)); links := base.delete to (links d) |}) d = (Ok u, d')) as Hm
    by (destruct (links d !! to); [done|]; by destruct (nodes d !! to) as [[| ]|]).
  apply modify_ok in Hm as ->. cbn. rewrite lookup_insert_eq. split; [done|by exists n].
Qed.

Lemma unchanged_ok p q expected d u d' : unchanged host p q expected d = (Ok u, d') -> d' = d /\ bytes_at host q d = Ok expected.
Proof.
  unfold unchanged. intros H. apply bind_ok in H as (current & d1 & [E ->]%look_ok & H). case_bool_decide; [|done]. subst.
  by apply ret_ok in H as [_ ->].
Qed.

Lemma atomic_write_ok p t mode expected d u d' : atomic_write host p t mode expected d = (Ok u, d') ->
  let q := real d (str_path p) in exists data, utf8 t = Ok data /\ nodes d' !! q = Some (File data mode) /\
    exists d1, bytes_at host q (rival host d1) = Ok expected.
Proof.
  intros H q. unfold atomic_write in H. apply bind_ok in H as (q' & d1 & [[= <-] ->]%look_ok & H). fold q in H. cbn beta zeta in H.
  apply bind_ok in H as (? & d2 & _ & H). apply bind_ok in H as (? & d3 & [-> _]%unchanged_ok & H).
  apply bind_ok in H as (data & d4 & [Hd ->]%lift_ok & H). apply bind_ok in H as (staged & d5 & Hs & H).
  apply write_temporary_ok in Hs as (Hs & _ & (d0 & dir & prefix & Ht) & Hsame & Hfresh).
  apply bind_ok in H as (? & d6 & Hc & H). apply cleaning_ok in Hc.
  apply bind_ok in Hc as (? & d7 & ->%modify_ok & Hc). apply bind_ok in Hc as (? & d8 & [-> Hb]%unchanged_ok & Hc).
  exists data. split; [done|]. split; [|by exists d5].
  apply chmod_at_ok in H as (n & Hn & ->). cbn. rewrite lookup_insert_eq.
  apply replace_ok in Hc as [Hq _]. rewrite Hq, (Htemp _ _ _ _ _ Ht), Hs in Hn. by injection Hn as <-.
Qed.

(** A file that is not what was expected stays as it is, and the write fails. *)
Lemma atomic_write_stale p t mode expected d data m : nodes d !! str_path p = Some (File data m) -> links d !! str_path p = None ->
  Some data <> expected -> exists e d', atomic_write host p t mode expected d = (Raise e, d') /\ nodes d' !! str_path p = Some (File data m).
Proof.
  intros Hx Hl Hne. set (x := str_path p) in *. assert (real d x = x) as Hr by (unfold real; by rewrite Hl).
  assert (good x [] d) as Hg by (split; [by exists data, m|done]).
  destruct (keeps_mkdir host (fun t => t <> x) [] (frame_footprint host x []) (parent (pure x)) d Hg) as [[Hf _] _].
  unfold atomic_write, bind at 1, look at 1. fold x. rewrite Hr. unfold bind at 1. destruct (mkdir host (parent (pure x)) d) as [[u|e] d1]; cbn in Hf; [|by exists e, d1; auto].
  specialize (Hf _ _ Hx). unfold bind at 1, unchanged, bind at 1, look at 1, bytes_at. rewrite Hf.
  destruct (fault host (Read x)) as [reason|]; [by eexists _, d1|]. rewrite bool_decide_eq_false_2 by done. by eexists _, d1.
Qed.

(** ** One configuration *)
Lemma write_backup_ok dir stamp t suffix data d r d' : write_backup host dir stamp t suffix data d = (Ok r, d') ->
  let dest := child (child (child dir (u "backups")) stamp) (t ++ or_txt suffix) in
  fewer_links d d' /\ node_of d' dest = Some (File data (octal 6 0 0)).
Proof.
  intros H dest. split.
  { set (own := [dir; child dir (u "backups"); child (child dir (u "backups")) stamp; dest]).
    pose proof (keeps_write_backup host (fun _ => True) own (links_footprint host own) dir stamp t suffix data) as Hk.
    destruct (Hk ltac:(left) ltac:(right; left) ltac:(right; right; left) ltac:(right; right; right; left) d I) as [Hf _]. by rewrite H in Hf. }
  unfold write_backup in H. apply bind_ok in H as (? & d1 & _ & H). apply bind_ok in H as (? & d2 & _ & H). apply bind_ok in H as (? & d3 & _ & H).
  apply bind_ok in H as (q & d4 & [[= <-] ->]%look_ok & H). fold dest in H. set (q := real d3 (str_path dest)) in *.
  apply bind_ok in H as (? & d5 & ->%attempt_ok & H). apply bind_ok in H as (found & d6 & [[= <-] ->]%look_ok & H).
  assert (exists mode, (modify (put q (File [] mode)) ;; attempt host (Write q) ;; modify (put q (File data mode)) ;; attempt host (Fsync q) ;;
    chmod host dest (octal 6 0 0) ;; ret dest) d3 = (Ok r, d')) as [mode Hw] by (destruct (nodes d3 !! q) as [[? mode|]|]; [by eexists|done|by eexists]).
  clear H. apply bind_ok in Hw as (? & d7 & ->%modify_ok & H). apply bind_ok in H as (? & d8 & ->%attempt_ok & H).
  apply bind_ok in H as (? & d9 & ->%modify_ok & H). apply bind_ok in H as (? & d10 & ->%attempt_ok & H).
  apply bind_ok in H as (? & d11 & Hc & H). apply ret_ok in H as [_ ->]. unfold chmod in Hc.
  apply bind_ok in Hc as (q' & d12 & [[= <-] ->]%look_ok & Hc). change (real _ (str_path dest)) with q in Hc.
  apply chmod_at_ok in Hc as (n & Hn & ->). cbn in Hn. rewrite lookup_insert_eq in Hn. injection Hn as <-.
  unfold node_of. change (real _ (str_path dest)) with q. cbn. by rewrite lookup_insert_eq.
Qed.

(** The parts of a write: the check of what is there, the copy, and the replacement. *)
Lemma write_one_parts r a p t stamp d u d' : write_one host r a p t stamp d = (Ok u, d') ->
  exists d1 d2 mode, read_bytes host p d = Ok (before a) /\
    match before a with
    | None => d1 = d
    | Some old => exists copy, write_backup host (state_dir (layout r)) stamp (target a) (suffix p) old d = (Ok copy, d1)
    end /\
    d2 = match before_write r with Some hook => hook p d1 | None => d1 end /\
    atomic_write host p t mode (before a) d2 = (Ok u, d').
Proof.
  unfold write_one. intros H. apply bind_ok in H as (found & d1 & [Hf ->]%look_ok & H). apply bind_ok in H as (? & d2 & Hb & H).
  case_bool_decide as E; [|done]. apply ret_ok in Hb as [_ ->]. subst found. apply bind_ok in H as (? & d3 & Hc & H).
  apply bind_ok in H as (? & d4 & Hh & H). apply bind_ok in H as (mode & d5 & [_ ->]%look_ok & H).
  exists d3, d4, mode. split; [done|]. split; [|split; [|done]].
  - destruct (before a) as [old|]; [|by apply ret_ok in Hc as [_ ->]]. apply bind_ok in Hc as (copy & d6 & Hc & [_ ->]%ret_ok). by exists copy.
  - destruct (before_write r); [by apply modify_ok in Hh as ->|by apply ret_ok in Hh as [_ ->]].
Qed.

Lemma write_one_links r a p t stamp d u d' : write_one host r a p t stamp d = (Ok u, d') -> others_keep host r fewer_links -> fewer_links d d'.
Proof.
  intros (d1 & d2 & mode & _ & Hb & E2 & Ha)%write_one_parts Ho.
  assert (fewer_links d d1) as H1 by (destruct (before a) as [old|]; [destruct Hb as (copy & Hb); by apply write_backup_ok in Hb as [? _]|by subst]).
  assert (fewer_links d1 d2) as H2
    by (subst d2; destruct (before_write r) as [hook|] eqn:E; [by apply (hook_keeps _ _ _ Ho)|done]).
  pose proof (keeps_atomic_write host (fun _ => True) [p] (links_footprint host [p]) p t mode (before a) (fun d _ => rival_keeps _ _ _ Ho d) ltac:(left)) as Hk.
  destruct (Hk d2 I) as [H3 _]. rewrite Ha in H3. cbn in H3. etransitivity; [exact H1|]. by etransitivity.
Qed.

Lemma write_one_text r a p t stamp d u d' : write_one host r a p t stamp d = (Ok u, d') -> others_keep host r fewer_links ->
  links d !! str_path p = None -> exists data mode, utf8 t = Ok data /\ nodes d' !! str_path p = Some (File data mode).
Proof.
  intros Hw Ho Hl. pose proof Hw as (d1 & d2 & mode & _ & Hb & E2 & Ha)%write_one_parts.
  apply atomic_write_ok in Ha as (data & Hd & Hn & _). exists data, mode. split; [done|].
  assert (links d2 !! str_path p = None) as Hl2; [|unfold real in Hn; by rewrite Hl2 in Hn].
  assert (fewer_links d d2) as Hf.
  { subst d2. etransitivity; [|destruct (before_write r) as [hook|] eqn:E; [by apply (hook_keeps _ _ _ Ho)|done]].
    destruct (before a) as [old|]; [destruct Hb as (copy & Hb); by apply write_backup_ok in Hb as [? _]|by subst]. }
  destruct (links d2 !! str_path p) as [q|] eqn:E; [|done]. apply Hf in E. congruence.
Qed.

(** A configuration is replaced whole, with a copy put aside, or not at all.  A write that succeeds found
    the file with the bytes its plan read, leaves the planned text in its place, and leaves those bytes in
    the backup; a file with other bytes by then stops the write before anything is touched; and one that
    changes even later, up to the last look before the replacement, stays as the others left it. *)
Theorem write_one_guarded r a p t stamp d :
  let dest := child (child (child (state_dir (layout r)) (u "backups")) stamp) (target a ++ or_txt (suffix p)) in
  (forall u d', write_one host r a p t stamp d = (Ok u, d') -> others_keep host r fewer_links -> links d !! str_path p = None ->
     read_bytes host p d = Ok (before a) /\
     (exists data mode, utf8 t = Ok data /\ nodes d' !! str_path p = Some (File data mode)) /\
     (forall old, before a = Some old -> links d !! str_path dest = None -> str_path dest <> str_path p -> others_keep host r (frame (str_path dest)) ->
        nodes d' !! str_path dest = Some (File old (octal 6 0 0)))) /\
  (forall bs, read_bytes host p d = Ok bs -> bs <> before a -> exists msg, write_one host r a p t stamp d = (Raise (ConfigChangedError msg), d)) /\
  (forall mode d1 data m, nodes d1 !! str_path p = Some (File data m) -> links d1 !! str_path p = None -> Some data <> before a ->
     exists e d', atomic_write host p t mode (before a) d1 = (Raise e, d') /\ nodes d' !! str_path p = Some (File data m)).
Proof.
  intros dest. split; [|split].
  - intros w d' Hw Ho Hl. pose proof Hw as (d1 & d2 & mode & Hr & Hb & E2 & Ha)%write_one_parts.
    split; [done|]. split; [by eapply write_one_text|]. intros old Eo Hld Hne Hof. rewrite Eo in Hb. destruct Hb as (copy & Hb).
    apply write_backup_ok in Hb as [Hf1 Hn]. fold dest in Hn. set (x := str_path dest) in *.
    assert (forall d1, fewer_links d d1 -> links d1 !! x = None) as Hno.
    { intros d3 H3. destruct (links d3 !! x) as [q|] eqn:E; [|done]. apply H3 in E. congruence. }
    assert (nodes d1 !! x = Some (File old (octal 6 0 0))) as Hx by (unfold node_of, real in Hn; fold x in Hn; by rewrite (Hno d1 Hf1) in Hn).
    assert (forall d1, fewer_links d d1 -> away x d1 p) as Haway.
    { intros d3 H3. split; [done|]. unfold real. destruct (links d3 !! str_path p) as [q|] eqn:E; [|done]. apply H3 in E. congruence. }
    assert (frame x d1 d2) as H12 by (subst d2; destruct (before_write r) as [hook|] eqn:E; [by apply (hook_keeps _ _ _ Hof)|done]).
    assert (fewer_links d d2) as Hf2 by (etransitivity; [exact Hf1|exact (proj2 H12)]).
    assert (good x [p] d2) as Hg.
    { split; [exists old, (octal 6 0 0); by apply H12|]. split; [by apply Hno|]. constructor; [by apply Haway|constructor]. }
    pose proof (keeps_atomic_write host (fun t => t <> x) [p] (frame_footprint host x [p]) p t mode (before a) (fun d _ => rival_keeps _ _ _ Hof d) ltac:(left)) as Hk.
    destruct (Hk d2 Hg) as [[H3 _] _]. rewrite Ha in H3. by apply H3, H12.
  - intros bs Hr Hne. unfold write_one, bind at 1, look at 1. rewrite Hr. unfold bind at 1. rewrite bool_decide_eq_false_2 by done. by eexists.
  - intros mode d1 data m Hx Hl Hne. by apply (atomic_write_stale _ _ _ _ _ data m).
Qed.
End Apply.

(** ** A run *)
Section Run.
Context {U : Unicode} (host : Host) `{!HostLaws host} (toml : Tomlkit) (plist : list Z -> option value) (names : Disk -> PurePath -> list text)
  (tools : list text) (repr : text -> text) (unified_diff : list text -> list text -> text -> list text)
  (now : text) (package_version : option text).
Hypothesis Htemp : forall d d0 dir prefix t, temporary host d0 dir prefix = Some t -> nodes (rival host d) !! t = nodes d !! t.

Abbreviation plan := (plan host toml plist names tools repr unified_diff).
Abbreviation run := (run host toml plist names tools repr unified_diff now package_version).
Abbreviation apply_actions := (apply_actions host package_version).
Abbreviation own_files := (own_files now).
Abbreviation backup_of := (backup_of now).
Abbreviation stamp_of := (stamp_of now).

(** Others leave every file and make no links. *)
Definition undisturbed (r : Request) : Prop := forall x, others_keep host r (frame x).

Lemma undisturbed_links r : undisturbed r -> others_keep host r fewer_links.
Proof. intros H. destruct (H []) as [A B C D]. split; [intros d; exact (proj2 (A d))|intros hook p d E; exact (proj2 (B hook p d E))|intros c x d E; exact (proj2 (C c x d E))|intros c x d E; exact (proj2 (D c x d E))]. Qed.

Lemma away_links x d d' p : fewer_links d d' -> away x d p -> away x d' p.
Proof.
  intros Hl [H1 H2]. split; [done|]. unfold real in *. destruct (links d' !! str_path p) as [q|] eqn:E; [|done].
  apply Hl in E. by rewrite E in H2.
Qed.

(** A configuration of the plan that is none of the installer's files and no link. *)
Definition apart (r : Request) (d : Disk) (own : list PurePath) (a : Action) : Prop :=
  forall p t, pending a = Some (p, t) -> links d !! str_path p = None /\ Forall (away (str_path p) d) own /\ backup_of r (target a) p ∈ own.
Definition distinct (a b : Action) : Prop :=
  forall p t q s, pending a = Some (p, t) -> pending b = Some (q, s) -> str_path q <> str_path p.

Lemma apart_links r d d' own a : fewer_links d d' -> apart r d own a -> apart r d' own a.
Proof.
  intros Hf H p t Hp. destruct (H p t Hp) as (H1 & H2 & H3). split; [|split; [|done]].
  - destruct (links d' !! str_path p) as [q|] eqn:E; [|done]. apply Hf in E. congruence.
  - eapply Forall_impl; [exact H2|]. intros q. by apply away_links.
Qed.

Section Actions.
Context (r : Request) (own : list PurePath) (Hquiet : undisturbed r).
Hypothesis Hown : state_dir (layout r) ∈ own /\ backups r ∈ own /\ child (backups r) (stamp_of r) ∈ own /\ state_file (layout r) ∈ own.

(** A written configuration stays as it is while the other actions are applied. *)
Lemma apply_actions_keeps x d actions targets changed data mode : nodes d !! x = Some (File data mode) -> links d !! x = None ->
  Forall (away x d) own -> Forall (fun b => apart r d own b /\ forall q s, pending b = Some (q, s) -> str_path q <> x) actions ->
  nodes (apply_actions r (stamp_of r) actions targets changed d).2 !! x = Some (File data mode) /\
  fewer_links d (apply_actions r (stamp_of r) actions targets changed d).2.
Proof.
  intros Hx Hl Ho Hb. set (paths := omap (fun b => fst <$> pending b) actions).
  assert (good x (own ++ paths) d) as Hg.
  { split; [by exists data, mode|]. split; [done|]. apply Forall_app. split; [done|]. apply Forall_forall. intros q Hq.
    apply list_elem_of_omap in Hq as (b & Hin & Hq). destruct (pending b) as [[q' s]|] eqn:E; [|done]. injection Hq as ->.
    rewrite Forall_forall in Hb. destruct (Hb b Hin) as [Ha Hd]. split; [by eapply Hd|]. unfold real. rewrite (proj1 (Ha q s E)). by eapply Hd. }
  destruct Hown as (O1 & O2 & O3 & O4).
  assert (frame x d (apply_actions r (stamp_of r) actions targets changed d).2) as Hf.
  { refine (proj1 (keeps_apply_actions host now package_version r (frame x) (good x (own ++ paths)) (fun t => t <> x) (own ++ paths) _ (Hquiet x) _ actions _ targets changed d Hg)).
    - by apply frame_footprint.
    - repeat split; apply elem_of_app; by left.
    - intros b q s Hin Hq. rewrite Forall_forall in Hb. destruct (Hb b Hin) as [Ha _]. split; apply elem_of_app; [right|left; by eapply Ha].
      apply list_elem_of_omap. exists b. by rewrite Hq. }
  split; [by apply Hf|exact (proj2 Hf)].
Qed.

(** What is done with one action before the others, from the first of a list that ends well. *)
Lemma apply_first a p t actions targets changed d acts tg ch d' : pending a = Some (p, t) ->
  apply_actions r (stamp_of r) (a :: actions) targets changed d = (Ok (acts, tg, ch), d') -> Forall (fun a => ok a = true) acts ->
  exists u d1 a' targets' d2 rest, write_one host r a p t (stamp_of r) d = (Ok u, d1) /\
    written host package_version r a p targets d1 = (Ok (a', targets'), d2) /\
    apply_actions r (stamp_of r) actions targets' true d2 = (Ok (rest, tg, ch), d') /\ Forall (fun a => ok a = true) rest.
Proof.
  intros Hp H Hok. cbn [Engine.apply_actions] in H. rewrite Hp in H. apply bind_ok in H as (outcome & d1 & Ho & H).
  destruct outcome as [msg|].
  - exfalso. apply bind_ok in H as ([[rest tg'] ch'] & d2 & _ & H). apply ret_ok in H as [[= -> _ _] _]. by inversion Hok.
  - unfold catch in Ho. destruct ((write_one host r a p t (stamp_of r) ;; ret None) d) as [[o|e] d0] eqn:Hw.
    + injection Ho as -> ->. apply bind_ok in Hw as (w & d3 & Hw & [_ ->]%ret_ok). apply bind_ok in H as ([a' targets'] & d2 & Hwr & H).
      apply bind_ok in H as ([[rest tg'] ch'] & d4 & Hr & H). apply ret_ok in H as [[= -> -> ->] ->]. inversion Hok as [|? ? _ Hok']; subst.
      by exists w, d3, a', targets', d2, rest.
    + by destruct e.
Qed.

Lemma written_keeps a p targets d a' targets' d' x : written host package_version r a p targets d = (Ok (a', targets'), d') -> frame x d d'.
Proof.
  intros H. assert (good x [] d \/ True) as _ by by right. unfold written in H. apply bind_ok in H as (rec & d1 & [_ ->]%lift_ok & H).
  apply bind_ok in H as (warning & d2 & [_ ->]%look_ok & H). apply bind_ok in H as ([b verified] & d3 & Hc & H). apply ret_ok in H as [_ ->].
  unfold checked in Hc. destruct (verify r) as [check|] eqn:E; [|by apply ret_ok in Hc as [_ ->]].
  destruct (mem _ _); [|by apply ret_ok in Hc as [_ ->]]. pose proof (check_keeps _ _ _ (Hquiet x) check (invoke (launch r)) d E) as Hf.
  destruct (check _ d) as [[|] d4]; by injection Hc as _ _ <-.
Qed.

Lemma apply_actions_text actions : forall targets changed d acts tg ch d',
  apply_actions r (stamp_of r) actions targets changed d = (Ok (acts, tg, ch), d') -> Forall (fun a => ok a = true) acts ->
  Forall (apart r d own) actions -> ForallOrdPairs distinct actions ->
  forall a p t, a ∈ actions -> pending a = Some (p, t) ->
  exists data mode, utf8 t = Ok data /\ nodes d' !! str_path p = Some (File data mode) /\ links d' !! str_path p = None /\ fewer_links d d'.
Proof.
  induction actions as [|b actions IH]; intros targets changed d acts tg ch d' H Hok Hap Hdis a p t Ha Hp; [by apply elem_of_nil in Ha|].
  inversion Hap as [|? ? Hb Hap']; subst. inversion Hdis as [|? ? Hfst Hdis']; subst. destruct (pending b) as [[q s]|] eqn:Eb.
  - destruct (apply_first _ _ _ _ _ _ _ _ _ _ _ Eb H Hok) as (w & d1 & b' & targets' & d2 & rest & Hw & Hwr & Hr & Hok').
    assert (fewer_links d d2) as Hf2.
    { etransitivity; [eapply write_one_links; [exact Hw|by apply undisturbed_links]|]. exact (proj2 (written_keeps _ _ _ _ _ _ _ [] Hwr)). }
    assert (Forall (apart r d2 own) actions) as Hap2 by (eapply Forall_impl; [exact Hap'|]; intros c; by apply apart_links).
    apply elem_of_cons in Ha as [->|Ha].
    + rewrite Eb in Hp. injection Hp as -> ->. destruct (Hb p t Eb) as (Hl & Hao & _).
      destruct (write_one_text host Htemp _ _ _ _ _ _ _ _ Hw (undisturbed_links r Hquiet) Hl) as (data & mode & Hd & Hn).
      apply (written_keeps _ _ _ _ _ _ _ (str_path p)) in Hwr as [Hwr _]. apply Hwr in Hn.
      assert (forall d3, fewer_links d d3 -> links d3 !! str_path p = None) as Hno.
      { intros d3 H3. destruct (links d3 !! str_path p) as [y|] eqn:E; [|done]. apply H3 in E. congruence. }
      destruct (apply_actions_keeps (str_path p) d2 actions targets' true data mode Hn (Hno _ Hf2)) as [Hn' Hf'].
      * eapply Forall_impl; [exact Hao|]. intros y. by apply away_links.
      * apply Forall_forall. intros c Hc. rewrite Forall_forall in Hap2. split; [by apply Hap2|]. rewrite Forall_forall in Hfst.
        intros y z Hy. by eapply (Hfst c Hc).
      * rewrite Hr in Hn', Hf'. cbn in Hn', Hf'. exists data, mode. split; [done|]. split; [done|].
        assert (fewer_links d d') as Hf by by etransitivity. split; [by apply Hno|done].
    + destruct (IH _ _ _ _ _ _ _ Hr Hok' Hap2 Hdis' a p t Ha Hp) as (data & mode & H1 & H2 & H3 & H4). exists data, mode. repeat split; try done.
      by etransitivity.
  - cbn [Engine.apply_actions] in H. rewrite Eb in H. apply bind_ok in H as ([[rest tg'] ch'] & d1 & Hr & H). apply ret_ok in H as [[= -> -> ->] ->].
    inversion Hok as [|? ? _ Hok']; subst. apply elem_of_cons in Ha as [->|Ha]; [congruence|]. by eapply IH.
Qed.
End Actions.

Lemma own_files_own r d : let own := own_files r d in
  state_dir (layout r) ∈ own /\ backups r ∈ own /\ child (backups r) (stamp_of r) ∈ own /\ state_file (layout r) ∈ own.
Proof. cbn zeta. unfold EngineRun.own_files. repeat split; apply elem_of_app; left; by repeat constructor. Qed.

Lemma rmap_pairs {E A B} (f : A -> result E B) (P : A -> A -> Prop) (Q : B -> B -> Prop) l bs : rmap f l = Ok bs ->
  ForallOrdPairs P l -> (forall a a' b b', P a a' -> f a = Ok b -> f a' = Ok b' -> Q b b') -> ForallOrdPairs Q bs.
Proof.
  intros H Hl HQ. revert bs H. induction Hl as [|a l Ha _ IH]; intros bs; cbn; [intros [= <-]; constructor|].
  destruct (f a) as [b|] eqn:Eb; [|done]. cbn. destruct (rmap f l) as [bs'|] eqn:El; [|done]. cbn. intros [= <-]. constructor; [|by apply IH].
  apply Forall_forall. intros b' Hb'. destruct (elem_of_rmap _ _ _ _ El Hb') as (a' & Ha' & Hf'). rewrite Forall_forall in Ha. by eapply HQ; [apply (Ha a')| |].
Qed.

Lemma NoDup_pairs {A} (l : list A) : NoDup l -> ForallOrdPairs (fun a b => a <> b) l.
Proof. induction 1 as [|a l Ha _ IH]; constructor; [|done]. apply Forall_forall. intros b Hb ->. done. Qed.

Lemma rmap_elem {E A B} (f : A -> result E B) l bs a : rmap f l = Ok bs -> a ∈ l -> exists b, f a = Ok b /\ b ∈ bs.
Proof.
  revert bs. induction l as [|a' l IH]; intros bs H Ha; [by apply elem_of_nil in Ha|]. cbn in H.
  destruct (f a') as [b'|] eqn:E1; [|done]. cbn in H. destruct (rmap f l) as [bs'|]; [|done]. cbn in H. injection H as <-.
  apply elem_of_cons in Ha as [->|Ha]; [exists b'; split; [done|left]|]. destruct (IH bs' eq_refl Ha) as (b & H1 & H2). exists b. split; [done|by right].
Qed.

Lemma exit_ok acts failed : exit_code acts failed = 0 -> failed = false /\ Forall (fun a => ok a = true) acts.
Proof.
  unfold exit_code. destruct failed; [done|]. cbn [orb]. destruct (existsb _ acts) eqn:Ex; [done|]. intros _. split; [done|].
  apply Forall_forall. intros a Ha. destruct (ok a) eqn:E; [done|]. assert (existsb (fun a => negb (ok a)) acts = true) as Hx; [|congruence].
  apply existsb_exists. exists a. split; [by apply list_elem_of_In|by rewrite E].
Qed.

(** With [-y], a selection that stops the run stops it with an error. *)
Lemma select_exit r hits without d chosen code : select host repr r hits without d = Ok chosen -> assume_yes r = true ->
  exit_now chosen = Some code -> code = 1.
Proof.
  intros Hsel Hy Hc. unfold Engine.select in Hsel.
  destruct (choice repr r (hit_target <$> hits)) as [[stop|[[chosen0 said] explicitly]]|] eqn:Ech; [| |done]; cbn [rbind] in Hsel.
  - injection Hsel as <-. unfold choice in Ech. destruct (agents r); [|done]. destruct (hit_target <$> hits); [|done]. rewrite Hy in Ech.
    destruct (chooser r); injection Ech as <-; by injection Hc.
  - destruct (if mem _ chosen0 || _ then _ else _) as [installed|]; [|done]. cbn [rbind] in Hsel. destruct installed; [by injection Hsel as <-|].
    destruct (List.filter _ chosen0); injection Hsel as <-; [by injection Hc|done].
Qed.

Lemma plan_pending r hits d t a p out : plan r hits d t = Ok a -> pending a = Some (p, out) -> target a = t /\ target_path (layout r) d t = Some p.
Proof.
  intros Hpl Hp. unfold pending in Hp. destruct (after a) as [out'|] eqn:Ea; [|done].
  destruct (plan_written _ _ _ _ _ _ _ _ _ _ _ _ _ Hpl Ea) as (p0 & Hpa & Hta & Hoa & Hp0 & _). rewrite Hpa, Hoa in Hp. by injection Hp as <- _.
Qed.

(** A run with exit code 0 is its plan, applied. *)
Lemma run_parts r d txt d' hits without chosen : run r d = (Ok (txt, 0), d') -> assume_yes r = true -> dry_run r = false ->
  survey host plist names r d = Ok (hits, without) -> select host repr r hits without d = Ok chosen ->
  exists actions acts, rmap (plan r hits d) (selected chosen) = Ok actions /\ apply host now package_version r actions d = (Ok acts, d') /\
    exit_code acts (pi_failed chosen) = 0.
Proof.
  intros Hrun Hy Hdry Hsv Hsel. unfold Engine.run in Hrun. apply bind_ok in Hrun as (? & d0 & [_ ->]%lift_ok & Hrun).
  apply bind_ok in Hrun as ([hits' without'] & d1 & [Hsv' ->]%look_ok & Hrun). rewrite Hsv in Hsv'. injection Hsv' as <- <-.
  apply bind_ok in Hrun as (chosen' & d2 & [Hsel' ->]%look_ok & Hrun). rewrite Hsel in Hsel'. injection Hsel' as <-.
  destruct (exit_now chosen) as [code|] eqn:Ex.
  { apply ret_ok in Hrun as [[= _ Hz] _]. pose proof (select_exit _ _ _ _ _ _ Hsel Hy Ex). lia. }
  apply bind_ok in Hrun as (actions & d3 & [Hpl ->]%look_ok & Hrun). rewrite Hdry, Hy, andb_false_r in Hrun.
  unfold applied in Hrun. apply bind_ok in Hrun as (acts & d4 & Hap & Hrun). apply ret_ok in Hrun as [[= _ Hcode] ->]. by exists actions, acts.
Qed.

(** The planned texts are in place after the application, too, when the state has been written. *)
Lemma apply_text r d d' actions acts : let own := own_files r d in apply host now package_version r actions d = (Ok acts, d') ->
  Forall (fun a => ok a = true) acts -> undisturbed r -> Forall (apart r d own) actions -> ForallOrdPairs distinct actions ->
  forall a p t, a ∈ actions -> pending a = Some (p, t) -> exists data mode, utf8 t = Ok data /\ nodes d' !! str_path p = Some (File data mode).
Proof.
  intros own Hap Hok Hquiet Hapart Hdis a p t Ha Hp. pose proof (own_files_own r d) as Hown. fold own in Hown. cbn zeta in Hown.
  unfold Engine.apply in Hap. apply bind_ok in Hap as (state & d5 & [_ ->]%look_ok & Hap). apply bind_ok in Hap as (planned & d6 & [_ ->]%lift_ok & Hap).
  apply bind_ok in Hap as (? & d7 & [_ ->]%lift_ok & Hap). cbn beta zeta in Hap. fold (stamp_of r) in Hap.
  apply bind_ok in Hap as ([[acts' tg] ch] & d8 & Has & Hap). apply bind_ok in Hap as (? & d9 & Hst & Hap). apply ret_ok in Hap as [-> ->].
  destruct (apply_actions_text r own Hquiet Hown actions _ _ _ _ _ _ _ Has Hok Hapart Hdis a p t Ha Hp) as (data & mode & Hd & Hn & Hl & Hfl).
  exists data, mode. split; [done|]. destruct ch; [|by apply ret_ok in Hst as [_ ->]]. destruct Hown as (O1 & _ & _ & O4).
  rewrite Forall_forall in Hapart. destruct (Hapart a Ha p t Hp) as (_ & Haw & _).
  assert (good (str_path p) own d8) as Hg.
  { split; [by exists data, mode|]. split; [done|]. eapply Forall_impl; [exact Haw|]. intros q. by apply away_links. }
  assert (parent (state_file (layout r)) ∈ own) as Hpar by (unfold state_file; by rewrite (parent_child _ _ (u "install.json"))).
  destruct (keeps_write_state host (fun x => x <> str_path p) _ (frame_footprint host (str_path p) _) (state_file (layout r)) (VDict [(u "targets", VDict tg)]) O4 Hpar d8 Hg) as [[Hf _] _].
  rewrite Hst in Hf. by apply Hf.
Qed.

(** C18 A run that ends well has installed what it planned.  With [-y], no dry run and exit code 0, every
    configuration the plan of a selected target changes holds the planned text, in UTF-8, when the run
    ends: no target was skipped for the failure of another, and none was written over by one.  The
    targets are selected once, their configurations are different files that are no links and not the
    installer's own, and the other programs keep still. *)
Theorem run_installs r d txt d' hits without chosen : run r d = (Ok (txt, 0), d') -> assume_yes r = true -> dry_run r = false ->
  survey host plist names r d = Ok (hits, without) -> select host repr r hits without d = Ok chosen -> NoDup (selected chosen) -> undisturbed r ->
  (forall t p, target_path (layout r) d t = Some p -> links d !! str_path p = None /\ Forall (away (str_path p) d) (own_files r d)) ->
  (forall t p t' p', target_path (layout r) d t = Some p -> target_path (layout r) d t' = Some p' -> str_path p = str_path p' -> t = t') ->
  pi_failed chosen = false /\
  forall t, t ∈ selected chosen -> exists a, plan r hits d t = Ok a /\
    forall p out, pending a = Some (p, out) -> exists data mode, utf8 out = Ok data /\ nodes d' !! str_path p = Some (File data mode).
Proof.
  intros Hrun Hy Hdry Hsv Hsel Hnd Hquiet Hfree Hinj.
  destruct (run_parts _ _ _ _ _ _ _ Hrun Hy Hdry Hsv Hsel) as (actions & acts & Hpl & Hap & [Hpi Hok]%exit_ok). split; [done|].
  intros t Ht. destruct (rmap_elem _ _ _ _ Hpl Ht) as (a & Hplan & Ha). exists a. split; [done|]. intros p out Hp.
  apply (apply_text r d d' actions acts Hap Hok Hquiet) with (a := a); [| |done|done].
  - apply Forall_forall. intros b Hb q s Hq. destruct (elem_of_rmap _ _ _ _ Hpl Hb) as (t' & _ & Hb'). destruct (plan_pending _ _ _ _ _ _ _ Hb' Hq) as [Ht' Hp'].
    destruct (Hfree t' q Hp') as [F1 F2]. split; [done|]. split; [done|]. rewrite Ht'. unfold EngineRun.own_files. apply elem_of_app. right.
    apply list_elem_of_omap. exists t'. rewrite Hp'. split; [by eapply target_path_targets|done].
  - apply (rmap_pairs _ (fun a b => a <> b) _ _ _ Hpl); [by apply NoDup_pairs|]. intros t1 t2 b1 b2 Hne H1 H2 q1 s1 q2 s2 E1 E2 Eq.
    destruct (plan_pending _ _ _ _ _ _ _ H1 E1) as [_ P1]. destruct (plan_pending _ _ _ _ _ _ _ H2 E2) as [_ P2]. apply Hne. symmetry. by eapply Hinj.
Qed.
End Run.

(** ** The samples *)
(** Different targets have different configurations, when the texts of their paths are different. *)
Lemma apart_by_text l d :
  forallb (fun t => forallb (fun t' => bool_decide (t = t') || match target_path l d t, target_path l d t' with
    | Some p, Some p' => negb (bool_decide (str_path p = str_path p'))
    | _, _ => true
    end) TARGETS) TARGETS = true ->
  forall t p t' p', target_path l d t = Some p -> target_path l d t' = Some p' -> str_path p = str_path p' -> t = t'.
Proof.
  intros H t p t' p' Hp Hp' E. rewrite forallb_forall in H. specialize (H t (proj1 (list_elem_of_In _ _) (target_path_targets _ _ _ _ Hp))).
  rewrite forallb_forall in H. specialize (H t' (proj1 (list_elem_of_In _ _) (target_path_targets _ _ _ _ Hp'))).
  rewrite Hp, Hp', (bool_decide_eq_true_2 _ E), orb_false_r in H. by apply bool_decide_eq_true_1 in H.
Qed.

Definition sample_agents : list text := [u "cursor"; u "omp"].
Definition sample_both : Request := sample_request sample_agents false true.
Definition sample_before : list Z := or_else (bytes_of (sample_disk no_servers) "/h/.cursor/mcp.json") [].
Definition sample_action : Action :=
  {| target := u "cursor"; path := Some (cursor_file (layout sample_both)); kind := Add; message := []; overwrite := false; ok := true;
     before := Some sample_before; after := Some (u "{}"); entry := None; literal := false; diff := [] |}.

(** Cursor's configuration replaced by [{}], with what it was in the backup; a moment later, when it holds
    other bytes, the same action is refused. *)
Lemma write_one_guarded_witness :
  let d := sample_disk no_servers in let p := cursor_file (layout sample_both) in
  let d' := (write_one sample_host sample_both sample_action p (u "{}") (u "S") d).2 in
  (exists mode, nodes d' !! u "/h/.cursor/mcp.json" = Some (File [123; 125] mode)) /\
  nodes d' !! u "/h/.local/state/jev-mcp/backups/S/cursor.json" = Some (File sample_before (octal 6 0 0)) /\
  exists msg, write_one sample_host sample_both sample_action p (u "{}") (u "S") d' = (Raise (ConfigChangedError msg), d').
Proof.
  cbn zeta. set (d := sample_disk no_servers). set (p := cursor_file (layout sample_both)).
  set (ran := write_one sample_host sample_both sample_action p (u "{}") (u "S") d).
  assert (ran.1 = Ok tt) as Hok by (vm_compute; reflexivity).
  assert (read_bytes sample_host p ran.2 = Ok (Some [123; 125])) as Hafter by (vm_compute; reflexivity).
  assert (ran = (Ok tt, ran.2)) as Hw by (rewrite <- Hok; by destruct ran).
  pose proof (write_one_guarded sample_host ltac:(done) sample_both sample_action p (u "{}") (u "S")) as Hall.
  destruct (Hall d) as [H1 _].
  destruct (H1 tt ran.2 Hw (sample_others _ _ _ _) ltac:(by vm_compute)) as (_ & (data & mode & Hd & Hn) & Hb).
  vm_compute in Hd. injection Hd as <-. split; [exact (ex_intro _ mode Hn)|]. split.
  - exact (Hb sample_before eq_refl eq_refl ltac:(done) (sample_others _ _ _ _)).
  - destruct (Hall ran.2) as (_ & H2 & _). apply (H2 (Some [123; 125]) Hafter). intros E. by vm_compute in E.
Defined.

Definition sample_hits : list Hit :=
  match survey (U := ascii_unicode) sample_host (fun _ => None) (fun _ _ => []) sample_both (sample_disk no_servers) with Ok (hits, _) => hits | Raise _ => [] end.
Definition sample_planned (t : text) : result Exn Action :=
  plan (U := ascii_unicode) sample_host sample_toml (fun _ => None) (fun _ _ => []) [u "jev_review"] (fun t => t) (fun _ _ _ => [])
    sample_both sample_hits (sample_disk no_servers) t.

(** A run for two agents: both configurations hold what was planned. *)
Lemma run_installs_witness :
  let d' := (sample_run sample_both (sample_disk no_servers)).2 in
  Forall (fun t => exists a p out data mode, sample_planned t = Ok a /\ pending a = Some (p, out) /\
    utf8 out = Ok data /\ nodes d' !! str_path p = Some (File data mode)) sample_agents.
Proof.
  cbn zeta. set (d := sample_disk no_servers). apply Forall_forall. intros t Ht.
  assert (forallb (fun t => match sample_planned t with Ok a => negb (is_none (pending a)) | Raise _ => false end) sample_agents = true) as Hpend by by vm_compute.
  rewrite forallb_forall in Hpend. specialize (Hpend t (proj1 (list_elem_of_In _ _) Ht)).
  assert (match (sample_run sample_both d).1 with Ok (_, code) => code | Raise _ => -1 end = 0) as Hcode by (vm_compute; reflexivity).
  destruct (sample_run sample_both d) as [[[txt code]|e] d'] eqn:Hrun; cbn in Hcode; [|discriminate Hcode]. subst code.
  destruct (survey (U := ascii_unicode) sample_host (fun _ => None) (fun _ _ => []) sample_both d) as [[hits without]|] eqn:Hsv; [|by vm_compute in Hsv].
  assert (hits = sample_hits) as -> by (unfold sample_hits; fold d; by rewrite Hsv).
  assert (match select sample_host (fun t => t) sample_both sample_hits without d with Ok chosen => selected chosen = sample_agents | Raise _ => False end) as Hs
    by (clear Hpend; vm_compute in Hsv; injection Hsv as <-; by vm_compute).
  destruct (select sample_host (fun t => t) sample_both sample_hits without d) as [chosen|] eqn:Hsel; [|done].
  destruct (run_installs (U := ascii_unicode) sample_host sample_toml (fun _ => None) (fun _ _ => []) [u "jev_review"] (fun t => t) (fun _ _ _ => []) (u "now") None
    ltac:(done) sample_both d txt d' sample_hits without chosen Hrun eq_refl eq_refl Hsv Hsel) as [_ Hall].
  - rewrite Hs. apply (bool_decide_eq_true_1 (NoDup sample_agents)). by vm_compute.
  - intros x. apply sample_others. apply _.
  - intros t' p' Hp.
    assert (is_none (links d !! str_path p') && forallb (away_b (str_path p') d) (own_files (u "now") sample_both d) = true) as Hb
      by (revert t' p' Hp; apply targets_all; by vm_compute).
    apply andb_prop in Hb as [Hl%is_none_value Ha]. split; [done|by apply away_all].
  - apply apart_by_text. by vm_compute.
  - rewrite <- Hs in Ht. destruct (Hall t Ht) as (a & Ha & Hp). change (sample_planned t = Ok a) in Ha. rewrite Ha in Hpend.
    destruct (pending a) as [[p out]|] eqn:E; [|discriminate Hpend]. destruct (Hp p out eq_refl) as (data & mode & Hd & Hn). exists a, p, out, data, mode. exact (conj Ha (conj E (conj Hd Hn))).
Defined.
