(* ===== verification/Http.v ===== *)
(** * What the providers read of a reply

    The shared reading of [providers/base.py] and [providers/retry.py]: a body as text and as JSON, the
    request id, the error type and the [Retry-After] hint of a response, and the error of a status.
    The dates of the hint and the clock they are compared with are parameters; so are the digits of
    scripts other than Latin that [float] takes. *)
From S2P Require Import Prelude Float64 Text Json Serialize PyStrings JsonText Utf8 Runtime Retry Provider.
Open Scope Z_scope.

(** ** Bodies *)
Definition decode_text (content : list Z) : text := removeprefix [0xFEFF] (decode_replace content).

(** [json.loads] with the hooks of [decode_json]: no [NaN] or infinity, and an integer of any length. *)
Definition json_constants : list (text * value) := [(u "null", VNone); (u "true", VBool true); (u "false", VBool false)].

Definition parse_int (n : number) : result DecodeError value :=
  match number_value n with
  | Raise IntTooLong =>
    let x := decimal_value (int_of_digits (whole n)) 0 in Ok (VFloat (if negative n then SFopp x else x))
  | r => r
  end.

Definition json_atom (l : text) : result DecodeError (value * text) :=
  match List.find (fun k => starts_with k.1 l) json_constants with
  | Some (k, v) => Ok (v, drop (length k) l)
  | None =>
    match scan_number l with
    | Some (n, r) => let? v := parse_int n in Ok (v, r)
    | None => fails "Expecting value"
    end
  end.

(** [None]: [ValueError]. *)
Definition decode_json (t : text) : option value :=
  match JsonText.decode last_wins json_atom t with Ok v => Some v | Raise _ => None end.

Definition decode_body (content : list Z) : option value := decode_json (decode_text content).

(** The request body. *)
Definition encode_json (v : value) : list Z := encode (stringify_compact v).

(** ** Errors *)
Definition ERROR_BODY_UNITS : Z := 200.

(** [_ERROR_TYPE]. *)
Definition error_type_ok (t : text) : bool :=
  match t with
  | c :: t => (97 <=? c) && (c <=? 122) && (length t <=? 63)%nat
    && forallb (fun c => ((97 <=? c) && (c <=? 122)) || is_digit c || (c =? 95)) t
  | [] => false
  end.

Definition object_of (v : value) : dict value := match v with VDict d => d | _ => [] end.

Definition upstream_error_type (body : text) : option text :=
  match decode_json body with
  | None => None
  | Some parsed =>
    match get (u "error_type") (object_of (get (u "detail") (object_of parsed))) with
    | VStr t => if error_type_ok t then Some t else None
    | _ => None
    end
  end.

Section Errors.
Context (label : text) (redact : text -> text).

(** [_status_error] of a number, and of the state of a run. *)
Definition status_error (status : Z) (body : text) (retry_after : option float) : SendError :=
  SendProvider (label ++ u " " ++ str_of_Z status ++ u ": " ++ Utf16.head (redact body) ERROR_BODY_UNITS) (Some status) retry_after
    (upstream_error_type body).
Definition state_error (status body : text) : SendError :=
  SendProvider (label ++ u " " ++ status ++ u ": " ++ Utf16.head (redact body) ERROR_BODY_UNITS) None None None.
End Errors.

(** ** Headers *)
Definition Headers := list (text * text).
Record HttpResponse := { status_code : Z; headers : Headers; content : list Z }.
Definition is_success (r : HttpResponse) : bool := (200 <=? status_code r) && (status_code r <=? 299).

Section Reply.
Context {U : Unicode} (decimal : Z -> option Z) (parsedate : text -> option float) (time : float).

Definition header (name : text) (hs : Headers) : option text :=
  snd <$> List.find (fun kv => bool_decide (uni_lower kv.1 = name)) hs.

Definition REQUEST_ID_HEADERS : list text := [u "x-request-id"; u "request-id"; u "x-typesafe-request-id"].

Definition header_request_id (hs : Headers) : option text :=
  List.hd_error (omap (fun name => snd <$> List.find (fun kv => bool_decide (uni_lower kv.1 = name) && negb (bool_decide (kv.2 = []))) hs) REQUEST_ID_HEADERS).

(** [envelope.request_id or request_id_of({}, headers)]. *)
Definition reply_request_id (e : Envelope) (hs : Headers) : option text :=
  match env_request_id e with Some id => Some id | None => header_request_id hs end.

(** *** [float(t)] *)
(** Digits with single underscores between them. *)
Fixpoint more_digits (l : text) : text * text :=
  match l with
  | c :: l1 =>
    if is_digit c then let (ds, r) := more_digits l1 in (c :: ds, r)
    else
      match l1 with
      | d :: _ => if (c =? 95) && is_digit d then more_digits l1 else ([], l)
      | [] => ([], l)
      end
  | [] => ([], l)
  end.
Definition digit_part (l : text) : text * text :=
  match l with c :: _ => if is_digit c then more_digits l else ([], l) | [] => ([], l) end.

Definition sign_of (l : text) : bool * text :=
  match l with c :: l' => if c =? 43 then (false, l') else if c =? 45 then (true, l') else (false, l) | [] => (false, l) end.

Definition exponent_of (l : text) : option (Z * text) :=
  match l with
  | c :: l1 =>
    if (c =? 101) || (c =? 69) then
      let (minus, l2) := sign_of l1 in
      match digit_part l2 with
      | ([], _) => None
      | (ds, r) => Some ((if minus then -1 else 1) * int_of_digits ds, r)
      end
    else Some (0, l)
  | [] => Some (0, l)
  end.

Definition decimal_text (t : text) : option float :=
  let (whole, r) := digit_part t in
  let (fraction, r) := match r with c :: r' => if c =? 46 then digit_part r' else ([], r) | [] => ([], r) end in
  match whole ++ fraction with
  | [] => None
  | ds =>
    match exponent_of r with
    | Some (e, []) => Some (decimal_value (int_of_digits ds) (e - Z.of_nat (length fraction)))
    | _ => None
    end
  end.

Definition as_ascii (t : text) : text :=
  (fun c => if is_ascii c then c else match decimal c with Some d => 48 + d | None => if is_space c then 32 else c end) <$> t.

Definition py_float (t : text) : option float :=
  let (minus, l) := sign_of (strip (as_ascii t)) in
  let signed x := if minus : bool then SFopp x else x in
  let word := ascii_lower_text l in
  if mem word [u "inf"; u "infinity"] then Some (signed f_inf)
  else if bool_decide (word = u "nan") then Some S754_nan
  else signed <$> decimal_text l.

(** *** [Retry-After] *)
Definition finite_seconds (raw : text) (multiplier : float) : option float :=
  match py_float (strip raw) with
  | Some x => if negb (is_finite x) || fltb x f_zero then None else Some (fmul x multiplier)
  | None => None
  end.

(** [None] of [parsedate] is a text that is no date. *)
Definition retry_after_seconds (hs : Headers) : option float :=
  let hint name multiplier := match header name hs with Some raw => finite_seconds raw multiplier | None => None end in
  match hint (u "retry-after-ms") (f_ratio 1 1000) with
  | Some seconds => Some seconds
  | None =>
    match hint (u "retry-after") f_one with
    | Some seconds => Some seconds
    | None =>
      match header (u "retry-after") hs with
      | Some raw => (fun timestamp => py_max f_zero (fsub timestamp time)) <$> parsedate (strip raw)
      | None => None
      end
    end
  end.

(** [_error]. *)
Definition response_error (label : text) (redact : text -> text) (r : HttpResponse) : SendError :=
  status_error label redact (status_code r) (decode_text (content r)) (retry_after_seconds (headers r)).
End Reply.

Example floats : (py_float (fun _ => None) <$> [u " 1.5 "; u "-1_0e-1"; u "+.5"; u "1."; u "iNF"; u "1__0"; u "."; u "1e"; u "0x1"; []])
  = [Some (f_ratio 3 2); Some (f_of_Z (-1)); Some (f_ratio 1 2); Some f_one; Some f_inf; None; None; None; None; None].
Proof. vm_compute. reflexivity. Qed.
Example decodes : (decode_json <$> [u "[1, true]"; u "NaN"; u "-Infinity"; u "1e999"; u "{" ++ dq ++ dq ++ u ":0," ++ dq ++ dq ++ u ":1}"])
  = [Some (VList [VInt 1; VBool true]); None; None; Some (VFloat f_inf); Some (VDict [([], VInt 1)])].
Proof. vm_compute. reflexivity. Qed.

(** ** What a decoded body is *)
Definition atomic (v : value) : Prop := match v with VList _ | VDict _ => False | _ => True end.

Lemma json_atom_Ok l v r : json_atom l = Ok (v, r) ->
  atomic v /\ ((exists k, (k, v) ∈ json_constants /\ starts_with k l = true /\ r = drop (length k) l) \/ exists n, scan_number l = Some (n, r)).
Proof.
  unfold json_atom. destruct (List.find _ json_constants) as [[k w]|] eqn:Ef.
  - intros [= -> <-]. apply List.find_some in Ef as [Hin Hs]. apply list_elem_of_In in Hin. split; [|left; by exists k].
    unfold json_constants in Hin. set_unfold in Hin. by destruct Hin as [[= _ ->]|[[= _ ->]|[[= _ ->]|[]]]].
  - destruct (scan_number l) as [[n r']|]; [|done]. intros (w & Hw & [= -> ->])%rbind_Ok. split; [|right; by exists n].
    unfold parse_int in Hw. destruct (number_value n) as [w|[]] eqn:En; try done.
    + injection Hw as ->. unfold number_value in En. destruct (fraction n), (exponent n); try (by injection En as <-).
      destruct (_ <? _)%nat; [done|]. by injection En as <-.
    + by injection Hw as <-.
Qed.

Lemma json_atom_not_stuck l : json_atom l <> Raise Stuck.
Proof.
  unfold json_atom. destruct (List.find _ json_constants) as [[k w]|]; [done|]. destruct (scan_number l) as [[n r]|]; [|done].
  apply rbind_not; [|done]. unfold parse_int, number_value. destruct (fraction n), (exponent n); try done. by destruct (_ <? _)%nat.
Qed.

Lemma json_atom_shorter l v r : json_atom l = Ok (v, r) -> (length r < length l)%nat.
Proof.
  intros [_ [(k & Hk & Hs & ->)|(n & Hn)]]%json_atom_Ok.
  - apply starts_with_spec in Hs as (r & ->). rewrite drop_app_length, length_app.
    assert (forallb (fun kv => 0 <? length kv.1)%nat json_constants = true) as Hall by reflexivity. rewrite forallb_forall in Hall.
    specialize (Hall _ (proj1 (list_elem_of_In _ _) Hk)). apply Nat.ltb_lt in Hall. cbn in Hall. lia.
  - apply scan_number_sound in Hn as (-> & _ & (c & x & -> & _) & _). rewrite length_app. cbn. lia.
Qed.

(** The fuel of the scanner is enough: a body is refused for its text alone. *)
Lemma decode_json_total t : JsonText.decode last_wins json_atom t <> Raise Stuck.
Proof. apply decode_not_stuck; [apply json_atom_not_stuck|apply json_atom_shorter]. Qed.

Lemma dset_values {A} (P : A -> Prop) k v d : P v -> Forall (fun kv => P kv.2) d -> Forall (fun kv => P kv.2) (dset k v d).
Proof. intros Hv. induction 1 as [|[k' v'] d Hp Hd IH]; cbn; [by repeat constructor|]. case_bool_decide; by constructor. Qed.

Lemma wf_list l : wf_value (VList l) <-> Forall wf_value l.
Proof. cbn. induction l as [|v l IH]; cbn; [by split|]. by rewrite Forall_cons, IH. Qed.
Lemma wf_dict d : wf_value (VDict d) <-> NoDup (dkeys d) /\ Forall (fun kv => wf_value kv.2) d.
Proof.
  cbn [wf_value]. assert (fold_right (fun kv P => wf_value kv.2 /\ P) True d <-> Forall (fun kv => wf_value kv.2) d) as ->; [|done].
  induction d as [|kv d IH]; cbn; [by split|]. by rewrite Forall_cons, IH.
Qed.

Lemma last_wins_wf kvs : Forall (fun kv => wf_value kv.2) kvs -> wf_value (last_wins kvs).
Proof.
  intros H. apply wf_dict. split; [apply NoDup_dmerge, NoDup_nil_2|]. unfold dmerge.
  assert (forall d, Forall (fun kv => wf_value kv.2) d -> Forall (fun kv => wf_value kv.2) (fold_left (fun acc kv => dset kv.1 kv.2 acc) kvs d)) as Hg; [|by apply Hg].
  induction H as [|kv kvs Hv _ IH]; intros d Hd; [done|]. cbn. by apply IH, dset_values.
Qed.

Lemma scan_wf fuel :
  (forall l v r, scan last_wins json_atom fuel l = Ok (v, r) -> wf_value v) /\
  (forall l vs r, scan_elements last_wins json_atom fuel l = Ok (vs, r) -> Forall wf_value vs) /\
  (forall l kvs r, scan_members last_wins json_atom fuel l = Ok (kvs, r) -> Forall (fun kv => wf_value kv.2) kvs).
Proof.
  induction fuel as [|fuel (IHv & IHe & IHm)]; [done|]. repeat split; intros l.
  - intros v r. cbn [scan]. destruct l as [|c l1]; [done|]. destruct (c =? 34); [by intros ([t r'] & _ & [= <- _])%rbind_Ok|].
    destruct (c =? 123); [|destruct (c =? 91)].
    + destruct (skip_ws l1) as [|d r']; [done|]. destruct (d =? 125); [intros [= <- _]; by apply last_wins_wf|].
      intros ([kvs r''] & H & [= <- _])%rbind_Ok. apply last_wins_wf. by eapply IHm.
    + destruct (skip_ws l1) as [|d r']; [done|]. destruct (d =? 93); [by intros [= <- _]|].
      intros ([vs r''] & H & [= <- _])%rbind_Ok. apply wf_list. by eapply IHe.
    + intros [Ha _]%json_atom_Ok. by destruct v.
  - intros vs r. cbn [scan_elements]. intros ([v l1] & Hv%IHv & H)%rbind_Ok. destruct (skip_ws l1) as [|d l2]; [done|].
    destruct (d =? 93); [injection H as <- _; by constructor|]. destruct (d =? 44); [|done].
    apply rbind_Ok in H as ([vs' r'] & H%IHe & [= <- _]). by constructor.
  - intros kvs r. cbn [scan_members]. destruct l as [|q l1]; [done|]. destruct (negb (q =? 34)); [done|].
    intros ([k l2] & _ & H)%rbind_Ok. destruct (skip_ws l2) as [|x l3]; [done|].
    destruct (negb (x =? 58)); [done|]. apply rbind_Ok in H as ([v l4] & Hv%IHv & H).
    destruct (skip_ws l4) as [|d l5]; [done|]. destruct (d =? 125); [injection H as <- _; by repeat constructor|].
    destruct (d =? 44); [|done]. apply rbind_Ok in H as ([kvs' r'] & H%IHm & [= <- _]). by constructor.
Qed.

(** What [decode_json] reads has distinct keys at every depth. *)
Lemma decode_json_wf t v : decode_json t = Some v -> wf_value v.
Proof.
  unfold decode_json, JsonText.decode. destruct (bool_decide _); [done|]. destruct (scan last_wins json_atom _ _) as [[w r]|e] eqn:E; [|done].
  cbn [rbind]. destruct (skip_ws r); [|done]. intros [= <-]. by eapply scan_wf.
Qed.

Lemma object_of_wf v : wf_value v -> wf_value (VDict (object_of v)).
Proof. destruct v; try (intros _; by repeat constructor). done. Qed.

