(* ===== verification/Adapters.v ===== *)
(** * The provider clients

    Models the [_send] of the four adapters ([providers/compatible.py], [providers/openrouter.py],
    [providers/cloudflare.py], [providers/typesafe.py]) and the client they share
    ([HttpProvider] of [providers/base.py]): every request of a chain of redirects passes the hook that
    keeps to the origin of the first.  The network, the parser of URLs and the SDK are parameters. *)
From S2P Require Import Prelude Float64 Json Serialize PyStrings JsonText Runtime Retry Provider Http.
Open Scope Z_scope.

(** ** Requests and the client *)
Record Url := { url_scheme : text; url_host : text; url_port : option Z }.
Definition Origin : Type := text * text * Z.

Definition DEFAULT_PORTS : dict Z := [(u "http", 80); (u "https", 443)].
Definition origin_of (url : Url) : Origin :=
  (url_scheme url, url_host url,
   match url_port url with
   | Some n => if n =? 0 then or_else (dget (url_scheme url) DEFAULT_PORTS) 0 else n
   | None => or_else (dget (url_scheme url) DEFAULT_PORTS) 0
   end).

Record HttpRequest := { rq_url : Url; rq_headers : dict text; rq_body : list Z }.

(** What comes of a request: a reply, the request that follows a redirect, or a failure, of which the end
    of the attempt's time is one. *)
Inductive Hop := Answer (r : HttpResponse) | Redirect (next : HttpRequest) | Failed (e : SendError).

(** The network answers to all that was sent so far. *)
Record Net := { hop : list HttpRequest -> Hop; max_redirects : nat }.

(** A client: the origin it keeps to, and what it sent. *)
Record Client := { origin : option Origin; sent : list HttpRequest }.
Definition fresh : Client := {| origin := None; sent := [] |}.

(** A step of a client. *)
Definition C (A : Type) : Type := Client -> result SendError A * Client.
Definition cret {A} (a : A) : C A := fun c => (Ok a, c).
Definition craise {A} (e : SendError) : C A := fun c => (Raise e, c).
Definition cbind {A B} (m : C A) (f : A -> C B) : C B :=
  fun c => match m c with (Ok a, c) => f a c | (Raise e, c) => (Raise e, c) end.
Notation "'let+' x := m 'in' k" := (cbind m (fun x => k)) (at level 200, x name, m at level 100, k at level 200) : client_scope.
#[local] Open Scope client_scope.

Module Compatible.
Definition label : text := u "Jev-compatible endpoint".
End Compatible.

Module OpenRouter.
Definition label : text := u "OpenRouter decisions API".
Definition URL : text := u "https://openrouter.ai/api/alpha/decisions".
Definition LATEST : text := u "jev-1.13".
Definition TITLE : text := u "jev-mcp".
Definition REFERER : text := u "https://github.com/PyModel/jev-judge-mcp".
End OpenRouter.

Module Cloudflare.
Definition label : text := u "Cloudflare AI run".
Definition url (account_id : text) : text := u "https://api.cloudflare.com/client/v4/accounts/" ++ account_id ++ u "/ai/run".
End Cloudflare.

Module TypeSafe.
Definition label : text := u "TypeSafe API".
End TypeSafe.

Section Send.
Context {U : Unicode} (decimal : Z -> option Z) (parsedate : text -> option float) (time : float)
  (parse_url : text -> result SendError Url) (netloc : text -> result SendError text) (net : Net) (redact : text -> text).

Definition blocked (label : text) : SendError :=
  SendProvider (label ++ u " request failed: a redirect left the configured origin and was blocked") None None None.

(** [_reject_cross_origin]. *)
Definition reject_cross_origin (label : text) (rq : HttpRequest) : C unit := fun c =>
  let o := origin_of (rq_url rq) in
  match origin c with
  | None => (Ok tt, {| origin := Some o; sent := sent c |})
  | Some o' => if bool_decide (o = o') then (Ok tt, c) else (Raise (blocked label), c)
  end.

Definition transmit (rq : HttpRequest) : C Hop := fun c =>
  let c := {| origin := origin c; sent := sent c ++ [rq] |} in (Ok (hop net (sent c)), c).

(** The hook runs before every request of a chain. *)
Definition dispatch (label : text) (rq : HttpRequest) : C Hop := let+ _ := reject_cross_origin label rq in transmit rq.

(** The client's chain of redirects. *)
Fixpoint follow (redirects : nat) (label : text) (rq : HttpRequest) : C HttpResponse :=
  let+ reply := dispatch label rq in
  match reply with
  | Answer r => cret r
  | Failed e => craise e
  | Redirect next =>
    match redirects with
    | O => craise (SendOther (u "Exceeded maximum allowed redirects.") (u "TooManyRedirects"))
    | S redirects => follow redirects label next
    end
  end.

Definition post (label url : text) (headers : dict text) (body : value) : C HttpResponse :=
  match parse_url url with
  | Raise e => craise e
  | Ok url => follow (max_redirects net) label
      {| rq_url := url; rq_headers := dset (u "Content-Type") (u "application/json") headers; rq_body := encode_json body |}
  end.

Definition refuse_credentials_in_url (url label : text) : C unit :=
  match netloc url with
  | Raise e => craise e
  | Ok loc =>
    if mem 64 loc then craise (SendProvider (label ++ u " request failed: Request cannot be constructed from a URL that includes credentials") None None None)
    else cret tt
  end.

(** A provider error of the envelope, as the attempt raises it. *)
Definition envelope (body : value) (label : text) : C Envelope := fun c =>
  match parse_envelope body label with
  | Ok e => (Ok e, c)
  | Raise (ProviderError m _ _) => (Raise (SendProvider m None None None), c)
  | Raise _ => (Raise (SendOther [] []), c)
  end.

Definition json_or (default : value) (v : option value) : value := or_else v default.
Definition bearer (key : text) : dict text := [(u "Authorization", u "Bearer " ++ key)].
Definition error_of (label : text) (r : HttpResponse) : SendError := response_error decimal parsedate time label redact r.

Definition evaluation (name model : text) (e : Envelope) (hs : Headers) : Evaluation :=
  {| answers := env_answers e; usage := env_usage e; ev_provider := name; ev_model := model; request_id := reply_request_id e hs |}.

Definition call_body (model : text) (state questions : value) : value :=
  VDict [(u "model", VStr model); (u "state", state); (u "questions", questions)].

(** ** [compatible] *)
Definition send_compatible (api_key base_url : text) (state questions : value) (model : text) : C Evaluation :=
  let label := Compatible.label in
  let+ _ := refuse_credentials_in_url base_url label in
  let+ response := post label base_url (bearer api_key) (call_body model state questions) in
  if negb (is_success response) then craise (error_of label response)
  else
    let+ e := envelope (json_or VNone (decode_body (content response))) label in
    cret (evaluation (u "compatible") (model_or e model) e (headers response)).

(** ** [openrouter] *)
Definition openrouter_slug (model : text) : text :=
  let effective := if bool_decide (model = u "jev-latest") then OpenRouter.LATEST else model in
  if starts_with (u "typesafe/") effective then effective else u "typesafe/" ++ effective.

Definition send_openrouter (api_key : text) (state questions : value) (model : text) : C Evaluation :=
  let label := OpenRouter.label in
  let slug := openrouter_slug model in
  let hs := bearer api_key ++ [(u "HTTP-Referer", OpenRouter.REFERER); (u "X-Title", OpenRouter.TITLE); (u "X-OpenRouter-Title", OpenRouter.TITLE)] in
  let+ response := post label OpenRouter.URL hs (call_body slug state questions) in
  if negb (is_success response) then craise (error_of label response)
  else
    let+ e := envelope (json_or VNone (decode_body (content response))) label in
    cret (evaluation (u "openrouter") slug e (headers response)).

(** ** [cloudflare] *)
Definition cloudflare_slug (model : text) : text :=
  if starts_with (u "typesafe/") model then model
  else u "typesafe/" ++ (if bool_decide (model = u "jev-latest") then u "jev" else model).

(** [{} if parsed is None else parsed]. *)
Definition or_empty (body : value) : value := match body with VNone => VDict [] | _ => body end.

(** [record.get("success") is False]. *)
Definition denied (record : dict value) : bool := match get (u "success") record with VBool false => true | _ => false end.

(** The payload inside the envelope: [result.result], [result] or the body; a run that is not completed
    is its state. *)
Definition cloudflare_payload (body : value) : text + value :=
  match get (u "result") (object_of body) with
  | VDict outer =>
    let payload := match get (u "result") outer with VNone => VDict outer | inner => inner end in
    match get (u "state") outer with
    | VStr state => if bool_decide (state = u "Completed") then inr payload else inl state
    | _ => inr payload
    end
  | VNone => inr body
  | outer => inr outer
  end.

Definition send_cloudflare (api_token account_id : text) (state questions : value) (model : text) : C Evaluation :=
  let label := Cloudflare.label in
  let slug := cloudflare_slug model in
  let+ response := post label (Cloudflare.url account_id) (bearer api_token)
    (VDict [(u "model", VStr slug); (u "input", VDict [(u "state", state); (u "questions", questions)])]) in
  let body := or_empty (json_or VNone (decode_body (content response))) in
  let record := object_of body in
  let errors := get (u "errors") record in
  if negb (is_success response) || denied record then
    craise (status_error label redact (status_code response)
      (stringify_compact (match errors with VNone => body | _ => errors end)) (retry_after_seconds decimal parsedate time (headers response)))
  else
    match cloudflare_payload body with
    | inl run_state =>
      craise (state_error label redact (u "state " ++ run_state) (stringify_compact (match errors with VNone => VList [] | _ => errors end)))
    | inr payload =>
      let+ e := envelope payload label in
      cret (evaluation (u "cloudflare") (model_or e slug) e (headers response))
    end.

(** ** [typesafe]: through the SDK, over the client with the same hook *)
Inductive SdkReply :=
| SdkBody (content : list Z) (hs : Headers)
| SdkStatus (status : Z) (body : value) (retry_after_ms : option float)      (* TypeSafeAPIError *)
| SdkConnection (timed_out : bool) (m : text) (cause : option (text * text)) (raised : SendError)
    (* TypeSafeAPIConnectionError: its text, the message and type of its cause, and how it is classified *)
| SdkOther (e : SendError).

Definition body_text (body : value) : text :=
  match body with VNone => [] | VStr t => t | _ => stringify_compact body end.

Definition missing_sdk : SendError :=
  SendProvider (u "The typesafe provider needs the typesafe-sdk package: install jev-judge-mcp[typesafe].") None None None.

(** [system_one]: the SDK's call, over the client. *)
Definition send_typesafe (sdk_importable : bool) (system_one : value -> value -> text -> C SdkReply) (base_url : option text)
    (state questions : value) (model : text) : C Evaluation :=
  let label := TypeSafe.label in
  let+ _ := match base_url with Some url => refuse_credentials_in_url url label | None => cret tt end in
  if negb sdk_importable then craise missing_sdk
  else
    let+ reply := system_one state questions model in
    match reply with
    | SdkStatus status body ms =>
      craise (status_error label redact status (body_text body) ((fun x => fdiv x (f_of_Z 1000)) <$> ms))
    | SdkConnection timed_out m cause raised =>
      match cause with
      | Some ([], type_name) =>
        if timed_out then craise raised else craise (SendConnection (label ++ u " request failed: " ++ m ++ type_name))
      | _ => craise raised
      end
    | SdkOther e => craise e
    | SdkBody bytes hs =>
      let+ e := envelope (json_or VNone (decode_body bytes)) label in
      cret (evaluation (u "typesafe") model e hs)
    end.

(** ** A provider *)
Inductive Provider :=
| CompatibleProvider (api_key base_url : text)
| OpenRouterProvider (api_key : text)
| CloudflareProvider (api_token account_id : text).

Definition send (p : Provider) : value -> value -> text -> C Evaluation :=
  match p with
  | CompatibleProvider api_key base_url => send_compatible api_key base_url
  | OpenRouterProvider api_key => send_openrouter api_key
  | CloudflareProvider api_token account_id => send_cloudflare api_token account_id
  end.

Definition provider_label (p : Provider) : text :=
  match p with
  | CompatibleProvider _ _ => Compatible.label
  | OpenRouterProvider _ => OpenRouter.label
  | CloudflareProvider _ _ => Cloudflare.label
  end.
(** Where it sends, and the headers that carry its credential. *)
Definition endpoint (p : Provider) : text :=
  match p with
  | CompatibleProvider _ base_url => base_url
  | OpenRouterProvider _ => OpenRouter.URL
  | CloudflareProvider _ account_id => Cloudflare.url account_id
  end.
Definition provider_headers (p : Provider) : dict text :=
  match p with
  | CompatibleProvider key _ | CloudflareProvider key _ => bearer key
  | OpenRouterProvider key => bearer key ++ [(u "HTTP-Referer", OpenRouter.REFERER); (u "X-Title", OpenRouter.TITLE); (u "X-OpenRouter-Title", OpenRouter.TITLE)]
  end.
(** The model it asks for. *)
Definition slug (p : Provider) (model : text) : text :=
  match p with
  | CompatibleProvider _ _ => model
  | OpenRouterProvider _ => openrouter_slug model
  | CloudflareProvider _ _ => cloudflare_slug model
  end.
Definition provider_body (p : Provider) (state questions : value) (model : text) : value :=
  match p with
  | CloudflareProvider _ _ => VDict [(u "model", VStr (slug p model)); (u "input", VDict [(u "state", state); (u "questions", questions)])]
  | _ => call_body (slug p model) state questions
  end.
Definition provider_name (p : Provider) : text :=
  match p with
  | CompatibleProvider _ _ => u "compatible"
  | OpenRouterProvider _ => u "openrouter"
  | CloudflareProvider _ _ => u "cloudflare"
  end.
(** What of a decoded body holds the answers. *)
Definition provider_payload (p : Provider) (body : value) : text + value :=
  match p with
  | CloudflareProvider _ _ => cloudflare_payload (or_empty body)
  | _ => inr body
  end.
(** The model it reports. *)
Definition reported (p : Provider) (model : text) (e : Envelope) : text :=
  match p with
  | OpenRouterProvider _ => slug p model
  | _ => model_or e (slug p model)
  end.

(** ** What one send does *)
Lemma cbind_Ok {A B} (m : C A) (f : A -> C B) c b c' : cbind m f c = (Ok b, c') -> exists a c1, m c = (Ok a, c1) /\ f a c1 = (Ok b, c').
Proof. unfold cbind. destruct (m c) as [[a|e] c1]; [|done]. intros H. by exists a, c1. Qed.

Lemma envelope_Ok body label c e c' : envelope body label c = (Ok e, c') -> parse_envelope body label = Ok e /\ c' = c.
Proof. unfold envelope. destruct (parse_envelope body label) as [e'|[]]; try done. by intros [= -> ->]. Qed.

(** Sending one chain: every hop keeps to one origin, the first request is the one asked for, and the
    chain is as long as the redirects allow. *)
Definition home (c : Client) : Prop :=
  match origin c with
  | None => sent c = []
  | Some o => Forall (fun rq => origin_of (rq_url rq) = o) (sent c)
  end.

(** A computation keeps its client at home, adds to what was sent at most so many requests. *)
Definition stays (n : nat) {A} (m : C A) : Prop := forall c, home c ->
  home (m c).2 /\ (forall o, origin c = Some o -> origin (m c).2 = Some o) /\
  exists new, sent (m c).2 = sent c ++ new /\ (length new <= n)%nat.

Lemma stays_ret {A} (a : A) : stays 0 (cret a).
Proof. intros c H. split; [done|]. split; [done|]. exists []. by rewrite app_nil_r. Qed.
Lemma stays_raise {A} e : stays 0 (craise e : C A).
Proof. intros c H. split; [done|]. split; [done|]. exists []. by rewrite app_nil_r. Qed.

Lemma stays_weaken {A} (m : C A) n k : stays n m -> (n <= k)%nat -> stays k m.
Proof. intros H Hk c Hc. destruct (H c Hc) as (H1 & H2 & new & H3 & H4). split; [done|]. split; [done|]. exists new. split; [done|lia]. Qed.

Lemma stays_bind {A B} n k (m : C A) (f : A -> C B) : stays n m -> (forall a, stays k (f a)) -> stays (n + k) (cbind m f).
Proof.
  intros Hm Hf c Hc. destruct (Hm c Hc) as (H1 & H2 & new & H3 & H4). unfold cbind. destruct (m c) as [[a|e] c1]; cbn in *.
  - destruct (Hf a c1 H1) as (G1 & G2 & new' & G3 & G4). split; [done|]. split; [by intros o ?%H2%G2|].
    exists (new ++ new'). rewrite G3, H3, length_app, app_assoc. split; [done|lia].
  - split; [done|]. split; [done|]. exists new. split; [done|lia].
Qed.

Lemma stays_dispatch label rq : stays 1 (dispatch label rq).
Proof.
  intros c Hc. unfold dispatch, cbind, reject_cross_origin, transmit, home in *. destruct (origin c) as [o|] eqn:Eo; cbn.
  - case_bool_decide as E; cbn; rewrite ?Eo.
    + split; [apply Forall_app; split; [done|by repeat constructor]|]. split; [done|]. exists [rq]. done.
    + split; [done|]. split; [done|]. exists []. rewrite app_nil_r. split; [done|cbn; lia].
  - rewrite Hc. split; [by repeat constructor|]. split; [done|]. by exists [rq].
Qed.

Lemma stays_follow redirects label : forall rq, stays (S redirects) (follow redirects label rq).
Proof.
  induction redirects as [|redirects IH]; intros rq; cbn [follow].
  - apply (stays_bind 1 0); [apply stays_dispatch|]. intros [r|next|e]; [apply stays_ret|apply stays_raise..].
  - apply (stays_bind 1 (S redirects)); [apply stays_dispatch|].
    intros [r|next|e]; [eapply stays_weaken; [apply stays_ret|lia]|apply IH|eapply stays_weaken; [apply stays_raise|lia]].
Qed.

Lemma stays_envelope body label : stays 0 (envelope body label).
Proof.
  intros c Hc. unfold envelope. destruct (parse_envelope body label) as [e|[]]; (split; [done|]; split; [done|]; exists []; by rewrite app_nil_r).
Qed.

Lemma stays_post label url hs body : stays (S (max_redirects net)) (post label url hs body).
Proof. unfold post. destruct (parse_url url); [apply stays_follow|]. eapply stays_weaken; [apply stays_raise|lia]. Qed.

Lemma stays_refuse url label : stays 0 (refuse_credentials_in_url url label).
Proof. unfold refuse_credentials_in_url. destruct (netloc url); [|apply stays_raise]. case_match; [apply stays_raise|apply stays_ret]. Qed.

(** ** A send, taken apart *)
(** What the adapter makes of a reply. *)
Definition conclude (p : Provider) (model : text) (response : HttpResponse) : result SendError Evaluation :=
  let body := json_or VNone (decode_body (content response)) in
  let label := provider_label p in
  let finish payload :=
    match parse_envelope payload label with
    | Ok e => Ok (evaluation (provider_name p) (reported p model e) e (headers response))
    | Raise (ProviderError m _ _) => Raise (SendProvider m None None None)
    | Raise _ => Raise (SendOther [] [])
    end in
  match p with
  | CloudflareProvider _ _ =>
    let body := or_empty body in
    let errors := get (u "errors") (object_of body) in
    if negb (is_success response) || denied (object_of body) then
      Raise (status_error label redact (status_code response)
        (stringify_compact (match errors with VNone => body | _ => errors end)) (retry_after_seconds decimal parsedate time (headers response)))
    else
      match cloudflare_payload body with
      | inl run_state =>
        Raise (state_error label redact (u "state " ++ run_state) (stringify_compact (match errors with VNone => VList [] | _ => errors end)))
      | inr payload => finish payload
      end
  | _ => if negb (is_success response) then Raise (error_of label response) else finish body
  end.

Definition guard (p : Provider) : C unit :=
  match p with CompatibleProvider _ base_url => refuse_credentials_in_url base_url Compatible.label | _ => cret tt end.

Lemma refuse_pure url label c : exists r, refuse_credentials_in_url url label c = (r, c).
Proof. unfold refuse_credentials_in_url. destruct (netloc url); [|by eexists]. destruct (mem _ _); by eexists. Qed.
Lemma guard_pure p c : exists r, guard p c = (r, c).
Proof. destruct p; [apply refuse_pure|by eexists..]. Qed.

Lemma send_parts p state questions model c : send p state questions model c =
  match (guard p c).1 with
  | Raise e => (Raise e, c)
  | Ok _ =>
    match post (provider_label p) (endpoint p) (provider_headers p) (provider_body p state questions model) c with
    | (Ok response, c') => (conclude p model response, c')
    | (Raise e, c') => (Raise e, c')
    end
  end.
Proof.
  assert (forall label name m response c', cbind (envelope (json_or VNone (decode_body (content response))) label)
      (fun e => cret (evaluation name (m e) e (headers response))) c'
    = (match parse_envelope (json_or VNone (decode_body (content response))) label with
       | Ok e => Ok (evaluation name (m e) e (headers response))
       | Raise (ProviderError m _ _) => Raise (SendProvider m None None None)
       | Raise _ => Raise (SendOther [] [])
       end, c')) as Henv.
  { intros. unfold cbind, envelope. by destruct (parse_envelope _ _) as [|[]]. }
  destruct p as [key url|key|token account]; cbn [send guard].
  - unfold send_compatible, cbind at 1. destruct (refuse_pure url Compatible.label c) as [[[]|e] ->]; [|done]. cbn [fst].
    unfold cbind at 1. destruct (post _ _ _ _ c) as [[response|e] c']; [|done].
    unfold conclude. destruct (is_success response); [|done]. apply (Henv _ _ (fun e => model_or e model)).
  - unfold send_openrouter, cbind at 1. cbn [fst cret].
    destruct (post _ _ _ _ c) as [[response|e] c']; [|done].
    unfold conclude. destruct (is_success response); [|done]. apply (Henv _ _ (fun _ => openrouter_slug model)).
  - unfold send_cloudflare, cbind at 1. cbn [fst cret].
    destruct (post _ _ _ _ c) as [[response|e] c']; [|done].
    unfold conclude. cbv zeta. destruct (negb (is_success response) || _); [done|].
    destruct (cloudflare_payload _) as [run_state|payload]; [done|].
    unfold cbind, envelope. by destruct (parse_envelope _ _) as [|[]].
Qed.

Lemma conclude_Ok p model response ev : conclude p model response = Ok ev ->
  is_success response = true /\ exists payload e,
    provider_payload p (json_or VNone (decode_body (content response))) = inr payload /\ parse_envelope payload (provider_label p) = Ok e /\
    ev = evaluation (provider_name p) (reported p model e) e (headers response).
Proof.
  unfold conclude. intros H.
  assert (is_success response = true) as Hok by (destruct p; destruct (is_success response); done). split; [done|]. rewrite Hok in H.
  destruct p as [key url|key|token account]; cbn [negb orb] in H.
  1,2: destruct (parse_envelope _ _) as [e|[]] eqn:E; try done; injection H as <-; eexists _, e; done.
  destruct (denied _); [done|]. destruct (cloudflare_payload _) as [s|payload] eqn:Ep; [done|].
  destruct (parse_envelope payload _) as [e|[]] eqn:E; try done. injection H as <-. by exists payload, e.
Qed.

Lemma follow_Ok redirects label : forall rq c response c', follow redirects label rq c = (Ok response, c') ->
  exists new, sent c' = sent c ++ rq :: new /\ hop net (sent c') = Answer response.
Proof.
  assert (forall rq c reply c', dispatch label rq c = (Ok reply, c') -> sent c' = sent c ++ [rq] /\ hop net (sent c') = reply) as Hd.
  { intros rq c reply c'. unfold dispatch, cbind, reject_cross_origin, transmit. destruct (origin c) as [o|]; [case_bool_decide|]; intros [= <- <-]; done. }
  induction redirects as [|redirects IH]; intros rq c response c' H; cbn [follow] in H; apply cbind_Ok in H as (reply & c1 & [Hs Hh]%Hd & H).
  - destruct reply; try done. injection H as -> ->. by exists [].
  - destruct reply as [r|next|e]; try done; [injection H as -> ->; by exists []|].
    apply IH in H as (new & Hs' & Hh'). exists (next :: new). split; [|done]. by rewrite Hs', Hs, <- app_assoc.
Qed.

(** The origin a chain leaves its client with. *)
Lemma post_origin label url hs body c : home c -> origin (post label url hs body c).2 =
  match origin c with Some o => Some o | None => match parse_url url with Ok url => Some (origin_of url) | Raise _ => None end end.
Proof.
  intros Hc. unfold post. destruct (parse_url url) as [url'|e]; [|cbn; by destruct (origin c)].
  set (rq := {| rq_url := url' |}). destruct (origin c) as [o|] eqn:Eo.
  { destruct (stays_follow (max_redirects net) label rq c Hc) as (_ & H & _). by apply H. }
  assert (forall redirects, follow redirects label rq c =
    match hop net [rq] with
    | Answer r => cret r | Failed e => craise e
    | Redirect next => match redirects with O => craise (SendOther (u "Exceeded maximum allowed redirects.") (u "TooManyRedirects")) | S n => follow n label next end
    end {| origin := Some (origin_of url'); sent := [rq] |}) as E.
  { intros redirects. destruct redirects; cbn [follow]; unfold cbind, dispatch, cbind, reject_cross_origin, transmit; rewrite Eo; cbn;
      unfold home in Hc; rewrite Eo in Hc; rewrite Hc; cbn; by destruct (hop net [rq]). }
  rewrite E. set (c1 := {| origin := Some _; sent := [rq] |}). destruct (hop net [rq]) as [r|next|e]; [done| |done].
  destruct (max_redirects net) as [|n]; [done|]. assert (home c1) as Hc1 by (unfold home; cbn; by repeat constructor).
  destruct (stays_follow n label next c1 Hc1) as (_ & H & _). by apply H.
Qed.

(** A client that only ever sent to the endpoint's origin. *)
Definition loyal (p : Provider) (c : Client) : Prop :=
  home c /\ forall o, origin c = Some o -> exists url, parse_url (endpoint p) = Ok url /\ o = origin_of url.

Lemma fresh_loyal p : loyal p fresh.
Proof. split; [done|]. intros o [=]. Qed.

Lemma send_loyal p state questions model c : loyal p c ->
  loyal p (send p state questions model c).2 /\
  exists new, sent (send p state questions model c).2 = sent c ++ new /\ (length new <= S (max_redirects net))%nat.
Proof.
  intros [Hc Ho]. rewrite send_parts. destruct (guard p c).1; [|split; [done|]; exists []; rewrite app_nil_r; split; [done|cbn; lia]].
  set (label := provider_label p). set (hs := provider_headers p). set (body := provider_body p state questions model).
  destruct (stays_post label (endpoint p) hs body c Hc) as (H1 & H2 & H3). pose proof (post_origin label (endpoint p) hs body c Hc) as H4.
  destruct (post label (endpoint p) hs body c) as [r c']. cbn [snd] in *.
  assert (loyal p c') as Hl.
  { split; [done|]. intros o Eo. destruct (origin c) as [o'|] eqn:E; [apply Ho; congruence|].
    destruct (parse_url (endpoint p)) as [url|]; [|congruence]. exists url. split; [done|congruence]. }
  by destruct r.
Qed.

Lemma parse_envelope_answers body label e : parse_envelope body label = Ok e -> exists d, body = VDict d /\ get (u "answers") d = VDict (env_answers e).
Proof.
  unfold parse_envelope. destruct body as [| | | | | |d]; try done. destruct (get (u "answers") d) as [| | | | | |ans] eqn:Ea; try done.
  intros (us & _ & (m & _ & [= <-])%rbind_Ok)%rbind_Ok. by exists d.
Qed.

Lemma payload_wf p body payload : provider_payload p body = inr payload -> wf_value body -> wf_value payload.
Proof.
  destruct p; cbn [provider_payload]; try (by intros [= <-]). intros H Hb. unfold cloudflare_payload in H.
  assert (wf_value (or_empty body)) as Hw by (destruct body; cbn; [by repeat constructor|done..]).
  pose proof (get_wf (u "result") _ (object_of_wf _ Hw)) as Hr. destruct (get (u "result") (object_of (or_empty body))) as [| | | | | |outer] eqn:E;
    try (injection H as <-; done). pose proof (get_wf (u "result") _ Hr) as Hi.
  assert (payload = match get (u "result") outer with VNone => VDict outer | inner => inner end) as ->
    by (destruct (get (u "state") outer); try (by injection H as <-); case_bool_decide; [by injection H as <-|done]).
  by destruct (get (u "result") outer).
Qed.

(** A session: every call of one provider. *)
Definition session (p : Provider) (calls : list (value * value * text)) : Client :=
  fold_left (fun c '(state, questions, model) => (send p state questions model c).2) calls fresh.

(** C4 What a caller hands over goes to one origin only.  Whatever the calls of a provider are and
    however the network answers and redirects, every request that leaves it, with the state and the
    credential it carries, goes to the origin of its endpoint, and a call sends at most one request
    more than the redirects the client allows. *)
Theorem requests_stay_home p calls : let c := session p calls in
  (sent c = [] \/ exists url, parse_url (endpoint p) = Ok url /\ Forall (fun rq => origin_of (rq_url rq) = origin_of url) (sent c)) /\
  (length (sent c) <= length calls * S (max_redirects net))%nat.
Proof.
  cbn zeta. unfold session.
  assert (forall c, loyal p c -> let c' := fold_left (fun c '(state, questions, model) => (send p state questions model c).2) calls c in
    loyal p c' /\ (length (sent c') <= length (sent c) + length calls * S (max_redirects net))%nat) as H.
  { induction calls as [|[[state questions] model] calls IH]; intros c Hc; cbn [fold_left length]; [split; [done|lia]|].
    destruct (send_loyal p state questions model c Hc) as (H1 & new & H2 & H3). destruct (IH _ H1) as [H4 H5]. split; [done|].
    rewrite H2, length_app in H5. lia. }
  destruct (H fresh (fresh_loyal p)) as [[Hh Ho] Hl]. split; [|exact Hl]. unfold home in Hh.
  destruct (origin _) as [o|] eqn:Eo; [|by left]. right. destruct (Ho o eq_refl) as (url & Hu & ->). by exists url.
Qed.

(** What a successful send did. *)
Lemma send_Ok p state questions model c ev c' : send p state questions model c = (Ok ev, c') ->
  exists url new response payload e, parse_url (endpoint p) = Ok url /\
    sent c' = sent c ++ {| rq_url := url; rq_headers := dset (u "Content-Type") (u "application/json") (provider_headers p);
      rq_body := encode_json (provider_body p state questions model) |} :: new /\
    hop net (sent c') = Answer response /\ is_success response = true /\
    provider_payload p (or_else (decode_body (content response)) VNone) = inr payload /\ parse_envelope payload (provider_label p) = Ok e /\
    ev = evaluation (provider_name p) (reported p model e) e (headers response).
Proof.
  rewrite send_parts. destruct (guard p c).1; [|done]. destruct (post _ _ _ _ c) as [[response|e] c1] eqn:Hp; [|done].
  intros [= Hc ->]. apply conclude_Ok in Hc as (Hok & payload & e & Hpay & He & ->). unfold post in Hp.
  destruct (parse_url (endpoint p)) as [url|]; [|done]. apply follow_Ok in Hp as (new & Hs & Hh).
  by exists url, new, response, payload, e.
Qed.

Lemma reply_wf p response payload e : provider_payload p (or_else (decode_body (content response)) VNone) = inr payload ->
  parse_envelope payload (provider_label p) = Ok e -> wf_value (VDict (env_answers e)).
Proof.
  intros Hpay He. destruct (parse_envelope_answers _ _ _ He) as (d & -> & <-). apply get_wf.
  apply payload_wf in Hpay; [done|]. unfold decode_body. destruct (decode_json _) as [v|] eqn:E; [|done]. by apply decode_json_wf in E.
Qed.

Lemma send_wf p state questions model c ev c' : send p state questions model c = (Ok ev, c') -> wf_value (VDict (answers ev)).
Proof. intros (url & new & response & payload & e & _ & _ & _ & _ & Hp & He & ->)%send_Ok. by eapply reply_wf. Qed.

(** C19 An evaluation is what the endpoint answered to what was asked.  A send that returns one first sent
    the question, under the provider's own name for the model and with its credential, to the
    endpoint, and the last reply of the chain was a success whose body holds the answers: they are the
    object the envelope rules accept, unchanged, with distinct keys at every depth, and the model
    reported is the provider's. *)
Theorem evaluation_genuine p state questions model c ev c' : send p state questions model c = (Ok ev, c') ->
  exists url new response payload e, parse_url (endpoint p) = Ok url /\
    sent c' = sent c ++ {| rq_url := url; rq_headers := dset (u "Content-Type") (u "application/json") (provider_headers p);
      rq_body := encode_json (provider_body p state questions model) |} :: new /\
    hop net (sent c') = Answer response /\ is_success response = true /\
    provider_payload p (or_else (decode_body (content response)) VNone) = inr payload /\ parse_envelope payload (provider_label p) = Ok e /\
    answers ev = env_answers e /\ wf_value (VDict (answers ev)) /\ ev_provider ev = provider_name p /\ ev_model ev = reported p model e.
Proof.
  intros H. pose proof (send_wf _ _ _ _ _ _ _ H) as Hwf. apply send_Ok in H as (url & new & response & payload & e & H1 & H2 & H3 & H4 & H5 & H6 & ->).
  by exists url, new, response, payload, e.
Qed.
End Send.

(** ** Samples *)
Definition HOME : Url := {| url_scheme := u "https"; url_host := u "jev.test"; url_port := None |}.
Definition ELSEWHERE : Url := {| url_scheme := u "https"; url_host := u "else.test"; url_port := None |}.
Definition sample_reply : HttpResponse :=
  {| status_code := 200; headers := [(u "X-Request-ID", u "r-1")];
     content := encode_json (VDict [(u "answers", VDict [(u "q", VInt 1)]); (u "model", VStr (u "m-2"))]) |}.
(** The first request of all is redirected to another host, the others within theirs, then answered. *)
Definition sample_net : Net :=
  {| hop := fun sent =>
       match sent with
       | [rq] => Redirect {| rq_url := ELSEWHERE; rq_headers := rq_headers rq; rq_body := rq_body rq |}
       | [_; rq] => Redirect {| rq_url := {| url_scheme := u "https"; url_host := u "jev.test"; url_port := Some 443 |}; rq_headers := rq_headers rq; rq_body := rq_body rq |}
       | _ => Answer sample_reply
       end;
     max_redirects := 20 |}.
Definition sample_provider : Provider := CompatibleProvider (u "k") (u "https://jev.test/").
Definition sample_send : value -> value -> text -> C Evaluation :=
  send (U := ascii_unicode) (fun _ => None) (fun _ => None) f_zero (fun _ => Ok HOME) (fun _ => Ok (u "jev.test")) sample_net id sample_provider.

(** The redirect to another host is blocked before anything is sent there. *)
Example redirect_blocked : let (r, c) := sample_send VNone (VDict []) (u "m") fresh in
  r = Raise (blocked Compatible.label) /\ length (sent c) = 1%nat.
Proof. vm_compute. done. Qed.

(** The second call is redirected within its origin and answered. *)
Definition sample_second : result SendError Evaluation * Client :=
  sample_send VNone (VDict []) (u "m") (sample_send VNone (VDict []) (u "m") fresh).2.

Lemma evaluation_genuine_witness :
  exists ev, sample_second.1 = Ok ev /\ length (sent sample_second.2) = 3%nat /\ wf_value (VDict (answers ev)) /\ ev_model ev = u "m-2" /\ request_id ev = Some (u "r-1").
Proof.
  assert (match sample_second.1 with Ok ev => bool_decide (ev_model ev = u "m-2") && bool_decide (request_id ev = Some (u "r-1")) | Raise _ => false end = true) as Hr
    by (vm_compute; reflexivity).
  assert (length (sent sample_second.2) = 3%nat) as Hs by (vm_compute; reflexivity).
  destruct (sample_second.1) as [ev|e] eqn:E; [|discriminate Hr]. exists ev. split; [done|]. split; [done|].
  apply andb_prop in Hr as [H1%bool_decide_eq_true_1 H2%bool_decide_eq_true_1]. split; [|exact (conj H1 H2)].
  assert (sample_send VNone (VDict []) (u "m") (sample_send VNone (VDict []) (u "m") fresh).2 = (Ok ev, sample_second.2)) as Hsend
    by (fold sample_second; rewrite <- E; by destruct sample_second).
  destruct (evaluation_genuine (U := ascii_unicode) (fun _ => None) (fun _ => None) f_zero (fun _ => Ok HOME) (fun _ => Ok (u "jev.test")) sample_net id
    sample_provider VNone (VDict []) (u "m") _ ev _ Hsend) as (url & new & response & payload & e & _ & _ & _ & _ & _ & _ & _ & Hwf & _). exact Hwf.
Defined.
