(* ===== verification/ProviderCall.v ===== *)
(** * A call to the provider

    [evaluate] of [providers/base.py] over a real client: the attempts of [Retry], each a send of
    [Adapters], thread one client.  The tools assume that the replies of their runtime are decoded JSON
    ([json_replies]); the runtime over a provider keeps that promise. *)
From S2P Require Import Prelude Float64 Domain Json PyStrings Runtime Retry Provider Http Adapters.
Open Scope Z_scope.

Section Call.
Context {U : Unicode} (decimal : Z -> option Z) (parsedate : text -> option float) (time : float)
  (parse_url : text -> result SendError Url) (netloc : text -> result SendError text) (net : Net) (redact : text -> text)
  (log2 : float -> float) (policy : RetryPolicy) (now after sample : nat -> float).

Abbreviation send := (send decimal parsedate time parse_url netloc net redact).
Abbreviation loyal := (loyal parse_url).

(** The client after so many attempts. *)
Fixpoint client_after (p : Adapters.Provider) (state questions : value) (model : text) (c : Client) (n : nat) : Client :=
  match n with
  | O => c
  | S n => (send p state questions model (client_after p state questions model c n)).2
  end.

Definition world_of (p : Adapters.Provider) (state questions : value) (model : text) (c : Client) : World :=
  {| Retry.now := now; Retry.after := after; Retry.sample := sample;
     Retry.send := fun k _ =>
       match (send p state questions model (client_after p state questions model c (k - 1))).1 with Ok ev => inr ev | Raise e => inl e end |}.

Definition call (p : Adapters.Provider) (state questions : value) (model : text) (c : Client) : option (result exn Evaluation * Sends) :=
  evaluate log2 policy (provider_label p) redact (world_of p state questions model c).

Lemma client_after_loyal p state questions model c n : loyal p c ->
  loyal p (client_after p state questions model c n) /\
  exists new, sent (client_after p state questions model c n) = sent c ++ new /\ (length new <= n * S (max_redirects net))%nat.
Proof.
  intros Hc. induction n as [|n [IH (new & Hs & Hl)]]; cbn [client_after].
  - split; [done|]. exists []. by rewrite app_nil_r.
  - destruct (send_loyal decimal parsedate time parse_url netloc net redact p state questions model _ IH) as (H1 & new' & H2 & H3).
    split; [done|]. exists (new ++ new'). rewrite H2, Hs, length_app, app_assoc. split; [done|lia].
Qed.

(** A call ends, and an evaluation it returns is that of its last attempt. *)
Lemma call_ends p state questions model c : valid_policy policy = true ->
  exists n r sends, call p state questions model c = Some (r, sends) /\ length sends = n /\ (1 <= n)%nat /\ Z.of_nat n <= max_attempts policy /\
    forall ev, r = Ok ev -> (send p state questions model (client_after p state questions model c (n - 1))).1 = Ok ev.
Proof.
  intros Hv. assert (1 <= max_attempts policy) as H1 by (unfold valid_policy in Hv; bool_to_prop; lia).
  destruct (attempts_from_spec log2 policy (provider_label p) (world_of p state questions model c) (Z.to_nat (max_attempts policy)) 1 [])
    as (n & out & Hn1 & Hn & Hrun & _ & _ & Hend); [lia..|].
  change (1 <? 1)%nat with false in Hrun.
  exists n, (match out with inr ev => Ok ev | inl e => Raise (leaving (provider_label p) redact e) end). eexists.
  split; [unfold call, evaluate; rewrite Hrun; by destruct out|]. cbn [app]. rewrite length_fmap, length_seq.
  split; [lia|]. split; [done|]. split; [done|].
  intros ev Hr. destruct out as [e|ev']; [done|]. injection Hr as ->. unfold ends_with in Hend. cbn [Retry.send world_of] in Hend.
  destruct (send p _ _ model _) as [[ev'|e] c2]; cbn [fst] in Hend |- *; [by injection Hend as <-|].
  destruct (transient _ _ _); [by destruct (1 <? n)%nat|done].
Qed.

Lemma call_wf p state questions model c r sends ev : valid_policy policy = true -> call p state questions model c = Some (r, sends) ->
  r = Ok ev -> wf_value (VDict (answers ev)).
Proof.
  intros Hv Hcall ->. destruct (call_ends p state questions model c Hv) as (n & r & sends' & Hc & _ & _ & _ & Hev).
  rewrite Hcall in Hc. injection Hc as <- <-. specialize (Hev ev eq_refl).
  destruct (send p _ _ model _) as [r c2] eqn:E; cbn in Hev; subst. by eapply send_wf.
Qed.

(** A call ends, within its attempts and its requests, with what one of them answered.  Under a valid
    policy a call makes between one and [max_attempts] attempts; all its requests, redirects included,
    go to the origin of the endpoint and are at most [max_attempts * (1 + max_redirects)]; and an
    evaluation it returns is that of its last attempt, its answers with distinct keys. *)
Theorem call_bounded p state questions model c : valid_policy policy = true -> loyal p c ->
  exists n r sends, call p state questions model c = Some (r, sends) /\ length sends = n /\ (1 <= n)%nat /\ Z.of_nat n <= max_attempts policy /\
    let c' := client_after p state questions model c n in
    loyal p c' /\
    (exists new, sent c' = sent c ++ new /\ Z.of_nat (length new) <= max_attempts policy * (1 + Z.of_nat (max_redirects net))) /\
    (forall ev, r = Ok ev -> (send p state questions model (client_after p state questions model c (n - 1))).1 = Ok ev /\ wf_value (VDict (answers ev))).
Proof.
  intros Hv Hc. destruct (call_ends p state questions model c Hv) as (n & r & sends & Hcall & Hlen & Hn1 & Hn & Hev).
  exists n, r, sends. do 4 (split; [done|]).
  destruct (client_after_loyal p state questions model c n Hc) as [Hl (new & Hs & Hnew)]. cbn zeta. split; [done|].
  split; [exists new; split; [done|nia]|]. intros ev Hr. split; [by apply Hev|by eapply call_wf].
Qed.

(** ** The runtime of the tools *)
(** The runtime over a provider: before the n-th ask its client is [clients n]. *)
Definition provider_runtime (p : Adapters.Provider) (model : text) (clients : nat -> Client) : Runtime :=
  {| rt_model := model;
     rt_ask := fun n rq =>
       match call p (rq_state rq) (questions_to_wire (rq_questions rq)) model (clients n) with
       | Some (r, _) => r
       | None => Raise (OtherError [])
       end |}.

(** The replies the tools judge are JSON objects with distinct keys: the assumption the tools'
    theorems make of their runtime holds of the runtime over every provider client. *)
Theorem provider_runtime_decodes p model clients : valid_policy policy = true -> json_replies (provider_runtime p model clients).
Proof.
  intros Hv n rq ev. cbn [rt_ask provider_runtime]. destruct (call p _ _ model _) as [[r sends]|] eqn:E; [|done].
  intros Hr. by eapply call_wf.
Qed.
End Call.

(** ** Witnesses *)
(** The sample provider of [Adapters], after the call whose redirect was blocked: one attempt, three
    requests in all. *)
Abbreviation sample_call := (call (U := ascii_unicode) (fun _ => None) (fun _ => None) f_zero (fun _ => Ok HOME) (fun _ => Ok (u "jev.test")) sample_net id
  (fun _ => f_zero) DEFAULT_RETRY_POLICY (fun _ => f_zero) (fun _ => f_zero) (fun _ => f_zero) sample_provider).

Lemma sample_loyal : loyal (fun _ => Ok HOME) sample_provider (sample_send VNone (VDict []) (u "m") fresh).2.
Proof.
  unfold sample_send. apply send_loyal, fresh_loyal.
Qed.

Lemma call_bounded_witness :
  exists r sends, sample_call VNone (VDict []) (u "m") (sample_send VNone (VDict []) (u "m") fresh).2 = Some (r, sends) /\
    (1 <= length sends <= 3)%nat /\ match r with Ok ev => wf_value (VDict (answers ev)) | Raise _ => False end.
Proof.
  destruct (call_bounded (U := ascii_unicode) (fun _ => None) (fun _ => None) f_zero (fun _ => Ok HOME) (fun _ => Ok (u "jev.test")) sample_net id
    (fun _ => f_zero) DEFAULT_RETRY_POLICY (fun _ => f_zero) (fun _ => f_zero) (fun _ => f_zero) sample_provider VNone (VDict []) (u "m")
    (sample_send VNone (VDict []) (u "m") fresh).2 eq_refl sample_loyal) as (n & r & sends & Hcall & <- & H1 & H2 & _ & _ & Hev).
  exists r, sends. split; [exact Hcall|]. split; [change (max_attempts DEFAULT_RETRY_POLICY) with 3 in H2; lia|].
  assert (match sample_call VNone (VDict []) (u "m") (sample_send VNone (VDict []) (u "m") fresh).2 with Some (Ok _, _) => true | _ => false end = true) as Hok
    by (vm_compute; reflexivity).
  rewrite Hcall in Hok. destruct r as [ev|e]; [|discriminate Hok]. exact (proj2 (Hev ev eq_refl)).
Defined.

(** The tools' runtime over it: the reply to its first ask. *)
Definition sample_runtime : Runtime :=
  provider_runtime (U := ascii_unicode) (fun _ => None) (fun _ => None) f_zero (fun _ => Ok HOME) (fun _ => Ok (u "jev.test")) sample_net id
    (fun _ => f_zero) DEFAULT_RETRY_POLICY (fun _ => f_zero) (fun _ => f_zero) (fun _ => f_zero) sample_provider (u "m")
    (fun _ => (sample_send VNone (VDict []) (u "m") fresh).2).

Lemma provider_runtime_decodes_witness :
  exists ev, rt_ask sample_runtime 0 {| rq_state := VNone; rq_questions := [] |} = Ok ev /\ wf_value (VDict (answers ev)).
Proof.
  assert (match rt_ask sample_runtime 0 {| rq_state := VNone; rq_questions := [] |} with Ok _ => true | Raise _ => false end = true) as Hok
    by (vm_compute; reflexivity).
  destruct (rt_ask sample_runtime 0 {| rq_state := VNone; rq_questions := [] |}) as [ev|e] eqn:E; [|discriminate Hok].
  exists ev. split; [reflexivity|]. revert E. apply provider_runtime_decodes. reflexivity.
Defined.
