(* ===== verification/Settings.v ===== *)
(** * The process configuration

    Models [settings.py]: the fields read from the environment, the value a harness left unexpanded, and
    the secrets with their variables.  The readers pydantic has for booleans, numbers and paths are
    parameters; the environment is a mapping without order. *)
From S2P Require Import Prelude Float64 PyStrings Regex InstallFs.
Open Scope Z_scope.

(** ** References no one expanded *)
Definition plain (c : Z) : bool := negb (one_of "${}" c).
Definition UNEXPANDED_REFERENCE : re :=
  Alt (seq_of [lit "${"; Star plain; lit "}"]) (seq_of [lit "{env:"; Star plain; lit "}"]).
Definition is_unexpanded_reference (value : text) : bool := bool_decide (length value ∈ ends value UNEXPANDED_REFERENCE 0).

Example references : (is_unexpanded_reference <$> [u "${TYPESAFE_API_KEY}"; u "${env:K}"; u "{env:K}"; u "{K}"; u "sk-${K}"; u "${a{b}}"; []])
  = [true; true; true; false; false; false; false].
Proof. vm_compute. reflexivity. Qed.

(** ** The fields *)
Inductive Transport := stdio | streamable_http.

Record Settings := {
  jev_provider : text;
  jev_judge_mcp_model : option text;
  typesafe_api_key : option text;
  typesafe_base_url : option text;
  openrouter_api_key : option text;
  jev_cloudflare_api_token : option text;
  cloudflare_api_token : option text;
  cloudflare_account_id : option text;
  ai_gateway_api_key : option text;
  jev_api_key : option text;
  jev_api_base_url : option text;
  jev_judge_mcp_cache : bool;
  cache_dir : option PurePath;
  cache_max_entries : Z;
  cache_ttl_seconds : float;
  key_file : option PurePath;
  transport : Transport;
  http_host : text;
  http_port : Z;
  http_token : option text;
  log_level : text;
  telemetry_payloads : bool;
  max_inflight : Z;
  ask_commands : bool
}.

Definition LogLevel : list text := u <$> ["DEBUG"; "INFO"; "WARNING"; "ERROR"; "CRITICAL"]%string.

(** The fields an unexpanded reference leaves unset, by variable. *)
Definition UNSET_WHEN_UNEXPANDED : list text := [u "TYPESAFE_API_KEY"].
Definition unexpanded_reference_is_unset (value : option text) : option text :=
  match value with Some t => if is_unexpanded_reference t then None else Some t | None => None end.

(** The secret fields in their order, with their variables. *)
Definition SECRETS : list (text * (Settings -> option text)) :=
  [(u "TYPESAFE_API_KEY", typesafe_api_key); (u "TYPESAFE_BASE_URL", typesafe_base_url); (u "OPENROUTER_API_KEY", openrouter_api_key);
   (u "JEV_CLOUDFLARE_API_TOKEN", jev_cloudflare_api_token); (u "CLOUDFLARE_API_TOKEN", cloudflare_api_token);
   (u "AI_GATEWAY_API_KEY", ai_gateway_api_key); (u "JEV_API_KEY", jev_api_key); (u "JEV_API_BASE_URL", jev_api_base_url);
   (u "JEV_MCP_HTTP_TOKEN", http_token)].

Definition named_secrets (s : Settings) : list (text * text) :=
  omap (fun f => match f.2 s with Some ((_ :: _) as value) => Some (f.1, value) | _ => None end) SECRETS.
Definition secret_values (s : Settings) : list text := snd <$> named_secrets s.

Definition unexpanded_references (environ : dict text) : list text :=
  List.filter (fun variable => is_unexpanded_reference (or_else (dget variable environ) [])) UNSET_WHEN_UNEXPANDED.

(** ** Reading them *)
Section Load.
Context (to_bool : text -> option bool) (to_int : text -> option Z) (to_float : text -> option float).

(** A field with a default; [None] is a validation error. *)
Definition field {A} (read : text -> option A) (default : A) (value : option text) : option A :=
  match value with None => Some default | Some t => read t end.
Definition where_ {A} (ok : A -> bool) (read : text -> option A) (t : text) : option A :=
  match read t with Some a => if ok a then Some a else None | None => None end.
Definition to_transport (t : text) : option Transport :=
  if bool_decide (t = u "stdio") then Some stdio else if bool_decide (t = u "streamable-http") then Some streamable_http else None.

Definition load_settings (environ : dict text) : option Settings :=
  let var name := dget (u name) environ in
  cache ← field to_bool false (var "JEV_MCP_CACHE");
  entries ← field (where_ (Z.leb 0) to_int) 4096 (var "JEV_MCP_CACHE_MAX_ENTRIES");
  ttl ← field (where_ (fun x => fleb f_zero x) to_float) (f_of_Z 604800) (var "JEV_MCP_CACHE_TTL_SECONDS");
  transport ← field to_transport stdio (var "JEV_MCP_TRANSPORT");
  port ← field (where_ (fun n => (1 <=? n) && (n <=? 65535)) to_int) 8088 (var "JEV_MCP_HTTP_PORT");
  level ← field (fun t => if bool_decide (t ∈ LogLevel) then Some t else None) (u "INFO") (var "JEV_MCP_LOG_LEVEL");
  payloads ← field to_bool false (var "JEV_MCP_TELEMETRY_PAYLOADS");
  inflight ← field (where_ (Z.leb 0) to_int) 0 (var "JEV_MCP_MAX_INFLIGHT");
  commands ← field to_bool false (var "JEV_ASK_COMMANDS");
  Some {|
    jev_provider := or_else (var "JEV_PROVIDER") (u "auto");
    jev_judge_mcp_model := var "JEV_MCP_MODEL";
    typesafe_api_key := unexpanded_reference_is_unset (var "TYPESAFE_API_KEY");
    typesafe_base_url := var "TYPESAFE_BASE_URL";
    openrouter_api_key := var "OPENROUTER_API_KEY";
    jev_cloudflare_api_token := var "JEV_CLOUDFLARE_API_TOKEN";
    cloudflare_api_token := var "CLOUDFLARE_API_TOKEN";
    cloudflare_account_id := var "CLOUDFLARE_ACCOUNT_ID";
    ai_gateway_api_key := var "AI_GATEWAY_API_KEY";
    jev_api_key := var "JEV_API_KEY";
    jev_api_base_url := var "JEV_API_BASE_URL";
    jev_judge_mcp_cache := cache;
    cache_dir := pure <$> var "JEV_MCP_CACHE_DIR";
    cache_max_entries := entries;
    cache_ttl_seconds := ttl;
    key_file := pure <$> var "JEV_MCP_KEY_FILE";
    transport := transport;
    http_host := or_else (var "JEV_MCP_HTTP_HOST") (u "127.0.0.1");
    http_port := port;
    http_token := var "JEV_MCP_HTTP_TOKEN";
    log_level := level;
    telemetry_payloads := payloads;
    max_inflight := inflight;
    ask_commands := commands |}.
End Load.

(** ** Facts *)
Lemma field_Some {A} (read : text -> option A) default value a :
  field read default value = Some a -> a = default \/ exists t, value = Some t /\ read t = Some a.
Proof. destruct value as [t|]; cbn; [right; by exists t|]. intros [= <-]. by left. Qed.
Lemma where_Some {A} (ok : A -> bool) read t a : where_ ok read t = Some a -> ok a = true.
Proof. unfold where_. destruct (read t) as [b|]; [|done]. destruct (ok b) eqn:E; [|done]. by intros [= <-]. Qed.

(** A secret is among the named ones. *)
Lemma secret_named s name get_ value : (name, get_) ∈ SECRETS -> get_ s = Some value -> value <> [] -> (name, value) ∈ named_secrets s.
Proof.
  intros Hin Hg Hv. unfold named_secrets. apply list_elem_of_omap. exists (name, get_). split; [done|]. cbn. rewrite Hg. by destruct value.
Qed.

Lemma secret_values_In s name get_ value : (name, get_) ∈ SECRETS -> get_ s = Some value -> value <> [] -> value ∈ secret_values s.
Proof. intros. apply list_elem_of_fmap. exists (name, value). split; [done|]. by eapply secret_named. Qed.

(** What loads is within the bounds of its fields, and the key a stored one can fill is no reference. *)
Lemma load_settings_ok to_bool to_int to_float environ s : load_settings to_bool to_int to_float environ = Some s ->
  0 <= cache_max_entries s /\ fleb f_zero (cache_ttl_seconds s) = true /\ 1 <= http_port s <= 65535 /\ 0 <= max_inflight s /\
  log_level s ∈ LogLevel /\ (forall key, typesafe_api_key s = Some key -> is_unexpanded_reference key = false).
Proof.
  unfold load_settings. intros H. repeat (apply bind_Some in H as (? & ? & H)). injection H as <-. cbn [cache_max_entries cache_ttl_seconds http_port max_inflight log_level typesafe_api_key].
  repeat match goal with H : field _ _ _ = Some _ |- _ => apply field_Some in H end.
  split; [destruct H1 as [->|(t & _ & ?%where_Some)]; [lia|cbn in *; bool_to_prop; lia]|].
  split; [destruct H2 as [->|(t & _ & ?%where_Some)]; [by vm_compute|done]|].
  split; [destruct H4 as [->|(t & _ & ?%where_Some)]; [lia|cbn in *; bool_to_prop; lia]|].
  split; [destruct H7 as [->|(t & _ & ?%where_Some)]; [lia|cbn in *; bool_to_prop; lia]|].
  split.
  - destruct H5 as [->|(t & _ & Ht)]; [by apply (bool_decide_eq_true_1 (_ ∈ _))|]. case_bool_decide; [|done]. by injection Ht as <-.
  - unfold unexpanded_reference_is_unset. intros key. destruct (dget (u "TYPESAFE_API_KEY") environ) as [t|]; [|done].
    destruct (is_unexpanded_reference t) eqn:E; [done|]. by intros [= <-].
Qed.

(** ** Samples *)
(** Nothing set. *)
Definition unset : Settings :=
  {| jev_provider := u "auto"; jev_judge_mcp_model := None; typesafe_api_key := None; typesafe_base_url := None; openrouter_api_key := None;
     jev_cloudflare_api_token := None; cloudflare_api_token := None; cloudflare_account_id := None; ai_gateway_api_key := None; jev_api_key := None;
     jev_api_base_url := None; jev_judge_mcp_cache := false; cache_dir := None; cache_max_entries := 4096; cache_ttl_seconds := f_of_Z 604800;
     key_file := None; transport := stdio; http_host := u "127.0.0.1"; http_port := 8088; http_token := None; log_level := u "INFO";
     telemetry_payloads := false; max_inflight := 0; ask_commands := false |}.
Definition sample_load (environ : dict text) : option Settings :=
  load_settings (fun t => Some (bool_decide (t = u "1"))) (fun t => Some (int_of_digits t)) (fun _ => None) environ.
Definition sample_settings (environ : dict text) : Settings := or_else (sample_load environ) unset.

Example nothing_set : sample_load [] = Some unset.
Proof. vm_compute. reflexivity. Qed.
Example loads : (fun s => (http_port s, typesafe_api_key s, named_secrets s)) <$> sample_load
    [(u "JEV_MCP_HTTP_PORT", u "80"); (u "TYPESAFE_API_KEY", u "${K}"); (u "JEV_API_KEY", []); (u "JEV_MCP_HTTP_TOKEN", u "t")]
  = Some (80, None, [(u "JEV_MCP_HTTP_TOKEN", u "t")]).
Proof. vm_compute. reflexivity. Qed.
Example refused : (is_none (sample_load [(u "JEV_MCP_HTTP_PORT", u "0")]), is_none (sample_load [(u "JEV_MCP_TRANSPORT", u "http")])) = (true, true).
Proof. vm_compute. reflexivity. Qed.
