(* ===== verification/KeyFile.v ===== *)
(** * Private files and the stored key

    Models [fsutil.py] and [keyfile.py] over the disk of [InstallFs]: the atomic private write, the key
    [jev-judge-mcp setup] stores and its reading back, and the values redaction covers. *)
From S2P Require Import Prelude Json PyStrings InstallRedact Utf8 Paths InstallFs Redact Settings.
Open Scope Z_scope.
#[local] Open Scope install_scope.

Definition FILE_MODE : Z := octal 6 0 0.
Definition DIR_MODE : Z := octal 7 0 0.
Definition KEY_FILE_BYTES_MAX : nat := 4096.

(** The environment of the process and the home of its user. *)
Record Env := { environ : dict text; user_home : PurePath }.

(** [xdg_home("config")]. *)
Definition xdg_config_home (env : Env) : PurePath :=
  match dget (u "XDG_CONFIG_HOME") (environ env) with
  | Some ((_ :: _) as override) => pure override
  | _ => child (user_home env) (u ".config")
  end.

Definition stored_key_path (env : Env) (s : Settings) : PurePath :=
  match key_file s with
  | Some p => p
  | None => child (child (xdg_config_home env) (u "jev-mcp")) (u "key")
  end.

(** [data.decode("utf-8-sig")]; [None] is [UnicodeDecodeError]. *)
Definition BYTE_ORDER_MARK : list Z := [0xEF; 0xBB; 0xBF].
Definition decode_utf8_sig (data : list Z) : option text := decode (if starts_with BYTE_ORDER_MARK data then drop 3 data else data).

Section Files.
Context (host : Host).

(** Failures of the system are passed over. *)
Definition suppress (m : M unit) : M unit := catch m (fun e => match e with OSError _ => ret tt | _ => raise e end).

Definition restrict (p : PurePath) (mode : Z) : M unit := suppress (chmod host p mode).
Definition private_dir (p : PurePath) : M unit := mkdir host p ;; restrict p DIR_MODE.

Definition write_private_atomic (p : PurePath) (t : text) : M PurePath :=
  let dir := parent p in
  private_dir dir ;;
  attempt host (Temp (str_path dir)) ;;
  let* name := look (fun d => Ok (if is_dir d dir then temporary host d dir (u "." ++ path_name (parts p) ++ u ".") else None)) in
  match name with
  | None => not_found
  | Some tmp =>
    modify (put tmp (File [] FILE_MODE)) ;;
    cleaning (
      let* data := lift (utf8 t) in
      attempt host (Write tmp) ;; modify (put tmp (File data FILE_MODE)) ;; attempt host (Fsync tmp) ;;
      suppress (chmod_at host tmp FILE_MODE) ;;
      replace_file host tmp (str_path p)) (unlink host tmp) ;;
    restrict p FILE_MODE ;; ret p
  end.

(** *** [keyfile.py] *)
Definition key_of (content : list Z) : text :=
  let data := take (S KEY_FILE_BYTES_MAX) content in
  if (KEY_FILE_BYTES_MAX <? length data)%nat then []
  else match decode_utf8_sig data with Some t => strip t | None => [] end.

Definition stored_key (env : Env) (s : Settings) (d : Disk) : text :=
  match read_bytes host (stored_key_path env s) d with Ok (Some content) => key_of content | _ => [] end.

Definition redaction_values (env : Env) (s : Settings) (d : Disk) : list text :=
  match stored_key env s d with [] => secret_values s | stored => secret_values s ++ [stored] end.

Definition store_key (env : Env) (s : Settings) (api_key : text) : M PurePath :=
  write_private_atomic (stored_key_path env s) (strip api_key ++ [10]).

(** ** What a write does *)
Lemma suppress_keeps {R good} `{!Stable R good} m : keeps (R := R) (good := good) m (fun _ => True) -> keeps (R := R) (good := good) (suppress m) (fun _ => True).
Proof. intros Hm. apply keeps_catch; [done|]. intros []; first [apply keeps_raise|by apply keeps_ret]. Qed.

(** A computation, step by step. *)
Lemma bind_cases {A B} (m : M A) (f : A -> M B) d :
  (exists a d1, m d = (Ok a, d1) /\ bind m f d = f a d1) \/ (exists e d1, m d = (Raise e, d1) /\ bind m f d = (Raise e, d1)).
Proof. unfold bind. destruct (m d) as [[a|e] d1]; [left|right]; eauto. Qed.

Lemma suppress_Raise m d e d' : suppress m d = (Raise e, d') -> exists d1, m d = (Raise e, d1) /\ forall reason, e <> OSError reason.
Proof. unfold suppress, catch. destruct (m d) as [[a|e1] d1]; [done|]. destruct e1; intros [= <- <-]; by eexists. Qed.

Lemma chmod_at_raises p mode d e d' : chmod_at host p mode d = (Raise e, d') -> exists reason, e = OSError reason.
Proof.
  unfold chmod_at, bind, attempt. destruct (fault host (Chmod p)); cbn; [intros [= <- _]; by eexists|].
  destruct (nodes d !! p); cbn; [done|]. intros [= <- _]. by eexists.
Qed.

(** Setting a file's own mode changes nothing, whether it works or not. *)
Lemma suppress_chmod_at p mode data d : nodes d !! p = Some (File data mode) -> suppress (chmod_at host p mode) d = (Ok tt, d).
Proof.
  intros Hp. unfold suppress, catch, chmod_at, bind, attempt. destruct (fault host (Chmod p)); cbn; [done|]. rewrite Hp. cbn.
  unfold put. rewrite insert_id by done. by destruct d.
Qed.
Lemma restrict_own p mode data d : links d !! str_path p = None -> nodes d !! str_path p = Some (File data mode) -> restrict p mode d = (Ok tt, d).
Proof.
  intros Hl Hp. pose proof (suppress_chmod_at _ _ _ _ Hp) as H. unfold restrict, suppress, catch, chmod, bind in *. cbn. unfold real. rewrite Hl. cbn. exact H.
Qed.

Lemma replace_Ok from to d d' : replace_file host from to d = (Ok tt, d') ->
  exists n, nodes d !! from = Some n /\ d' = {| nodes := <[to := n]> (base.delete from (nodes d)); links := base.delete to (links d) |}.
Proof.
  unfold replace_file, bind, attempt. destruct (fault host (Replace from to)); [done|]. cbn. destruct (nodes d !! from) as [n|]; [|done]. cbn.
  destruct (links d !! to) as [q|]; cbn; [intros [= <-]; by exists n|].
  destruct (nodes d !! to) as [[]|]; cbn; intros [= <-]; by exists n.
Qed.
End Files.

(** ** A failure spares the file *)
Section Spares.
Context (host : Host) `{!HostLaws host} (x : text) (own : list PurePath).
Abbreviation good := (InstallFs.good x own).
Abbreviation keeps := (keeps (R := frame x) (good := good)).
Abbreviation foot := (frame_footprint host x own).

(** When it raises, the file is as it was. *)
Definition spares {A} (m : M A) : Prop := forall d, good d -> match (m d).1 with Raise _ => frame x d (m d).2 | Ok _ => True end.

Lemma spares_keeps {A} (m : M A) Q : keeps m Q -> spares m.
Proof. intros H d Hd. destruct (H d Hd) as [H1 _]. by destruct (m d) as [[a|e] d']. Qed.
Lemma spares_bind {A B} (m : M A) (f : A -> M B) Q : keeps m Q -> (forall a, Q a -> spares (f a)) -> spares (bind m f).
Proof.
  intros Hm Hf d Hd. unfold bind. destruct (Hm d Hd) as [H1 H2]. destruct (m d) as [[a|e] d1]; cbn in *; [|done].
  specialize (Hf a (H2 a eq_refl) d1 (good_frame _ _ _ _ Hd H1)). destruct (f a d1) as [[b|e] d2]; cbn in *; [done|]. by etransitivity.
Qed.
Lemma spares_before {A B} (m : M A) (k : M B) : spares m -> (forall d e d', k d <> (Raise e, d')) -> spares (bind m (fun _ => k)).
Proof.
  intros Hm Hk d Hd. unfold bind. specialize (Hm d Hd). destruct (m d) as [[a|e] d1]; cbn in *; [|done].
  destruct (k d1) as [[b|e] d2] eqn:E; [done|]. by destruct (Hk _ _ _ E).
Qed.
Lemma spares_cleaning {A} (m : M A) c : spares m -> keeps c (fun _ => True) -> spares (cleaning m c).
Proof.
  intros Hm Hc d Hd. unfold cleaning, catch, bind. specialize (Hm d Hd). destruct (m d) as [[a|e] d1]; [done|]. cbn [fst snd] in Hm.
  destruct (Hc d1 (good_frame _ _ _ _ Hd Hm)) as [H1 _]. destruct (c d1) as [[[]|e'] d2]; cbn in *; [by etransitivity|].
  destruct e'; cbn; by etransitivity.
Qed.
Lemma spares_replace from to : spares (replace_file host from to).
Proof.
  intros d _. unfold replace_file, bind, attempt. destruct (fault host (Replace from to)); [done|]. cbn. destruct (nodes d !! from); [|done]. cbn.
  destruct (links d !! to); cbn; [done|]. by destruct (nodes d !! to) as [[]|].
Qed.

Lemma keeps_restrict p mode : p ∈ own -> keeps (restrict host p mode) (fun _ => True).
Proof. intros Hp. apply suppress_keeps. by eapply (keeps_chmod host _ _ foot). Qed.

Lemma restrict_never p mode d e d' : restrict host p mode d <> (Raise e, d').
Proof.
  intros (d1 & H & Hne)%suppress_Raise. unfold chmod, bind in H. cbn in H. apply chmod_at_raises in H as [reason ->]. by destruct (Hne reason).
Qed.

Lemma spares_write p t : parent p ∈ own -> spares (write_private_atomic host p t).
Proof.
  intros Hp. unfold write_private_atomic, private_dir.
  eapply spares_bind. { eapply keeps_then; [by eapply (keeps_mkdir host _ _ foot)|by apply keeps_restrict]. } intros [] _.
  eapply spares_bind. { by eapply (keeps_attempt host). } intros [] _.
  eapply spares_bind with (Q := fun name => forall tmp, name = Some tmp -> tmp <> x).
  { apply keeps_look. intros d name Hd [= <-] tmp. destruct (is_dir d _); [|done]. by eapply (allows_temporary _ _ _ foot). }
  intros [tmp|] Htmp; [|by eapply spares_keeps, (keeps_raise _ (fun _ => True))]. specialize (Htmp tmp eq_refl).
  pose proof (fun n => keeps_put host (R := frame x) (good := good) _ _ foot tmp n Htmp) as Hput.
  eapply spares_bind; [by apply Hput|]. intros [] _. eapply spares_before.
  - apply spares_cleaning; [|by eapply (keeps_unlink host _ _ foot)].
    eapply spares_bind; [apply keeps_lift|]. intros data _.
    eapply spares_bind; [by eapply (keeps_attempt host)|]. intros [] _. eapply spares_bind; [by apply Hput|]. intros [] _.
    eapply spares_bind; [by eapply (keeps_attempt host)|]. intros [] _.
    eapply spares_bind; [by apply suppress_keeps; eapply (keeps_chmod_at host _ _ foot)|]. intros [] _. apply spares_replace.
  - intros d e d'. unfold bind. destruct (restrict host p FILE_MODE d) as [[a|e1] d1] eqn:E; [done|]. by apply restrict_never in E.
Qed.
End Spares.

(** A success is the whole file, private. *)
Lemma write_private_Ok host p t d q d' : write_private_atomic host p t d = (Ok q, d') ->
  q = p /\ exists data, utf8 t = Ok data /\ nodes d' !! str_path p = Some (File data FILE_MODE) /\ links d' !! str_path p = None.
Proof.
  unfold write_private_atomic. intros H. apply bind_ok in H as (? & d1 & _ & H). apply bind_ok in H as (? & d2 & ->%attempt_ok & H).
  apply bind_ok in H as (name & d3 & [_ ->]%look_ok & H). destruct name as [tmp|]; [|done].
  apply bind_ok in H as (? & d4 & ->%modify_ok & H). apply bind_ok in H as ([] & d5 & Hc%cleaning_ok & H).
  apply bind_ok in Hc as (data & d6 & [Hu ->]%lift_ok & Hc). apply bind_ok in Hc as (? & d7 & ->%attempt_ok & Hc).
  apply bind_ok in Hc as (? & d8 & ->%modify_ok & Hc). apply bind_ok in Hc as (? & d9 & ->%attempt_ok & Hc).
  set (d3 := put tmp _ (put tmp _ d1)) in Hc. assert (nodes d3 !! tmp = Some (File data FILE_MODE)) as H3 by apply lookup_insert_eq.
  apply bind_ok in Hc as (? & d10 & Hr & Hc). rewrite (suppress_chmod_at host _ _ _ _ H3) in Hr. injection Hr as _ <-.
  apply replace_Ok in Hc as (n & Hn & ->). rewrite H3 in Hn. injection Hn as <-.
  set (d4 := {| nodes := _; links := base.delete (str_path p) (links d3) |}) in H.
  assert (nodes d4 !! str_path p = Some (File data FILE_MODE)) as H4 by apply lookup_insert_eq.
  assert (links d4 !! str_path p = None) as H5 by apply lookup_delete_eq.
  apply bind_ok in H as (? & d11 & Hr & H). rewrite (restrict_own host _ _ _ _ H5 H4) in Hr. injection Hr as _ <-.
  apply ret_ok in H as [-> ->]. split; [done|]. by exists data.
Qed.

(** ** What is read back *)
Lemma lstrip_first t : lstrip t = [] \/ exists c t', lstrip t = c :: t' /\ is_space c = false.
Proof. induction t as [|c t IH]; [by left|]. cbn [lstrip]. destruct (is_space c) eqn:E; [done|]. right. by exists c, t. Qed.
Lemma lstrip_other c t : is_space c = false -> lstrip (c :: t) = c :: t.
Proof. intros E. cbn [lstrip]. by rewrite E. Qed.
Lemma lstrip_lstrip t : lstrip (lstrip t) = lstrip t.
Proof. destruct (lstrip_first t) as [->|(c & t' & -> & Hc)]; [done|by apply lstrip_other]. Qed.
Lemma lstrip_part t : exists pre, t = pre ++ lstrip t.
Proof.
  induction t as [|c t [pre IH]]; [by exists []|]. cbn [lstrip]. destruct (is_space c); [|by exists []]. exists (c :: pre). by rewrite IH at 1.
Qed.

Lemma strip_first t : strip t = [] \/ exists c t', strip t = c :: t' /\ is_space c = false.
Proof.
  unfold strip, rstrip. destruct (lstrip_first t) as [->|(c & t' & -> & Hc)]; [by left|].
  destruct (lstrip_part (rev (c :: t'))) as [pre H]. apply (f_equal (@rev Z)) in H. rewrite rev_involutive, rev_app_distr in H.
  destruct (rev (lstrip (rev (c :: t')))) as [|d l]; [by left|]. right. injection H as <- _. by eexists _, _.
Qed.

(** A line of what was stripped strips to it. *)
Lemma strip_line t : strip (strip t ++ [10]) = strip t.
Proof.
  assert (rstrip (strip t ++ [10]) = strip t) as H.
  { unfold rstrip. rewrite rev_app_distr. cbn. unfold strip, rstrip. by rewrite rev_involutive, lstrip_lstrip. }
  unfold strip at 1. destruct (strip_first t) as [E|(c & t' & E & Hc)].
  - by rewrite E.
  - rewrite E in *. rewrite <- app_comm_cons, lstrip_other; [|done]. by rewrite app_comm_cons.
Qed.

Lemma utf8_Ok t data : utf8 t = Ok data -> data = encode t /\ Forall (fun c => is_scalar c = true) t.
Proof. unfold utf8. destruct (forallb is_scalar t) eqn:E; [|done]. intros [= <-]. split; [done|].
  rewrite forallb_forall in E. apply Forall_forall. intros c Hc. by apply E, list_elem_of_In.
Qed.

Lemma encode_mark t rest : Forall (fun c => is_scalar c = true) t -> encode t = BYTE_ORDER_MARK ++ rest -> exists t', t = 0xFEFF :: t'.
Proof.
  intros Ht E. apply decoded_encode in Ht. rewrite E in Ht. cbn [app BYTE_ORDER_MARK] in Ht. rewrite decoded_cons in Ht.
  destruct t as [|c t']; [done|]. exists t'. f_equal. cbn in Ht. by injection Ht.
Qed.

Lemma decode_key_encode t : Forall (fun c => is_scalar c = true) t -> head t <> Some 0xFEFF -> decode_utf8_sig (encode t) = Some t.
Proof.
  intros Ht Hh. unfold decode_utf8_sig. destruct (starts_with _ _) eqn:E; [|by apply decode_encode].
  apply starts_with_spec in E as [rest E]. apply encode_mark in E as [t' ->]; [done|done].
Qed.

Lemma stored_key_file host env s d data mode : let p := str_path (stored_key_path env s) in
  links d !! p = None -> nodes d !! p = Some (File data mode) ->
  stored_key host env s d = match fault host (Read p) with Some _ => [] | None => key_of data end.
Proof. intros p Hl Hn. unfold stored_key, read_bytes, bytes_at, real. fold p. rewrite Hl. cbn [or_else]. rewrite Hn. by destruct (fault host (Read p)). Qed.

Lemma key_of_encode t : Forall (fun c => is_scalar c = true) t -> head t <> Some 0xFEFF -> (length (encode t) <= KEY_FILE_BYTES_MAX)%nat -> key_of (encode t) = strip t.
Proof.
  intros Hs Hh Hl. unfold key_of. rewrite take_ge by lia. destruct (KEY_FILE_BYTES_MAX <? length (encode t))%nat eqn:El; [apply Nat.ltb_lt in El; lia|].
  by rewrite decode_key_encode.
Qed.

Lemma store_key_failed host env s api_key d e d' data mode : HostLaws host ->
  let p := stored_key_path env s in
  is_file d (parent p) = false -> links d !! str_path p = None -> store_key host env s api_key d = (Raise e, d') ->
  nodes d !! str_path p = Some (File data mode) -> nodes d' !! str_path p = Some (File data mode) /\ links d' !! str_path p = None.
Proof.
  intros Hlaws p Hdir Hlink E Hn. assert (InstallFs.good (str_path p) [parent p] d) as Hgood.
  { split; [by exists data, mode|]. split; [done|]. apply Forall_singleton.
    assert (real d (str_path (parent p)) <> str_path p) as Hr by (intros Hr; unfold is_file, node_of in Hdir; by rewrite Hr, Hn in Hdir).
    split; [|done]. intros Hp. apply Hr. unfold real. by rewrite Hp, Hlink. }
  pose proof (spares_write host (str_path p) [parent p] p (strip api_key ++ [10]) ltac:(set_solver) d Hgood) as H.
  unfold store_key in E. fold p in E. rewrite E in H. cbn [fst snd] in H. destruct H as [H1 H2]. split; [by apply H1|].
  destruct (links d' !! str_path p) eqn:El; [apply H2 in El; congruence|done].
Qed.

(** C21 Storing the key is all or nothing, and what is stored reads back.  A run of [setup] that stores a
    key leaves exactly the stripped key and a newline in the key file, with mode 0600 whatever became of
    the calls of [chmod], and unless that file cannot be read, is too long, or the key begins with a
    byte-order mark, the process then resolves exactly that key; a run that fails, at whatever call,
    leaves the file and the key resolved from it as they were. *)
Theorem store_key_reads_back host env s api_key d : HostLaws host ->
  let p := stored_key_path env s in
  is_file d (parent p) = false -> links d !! str_path p = None ->
  match store_key host env s api_key d with
  | (Ok q, d') => q = p /\ exists data, utf8 (strip api_key ++ [10]) = Ok data /\ nodes d' !! str_path p = Some (File data FILE_MODE) /\
      (fault host (Read (str_path p)) = None -> (length data <= KEY_FILE_BYTES_MAX)%nat -> head (strip api_key) <> Some 0xFEFF ->
       stored_key host env s d' = strip api_key)
  | (Raise _, d') => forall data mode, nodes d !! str_path p = Some (File data mode) ->
      nodes d' !! str_path p = Some (File data mode) /\ stored_key host env s d' = stored_key host env s d
  end.
Proof.
  intros Hlaws p Hdir Hlink. destruct (store_key host env s api_key d) as [[q|e] d'] eqn:E.
  - apply write_private_Ok in E as (-> & data & Hu & Hn & Hl). split; [done|]. exists data. split; [done|]. split; [done|]. intros Hread Hlen Hmark.
    rewrite (stored_key_file _ _ _ _ _ _ Hl Hn). fold p. rewrite Hread. apply utf8_Ok in Hu as [-> Hs].
    rewrite key_of_encode; [apply strip_line|done| |done]. destruct (strip api_key); [done|exact Hmark].
  - intros data mode Hn. destruct (store_key_failed _ _ _ _ _ _ _ _ _ Hlaws Hdir Hlink E Hn) as [Hn' Hl']. split; [done|].
    by rewrite (stored_key_file _ _ _ _ _ _ Hl' Hn'), (stored_key_file _ _ _ _ _ _ Hlink Hn).
Qed.

(** ** Samples *)
Definition sample_env : Env := {| environ := []; user_home := pure (u "/h") |}.
Definition bare_disk : Disk := {| nodes := {[ u "/h" := Directory (octal 7 5 5) ]}; links := ∅ |}.

(** Stored, and stored again where the file cannot be replaced. *)
Definition locked_host : Host :=
  {| fault := fun op => match op with Replace _ _ => Some (u "Permission denied") | _ => None end;
     sha256 := sha256 sample_host; temporary := temporary sample_host; rival := rival sample_host |}.
#[export] Instance locked_host_laws : HostLaws locked_host.
Proof. intros d dir prefix t. apply sample_host_laws. Qed.

Example key_replaced : let (r, d) := store_key sample_host sample_env unset (u " k-12345678 ") bare_disk in
  let (r', d') := store_key locked_host sample_env unset (u "other") d in
  r = Ok (pure (u "/h/.config/jev-mcp/key")) /\ stored_key sample_host sample_env unset d = u "k-12345678" /\
  r' = Raise (OSError (u "Permission denied")) /\ stored_key sample_host sample_env unset d' = u "k-12345678".
Proof. vm_compute. done. Qed.

Lemma store_key_reads_back_witness :
  exists q d', store_key sample_host sample_env unset (u " k-12345678 ") bare_disk = (Ok q, d') /\ stored_key sample_host sample_env unset d' = u "k-12345678".
Proof.
  pose proof (store_key_reads_back sample_host sample_env unset (u " k-12345678 ") bare_disk sample_host_laws eq_refl eq_refl) as H.
  assert (match (store_key sample_host sample_env unset (u " k-12345678 ") bare_disk).1 with Ok _ => true | Raise _ => false end = true) as Hok
    by (vm_compute; reflexivity).
  destruct (store_key sample_host sample_env unset (u " k-12345678 ") bare_disk) as [[q|e] d'] eqn:E; [|discriminate Hok].
  exists q, d'. split; [reflexivity|]. destruct H as (_ & data & Hu & _ & H). specialize (H eq_refl).
  assert (strip (u " k-12345678 ") = u "k-12345678") as Hs by (vm_compute; reflexivity). rewrite Hs in H, Hu. apply H; [|discriminate].
  assert (utf8 (u "k-12345678" ++ [10]) = Ok (u "k-12345678" ++ [10])) as Hu' by (vm_compute; reflexivity). rewrite Hu' in Hu. injection Hu as <-.
  apply Nat.leb_le. vm_compute. reflexivity.
Defined.
