(* ===== verification/Resolver.v ===== *)
(** * The provider the configuration selects

    Models [providers/resolver.py]: the model and key of the process, the explicit choice and the
    automatic order, and the provider that is built.  Specified declaratively: a provider is selected
    when it is usable and either named, or first among the usable when nothing known is named. *)
From S2P Require Import Prelude Json PyStrings InstallFs Redact Settings KeyFile Retry Provider Http Adapters.
Open Scope Z_scope.

Definition DEFAULT_MODEL : text := u "jev-latest".

Inductive ProviderName := typesafe | openrouter | cloudflare | compatible.
#[export] Instance ProviderName_eq_dec : EqDecision ProviderName.
Proof. solve_decision. Defined.
Definition name_text (n : ProviderName) : text :=
  match n with typesafe => u "typesafe" | openrouter => u "openrouter" | cloudflare => u "cloudflare" | compatible => u "compatible" end.

Definition PRIMARY_CREDENTIAL : dict text :=
  [(u "typesafe", u "TYPESAFE_API_KEY"); (u "openrouter", u "OPENROUTER_API_KEY"); (u "cloudflare", u "CLOUDFLARE_API_TOKEN");
   (u "compatible", u "JEV_API_KEY")].

Definition VERCEL_UNSUPPORTED : text :=
  u "vercel provider is not supported by the Python server; use typesafe, openrouter, cloudflare or compatible".
Definition NO_CREDENTIALS : text :=
  u "No Jev provider credentials found. Set TYPESAFE_API_KEY, OPENROUTER_API_KEY (sk-or-), Cloudflare token + " ++
  u "CLOUDFLARE_ACCOUNT_ID, AI_GATEWAY_API_KEY, or JEV_API_KEY + JEV_API_BASE_URL; set JEV_PROVIDER to choose " ++
  u "explicitly.".

(** What is built: one of the adapters, or the SDK's provider. *)
Inductive JevProvider :=
| TypeSafeProvider (api_key : text) (base_url : option text)
| HttpProvider (p : Adapters.Provider).

(** [_value]. *)
Definition secret_value (secret : option text) : text := or_else secret [].
Definition filled (t : text) : bool := negb (bool_decide (t = [])).
Definition or_text (a b : text) : text := match a with [] => b | _ => a end.

Definition resolve_model (s : Settings) : text := match jev_judge_mcp_model s with None => DEFAULT_MODEL | Some m => m end.

Inductive KeySource := environment | from_key_file | no_key.

Definition missing_text (missing : list text) : text :=
  u "JEV_PROVIDER=compatible but " ++ join (u " and ") missing ++ u " " ++ (if (1 <? length missing)%nat then u "are" else u "is") ++
  u " not set. JEV_MCP_MODEL is optional and defaults to jev-latest.".

Section Resolve.
Context {U : Unicode} (host : Host) (env : Env).

Definition typesafe_key (s : Settings) (d : Disk) : text * KeySource :=
  match secret_value (typesafe_api_key s) with
  | (_ :: _) as value => (value, environment)
  | [] =>
    match stored_key host env s d with
    | (_ :: _) as stored => (stored, from_key_file)
    | [] => ([], no_key)
    end
  end.

Definition openrouter_key (s : Settings) : text := secret_value (openrouter_api_key s).
Definition cloudflare_token (s : Settings) : text := or_text (secret_value (jev_cloudflare_api_token s)) (secret_value (cloudflare_api_token s)).
Definition account_id (s : Settings) : text := or_else (cloudflare_account_id s) [].
Definition has_openrouter (s : Settings) : bool := starts_with (u "sk-or-") (openrouter_key s).
Definition has_cloudflare (s : Settings) : bool := filled (cloudflare_token s) && filled (account_id s).

(** The builders. *)
Definition build (n : ProviderName) (s : Settings) (d : Disk) : JevProvider :=
  match n with
  | typesafe =>
    TypeSafeProvider (typesafe_key s d).1 (match secret_value (typesafe_base_url s) with [] => None | url => Some url end)
  | openrouter => HttpProvider (OpenRouterProvider (openrouter_key s))
  | cloudflare => HttpProvider (CloudflareProvider (cloudflare_token s) (account_id s))
  | compatible => HttpProvider (CompatibleProvider (secret_value (jev_api_key s)) (secret_value (jev_api_base_url s)))
  end.

(** A [ProviderConfigError] is its text. *)
Definition select_provider (s : Settings) (d : Disk) : result text (ProviderName * JevProvider) :=
  let explicit := uni_lower (jev_provider s) in
  let key := (typesafe_key s d).1 in
  let api_key := secret_value (jev_api_key s) in
  let base_url := secret_value (jev_api_base_url s) in
  let selected n := Ok (n, build n s d) in
  if bool_decide (explicit = u "typesafe") then
    if filled key then selected typesafe else Raise (u "JEV_PROVIDER=typesafe but TYPESAFE_API_KEY is not set.")
  else if bool_decide (explicit = u "openrouter") then
    if has_openrouter s then selected openrouter
    else Raise (u "JEV_PROVIDER=openrouter but OPENROUTER_API_KEY is not set or not an sk-or- key.")
  else if bool_decide (explicit = u "vercel") then Raise VERCEL_UNSUPPORTED
  else if bool_decide (explicit = u "cloudflare") then
    if has_cloudflare s then selected cloudflare
    else Raise (u "JEV_PROVIDER=cloudflare but a Cloudflare API token (CLOUDFLARE_API_TOKEN or " ++
                u "JEV_CLOUDFLARE_API_TOKEN) and CLOUDFLARE_ACCOUNT_ID are not both set.")
  else if bool_decide (explicit = u "compatible") then
    match omap (fun nv => if filled nv.2 then None else Some nv.1) [(u "JEV_API_KEY", api_key); (u "JEV_API_BASE_URL", base_url)] with
    | [] => selected compatible
    | missing => Raise (missing_text missing)
    end
  else if filled key then selected typesafe
  else if has_openrouter s then selected openrouter
  else if has_cloudflare s then selected cloudflare
  else if filled (secret_value (ai_gateway_api_key s)) then Raise VERCEL_UNSUPPORTED
  else if filled api_key && filled base_url then selected compatible
  else Raise NO_CREDENTIALS.

(** [resolve_provider]. *)
Definition resolve_provider (s : Settings) (d : Disk) : result text JevProvider := let? np := select_provider s d in Ok np.2.

(** ** Specification *)
Definition usable (s : Settings) (d : Disk) (n : ProviderName) : bool :=
  match n with
  | typesafe => filled (typesafe_key s d).1
  | openrouter => has_openrouter s
  | cloudflare => has_cloudflare s
  | compatible => filled (secret_value (jev_api_key s)) && filled (secret_value (jev_api_base_url s))
  end.

(** The automatic order; [None] is the slot of vercel, taken by its key. *)
Definition ORDER : list (option ProviderName) := [Some typesafe; Some openrouter; Some cloudflare; None; Some compatible].
Definition taken (s : Settings) (d : Disk) (slot : option ProviderName) : bool :=
  match slot with Some n => usable s d n | None => filled (secret_value (ai_gateway_api_key s)) end.

Definition KNOWN : list text := [u "typesafe"; u "openrouter"; u "vercel"; u "cloudflare"; u "compatible"].

(** A provider is selected by its name, or as the first usable one when no known name is given. *)
Definition selects (s : Settings) (d : Disk) (n : ProviderName) : Prop :=
  let explicit := uni_lower (jev_provider s) in
  usable s d n = true /\
  (explicit = name_text n \/ explicit ∉ KNOWN /\ exists before after, ORDER = before ++ Some n :: after /\ Forall (fun slot => taken s d slot = false) before).

(** The credential a provider sends. *)
Definition credential (p : JevProvider) : text :=
  match p with
  | TypeSafeProvider key _ | HttpProvider (CompatibleProvider key _) | HttpProvider (OpenRouterProvider key) | HttpProvider (CloudflareProvider key _) => key
  end.

(** ** Facts *)
Lemma filled_true t : filled t = true <-> t <> [].
Proof. unfold filled. case_bool_decide; naive_solver. Qed.
Lemma filled_false t : filled t = false <-> t = [].
Proof. unfold filled. case_bool_decide; naive_solver. Qed.

Lemma missing_nil s : omap (fun nv => if filled nv.2 then None else Some nv.1)
    [(u "JEV_API_KEY", secret_value (jev_api_key s)); (u "JEV_API_BASE_URL", secret_value (jev_api_base_url s))] = [] <->
  filled (secret_value (jev_api_key s)) && filled (secret_value (jev_api_base_url s)) = true.
Proof. cbn. destruct (filled (secret_value (jev_api_key s))), (filled (secret_value (jev_api_base_url s))); done. Qed.

Lemma order_before before n after : ORDER = before ++ Some n :: after ->
  before = match n with typesafe => [] | openrouter => [Some typesafe] | cloudflare => [Some typesafe; Some openrouter]
           | compatible => [Some typesafe; Some openrouter; Some cloudflare; None] end.
Proof.
  intros H. do 5 (destruct before as [|slot before]; [destruct n; try discriminate H; reflexivity|]; injection H as <- H).
  by destruct before.
Qed.

Local Ltac earlier := repeat (apply Forall_cons; split; [eassumption|]); by apply Forall_nil.

(** The slots in order: the first taken one decides. *)
Lemma first_taken s d n :
  (exists before after, ORDER = before ++ Some n :: after /\ Forall (fun slot => taken s d slot = false) before) /\ usable s d n = true <->
  head (List.filter (taken s d) ORDER) = Some (Some n).
Proof.
  unfold ORDER. split.
  - intros [(before & after & H & Hb) Hn]. rewrite (order_before _ _ _ H) in Hb. cbn [List.filter].
    destruct n; cbn [taken]; repeat (apply Forall_cons in Hb as [Ht Hb]; cbn [taken] in Ht; rewrite Ht; clear Ht); by rewrite Hn.
  - cbn [List.filter taken]. intros H. destruct (usable s d typesafe) eqn:E1; [injection H as <-; split; [exists [], [Some openrouter; Some cloudflare; None; Some compatible]; split; [done|earlier]|done]|].
    destruct (usable s d openrouter) eqn:E2; [injection H as <-; split; [exists [Some typesafe], [Some cloudflare; None; Some compatible]; split; [done|earlier]|done]|].
    destruct (usable s d cloudflare) eqn:E3; [injection H as <-; split; [exists [Some typesafe; Some openrouter], [None; Some compatible]; split; [done|earlier]|done]|].
    destruct (filled _) eqn:E4; [done|]. destruct (usable s d compatible) eqn:E5; [|done]. injection H as <-.
    split; [exists [Some typesafe; Some openrouter; Some cloudflare; None], []; split; [done|earlier]|done].
Qed.

Lemma select_auto s d n p : uni_lower (jev_provider s) ∉ KNOWN ->
  select_provider s d = Ok (n, p) <-> head (List.filter (taken s d) ORDER) = Some (Some n) /\ p = build n s d.
Proof.
  intros H. unfold select_provider. unfold KNOWN in H. rewrite !not_elem_of_cons in H. destruct H as (H1 & H2 & H3 & H4 & H5 & _).
  do 5 (rewrite bool_decide_eq_false_2 by done). unfold ORDER. cbn [List.filter taken usable].
  destruct (filled (typesafe_key s d).1); [naive_solver|]. destruct (has_openrouter s); [naive_solver|].
  destruct (has_cloudflare s); [naive_solver|]. destruct (filled (secret_value (ai_gateway_api_key s))); [naive_solver|].
  destruct (_ && _); naive_solver.
Qed.

Lemma select_named s d n p m : uni_lower (jev_provider s) = name_text m -> select_provider s d = Ok (n, p) <-> n = m /\ usable s d n = true /\ p = build n s d.
Proof.
  intros H. assert (forall (b : bool) (e : text), b = usable s d m ->
    (if b then Ok (m, build m s d) else Raise e : result text _) = (Ok (n, p) : result text _) <-> n = m /\ usable s d n = true /\ p = build n s d) as Hb.
  { intros b e Hb. destruct b; split; [by intros [= <- <-]|by intros (-> & _ & ->)|done|by intros (-> & Hu & _); rewrite <- Hb in Hu]. }
  unfold select_provider. rewrite H. destruct m; cbn [name_text].
  - rewrite bool_decide_eq_true_2 by done. by apply Hb.
  - rewrite bool_decide_eq_false_2, bool_decide_eq_true_2 by done. by apply Hb.
  - do 3 (rewrite bool_decide_eq_false_2 by done). rewrite bool_decide_eq_true_2 by done. by apply Hb.
  - do 4 (rewrite bool_decide_eq_false_2 by done). rewrite bool_decide_eq_true_2 by done. pose proof (missing_nil s) as Hm.
    destruct (omap _ _) as [|x l] eqn:E; [apply (Hb true [] (eq_sym (proj1 Hm eq_refl)))|].
    split; [done|]. intros (-> & Hu & _). cbn [usable] in Hu. by apply Hm in Hu.
Qed.

(** The credential of a usable provider is one of the configured secrets, or the stored key. *)
Lemma build_credential s d n : usable s d n = true -> credential (build n s d) <> [] /\ credential (build n s d) ∈ redaction_values host env s d.
Proof.
  assert (forall name field, (name, field) ∈ SECRETS -> secret_value (field s) <> [] -> secret_value (field s) ∈ redaction_values host env s d) as Hs.
  { intros name field Hin Hne. assert (secret_value (field s) ∈ secret_values s) as H.
    { unfold secret_value in *. destruct (field s) eqn:E; [|done]. by eapply secret_values_In. }
    unfold redaction_values. destruct (stored_key host env s d); [done|]. apply elem_of_app. by left. }
  destruct n; cbn [usable build credential].
  - intros Hf%filled_true. split; [done|]. unfold typesafe_key in *. destruct (secret_value (typesafe_api_key s)) as [|c value] eqn:E.
    + unfold redaction_values. destruct (stored_key host env s d) as [|c stored]; [done|]. apply elem_of_app. right. cbn [fst]. by apply list_elem_of_singleton.
    + cbn [fst]. rewrite <- E. apply (Hs (u "TYPESAFE_API_KEY")); [unfold SECRETS; constructor|by rewrite E].
  - unfold has_openrouter. intros H. assert (openrouter_key s <> []) as Hne by (by intros E; rewrite E in H). split; [done|].
    apply (Hs (u "OPENROUTER_API_KEY")); [unfold SECRETS; do 2 constructor; constructor|done].
  - unfold has_cloudflare. intros [Hf%filled_true _]%andb_prop. split; [done|]. unfold cloudflare_token, or_text in *.
    destruct (secret_value (jev_cloudflare_api_token s)) as [|c value] eqn:E.
    + apply (Hs (u "CLOUDFLARE_API_TOKEN")); [unfold SECRETS; do 4 constructor; constructor|done].
    + rewrite <- E. apply (Hs (u "JEV_CLOUDFLARE_API_TOKEN")); [unfold SECRETS; do 3 constructor; constructor|by rewrite E].
  - intros [Hf%filled_true _]%andb_prop. split; [done|]. apply (Hs (u "JEV_API_KEY")); [unfold SECRETS; do 6 constructor; constructor|done].
Qed.

(** C20 The provider that is selected is the one the configuration means.  Resolution returns a provider
    exactly when it is usable and either [JEV_PROVIDER] names it, in any case, or names nothing known and
    no provider before it in the order typesafe, openrouter, cloudflare, vercel, compatible has its
    credentials; every other configuration is refused before any request.  What is built carries the
    credential and endpoint of that provider, and the credential is not empty and one of the values
    that redaction covers. *)
Theorem select_provider_meant s d n p :
  (select_provider s d = Ok (n, p) <-> selects s d n /\ p = build n s d) /\
  (select_provider s d = Ok (n, p) -> resolve_provider s d = Ok p /\ credential p <> [] /\ credential p ∈ redaction_values host env s d).
Proof.
  assert (select_provider s d = Ok (n, p) <-> selects s d n /\ p = build n s d) as Hiff.
  { unfold selects. destruct (decide (uni_lower (jev_provider s) ∈ KNOWN)) as [Hk|Hk].
    - assert (uni_lower (jev_provider s) = u "vercel" \/ exists m, uni_lower (jev_provider s) = name_text m) as [Hv|[m Hm]].
      { unfold KNOWN in Hk. rewrite !elem_of_cons in Hk. destruct Hk as [?|[?|[?|[?|[?|Hk]]]]]; [right; by exists typesafe|right; by exists openrouter|by left|
          right; by exists cloudflare|right; by exists compatible|by apply not_elem_of_nil in Hk]. }
      + unfold select_provider. rewrite Hv. do 2 (rewrite bool_decide_eq_false_2 by done). rewrite bool_decide_eq_true_2 by done.
        split; [done|]. intros [[_ [H|[H _]]] _]; [by destruct n|]. by rewrite Hv in Hk.
      + rewrite (select_named _ _ _ _ m Hm). rewrite Hm. split; [intros (-> & ? & ->); naive_solver|].
        intros [[Hu [H|[H _]]] ->]; [|by rewrite Hm in Hk]. split; [by destruct m, n|done].
    - rewrite select_auto, <- first_taken by done. split; [intros [[H Hu] ->]; naive_solver|].
      intros [[Hu [H|[_ H]]] ->]; [|done]. exfalso. apply Hk. rewrite H. unfold KNOWN. destruct n; set_solver. }
  split; [done|]. intros H. pose proof (proj1 Hiff H) as [[Hu _] ->]. unfold resolve_provider. rewrite H. split; [done|]. by apply build_credential.
Qed.
End Resolve.

(** ** Samples *)
Definition sample_select (variables : dict text) : result text (ProviderName * JevProvider) :=
  select_provider (U := ascii_unicode) sample_host sample_env (sample_settings variables) bare_disk.

Example selections : let opt := u "OPENROUTER_API_KEY" in let vercel := (u "AI_GATEWAY_API_KEY", u "v") in
  let jev := [(u "JEV_API_KEY", u "k"); (u "JEV_API_BASE_URL", u "https://jev.test")] in
  (fst <$> omap (fun v => match sample_select v with Ok np => Some np | Raise _ => None end)
     [jev; (opt, u "sk-or-1") :: jev; (opt, u "sk-1") :: jev; vercel :: (u "JEV_PROVIDER", u "Compatible") :: jev]) = [compatible; openrouter; compatible; compatible] /\
  sample_select (vercel :: jev) = Raise VERCEL_UNSUPPORTED /\ sample_select [] = Raise NO_CREDENTIALS /\
  sample_select [(u "JEV_PROVIDER", u "compatible")] = Raise (missing_text [u "JEV_API_KEY"; u "JEV_API_BASE_URL"]).
Proof. vm_compute. done. Qed.

Lemma select_provider_meant_witness :
  exists n p, sample_select [(u "CLOUDFLARE_API_TOKEN", u "cf-123456"); (u "CLOUDFLARE_ACCOUNT_ID", u "acc")] = Ok (n, p) /\
    n = cloudflare /\ credential p ∈ redaction_values sample_host sample_env (sample_settings [(u "CLOUDFLARE_API_TOKEN", u "cf-123456"); (u "CLOUDFLARE_ACCOUNT_ID", u "acc")]) bare_disk.
Proof.
  exists cloudflare, (HttpProvider (CloudflareProvider (u "cf-123456") (u "acc"))).
  assert (sample_select [(u "CLOUDFLARE_API_TOKEN", u "cf-123456"); (u "CLOUDFLARE_ACCOUNT_ID", u "acc")]
    = Ok (cloudflare, HttpProvider (CloudflareProvider (u "cf-123456") (u "acc")))) as H by (vm_compute; reflexivity).
  split; [exact H|]. split; [reflexivity|]. exact (proj2 (proj2 (proj2 (select_provider_meant (U := ascii_unicode) sample_host sample_env _ bare_disk _ _) H))).
Defined.
