(* ===== verification/Server.v ===== *)
(** * Starting the server

    Models the gates of [server.py] and [http_auth.py]: what a start refuses, the bind of the port with
    its retries, the bearer token in front of the HTTP transport, the choice of a subcommand, and what
    [tools/call] and the stdio transport make of a message.  Sockets and the clock are parameters. *)
From S2P Require Import Prelude Float64 Json Serialize PyStrings Http Runtime Toolset InstallFs Utf8 Redact Settings KeyFile Resolver.
Open Scope Z_scope.

(** Why a start ends: a line on stderr and exit code 1, an error of the system, or settings that do not load. *)
Inductive Stop := SystemExit (message : text) | OsError (message : text) | ValidationError.

(** ** Secrets *)
Definition MIN_SECRET_LENGTH : nat := 8.
Definition too_short (where_ : text) (what : text) : text :=
  where_ ++ what ++ u " shorter than " ++ str_of_nat MIN_SECRET_LENGTH ++ u " characters; refusing to start: " ++
  u "a secret that short cannot be redacted without corrupting text".
Definition short (value : text) : bool := (length value <? MIN_SECRET_LENGTH)%nat.

(** ** Access to the HTTP transport *)
Definition HTTP_TOKEN_MIN_LENGTH : nat := 32.
Definition PROTECTED_HOSTS : list text := [u "127.0.0.1"; u "localhost"; u "::1"].
Definition GENERATE_TOKEN : text := u "python -c " ++ dq ++ u "import secrets; print(secrets.token_urlsafe(32))" ++ dq.
Definition is_protected_host (host : text) : bool := bool_decide (host ∈ PROTECTED_HOSTS).

Definition ensure_http_access_control (s : Settings) : result Stop unit :=
  match transport s with
  | stdio => Ok tt
  | streamable_http =>
    if match http_token s with Some token => (length token <? HTTP_TOKEN_MIN_LENGTH)%nat | None => false end then
      Raise (SystemExit (u "JEV_MCP_HTTP_TOKEN is shorter than " ++ str_of_nat HTTP_TOKEN_MIN_LENGTH ++
        u " characters; refusing to start. Generate a token with: " ++ GENERATE_TOKEN))
    else if is_none (http_token s) && negb (is_protected_host (http_host s)) then
      Raise (SystemExit (u "JEV_MCP_HTTP_HOST=" ++ http_host s ++ u " has neither Host/Origin validation (the SDK grants " ++
        u "that only to " ++ join (u ", ") PROTECTED_HOSTS ++ u ") nor a token, so the HTTP transport would expose " ++
        u "an unauthenticated server that spends the provider credential. Set JEV_MCP_HTTP_TOKEN to a " ++
        u "secret of at least " ++ str_of_nat HTTP_TOKEN_MIN_LENGTH ++ u " characters to require a bearer token on every " ++
        u "request. Generate one with: " ++ GENERATE_TOKEN))
    else Ok tt
  end.

(** A connection as the ASGI server describes it, with the bytes of its [Authorization] header, and what
    becomes of it. *)
Record Scope := { scope_type : text; authorization : option (list Z) }.
Inductive Event := Passed | WebsocketClose (code : Z) | Response (status : Z) (header_lines : Headers) (body : text).

(** [t.partition(c)]: before and after. *)
Fixpoint partition (c : Z) (t : text) : text * text :=
  match t with [] => ([], []) | x :: t' => if x =? c then ([], t') else let (a, b) := partition c t' in (x :: a, b) end.

Section Auth.
Context {U : Unicode}.

(** [BearerTokenMiddleware]: Latin-1 text is its bytes. *)
Definition bearer_token_middleware (token : list Z) (scope : Scope) : Event :=
  if bool_decide (scope_type scope = u "lifespan") then Passed
  else if negb (bool_decide (scope_type scope = u "http")) then WebsocketClose 1008
  else
    let '(scheme, credential) := partition 32 (or_else (authorization scope) []) in
    if negb (bool_decide (uni_lower scheme = u "bearer")) || negb (bool_decide (credential = token)) then
      Response 401 [(u "WWW-Authenticate", u "Bearer")] (u "Unauthorized" ++ [10])
    else Passed.

(** [http_asgi_app]; a token that is no UTF-8 text raises. *)
Definition http_asgi_app (s : Settings) : result Exn (Scope -> Event) :=
  match http_token s with
  | None => Ok (fun _ => Passed)
  | Some token => let? bytes := utf8 token in Ok (bearer_token_middleware bytes)
  end.
End Auth.

(** ** The port *)
Definition HTTP_BIND_ATTEMPTS : nat := 4.
Definition HTTP_BIND_BUDGET_S : float := f_of_Z 2.
Definition http_port_in_use_message (port : Z) : text :=
  u "JEV_MCP_HTTP_PORT=" ++ str_of_Z port ++ u " is already in use; set JEV_MCP_HTTP_PORT to a free port".

Inductive BindError := AddressInUse | OtherError (message : text).
(** Opening a socket and binding it. *)
Inductive Opening := NoSocket (e : BindError) | NotBound (e : BindError) | Bound.

(** The system at each try: the addresses of a name, and what becomes of a socket for one. *)
Record Sockets := { Address : Type; addresses : nat -> text -> Z -> option (list Address); opening : nat -> Address -> Opening }.

Section Port.
Context (net : Sockets) (clock : nat -> float).

(** The sockets bound, or the error, and those left open. *)
Fixpoint bind_all (try : nat) (infos : list (Address net)) (sockets : list (Address net)) : result BindError (list (Address net)) * list (Address net) :=
  match infos with
  | [] => (Ok sockets, sockets)
  | a :: infos =>
    match opening net try a with
    | NoSocket e => (Raise e, sockets)
    | NotBound e => (Raise e, [])
    | Bound => bind_all try infos (sockets ++ [a])
    end
  end.
Definition bind_http_sockets (try : nat) (host : text) (port : Z) : result BindError (list (Address net)) * list (Address net) :=
  match addresses net try host port with None => (Ok [], []) | Some infos => bind_all try infos [] end.

(** The probe: all closed again. *)
Definition bind_http (try : nat) (host : text) (port : Z) : result BindError unit := let? _ := (bind_http_sockets try host port).1 in Ok tt.

(** The tries, with the waits between them. *)
Fixpoint try_bind (s : Settings) (deadline gap : float) (attempts : list nat) (waits : list float) : result Stop unit * list float :=
  match attempts with
  | [] => (Raise (SystemExit (http_port_in_use_message (http_port s))), waits)
  | attempt :: attempts =>
    match bind_http attempt (http_host s) (http_port s) with
    | Ok _ => (Ok tt, waits)
    | Raise (OtherError m) => (Raise (OsError m), waits)
    | Raise AddressInUse =>
      let remaining := fsub deadline (clock attempt) in
      if (attempt =? HTTP_BIND_ATTEMPTS)%nat || fleb remaining f_zero then (Raise (SystemExit (http_port_in_use_message (http_port s))), waits)
      else try_bind s deadline gap attempts (waits ++ [py_min gap remaining])
    end
  end.

Definition ensure_http_port_free (s : Settings) : result Stop unit * list float :=
  match transport s with
  | stdio => (Ok tt, [])
  | streamable_http =>
    let deadline := fadd (clock 0%nat) HTTP_BIND_BUDGET_S in
    let gap := fdiv HTTP_BIND_BUDGET_S (f_of_Z (Z.of_nat HTTP_BIND_ATTEMPTS - 1)) in
    try_bind s deadline gap (seq 1 HTTP_BIND_ATTEMPTS) []
  end.

(** The sockets the server listens on, after the gates. *)
Definition http_serve_sockets (try : nat) (s : Settings) : result Stop (option (list (Address net))) :=
  match transport s with
  | stdio => Ok None
  | streamable_http =>
    match (bind_http_sockets try (http_host s) (http_port s)).1 with
    | Ok [] => Ok None
    | Ok sockets => Ok (Some sockets)
    | Raise AddressInUse => Raise (SystemExit (http_port_in_use_message (http_port s)))
    | Raise (OtherError m) => Raise (OsError m)
    end
  end.
End Port.

(** ** The gates *)
Definition provider_not_runnable_message : text :=
  u "the typesafe provider is selected, but the typesafe-sdk package is missing: " ++
  u "install jev-judge-mcp[typesafe] (a uvx spec needs --from 'jev-judge-mcp[typesafe]' " ++ u "or '<path>[typesafe]')".

Section Gates.
Context {U : Unicode} (host : Host) (env : Env) (net : Sockets) (clock : nat -> float) (sdk_importable : bool).

Definition ensure_secrets_redactable (s : Settings) (d : Disk) : result Stop unit :=
  match List.find (fun nv => short nv.2) (named_secrets s) with
  | Some (variable, _) => Raise (SystemExit (too_short variable (u " is")))
  | None =>
    let stored := stored_key host env s d in
    if filled stored && short stored then
      Raise (SystemExit (too_short (u "the key file " ++ str_path (stored_key_path env s) ++ (if is_none (key_file s) then [] else u " set by JEV_MCP_KEY_FILE"))
        (u " holds a key")))
    else Ok tt
  end.

Definition ensure_provider_runnable (s : Settings) (d : Disk) : result Stop unit :=
  match select_provider host env s d with
  | Raise _ => Ok tt
  | Ok (name, _) => if bool_decide (name = typesafe) && negb sdk_importable then Raise (SystemExit provider_not_runnable_message) else Ok tt
  end.

(** The gates of [main], in their order. *)
Definition gates (s : Settings) (d : Disk) : result Stop unit :=
  let? _ := ensure_secrets_redactable s d in
  let? _ := ensure_http_access_control s in
  let? _ := (ensure_http_port_free net clock s).1 in
  ensure_provider_runnable s d.
End Gates.

(** ** Subcommands *)
Definition requested (name : string) (argv : list text) : bool := match argv with _ :: a :: _ => bool_decide (a = u name) | _ => false end.
Definition version_requested : list text -> bool := requested "--version".
Definition help_requested (argv : list text) : bool := match argv with _ :: a :: _ => mem a [u "--help"; u "-h"] | _ => false end.
Definition installer_requested : list text -> bool := requested "install".
Definition hook_requested : list text -> bool := requested "hook".
Definition doctor_requested : list text -> bool := requested "doctor".
Definition setup_requested : list text -> bool := requested "setup".
Definition calibrate_requested : list text -> bool := requested "calibrate".
Definition judge_requested : list text -> bool := requested "judge".
Definition gate_cli_requested : list text -> bool := requested "gate".
Definition completion_hook_requested : list text -> bool := requested "completion-hook".

Inductive Command := PrintVersion | PrintUsage | Install | Hook | Doctor | Setup | Calibrate | Judge | GateCli | CompletionHook | Serve.

Definition require_posix (platform : text) : result Stop unit :=
  if starts_with (u "win") platform then
    Raise (SystemExit (u "unsupported platform " ++ platform ++ u ": jev-judge-mcp is POSIX-only; " ++
      u "Windows is unsupported until Windows-specific behavior is implemented and tested"))
  else Ok tt.

Definition command (argv : list text) : Command :=
  if version_requested argv then PrintVersion
  else if help_requested argv then PrintUsage
  else if installer_requested argv then Install
  else if hook_requested argv then Hook
  else if doctor_requested argv then Doctor
  else if setup_requested argv then Setup
  else if calibrate_requested argv then Calibrate
  else if judge_requested argv then Judge
  else if gate_cli_requested argv then GateCli
  else if completion_hook_requested argv then CompletionHook
  else Serve.

Section Main.
Context {U : Unicode} (host : Host) (env : Env) (net : Sockets) (clock : nat -> float) (sdk_importable : bool).

(** [main], up to what it then runs: a validation error of the settings ends it, too. *)
Definition main (platform : text) (load : option Settings) (argv : list text) (d : Disk) : result Stop Command :=
  let? _ := require_posix platform in
  let run := command argv in
  match run with
  | Judge | GateCli | CompletionHook =>
    match load with
    | None => Raise ValidationError
    | Some s => let? _ := ensure_secrets_redactable host env s d in Ok run
    end
  | Serve =>
    match load with
    | None => Raise ValidationError
    | Some s => let? _ := gates host env net clock sdk_importable s d in Ok run
    end
  | _ => Ok run
  end.
End Main.

(** ** Calls *)
Definition INTERNAL_ERROR : Z := -32603.
Definition NULL_ARGUMENTS : text := stringify (VList [VDict
  [(u "expected", VStr (u "record")); (u "code", VStr (u "invalid_type")); (u "path", VList [VStr (u "params"); VStr (u "arguments")]);
   (u "message", VStr (u "Invalid input: expected record, received null"))]]).

(** [call_tool]: [params] are the raw parameters of the request, if there is one; an [MCPError] is its code
    and message. *)
Definition call_tool (tools : list JevTool) (rt : Runtime) (params : option (dict value)) (name : text) (arguments : dict value) (log : Log)
    : result (Z * text) (CallToolResult * Log) :=
  let raw := dget (u "arguments") (or_else params []) in
  match raw with
  | Some VNone => Raise (INTERNAL_ERROR, NULL_ARGUMENTS)
  | _ => Ok (call tools rt name (if is_none params || negb (is_none raw) then Some arguments else None) log)
  end.

(** [parse_line] of [stdio.py]: [validate] is the SDK's model of a message; an error is dropped. *)
Definition parse_line {Message} (validate : value -> option Message) (line : text) : option Message := v ← decode_json line; validate v.

(** ** Facts *)
Lemma partition_spec c t a b : partition c t = (a, b) -> (t = a ++ c :: b /\ c ∉ a) \/ (c ∉ t /\ a = t /\ b = []).
Proof.
  revert a b. induction t as [|x t IH]; intros a b; cbn [partition]; [intros [= <- <-]; right; set_solver|].
  destruct (x =? c) eqn:E; [intros [= <- <-]; apply Z.eqb_eq in E as ->; left; set_solver|]. apply Z.eqb_neq in E.
  destruct (partition c t) as [a' b'] eqn:Ep. intros [= <- <-]. destruct (IH _ _ eq_refl) as [[-> Hn]|(Hn & -> & ->)]; [left|right]; set_solver.
Qed.
Lemma partition_app c a b : c ∉ a -> partition c (a ++ c :: b) = (a, b).
Proof.
  induction a as [|x a IH]; cbn; [by rewrite Z.eqb_refl|]. intros [Hx Ha]%not_elem_of_cons. rewrite IH by done.
  by destruct (x =? c) eqn:E; [apply Z.eqb_eq in E|].
Qed.

Lemma gates_inv {U : Unicode} host env net clock sdk s d : gates host env net clock sdk s d = Ok tt ->
  ensure_secrets_redactable host env s d = Ok tt /\ ensure_http_access_control s = Ok tt /\ (ensure_http_port_free net clock s).1 = Ok tt /\
  ensure_provider_runnable host env sdk s d = Ok tt.
Proof.
  unfold gates. intros ([] & H1 & H)%rbind_Ok. apply rbind_Ok in H as ([] & H2 & H). by apply rbind_Ok in H as ([] & H3 & H).
Qed.

Lemma redactable_long host env s d : ensure_secrets_redactable host env s d = Ok tt ->
  Forall (fun v => MIN_SECRET_LENGTH <= length v)%nat (redaction_values host env s d).
Proof.
  unfold ensure_secrets_redactable. destruct (List.find _ _) as [[variable v]|] eqn:E; [done|]. intros H.
  assert (Forall (fun v => MIN_SECRET_LENGTH <= length v)%nat (secret_values s)) as Hs.
  { unfold secret_values. apply Forall_fmap, Forall_forall. intros nv Hin%list_elem_of_In. pose proof (List.find_none _ _ E _ Hin) as Hl.
    cbn. by apply Nat.ltb_ge. }
  unfold redaction_values. destruct (stored_key host env s d) as [|c t] eqn:Ek; [done|]. apply Forall_app. split; [done|]. apply Forall_singleton.
  cbn [filled] in H. destruct (short (c :: t)) eqn:El; [done|]. by apply Nat.ltb_ge.
Qed.

(** The port: one of the tries found it free, those before found it taken, with a wait after each. *)
Lemma try_bind_spec net clock s deadline gap k n waits : (n + k = S HTTP_BIND_ATTEMPTS)%nat ->
  let '(r, waits') := try_bind net clock s deadline gap (seq n k) waits in
  (length waits' <= length waits + (k - 1))%nat /\
  (r = Ok tt -> exists m, (n <= m <= HTTP_BIND_ATTEMPTS)%nat /\ bind_http net m (http_host s) (http_port s) = Ok tt /\
     forall j, (n <= j < m)%nat -> bind_http net j (http_host s) (http_port s) = Raise AddressInUse).
Proof.
  revert n waits. induction k as [|k IH]; intros n waits Hn; cbn [seq try_bind]; [split; [lia|done]|].
  destruct (bind_http net n _ _) as [[]|[|m]] eqn:E; [|  |split; [lia|done]].
  - split; [lia|]. intros _. exists n. split; [lia|]. split; [done|]. intros j Hj. lia.
  - destruct (_ || _) eqn:Eo; [split; [lia|done]|]. apply orb_false_iff in Eo as [En%Nat.eqb_neq _].
    specialize (IH (S n) (waits ++ [py_min gap (fsub deadline (clock n))]) ltac:(lia)).
    destruct (try_bind _ _ _ _ _ _ _) as [r waits']. rewrite length_app in IH. cbn in IH. destruct IH as [Hl Hr]. split; [unfold HTTP_BIND_ATTEMPTS in *; lia|].
    intros Hok. destruct (Hr Hok) as (m & Hm & Hb & Hj). exists m. split; [lia|]. split; [done|]. intros j Hj'.
    destruct (decide (j = n)) as [->|]; [done|]. apply Hj. lia.
Qed.

Lemma middleware_passes {U : Unicode} token scope : (0 < length token)%nat ->
  bearer_token_middleware token scope = Passed <->
  scope_type scope = u "lifespan" \/
  (scope_type scope = u "http" /\ exists scheme, authorization scope = Some (scheme ++ 32 :: token) /\ 32 ∉ scheme /\ uni_lower scheme = u "bearer").
Proof.
  intros Htok. unfold bearer_token_middleware. case_bool_decide as Hl; [split; [by left|done]|].
  case_bool_decide as Hh; cbn [negb]; [|split; [done|]; intros [?|[? _]]; done].
  destruct (partition 32 (or_else (authorization scope) [])) as [scheme credential] eqn:Ep. split.
  - intros H. right. split; [done|]. case_bool_decide as Hs; [|done]. case_bool_decide as Hc; [|done]. subst credential.
    apply partition_spec in Ep as [[Ep Hn]|(_ & _ & ->)]; [|cbn in Htok; lia]. exists scheme.
    destruct (authorization scope) as [bytes|]; cbn in Ep; [by subst|by destruct scheme].
  - intros [?|(_ & scheme' & Ha & Hn & Hs)]; [done|]. rewrite Ha in Ep. cbn [or_else] in Ep. rewrite partition_app in Ep by done. injection Ep as <- <-.
    by rewrite !bool_decide_eq_true_2 by done.
Qed.

(** C5 A server that starts is one that may.  The gates of [main] let a configuration start only if every
    configured secret and the stored key are long enough to redact; over HTTP, if the port was free at
    one of at most four tries, each after one that found it taken, and either a bearer token of at
    least 32 characters is set, and then the application sees exactly the requests that carry it and no
    websocket, or the host is one of the three that the SDK protects; and if the selected provider can
    run. *)
Theorem start_guarded {U : Unicode} host env net clock sdk s d : gates host env net clock sdk s d = Ok tt ->
  Forall (fun v => MIN_SECRET_LENGTH <= length v)%nat (redaction_values host env s d) /\
  (transport s = streamable_http ->
    (exists m, (1 <= m <= 4)%nat /\ bind_http net m (http_host s) (http_port s) = Ok tt /\
       forall j, (1 <= j < m)%nat -> bind_http net j (http_host s) (http_port s) = Raise AddressInUse) /\
    (length (ensure_http_port_free net clock s).2 <= 3)%nat /\
    match http_token s with
    | None => http_host s ∈ PROTECTED_HOSTS
    | Some token => (HTTP_TOKEN_MIN_LENGTH <= length token)%nat /\
        forall app, http_asgi_app s = Ok app -> forall scope, app scope = Passed <->
          scope_type scope = u "lifespan" \/
          (scope_type scope = u "http" /\ exists scheme, authorization scope = Some (scheme ++ 32 :: encode token) /\ 32 ∉ scheme /\ uni_lower scheme = u "bearer")
    end) /\
  (forall p, select_provider host env s d = Ok (typesafe, p) -> sdk = true).
Proof.
  intros (H1 & H2 & H3 & H4)%gates_inv. split; [by apply redactable_long|]. split.
  - intros Ht. unfold ensure_http_access_control in H2. unfold ensure_http_port_free in *. rewrite Ht in *.
    pose proof (try_bind_spec net clock s (fadd (clock 0%nat) HTTP_BIND_BUDGET_S) (fdiv HTTP_BIND_BUDGET_S (f_of_Z (Z.of_nat HTTP_BIND_ATTEMPTS - 1)))
      HTTP_BIND_ATTEMPTS 1 [] eq_refl) as Hb.
    destruct (try_bind _ _ _ _ _ _ _) as [r waits]. cbn [fst snd] in *. destruct Hb as [Hl Hb]. split; [by apply Hb|]. split; [exact Hl|].
    destruct (http_token s) as [token|] eqn:Et; cbn [is_none andb] in H2.
    + destruct (length token <? HTTP_TOKEN_MIN_LENGTH)%nat eqn:E; [done|]. apply Nat.ltb_ge in E. split; [done|].
      unfold http_asgi_app. rewrite Et. intros app (bytes & Hu%utf8_Ok & [= <-])%rbind_Ok scope. destruct Hu as [-> _]. apply middleware_passes.
      destruct token as [|c token]; [cbn in E; unfold HTTP_TOKEN_MIN_LENGTH in E; lia|]. unfold encode. cbn [flat_map]. rewrite length_app.
      destruct (encode_one_cons c) as (b & bs & ->). cbn. lia.
    + unfold is_protected_host in H2. case_bool_decide; done.
  - intros p Hp. unfold ensure_provider_runnable in H4. rewrite Hp in H4. destruct sdk; [done|]. by rewrite bool_decide_eq_true_2 in H4.
Qed.

(** ** Samples *)
Definition sample_token : text := u "0123456789abcdef0123456789abcdef".
Definition sample_served : Settings := sample_settings
  [(u "JEV_MCP_TRANSPORT", u "streamable-http"); (u "JEV_MCP_HTTP_HOST", u "0.0.0.0"); (u "JEV_MCP_HTTP_TOKEN", sample_token); (u "TYPESAFE_API_KEY", u "k-123456")].
(** The port is taken at the first try. *)
Definition sample_sockets : Sockets :=
  {| Address := text; addresses := fun _ host _ => Some [host]; opening := fun try _ => if (try <? 2)%nat then NotBound AddressInUse else Bound |}.
Definition sample_gates (s : Settings) : result Stop unit :=
  gates (U := ascii_unicode) sample_host sample_env sample_sockets (fun _ => f_zero) true s bare_disk.

Example gates_refuse : sample_gates sample_served = Ok tt /\
  (ensure_http_port_free sample_sockets (fun _ => f_zero) sample_served).2 = [fdiv (f_of_Z 2) (f_of_Z 3)] /\
  sample_gates (sample_settings [(u "JEV_API_KEY", u "short")]) = Raise (SystemExit (too_short (u "JEV_API_KEY") (u " is"))) /\
  is_none (match sample_gates (sample_settings [(u "JEV_MCP_TRANSPORT", u "streamable-http"); (u "JEV_MCP_HTTP_HOST", u "0.0.0.0")]) with Ok _ => Some tt | Raise _ => None end) = true.
Proof. vm_compute. done. Qed.

(** The token set to nothing is refused as too short, where the other readers take an empty variable as unset. *)
Example empty_token_refused :
  is_none (match sample_gates (sample_settings [(u "JEV_MCP_TRANSPORT", u "streamable-http"); (u "TYPESAFE_API_KEY", u "k-123456")]) with Ok _ => Some tt | Raise _ => None end) = false /\
  sample_gates (sample_settings [(u "JEV_MCP_TRANSPORT", u "streamable-http"); (u "JEV_MCP_HTTP_TOKEN", []); (u "TYPESAFE_API_KEY", u "k-123456")]) =
    Raise (SystemExit (u "JEV_MCP_HTTP_TOKEN is shorter than 32 characters; refusing to start. Generate a token with: " ++ GENERATE_TOKEN)).
Proof. vm_compute. done. Qed.

Example commands : command <$> [[u "jev"]; [u "jev"; u "-h"]; [u "jev"; u "gate"; u "install"]; [u "jev"; u "serve"]; [u "jev"; u "hook"]] = [Serve; PrintUsage; GateCli; Serve; Hook].
Proof. reflexivity. Qed.

(** A request with the token passes, one without does not. *)
Lemma start_guarded_witness :
  sample_gates sample_served = Ok tt /\
  exists app, http_asgi_app (U := ascii_unicode) sample_served = Ok app /\
    app {| scope_type := u "http"; authorization := Some (u "Bearer " ++ encode sample_token) |} = Passed /\
    app {| scope_type := u "http"; authorization := Some (u "Bearer x") |} <> Passed.
Proof.
  assert (sample_gates sample_served = Ok tt) as Hg by (vm_compute; reflexivity). split; [exact Hg|].
  destruct (start_guarded (U := ascii_unicode) sample_host sample_env sample_sockets (fun _ => f_zero) true sample_served bare_disk Hg) as (_ & H & _).
  destruct (H eq_refl) as (_ & _ & Ht).
  assert (http_token sample_served = Some sample_token) as Et by (vm_compute; reflexivity). rewrite Et in Ht. destruct Ht as [_ Happ].
  destruct (http_asgi_app (U := ascii_unicode) sample_served) as [app|e] eqn:Ea; [|unfold http_asgi_app in Ea; rewrite Et in Ea; vm_compute in Ea; discriminate Ea].
  exists app. split; [reflexivity|]. specialize (Happ app eq_refl). split.
  - apply Happ. right. split; [reflexivity|]. exists (u "Bearer"). split; [reflexivity|]. split; [apply (bool_decide_eq_true_1 (~ _)); reflexivity|reflexivity].
  - intros Hp. apply Happ in Hp as [Hp|(_ & scheme & Hp & Hn & _)]; [discriminate Hp|].
    pose proof (f_equal (fun o => length (or_else o [])) Hp) as Hl. cbn beta in Hl. cbn [or_else authorization] in Hl.
    rewrite length_app in Hl. assert (length (32 :: encode sample_token) = 33%nat) as E1 by reflexivity. rewrite E1 in Hl.
    assert (length (u "Bearer x") = 8%nat) as E2 by reflexivity. rewrite E2 in Hl. lia.
Defined.
