(* ===== verification/Doctor.v ===== *)
(** * Setup and doctor

    Models [setup.py], which verifies a key with one call and then stores it, and [doctor.py], the offline
    report of the configuration.  The call, the prompt and the words of a failed verification are
    parameters; the arguments are none (the usage is [argparse]'s). *)
From S2P Require Import Prelude Float64 Json PyStrings JsonText InstallRedact Http Utf8 Policy InstallFs Redact Settings KeyFile Retry Provider Adapters Resolver.
Open Scope Z_scope.
#[local] Open Scope install_scope.

(** ** [setup] *)
Definition KEY_URL : text := u "https://console.typesafe.ai/settings/keys".

Section Setup.
Context (host : Host) (env : Env).

(** The variable, or the prompt; [None] of the prompt is an end of file or an interrupt. *)
Definition candidate_key (s : Settings) (prompt : option text) : text :=
  match typesafe_api_key s with Some key => strip key | None => match prompt with Some answer => strip answer | None => [] end end.

(** [verify]: the words of the [ProviderError], if there is one.  The exit code and what is printed. *)
Definition setup (s : Settings) (prompt : option text) (verify : text -> option text) : M (Z * list text) :=
  match candidate_key s prompt with
  | [] => ret (1, [u "No API key given. Get one at " ++ KEY_URL ++ u "; export TYPESAFE_API_KEY or re-run in a terminal."])
  | (_ :: _) as api_key =>
    match verify api_key with
    | Some error => ret (1, [error ++ u "; key NOT stored."])
    | None =>
      let* path := store_key host env s api_key in
      let source := if is_none (typesafe_api_key s) then u "prompt" else u "TYPESAFE_API_KEY (the variable keeps precedence)" in
      ret (0, [u "Key verified (" ++ source ++ u ") and stored at " ++ str_path path ++ u ".";
               u "Agents started without TYPESAFE_API_KEY now resolve this key automatically."])
    end
  end.

(** C0 [setup] stores only a key that was verified.  A run that is given no key, or whose key the provider
    refuses, exits with 1 and leaves the disk as it is; a run that exits with 0 was given a key that
    passed, and leaves exactly that key in the key file, in mode 0600; and a run that stores nothing
    because the disk fails leaves the old key file in place. *)
Theorem setup_stores_verified s prompt verify d r d' : HostLaws host ->
  let p := stored_key_path env s in
  is_file d (parent p) = false -> links d !! str_path p = None ->
  setup s prompt verify d = (r, d') ->
  match r with
  | Ok (code, _) =>
    (code = 1 /\ d' = d /\ (candidate_key s prompt = [] \/ exists error, verify (candidate_key s prompt) = Some error)) \/
    (code = 0 /\ candidate_key s prompt <> [] /\ verify (candidate_key s prompt) = None /\
     nodes d' !! str_path p = Some (File (encode (candidate_key s prompt ++ [10])) FILE_MODE))
  | Raise _ => verify (candidate_key s prompt) = None /\
      forall data mode, nodes d !! str_path p = Some (File data mode) -> nodes d' !! str_path p = Some (File data mode)
  end.
Proof.
  intros Hlaws p Hdir Hlink. unfold setup. destruct (candidate_key s prompt) as [|c key] eqn:Ek; [intros [= <- <-]; left; auto|]. rewrite <- Ek.
  destruct (verify (candidate_key s prompt)) as [error|] eqn:Ev; [intros [= <- <-]; left; eauto|].
  assert (strip (candidate_key s prompt) = candidate_key s prompt) as Hstrip.
  { assert (forall t, strip (strip t) = strip t) as Hss by (intros t; unfold strip, rstrip; destruct (strip_first t) as [E|(x & t' & E & Hx)];
      unfold strip, rstrip in E; rewrite E; [done|]; rewrite lstrip_other by done; rewrite <- E, rev_involutive, lstrip_lstrip; done).
    unfold candidate_key. destruct (typesafe_api_key s); [apply Hss|]. destruct prompt; [apply Hss|done]. }
  assert (write_private_atomic host p (strip (candidate_key s prompt) ++ [10]) d = store_key host env s (candidate_key s prompt) d) as Ew by done.
  unfold bind. destruct (store_key host env s (candidate_key s prompt) d) as [[q|e] d1] eqn:E.
  - intros [= <- <-]. right. apply write_private_Ok in Ew as (_ & data & [-> _]%utf8_Ok & Hn & _). rewrite Hstrip in Hn. by rewrite Ek in *.
  - intros [= <- <-]. split; [done|]. intros data mode Hn. by eapply store_key_failed.
Qed.
End Setup.

(** ** [doctor] *)
Definition UNSET : text := u "(unset)".
Definition BARE_SERVER : text := u "mcp__jev".
(** The rules of the registry's tools. *)
Definition TOOL_NAMES : list text := u <$>
  ["jev_verify"; "jev_screen"; "jev_find"; "jev_classify"; "jev_decide"; "jev_rerank"; "jev_compare"; "jev_extract"; "jev_review"; "jev_gate";
   "jev_score"; "jev_file_judge"; "jev_ask"; "jev_files_judge"; "jev_gate_range"]%string.
Definition ALLOW_RULES : list text := (fun name => u "mcp__jev__" ++ name) <$> TOOL_NAMES.

Definition POLICY : list (text * float) :=
  [(u "DEFAULT_AUTO_ACCEPT", DEFAULT_AUTO_ACCEPT); (u "DEFAULT_REVIEW_AT_CAP", DEFAULT_REVIEW_AT_CAP);
   (u "DEFAULT_COMPOSITE_FLOOR", DEFAULT_COMPOSITE_FLOOR); (u "DEFAULT_CLASSIFY_AUTO_ACCEPT", DEFAULT_CLASSIFY_AUTO_ACCEPT);
   (u "DEFAULT_MINIMUM_MARGIN", DEFAULT_MINIMUM_MARGIN); (u "DEFAULT_SCREEN_BLOCK_AT", DEFAULT_SCREEN_BLOCK_AT);
   (u "DEFAULT_SCREEN_REVIEW_AT", DEFAULT_SCREEN_REVIEW_AT); (u "SCREEN_SUBSTANCE_SKIP_BELOW", SCREEN_SUBSTANCE_SKIP_BELOW);
   (u "SCREEN_RELEVANCE_SKIP_BELOW", SCREEN_RELEVANCE_SKIP_BELOW); (u "EXISTS_FOUND_AT", EXISTS_FOUND_AT); (u "EXISTS_ABSENT_BELOW", EXISTS_ABSENT_BELOW)].

(** [f"{label:<8}: {value}\n"]. *)
Definition line (label value : text) : text := label ++ repeat 32 (8 - length label) ++ u ": " ++ value ++ [10].

Definition claude_settings_files (home cwd : PurePath) : list PurePath :=
  [child (child home (u ".claude")) (u "settings.json"); child (child cwd (u ".claude")) (u "settings.json");
   child (child cwd (u ".claude")) (u "settings.local.json")].

Definition expanded (rules : list text) : list text :=
  if mem BARE_SERVER rules then ALLOW_RULES else List.filter (fun rule => mem rule rules) ALLOW_RULES.

Definition key_file_role (source : KeySource) : text :=
  match source with environment => u " (env wins)" | from_key_file => u " (fills TYPESAFE_API_KEY)" | no_key => [] end.

Definition filled_secret (secret : option text) : bool := match secret with Some t => filled t | None => false end.

Definition cloudflare_token_name (s : Settings) : option text :=
  if filled_secret (jev_cloudflare_api_token s) then Some (u "JEV_CLOUDFLARE_API_TOKEN")
  else if filled_secret (cloudflare_api_token s) then Some (u "CLOUDFLARE_API_TOKEN") else None.

Definition primary_key (s : Settings) (name : text) : text :=
  if bool_decide (name = u "cloudflare") then or_else (cloudflare_token_name s) (or_else (dget (u "cloudflare") PRIMARY_CREDENTIAL) [])
  else or_else (dget name PRIMARY_CREDENTIAL) name.

Definition set_names (s : Settings) : list text :=
  omap (fun nb => if nb.2 : bool then Some nb.1 else None)
    [(u "TYPESAFE_API_KEY", filled_secret (typesafe_api_key s)); (u "OPENROUTER_API_KEY", filled_secret (openrouter_api_key s));
     (u "JEV_CLOUDFLARE_API_TOKEN", filled_secret (jev_cloudflare_api_token s)); (u "CLOUDFLARE_API_TOKEN", filled_secret (cloudflare_api_token s));
     (u "CLOUDFLARE_ACCOUNT_ID", filled_secret (cloudflare_account_id s)); (u "AI_GATEWAY_API_KEY", filled_secret (ai_gateway_api_key s));
     (u "JEV_API_KEY", filled_secret (jev_api_key s)); (u "JEV_API_BASE_URL", filled_secret (jev_api_base_url s))].

(** The rules of a file, those of earlier files kept. *)
Definition covers (found : dict PurePath) (p : PurePath) (rules : list text) : dict PurePath :=
  fold_left (fun found rule => if dhas rule found then found else dset rule p found) rules found.

(** [by_file]: the rules under the file that covers them, in the order they were found. *)
Fixpoint file_rules (p : PurePath) (rule : text) (groups : list (PurePath * list text)) : list (PurePath * list text) :=
  match groups with
  | [] => [(p, [rule])]
  | (q, rules) :: groups => if bool_decide (p = q) then (q, rules ++ [rule]) :: groups else (q, rules) :: file_rules p rule groups
  end.
Definition by_file (covered : dict PurePath) : list (PurePath * list text) := fold_left (fun groups rp => file_rules rp.2 rp.1 groups) covered [].

Definition claude_line (paths : list PurePath) (covered : dict PurePath) : text :=
  match covered with
  | [] => u "no allow rules in " ++ join (u ", ") (str_path <$> paths)
  | _ => join (u "; ") ((fun pr => str_path pr.1 ++ u " allows " ++ join (u ", ") pr.2) <$> by_file covered)
  end.

Definition snippet (missing : list text) : text := dumps_default (VDict [(u "permissions", VDict [(u "allow", VList (VStr <$> missing))])]).

Section Doctor.
Context {U : Unicode} (urlsplit : text -> option SplitResult) (host : Host) (env : Env) (sdk_importable : bool).

(** [_allow_rules]; bytes that are no UTF-8 raise. *)
Definition allow_rules (p : PurePath) (d : Disk) : result Exn (list text) :=
  match read_bytes host p d with
  | Raise (OSError _) | Ok None => Ok []
  | Raise e => Raise e
  | Ok (Some data) =>
    let? t := strict data in
    match decode_json t with
    | Some (VDict parsed) =>
      match get (u "permissions") parsed with
      | VDict permissions =>
        match get (u "allow") permissions with
        | VList allow => Ok (omap (fun v => match v with VStr t => Some t | _ => None end) allow)
        | _ => Ok []
        end
      | _ => Ok []
      end
    | _ => Ok []
    end
  end.

Fixpoint covered_from (seen : list PurePath) (paths : list PurePath) (found : dict PurePath) (d : Disk) : result Exn (dict PurePath) :=
  match paths with
  | [] => Ok found
  | p :: paths =>
    if mem p seen then covered_from seen paths found d
    else let? rules := allow_rules p d in covered_from (p :: seen) paths (covers found p (expanded rules)) d
  end.
Definition covered (paths : list PurePath) (d : Disk) : result Exn (dict PurePath) := covered_from [] paths [] d.

(** [_resolve]: the provider's name, or the configuration error. *)
Definition resolve (s : Settings) (d : Disk) : text + text :=
  match select_provider host env s d with Ok (n, _) => inl (name_text n) | Raise error => inr error end.

Definition via (s : Settings) (name : text + text) (source : KeySource) : text :=
  match name with
  | inr _ => u "unconfigured"
  | inl name =>
    let explicit := uni_lower (jev_provider s) in
    if bool_decide (explicit = name) && dhas explicit PRIMARY_CREDENTIAL then u "explicit: " ++ name
    else if bool_decide (name = u "typesafe") && match source with from_key_file => true | _ => false end then u "auto: key file"
    else u "auto: " ++ primary_key s name ++ u " found"
  end.

Definition report (s : Settings) (cwd : PurePath) (d : Disk) : result Exn text :=
  let name := resolve s d in
  let paths := claude_settings_files (user_home env) cwd in
  let? covered := covered paths d in
  let missing := List.filter (fun rule => negb (dhas rule covered)) ALLOW_RULES in
  let stored := filled (stored_key host env s d) in
  let source := (typesafe_key host env s d).2 in
  Ok (concat (
    [line (u "provider") (match name with inl name => name | inr _ => UNSET end);
     line (u "via") (via s name source);
     line (u "key") (match set_names s with [] => UNSET | keys => join (u " ") keys end);
     line (u "key file") ((if stored then u "present" else u "absent") ++ u " at " ++ str_path (stored_key_path env s) ++ key_file_role source)] ++
    ((fun variable => line (u "warning") (variable ++ u " holds an unexpanded reference and counts as unset")) <$> unexpanded_references (environ env)) ++
    [line (u "sdk") (if sdk_importable then u "typesafe-sdk importable" else u "typesafe-sdk missing (install jev-judge-mcp[typesafe])")] ++
    (match name with inr failure => [line (u "error") failure] | inl _ => [] end) ++
    [line (u "policy") (join (u " ") ((fun lv => lv.1 ++ u "=" ++ float_repr lv.2) <$> POLICY));
     line (u "version") POLICY_VERSION;
     line (u "allow") (join (u " ") ALLOW_RULES);
     line (u "checked") (join (u ", ") (str_path <$> paths));
     line (u "claude") (claude_line paths covered)] ++
    (match missing with [] => [] | _ => [line (u "missing") (join (u " ") missing); line (u "snippet") (snippet missing)] end))).

(** [main]: what is printed, and the exit code. *)
Definition doctor (s : Settings) (cwd : PurePath) (d : Disk) : result Exn (text * Z) :=
  let? r := report s cwd d in
  Ok (redact (redactor urlsplit uni_lower (redaction_values host env s d)) r, match resolve s d with inl _ => 0 | inr _ => 1 end).

(** ** Facts *)
Lemma dhas_dset {A} k k' (v : A) d : dhas k (dset k' v d) = true <-> k = k' \/ dhas k d = true.
Proof.
  unfold dhas. destruct (decide (k = k')) as [->|Hn]; [rewrite dget_dset_eq; naive_solver|]. rewrite dget_dset_ne by done. naive_solver.
Qed.

Lemma covers_keys found p rules rule : dhas rule (covers found p rules) = true <-> dhas rule found = true \/ rule ∈ rules.
Proof.
  unfold covers. revert found. induction rules as [|r rules IH]; intros found; cbn [fold_left]; [set_solver|]. rewrite IH, elem_of_cons.
  destruct (dhas r found) eqn:E; [naive_solver|]. rewrite dhas_dset. naive_solver.
Qed.

Lemma expanded_elem rules rule : rule ∈ ALLOW_RULES -> rule ∈ expanded rules <-> BARE_SERVER ∈ rules \/ rule ∈ rules.
Proof.
  intros Hr. unfold expanded, mem. case_bool_decide as Hb; [naive_solver|]. rewrite list_elem_of_In, List.filter_In, <- list_elem_of_In, bool_decide_eq_true. naive_solver.
Qed.

(** A file covers a rule. *)
Definition allows (d : Disk) (rule : text) (p : PurePath) : Prop := exists rules, allow_rules p d = Ok rules /\ (BARE_SERVER ∈ rules \/ rule ∈ rules).

Lemma covered_spec paths d : forall seen found,
  match covered_from seen paths found d with
  | Ok c => forall rule, rule ∈ ALLOW_RULES -> (forall p, p ∈ seen -> allows d rule p -> dhas rule found = true) ->
      dhas rule c = true <-> dhas rule found = true \/ exists p, p ∈ paths /\ allows d rule p
  | Raise e => exists p, p ∈ paths /\ allow_rules p d = Raise e
  end.
Proof.
  induction paths as [|p paths IH]; intros seen found; cbn [covered_from]; [set_solver|]. unfold mem at 1. case_bool_decide as Hs.
  - specialize (IH seen found). destruct (covered_from seen paths found d) as [c|e]; [|destruct IH as (q & Hq & He); exists q; split; [by right|done]].
    intros rule Hr Hseen. rewrite (IH rule Hr Hseen). split.
    + intros [H|(q & Hq & Ha)]; [by left|right; exists q; split; [by right|done]].
    + intros [H|(q & [->|Hq]%elem_of_cons & Ha)]; [by left|left; by eapply Hseen|right; by exists q].
  - destruct (allow_rules p d) as [rules|e] eqn:Ea; cbn [rbind]; [|exists p; split; [by left|done]].
    specialize (IH (p :: seen) (covers found p (expanded rules))). destruct (covered_from _ _ _ _) as [c|e]; [|destruct IH as (q & Hq & He); exists q; split; [by right|done]].
    intros rule Hr Hseen. rewrite IH; [|done|].
    + rewrite covers_keys, expanded_elem by done. split.
      * intros [[H|H]|(q & Hq & Hal)]; [by left|right; exists p; split; [by left|by exists rules]|right; exists q; split; [by right|done]].
      * intros [H|(q & [->|Hq]%elem_of_cons & Hal)]; [by do 2 left| |right; by exists q]. destruct Hal as (rules' & Ha' & Hal). rewrite Ea in Ha'. injection Ha' as <-. left; by right.
    + intros q [->|Hq]%elem_of_cons Hal; rewrite covers_keys, expanded_elem by done; [|left; by eapply Hseen].
      right. destruct Hal as (rules' & Ha' & Hal). rewrite Ea in Ha'. by injection Ha' as <-.
Qed.

(** The doctor tells the truth, and no secret.  Its exit code is 0 exactly when a provider resolves; no
    configured secret and not the stored key occurs in what it prints; a rule of the registry's tools is
    not reported missing exactly when one of the three settings files lists it or the bare server; and
    it fails only over a settings file that is no UTF-8 text. *)
Theorem doctor_truthful s cwd d :
  match doctor s cwd d with
  | Ok (out, code) =>
    (code = 0 <-> exists n p, select_provider host env s d = Ok (n, p)) /\
    (Forall unmarked (redactor urlsplit uni_lower (redaction_values host env s d)) ->
     forall secret, secret ∈ redaction_values host env s d -> secret <> [] -> ~ occurs secret out) /\
    exists c, covered (claude_settings_files (user_home env) cwd) d = Ok c /\
      forall rule, rule ∈ ALLOW_RULES -> dhas rule c = true <-> exists p, p ∈ claude_settings_files (user_home env) cwd /\ allows d rule p
  | Raise e => exists p, p ∈ claude_settings_files (user_home env) cwd /\ allow_rules p d = Raise e
  end.
Proof.
  unfold doctor, report. pose proof (covered_spec (claude_settings_files (user_home env) cwd) d [] []) as Hc. unfold covered.
  destruct (covered_from [] _ [] d) as [c|e]; cbn [rbind]; [|done]. split; [|split].
  - unfold resolve. destruct (select_provider host env s d) as [[n p]|e]; split; try done; [by eauto|intros (n & p & [=])].
  - intros Hu secret Hs Hne. apply redact_gone; [|done|].
    + apply Forall_forall. intros w Hw. by apply redactor_elem in Hw as [? _].
    + apply redactor_elem. split; [done|]. exists secret. auto.
  - exists c. split; [done|]. intros rule Hr. rewrite (Hc rule Hr); [|set_solver]. naive_solver.
Qed.
End Doctor.

(** ** Samples *)
Definition plain_urlsplit (t : text) : option SplitResult :=
  Some {| scheme := []; netloc := []; url_path := t; query := []; hostname := None; port := Some None |}.
Definition sample_doctor (variables : dict text) (d : Disk) : result Exn (text * Z) :=
  doctor (U := ascii_unicode) plain_urlsplit sample_host sample_env true (sample_settings variables) (pure (u "/w")) d.

Example doctor_reports : exists out, sample_doctor [(u "OPENROUTER_API_KEY", u "sk-or-12345")] bare_disk = Ok (out, 0) /\
  take 5 (split_char 10 out) = [u "provider: openrouter"; u "via     : auto: OPENROUTER_API_KEY found"; u "key     : OPENROUTER_API_KEY";
    u "key file: absent at /h/.config/jev-mcp/key"; u "sdk     : typesafe-sdk importable"].
Proof. eexists. split; vm_compute; reflexivity. Qed.
(** A settings file that is no UTF-8. *)
Example doctor_fails : sample_doctor [] (put (u "/w/.claude/settings.json") (File [255] FILE_MODE) bare_disk) = Raise (UnicodeError_ (u "utf-8")).
Proof. vm_compute. reflexivity. Qed.

Definition sample_setup (verify : text -> option text) : result Exn (Z * list text) * Disk :=
  setup sample_host sample_env unset (Some (u " k-12345678 ")) verify bare_disk.

Lemma setup_stores_verified_witness :
  exists d', (sample_setup (fun _ => None)).2 = d' /\ nodes d' !! u "/h/.config/jev-mcp/key" = Some (File (u "k-12345678" ++ [10]) FILE_MODE).
Proof.
  exists (sample_setup (fun _ => None)).2. split; [reflexivity|].
  assert (match (sample_setup (fun _ => None)).1 with Ok (code, _) => code | Raise _ => 2 end = 0) as Hc by (vm_compute; reflexivity).
  destruct (sample_setup (fun _ => None)) as [r d'] eqn:E.
  pose proof (setup_stores_verified sample_host sample_env unset (Some (u " k-12345678 ")) (fun _ => None) bare_disk r d' sample_host_laws eq_refl eq_refl E) as H.
  destruct r as [[code lines]|e]; [|discriminate Hc]. cbn [fst] in Hc. subst code. destruct H as [(H & _)|(_ & _ & _ & H)]; [discriminate H|exact H].
Defined.

Lemma doctor_truthful_witness :
  exists out, sample_doctor [(u "OPENROUTER_API_KEY", u "sk-or-12345")] bare_disk = Ok (out, 0) /\ ~ occurs (u "sk-or-12345") out.
Proof.
  pose proof (doctor_truthful (U := ascii_unicode) plain_urlsplit sample_host sample_env true (sample_settings [(u "OPENROUTER_API_KEY", u "sk-or-12345")]) (pure (u "/w")) bare_disk) as H.
  fold (sample_doctor [(u "OPENROUTER_API_KEY", u "sk-or-12345")] bare_disk) in H.
  assert (match sample_doctor [(u "OPENROUTER_API_KEY", u "sk-or-12345")] bare_disk with Ok (_, code) => code | Raise _ => 2 end = 0) as Hc by (vm_compute; reflexivity).
  destruct (sample_doctor [(u "OPENROUTER_API_KEY", u "sk-or-12345")] bare_disk) as [[out code]|e]; [|discriminate Hc]. subst code.
  exists out. split; [reflexivity|]. destruct H as (_ & H & _). apply H; [|apply (bool_decide_eq_true_1 (_ ∈ _)); vm_compute; reflexivity|discriminate].
  assert (redactor plain_urlsplit (uni_lower (Unicode := ascii_unicode))
    (redaction_values sample_host sample_env (sample_settings [(u "OPENROUTER_API_KEY", u "sk-or-12345")]) bare_disk) = [u "sk-or-12345"]) as -> by (vm_compute; reflexivity).
  apply Forall_singleton, unmarked_b_spec. vm_compute. reflexivity.
Defined.
