(* ===== verification/Worker.v ===== *)
(** * The pool of regex workers

    Models [ProcessRegexExecutor] of [extract/worker.py]: the calls of [find] that share a pool, each at one
    of its awaits, the permits of the semaphore, the waiter count, the idle workers and the processes that
    live.  A step is what one call or [aclose] does between two awaits; when a deadline passes, a worker
    fails or a call is cancelled is the nondeterminism of [step].  The worker answers with [match_all] over
    the engine of [Matching], the parameter [compile]. *)
From S2P Require Import Prelude Limits Matching.
Open Scope nat_scope.

(** How a call ends; [Escaped] is an exception outside the port's contract. *)
Inductive Ending := Result (r : MatchResult) | Cancelled | Escaped.

(** What follows the kill of a worker: the call ends, or it tries a fresh worker. *)
Inductive After := Return (e : Ending) | Respawn.

(** The awaits of a call. *)
Inductive Pc :=
| Start
| Acquiring                          (* counted in [_waiting], at the semaphore *)
| Spawning                           (* in the shielded [open_process] *)
| Starting (w : nat)                 (* reading the ready byte *)
| Running (w : nat) (was_idle : bool)   (* the job sent, reading the reply *)
| Killing (w : nat) (k : After)      (* in the shielded [kill] *)
| Done (e : Ending).

Record Pool := {
  calls : list Pc;
  waiting : nat;
  permits : nat;
  idle : list nat;
  closed : bool;
  closing : list nat;                (* the idle workers [aclose] took, not yet killed *)
  live : gset nat;                   (* the processes that exist *)
  spawned : nat;                     (* as many were started *)
  leaked : list nat                  (* without a handle left to kill them *)
}.

(** [size or min(pool_size_max, os.cpu_count() or 1)]. *)
Definition pool_size (size cpu_count : option nat) : nat :=
  match size with
  | Some (S n) => S n
  | _ => Nat.min (Z.to_nat (ext_pool_size_max EXTRACT)) (match cpu_count with Some (S n) => S n | _ => 1 end)
  end.
Definition queue_bound_of (bound : option nat) (size : nat) : nat :=
  match bound with Some n => n | None => Z.to_nat (ext_queue_bound_per_slot EXTRACT) * size end.

(** [_start] before the reply of the ready byte: a failure the code expects, as the call's end. *)
Inductive start_ends : Ending -> Prop :=
| start_times_out : start_ends (Result Timeout)
| start_cancelled : start_ends Cancelled
| start_crashes : start_ends (Result (Invalid NOT_STARTED)).       (* end of stream, or another byte *)

(** [_run] without a reply: a worker that was idle may have died before, so one fresh worker is tried. *)
Inductive run_ends (was_idle : bool) : After -> Prop :=
| run_times_out : run_ends was_idle (Return (Result Timeout))
| run_cancelled : run_ends was_idle (Return Cancelled)
| run_unreadable : run_ends was_idle (Return Escaped)               (* a reply [pickle] refuses *)
| run_crashes : run_ends was_idle (if was_idle then Respawn else Return (Result (Invalid NO_RESULT))).

Section Pool.
Context (size queue_bound : nat).

(** The jobs, and what the worker makes of each: [None] is [re.error], which ends the process. *)
Context (compile : Translated -> option (list Z -> nat -> option (nat * nat))) (pattern : nat -> Translated) (units : nat -> list Z).
Definition answer (i : nat) : option MatchResult :=
  search ← compile (pattern i); match_all search (units i) (ext_candidates_per_field EXTRACT) (ext_candidate_units EXTRACT).

(** ** Warming *)
(** What becomes of each worker [warm] starts. *)
Inductive Boot := Ready | Refused | Broken.

Definition warm_step (b : Boot) (p : Pool) : Pool :=
  let w := spawned p in
  {| calls := calls p; waiting := waiting p; permits := permits p; closed := closed p; closing := closing p; spawned := S w;
     idle := match b with Ready => idle p ++ [w] | _ => idle p end;
     live := match b with Refused => live p | _ => {[w]} ∪ live p end;
     leaked := match b with Broken => leaked p ++ [w] | _ => leaked p end |}.

(** [while len(self._idle) < self.size]; it stops at the first that will not start. *)
Fixpoint warm (fuel : nat) (boot : nat -> Boot) (p : Pool) : Pool :=
  match fuel with
  | O => p
  | S fuel =>
    if length (idle p) <? size then
      let p' := warm_step (boot (spawned p)) p in
      match boot (spawned p) with Ready => warm fuel boot p' | _ => p' end
    else p
  end.

(** A new pool that serves so many calls. *)
Definition fresh (tasks : nat) : Pool :=
  {| calls := replicate tasks Start; waiting := 0; permits := size; idle := []; closed := false; closing := []; live := ∅; spawned := 0; leaked := [] |}.
Definition served (tasks : nat) (boot : nat -> Boot) : Pool := warm size boot (fresh tasks).

(** ** Steps *)
(** A call moves on, and what it does to the counters and the idle workers. *)
Definition move (i : nat) (pc : Pc) (p : Pool) : Pool :=
  {| calls := <[i := pc]> (calls p); waiting := waiting p; permits := permits p; idle := idle p; closed := closed p; closing := closing p;
     live := live p; spawned := spawned p; leaked := leaked p |}.
Definition with_waiting (n : nat) (p : Pool) : Pool :=
  {| calls := calls p; waiting := n; permits := permits p; idle := idle p; closed := closed p; closing := closing p;
     live := live p; spawned := spawned p; leaked := leaked p |}.
Definition with_permits (n : nat) (p : Pool) : Pool :=
  {| calls := calls p; waiting := waiting p; permits := n; idle := idle p; closed := closed p; closing := closing p;
     live := live p; spawned := spawned p; leaked := leaked p |}.
Definition with_idle (l : list nat) (p : Pool) : Pool :=
  {| calls := calls p; waiting := waiting p; permits := permits p; idle := l; closed := closed p; closing := closing p;
     live := live p; spawned := spawned p; leaked := leaked p |}.
Definition spawn (p : Pool) : Pool :=
  {| calls := calls p; waiting := waiting p; permits := permits p; idle := idle p; closed := closed p; closing := closing p;
     live := {[spawned p]} ∪ live p; spawned := S (spawned p); leaked := leaked p |}.
Definition kill (w : nat) (p : Pool) : Pool :=
  {| calls := calls p; waiting := waiting p; permits := permits p; idle := idle p; closed := closed p; closing := closing p;
     live := live p ∖ {[w]}; spawned := spawned p; leaked := leaked p |}.
Definition leak (w : nat) (p : Pool) : Pool :=
  {| calls := calls p; waiting := waiting p; permits := permits p; idle := idle p; closed := closed p; closing := closing p;
     live := live p; spawned := spawned p; leaked := leaked p ++ [w] |}.
(** [finally: self._limit.release()]. *)
Definition ends (i : nat) (e : Ending) (p : Pool) : Pool := with_permits (S (permits p)) (move i (Done e) p).
(** Admitted: no longer waiting, with a permit. *)
Definition admitted (i : nat) (pc : Pc) (p : Pool) : Pool := with_waiting (pred (waiting p)) (with_permits (pred (permits p)) (move i pc p)).
(** [aclose], up to its first kill, and a kill. *)
Definition close (p : Pool) : Pool :=
  {| calls := calls p; waiting := waiting p; permits := permits p; idle := []; closed := true; closing := closing p ++ idle p;
     live := live p; spawned := spawned p; leaked := leaked p |}.
Definition with_closing (l : list nat) (p : Pool) : Pool :=
  {| calls := calls p; waiting := waiting p; permits := permits p; idle := idle p; closed := closed p; closing := l;
     live := live p; spawned := spawned p; leaked := leaked p |}.

Inductive step : Pool -> Pool -> Prop :=
(* [find] *)
| step_refused p i : calls p !! i = Some Start -> closed p = true -> step p (move i (Done (Result (Invalid NOT_STARTED))) p)
| step_saturated p i : calls p !! i = Some Start -> closed p = false -> queue_bound <= waiting p -> step p (move i (Done (Result Saturated)) p)
| step_queue p i : calls p !! i = Some Start -> closed p = false -> waiting p < queue_bound ->
    step p (with_waiting (S (waiting p)) (move i Acquiring p))
| step_leave p i e : calls p !! i = Some Acquiring -> e = Result Timeout \/ e = Cancelled -> step p (with_waiting (pred (waiting p)) (move i (Done e) p))
(* [_find], admitted *)
| step_late p i : calls p !! i = Some Acquiring -> 0 < permits p -> step p (with_waiting (pred (waiting p)) (move i (Done (Result Timeout)) p))
| step_take p i l w : calls p !! i = Some Acquiring -> 0 < permits p -> idle p = l ++ [w] -> step p (with_idle l (admitted i (Running w true) p))
| step_open p i : calls p !! i = Some Acquiring -> 0 < permits p -> idle p = [] -> step p (admitted i Spawning p)
(* [_start] *)
| step_no_spawn p i : calls p !! i = Some Spawning -> step p (ends i (Result (Invalid NOT_STARTED)) p)
| step_spawned p i : calls p !! i = Some Spawning -> step p (spawn (move i (Starting (spawned p)) p))
| step_ready p i w : calls p !! i = Some (Starting w) -> step p (move i (Running w false) p)
| step_start_ends p i w e : calls p !! i = Some (Starting w) -> start_ends e -> step p (move i (Killing w (Return e)) p)
| step_start_breaks p i w : calls p !! i = Some (Starting w) -> step p (leak w (ends i Escaped p))     (* an error of the stream [_start] does not catch *)
(* [_attempt] *)
| step_reply p i w b m : calls p !! i = Some (Running w b) -> answer i = Some m -> closed p = false -> step p (with_idle (idle p ++ [w]) (ends i (Result m) p))
| step_reply_closed p i w b m : calls p !! i = Some (Running w b) -> answer i = Some m -> closed p = true -> step p (move i (Killing w (Return (Result m))) p)
| step_run_ends p i w b k : calls p !! i = Some (Running w b) -> run_ends b k -> step p (move i (Killing w k) p)
| step_killed p i w e : calls p !! i = Some (Killing w (Return e)) -> step p (kill w (ends i e p))
| step_respawn p i w : calls p !! i = Some (Killing w Respawn) -> step p (kill w (move i Spawning p))
(* [aclose] *)
| step_close p : closed p = false -> step p (close p)
| step_close_kill p w l : closing p = w :: l -> step p (kill w (with_closing l p)).

(** No call is under way, and nothing is left to close. *)
Definition finished (p : Pool) : Prop := (forall i pc, calls p !! i = Some pc -> exists e, pc = Done e) /\ closing p = [].

(** ** What a call holds *)
Definition is_waiting (pc : Pc) : nat := match pc with Acquiring => 1 | _ => 0 end.
Definition holds_permit (pc : Pc) : nat := match pc with Spawning | Starting _ | Running _ _ | Killing _ _ => 1 | _ => 0 end.
Definition is_running (pc : Pc) : nat := match pc with Running _ _ => 1 | _ => 0 end.
Definition worker_of (pc : Pc) : option nat := match pc with Starting w | Running w _ | Killing w _ => Some w | _ => None end.
Definition one_if (w : nat) (o : option nat) : nat := if decide (o = Some w) then 1 else 0.
Definition holds (w : nat) (pc : Pc) : nat := one_if w (worker_of pc).
Definition total {A} (f : A -> nat) (l : list A) : nat := sum_list_with f l.
#[local] Arguments total : simpl never.
Definition occ (w : nat) : list nat -> nat := total (fun x => one_if w (Some x)).
#[local] Arguments occ : simpl never.

(** How many hands a worker is in. *)
Definition owners (w : nat) (p : Pool) : nat := occ w (idle p) + occ w (closing p) + total (holds w) (calls p) + occ w (leaked p).

(** What a call has when it ends. *)
Definition ending_of (pc : Pc) : option Ending := match pc with Done e | Killing _ (Return e) => Some e | _ => None end.
Definition ending_ok (i : nat) (e : Ending) : Prop :=
  match e with Result (Matches _ _ _ as m) => answer i = Some m | _ => True end.

Record inv (p : Pool) : Prop := {
  inv_waiting : waiting p = total is_waiting (calls p);
  inv_queue : waiting p <= queue_bound;
  inv_permits : permits p + total holds_permit (calls p) = size;
  inv_room : length (idle p) + total holds_permit (calls p) <= size;
  inv_owned : forall w, owners w p = if decide (w ∈ live p) then 1 else 0;
  inv_spawned : forall w, w ∈ live p -> w < spawned p;
  inv_open : closed p = false -> closing p = [];
  inv_closed : closed p = true -> idle p = [];
  inv_endings : forall i pc e, calls p !! i = Some pc -> ending_of pc = Some e -> ending_ok i e }.

(** ** Facts: sums *)
Lemma total_app {A} (f : A -> nat) l1 l2 : total f (l1 ++ l2) = total f l1 + total f l2.
Proof. apply sum_list_with_app. Qed.
Lemma total_insert {A} (f : A -> nat) l i x y : l !! i = Some x -> total f (<[i:=y]> l) + f x = total f l + f y.
Proof.
  intros H. rewrite insert_take_drop by (by eapply lookup_lt_Some). rewrite <- (take_drop_middle l i x H) at 3.
  rewrite !total_app. unfold total. cbn [sum_list_with]. lia.
Qed.
Lemma total_lookup {A} (f : A -> nat) l i x : l !! i = Some x -> f x <= total f l.
Proof. revert i. unfold total. induction l as [|z l IH]; intros [|i] H; cbn in *; try done; [injection H as ->; lia|]. specialize (IH _ H). lia. Qed.
Lemma total_two {A} (f : A -> nat) l i j x y : i <> j -> l !! i = Some x -> l !! j = Some y -> f x + f y <= total f l.
Proof.
  revert i j. induction l as [|z l IH]; intros [|i] [|j] Hne Hi Hj; try done; cbn in Hi, Hj; unfold total in *; cbn [sum_list_with].
  - injection Hi as ->. pose proof (total_lookup f l j y Hj) as H. unfold total in H. lia.
  - injection Hj as ->. pose proof (total_lookup f l i x Hi) as H. unfold total in H. lia.
  - specialize (IH i j ltac:(lia) Hi Hj). lia.
Qed.
Lemma total_replicate {A} (f : A -> nat) n x : f x = 0 -> total f (replicate n x) = 0.
Proof. intros H. unfold total. induction n as [|n IH]; cbn; lia. Qed.
Lemma occ_app w l1 l2 : occ w (l1 ++ l2) = occ w l1 + occ w l2.
Proof. apply total_app. Qed.
Lemma occ_one w x : occ w [x] = one_if w (Some x).
Proof. unfold occ, total. cbn. lia. Qed.
Lemma occ_cons w x l : occ w (x :: l) = one_if w (Some x) + occ w l.
Proof. done. Qed.
Lemma occ_nil w : occ w [] = 0.
Proof. done. Qed.
Lemma one_if_spec w x : one_if w (Some x) = if decide (w = x) then 1 else 0.
Proof. unfold one_if. destruct (decide (w = x)) as [->|Hn]; [by rewrite decide_True|]. rewrite decide_False; [done|]. by intros [= ->]. Qed.

(** ** The invariant holds *)
Lemma inv_fresh tasks : inv (fresh tasks).
Proof.
  split; cbn; try done.
  - by rewrite total_replicate.
  - lia.
  - rewrite total_replicate by done. lia.
  - rewrite total_replicate by done. lia.
  - intros w. unfold owners. cbn. rewrite total_replicate by done. by rewrite decide_False by set_solver.
  - intros i pc e H. apply lookup_replicate in H as [-> _]. done.
Qed.

Lemma inv_warm_step b p : inv p -> length (idle p) < size -> total holds_permit (calls p) = 0 -> closed p = false -> inv (warm_step b p).
Proof.
  intros [] Hl Hh Hc. assert (spawned p ∉ live p) as Hfresh by (intros Hin%inv_spawned0; lia).
  assert (forall w, w <> spawned p -> (w ∈ {[spawned p]} ∪ live p <-> w ∈ live p)) as Hother by set_solver.
  split; cbn; try done.
  - destruct b; [rewrite length_app; cbn; lia|lia..].
  - intros w. specialize (inv_owned0 w). unfold owners in *. cbn. destruct b; rewrite ?occ_app, ?occ_one, ?one_if_spec; destruct (decide (w = spawned p)) as [->|Hn].
    + rewrite decide_False in inv_owned0 by done. rewrite decide_True by set_solver. lia.
    + erewrite (decide_ext _ (w ∈ live p)) by (by apply Hother). lia.
    + lia.
    + lia.
    + rewrite decide_False in inv_owned0 by done. rewrite decide_True by set_solver. lia.
    + erewrite (decide_ext _ (w ∈ live p)) by (by apply Hother). lia.
  - intros w Hw. assert (w = spawned p \/ w ∈ live p) as [->|?%inv_spawned0] by (destruct b; set_solver); lia.
  - intros Ht. congruence.
Qed.

Lemma inv_warm fuel boot : forall p, inv p -> total holds_permit (calls p) = 0 -> closed p = false -> inv (warm fuel boot p).
Proof.
  induction fuel as [|fuel IH]; intros p Hp Hh Hc; cbn [warm]; [done|]. destruct (length (idle p) <? size) eqn:El; [|done]. apply Nat.ltb_lt in El.
  destruct (boot (spawned p)) eqn:Eb; [apply IH; [by apply inv_warm_step|done|done]|by apply inv_warm_step..].
Qed.

Lemma inv_served tasks boot : inv (served tasks boot).
Proof. apply inv_warm; [apply inv_fresh|by apply total_replicate|done]. Qed.

Lemma one_if_None w : one_if w None = 0.
Proof. done. Qed.

(** What a step of a call changes of the sums. *)
Local Ltac sums := lazymatch goal with
  | H : calls ?p !! ?i = Some ?x |- context [<[?i := ?y]> (calls ?p)] =>
    pose proof (total_insert is_waiting (calls p) i x y H); pose proof (total_insert holds_permit (calls p) i x y H); cbn [is_waiting holds_permit] in *
  | _ => idtac
  end.
Local Ltac hands w := lazymatch goal with
  | H : calls ?p !! ?i = Some ?x |- context [<[?i := ?y]> (calls ?p)] => pose proof (total_insert (holds w) (calls p) i x y H)
  | _ => idtac
  end.

Local Ltac elems := repeat match goal with
  | H : context [_ ∈ _ ∪ _] |- _ => rewrite elem_of_union in H
  | H : context [_ ∈ _ ∖ _] |- _ => rewrite elem_of_difference in H
  | H : context [_ ∈ {[_]}] |- _ => rewrite elem_of_singleton in H
  end.

(** The counters. *)
Lemma step_counts p p' : inv p -> step p p' ->
  waiting p' = total is_waiting (calls p') /\ waiting p' <= queue_bound /\ permits p' + total holds_permit (calls p') = size /\
  length (idle p') + total holds_permit (calls p') <= size.
Proof.
  intros [Hw Hq Hp Hr _ _ _ _ _] Hs. inversion Hs; subst; clear Hs; cbn; sums;
    try match goal with H : idle p = _ |- _ => rewrite H in Hr; try rewrite H; rewrite ?length_app in Hr; cbn [length] in Hr end; rewrite ?length_app; cbn [length]; lia.
Qed.

(** Whose each worker is. *)
Lemma step_owned p p' w : inv p -> step p p' -> owners w p' = if decide (w ∈ live p') then 1 else 0.
Proof.
  intros [_ _ _ _ Ho Hs _ _ _] Hstep. assert (spawned p ∉ live p) as Hfresh by (intros Hin%Hs; lia). specialize (Ho w).
  inversion Hstep; subst; clear Hstep; unfold owners in *; cbn [calls idle closing leaked live move with_waiting with_permits with_idle spawn kill leak ends admitted close with_closing];
    hands w; unfold holds in *; cbn [worker_of] in *;
    try match goal with H : idle p = _ |- _ => rewrite H in Ho; try rewrite H end; try match goal with H : closing p = _ |- _ => rewrite H in Ho; try rewrite H end;
    rewrite ?occ_app, ?occ_cons, ?occ_one, ?occ_nil, ?one_if_spec, ?one_if_None in *; repeat case_decide; subst; try lia; elems; exfalso; intuition congruence.
Qed.

(** What the calls end with. *)
Lemma step_endings p p' i pc e : inv p -> step p p' -> calls p' !! i = Some pc -> ending_of pc = Some e -> ending_ok i e.
Proof.
  intros [_ _ _ _ _ _ _ _ He] Hs. inversion Hs; subst; clear Hs; cbn; try (by apply He);
    intros [(-> & <- & _)|[_ Hj]]%list_lookup_insert_Some; try (by apply (He _ _ _ Hj));
    cbn [ending_of]; try (by intros [= <-]); try done.
  - intros [= <-]. by destruct H0 as [-> | ->].
  - intros [= <-]. by destruct H0.
  - intros [= <-]. by destruct m.
  - intros [= <-]. by destruct m.
  - destruct H0; [intros [= <-]..|]; try done. destruct b; by try intros [= <-].
  - intros [= <-]. by apply (He _ _ _ H).
Qed.

Lemma pool_inv_step p p' : inv p -> step p p' -> inv p'.
Proof.
  intros Hi Hs. pose proof (step_counts _ _ Hi Hs) as (H1 & H2 & H3 & H4). split; [done..| | | | |].
  - intros w. by eapply step_owned.
  - destruct Hi as [_ _ _ _ _ Hlive _ _ _]. inversion Hs; subst; cbn; intros w' Hw'; elems; try (by apply Hlive).
    + destruct Hw' as [->|?%Hlive]; lia.
    + by apply Hlive, Hw'.
    + by apply Hlive, Hw'.
    + by apply Hlive, Hw'.
  - destruct Hi as [_ _ _ _ _ _ Ho Hc _]. inversion Hs; subst; cbn; try done. intros Hf. by rewrite (Ho Hf) in *.
  - destruct Hi as [_ _ _ _ _ _ Ho Hc _]. inversion Hs; subst; cbn; try done; intros Ht; [|congruence].
    match goal with H : idle _ = _ |- _ => rewrite (Hc Ht) in H; by destruct l end.
  - intros i pc e. by eapply step_endings.
Qed.

Lemma pool_inv_reachable tasks boot p : rtc step (served tasks boot) p -> inv p.
Proof.
  revert p. refine (rtc_ind_r (R := step) inv _ (inv_served tasks boot) _). intros y z _ Hs Hi. by eapply pool_inv_step.
Qed.

(** ** Whose a worker is *)
Lemma occ_elem w l : 1 <= occ w l -> w ∈ l.
Proof.
  induction l as [|x l IH]; [rewrite occ_nil; lia|]. rewrite occ_cons, one_if_spec. destruct (decide (w = x)) as [->|]; [intros _; left|right; apply IH; lia].
Qed.
Lemma elem_occ w l : w ∈ l -> 1 <= occ w l.
Proof. induction 1 as [x l|x y l _ IH]; rewrite occ_cons, one_if_spec; [rewrite decide_True by done; lia|lia]. Qed.
Lemma total_holds w l : 1 <= total (holds w) l -> w ∈ omap worker_of l.
Proof.
  induction l as [|pc l IH]; [unfold total; cbn; lia|]. change (total (holds w) (pc :: l)) with (holds w pc + total (holds w) l). cbn [omap list_omap].
  unfold holds at 1. destruct (worker_of pc) as [x|]; [|by rewrite one_if_None]. rewrite one_if_spec.
  destruct (decide (w = x)) as [->|]; [intros _; left|right; apply IH; lia].
Qed.
Lemma omap_held l : length (omap worker_of l) <= total holds_permit l.
Proof.
  induction l as [|pc l IH]; [done|]. change (total holds_permit (pc :: l)) with (holds_permit pc + total holds_permit l). cbn [omap list_omap].
  destruct pc; cbn; lia.
Qed.
Lemma running_held l : total is_running l <= total holds_permit l.
Proof. induction l as [|pc l IH]; [done|]. change (is_running pc + total is_running l <= holds_permit pc + total holds_permit l). destruct pc; cbn; lia. Qed.

Lemma live_owned p w : inv p -> w ∈ live p -> w ∈ idle p ++ closing p ++ omap worker_of (calls p) ++ leaked p.
Proof.
  intros [_ _ _ _ Ho _ _ _ _] Hw. specialize (Ho w). rewrite decide_True in Ho by done. unfold owners in Ho. rewrite !elem_of_app.
  destruct (decide (1 <= occ w (idle p))); [left; by apply occ_elem|]. destruct (decide (1 <= occ w (closing p))); [right; left; by apply occ_elem|].
  destruct (decide (1 <= total (holds w) (calls p))); [right; right; left; by apply total_holds|]. right; right; right. apply occ_elem. lia.
Qed.

Lemma live_bound p : inv p -> base.size (live p) <= size + length (closing p) + length (leaked p).
Proof.
  intros Hi. unfold base.size, set_size. cbn. transitivity (length (idle p ++ closing p ++ omap worker_of (calls p) ++ leaked p)).
  - apply submseteq_length, NoDup_submseteq; [apply NoDup_elements|]. intros w Hw%elem_of_elements. by apply live_owned.
  - destruct Hi as [_ _ _ Hr _ _ _ _ _]. rewrite !length_app. pose proof (omap_held (calls p)). lia.
Qed.

Lemma held_live p i pc w : inv p -> calls p !! i = Some pc -> worker_of pc = Some w -> w ∈ live p /\ occ w (idle p) + occ w (closing p) + occ w (leaked p) = 0 /\ total (holds w) (calls p) = 1.
Proof.
  intros [_ _ _ _ Ho _ _ _ _] Hi Hw. specialize (Ho w). pose proof (total_lookup (holds w) _ _ _ Hi) as Hl. unfold holds in Hl at 1.
  rewrite Hw, one_if_spec, decide_True in Hl by done. unfold owners in Ho. case_decide; [|lia]. split; [done|lia].
Qed.

Lemma held_once p i j pc pc' w : inv p -> i <> j -> calls p !! i = Some pc -> calls p !! j = Some pc' -> worker_of pc = Some w -> worker_of pc' <> Some w.
Proof.
  intros Hi Hne H1 H2 Hw Hw'. destruct (held_live p i pc w Hi H1 Hw) as (_ & _ & Ht). pose proof (total_two (holds w) _ _ _ _ _ Hne H1 H2) as H.
  unfold holds in H at 1 2. rewrite Hw, Hw', one_if_spec, decide_True in H by done. lia.
Qed.

(** C10 The pool stays within its bounds, whatever the calls, the workers and the clock do.  At most
    [queue_bound] calls wait; every permit is free or with one call, so at most [size] patterns run at
    once; besides the workers a close is killing, and those a broken start left, no more than [size]
    processes live; and no worker is in two hands: one that a call holds lives, is neither idle nor being
    closed, and no other call holds it. *)
Theorem pool_bounded tasks boot p : rtc step (served tasks boot) p ->
  waiting p <= queue_bound /\ permits p + total holds_permit (calls p) = size /\ total is_running (calls p) <= size /\
  base.size (live p) <= size + length (closing p) + length (leaked p) /\
  forall i pc w, calls p !! i = Some pc -> worker_of pc = Some w ->
    w ∈ live p /\ w ∉ idle p ++ closing p ++ leaked p /\
    forall j pc', i <> j -> calls p !! j = Some pc' -> worker_of pc' <> Some w.
Proof.
  intros Hr%pool_inv_reachable. split; [by destruct Hr|]. split; [by destruct Hr|].
  split. { destruct Hr as [_ _ Hp _ _ _ _ _ _]. pose proof (running_held (calls p)). lia. }
  split; [by apply live_bound|]. intros i pc w Hi Hw. destruct (held_live p i pc w Hr Hi Hw) as (Hl & Ho & _). split; [done|]. split.
  - rewrite !elem_of_app. intros [H%elem_occ|[H%elem_occ|H%elem_occ]]; lia.
  - intros j pc' Hne Hj. by eapply held_once.
Qed.

(** ** Termination *)
Definition weight (pc : Pc) : nat :=
  match pc with
  | Start => 9 | Acquiring => 8 | Running _ true => 7 | Killing _ Respawn => 6 | Spawning => 5 | Starting _ => 4 | Running _ false => 3
  | Killing _ (Return _) => 1 | Done _ => 0
  end.
Definition work (p : Pool) : nat := total weight (calls p) + 2 * length (idle p) + length (closing p) + (if closed p then 0 else 1).

Lemma pool_step_work p p' : step p p' -> work p' < work p.
Proof.
  intros Hs. unfold work. inversion Hs; subst; clear Hs; cbn [calls idle closing closed move with_waiting with_permits with_idle spawn kill leak ends admitted close with_closing];
    try (lazymatch goal with H : calls ?p !! ?i = Some ?x |- context [<[?i := ?y]> (calls ?p)] => pose proof (total_insert weight (calls p) i x y H) end; cbn [weight] in *);
    try match goal with H : idle p = _ |- _ => rewrite H end; try match goal with H : closing p = _ |- _ => rewrite H end; try match goal with H : closed p = _ |- _ => rewrite H end;
    try match goal with b : bool |- _ => destruct b end; try match goal with H : run_ends _ _ |- _ => destruct H end; rewrite ?length_app; cbn [length weight] in *; lia.
Qed.

Lemma total_le {A} (f : A -> nat) c l : (forall x, f x <= c) -> total f l <= c * length l.
Proof. intros H. induction l as [|x l IH]; [unfold total; cbn; lia|]. change (f x + total f l <= c * S (length l)). specialize (H x). lia. Qed.

Definition is_done (pc : Pc) : bool := match pc with Done _ => true | _ => false end.

Lemma pool_step_progress p : ~ finished p -> exists p', step p p'.
Proof.
  intros Hn. destruct (decide (Forall (fun pc => is_done pc = true) (calls p))) as [Hd|Hd].
  - destruct (closing p) as [|w l] eqn:E; [|eexists; by eapply step_close_kill]. exfalso. apply Hn. split; [|done].
    intros i pc Hi. rewrite Forall_lookup in Hd. specialize (Hd _ _ Hi). destruct pc; try done. by eexists.
  - apply not_Forall_Exists in Hd; [|apply _]. apply Exists_exists in Hd as (pc & (i & Hi)%list_elem_of_lookup & Hpc). cbn in Hpc.
    destruct pc as [| | |w|w b|w [e|]|e].
    + destruct (closed p) eqn:Ec; [eexists; by eapply (step_refused _ i)|].
      destruct (decide (waiting p < queue_bound)); [eexists; by eapply (step_queue _ i)|eexists; eapply step_saturated; [exact Hi|exact Ec|lia]].
    + eexists. eapply step_leave; [exact Hi|by left].
    + eexists. by eapply (step_spawned _ i).
    + eexists. eapply step_start_ends; [exact Hi|constructor].
    + eexists. eapply step_run_ends; [exact Hi|constructor].
    + eexists. by eapply (step_killed _ i).
    + eexists. by eapply (step_respawn _ i).
    + by destruct Hpc.
Qed.

Lemma pool_reaches_finished p : (exists p', rtc step p p' /\ finished p').
Proof.
  remember (work p) as n eqn:Hn. revert p Hn. induction n as [n IH] using lt_wf_ind. intros p ->.
  destruct (decide (Forall (fun pc => is_done pc = true) (calls p) /\ closing p = [])) as [[Hd Hc]|Hnf].
  - exists p. split; [done|]. split; [|done]. intros i pc Hi. rewrite Forall_lookup in Hd. specialize (Hd _ _ Hi). destruct pc; try done. by eexists.
  - destruct (pool_step_progress p) as [p1 Hs].
    { intros [Hf Hc]. apply Hnf. split; [|done]. apply Forall_lookup. intros i pc Hi. by destruct (Hf _ _ Hi) as [e ->]. }
    destruct (IH (work p1)) with (p := p1) as (p2 & Hr & Hf); [by apply pool_step_work|done|]. exists p2. split; [by eapply rtc_l|done].
Qed.

Lemma step_length p p' : step p p' -> length (calls p') = length (calls p).
Proof. intros Hs. inversion Hs; subst; cbn; rewrite ?length_insert; done. Qed.

Lemma warm_calls fuel boot : forall p, calls (warm fuel boot p) = calls p /\ closed (warm fuel boot p) = closed p /\ closing (warm fuel boot p) = closing p /\
  length (idle (warm fuel boot p)) <= Nat.max size (length (idle p)).
Proof.
  induction fuel as [|fuel IH]; intros p; cbn [warm]; [split_and!; try done; lia|]. destruct (length (idle p) <? size) eqn:El; [|split_and!; try done; lia].
  apply Nat.ltb_lt in El. assert (forall b, length (idle (warm_step b p)) <= S (length (idle p))) as Hl.
  { intros b. cbn. destruct b; rewrite ?length_app; cbn; lia. }
  destruct (boot (spawned p)); [|split_and!; try done; specialize (Hl Refused); lia|split_and!; try done; specialize (Hl Broken); lia].
  destruct (IH (warm_step Ready p)) as (H1 & H2 & H3 & H4). specialize (Hl Ready). split_and!; [by rewrite H1|by rewrite H2|by rewrite H3|lia].
Qed.

(** A worker is leaked by a start that breaks. *)
Definition blamed (boot : nat -> Boot) (p : Pool) : Prop :=
  leaked p = [] \/ (exists n, boot n = Broken) \/ exists i, calls p !! i = Some (Done Escaped).

Lemma warm_blamed fuel boot : forall p, blamed boot p -> blamed boot (warm fuel boot p).
Proof.
  induction fuel as [|fuel IH]; intros p Hp; cbn [warm]; [done|]. destruct (length (idle p) <? size); [|done].
  destruct (boot (spawned p)) eqn:Eb; [by apply IH|done|right; left; by exists (spawned p)].
Qed.

Lemma step_blamed boot p p' : step p p' -> blamed boot p -> blamed boot p'.
Proof.
  intros Hs [Hl|[Hb|[j Hj]]]; [|right; by left|].
  - inversion Hs; subst; try (left; done). right; right. exists i. cbn. apply list_lookup_insert_eq. by eapply lookup_lt_Some.
  - right; right. exists j. inversion Hs; subst; cbn; try done; (rewrite list_lookup_insert_ne; [done|]; intros ->; congruence).
Qed.

Lemma reachable_facts tasks boot p : rtc step (served tasks boot) p ->
  length (calls p) = tasks /\ work p <= 9 * tasks + 2 * size + 1 /\ blamed boot p.
Proof.
  destruct (warm_calls size boot (fresh tasks)) as (H1 & H2 & H3 & H4). cbn [calls closed closing idle fresh length] in *.
  revert p. refine (rtc_ind_r (R := step) (fun p => length (calls p) = tasks /\ work p <= 9 * tasks + 2 * size + 1 /\ blamed boot p) _ _ _).
  - unfold served. rewrite H1, length_replicate. split; [done|]. split.
    + unfold work. rewrite H1, H2, H3. pose proof (total_le weight 9 (replicate tasks Start) ltac:(intros [| | | |? []|? []|]; cbn; lia)) as H.
      rewrite length_replicate in H. cbn [length]. lia.
    + apply warm_blamed. by left.
  - intros y z _ Hs (IH1 & IH2 & IH3). split; [by rewrite (step_length _ _ Hs)|]. split; [pose proof (pool_step_work _ _ Hs); lia|by eapply step_blamed].
Qed.

(** C11 Every call ends, and nothing outlives the pool.  Each step does work, of which a pool that serves so
    many calls has at most nine for each, two for each worker and one for the close, so every run ends,
    and from every state it can; when it has, every call has ended, no one waits and every permit is
    free; and if the pool is closed then, no process is left, but for those of a start that broke in a
    way [_start] does not catch. *)
Theorem pool_drains tasks boot p : rtc step (served tasks boot) p ->
  work p <= 9 * tasks + 2 * size + 1 /\ (forall p', step p p' -> work p' < work p) /\ (exists p', rtc step p p' /\ finished p') /\
  (finished p ->
    (forall i, i < tasks -> exists e, calls p !! i = Some (Done e)) /\ waiting p = 0 /\ permits p = size /\
    (closed p = true -> (forall w, w ∈ live p -> w ∈ leaked p) /\
      ((forall n, boot n <> Broken) -> (forall i, calls p !! i <> Some (Done Escaped)) -> live p = ∅))).
Proof.
  intros Hr. destruct (reachable_facts _ _ _ Hr) as (Hlen & Hwork & Hblame). pose proof (pool_inv_reachable _ _ _ Hr) as Hi.
  split; [done|]. split; [apply pool_step_work|]. split; [apply pool_reaches_finished|]. intros [Hdone Hc].
  assert (forall f : Pc -> nat, (forall e, f (Done e) = 0) -> total f (calls p) = 0) as Hzero.
  { intros f Hf. revert Hdone. clear -Hf. intros Hdone. induction (calls p) as [|pc l IH]; [done|]. change (f pc + total f l = 0).
    destruct (Hdone 0 pc eq_refl) as [e ->]. rewrite Hf, IH; [done|]. intros i pc Hi. by apply (Hdone (S i)). }
  split. { intros i Hlt. rewrite <- Hlen in Hlt. apply lookup_lt_is_Some in Hlt as [pc Hpc]. destruct (Hdone _ _ Hpc) as [e ->]. by exists e. }
  split; [destruct Hi as [-> _ _ _ _ _ _ _ _]; by apply Hzero|]. split; [destruct Hi as [_ _ Hp _ _ _ _ _ _]; rewrite Hzero in Hp by done; lia|].
  intros Hclosed. assert (forall w, w ∈ live p -> w ∈ leaked p) as Hl.
  { intros w Hw. pose proof (live_owned _ _ Hi Hw) as H. destruct Hi as [_ _ _ _ _ _ _ Hidle _]. rewrite (Hidle Hclosed), Hc in H. cbn [app] in H.
    apply elem_of_app in H as [H|H]; [|done]. pose proof (omap_held (calls p)) as Hh. rewrite Hzero in Hh by done.
    destruct (omap worker_of (calls p)); [by apply not_elem_of_nil in H|cbn in Hh; lia]. }
  split; [done|]. intros Hboot Hesc. destruct Hblame as [He|[[n Hn]|[i Hn]]]; [|by destruct (Hboot n)|by destruct (Hesc i)].
  apply leibniz_equiv. intros w. split; [|by intros ?%elem_of_empty]. intros Hw%Hl. rewrite He in Hw. by apply not_elem_of_nil in Hw.
Qed.

(** ** The port *)
(** The calls of a pool as the answers of a [RegexExecutor]. *)
Definition pool_find (p : Pool) (n : nat) (q : Translated) (us : list Z) : MatchResult :=
  if bool_decide ((source q, flags q, us) = (source (pattern n), flags (pattern n), units n)) then
    match calls p !! n with Some (Done (Result r)) => r | _ => Invalid NO_RESULT end
  else Invalid NO_RESULT.
Definition process_executor (p : Pool) : RegexExecutor := {| find := pool_find p |}.

End Pool.

(** ** Witnesses *)
(** One worker, two calls: the first runs past its deadline, so its worker is killed; the second gets a
    fresh one, which answers. *)
Definition sample_units (i : nat) : list Z := if i =? 0 then u "aaaa" else u "a1b22".
Abbreviation sample_step := (step 1 (fun _ => Some digit_search) (fun _ => {| source := u "d"; flags := 0%Z |}) sample_units).
Abbreviation sample_pool := (served 1 2 (fun _ => Ready)).

Local Ltac call i := first [apply (step_queue _ _ _ _ _ i); [reflexivity|reflexivity|cbn; lia]|apply (step_take _ _ _ _ _ i []); [reflexivity|cbn; lia|reflexivity]
  |apply (step_open _ _ _ _ _ i); [reflexivity|cbn; lia|reflexivity]|apply (step_spawned _ _ _ _ _ i); reflexivity|eapply (step_ready _ _ _ _ _ i); reflexivity
  |eapply (step_killed _ _ _ _ _ i); reflexivity].

Lemma sample_pool_run : exists p, rtc sample_step sample_pool p /\ finished p /\ closed p = true /\
  calls p = [Done (Result Timeout); Done (Result (Matches [u "1"; u "2"] false 0))].
Proof.
  eexists. split.
  - eapply rtc_l; [call 0|]. eapply rtc_l; [call 0|]. eapply rtc_l; [eapply (step_run_ends _ _ _ _ _ 0); [reflexivity|apply run_times_out]|].
    eapply rtc_l; [call 0|]. eapply rtc_l; [call 1|]. eapply rtc_l; [call 1|]. eapply rtc_l; [call 1|]. eapply rtc_l; [call 1|].
    eapply rtc_l; [eapply (step_reply _ _ _ _ _ 1); [reflexivity|vm_compute; reflexivity|reflexivity]|].
    eapply rtc_l; [apply step_close; reflexivity|]. eapply rtc_l; [eapply step_close_kill; reflexivity|]. apply rtc_refl.
  - split; [|split; reflexivity]. split; [|reflexivity]. intros [|[|i]] pc H; [injection H as <-; by eexists..|done].
Qed.

Lemma pool_bounded_witness : exists p, rtc sample_step sample_pool p /\ permits p + total holds_permit (calls p) = 1.
Proof.
  destruct sample_pool_run as (p & Hr & _). exists p. split; [exact Hr|].
  exact (proj1 (proj2 (pool_bounded 1 1 (fun _ => Some digit_search) (fun _ => {| source := u "d"; flags := 0%Z |}) sample_units 2 (fun _ => Ready) p Hr))).
Defined.

Lemma pool_drains_witness : exists p, rtc sample_step sample_pool p /\ closed p = true /\ live p = ∅.
Proof.
  destruct sample_pool_run as (p & Hr & Hf & Hc & Hcalls). exists p. split; [exact Hr|]. split; [exact Hc|].
  destruct (pool_drains 1 1 (fun _ => Some digit_search) (fun _ => {| source := u "d"; flags := 0%Z |}) sample_units 2 (fun _ => Ready) p Hr) as (_ & _ & _ & H).
  apply (proj2 (proj2 (proj2 (proj2 (H Hf))) Hc)); [discriminate|]. rewrite Hcalls. intros [|[|i]]; discriminate.
Defined.

