(* ===== verification/Cli.v ===== *)
(** * The command line

    Models [cli.py]: [judge] (one JSON object in, one tool call, one decision out), [gate] (a git range,
    a claims file and a tests log, read from the repository, to jev_gate), and the completion hook.
    Arguments, standard input and the environment are arguments, outputs a record.  The file system, git,
    SHA-256, the settings a process loads and the runtime they make are parameters. *)
From S2P Require Import Prelude Float64 Text Json Serialize Caps Policy Responses Runtime Arguments Schema ReviewHalf Samples Toolset PyStrings.
From S2P Require Import Utf8 Paths GitDiff Http Hook.
From S2P Require Validation Definitions Verify Classify Compare Review Gate Files Extract Matching.
Open Scope Z_scope.

(** ** The tokens of a command line

    What [shlex.shlex(line, posix=True, punctuation_chars=True)] of the standard library yields, as the
    state machine of [shlex.read_token], one step per character; and what it yields for the lines the
    completion hook is about: quoted words and operators between blanks. *)
Module Shlex.
(** ** The character classes of the constructor *)
Definition WHITESPACE : list Z := [32; 9; 13; 10].
Definition PUNCTUATION : list Z := u "();<>|&".
Definition COMMENTER : Z := 35.
Definition ESCAPE : Z := 92.
Definition DOUBLE : Z := 34.
Definition SINGLE : Z := 39.

(** Letters, digits, the underscore, the letters of Latin-1, and what file names and arguments may have. *)
Definition is_wordchar (c : Z) : bool :=
  ((48 <=? c) && (c <=? 57)) || ((65 <=? c) && (c <=? 90)) || ((97 <=? c) && (c <=? 122)) || (c =? 95)
  || ((192 <=? c) && (c <=? 255) && negb (c =? 215) && negb (c =? 247))
  || mem c (u "~-./*?=").
Definition is_blank (c : Z) : bool := mem c WHITESPACE.
Definition is_punctuation (c : Z) : bool := mem c PUNCTUATION.
Definition is_quote (c : Z) : bool := (c =? SINGLE) || (c =? DOUBLE).

(** ** [read_token], over and over

    [Between]: the state [' '], between tokens.  [InWord] and [InPunctuation]: the states ['a'] and ['c'].
    [InQuote q]: inside a quotation.  [Escaped q]: behind a backslash, met in a quotation [q] or in
    a word.  [InComment]: what [readline] drops. *)
Inductive State := Between | InWord | InPunctuation | InQuote (q : Z) | Escaped (q : option Z) | InComment.

(** The token so far is reversed; [quoted] tells an empty quotation from no token. *)
Definition emit (token : text) (quoted : bool) (rest : option (list text)) : option (list text) :=
  match token with
  | [] => if quoted then cons [] <$> rest else rest
  | _ => cons (rev token) <$> rest
  end.

(** What a character does between tokens. *)
Definition start (c : Z) (continue : State -> text -> option (list text)) : option (list text) :=
  if is_blank c then continue Between []
  else if c =? COMMENTER then continue InComment []
  else if c =? ESCAPE then continue (Escaped None) []
  else if is_wordchar c then continue InWord [c]
  else if is_punctuation c then continue InPunctuation [c]
  else if is_quote c then continue (InQuote c) []
  else emit [c] false (continue Between []).

(** [None]: [ValueError], no closing quotation or nothing behind a backslash. *)
Fixpoint read (state : State) (token : text) (quoted : bool) (line : text) : option (list text) :=
  match line with
  | [] =>
    match state with
    | Between | InComment => Some []
    | InWord | InPunctuation => emit token quoted (Some [])
    | InQuote _ | Escaped _ => None
    end
  | c :: line' =>
    let go state token := read state token false line' in
    match state with
    | Between => start c go
    | InComment => if c =? 10 then go Between [] else go InComment []
    | InQuote q =>
      if c =? q then read InWord token true line'
      else if (c =? ESCAPE) && (q =? DOUBLE) then read (Escaped (Some q)) token true line'
      else read (InQuote q) (c :: token) true line'
    | Escaped (Some q) =>
      read (InQuote q) (if negb (c =? ESCAPE) && negb (c =? q) then c :: ESCAPE :: token else c :: token) quoted line'
    | Escaped None => read InWord (c :: token) quoted line'
    | InPunctuation =>
      if is_blank c then emit token quoted (go Between [])
      else if c =? COMMENTER then emit token quoted (go InComment [])
      else if is_punctuation c then read InPunctuation (c :: token) quoted line'
      else emit token quoted (start c go)
    | InWord =>
      if is_blank c then emit token quoted (go Between [])
      else if c =? COMMENTER then emit token quoted (go InComment [])
      else if is_quote c then read (InQuote c) token quoted line'
      else if c =? ESCAPE then read (Escaped None) token quoted line'
      else if is_wordchar c then read InWord (c :: token) quoted line'
      else emit token quoted (start c go)
    end
  end.

Definition tokens (line : text) : option (list text) := read Between [] false line.

Example tokens_read :
  tokens <$> [u "git push"; u "cd a&& git  push;b"; u "a'b c'd"; u "echo hi # x" ++ [10] ++ u "git push"; u "git -c a=b@c push"; u "x" ++ [92; 32] ++ u "y";
              dq ++ u "a" ++ [92] ++ dq ++ dq; u "''"; u "'"; [92]; u "2>&1|b"; []] =
  [Some [u "git"; u "push"]; Some [u "cd"; u "a"; u "&&"; u "git"; u "push"; u ";"; u "b"]; Some [u "ab cd"];
   Some [u "echo"; u "hi"; u "git"; u "push"]; Some [u "git"; u "-c"; u "a=b"; u "@"; u "c"; u "push"]; Some [u "x y"];
   Some [u "a" ++ dq]; Some [[]]; None; None; Some [u "2"; u ">&"; u "1"; u "|"; u "b"]; Some []].
Proof. vm_compute. reflexivity. Qed.

(** ** Lines of words and operators *)
(** A word as [shlex.quote] writes it: a quote inside leaves the quotation and comes back. *)
Definition escaped (w : text) : text := flat_map (fun c => if c =? SINGLE then [SINGLE; DOUBLE; SINGLE; DOUBLE; SINGLE] else [c]) w.
Definition quote (w : text) : text := SINGLE :: escaped w ++ [SINGLE].

Inductive Item := Bare (w : text) | Quoted (w : text) | Operator (o : text).
Definition written (i : Item) : text := match i with Bare w | Operator w => w | Quoted w => quote w end.
Definition item_text (i : Item) : text := match i with Bare w | Operator w | Quoted w => w end.
Definition proper (i : Item) : Prop :=
  match i with
  | Bare w => w <> [] /\ Forall (fun c => is_wordchar c = true) w
  | Operator o => o <> [] /\ Forall (fun c => is_punctuation c = true) o
  | Quoted _ => True
  end.
Definition line_of (items : list Item) : text := join [32] (written <$> items).

(** The classes are apart. *)
Lemma wordchar_apart c : is_wordchar c = true ->
  is_blank c = false /\ (c =? COMMENTER) = false /\ (c =? ESCAPE) = false /\ is_quote c = false /\ is_punctuation c = false.
Proof.
  intros H. assert (forall l, mem c l = true -> existsb (fun d => is_wordchar d) l = true) as Hl.
  { intros l Hm. apply existsb_exists. exists c. split; [apply list_elem_of_In, mem_spec, Hm|done]. }
  split_and!; apply not_true_iff_false; intros E.
  - apply Hl in E. vm_compute in E. done.
  - apply Z.eqb_eq in E. subst. by vm_compute in H.
  - apply Z.eqb_eq in E. subst. by vm_compute in H.
  - apply orb_true_iff in E as [E|E]; apply Z.eqb_eq in E; subst; by vm_compute in H.
  - apply Hl in E. vm_compute in E. done.
Qed.

Lemma punctuation_apart c : is_punctuation c = true ->
  is_blank c = false /\ (c =? COMMENTER) = false /\ (c =? ESCAPE) = false /\ is_quote c = false /\ is_wordchar c = false.
Proof.
  intros H. destruct (is_wordchar c) eqn:E; [apply wordchar_apart in E as (_ & _ & _ & _ & E); congruence|].
  assert (forall l, mem c l = true -> existsb (fun d => is_punctuation d) l = true) as Hl.
  { intros l Hm. apply existsb_exists. exists c. split; [apply list_elem_of_In, mem_spec, Hm|done]. }
  split_and!; try done; apply not_true_iff_false; intros E'.
  - apply Hl in E'. vm_compute in E'. done.
  - apply Z.eqb_eq in E'. subst. by vm_compute in H.
  - apply Z.eqb_eq in E'. subst. by vm_compute in H.
  - apply orb_true_iff in E' as [E'|E']; apply Z.eqb_eq in E'; subst; by vm_compute in H.
Qed.

Lemma read_quotation w : forall token quoted rest,
  read (InQuote SINGLE) token quoted (escaped w ++ SINGLE :: rest) = read InWord (rev w ++ token) true rest.
Proof.
  induction w as [|c w IH]; intros token quoted rest; [done|]. cbn [escaped flat_map rev]. rewrite <- !app_assoc. fold (escaped w).
  destruct (c =? SINGLE) eqn:E.
  - apply Z.eqb_eq in E as ->. cbn [app]. do 5 (cbn [read]; vm_compute (_ =? _); vm_compute (is_blank _); vm_compute (is_quote _); cbn [andb]).
    apply IH.
  - cbn [app read]. rewrite E. replace (SINGLE =? DOUBLE) with false by done. rewrite andb_false_r. apply IH.
Qed.

Lemma read_bare w : Forall (fun c => is_wordchar c = true) w -> forall token quoted rest,
  read InWord token quoted (w ++ rest) = read InWord (rev w ++ token) quoted rest.
Proof.
  induction 1 as [|c w Hc _ IH]; intros token quoted rest; [done|]. cbn [app read rev]. rewrite <- app_assoc.
  pose proof (wordchar_apart c Hc) as (-> & -> & -> & -> & _). rewrite Hc. apply IH.
Qed.

Lemma read_operator o : Forall (fun c => is_punctuation c = true) o -> forall token quoted rest,
  read InPunctuation token quoted (o ++ rest) = read InPunctuation (rev o ++ token) quoted rest.
Proof.
  induction 1 as [|c o Hc _ IH]; intros token quoted rest; [done|]. cbn [app read rev]. rewrite <- app_assoc.
  pose proof (punctuation_apart c Hc) as (-> & -> & _ & _ & _). rewrite Hc. apply IH.
Qed.

Lemma emit_some t quoted rest : rev t <> [] \/ quoted = true -> emit t quoted rest = cons (rev t) <$> rest.
Proof. intros H. destruct t; [|done]. destruct H as [H| ->]; [by destruct H|done]. Qed.

(** Before a blank or the end, an item is its token. *)
Definition after_item (rest : text) : option (list text) :=
  match rest with [] => Some [] | _ :: rest' => read Between [] false rest' end.

Lemma read_item i rest : proper i -> (rest = [] \/ exists rest', rest = 32 :: rest') ->
  read Between [] false (written i ++ rest) = cons (item_text i) <$> after_item rest.
Proof.
  intros Hi Hr. assert (forall state t quoted, state = InWord \/ state = InPunctuation -> rev t <> [] \/ quoted = true ->
    read state t quoted rest = cons (rev t) <$> after_item rest) as Hend.
  { intros state t quoted Hs Ht. destruct Hr as [->|[rest' ->]]; destruct Hs as [-> | ->]; cbn [read after_item]; by rewrite emit_some. }
  destruct i as [w|w|o]; cbn [written item_text].
  - destruct Hi as [Hne Hw]. destruct w as [|c w]; [done|]. apply Forall_cons in Hw as [Hc Hw]. cbn [app read start].
    unfold start. pose proof (wordchar_apart c Hc) as (-> & -> & -> & _ & _). rewrite Hc, read_bare by done.
    rewrite Hend, rev_app_distr, rev_involutive; [done|by left|left]. rewrite rev_app_distr. done.
  - transitivity (read (InQuote SINGLE) [] false ((escaped w ++ [SINGLE]) ++ rest)); [done|].
    rewrite <- app_assoc. cbn [app]. rewrite read_quotation, app_nil_r, Hend, rev_involutive; [done|by left|by right].
  - destruct Hi as [Hne Ho]. destruct o as [|c o]; [done|]. apply Forall_cons in Ho as [Hc Ho]. cbn [app read].
    unfold start. pose proof (punctuation_apart c Hc) as (-> & -> & -> & _ & ->). rewrite Hc, read_operator by done.
    rewrite Hend, rev_app_distr, rev_involutive; [done|by right|left]. rewrite rev_app_distr. done.
Qed.

(** A line of items reads as their texts. *)
Lemma tokens_of_line items : Forall proper items -> tokens (line_of items) = Some (item_text <$> items).
Proof.
  unfold tokens, line_of. induction 1 as [|i items Hi _ IH]; [done|]. destruct items as [|j items].
  - cbn [fmap list_fmap join]. rewrite <- (app_nil_r (written i)), read_item by (done || by left). done.
  - rewrite fmap_cons, join_cons by done. rewrite read_item by (done || (right; by eexists)). cbn [after_item app]. by rewrite IH.
Qed.
End Shlex.
Import Shlex.

(** ** Which commands complete *)
Definition COMPLETION_COMMANDS : list (list text) :=
  [[u "git"; u "push"]; [u "gh"; u "pr"; u "create"]; [u "gh"; u "pr"; u "merge"]].
Definition SHELL_OPERATORS : list text := [u "&&"; u "||"; u ";"; u ";;"; u "|"; u "&"].
Definition GIT_OPTIONS_WITH_VALUE : list text :=
  [u "-C"; u "-c"; u "--git-dir"; u "--work-tree"; u "--namespace"; u "--exec-path"].
Definition GIT_FLAGS : list text :=
  [u "-p"; u "--paginate"; u "-P"; u "--no-pager"; u "--bare"; u "--no-replace-objects"; u "--literal-pathspecs"].

Definition is_git_flag (token : text) : bool :=
  mem token GIT_FLAGS || (starts_with (u "--") token && mem 61 token).

(** [_after_git_options]; an option whose value is missing leaves nothing. *)
Fixpoint after_git_options (rest : list text) : list text :=
  match rest with
  | [] => []
  | token :: rest' =>
    if mem token GIT_OPTIONS_WITH_VALUE then match rest' with [] => [] | _ :: rest'' => after_git_options rest'' end
    else if is_git_flag token then after_git_options rest'
    else rest
  end.

Definition is_completion_command (argv : list text) : bool :=
  let argv := match argv with
              | first :: rest => if bool_decide (first = u "git") then u "git" :: after_git_options rest else argv
              | [] => [] end in
  existsb (fun prefix => bool_decide (take (length prefix) argv = prefix)) COMPLETION_COMMANDS.

Definition is_shell_operator (token : text) : bool :=
  mem token SHELL_OPERATORS || forallb (fun c => mem c (u "&|;")) token.

(** The loop of [completion_matches]; [argv] is reversed. *)
Fixpoint matches_from (argv : list text) (tokens : list text) : bool :=
  match tokens with
  | [] => false
  | token :: tokens' =>
    if is_shell_operator token
    then match argv with [] => false | _ => is_completion_command (rev argv) end || matches_from [] tokens'
    else matches_from (token :: argv) tokens'
  end.

Definition completion_matches (command : text) : bool :=
  match Shlex.tokens command with None => false | Some tokens => matches_from [] (tokens ++ [u ";"]) end.

Example completions : completion_matches <$>
  [u "git push"; u "cd repo && git  push -f"; u "git -C repo push origin"; u "git --git-dir=x -p push"; u "gh pr merge 1 | tee x"; u "true;git push"] =
  [true; true; true; true; true; true].
Proof. vm_compute. done. Qed.
Example no_completions : completion_matches <$>
  [u "git pushback"; u "GIT PUSH"; u "git commit -m 'git push'"; u "git push -m '"; u "echo git push"; []] =
  [false; false; false; false; false; false].
Proof. vm_compute. done. Qed.

(** Where the tokens are not the shell's: a word with an [@] or a comma falls apart, so the value of an
    option is not all of it; a line break ends no command; and a [#] inside a word hides the rest. *)
Example pushes_missed : completion_matches <$>
  [u "git -c user.email=me@example.com push"; u "git -C /srv/c++ push"; u "git status" ++ [10] ++ u "git push"; u "git commit -m fix#12 && git push"] =
  [false; false; false; false].
Proof. vm_compute. done. Qed.

(** ** Decisions *)
Definition SCHEMA_VERSION : Z := 1.
Definition USAGE_JUDGE : text := u "jev-judge-mcp judge: usage: jev-judge-mcp judge <tool>" ++ LF.
Definition USAGE_GATE : text :=
  u "jev-judge-mcp gate: usage: jev-judge-mcp gate --diff <git-range> --claims <file> --tests <file> [--request <text>]" ++ LF.

Record CliError := { cli_code : text; cli_message : text; cli_exit : Z }.
Definition invalid (message : text) : CliError := {| cli_code := u "invalid_arguments"; cli_message := message; cli_exit := 2 |}.

Record Decision := {
  d_exit : Z; rendered : text; d_stderr : text; d_action : option text; d_error_code : option text; unresolved : bool }.

(** *** The decision fields of a payload: the action it reports, and whether it is no green light *)
Definition Reported : Type := option text * bool.

Definition dict_of (v : value) : option (dict value) := match v with VDict d => Some d | _ => None end.
Definition field (k : string) (d : dict value) : option (dict value) := dict_of (get (u k) d).

Definition top_action (p : dict value) : Reported :=
  match get (u "action") p with VStr a => (Some a, negb (bool_decide (a = u "auto"))) | _ => (None, true) end.

Definition screen_action (p : dict value) : Reported :=
  match field "recommendation" p with
  | Some r => match get (u "action") r with VStr a => (Some a, negb (bool_decide (a = u "pass"))) | _ => (None, true) end
  | None => (None, true)
  end.

Definition rows_in (p : dict value) : list (dict value) :=
  match get (u "results") p with VList rows => omap dict_of rows | _ => [] end.

Definition row_action (key : string) (p : dict value) : Reported :=
  match caller_actions (get (u key) <$> rows_in p) with
  | [] => (None, true)
  | actions => let action := worst_action actions in (Some (action_text action), negb (bool_decide (action = Auto)))
  end.

Definition compare_action (p : dict value) : Reported :=
  match field "overall" p with
  | Some o =>
    match get (u "decision") o with
    | VStr d => if mem d [u "auto"; u "review"] then (Some d, negb (bool_decide (d = u "auto"))) else (None, true)
    | _ => (None, true)
    end
  | None => (None, true)
  end.

Definition status_is (s : string) (p : dict value) : bool := is_str (u s) (get (u "status") p).
Definition status_clean (p : dict value) : Reported := (None, status_is "invalid_response" p).
Definition score_clean (p : dict value) : Reported := (None, negb (status_is "ok" p)).

Definition files_clean (p : dict value) : Reported :=
  match get (u "results") p with
  | VList (_ :: _) => (None, existsb (fun r => negb (status_is "ok" r)) (rows_in p))
  | _ => (None, true)
  end.

Definition decide_clean (p : dict value) : Reported :=
  match field "recommendation" p with
  | None => (None, true)
  | Some r =>
    (None, match get (u "selected") r with VNone => true | _ => false end ||
           match get (u "escaped") r with VBool true => true | _ => false end)
  end.

Definition TOOL_DECISIONS : list (text * (dict value -> Reported)) :=
  [(u "jev_verify", row_action "action"); (u "jev_screen", screen_action); (u "jev_find", status_clean);
   (u "jev_classify", row_action "decision"); (u "jev_decide", decide_clean); (u "jev_rerank", status_clean);
   (u "jev_compare", compare_action); (u "jev_review", top_action); (u "jev_gate", top_action);
   (u "jev_score", score_clean); (u "jev_file_judge", score_clean); (u "jev_ask", score_clean);
   (u "jev_files_judge", files_clean); (u "jev_gate_range", top_action)].

(** [_decision]. *)
Definition decision (name : text) (p : dict value) : Reported :=
  match dget name TOOL_DECISIONS with Some resolve => resolve p | None => (None, true) end.

(** [_reported]: jev_extract reads its headline off the outcome. *)
Definition reported (name : text) (o : ToolOutcome) (p : dict value) : Reported :=
  if bool_decide (name = u "jev_extract") then
    let action := h ← out_extract o; call_action h in
    (action_text <$> action, negb (bool_decide (action = Some Auto)))
  else decision name p.

(** *** Numbers; [None] is the [OverflowError] of an integer too large for a float *)
Definition as_int (v : value) : option Z := match v with VInt z => Some z | VBool b => Some (Z.b2z b) | _ => None end.
Definition is_number (v : value) : bool := match v with VInt _ | VBool _ | VFloat _ => true | _ => false end.
Definition to_float (v : value) : option float :=
  match v with VFloat f => Some f | _ => z ← as_int v; float_of_int z end.

Definition add_numbers (a b : value) : option value :=
  match as_int a, as_int b with
  | Some x, Some y => Some (VInt (x + y))
  | _, _ => x ← to_float a; y ← to_float b; Some (VFloat (fadd x y))
  end.

(** [_confidence]. *)
Definition confidence (p : dict value) : option value :=
  match get (u "confidence") p with
  | (VInt _ | VFloat _) as v => VFloat <$> to_float v
  | _ => Some VNone
  end.

Definition billed (usage : value) : option value :=
  match usage with
  | VDict d =>
    let '(i, o) := (get (u "input_tokens") d, get (u "output_tokens") d) in
    if is_number i && is_number o then add_numbers i o else Some VNone
  | _ => Some VNone
  end.

Section Cli.
Context (version : text).

(** [_render_decision]. *)
Definition render_decision (tool : text) (action : option text) (codes : list value) (confidence : value)
    (error : option (text * text)) (usage payload : value) (unresolved : bool) : option text :=
  b ← billed usage;
  Some (stringify (VDict
    [(u "schema_version", VInt SCHEMA_VERSION); (u "policy_version", VStr POLICY_VERSION); (u "server_version", VStr version);
     (u "tool", VStr tool); (u "action", opt_text action); (u "reason_codes", VList codes); (u "confidence", confidence);
     (u "error", match error with Some (c, m) => VDict [(u "code", VStr c); (u "message", VStr m)] | None => VNone end);
     (u "usage", usage); (u "billed_tokens", b); (u "unresolved", VBool unresolved); (u "payload", payload)]) ++ LF).

Definition failure (code message tool : text) (exit_code : Z) (payload : value) : option Decision :=
  line ← render_decision tool None [] VNone (Some (code, message)) VNone payload true;
  Some {| d_exit := exit_code; rendered := line; d_stderr := []; d_action := None; d_error_code := Some code; unresolved := true |}.

Definition success (tool : text) (r : Reported) (codes : list value) (confidence usage payload : value) : option Decision :=
  line ← render_decision tool r.1 codes confidence None usage payload r.2;
  Some {| d_exit := 0; rendered := line; d_stderr := []; d_action := r.1; d_error_code := None; unresolved := r.2 |}.

(** [_run_tool].  [rt] is what [_runtime] makes of the settings, or what loading them raises. *)
Definition report (name : text) (o : ToolOutcome) : option Decision :=
  if out_is_error o then
    failure (code_or_provider (out_error_code o)) (out_text o) name 1
      (match out_payload o with Some p => VDict p | None => VStr (out_text o) end)
  else
    let p := or_else (out_payload o) [(u "text", VStr (out_text o))] in
    c ← confidence p;
    success name (reported name o p) (match get (u "reason_codes") p with VList codes => codes | _ => [] end) c
      (get (u "usage") p) (VDict p).

Context (tools : list JevTool) (rt : result exn Runtime).

Definition run_tool (name : text) (arguments : dict value) (log : Log) : option Decision * Log :=
  if negb (mem name (tool_name <$> tools)) then (failure (u "invalid_arguments") (u "unknown tool " ++ name) name 2 VNone, log)
  else
    match rt with
    | Raise e => (failure (code_of e) (message_of e) name 1 VNone, log)
    | Ok rt => let '(o, log') := execute tools rt name (Some arguments) log in (report name o, log')
    end.

(** What a process leaves; [None] where an exception ends it. *)
Definition emit (d : Decision) : HookRun := {| exit_code := d_exit d; out := rendered d; err := d_stderr d; requests := [] |}.

Definition judge_main (argv : list text) (body : text) (log : Log) : option HookRun * Log :=
  match argv with
  | [(c :: _) as name] =>
    if c =? DASH then (Some (silent 2 USAGE_JUDGE []), log)
    else
      match match strip body with [] => Some VNone | _ => decode_json body end with
      | Some (VDict arguments) => let '(d, log') := run_tool name arguments log in (emit <$> d, log')
      | _ => (emit <$> failure (u "invalid_arguments") (u "stdin was not one JSON object") name 2 VNone, log)
      end
  | _ => (Some (silent 2 USAGE_JUDGE []), log)
  end.
End Cli.

(** ** gate *)
Inductive Stop := Refused (e : CliError) | Uncaught.

Definition GATE_FLAGS : list text := [u "--diff"; u "--claims"; u "--tests"; u "--request"].
Definition usage_error : CliError := invalid (strip USAGE_GATE).

Fixpoint options_from (argv : list text) (options : dict text) : result CliError (dict text) :=
  match argv with
  | [] => Ok options
  | flag :: rest =>
    match rest with
    | [] => Raise usage_error
    | v :: rest' => if mem flag GATE_FLAGS then options_from rest' (dset (drop 2 flag) v options) else Raise usage_error
    end
  end.

(** [_gate_options]; the test for [--help] raises the same error as the loop. *)
Definition gate_options (argv : list text) : result CliError (dict text) :=
  let? options := options_from argv [] in
  if forallb (fun k => dhas k options) [u "diff"; u "claims"; u "tests"] then Ok options else Raise usage_error.

(** [_claims]. *)
Definition gate_claims (t : text) (request : option text) : result CliError (text * list text) :=
  let stripped := strip t in
  if starts_with (u "{") stripped then
    match decode_json stripped with
    | None => Raise (invalid (u "claims file was not JSON"))
    | Some (VDict parsed) =>
      match get (u "claims") parsed with
      | VList raw =>
        let claims := omap (fun v => match v with VStr (c :: cs) => Some (c :: cs) | _ => None end) raw in
        let found := match get (u "request") parsed with VStr r => Some r | _ => request end in
        match found, claims with
        | Some (r :: rs), _ :: _ => Ok (r :: rs, claims)
        | _, _ => Raise (invalid (u "claims file needs request and claims"))
        end
      | _ => Raise (invalid (u "claims file needs a claims array"))
      end
    | Some _ => Raise (invalid (u "claims file needs a claims array"))
    end
  else
    let claims := List.filter (fun line => negb (bool_decide (strip line = []))) (splitlines t) in
    match request, claims with
    | Some r, _ :: _ => if bool_decide (strip r = []) then Raise (invalid (u "plain claims need --request and one claim per line")) else Ok (r, claims)
    | _, _ => Raise (invalid (u "plain claims need --request and one claim per line"))
    end.

(** [str(Path(t))]. *)
Definition shown_path (t : text) : text := if is_absolute t then path_text (components t) else as_posix (components t).

Section Gate.
Context (w : World) (g : Git) (sha256 : list Z -> text).
(** Where the stored key is, before links are followed; [None] when the settings do not load. *)
Context (key_path : option Path).

Definition refused {A} (m : text) : result Stop A := Raise (Refused (invalid m)).
(** [Path.resolve]. *)
Definition resolved (p : Path) : result Stop Path := match resolve w p with Some p => Ok p | None => Raise Uncaught end.

Definition inside_repo (t : text) (repo key : Path) : result Stop Path :=
  let? p := resolved (join_path repo t) in
  if negb (is_relative_to p repo) then refused (u "refusing path outside the repo: " ++ shown_path t)
  else if bool_decide (p = key) then refused (u "refusing the key file")
  else if negb (is_file w p) then refused (u "not a file: " ++ shown_path t)
  else Ok p.

(** The bytes of a file and their text. *)
Definition read_file (p : Path) : result Stop (list Z * text) :=
  match read_bytes w p with
  | Ok data => match decode data with Some t => Ok (data, t) | None => refused (u "could not read a local file") end
  | Raise _ => refused (u "could not read a local file")
  end.

Definition git_refused {A} (r : result GitDiffError A) : result Stop A :=
  match r with Ok a => Ok a | Raise (GitFailed m | GitDiffTooLarge m) => refused m end.

(** [git_diff.repo_root]. *)
Definition repository : result Stop Path := let? t := git_refused (repo_root g (cwd w)) in resolved (join_path (cwd w) t).

Definition diff_value (diff : text + list FilePatch) : value :=
  match diff with
  | inl t => VStr t
  | inr files => VList ((fun f => VDict [(u "path", VStr (fp_path f)); (u "patch", VStr (fp_patch f))]) <$> files)
  end.

Definition CLI_EVIDENCE : value :=
  VList [VDict [(u "id", vs "cli"); (u "text", vs "Read by jev-judge-mcp gate from the local repo.")]].

Definition arguments_of (request : text) (diff : text + list FilePatch) (claims : list text) (tests : list Z * text) : dict value :=
  [(u "request", VStr request); (u "diff", diff_value diff); (u "claims", texts_value claims); (u "evidence", CLI_EVIDENCE);
   (u "tests", VStr tests.2); (u "tests_sha256", VStr (sha256 tests.1))].

(** [_gate_arguments]; [gate_options] has put the three keys there. *)
Definition gate_arguments (options : dict text) : result Stop (dict value) :=
  let option k := or_else (dget (u k) options) [] in
  let? repo := repository in
  let? key := match key_path with Some k => resolved k | None => Raise Uncaught end in
  let? claims_path := inside_repo (option "claims"%string) repo key in
  let? tests_path := inside_repo (option "tests"%string) repo key in
  let? claims_file := read_file claims_path in
  let? tests := read_file tests_path in
  let? (request, claims) := match gate_claims (universal_newlines claims_file.2) (dget (u "request") options) with
                            | Ok rc => Ok rc | Raise e => Raise (Refused e) end in
  let? diff := git_refused (diff_argument g repo (option "diff"%string) []) in
  Ok (arguments_of request diff claims tests).

Context (version : text) (tools : list JevTool) (rt : result exn Runtime).

(** [run_gate]; [None]: an exception that is no [CliError]. *)
Definition run_gate (argv : list text) (log : Log) : option Decision * Log :=
  match gate_options argv with
  | Raise e => (Some {| d_exit := cli_exit e; rendered := []; d_stderr := u "jev-judge-mcp gate: " ++ cli_message e ++ LF;
                        d_action := None; d_error_code := None; unresolved := true |}, log)
  | Ok options =>
    match gate_arguments options with
    | Raise (Refused e) => (failure version (cli_code e) (cli_message e) (u "jev_gate") (cli_exit e) VNone, log)
    | Raise Uncaught => (None, log)
    | Ok arguments => run_tool version tools rt (u "jev_gate") arguments log
    end
  end.

Definition gate_main (argv : list text) (log : Log) : option HookRun * Log :=
  let '(d, log') := run_gate argv log in (emit <$> d, log').

(** ** The completion hook *)
(** [completion_range]: [run] is the return code of [git diff --quiet], [None] when git does not start. *)
Definition RANGES : list text := [u "@{upstream}..HEAD"; u "HEAD~1..HEAD"; u "HEAD"].
Fixpoint first_range (run : text -> option Z) (candidates : list text) : option (option text) :=
  match candidates with
  | [] => Some (Some (u "HEAD"))
  | candidate :: rest =>
    code ← run candidate;
    if code =? 1 then Some (Some candidate) else if code =? 0 then Some None else first_range run rest
  end.
Definition completion_range (env : dict text) (run : text -> option Z) : option (option text) :=
  match dget (u "JEV_COMPLETION_DIFF") env with Some ((_ :: _) as explicit) => Some (Some explicit) | _ => first_range run RANGES end.

Definition command_from_hook_event (event : dict value) : text :=
  match get (u "tool_input") event with
  | VStr t => t
  | VDict tool_input =>
    match get (u "command") tool_input, get (u "cmd") tool_input with
    | VStr t, _ => t
    | _, VStr t => t
    | _, _ => []
    end
  | _ => []
  end.

Definition REACHED_PROVIDER : list text := [u "timeout"; u "quota"; u "provider"].

Definition gate_failure (required : bool) (error_code : option text) : HookRun :=
  let code_name := code_or_provider error_code in
  let message := u "error.code=" ++ code_name ++ LF in
  if required && negb (match error_code with Some c => mem c REACHED_PROVIDER | None => false end)
  then fail_open_or_ask true message code_name
  else silent 0 message [].

Definition completion_reason (action : option text) : text :=
  if bool_decide (action = Some (u "escalate")) then u "Jev completion hook: gate action is escalate."
  else if bool_decide (action = Some (u "review")) then u "Jev completion hook: gate action is review."
  else u "Jev completion hook: gate action is not auto.".
Definition completion_ask (action : option text) : text := Hook.render_decision Ask (completion_reason action).

Definition NOTHING_TO_GATE : text := u "jev-judge-mcp completion-hook: nothing to gate; the push sends no commits" ++ LF.

(** What follows a completion command. *)
Definition completion_gate (required : bool) (env : dict text) (run : text -> option Z) (log : Log) : option HookRun * Log :=
  match dget (u "JEV_COMPLETION_CLAIMS") env, dget (u "JEV_COMPLETION_TESTS") env with
  | Some ((_ :: _) as claims), Some ((_ :: _) as tests) =>
    match completion_range env run with
    | None => (None, log)
    | Some None => (Some (silent 0 NOTHING_TO_GATE []), log)
    | Some (Some diff) =>
      let '(d, log') := run_gate [u "--diff"; diff; u "--claims"; claims; u "--tests"; tests] log in
      (Some match d with
            | None => fail_open_or_ask required (u "error.code=provider" ++ LF) (u "provider")
            | Some d =>
              if negb (d_exit d =? 0) then gate_failure required (d_error_code d)
              else if bool_decide (d_action d = Some (u "auto")) then silent 0 [] []
              else says (completion_ask (d_action d)) []
            end, log')
    end
  | _, _ => (Some (fail_open_or_ask required (u "error.code=invalid_arguments" ++ LF) (u "invalid_arguments")), log)
  end.

(** [completion_hook_main]; [None] where an exception ends the process. *)
Definition completion_hook_main (argv : list text) (body : text) (env : dict text) (run : text -> option Z) (log : Log) : option HookRun * Log :=
  match argv with
  | _ :: _ => (Some (silent 2 (u "jev-judge-mcp completion-hook: usage: jev-judge-mcp completion-hook" ++ LF) []), log)
  | [] =>
    let required := hook_required (dget (u "JEV_HOOK_REQUIRED") env) in
    match decode_json body with
    | None => (Some (fail_open_or_ask required (u "error.code=invalid_arguments" ++ LF) (u "stdin was not hook-event JSON")), log)
    | Some (VDict event) =>
      if completion_matches (command_from_hook_event event) then completion_gate required env run log else (Some (silent 0 [] []), log)
    | Some _ => (Some (fail_open_or_ask required [] (u "stdin was not hook-event JSON")), log)
    end
  end.
End Gate.

(** ** Facts: which lines are gated *)
(** Git's options between [git] and the subcommand. *)
Inductive git_options : list text -> Prop :=
| git_options_nil : git_options []
| git_options_value o v rest : mem o GIT_OPTIONS_WITH_VALUE = true -> git_options rest -> git_options (o :: v :: rest)
| git_options_flag o rest : mem o GIT_OPTIONS_WITH_VALUE = false -> is_git_flag o = true -> git_options rest -> git_options (o :: rest).

(** A simple command that completes work. *)
Inductive completes : list text -> Prop :=
| completes_push options rest : git_options options -> completes (u "git" :: options ++ u "push" :: rest)
| completes_create rest : completes (u "gh" :: u "pr" :: u "create" :: rest)
| completes_merge rest : completes (u "gh" :: u "pr" :: u "merge" :: rest).

Lemma take_is {A} (p l : list A) : take (length p) l = p <-> exists rest, l = p ++ rest.
Proof.
  split; [|intros [rest ->]; apply take_app_length]. intros H. exists (drop (length p) l). by rewrite <- H at 1; rewrite take_drop.
Qed.

Lemma after_git_options_push rest tail_ : after_git_options rest = u "push" :: tail_ <-> exists options, rest = options ++ u "push" :: tail_ /\ git_options options.
Proof.
  split.
  - remember (length rest) as n eqn:En. revert rest En. induction n as [n IH] using lt_wf_ind. intros [|o rest] ->; [done|].
    cbn [after_git_options length]. destruct (mem o _) eqn:Ev; [|destruct (is_git_flag o) eqn:Ef].
    + destruct rest as [|v rest]; [done|]. intros H. destruct (IH (length rest) ltac:(cbn; lia) rest eq_refl H) as (options & -> & Ho).
      exists (o :: v :: options). split; [done|by constructor].
    + intros H. destruct (IH (length rest) ltac:(cbn; lia) rest eq_refl H) as (options & -> & Ho). exists (o :: options). split; [done|by constructor].
    + intros [= -> ->]. exists []. split; [done|constructor].
  - intros (options & -> & Ho). induction Ho as [|o v options Hv _ IH|o options Hv Hf _ IH]; cbn [app after_git_options].
    + done.
    + rewrite Hv. exact IH.
    + rewrite Hv, Hf. exact IH.
Qed.

Lemma is_completion_iff argv : is_completion_command argv = true <-> completes argv.
Proof.
  unfold is_completion_command. rewrite existsb_exists. split.
  - intros (prefix & Hp & H%bool_decide_eq_true). apply take_is in H as [rest H].
    destruct argv as [|first argv]; [by destruct Hp as [<-|[<-|[<-|[]]]]|].
    case_bool_decide as Hg.
    + subst first. destruct Hp as [<-|[<-|[<-|[]]]]; cbn [app] in H; try discriminate H.
      injection H as H. apply after_git_options_push in H as (options & -> & Ho). by constructor.
    + destruct Hp as [<-|[<-|[<-|[]]]]; cbn [app] in H; [congruence|rewrite H; constructor..].
  - intros [options rest Ho|rest|rest].
    + exists [u "git"; u "push"]. split; [by left|]. rewrite (bool_decide_eq_true_2 (u "git" = u "git")) by done. apply bool_decide_eq_true, take_is.
      exists rest. cbn [app]. f_equal. apply after_git_options_push. by exists options.
    + exists [u "gh"; u "pr"; u "create"]. split; [right; by left|]. done.
    + exists [u "gh"; u "pr"; u "merge"]. split; [do 2 right; by left|]. done.
Qed.

(** The simple commands of a line: its words between the operators. *)
Definition ends_command (i : Item) : bool := match i with Operator o => is_shell_operator o | _ => false end.
Fixpoint commands (items : list Item) : list (list text) :=
  match items with
  | [] => [[]]
  | i :: items' =>
    if ends_command i then [] :: commands items'
    else match commands items' with c :: cs => (item_text i :: c) :: cs | [] => [[item_text i]] end
  end.

(** No word of the line is written like an operator and quoted. *)
Definition plain_words (items : list Item) : Prop := Forall (fun i => is_shell_operator (item_text i) = ends_command i) items.

Lemma commands_some items : commands items <> [].
Proof. destruct items as [|i items]; [done|]. cbn [commands]. destruct (ends_command i); [done|]. by destruct (commands items). Qed.

Lemma matches_from_iff items : plain_words items -> forall argv,
  matches_from argv ((item_text <$> items) ++ [u ";"]) = true <->
  match commands items with c :: cs => completes (rev argv ++ c) \/ Exists completes cs | [] => False end.
Proof.
  assert (forall argv, match argv with [] => false | _ => is_completion_command (rev argv) end = true <-> completes (rev argv ++ [])) as Hdone.
  { intros argv. rewrite app_nil_r, <- is_completion_iff. by destruct argv. }
  induction 1 as [|i items Hi _ IH]; intros argv; cbn [fmap list_fmap app matches_from commands].
  - rewrite (eq_refl : is_shell_operator (u ";") = true), orb_false_r, Hdone. split; [by left|by intros [?|?%Exists_nil]].
  - rewrite Hi. destruct (ends_command i).
    + rewrite orb_true_iff, Hdone, IH. destruct (commands items) as [|c cs]; cbn [rev app]; [by rewrite Exists_nil|by rewrite Exists_cons].
    + rewrite IH. pose proof (commands_some items). destruct (commands items) as [|c cs]; [done|]. cbn [rev]. by rewrite <- app_assoc.
Qed.

(** The completion hook sees every completion command, and nothing else, on a line of words and
    operators.  For every line whose words are bare (letters, digits and the characters of file names)
    or quoted, with any operators between them, [completion_matches] holds exactly when one of the
    simple commands between the shell's operators is a [git push] behind any of git's global options, a
    [gh pr create] or a [gh pr merge]; quoted words are read for what they quote. *)
Theorem completion_matches_iff items : Forall proper items -> plain_words items ->
  completion_matches (line_of items) = true <-> Exists completes (commands items).
Proof.
  intros Hp Hw. unfold completion_matches. rewrite tokens_of_line by done. rewrite matches_from_iff by done.
  destruct (commands items) as [|c cs]; [by rewrite Exists_nil|]. by rewrite Exists_cons.
Qed.

Definition sample_line : list Item :=
  [Bare (u "cd"); Quoted (u "my repo"); Operator (u "&&"); Bare (u "git"); Bare (u "-C"); Quoted (u "it's"); Bare (u "push"); Operator (u ";"); Bare (u "ls")].

Lemma completion_matches_iff_witness : completion_matches (line_of sample_line) = true /\ Exists completes (commands sample_line).
Proof.
  assert (Forall proper sample_line) as Hp by (repeat constructor; try done).
  assert (plain_words sample_line) as Hw by (repeat constructor).
  assert (completion_matches (line_of sample_line) = true) as H by (vm_compute; reflexivity). split; [exact H|].
  exact (proj1 (completion_matches_iff sample_line Hp Hw) H).
Defined.

(** ** Facts: the decision of a payload is the tool's own *)
(** A headline as the decision reports it. *)
Definition reported_of (action : option Action) : Reported :=
  (action_text <$> action, negb (bool_decide (action = Some Auto))).

Lemma row_action_rows key rows p : get (u "results") p = VList (VDict <$> rows) ->
  row_action key p = reported_of (headline (caller_actions ((fun r => get (u key) r) <$> rows))).
Proof.
  intros H. unfold row_action, rows_in. rewrite H.
  assert (forall rows, omap dict_of (VDict <$> rows) = rows) as -> by (intros l; induction l as [|x l IH]; [done|]; cbn; by f_equal).
  destruct (caller_actions _) as [|a l]; [done|]. cbn [headline]. unfold reported_of. f_equal. f_equal. apply bool_decide_ext. split; [by intros ->|by intros [= ->]].
Qed.

Lemma top_action_value p a : get (u "action") p = action_value a -> top_action p = reported_of (Some a).
Proof. intros H. unfold top_action. rewrite H. by destruct a. Qed.

Lemma verify_agrees args rt log r log' : Verify.handle args rt log = (Ok r, log') -> row_action "action" (payload r) = reported_of (action r).
Proof.
  intros (ev & _ & ->)%Verify.verify_handle_Ok. unfold Verify.reply. cbn [payload action]. apply row_action_rows, frame_get; [|done|done|].
  - apply NoDup_dmerge. by apply keys_NoDup.
  - rewrite dget_dmerge_notin; [reflexivity|]. by intros ?%renamed_ids_field_keys.
Qed.

Lemma classify_agrees args rt log r log' : Classify.handle args rt log = (Ok r, log') -> row_action "decision" (payload r) = reported_of (action r).
Proof.
  unfold Classify.handle. intros (((items & classes) & l) & log1 & _ & (ev & log2 & _ & [= <- <-])%mbind_Ok)%mbind_Ok.
  cbn [payload action Classify.reply]. apply row_action_rows, frame_get; [by apply keys_NoDup|done|done|reflexivity].
Qed.

Lemma compare_agrees args rt log r log' : Compare.handle args rt log = (Ok r, log') -> compare_action (payload r) = reported_of (action r).
Proof.
  unfold Compare.handle. intros (ev & log1 & _ & [= <- <-])%mbind_Ok. unfold Compare.reply. cbn [payload action].
  set (overall := Compare.judge _ _ _). set (body := match Compare.warnings_of _ _ with [] => _ | _ => _ end).
  assert (get (u "overall") (frame (u "jev_compare") (Some ev) body None) = VDict overall) as Ho.
  { unfold body. destruct (Compare.warnings_of _ _); (apply frame_get; [|done|done|]);
      rewrite ?(dget_dset_ne (u "overall")) by done; try reflexivity; try apply NoDup_dset; by apply keys_NoDup. }
  unfold compare_action, field. rewrite Ho. cbn [dict_of].
  assert (exists a, get (u "decision") overall = action_value a /\ a <> Escalate) as (a & -> & Ha).
  { unfold overall, Compare.judge. destruct (Validation.validate_choice _ _); [|by exists Review].
    eexists. split; [reflexivity|]. unfold classification_decision. by destruct (_ && _). }
  by destruct a.
Qed.

Lemma project_review_keys answers settings cut : NoDup (dkeys (half_payload (project_review answers settings cut))).
Proof.
  unfold project_review. destruct (Validation.validate_noul _); [|by apply keys_NoDup].
  destruct (valid_scores answers) as [|? [|? [|? [|? [|? ?]]]]]; by apply keys_NoDup.
Qed.

Lemma weigh_keys b p : NoDup (dkeys p) -> NoDup (dkeys (Review.weigh b p)).
Proof. intros H. unfold Review.weigh. destruct b; [by apply NoDup_dset|done]. Qed.

Lemma weigh_get b p : dget (u "action") (Review.weigh b p) = dget (u "action") p.
Proof. unfold Review.weigh. destruct b; [by rewrite dget_dset_ne|done]. Qed.

Lemma dget_get k (d : dict value) v : get k d = v -> v <> VNone -> dget k d = Some v.
Proof. unfold get. destruct (dget k d); cbn; [by intros ->|by intros <-]. Qed.

Lemma action_value_some a : action_value a <> VNone.
Proof. done. Qed.

Lemma review_agrees args rt log r log' : Review.handle args rt log = (Ok r, log') -> top_action (payload r) = reported_of (action r).
Proof.
  unfold Review.handle. intros (settings & log1 & _ & H)%mbind_Ok. destruct (arg_diff args) as [diff|files].
  - apply mbind_Ok in H as (ev & log2 & _ & [= <- <-]). unfold Review.string_reply. destruct (Review.string_docs args diff) as [docs l].
    cbn [payload action]. set (half := project_review _ _ _).
    assert (dget (u "action") (Review.weigh (self_reported docs args) (half_payload half)) = Some (action_value (half_action half))) as Hd.
    { rewrite weigh_get. apply dget_get; [apply project_review_payload_action|done]. }
    apply top_action_value, frame_get; [|done|done|by apply dget_dmerge_has; [apply weigh_keys, project_review_keys|]].
    apply NoDup_dmerge. by apply keys_NoDup.
  - unfold Review.handle_file_list in H. apply mbind_Ok in H as (fs & log2 & _ & H). destruct (Files.file_list_refusal _ _); [done|].
    apply mbind_Ok in H as (reviewed & log3 & (evs & _ & _ & ->)%Files.review_file_list_Ok & [= <- <-]).
    set (rev_ := Files.fold_files _ _ _ _ _ _). unfold Review.file_list_reply.
    destruct (Files.halves rev_) as [|h hs] eqn:Eh.
    + cbn [payload action]. apply top_action_value, frame_get; [by apply keys_NoDup|done|done|reflexivity].
    + cbn [payload action]. apply top_action_value.
      assert (NoDup (dkeys (half_payload h))) as Hh.
      { unfold rev_ in Eh. cbn [Files.halves Files.fold_files] in Eh. destruct (combine _ _); [done|]. injection Eh as <- _. apply project_review_keys. }
      assert (NoDup (dkeys (Files.flr_review_half rev_ (file_list_action (half_action <$> h :: hs) (negb (bool_decide (Files.unreviewed rev_ = []))))))) as Hn.
      { unfold Files.flr_review_half. rewrite Eh. by repeat apply NoDup_dset. }
      apply frame_get; [|done|done|].
      * by apply weigh_keys, NoDup_dset, NoDup_dset, NoDup_dmerge, keys_NoDup.
      * rewrite weigh_get, !dget_dset_ne by done. apply dget_dmerge_has; [exact Hn|].
        unfold Files.flr_review_half. rewrite !dget_dset_ne by done. apply dget_dset_eq.
Qed.

Lemma gate_agrees args rt log r log' : Gate.handle args rt log = (Ok r, log') -> is_error r = false ->
  exists a, action r = Some a /\ get (u "action") (payload r) = action_value a.
Proof.
  unfold Gate.handle. intros (settings & log1 & _ & H)%mbind_Ok He.
  destruct (exceeds (Z.of_nat _) _); [by injection H as <- _|]. destruct (exceeds (sum_over _ _) _); [by injection H as <- _|].
  destruct (arg_diff (Gate.gate_review args)) as [diff|files].
  - unfold Gate.ask_gate in H. apply mbind_Ok in H as (ev & log2 & _ & (shape & log3 & _ & [= <- <-])%mbind_Ok).
    eexists. split; [reflexivity|]. cbn [payload]. apply frame_get; [apply Gate.gate_body_codes|done|done|]. unfold Gate.gate_body.
    rewrite dget_dmerge_notin; [reflexivity|]. by intros ?%renamed_ids_field_keys.
  - unfold Gate.handle_file_list in H. apply mbind_Ok in H as (fs & log2 & _ & H).
    destruct (Files.file_list_refusal _ _); [by injection H as <- _|].
    apply mbind_Ok in H as (reviewed & log3 & _ & H). destruct (Files.halves reviewed).
    + injection H as <- _. exists Review. split; [done|]. cbn [payload]. apply frame_get; [by apply keys_NoDup|done|done|reflexivity].
    + apply mbind_Ok in H as (ev & log4 & _ & (shape & log5 & _ & [= <- <-])%mbind_Ok).
      eexists. split; [reflexivity|]. cbn [payload]. apply frame_get; [apply Gate.list_body_codes|done|done|]. unfold Gate.list_body.
      rewrite dget_dmerge_notin; [|apply (bool_decide_unpack _); reflexivity]. rewrite dget_dmerge_notin; [reflexivity|]. by intros ?%renamed_ids_field_keys.
Qed.

Section Published.
Context {E : Matching.RegexExecutor} (translate : text -> text -> result text Matching.Translated).
Abbreviation TOOLS := (Definitions.TOOLS translate).

Definition HEADLINED : list text := [u "jev_verify"; u "jev_classify"; u "jev_compare"; u "jev_review"; u "jev_gate"].

(** The decision of the command line is the decision of the tool.  For the tools whose rows or payload
    carry actions, the action and the [unresolved] flag that [judge] and [gate] report, read back out
    of the payload's JSON, are the headline the handler itself computed: the same action, and resolved
    exactly when that is [auto].  It holds for every call that answers, valid rows or not. *)
Theorem decision_is_headline (t : Definitions.Tool) (args : Definitions.t_args t) rt log r log' :
  t ∈ TOOLS -> Definitions.t_name t ∈ HEADLINED ->
  Definitions.t_handle t args rt log = (Ok r, log') -> is_error r = false ->
  decision (Definitions.t_name t) (payload r) = reported_of (action r).
Proof.
  intros Ht Hn Hh He. unfold Definitions.TOOLS in Ht.
  repeat (apply elem_of_cons in Ht as [->|Ht]; [revert args Hn Hh; cbn [Definitions.tool Definitions.t_name Definitions.t_args Definitions.t_handle]; intros args Hn Hh;
    first [exact (verify_agrees _ _ _ _ _ Hh)|exact (classify_agrees _ _ _ _ _ Hh)|exact (compare_agrees _ _ _ _ _ Hh)|exact (review_agrees _ _ _ _ _ Hh)
          |destruct (gate_agrees _ _ _ _ _ Hh He) as (a & -> & Ha); exact (top_action_value _ _ Ha)
          |exfalso; revert Hn; apply (bool_decide_eq_false_1 _); vm_compute; reflexivity]|]).
  by apply elem_of_nil in Ht.
Qed.

(** A call of the kernel that ends without an error is the handler's result. *)
Lemma execute_answers tools t rt record log o log' :
  Definitions.toolset TOOLS = Ok tools -> t ∈ TOOLS ->
  execute tools rt (Definitions.t_name t) (Some record) log = (o, log') -> out_is_error o = false ->
  exists d args r, Definitions.t_read t d = Some args /\ Definitions.t_handle t args rt log = (Ok r, log') /\ is_error r = false /\ o = from_result r.
Proof.
  intros Hb Ht. destruct (Definitions.toolset_find _ _ _ Hb (Definitions.tool_names translate) Ht) as (jt & Hj & Hf).
  apply rbind_Ok in Hj as (ps & _ & [= <-]). unfold execute. rewrite Hf. cbn [tool_properties tool_handler].
  destruct (parse_call _ _ _) as [d|e]; [|by intros [= <- _]].
  unfold Definitions.handler. destruct (Definitions.t_read t d) as [args|] eqn:Er; [|by intros [= <- _]].
  destruct (Definitions.t_handle t args rt log) as [[r|e] log1] eqn:Eh; [|by intros [= <- _]].
  intros [= <- <-] Ho. exists d, args, r. by split_and!.
Qed.
End Published.

(** ** Facts: the gate from the command line *)
Section Commands.
Context (w : World) (g : Git) (sha256 : list Z -> text) (key_path : option Path) (version : text).

(** A file of the repository, links followed, that is not the stored key. *)
Definition local_file (t : text) (repo : Path) (data : list Z) (content : text) : Prop :=
  exists p key k rest, resolve w (join_path repo t) = Some p /\ p = repo ++ rest /\ is_file w p = true /\
    key_path = Some key /\ resolve w key = Some k /\ p <> k /\ read_bytes w p = Ok data /\ decode data = Some content.

Lemma read_local t repo key k p data content :
  key_path = Some key -> resolve w key = Some k ->
  inside_repo w t repo k = Ok p -> read_file w p = Ok (data, content) -> local_file t repo data content.
Proof.
  intros Hk Hr. unfold inside_repo, resolved. destruct (resolve w (join_path repo t)) as [p'|] eqn:Ep; [|done]. cbn [rbind].
  destruct (is_relative_to p' repo) eqn:Ei; [|done]. cbn [negb]. case_bool_decide as Ek; [done|]. destruct (is_file w p') eqn:Ef; [|done].
  cbn [negb]. intros [= <-]. unfold read_file. destruct (read_bytes w p') as [bytes|] eqn:Eb; [|done].
  destruct (decode bytes) as [t'|] eqn:Ed; [|done]. intros [= -> ->]. apply is_relative_to_spec in Ei as [rest ->].
  exists (repo ++ rest), key, k, rest. by split_and!.
Qed.

(** What [gate] hands to jev_gate. *)
Inductive gathered (options : dict text) : dict value -> Prop :=
| gathered_from repo claims_bytes claims_text tests_bytes tests_text request claims diff :
    repository w g = Ok repo ->
    local_file (or_else (dget (u "claims") options) []) repo claims_bytes claims_text ->
    local_file (or_else (dget (u "tests") options) []) repo tests_bytes tests_text ->
    gate_claims (universal_newlines claims_text) (dget (u "request") options) = Ok (request, claims) ->
    diff_argument g repo (or_else (dget (u "diff") options) []) [] = Ok diff ->
    gathered options (arguments_of sha256 request diff claims (tests_bytes, tests_text)).

Lemma git_refused_Ok {A} (r : result GitDiffError A) a : git_refused r = Ok a -> r = Ok a.
Proof. destruct r as [a'|[m|m]]; cbn; [by intros [= ->]|done..]. Qed.

Lemma gate_arguments_gathered options arguments : gate_arguments w g sha256 key_path options = Ok arguments -> gathered options arguments.
Proof.
  unfold gate_arguments. intros (repo & Hrepo & (k & Hk & H)%rbind_Ok)%rbind_Ok.
  destruct key_path as [key|] eqn:Ekey; [|done]. unfold resolved in Hk. destruct (resolve w key) as [k'|] eqn:Er; [|done]. injection Hk as ->.
  apply rbind_Ok in H as (cp & Hcp & (tp & Htp & ((cb & ct) & Hcf & ((tb & tt_) & Htf & ((request & claims) & Hc & (diff & Hd & [= <-])%rbind_Ok)%rbind_Ok)%rbind_Ok)%rbind_Ok)%rbind_Ok).
  apply git_refused_Ok in Hd. destruct (gate_claims _ _) as [rc|] eqn:Eg; [|done]. injection Hc as ->.
  eapply gathered_from; [exact Hrepo| | |exact Eg|exact Hd]; (eapply read_local; [exact Ekey|exact Er|eassumption|eassumption]).
Qed.

Context (tools : list JevTool) (rt : result exn Runtime).

Lemma failure_fields code message tool code_ p d : failure version code message tool code_ p = Some d ->
  d_exit d = code_ /\ d_action d = None /\ d_error_code d = Some code /\ unresolved d = true.
Proof. unfold failure. destruct (render_decision _ _ _ _ _ _ _ _ _); [|done]. by intros [= <-]. Qed.

(** A call that exits with 0 answered. *)
Lemma run_tool_answers name arguments log d log' : run_tool version tools rt name arguments log = (Some d, log') -> d_exit d = 0 ->
  exists rt' o p, rt = Ok rt' /\ execute tools rt' name (Some arguments) log = (o, log') /\ out_is_error o = false /\
    p = or_else (out_payload o) [(u "text", VStr (out_text o))] /\ (d_action d, unresolved d) = reported name o p.
Proof.
  unfold run_tool. destruct (negb _); [intros [(-> & _)%failure_fields _]%pair_eq; done|].
  destruct rt as [rt'|e]; [|intros [(-> & _)%failure_fields _]%pair_eq; done].
  destruct (execute tools rt' name (Some arguments) log) as [o l] eqn:Ex. intros [Hr <-]%pair_eq H0. unfold report in Hr.
  destruct (out_is_error o) eqn:Eo; [apply failure_fields in Hr as (Hr & _); congruence|].
  destruct (confidence _) as [c|]; [|done]. cbn in Hr. unfold success in Hr. destruct (render_decision _ _ _ _ _ _ _ _ _); [|done].
  injection Hr as <-. exists rt', o, (or_else (out_payload o) [(u "text", VStr (out_text o))]). split_and!; try done. exact (eq_sym (surjective_pairing _)).
Qed.
End Commands.

(** ** Facts: the completion hook *)
(** The kernel's tools are the published ones. *)
Record registered {E : Matching.RegexExecutor} (translate : text -> text -> result text Matching.Translated) (tools : list JevTool) : Prop :=
  { registered_tools : Definitions.toolset (Definitions.TOOLS translate) = Ok tools }.

Section Completion.
Context {E : Matching.RegexExecutor} (translate : text -> text -> result text Matching.Translated).
Context (w : World) (g : Git) (sha256 : list Z -> text) (key_path : option Path) (version : text) (tools : list JevTool) (rt : result exn Runtime).
Context (Htools : registered translate tools).
Abbreviation hook := (completion_hook_main w g sha256 key_path version tools rt).

(** The gate ran over what the repository holds, and said auto. *)
Definition gate_said_auto (options : dict text) (log log' : Log) : Prop :=
  exists rt' arguments d args r,
    rt = Ok rt' /\ gathered w g sha256 key_path options arguments /\
    execute tools rt' (u "jev_gate") (Some arguments) log = (from_result r, log') /\
    Definitions.gate_args d = Some args /\ Gate.handle args rt' log = (Ok r, log') /\ is_error r = false /\ action r = Some Auto.

Lemma run_gate_auto argv log d log' : run_gate w g sha256 key_path version tools rt argv log = (Some d, log') -> d_exit d = 0 -> d_action d = Some (u "auto") ->
  exists options, gate_options argv = Ok options /\ gate_said_auto options log log'.
Proof.
  unfold run_gate. destruct (gate_options argv) as [options|e]; [|by intros [[= <-] _]%pair_eq].
  destruct (gate_arguments w g sha256 key_path options) as [arguments|[e|]] eqn:Ea; [|intros [(_ & -> & _)%failure_fields _]%pair_eq; done|by intros [? _]%pair_eq].
  intros Hr H0. apply run_tool_answers in Hr as (rt' & o & p & Hrt & Hx & Ho & -> & Hrep); [|done].
  intros Hauto. exists options. split; [done|].
  assert (Definitions.tool "jev_gate" Definitions.GATE_SCHEMA [(u "evidence", Definitions.EVIDENCE_NOT_EMPTY)] Definitions.gate_args Gate.handle ∈ Definitions.TOOLS translate) as Hin.
  { unfold Definitions.TOOLS. do 9 right. left. }
  destruct (execute_answers translate tools _ rt' arguments log o log' (registered_tools _ _ Htools) Hin Hx Ho) as (d' & args & r & Hd & Hh & He & ->).
  exists rt', arguments, d', args, r. split_and!; try done; [by apply gate_arguments_gathered|].
  destruct (gate_agrees _ _ _ _ _ Hh He) as (a & Ha & Hp). rewrite Ha. f_equal.
  apply (f_equal fst) in Hrep. cbn [fst] in Hrep. rewrite Hauto in Hrep. unfold reported in Hrep.
  rewrite bool_decide_eq_false_2 in Hrep by done. cbn [from_result out_payload or_else] in Hrep.
  change (decision (u "jev_gate") (payload r)) with (top_action (payload r)) in Hrep. rewrite (top_action_value _ _ Hp) in Hrep.
  by destruct a.
Qed.

(** What a hook may leave: nothing on its output, or a question to the user. *)
Definition asks_or_silent (h : HookRun) : Prop :=
  exit_code h = 0 /\ (out h = [] \/ exists reason, out h = Hook.render_decision Ask reason ++ LF).

Lemma fail_open_quiet required note reason : asks_or_silent (fail_open_or_ask required note reason).
Proof. unfold fail_open_or_ask. destruct required; (split; [done|]); [right; by eexists|by left]. Qed.

Lemma says_loud line : out (says line []) <> [].
Proof. unfold says. cbn. by destruct line. Qed.

(** Why a hook that must ask was silent about a completion command. *)
Inductive earned (env : dict text) (run : text -> option Z) (log : Log) (h : HookRun) (log' : Log) : Prop :=
| earned_nothing : completion_range env run = Some None -> log' = log -> earned env run log h log'
| earned_reached code : code ∈ REACHED_PROVIDER -> err h = u "error.code=" ++ code ++ LF -> earned env run log h log'
| earned_auto claims tests diff options :
    dget (u "JEV_COMPLETION_CLAIMS") env = Some claims -> dget (u "JEV_COMPLETION_TESTS") env = Some tests ->
    completion_range env run = Some (Some diff) ->
    gate_options [u "--diff"; diff; u "--claims"; claims; u "--tests"; tests] = Ok options ->
    gate_said_auto options log log' -> earned env run log h log'.

Lemma completion_gate_earned required env run log h log' :
  completion_gate w g sha256 key_path version tools rt required env run log = (Some h, log') ->
  asks_or_silent h /\ (required = true -> out h = [] -> earned env run log h log').
Proof.
  assert (forall note reason, asks_or_silent (fail_open_or_ask required note reason) /\
    (required = true -> out (fail_open_or_ask required note reason) = [] -> earned env run log (fail_open_or_ask required note reason) log')) as Hfail.
  { intros note reason. split; [apply fail_open_quiet|]. intros -> H. by apply says_loud in H. }
  unfold completion_gate. destruct (dget (u "JEV_COMPLETION_CLAIMS") env) as [[|c cs]|] eqn:Ec; [intros [[= <-] _]%pair_eq; apply Hfail| |intros [[= <-] _]%pair_eq; apply Hfail].
  destruct (dget (u "JEV_COMPLETION_TESTS") env) as [[|t ts]|] eqn:Et; [intros [[= <-] _]%pair_eq; apply Hfail| |intros [[= <-] _]%pair_eq; apply Hfail].
  destruct (completion_range env run) as [[diff|]|] eqn:Er; [| |by intros [? _]%pair_eq].
  2:{ intros [[= <-] <-]%pair_eq. split; [split; [done|by left]|]. intros _ _. by apply earned_nothing. }
  destruct (run_gate w g sha256 key_path version tools rt _ log) as [[d|] l] eqn:Eg; [|intros [[= <-] _]%pair_eq; apply Hfail].
  intros [Hh ->]%pair_eq. destruct (d_exit d =? 0) eqn:E0; cbn [negb] in Hh.
  - apply Z.eqb_eq in E0. case_bool_decide as Ha.
    + injection Hh as <-. split; [split; [done|by left]|]. intros _ _.
      destruct (run_gate_auto _ _ _ _ Eg E0 Ha) as (options & Ho & Hs). by eapply earned_auto.
    + injection Hh as <-. split; [split; [done|right; by eexists]|]. intros _ H. by apply says_loud in H.
  - injection Hh as <-. unfold gate_failure. destruct (required && negb _) eqn:Ef.
    + split; [apply fail_open_quiet|]. intros _ H. by apply says_loud in H.
    + split; [split; [done|by left]|]. intros -> _. cbn [andb] in Ef. apply negb_false_iff in Ef. destruct (d_error_code d) as [code|]; [|done].
      apply mem_spec in Ef. apply (earned_reached _ _ _ _ _ code); [done|]. destruct code; [|done]. exfalso. revert Ef. apply (bool_decide_eq_false_1 ([] ∈ REACHED_PROVIDER)). vm_compute. done.
Qed.

(** C8 The silence of the completion hook is earned, end to end.  A run of the hook exits with 0 and prints
    nothing or one question to the user, never an allow, and without a completion command it makes no
    request.  Under [JEV_HOOK_REQUIRED=1] it prints nothing only if its event is an object and either its
    command completes nothing, or the push sends no commits, or the gate failed with a code of
    [REACHED_PROVIDER] and standard error has it, or jev_gate itself decided [auto]: its handler ran on
    the range of this push, on a claims file and a tests log that are regular files of the repository,
    links followed and the stored key excluded, with the hash of the bytes that were read. *)
Theorem completion_silence_earned body env run log h log' :
  hook [] body env run log = (Some h, log') ->
  asks_or_silent h /\
  (hook_required (dget (u "JEV_HOOK_REQUIRED") env) = true -> out h = [] ->
   exists event, decode_json body = Some (VDict event) /\
     ((completion_matches (command_from_hook_event event) = false /\ log' = log) \/
      (completion_matches (command_from_hook_event event) = true /\ earned env run log h log'))) /\
  (forall event, decode_json body = Some (VDict event) -> completion_matches (command_from_hook_event event) = false -> out h = [] /\ log' = log).
Proof.
  set (goal := asks_or_silent h /\ _).
  assert (forall note reason, decode_json body = None \/ (exists v, decode_json body = Some v /\ forall event, v <> VDict event) ->
    (Some (fail_open_or_ask (hook_required (dget (u "JEV_HOOK_REQUIRED") env)) note reason), log) = (Some h, log') -> goal) as Hfail.
  { intros note reason Hb [Hh _]%pair_eq. injection Hh as <-. split; [apply fail_open_quiet|]. split; [intros -> H; by apply says_loud in H|].
    intros event He. destruct Hb as [Hb|(v & Hv & Hn)]; [congruence|]. rewrite Hv in He. injection He as ->. by edestruct Hn. }
  unfold completion_hook_main. destruct (decode_json body) as [v|]; [|apply Hfail; by left].
  destruct v as [|b|z|f|t|l|event]; try (apply Hfail; right; eexists; split; [reflexivity|discriminate]).
  clear Hfail. destruct (completion_matches (command_from_hook_event event)) eqn:Em.
  - intros [Hq He]%completion_gate_earned. split; [done|]. split; [|intros event' [= <-]; rewrite Em; discriminate].
    intros Hr Hs. exists event. split; [done|]. right. auto.
  - intros [Hh <-]%pair_eq. injection Hh as <-. split; [split; [done|by left]|]. split; [|by intros event' _].
    intros _ _. exists event. split; [done|]. by left.
Qed.
End Completion.

(** ** Samples *)
Definition sample_tools : list JevTool :=
  match Definitions.toolset (Definitions.TOOLS (E := Matching.digit_executor) Extract.sample_translate) with Ok tools => tools | Raise _ => [] end.
Lemma sample_registered : registered (E := Matching.digit_executor) Extract.sample_translate sample_tools.
Proof.
  constructor. unfold sample_tools. destruct (Definitions.toolset_builds (E := Matching.digit_executor) Extract.sample_translate) as [tools ->]. reflexivity.
Qed.

Definition sample_claims : text := stringify_compact (VDict [(u "request", vs "rename a to b"); (u "claims", VList [vs "a is renamed to b"; VInt 3; vs ""])]).
Definition sample_repo : World :=
  files_world [u "srv"] [([u "srv"; u "claims.json"], sample_claims); ([u "srv"; u "tests.log"], u "ok"); ([u "key"], u "k")].
Definition sample_repo_git : Git :=
  {| git := fun _ args => Some (0, if mem (u "--show-toplevel") args then u "/srv" else u "abc");
     git_diff_bytes := fun _ _ => Some {| run_code := 0; run_stdout := sample_patch ++ LF |} |}.
Definition sample_environ : dict text :=
  [(u "JEV_COMPLETION_CLAIMS", u "claims.json"); (u "JEV_COMPLETION_TESTS", u "/srv/./tests.log"); (u "JEV_HOOK_REQUIRED", u "1")].
Definition sample_event (command : string) : text := stringify_compact (VDict [(u "tool_input", VDict [(u "command", vs command)])]).
Definition sample_gate_answers : dict value :=
  review_replies ++ [(u "claim_0", choice_reply "verified" [("verified", 90); ("contradicted", 5); ("unsupported", 5)] 95);
                     (u "source_0", choice_reply "diff" [("cli", 10); ("diff", 85); ("tests", 3); ("none", 2)] 90)].
Definition sample_hook (environ : dict text) (range : Z) (answers : result exn (dict value)) (body : text) : option HookRun * Log :=
  completion_hook_main sample_repo sample_repo_git (fun _ => u "hash") (Some [u "key"]) (u "1.0") sample_tools
    (match answers with Ok a => Ok (sample_runtime a) | Raise e => Raise e end) [] body environ (fun _ => Some range) [].

Definition asked_reason (r : option HookRun * Log) : option (text * text * nat) := (fun h => (out h, err h, length r.2)) <$> r.1.

(** A push the gate accepts, one that sends nothing, one without a provider, a path out of the
    repository, and a command that is no completion. *)
Example hook_runs : asked_reason <$>
  [sample_hook sample_environ 1 (Ok sample_gate_answers) (sample_event "cd /srv && git push");
   sample_hook sample_environ 0 (Ok sample_gate_answers) (sample_event "git push");
   sample_hook sample_environ 1 (Raise (ProviderConfigError (u "no key"))) (sample_event "git push");
   sample_hook (dset (u "JEV_COMPLETION_TESTS") (u "../etc/log") sample_environ) 1 (Ok sample_gate_answers) (sample_event "git push");
   sample_hook sample_environ 1 (Ok sample_gate_answers) (sample_event "git status")] =
  [Some ([], [], 1%nat); Some ([], NOTHING_TO_GATE, 0%nat);
   Some (Hook.render_decision Ask (ask_reason (u "auth")) ++ LF, [], 0%nat);
   Some (Hook.render_decision Ask (ask_reason (u "invalid_arguments")) ++ LF, [], 0%nat); Some ([], [], 0%nat)].
Proof. vm_compute. reflexivity. Qed.

(** The silence about a push is the gate's auto. *)
Lemma completion_silence_earned_witness :
  let '(r, log') := sample_hook sample_environ 1 (Ok sample_gate_answers) (sample_event "cd /srv && git push") in
  exists h, r = Some h /\ out h = [] /\ earned sample_repo sample_repo_git (fun _ => u "hash") (Some [u "key"])
    sample_tools (Ok (sample_runtime sample_gate_answers)) sample_environ (fun _ => Some 1) [] h log'.
Proof.
  destruct (sample_hook sample_environ 1 (Ok sample_gate_answers) (sample_event "cd /srv && git push")) as [r log'] eqn:Er.
  assert (exists h, r = Some h /\ out h = []) as (h & -> & Ho).
  { apply (f_equal fst) in Er. cbn [fst] in Er. subst r. eexists. split; vm_compute; reflexivity. }
  exists h. split; [reflexivity|]. split; [exact Ho|]. unfold sample_hook in Er.
  destruct (completion_silence_earned (E := Matching.digit_executor) Extract.sample_translate _ _ _ _ _ _ _ sample_registered _ _ _ _ _ _ Er) as (_ & H & _).
  destruct (H eq_refl Ho) as (event & He & [[Hm _]|[_ Hc]]); [|exact Hc].
  exfalso. assert (decode_json (sample_event "cd /srv && git push") = Some (VDict event)) as He' by exact He. vm_compute in He'. injection He' as <-. vm_compute in Hm. discriminate Hm.
Defined.

Lemma decision_is_headline_witness : exists r log',
  Verify.handle Verify.sample_args (sample_runtime Verify.sample_answers) [] = (Ok r, log') /\ decision (u "jev_verify") (payload r) = reported_of (action r).
Proof.
  destruct (ok_result_Ok (Verify.handle Verify.sample_args (sample_runtime Verify.sample_answers) [])) as (r & log' & Hh); [vm_compute; reflexivity|].
  exists r, log'. split; [exact Hh|].
  refine (decision_is_headline (E := Matching.digit_executor) Extract.sample_translate
    (Definitions.tool "jev_verify" Definitions.VERIFY_SCHEMA [] Definitions.verify_args Verify.handle) Verify.sample_args _ _ _ _ _ _ Hh _).
  - left.
  - left.
  - destruct (Verify.verify_handle_Ok _ _ _ _ _ Hh) as (ev & _ & ->). reflexivity.
Defined.
