(* ===== verification/Identity.v ===== *)
(** * The build identity

    Models [identity.py]: the version a process reports, from the installed version and the files of the
    checkout it may run from: the manifest above the module, the git directories, loose and packed refs,
    and annotated tags.  [tomllib], [zlib], the installed version and the file system are parameters. *)
From S2P Require Import Prelude Json PyStrings Utf8 Paths.

Open Scope Z_scope.

Definition DISTRIBUTION : text := u "jev-judge-mcp".
Definition SHORT_SHA : nat := 7.
Definition MAX_REF_DEPTH : nat := 8.
Definition INSTALLED_DIRS : list text := [u "site-packages"; u "dist-packages"].

(** [_SHA.fullmatch]. *)
Definition is_hex (c : Z) : bool := ((48 <=? c) && (c <=? 57)) || ((97 <=? c) && (c <=? 102)).
Definition is_sha (t : text) : bool := forallb is_hex t && ((length t =? 40) || (length t =? 64))%nat.

(** [UnicodeDecodeError] of a read, or the [ValueError] of a path with a NUL: nothing here catches them. *)
Inductive Escape := Escapes.

Section Identity.
Context {U : Unicode} (w : World) (loads : text -> option value) (decompress : list Z -> option (list Z)) (installed : text).

Abbreviation R A := (result Escape A).

(** [read_text(encoding="utf-8")]; [None] is an [OSError]. *)
Definition read_text (p : Path) : R (option text) :=
  match read_bytes w p with
  | Raise _ => Ok None
  | Ok data => match decode data with Some t => Ok (Some (universal_newlines t)) | None => Raise Escapes end
  end.
Definition resolved (p : Path) : R Path := match resolve w p with Some p => Ok p | None => Raise Escapes end.

(** ** The checkout *)
(** [path.parents]. *)
Fixpoint parents_of (n : nat) (p : Path) : list Path := match n with O => [] | S n' => take n' p :: parents_of n' p end.
Definition parents (p : Path) : list Path := parents_of (length p) p.

Definition project_name (manifest : value) : value :=
  match manifest with VDict d => match get (u "project") d with VDict p => get (u "name") p | _ => VNone end | _ => VNone end.

Fixpoint first_manifest (candidates : list Path) : R (option Path) :=
  match candidates with
  | [] => Ok None
  | parent :: rest =>
    if mem (path_name parent) INSTALLED_DIRS then Ok None
    else
      let manifest := parent ++ [u "pyproject.toml"] in
      if negb (is_file w manifest) then first_manifest rest
      else
        let? t := read_text manifest in
        match t ≫= loads with
        | Some loaded => Ok (if is_str DISTRIBUTION (project_name loaded) then Some parent else None)
        | None => Ok None
        end
  end.

Definition source_root (start : Path) : R (option Path) :=
  let? origin := resolved start in
  first_manifest (if is_dir w origin then origin :: parents origin else parents origin).

(** ** The git directories *)
Definition first_line (t : text) : text :=
  or_else (head (List.filter (fun l => negb (bool_decide (l = []))) (strip <$> splitlines t))) [].

Definition git_dirs (root : Path) : R (option (Path * Path)) :=
  let marker := root ++ [u ".git"] in
  if is_dir w marker then Ok (Some (marker, marker))
  else if negb (is_file w marker) then Ok None
  else
    let? t := read_text marker in
    match t with
    | None => Ok None
    | Some t =>
      let line := first_line t in
      if negb (starts_with (u "gitdir:") line) then Ok None
      else
        match strip (drop 7 line) with
        | [] => Ok None
        | raw =>
          let? git_dir := resolved (join_path root raw) in
          let common_file := git_dir ++ [u "commondir"] in
          if negb (is_file w common_file) then Ok (Some (git_dir, git_dir))
          else
            let? t := read_text common_file in
            match strip <$> t with
            | None | Some [] => Ok (Some (git_dir, git_dir))
            | Some rel => let? common := resolved (join_path git_dir rel) in Ok (Some (git_dir, common))
            end
        end
    end.

(** ** Refs *)
Definition bases (git_dir common : Path) : list Path := if bool_decide (git_dir = common) then [git_dir] else [git_dir; common].

Definition ref_name_ok (name : text) : bool :=
  match name with
  | [] => false
  | c :: _ => negb ((c =? SLASH) || (c =? 92)) && negb (mem (u "..") (split_char SLASH name)) && negb (mem (u ".") (split_char SLASH name))
  end.

(** The sha after [name] in the lines of [packed-refs], peeled by the line behind it. *)
Fixpoint packed_sha (name : text) (lines : list text) : option text :=
  match lines with
  | [] => None
  | line :: rest =>
    if bool_decide (line = []) || starts_with (u "#") line || starts_with (u "^") line then packed_sha name rest
    else
      match words line with
      | [sha; n] =>
        if bool_decide (n = name) then
          let sha := uni_lower sha in
          if negb (is_sha sha) then None
          else
            match rest with
            | (94 :: peeled) :: _ => let peeled := uni_lower (strip peeled) in Some (if is_sha peeled then peeled else sha)
            | _ => Some sha
            end
        else packed_sha name rest
      | _ => packed_sha name rest
      end
  end.

Definition packed_ref (base : Path) (name : text) : R (option text) :=
  let p := base ++ [u "packed-refs"] in
  if negb (is_file w p) then Ok None
  else let? t := read_text p in Ok (t ≫= fun t => packed_sha name (splitlines t)).

Fixpoint first_packed (bs : list Path) (name : text) : R (option text) :=
  match bs with
  | [] => Ok None
  | base :: rest => let? found := packed_ref base name in match found with Some sha => Ok (Some sha) | None => first_packed rest name end
  end.

(** The loose ref a name has, if any: the first base with a file of that name. *)
Inductive Loose := NoRef | Unreadable | Direct (sha : option text) | Symbolic (target : text).

Fixpoint loose_ref (bs : list Path) (name : text) : R Loose :=
  match bs with
  | [] => Ok NoRef
  | base :: rest =>
    let p := join_path base name in
    if negb (is_file w p) then loose_ref rest name
    else
      let? t := read_text p in
      Ok match strip <$> t with
         | None => Unreadable
         | Some t =>
           if starts_with (u "ref:") t then Symbolic (strip (drop 4 t))
           else let lowered := uni_lower t in Direct (if is_sha lowered then Some lowered else None)
         end
  end.

(** [_resolve_ref]: [more] counts the depths left, [MAX_REF_DEPTH] and one at first. *)
Fixpoint resolve_ref (more : nat) (bs : list Path) (name : text) : R (option text) :=
  match more with
  | O => Ok None
  | S more' =>
    if negb (ref_name_ok name) then Ok None
    else
      let? found := loose_ref bs name in
      match found with
      | Symbolic target => resolve_ref more' bs target
      | Direct sha => Ok sha
      | Unreadable => Ok None
      | NoRef => first_packed bs name
      end
  end.

(** ** Annotated tags *)
(** [bytes.splitlines]. *)
Fixpoint byte_lines_from (line : list Z) (data : list Z) : list (list Z) :=
  match data with
  | [] => match line with [] => [] | _ => [rev line] end
  | 13 :: 10 :: rest => rev line :: byte_lines_from [] rest
  | c :: rest => if (c =? 10) || (c =? 13) then rev line :: byte_lines_from [] rest else byte_lines_from (c :: line) rest
  end.

(** [decode("ascii", "replace")]. *)
Definition decode_ascii (data : list Z) : text := (fun b => if b <? 128 then b else REPLACEMENT) <$> data.

Fixpoint after_nul (data : list Z) : option (list Z) :=
  match data with [] => None | c :: rest => if c =? 0 then Some rest else after_nul rest end.

Definition tag_target (raw : list Z) : option text :=
  if negb (starts_with (u "tag ") raw) then None
  else
    body ← after_nul raw;
    line ← List.find (starts_with (u "object ")) (byte_lines_from [] body);
    let target := uni_lower (strip (decode_ascii (drop 7 line))) in
    if is_sha target then Some target else None.

Definition loose_object (sha : text) (base : Path) : option (list Z) :=
  let p := base ++ [u "objects"; take 2 sha; drop 2 sha] in
  if negb (is_file w p) then None else match read_bytes w p with Ok data => decompress data | Raise _ => None end.

Fixpoint first_object (bs : list Path) (sha : text) : option (list Z) :=
  match bs with [] => None | base :: rest => match loose_object sha base with Some raw => Some raw | None => first_object rest sha end end.

Fixpoint peel (steps : nat) (bs : list Path) (sha : text) : text :=
  match steps with
  | O => sha
  | S steps' => match first_object bs sha ≫= tag_target with Some target => peel steps' bs target | None => sha end
  end.

(** ** The version *)
Definition reported_version (start : Path) : R text :=
  let? root := source_root start in
  match root with
  | None => Ok installed
  | Some root =>
    let? dirs := git_dirs root in
    match dirs with
    | None => Ok installed
    | Some (git_dir, common) =>
      let bs := bases git_dir common in
      let? head := resolve_ref (S MAX_REF_DEPTH) bs (u "HEAD") in
      match head with
      | None => Ok installed
      | Some sha =>
        let? tag := resolve_ref (S MAX_REF_DEPTH) bs (u "refs/tags/v" ++ installed) in
        Ok (if bool_decide (peel 4 bs <$> tag = Some sha) then installed else installed ++ u "+g" ++ take SHORT_SHA sha)
      end
    end
  end.
End Identity.

(** ** Facts *)
Section Facts.
Context {U : Unicode}.
Implicit Types w : World.

(** What [name] names within [n] symbolic links: a loose ref before a packed one. *)
Inductive ref_names (w : World) (bs : list Path) : nat -> text -> text -> Prop :=
| names_loose n name sha : ref_name_ok name = true -> loose_ref w bs name = Ok (Direct (Some sha)) -> ref_names w bs n name sha
| names_packed n name sha :
    ref_name_ok name = true -> loose_ref w bs name = Ok NoRef -> first_packed w bs name = Ok (Some sha) -> ref_names w bs n name sha
| names_symbolic n name target sha :
    ref_name_ok name = true -> loose_ref w bs name = Ok (Symbolic target) -> ref_names w bs n target sha -> ref_names w bs (S n) name sha.

Lemma resolve_ref_names w bs n : forall name sha, resolve_ref w (S n) bs name = Ok (Some sha) <-> ref_names w bs n name sha.
Proof.
  induction n as [|n IH]; intros name sha; split.
  - cbn [resolve_ref]. destruct (ref_name_ok name) eqn:En; [|done]. cbn [negb]. destruct (loose_ref w bs name) as [[| |s|t]|] eqn:El; cbn [rbind]; try done.
    + intros H. by constructor 2.
    + intros [= ->]. by constructor 1.
  - inversion 1 as [? ? ? En El|? ? ? En El Ep|]; subst; cbn [resolve_ref]; rewrite En; cbn [negb]; by rewrite El.
  - cbn [resolve_ref]. destruct (ref_name_ok name) eqn:En; [|done]. cbn [negb]. destruct (loose_ref w bs name) as [[| |s|t]|] eqn:El; cbn [rbind]; try done.
    + intros H. by constructor 2.
    + intros [= ->]. by constructor 1.
    + intros H%IH. by econstructor 3.
  - inversion 1 as [? ? ? En El|? ? ? En El Ep|? ? ? ? En El Hn]; subst; cbn [resolve_ref]; rewrite En; cbn [negb]; rewrite El; try done.
    cbn [rbind]. by apply IH.
Qed.

Lemma packed_is_sha name lines sha : packed_sha name lines = Some sha -> is_sha sha = true.
Proof.
  induction lines as [|line rest IH]; [done|]. cbn [packed_sha]. destruct (_ || _ || _); [done|].
  destruct (words line) as [|s [|n [|]]]; try done. case_bool_decide; [|done]. destruct (is_sha (uni_lower s)) eqn:Es; [|done]. cbn [negb].
  destruct rest as [|[|c peeled] rest]; try (by intros [= <-]).
  destruct (decide (c = 94)) as [->|Hc]; [intros [= <-]; by destruct (is_sha (uni_lower (strip peeled))) eqn:E|].
  intros H'. assert (Some (uni_lower s) = Some sha) as [= <-]; [|done]. rewrite <- H'. clear -Hc.
  repeat (destruct c as [|c|c]; try done; destruct c; try done).
Qed.

Lemma ref_is_sha w bs n name sha : ref_names w bs n name sha -> is_sha sha = true.
Proof.
  induction 1 as [n name sha _ H|n name sha _ _ H|]; [| |done].
  - revert H. induction bs as [|b bs IH]; cbn [loose_ref]; [done|]. destruct (negb (is_file w _)); [exact IH|].
    destruct (read_text w _) as [t|]; [|done]. cbn [rbind]. destruct (strip <$> t) as [t'|]; [|done]. destruct (starts_with _ t'); [done|].
    destruct (is_sha (uni_lower t')) eqn:E; [|done]. by intros [= <-].
  - revert H. induction bs as [|b bs IH]; cbn [first_packed]; [done|]. unfold packed_ref at 1. destruct (negb (is_file w _)); [exact IH|].
    destruct (read_text w _) as [t|]; [|done]. cbn [rbind]. destruct (t ≫= _) as [s|] eqn:E; [|exact IH].
    intros [= <-]. destruct t as [t|]; [|done]. by eapply packed_is_sha.
Qed.

(** ** What is read *)
(** A path under one of the directories, without a step up. *)
Definition under (bs : list Path) (p : Path) : Prop := exists b rest, b ∈ bs /\ p = b ++ rest /\ Forall (fun c => c <> u "..") rest.
Definition agree (w w' : World) (bs : list Path) : Prop := forall p, under bs p -> is_file w p = is_file w' p /\ read_bytes w p = read_bytes w' p.

Lemma ref_name_under base bs name : base ∈ bs -> ref_name_ok name = true -> under bs (join_path base name).
Proof.
  intros Hb Hn. destruct name as [|c name]; [done|]. unfold ref_name_ok in Hn. apply andb_true_iff in Hn as [[Hc Hd]%andb_true_iff _].
  apply negb_true_iff in Hc, Hd. apply orb_false_iff in Hc as [Hc _]. unfold join_path, is_absolute.
  rewrite bool_decide_eq_false_2 by (cbn; intros [= ->]; by rewrite Z.eqb_refl in Hc).
  exists base, (components (c :: name)). split_and!; [done|done|]. apply Forall_forall. intros x Hx ->.
  unfold components in Hx. apply list_elem_of_In, filter_In in Hx as [Hx _]. apply not_true_iff_false in Hd. apply Hd, mem_spec, list_elem_of_In, Hx.
Qed.

Lemma read_text_agree w w' p : read_bytes w p = read_bytes w' p -> read_text w p = read_text w' p.
Proof. unfold read_text. by intros ->. Qed.

Lemma loose_ref_agree w w' all bs name : agree w w' all -> ref_name_ok name = true -> bs ⊆ all -> loose_ref w bs name = loose_ref w' bs name.
Proof.
  intros Ha Hn. induction bs as [|b bs IH]; intros Hs; [done|]. cbn [loose_ref].
  destruct (Ha (join_path b name)) as [Hf Hr]; [apply ref_name_under; [apply Hs; left|done]|]. rewrite Hf, (read_text_agree _ _ _ Hr), IH; [done|].
  intros x Hx. apply Hs. by right.
Qed.

Lemma first_packed_agree w w' all bs name : agree w w' all -> bs ⊆ all -> first_packed w bs name = first_packed w' bs name.
Proof.
  intros Ha. induction bs as [|b bs IH]; intros Hs; [done|]. cbn [first_packed]. unfold packed_ref.
  destruct (Ha (b ++ [u "packed-refs"])) as [Hf Hr]; [exists b, [u "packed-refs"]; split_and!; [apply Hs; left|done|by repeat constructor]|].
  rewrite Hf, (read_text_agree _ _ _ Hr), IH; [done|]. intros x Hx. apply Hs. by right.
Qed.

Lemma resolve_ref_agree w w' bs n : agree w w' bs -> forall name, resolve_ref w n bs name = resolve_ref w' n bs name.
Proof.
  intros Ha. induction n as [|n IH]; intros name; [done|]. cbn [resolve_ref]. destruct (ref_name_ok name) eqn:En; [|done]. cbn [negb].
  rewrite (loose_ref_agree w w' bs bs name Ha En) by done. rewrite (first_packed_agree w w' bs bs name Ha) by done.
  destruct (loose_ref w' bs name) as [[]|]; cbn [rbind]; auto.
Qed.

(** C25 The build identity is the build's.  In a checkout of this distribution, the reported version is the
    installed one exactly when [HEAD] names no commit or the tag of that version, peeled, is the commit
    [HEAD] names; otherwise it is the installed version, [+g] and seven digits of that commit, a sha in
    lower case.  A ref is what git's files say within eight symbolic links, loose before packed, and
    following one reads nothing outside the two git directories, whatever the files name: two file
    systems that agree below them resolve every ref alike. *)
Theorem version_identifies w loads decompress installed start root git_dir common v :
  source_root w loads start = Ok (Some root) -> git_dirs w root = Ok (Some (git_dir, common)) ->
  reported_version w loads decompress installed start = Ok v ->
  let bs := bases git_dir common in
  let released sha := exists tag, ref_names w bs MAX_REF_DEPTH (u "refs/tags/v" ++ installed) tag /\ peel w decompress 4 bs tag = sha in
  ((v = installed /\ ((forall sha, ~ ref_names w bs MAX_REF_DEPTH (u "HEAD") sha) \/ exists sha, ref_names w bs MAX_REF_DEPTH (u "HEAD") sha /\ released sha)) \/
   (exists sha, ref_names w bs MAX_REF_DEPTH (u "HEAD") sha /\ ~ released sha /\ is_sha sha = true /\
      v = installed ++ u "+g" ++ take SHORT_SHA sha /\ length (take SHORT_SHA sha) = SHORT_SHA)) /\
  (forall w' name, agree w w' bs -> resolve_ref w (S MAX_REF_DEPTH) bs name = resolve_ref w' (S MAX_REF_DEPTH) bs name).
Proof.
  intros Hroot Hdirs Hv bs released. split; [|by intros; apply resolve_ref_agree].
  unfold reported_version in Hv. rewrite Hroot in Hv. cbn [rbind] in Hv. rewrite Hdirs in Hv. cbn [rbind] in Hv. fold bs in Hv.
  destruct (resolve_ref w (S MAX_REF_DEPTH) bs (u "HEAD")) as [[sha|]|] eqn:Eh; [| |done]; cbn [rbind] in Hv.
  2:{ left. injection Hv as <-. split; [done|]. left. intros sha Hn. apply resolve_ref_names in Hn. congruence. }
  apply resolve_ref_names in Eh.
  destruct (resolve_ref w (S MAX_REF_DEPTH) bs (u "refs/tags/v" ++ installed)) as [tag|] eqn:Et; [|done]. cbn [rbind] in Hv. injection Hv as <-.
  case_bool_decide as Hp.
  - left. split; [done|]. right. exists sha. split; [done|]. destruct tag as [tag|]; [|done]. exists tag. split; [by apply resolve_ref_names|by injection Hp].
  - right. exists sha. split; [done|]. pose proof (ref_is_sha _ _ _ _ _ Eh) as Hs. split; [|split; [done|]].
    + intros (tag' & Ht & Hpe). apply resolve_ref_names in Ht. rewrite Et in Ht. injection Ht as ->. apply Hp. change (Some (peel w decompress 4 bs tag') = Some sha). by rewrite Hpe.
    + split; [done|]. rewrite length_take. unfold is_sha in Hs. apply andb_true_iff in Hs as [_ [H|H]%orb_true_iff]; apply Nat.eqb_eq in H; rewrite H; done.
Qed.
End Facts.

(** ** Samples *)
Definition sha_of (c : string) : text := concat (replicate 40 (u c)).
Definition sample_loads (t : text) : option value := if starts_with (u "name = jev") t then Some (VDict [(u "project", VDict [(u "name", VStr DISTRIBUTION)])]) else None.
Definition sample_checkout (tag : text) : World :=
  files_world [u "w"]
    [([u "w"; u "pyproject.toml"], u "name = jev"); ([u "w"; u "src"; u "identity.py"], []);
     ([u "w"; u ".git"; u "HEAD"], u "ref: refs/heads/main" ++ [10]); ([u "w"; u ".git"; u "refs"; u "heads"; u "main"], sha_of "A" ++ [10]);
     ([u "w"; u ".git"; u "packed-refs"], u "# pack-refs" ++ [10] ++ sha_of "b" ++ u " refs/tags/v1.0" ++ [10] ++ u "^" ++ tag ++ [10])].
Definition sample_version (tag : text) : result Escape text :=
  reported_version (U := ascii_unicode) (sample_checkout tag) sample_loads (fun _ => None) (u "1.0") [u "w"; u "src"; u "identity.py"].

(** A released commit, another one, and refs that are not text. *)
Example versions : sample_version (sha_of "a") = Ok (u "1.0") /\ sample_version (sha_of "c") = Ok (u "1.0+gaaaaaaa") /\ sample_version [255] = Raise Escapes.
Proof. vm_compute. split_and!; reflexivity. Qed.

Lemma version_identifies_witness :
  source_root (sample_checkout (sha_of "c")) sample_loads [u "w"; u "src"; u "identity.py"] = Ok (Some [u "w"]) /\
  exists sha, u "1.0+gaaaaaaa" = u "1.0" ++ u "+g" ++ take SHORT_SHA sha /\ is_sha sha = true.
Proof.
  assert (source_root (sample_checkout (sha_of "c")) sample_loads [u "w"; u "src"; u "identity.py"] = Ok (Some [u "w"])) as Hr by (vm_compute; reflexivity).
  split; [exact Hr|].
  destruct (version_identifies (U := ascii_unicode) (sample_checkout (sha_of "c")) sample_loads (fun _ => None) (u "1.0") [u "w"; u "src"; u "identity.py"]
    [u "w"] [u "w"; u ".git"] [u "w"; u ".git"] (u "1.0+gaaaaaaa") Hr ltac:(vm_compute; reflexivity) ltac:(vm_compute; reflexivity)) as [[[H _]|(sha & _ & _ & Hs & Hv & _)] _].
  - vm_compute in H. discriminate H.
  - exists sha. split; [exact Hv|exact Hs].
Defined.
