(* ===== verification/InstallCli.v ===== *)
(** * The install command

    Models [install/cli.py], between the parsed options and the engine: the launch, where the key comes
    from, who is asked; and [install/verify.py], the handshake with a freshly written server.  The
    parser of options is a parameter, and so are the process that is started (what its reader is handed,
    line by line, and the last of its standard error) and the answers of the user. *)
From S2P Require Import Prelude Json PyStrings JsonText JsonEdit InstallRedact Utf8 InstallFs Layout Documents Settings Engine.
From S2P Require Redact EngineRun.
Open Scope Z_scope.
#[local] Open Scope install_scope.

(** ** verify.py *)
Definition STDERR_TAIL_LINES : nat := 5.
Definition STDERR_LINE_LIMIT : nat := 200.

(** [line.rstrip("\r\n")[:STDERR_LINE_LIMIT]]. *)
Fixpoint drop_line_ends (t : text) : text :=
  match t with c :: t' => if (c =? 10) || (c =? 13) then drop_line_ends t' else t | [] => [] end.
Definition kept_line (line : text) : text := take STDERR_LINE_LIMIT (rev (drop_line_ends (rev line))).

(** The deque, after the drain. *)
Definition tail_lines (lines : list text) : list text := drop (length lines - STDERR_TAIL_LINES) (kept_line <$> lines).

Definition stderr_suffix (lines : list text) : text :=
  match List.filter (fun l => negb (bool_decide (l = []))) (tail_lines lines) with
  | [] => []
  | kept => u "the child's stderr, last lines:" ++ [10] ++ join [10] ((fun l => u "  " ++ l) <$> kept)
  end.

(** What [_LineReader.line] gives, call by call: a line, the end of the stream, or the deadline. *)
Inductive Handed := Line (t : text) | Closed | Late.

(** What is raised: the check's own error, and two of Python's that no handler of the check names: of a tool
    name that cannot be hashed, and of a number with more digits than [int] takes. *)
Inductive Failure := VerifyError (message : text) | Unhashable | TooManyDigits.

Definition TIMED_OUT : text := u "timed out waiting for the server".

Fixpoint read_response (id : Z) (feed : list Handed) : result Failure (dict value) * list Handed :=
  match feed with
  | [] | Late :: _ => (Raise (VerifyError TIMED_OUT), feed)
  | Closed :: rest => (Raise (VerifyError (u "server closed stdout")), rest)
  | Line t :: rest =>
    match json_loads t with
    | Ok (VDict parsed) =>
      if negb (equals_int id (get (u "id") parsed)) then read_response id rest
      else
        match get (u "error") parsed with
        | VNone =>
          match get (u "result") parsed with
          | VDict r => (Ok r, rest)
          | _ => (Raise (VerifyError (u "server reply has no result")), rest)
          end
        | _ => (Raise (VerifyError (u "server returned an error")), rest)
        end
    | Raise IntTooLong => (Raise TooManyDigits, rest)
    | _ => read_response id rest
    end
  end.

(** The names in a list of tools: a set, so each must be hashable. *)
Definition hashable (v : value) : bool := match v with VList _ | VDict _ => false | _ => true end.
Definition listed_names (tools : list value) : list value := omap (fun item => match item with VDict d => Some (get (u "name") d) | _ => None end) tools.

Definition named (tool : text) (names : list value) : bool := existsb (is_str tool) names.

(** The two exchanges. *)
Definition handshake (expected : list text) (feed : list Handed) : result Failure unit :=
  let '(initialized, feed) := read_response 1 feed in
  let? initialized := initialized in
  let server := match get (u "serverInfo") initialized with VDict info => get (u "name") info | _ => VNone end in
  if negb (is_str SERVER_NAME server) then Raise (VerifyError (u "serverInfo.name is not jev-mcp"))
  else
    let? listed := (read_response 2 feed).1 in
    match get (u "tools") listed with
    | VList tools =>
      if negb (forallb hashable (listed_names tools)) then Raise Unhashable
      else
        match List.filter (fun tool => negb (named tool (listed_names tools))) expected with
        | [] => Ok tt
        | missing => Raise (VerifyError (u "tools/list is missing " ++ join (u ", ") missing))
        end
    | _ => Raise (VerifyError (u "tools/list did not return tools"))
    end.

Definition verify_command (expected : list text) (feed : list Handed) (stderr : list text) : result Failure unit :=
  match handshake expected feed with
  | Raise (VerifyError first) =>
    Raise (VerifyError (match stderr_suffix stderr with [] => first | suffix => first ++ u "; " ++ suffix end))
  | r => r
  end.

(** ** cli.py *)
Record Options := {
  o_agents : list text; o_all : bool; o_yes : bool; o_dry_run : bool; o_remove : bool; o_from_checkout : bool;
  o_force : bool; o_name : text; o_desktop_key : bool }.

(** The terminal: whether there is one, and what is typed. *)
Record Terminal := { isatty : bool; getpass : text; confirm_line : text; choose_line : text }.

(** [_environment_key]. *)
Definition environment_key (environ : dict text) : text :=
  let v := or_else (dget (u "TYPESAFE_API_KEY") environ) [] in if is_unexpanded_reference v then [] else v.

(** [_desktop_key]: the key to store, and what must not be shown. *)
Definition desktop_key_of (consent : bool) (environ : dict text) (term : Terminal) : option text * list text :=
  let existing := environment_key environ in
  let secrets := match existing with [] => [] | _ => [existing] end in
  if negb consent then (None, secrets)
  else match existing with
       | _ :: _ => (Some existing, secrets)
       | [] => if negb (isatty term) then (Some [], secrets)
               else (Some (getpass term), match getpass term with [] => [] | typed => [typed] end)
       end.

Definition YES : list text := [u "y"; u "yes"].
Definition interactive (o : Options) (term : Terminal) : bool := negb (o_yes o || o_dry_run o || negb (isatty term)).

Section Install.
Context {U : Unicode}.

Definition confirmed (term : Terminal) : bool := mem (uni_lower (strip (confirm_line term))) YES.

(** [choose]: the agents typed, comma-separated. *)
Definition chosen_agents (term : Terminal) : list text :=
  List.filter (fun t => negb (bool_decide (t = []))) (strip <$> split_char 44 (strip (choose_line term))).

Definition BIN_NAMES : list text := [u "claude"; u "codex"; u "opencode"; u "pi"; u "omp"; u "pythinker"].
Definition bins_of (which : text -> option text) : dict bool := (fun n => (n, negb (is_none (which n)))) <$> BIN_NAMES.

Context (host : Host) (toml : Tomlkit) (plist : list Z -> option value) (names : Disk -> PurePath -> list text) (tools : list text)
  (repr : text -> text) (unified_diff : list text -> list text -> text -> list text) (now : text) (package_version : option text).
Context (meta : Metadata) (resolve : PurePath -> PurePath) (checkout : PurePath) (uvx_reported : result text text).
Context (which : text -> option text) (environ : dict text) (home_dir system : text) (term : Terminal).
Context (python_message : Failure -> text) (started : list text -> Disk -> list Handed * list text).

(** The launch the options ask for. *)
Definition launch_of (o : Options) : result Exn Launch :=
  match which (u "uvx") with
  | None => Raise (InstallError (u "uvx is not on PATH. Install uv from https://docs.astral.sh/uv/ and re-run."))
  | Some found =>
    let resolved := str_path (resolve (pure found)) in
    if o_from_checkout o then let? _ := require_checkout_uvx repr resolved uvx_reported in Ok (checkout_launch meta resolve resolved checkout)
    else pypi_launch meta resolved
  end.

(** The check the engine makes of a written entry; what the process says is an argument. *)
Definition checker (argv : list text) (d : Disk) : result text unit * Disk :=
  let '(feed, stderr) := started argv d in
  (match verify_command tools feed stderr with
   | Ok done => Ok done
   | Raise (VerifyError m) => Raise m
   | Raise e => Raise (python_message e)
   end, d).

Definition request_of (o : Options) (l : Launch) : Request :=
  let '(key, hidden) := desktop_key_of (o_desktop_key o) environ term in
  {| layout := layout_from_env environ (pure home_dir) None None; launch := l; agents := o_agents o; select_all := o_all o;
     assume_yes := o_yes o; dry_run := o_dry_run o; remove := o_remove o; force := o_force o; name := o_name o; desktop_key := key;
     secrets := hidden; platform := system; bins := bins_of which; key_in_environment := negb (bool_decide (environment_key environ = []));
     confirmer := if interactive o term then Some (fun _ d => (confirmed term, d)) else None;
     chooser := if interactive o term then Some (fun _ => chosen_agents term) else None;
     verify := if o_dry_run o || o_remove o then None else Some checker;
     before_write := None; stamp := None |}.

(** The engine's part: [Ok] is a result, or the message of an [InstallError]. *)
Definition installed (o : Options) : M (text + text * Z) :=
  catch (let* l := lift (launch_of o) in
         let* result := run host toml plist names tools repr unified_diff now package_version (request_of o l) in ret (inr result))
    (fun e => match e with InstallError m => ret (inl m) | e => raise e end).

(** [main], behind the parser: what is printed, and the exit code. *)
Definition install_main (o : Options) : M (text * Z) :=
  let* out := installed o in
  match out with
  | inl message => ret (message ++ [10], 1)
  | inr (report, code) =>
    let* note := lift (if o_from_checkout o then Ok None else local_install_warning meta) in
    ret (match note with Some note => note ++ [10; 10] ++ report | None => report end, code)
  end.
End Install.

(** ** Facts: the handshake *)
(** A reply that was handed over: the first object with the id, without an error. *)
Definition replied (id : Z) (feed : list Handed) (r : dict value) : Prop :=
  exists before t parsed rest, feed = before ++ Line t :: rest /\ json_loads t = Ok (VDict parsed) /\
    equals_int id (get (u "id") parsed) = true /\ get (u "error") parsed = VNone /\ get (u "result") parsed = VDict r.

(** What a failed handshake may say: nothing of what the server answered. *)
Definition MESSAGES : list text :=
  [TIMED_OUT; u "server closed stdout"; u "server returned an error"; u "server reply has no result"; u "serverInfo.name is not jev-mcp";
   u "tools/list did not return tools"].
Definition own_words (expected : list text) (m : text) : Prop :=
  m ∈ MESSAGES \/ exists missing, missing ⊆ expected /\ missing <> [] /\ m = u "tools/list is missing " ++ join (u ", ") missing.

Lemma message_known expected m : bool_decide (m ∈ MESSAGES) = true -> own_words expected m.
Proof. intros H%bool_decide_eq_true. by left. Qed.

Definition too_many_digits (feed : list Handed) : Prop := Exists (fun h => match h with Line t => json_loads t = Raise IntTooLong | _ => False end) feed.

Lemma read_response_cases id feed :
  match read_response id feed with
  | (Ok r, rest) => replied id feed r /\ exists before, feed = before ++ rest
  | (Raise (VerifyError m), _) => m ∈ MESSAGES
  | (Raise Unhashable, _) => False
  | (Raise TooManyDigits, _) => too_many_digits feed
  end.
Proof.
  assert (forall m, bool_decide (m ∈ MESSAGES) = true -> m ∈ MESSAGES) as Hm by (intros m H; by apply bool_decide_eq_true in H).
  induction feed as [|[t| |] feed IH]; cbn [read_response]; try (apply Hm; vm_compute; reflexivity).
  assert (match read_response id feed with
    | (Ok r, rest) => replied id (Line t :: feed) r /\ exists before, Line t :: feed = before ++ rest
    | (Raise (VerifyError m), _) => m ∈ MESSAGES
    | (Raise Unhashable, _) => False
    | (Raise TooManyDigits, _) => too_many_digits (Line t :: feed)
    end) as Hnext.
  { destruct (read_response id feed) as [[r|[m| |]] rest]; try done; [|by apply Exists_cons_tl].
    destruct IH as [(before & t' & parsed & rest' & E & Hp) [b E']].
    split; [exists (Line t :: before), t', parsed, rest'; split; [by rewrite E|exact Hp]|exists (Line t :: b); by rewrite E']. }
  destruct (json_loads t) as [v|[m| |]] eqn:Ej; [|exact Hnext|by apply Exists_cons_hd|exact Hnext]. destruct v as [| | | | | |parsed]; try exact Hnext.
  destruct (equals_int id (get (u "id") parsed)) eqn:Ei; cbn [negb]; [|exact Hnext]. clear Hnext IH.
  destruct (get (u "error") parsed) eqn:Ee; try (apply Hm; vm_compute; reflexivity).
  destruct (get (u "result") parsed) as [| | | | | |r] eqn:Er; try (apply Hm; vm_compute; reflexivity).
  split; [by exists [], t, parsed, feed|by exists [Line t]].
Qed.

Lemma named_spec tool names : named tool names = true <-> VStr tool ∈ names.
Proof.
  unfold named. rewrite existsb_exists. split.
  - intros (v & Hv & H). destruct v; try done. cbn in H. apply bool_decide_eq_true in H as ->. by apply list_elem_of_In.
  - intros H. exists (VStr tool). split; [by apply list_elem_of_In|]. cbn. by apply bool_decide_eq_true.
Qed.

Lemma tail_lines_short lines : (length (tail_lines lines) <= STDERR_TAIL_LINES)%nat /\ Forall (fun l => (length l <= STDERR_LINE_LIMIT)%nat) (tail_lines lines).
Proof.
  unfold tail_lines. split; [rewrite length_drop, length_fmap; lia|]. apply Forall_drop, Forall_fmap, Forall_true. intros l. cbn. unfold kept_line. rewrite length_take. apply Nat.le_min_l.
Qed.

(** C22 The check of a freshly written server is sound, and tells nothing of its answers.  [verify_command]
    succeeds only if the server answered the initialization under the name the entry was written for,
    and then listed every published tool; lines that are no answer are skipped, and it ends whatever
    the server does.  A failure's message is one of the fixed sentences, or names published tools that
    are missing, followed by at most the last five lines of standard error, cut to 200 characters. *)
Theorem verify_command_sound expected feed stderr :
  match verify_command expected feed stderr with
  | Ok _ => exists initialized info listed tools,
      replied 1 feed initialized /\ get (u "serverInfo") initialized = VDict info /\ get (u "name") info = VStr SERVER_NAME /\
      replied 2 feed listed /\ get (u "tools") listed = VList tools /\ Forall (fun t => VStr t ∈ listed_names tools) expected
  | Raise (VerifyError m) => exists first, own_words expected first /\
      (m = first \/ exists kept, kept <> [] /\ (length kept <= STDERR_TAIL_LINES)%nat /\ Forall (fun l => (length l <= STDERR_LINE_LIMIT)%nat) kept /\
         m = first ++ u "; the child's stderr, last lines:" ++ [10] ++ join [10] ((fun l => u "  " ++ l) <$> kept))
  | Raise Unhashable => exists listed tools, replied 2 feed listed /\ get (u "tools") listed = VList tools /\ Exists (fun v => hashable v = false) (listed_names tools)
  | Raise TooManyDigits => too_many_digits feed
  end.
Proof.
  assert (match handshake expected feed with
    | Ok _ => exists initialized info listed tools,
      replied 1 feed initialized /\ get (u "serverInfo") initialized = VDict info /\ get (u "name") info = VStr SERVER_NAME /\
      replied 2 feed listed /\ get (u "tools") listed = VList tools /\ Forall (fun t => VStr t ∈ listed_names tools) expected
    | Raise (VerifyError m) => own_words expected m
    | Raise Unhashable => exists listed tools, replied 2 feed listed /\ get (u "tools") listed = VList tools /\ Exists (fun v => hashable v = false) (listed_names tools)
  | Raise TooManyDigits => too_many_digits feed
    end) as H.
  { unfold handshake. pose proof (read_response_cases 1 feed) as H1. destruct (read_response 1 feed) as [[initialized|[m| |]] rest]; cbn [rbind]; [|by left|done|done].
    destruct H1 as [H1 [before ->]].
    destruct (negb (is_str SERVER_NAME _)) eqn:En; [apply message_known; vm_compute; reflexivity|]. apply negb_false_iff in En.
    pose proof (read_response_cases 2 rest) as H2. destruct (read_response 2 rest) as [[listed|[m| |]] rest']; cbn [rbind fst]; [|by left|done|by apply Exists_app; right].
    destruct H2 as [(b & t & parsed & r & -> & Hp) _].
    assert (replied 2 (before ++ b ++ Line t :: r) listed) as H2 by (exists (before ++ b), t, parsed, r; by rewrite <- app_assoc).
    destruct (get (u "tools") listed) as [| | | | |tools|] eqn:Et; try (apply message_known; vm_compute; reflexivity).
    destruct (forallb hashable (listed_names tools)) eqn:Eh; cbn [negb].
    2:{ exists listed, tools. split_and!; try done. apply Exists_exists. apply not_true_iff_false in Eh. rewrite forallb_forall in Eh.
        destruct (decide (Exists (fun v => hashable v = false) (listed_names tools))) as [Hx|Hx]; [by apply Exists_exists in Hx|].
        exfalso. apply Eh. intros x Hx'. apply not_false_iff_true. intros Hf. apply Hx, Exists_exists. exists x. split; [by apply list_elem_of_In|done]. }
    destruct (List.filter _ expected) as [|m missing] eqn:Em.
    - destruct (get (u "serverInfo") initialized) as [| | | | | |info] eqn:Ei; try done.
      exists initialized, info, listed, tools. split; [done|]. split; [done|]. split; [destruct (get (u "name") info); try done; cbn in En; by apply bool_decide_eq_true in En as ->|].
      split_and!; try done. apply Forall_forall. intros x Hx. apply named_spec. destruct (named x (listed_names tools)) eqn:E; [done|].
      assert (x ∈ List.filter (fun tool => negb (named tool (listed_names tools))) expected) as Hin by (apply list_elem_of_In, filter_In; split; [by apply list_elem_of_In|by rewrite E]).
      rewrite Em in Hin. by apply elem_of_nil in Hin.
    - right. exists (m :: missing). split_and!; try done. intros x Hx. rewrite <- Em in Hx. apply list_elem_of_In, filter_In in Hx as [Hx _]. by apply list_elem_of_In. }
  unfold verify_command. destruct (handshake expected feed) as [v|[m| |]]; [exact H| |exact H|exact H].
  exists m. split; [exact H|]. unfold stderr_suffix. destruct (List.filter _ (tail_lines stderr)) as [|k ks] eqn:Ek; [by left|right].
  exists (k :: ks). rewrite <- Ek. pose proof (tail_lines_short stderr) as [Hl Hf]. split_and!.
  - by rewrite Ek.
  - etransitivity; [|exact Hl]. clear. induction (tail_lines stderr) as [|x l IH]; [done|]. cbn. destruct (negb _); cbn; lia.
  - apply Forall_forall. intros x Hx. apply list_elem_of_In, filter_In in Hx as [Hx _]. rewrite Forall_forall in Hf. by apply Hf, list_elem_of_In.
  - rewrite Ek. change (u "; the child's stderr, last lines:") with (u "; " ++ u "the child's stderr, last lines:"). by rewrite <- (app_assoc (u "; ")).
Qed.

Definition single_quoted (s : string) : text := (fun c => if c =? 39 then 34 else c) <$> u s.

(** A line that is no answer, the two answers, and a server that lists one tool of two. *)
Definition sample_answers : list Handed :=
  [Line (u "starting"); Line (single_quoted "{'id': 1, 'result': {'serverInfo': {'name': 'jev-mcp'}}}");
   Line (single_quoted "{'id': 2, 'result': {'tools': [{'name': 'jev_ask'}]}}"); Closed].

Example checks : verify_command [u "jev_ask"] sample_answers [] = Ok tt
  /\ verify_command [u "jev_ask"; u "jev_find"] sample_answers [u "warn" ++ [10]; [10]]
     = Raise (VerifyError (u "tools/list is missing jev_find; the child's stderr, last lines:" ++ [10] ++ u "  warn"))
  /\ verify_command [] [Line (u "{}"); Late] [] = Raise (VerifyError TIMED_OUT).
Proof. vm_compute. done. Qed.

(** ** Facts: the key *)
Section Key.
Context {U : Unicode}.
Context (host : Host) (toml : Tomlkit) (plist : list Z -> option value) (names : Disk -> PurePath -> list text) (tools : list text)
  (repr : text -> text) (unified_diff : list text -> list text -> text -> list text) (now : text) (package_version : option text).
Context (meta : Metadata) (resolve : PurePath -> PurePath) (checkout : PurePath) (uvx_reported : result text text).
Context (which : text -> option text) (environ : dict text) (home_dir system : text) (term : Terminal).
Context (python_message : Failure -> text) (started : list text -> Disk -> list Handed * list text).
Notation the_request := (request_of tools which environ home_dir system term python_message started).
Notation the_run := (installed host toml plist names tools repr unified_diff now package_version meta resolve checkout uvx_reported which environ home_dir system
  term python_message started).
Notation the_launch := (launch_of repr meta resolve checkout uvx_reported which).

Lemma request_hides o l k : k <> [] -> desktop_key (the_request o l) = Some k \/ k = environment_key environ -> k ∈ secrets (the_request o l).
Proof.
  intros Hk. unfold request_of, desktop_key_of. destruct (environment_key environ) as [|c e] eqn:E.
  - destruct (o_desktop_key o); [|intros [H|H]; [by cbn in H|congruence]].
    destruct (isatty term); cbn -[In]; [|intros [[= <-]|H]; congruence].
    intros [[= <-]| ->]; [|done]. destruct (getpass term); [done|by left].
  - destruct (o_desktop_key o); cbn -[In]; [intros [[= <-]| ->]; by left|intros [H| ->]; [done|by left]].
Qed.

End Key.

Definition sample_options (desktop dry : bool) : Options :=
  {| o_agents := [u "cursor"]; o_all := false; o_yes := true; o_dry_run := dry; o_remove := false; o_from_checkout := false; o_force := false;
     o_name := u "jev"; o_desktop_key := desktop |}.
Definition sample_dist : Metadata := {| dist_version := Some (u "1.0"); dist_requires := None; dist_direct_url := None |}.
Definition sample_terminal : Terminal := {| isatty := true; getpass := u "sk-typed"; confirm_line := []; choose_line := [] |}.
Definition sample_which (n : text) : option text := if bool_decide (n = u "uvx") then Some (u "/bin/uvx") else None.
Definition sample_install (environ : dict text) (o : Options) : M (text * Z) :=
  install_main (U := ascii_unicode) sample_host sample_toml (fun _ => None) (fun _ _ => []) [u "jev_review"] (fun t => t) (fun _ _ _ => []) (u "now") None
    sample_dist id (pure (u "/src")) (Raise []) sample_which environ (u "/h") (u "linux") sample_terminal (fun _ => []) (fun _ _ => ([Late], [])) o.

(** A server that does not answer in time: the entry is written and recorded, and the run fails. *)
Example install_unverified : let '(result, d) := sample_install [(u "TYPESAFE_API_KEY", u "sk-1")] (sample_options false false) (sample_disk no_servers) in
  result = Ok (lines_of [u "detected cursor: /h/.cursor exists"; u "cursor: add /h/.cursor/mcp.json";
    u "cursor: add verify failed: timed out waiting for the server"], 1) /\
  bytes_of d "/h/.cursor/mcp.json" <> bytes_of (sample_disk no_servers) "/h/.cursor/mcp.json".
Proof. vm_compute. split; [reflexivity|discriminate]. Qed.

(** A key typed at the prompt, and present in the file that is shown. *)
Definition sample_with_key : Disk := sample_disk (u "{" ++ quoted "sk-typed" ++ u ": {" ++ quoted "x" ++ u ": 1}}").
Definition sample_installed : M (text + text * Z) :=
  installed (U := ascii_unicode) sample_host sample_toml (fun _ => None) (fun _ _ => []) [u "jev_review"] (fun t => t) (fun _ _ _ => []) (u "now") None
    sample_dist id (pure (u "/src")) (Raise []) sample_which [] (u "/h") (u "linux") sample_terminal (fun _ => []) (fun _ _ => ([Late], [])) (sample_options true true).
Definition sample_report : text := match (sample_installed sample_with_key).1 with Ok (inr (report, _)) => report | _ => [] end.

