(* ===== verification/Frames.v ===== *)
(** * The frames between the confined agent and the broker

    Models [evals/confinement/protocol.py]: a JSON header on one line, capped, and a body whose length
    the header gives, over a stream socket that hands the bytes over in pieces of any size and may break.
    The main theorem is the round trip: what one side frames, the other side reads back, however the
    bytes arrive. *)
From S2P Require Import Prelude Text Float64 Json Serialize PyStrings JsonText JsonLocate JsonWrite InstallRedact Utf8.
Open Scope Z_scope.

Definition PROTOCOL_VERSION : Z := 1.
Definition MAX_HEADER_BYTES : Z := 64 * 1024.
Definition MAX_BODY_BYTES : Z := 16 * 1024 * 1024.
Definition RECV_BYTES : Z := 65536.

Definition CREDENTIAL_REQUEST_HEADERS : list text :=
  [u "authorization"; u "proxy-authorization"; u "x-api-key"; u "api-key"; u "cookie"].
Definition METHOD_OVERRIDE_HEADERS : list text := [u "x-http-method-override"; u "x-method-override"; u "x-http-method"].
Definition HOP_BY_HOP_HEADERS : list text :=
  [u "connection"; u "keep-alive"; u "proxy-authenticate"; u "proxy-authorization"; u "te"; u "trailer"; u "transfer-encoding"; u "upgrade"].

(** What the two sides raise; an error of the system, a [ValueError] and any other carry the name of
    their type. *)
Inductive Fault :=
| Refused (kind detail : text)
| ProtocolError (message : text)
| OSError (type_name : text)
| ValueError (type_name : text)
| OtherError (type_name : text).

Definition UNICODE_DECODE_ERROR : Fault := ValueError (u "UnicodeDecodeError").
Definition JSON_DECODE_ERROR : Fault := ValueError (u "JSONDecodeError").

(** [json.loads] of text. *)
Definition loads (t : text) : result Fault value :=
  match json_loads t with
  | Ok v => Ok v
  | Raise IntTooLong => Raise (ValueError (u "ValueError"))
  | Raise _ => Raise JSON_DECODE_ERROR
  end.

(** ** The socket: what each read finds, up to an error or the end *)
Inductive Piece := Bytes (b : list Z) | Breaks (type_name : text).

Fixpoint recv (n : Z) (s : list Piece) : result Fault (list Z) * list Piece :=
  match s with
  | [] => (Ok [], [])
  | Bytes [] :: s' => recv n s'
  | Bytes b :: s' => if Z.of_nat (length b) <=? n then (Ok b, s') else (Ok (take (Z.to_nat n) b), Bytes (drop (Z.to_nat n) b) :: s')
  | Breaks e :: _ => (Raise (OSError e), s)
  end.

(** [_recv_exact]: each read takes a byte at least, so [fuel] starts at the count. *)
Fixpoint recv_chunks (fuel : nat) (remaining : Z) (s : list Piece) : result Fault (list Z) * list Piece :=
  if remaining <=? 0 then (Ok [], s)
  else
    match fuel with
    | O => (Ok [], s)
    | S fuel' =>
      match recv (Z.min remaining RECV_BYTES) s with
      | (Ok [], s) => (Raise (ProtocolError (u "connection closed inside a frame")), s)
      | (Ok chunk, s) => let '(rest, s) := recv_chunks fuel' (remaining - Z.of_nat (length chunk)) s in (let? rest := rest in Ok (chunk ++ rest), s)
      | (Raise e, s) => (Raise e, s)
      end
    end.
Definition recv_exact (count : Z) (s : list Piece) : result Fault (list Z) * list Piece := recv_chunks (Z.to_nat count) count s.

(** The loop of [_recv_header], a byte at a time; [left] is how many more bytes the cap allows. *)
Fixpoint recv_line (left : nat) (s : list Piece) : result Fault (list Z) * list Piece :=
  match recv 1 s with
  | (Ok [], s) => (Raise (ProtocolError (u "connection closed inside the header")), s)
  | (Ok piece, s) =>
    match left with
    | O => (Raise (ProtocolError (u "header exceeds the protocol cap")), s)
    | S left' =>
      if bool_decide (piece = [10]) then (Ok piece, s)
      else let '(rest, s) := recv_line left' s in (let? rest := rest in Ok (piece ++ rest), s)
    end
  | (Raise e, s) => (Raise e, s)
  end.

(** What the line says. *)
Definition read_header (line : list Z) : result Fault (dict value) :=
  match decode line with
  | None => Raise UNICODE_DECODE_ERROR
  | Some t =>
    let? loaded := loads (strip t) in
    match loaded with
    | VDict header => if equals_int PROTOCOL_VERSION (get (u "v") header) then Ok header else Raise (ProtocolError (u "not a v1 frame header"))
    | _ => Raise (ProtocolError (u "not a v1 frame header"))
    end
  end.
Definition recv_header (s : list Piece) : result Fault (dict value) * list Piece :=
  let '(line, s) := recv_line (Z.to_nat MAX_HEADER_BYTES) s in (let? line := line in read_header line, s).

(** [isinstance(length, int)]: a [bool] is one. *)
Definition as_length (v : value) : option Z :=
  match v with VInt n => Some n | VBool b => Some (Z.b2z b) | _ => None end.

Definition recv_frame (s : list Piece) : result Fault (dict value * list Z) * list Piece :=
  let '(header, s) := recv_header s in
  match header with
  | Raise e => (Raise e, s)
  | Ok header =>
    match as_length (get (u "body_len") header) with
    | Some n =>
      if (n <? 0) || (MAX_BODY_BYTES <? n) then (Raise (ProtocolError (u "body_len is missing or out of range")), s)
      else let '(body, s) := recv_exact n s in (let? body := body in Ok (header, body), s)
    | None => (Raise (ProtocolError (u "body_len is missing or out of range")), s)
    end
  end.

(** [json.dumps(payload, separators=(",", ":")).encode("utf-8")]. *)
Definition payload_of (header : dict value) (body : list Z) : dict value :=
  dset (u "body_len") (VInt (Z.of_nat (length body))) (dset (u "v") (VInt PROTOCOL_VERSION) header).
Definition compact : value -> text := dumps_line ascii_string (u ",") (u ":").
Definition header_line (header : dict value) (body : list Z) : list Z := encode (compact (VDict (payload_of header body))).

(** The bytes sent. *)
Definition send_frame (header : dict value) (body : list Z) : result Fault (list Z) :=
  if MAX_BODY_BYTES <? Z.of_nat (length body) then Raise (ProtocolError (u "body exceeds the protocol cap"))
  else
    let line := header_line header body in
    if MAX_HEADER_BYTES <? Z.of_nat (length line) then Raise (ProtocolError (u "header exceeds the protocol cap"))
    else Ok (line ++ [10] ++ body).

(** ** Facts: one line of JSON *)
(** What the frames carry: text without surrogates, no floats, integers that can be read back. *)
Definition scalar_text (t : text) : bool := forallb is_scalar t.
Fixpoint framable (v : value) : bool :=
  match v with
  | VInt n => (length (digits (Z.abs n)) <=? 4300)%nat
  | VFloat _ => false
  | VStr t => scalar_text t
  | VList l => forallb framable l
  | VDict d => bool_decide (NoDup (dkeys d)) && forallb (fun kv => scalar_text kv.1 && framable kv.2) d
  | _ => true
  end.

Lemma scalar_range c : is_scalar c = true -> 0 <= c < 0x110000 /\ Utf16.is_high c = false.
Proof. unfold is_scalar, Utf16.is_code_point, Utf16.is_high. lia. Qed.

Lemma hex_body c b ts : 0 <= c <= 0xFFFF -> body b ts -> body ([92; 117] ++ hex4 c ++ b) (Escaped c :: ts).
Proof.
  intros Hc Hb. destruct (hex4_roundtrip c b Hc) as (h1 & h2 & h3 & h4 & E & Hv). rewrite E. by apply B_hex; [apply hex4_of_value|].
Qed.

Lemma ascii_char_body c b ts : is_scalar c = true -> body b ts ->
  exists ts', body (ascii_char c ++ b) ts' /\ join_tokens ts' = c :: join_tokens ts.
Proof.
  intros Hc Hb. destruct (scalar_range c Hc) as [Hr Hh]. unfold ascii_char.
  destruct ((c =? 34) || (c =? 92) || (c <? 32)) eqn:E.
  { destruct (escaped_body c b ts ltac:(lia) Hb) as (tok & Ht & Hb'). exists (tok :: ts). split; [done|]. by apply join_stands. }
  destruct (c <? 127) eqn:E1; [exists (Raw c :: ts); split; [apply B_raw; [lia|lia|lia|done]|done]|].
  destruct (c <? 0x10000) eqn:E2.
  - exists (Escaped c :: ts). rewrite <- app_assoc. split; [by apply hex_body; [lia|]|]. cbn [join_tokens]. destruct ts as [|[d|d] ts]; [done|done|]. by rewrite Hh.
  - exists (Escaped (0xD800 + (c - 0x10000) / 1024) :: Escaped (0xDC00 + (c - 0x10000) mod 1024) :: ts).
    assert (0 <= (c - 0x10000) / 1024 < 1024) as Hq by (split; [apply Z.div_pos; lia|apply Z.div_lt_upper_bound; lia]).
    pose proof (Z.mod_pos_bound (c - 0x10000) 1024 ltac:(lia)) as Hm. pose proof (Z.div_mod (c - 0x10000) 1024 ltac:(lia)) as Hd.
    unfold surrogate_pair. rewrite <- !app_assoc. split; [apply hex_body; [lia|]; apply hex_body; [lia|done]|].
    set (q := (c - 0x10000) / 1024) in *. set (m := (c - 0x10000) mod 1024) in *.
    cbn [join_tokens]. replace (Utf16.is_high _ && Utf16.is_low _) with true by (unfold Utf16.is_high, Utf16.is_low; lia).
    f_equal. unfold Utf16.join_pair. rewrite Z.shiftl_mul_pow2 by lia. change (2 ^ 10) with 1024. lia.
Qed.

Lemma ascii_literal t : scalar_text t = true -> literal_of (ascii_string t) t.
Proof.
  intros Ht. enough (exists ts, body (concat (ascii_char <$> t) ++ dq) ts /\ join_tokens ts = t) as (ts & Hb & Hj) by by exists (concat (ascii_char <$> t) ++ dq), ts.
  unfold scalar_text in Ht. induction t as [|c t IH]; [exists []; split; [constructor|done]|].
  cbn in Ht. apply andb_true_iff in Ht as [Hc (ts & Hb & Hj)%IH]. destruct (ascii_char_body c _ _ Hc Hb) as (ts' & Hb' & Hj').
  exists ts'. cbn [fmap list_fmap concat]. rewrite <- app_assoc. split; [done|]. by rewrite Hj', Hj.
Qed.

(** The tree of the text. *)
Fixpoint tight_elems (cs : list cst) : elems := match cs with [] => ENil | c :: cs' => ECons [] c [] (tight_elems cs') end.
Fixpoint tight_members (kcs : list (text * cst)) : members :=
  match kcs with
  | [] => MNil
  | (k, c) :: kcs' => MCons {| lead := []; literal := ascii_string k; name := k; before_colon := []; after_colon := [] |} c [] (tight_members kcs')
  end.
Fixpoint tight (v : value) : cst :=
  match v with
  | VNone => CAtom (u "null") VNone
  | VBool true => CAtom (u "true") (VBool true)
  | VBool false => CAtom (u "false") (VBool false)
  | VInt n => CAtom (str_of_Z n) (VInt n)
  | VFloat x => CAtom (float_repr x) (VFloat x)
  | VStr t => CStr (ascii_string t) t
  | VList l => CArr [] (tight_elems (List.map tight l))
  | VDict d => CObj [] (tight_members (List.map (fun kv => (kv.1, tight kv.2)) d))
  end.

Lemma flat_tight v : flat (tight v) = compact v.
Proof.
  unfold compact. induction v as [|[]|n|x|t|l IH|d IH] using value_induction; try done.
  - cbn [tight flat dumps_line]. cbn [app]. change (u "[") with [91]. change (u "]") with [93]. cbn [app]. do 2 f_equal.
    induction IH as [|v l Hv _ IHl]; [done|]. cbn [List.map tight_elems flat_elems app]. rewrite Hv. destruct l as [|w l]; [cbn; by rewrite !app_nil_r|].
    rewrite join_cons by done. rewrite <- IHl. done.
  - cbn [tight flat dumps_line]. cbn [app]. change (u "{") with [123]. change (u "}") with [125]. cbn [app]. do 2 f_equal.
    induction IH as [|[k v] d Hv _ IHd]; [done|]. cbn [List.map tight_members flat_members fst snd app] in *. rewrite Hv. unfold flat_key. cbn [lead literal before_colon after_colon app].
    destruct d as [|w d]; [cbn; by rewrite !app_nil_r, <- app_assoc|]. rewrite join_cons by done. rewrite <- IHd. rewrite <- !app_assoc. done.
Qed.

Lemma tight_good v : framable v = true -> wf (tight v) /\ val last_wins (tight v) = v.
Proof.
  induction v as [|[]|n|x|t|l IH|d IH] using value_induction; intros Hv; cbn [framable] in Hv; try done.
  - split; [|done]. apply Atom_constant. unfold constants. set_solver.
  - split; [|done]. apply Atom_constant. unfold constants. set_solver.
  - split; [|done]. apply Atom_constant. unfold constants. set_solver.
  - split; [|done]. apply int_atom. by apply Nat.leb_le.
  - split; [|done]. by apply ascii_literal.
  - enough (wf_elems (tight_elems (List.map tight l)) /\ elem_vals last_wins (tight_elems (List.map tight l)) = l) as [H1 H2].
    { split; [by split|]. cbn [tight val]. by rewrite H2. }
    induction IH as [|v l H _ IHl]; [done|]. cbn in Hv. apply andb_true_iff in Hv as [[Hw Hval]%H [He Hes]%IHl].
    cbn [List.map tight_elems wf_elems elem_vals]. rewrite Hval, Hes. split; [by repeat split|done].
  - apply andb_true_iff in Hv as [Hn%bool_decide_eq_true Hv].
    enough (wf_members (tight_members (List.map (fun kv => (kv.1, tight kv.2)) d)) /\ member_vals last_wins (tight_members (List.map (fun kv => (kv.1, tight kv.2)) d)) = d) as [H1 H2].
    { split; [by split|]. cbn [tight val]. rewrite H2. by apply last_wins_distinct. }
    clear Hn. induction IH as [|[k v] d H _ IHd]; [done|]. cbn [forallb fst snd] in *. apply andb_true_iff in Hv as [[Hk [Hw Hval]%H]%andb_true_iff [Hm Hms]%IHd].
    cbn [List.map tight_members wf_members member_vals fst snd name]. rewrite Hval, Hms. split; [|done].
    split_and!; [split_and!; [done|by apply ascii_literal|done|done]|done|done|done].
Qed.

(** A line that was written is read back. *)
Lemma compact_reads v : framable v = true -> json_loads (compact v) = Ok v.
Proof.
  intros [Hw Hv]%tight_good. pose proof (decode_document last_wins [] (tight v) [] ltac:(done) Hw ltac:(done)) as H.
  unfold document in H. cbn [app] in H. rewrite app_nil_r, flat_tight, Hv in H. exact H.
Qed.

(** The line is ASCII, without a line break. *)
Definition plain_char (c : Z) : Prop := 0 <= c < 128 /\ c <> 10.

Lemma encode_plain t : Forall plain_char t -> encode t = t.
Proof. induction 1 as [|c t [Hc _] _ IH]; [done|]. unfold encode in *. cbn [flat_map]. rewrite IH. unfold encode_one. by rewrite (proj2 (Z.ltb_lt _ _)) by lia. Qed.

Lemma hex_digit_plain d : 0 <= d < 16 -> plain_char (hex_digit d).
Proof. intros H. unfold plain_char, hex_digit. destruct (d <? 10) eqn:E; lia. Qed.

Lemma hex4_plain c : 0 <= c <= 0xFFFF -> Forall plain_char (hex4 c).
Proof. intros H. unfold hex4. repeat constructor; apply hex_digit_plain; try apply Z.mod_pos_bound; try lia. Qed.

Lemma ascii_char_plain c : is_scalar c = true -> Forall plain_char (ascii_char c).
Proof.
  intros Hc. destruct (scalar_range c Hc) as [Hr _]. unfold ascii_char, escaped_char, surrogate_pair.
  assert (0 <= (c - 0x10000) / 1024 < 1024 \/ c < 0x10000) as Hq
    by (destruct (Z.lt_ge_cases c 0x10000); [by right|left; split; [apply Z.div_pos; lia|apply Z.div_lt_upper_bound; lia]]).
  pose proof (Z.mod_pos_bound (c - 0x10000) 1024 ltac:(lia)) as Hm.
  repeat match goal with |- context [if ?b then _ else _] => destruct b eqn:? end; rewrite ?Forall_app;
    repeat split; try (repeat constructor; unfold plain_char; lia); apply hex4_plain; lia.
Qed.

Lemma ascii_string_plain t : scalar_text t = true -> Forall plain_char (ascii_string t).
Proof.
  intros Ht. unfold ascii_string. rewrite !Forall_app. split_and!; [by repeat constructor| |by repeat constructor].
  unfold scalar_text in Ht. induction t as [|c t IH]; [done|]. cbn in *. apply andb_true_iff in Ht as [Hc Ht]. apply Forall_app. split; [by apply ascii_char_plain|by apply IH].
Qed.

Lemma join_plain sep l : Forall plain_char sep -> Forall (Forall plain_char) l -> Forall plain_char (join sep l).
Proof. intros Hs. induction 1 as [|t l Ht Hl IH]; [constructor|]. destruct l as [|t2 l]; [done|]. rewrite join_cons by done. by rewrite !Forall_app. Qed.

Lemma compact_plain v : framable v = true -> Forall plain_char (compact v).
Proof.
  unfold compact. induction v as [|[]|n|x|t|l IH|d IH] using value_induction; intros Hv; cbn [framable] in Hv; try done; try by repeat constructor.
  - cbn [dumps_line]. unfold str_of_Z.
    assert (forall m, 0 <= m -> Forall plain_char (digits m)) as Hd.
    { intros m Hm. eapply Forall_impl; [by apply digits_digit|]. unfold is_digit, plain_char. intros c Hc. cbn in Hc. lia. }
    destruct (n <? 0) eqn:E; [constructor; [unfold plain_char; lia|]|]; apply Hd; lia.
  - by apply ascii_string_plain.
  - cbn [dumps_line]. rewrite !Forall_app. split_and!; [by repeat constructor| |by repeat constructor]. apply join_plain; [by repeat constructor|].
    induction IH as [|v l H _ IHl]; [constructor|]. cbn in Hv. apply andb_true_iff in Hv as [Hw Hl]. constructor; [by apply H|by apply IHl].
  - cbn [dumps_line]. rewrite !Forall_app. split_and!; [by repeat constructor| |by repeat constructor]. apply join_plain; [by repeat constructor|].
    apply andb_true_iff in Hv as [_ Hv]. induction IH as [|[k v] l H _ IHl]; [constructor|]. cbn [forallb fst snd] in *. apply andb_true_iff in Hv as [[Hk Hw]%andb_true_iff Hl].
    constructor; [|by apply IHl]. cbn [fst snd]. rewrite !Forall_app. split_and!; [by apply ascii_string_plain|by repeat constructor|by apply H].
Qed.

Lemma strip_object x : strip (123 :: x ++ [125; 10]) = 123 :: x ++ [125].
Proof. unfold strip. cbn [lstrip]. change (is_space 123) with false. cbv iota. unfold rstrip. cbn [rev]. rewrite rev_app_distr. cbn. by rewrite rev_app_distr, rev_involutive. Qed.

(** The reader of a line that was sent. *)
Lemma read_header_line d : framable (VDict d) = true -> get (u "v") d = VInt PROTOCOL_VERSION -> read_header (encode (compact (VDict d)) ++ [10]) = Ok d.
Proof.
  intros Hd Hv. pose proof (compact_plain _ Hd) as Hp. rewrite encode_plain by done. unfold read_header.
  assert (decode (compact (VDict d) ++ [10]) = Some (compact (VDict d) ++ [10])) as ->.
  { rewrite <- (decode_encode (compact (VDict d) ++ [10])).
    - f_equal. unfold encode. rewrite flat_map_app. change (flat_map encode_one [10]) with [10]. f_equal. symmetry. by apply encode_plain.
    - apply Forall_app. split; [|by repeat constructor]. eapply Forall_impl; [exact Hp|]. unfold plain_char, is_scalar, Utf16.is_code_point. cbn. lia. }
  assert (strip (compact (VDict d) ++ [10]) = compact (VDict d)) as ->.
  { unfold compact. cbn [dumps_line]. change (u "{") with [123]. change (u "}") with [125]. cbn [app]. rewrite <- app_assoc. apply strip_object. }
  unfold loads. rewrite compact_reads by done. cbn [rbind]. rewrite Hv. done.
Qed.

(** ** Facts: the socket *)
(** The bytes that arrive before the stream breaks or ends. *)
Fixpoint stream (s : list Piece) : list Z :=
  match s with Bytes b :: s' => b ++ stream s' | _ => [] end.

Lemma recv_stream n s : 0 < n -> stream s <> [] ->
  exists c chunk s', recv n s = (Ok (c :: chunk), s') /\ Z.of_nat (length (c :: chunk)) <= n /\ stream s = (c :: chunk) ++ stream s'.
Proof.
  intros Hn. induction s as [|[[|c b]|e] s IH]; cbn [recv stream app]; [done|exact IH|intros _|done].
  destruct (Z.of_nat (length (c :: b)) <=? n) eqn:E; [exists c, b, s; split_and!; [done|lia|done]|].
  destruct (Z.to_nat n) as [|k] eqn:Ek; [lia|]. exists c, (take k b), (Bytes (drop k b) :: s). cbn [take drop stream app].
  split_and!; [done|cbn [length]; rewrite length_take; lia|]. by rewrite app_assoc, take_drop.
Qed.

Lemma recv_chunks_stream fuel : forall n s, 0 <= n <= Z.of_nat fuel -> n <= Z.of_nat (length (stream s)) ->
  exists s', recv_chunks fuel n s = (Ok (take (Z.to_nat n) (stream s)), s') /\ stream s' = drop (Z.to_nat n) (stream s).
Proof.
  assert (forall f s, exists s', recv_chunks f 0 s = (Ok (take (Z.to_nat 0) (stream s)), s') /\ stream s' = drop (Z.to_nat 0) (stream s)) as H0
    by (intros f s; exists s; by destruct f).
  induction fuel as [|fuel IH]; intros n s Hn Hl; [assert (n = 0) as -> by lia; apply H0|].
  destruct (Z.eq_dec n 0) as [->|Hne]; [apply H0|]. cbn [recv_chunks]. rewrite (proj2 (Z.leb_gt n 0)) by lia.
  destruct (recv_stream (Z.min n RECV_BYTES) s) as (c & chunk & s1 & -> & Hc & Hs); [unfold RECV_BYTES; lia|by intros E; rewrite E in Hl; cbn in Hl; lia|].
  rewrite Hs in *. rewrite length_app in Hl. destruct (IH (n - Z.of_nat (length (c :: chunk))) s1) as (s2 & -> & Hs2); [cbn [length] in *; lia|lia|].
  exists s2. cbn [rbind]. rewrite Hs2. rewrite take_app, drop_app.
  rewrite (take_ge (c :: chunk)) by lia. rewrite (drop_ge (c :: chunk)) by lia.
  replace (Z.to_nat n - length (c :: chunk))%nat with (Z.to_nat (n - Z.of_nat (length (c :: chunk)))) by lia. done.
Qed.

Lemma recv_exact_stream b rest s : stream s = b ++ rest -> exists s', recv_exact (Z.of_nat (length b)) s = (Ok b, s') /\ stream s' = rest.
Proof.
  intros Hs. destruct (recv_chunks_stream (Z.to_nat (Z.of_nat (length b))) (Z.of_nat (length b)) s) as (s' & E & Hs'); [lia|rewrite Hs, length_app; lia|].
  rewrite Nat2Z.id, Hs in E, Hs'. exists s'. unfold recv_exact. rewrite Nat2Z.id. by rewrite take_app_length in E; rewrite drop_app_length in Hs'.
Qed.

Lemma recv_one s c rest : stream s = c :: rest -> exists s', recv 1 s = (Ok [c], s') /\ stream s' = rest.
Proof.
  intros Hs. destruct (recv_stream 1 s) as (d & chunk & s' & E & Hl & Hs'); [lia|by rewrite Hs|]. rewrite Hs in Hs'.
  destruct chunk; [|cbn in Hl; lia]. injection Hs' as <- ->. by exists s'.
Qed.

Lemma recv_line_stream line rest : 10 ∉ line -> forall left s, stream s = line ++ 10 :: rest -> (length line < left)%nat ->
  exists s', recv_line left s = (Ok (line ++ [10]), s') /\ stream s' = rest.
Proof.
  induction line as [|c line IH]; intros Hn left s Hs Hl; (destruct left as [|left]; [cbn in Hl; lia|]); cbn [recv_line].
  - destruct (recv_one s 10 rest Hs) as (s' & -> & Hs'). by exists s'.
  - destruct (recv_one s c (line ++ 10 :: rest) Hs) as (s' & -> & Hs'). rewrite bool_decide_eq_false_2 by (intros [= ->]; apply Hn; by left).
    destruct (IH ltac:(intros H; apply Hn; by right) left s' Hs' ltac:(cbn in Hl; lia)) as (s2 & -> & Hs2). by exists s2.
Qed.

Lemma recv_line_long line : forall left s rest, 10 ∉ line -> stream s = line ++ rest -> (left < length line)%nat ->
  (recv_line left s).1 = Raise (ProtocolError (u "header exceeds the protocol cap")).
Proof.
  induction line as [|c line IH]; intros left s rest Hn Hs Hl; [cbn in Hl; lia|].
  destruct left as [|left]; cbn [recv_line]; destruct (recv_one s c (line ++ rest) Hs) as (s' & -> & Hs'); [done|].
  rewrite bool_decide_eq_false_2 by (intros [= ->]; apply Hn; by left).
  specialize (IH left s' rest ltac:(intros H; apply Hn; by right) Hs' ltac:(cbn in Hl; lia)).
  destruct (recv_line left s') as [r s2]. cbn [fst] in IH. by subst r.
Qed.

(** ** Facts: what is framed *)
Lemma digits_go_length fuel : forall n acc, (length (digits_go fuel n acc) <= fuel + length acc)%nat.
Proof. induction fuel as [|fuel IH]; intros n acc; cbn [digits_go]; [lia|]. destruct (n <? 10); [cbn; lia|]. etransitivity; [apply IH|]. cbn. lia. Qed.

Lemma framable_length n : 0 <= n <= MAX_BODY_BYTES -> framable (VInt n) = true.
Proof.
  intros Hn. cbn [framable]. apply Nat.leb_le. unfold digits. etransitivity; [apply digits_go_length|]. rewrite Z.abs_eq by lia.
  assert (Z.log2 n <= 24) by (change 24 with (Z.log2 MAX_BODY_BYTES); apply Z.log2_le_mono; lia). cbn [length]. lia.
Qed.

Lemma framable_dset k v d : scalar_text k = true -> framable v = true -> framable (VDict d) = true -> framable (VDict (dset k v d)) = true.
Proof.
  cbn [framable]. intros Hk Hv [Hn%bool_decide_eq_true Hd]%andb_true_iff. apply andb_true_iff.
  split; [apply bool_decide_eq_true; by apply NoDup_dset|]. clear Hn. induction d as [|[k' v'] d IH]; cbn [dset forallb fst snd]; [by rewrite Hk, Hv|].
  cbn [forallb fst snd] in Hd. apply andb_true_iff in Hd as [[Hk' Hv']%andb_true_iff Hd]. case_bool_decide; cbn [forallb fst snd].
  - by rewrite Hk', Hv, Hd.
  - by rewrite Hk', Hv', IH.
Qed.

Lemma payload_framable header body : framable (VDict header) = true -> Z.of_nat (length body) <= MAX_BODY_BYTES -> framable (VDict (payload_of header body)) = true.
Proof. intros Hh Hb. unfold payload_of. apply framable_dset; [by vm_compute|apply framable_length; lia|]. by apply framable_dset. Qed.

Lemma header_line_plain header body : framable (VDict header) = true -> Z.of_nat (length body) <= MAX_BODY_BYTES -> 10 ∉ header_line header body.
Proof.
  intros Hh Hb. pose proof (compact_plain _ (payload_framable header body Hh Hb)) as Hp. unfold header_line. rewrite encode_plain by done.
  intros H. rewrite Forall_forall in Hp. by destruct (Hp 10 H).
Qed.

Lemma framed_reads header body s rest : framable (VDict header) = true -> Z.of_nat (length body) <= MAX_BODY_BYTES ->
  Z.of_nat (length (header_line header body)) < MAX_HEADER_BYTES -> stream s = header_line header body ++ [10] ++ body ++ rest ->
  exists s', recv_frame s = (Ok (payload_of header body, body), s') /\ stream s' = rest.
Proof.
  intros Hh Hb Hl Hs. pose proof (payload_framable header body Hh Hb) as Hp. pose proof (header_line_plain header body Hh Hb) as Hn.
  destruct (recv_line_stream _ _ Hn (Z.to_nat MAX_HEADER_BYTES) s Hs ltac:(lia)) as (s1 & E1 & Hs1).
  unfold recv_frame, recv_header. rewrite E1. cbn [rbind]. unfold header_line at 1.
  assert (get (u "v") (payload_of header body) = VInt PROTOCOL_VERSION) as Hv
    by (unfold payload_of, get; rewrite dget_dset_ne by done; by rewrite dget_dset_eq).
  rewrite read_header_line by done. unfold payload_of at 1, get at 1. rewrite dget_dset_eq. cbn [or_else as_length].
  rewrite (proj2 (Z.ltb_ge _ 0)) by lia. rewrite (proj2 (Z.ltb_ge MAX_BODY_BYTES _)) by lia. cbn [orb].
  destruct (recv_exact_stream body rest s1 Hs1) as (s2 & -> & Hs2). by exists s2.
Qed.

(** C23 What one side frames the other side reads.  Of a header without floats and without surrogates,
    [recv_frame] gives back exactly the fields that were sent, with the version and the length of the
    body, and the body, in whatever pieces the bytes arrive, and leaves what follows on the stream.  The
    one exception is a header line of exactly the cap: it is sent, but the reader counts its line break
    and refuses it. *)
Theorem frame_roundtrip header body frame s rest :
  framable (VDict header) = true -> send_frame header body = Ok frame -> stream s = frame ++ rest ->
  let line := Z.of_nat (length (header_line header body)) in
  (line < MAX_HEADER_BYTES /\ exists s', recv_frame s = (Ok (payload_of header body, body), s') /\ stream s' = rest) \/
  (line = MAX_HEADER_BYTES /\ (recv_frame s).1 = Raise (ProtocolError (u "header exceeds the protocol cap"))).
Proof.
  intros Hh Hf Hs line. unfold send_frame in Hf. destruct (MAX_BODY_BYTES <? _) eqn:Eb; [done|]. apply Z.ltb_ge in Eb.
  destruct (MAX_HEADER_BYTES <? _) eqn:El; [done|]. apply Z.ltb_ge in El. assert (frame = header_line header body ++ [10] ++ body) as -> by congruence. rewrite <- !app_assoc in Hs. fold line in El.
  destruct (Z.eq_dec line MAX_HEADER_BYTES) as [E|]; [right|left; split; [lia|]; apply framed_reads; [done|done|lia|done]].
  split; [done|]. pose proof (header_line_plain header body Hh Eb) as Hn. unfold recv_frame, recv_header.
  assert ((recv_line (Z.to_nat MAX_HEADER_BYTES) s).1 = Raise (ProtocolError (u "header exceeds the protocol cap"))) as Hr.
  { set (n := Z.to_nat MAX_HEADER_BYTES). assert (length (header_line header body) = n) as Hlen by lia. clearbody n. clear -Hs Hn Hlen.
    revert n s Hs Hlen. induction (header_line header body) as [|c l IH]; intros n s Hs Hlen; subst n; cbn [length recv_line].
    - by destruct (recv_one s 10 (body ++ rest) Hs) as (s' & -> & _).
    - destruct (recv_one s c _ Hs) as (s' & -> & Hs'). rewrite bool_decide_eq_false_2 by (intros [= ->]; apply Hn; by left).
      specialize (IH ltac:(intros H; apply Hn; by right) _ s' Hs' eq_refl). destruct (recv_line (length l) s') as [r s2]. cbn [fst] in IH. by subst r. }
  destruct (recv_line _ s) as [r s1]. cbn [fst] in Hr. by subst r.
Qed.

(** ** Samples *)
Definition sample_header : dict value := [(u "cap", vs "t"); (u "path", VStr [0xE9; 0x1F600]); (u "headers", VList [VList [vs "Accept"; vs "*/*"]])].
(** The frame in pieces of one, two, three bytes, and so on. *)
Fixpoint pieces (n : nat) (size : nat) (b : list Z) : list Piece :=
  match n with O => [Bytes b] | S n' => Bytes (take size b) :: pieces n' (S size) (drop size b) end.

Example frames : (recv_frame (pieces 20 0 (or_else (match send_frame sample_header [1; 10; 255] with Ok f => Some f | _ => None end) []))).1
    = Ok (payload_of sample_header [1; 10; 255], [1; 10; 255])
  /\ (recv_frame [Bytes [123; 125]; Breaks (u "TimeoutError")]).1 = Raise (OSError (u "TimeoutError"))
  /\ (recv_frame [Bytes [123; 125; 10]]).1 = Raise (ProtocolError (u "not a v1 frame header"))
  /\ (recv_frame [Bytes [123]; Bytes [10]]).1 = Raise JSON_DECODE_ERROR.
Proof. vm_compute. done. Qed.

Lemma frame_roundtrip_witness :
  exists frame s', send_frame sample_header [1; 2] = Ok frame /\
    recv_frame (pieces 9 3 frame) = (Ok (payload_of sample_header [1; 2], [1; 2]), s') /\ stream s' = [].
Proof.
  destruct (send_frame sample_header [1; 2]) as [frame|] eqn:E; [|by vm_compute in E].
  destruct (frame_roundtrip sample_header [1; 2] frame (pieces 9 3 frame) []) as [[_ (s' & H & Hs)]|[H _]].
  - vm_compute. reflexivity.
  - exact E.
  - injection E as <-. vm_compute. reflexivity.
  - exists frame, s'. split; [done|]. split; [exact H|exact Hs].
  - vm_compute in H. discriminate H.
Defined.
