(* ===== verification/Broker.v ===== *)
(** * The confined agent's broker and its shim

    Models [evals/confinement/broker.py], the one process that holds the credentials, and
    [evals/confinement/shim.py], the forwarder inside the agent's container: the configuration and its
    credential files, capability grants, the allowlist, what is stripped from a request and injected into
    it, the redaction of a response, the receipt, and the two ends of a connection.  The file system, the
    clock, SHA-256, the network behind the broker, [str.upper], and [str] and [int] of values that are
    no text and no int are parameters.  The threads that serve connections share nothing that changes. *)
From S2P Require Import Prelude Float64 Json PyStrings JsonText Utf8 Frames.
From S2P Require Redact KeyFile InstallRedact.
Open Scope Z_scope.

Definition REDACTED : list Z := u "[REDACTED]".

(** [HOP]. *)
Definition HOP : list text := HOP_BY_HOP_HEADERS ++ [u "content-length"; u "host"].

(** An entry of the configuration's [upstreams], and what [Broker.__init__] makes of it. *)
Record Entry := {
  e_scheme : option text; e_host : text; e_port : option Z; e_methods : list text; e_paths : list text; e_credential_file : text;
  e_credential_header : option text; e_credential_scheme : option text; e_base_path : option text }.
Record Upstream := {
  methods : list text; paths : list text; credential : text; credential_header : text; credential_scheme : text; base_path : text }.
Record Destination := { d_scheme : text; d_host : text; d_port : Z }.
#[export] Instance Destination_eq_dec : EqDecision Destination.
Proof. solve_decision. Defined.
Record Broker := { grants_dir : text; upstreams : list (Destination * Upstream) }.

(** Every credential that was loaded, as bytes. *)
Definition credentials (b : Broker) : list (list Z) := (fun e => encode (credential e.2)) <$> upstreams b.

Fixpoint lookup (key : Destination) (l : list (Destination * Upstream)) : option Upstream :=
  match l with [] => None | (k, up) :: l' => if bool_decide (k = key) then Some up else lookup key l' end.

(** [SystemExit], or an error that ends the process. *)
Inductive Exit := SystemExit (message : text) | Crash (type_name : text).

(** What crosses to the network, and what comes back. *)
Record Request := { r_https : bool; r_host : text; r_port : Z; r_method : text; r_path : text; r_headers : dict text; r_body : list Z }.
Record Response := { status : Z; headers : list (text * text); content : list Z }.

(** How a request to the network fails: with an [OSError], or with another error of [http.client]. *)
Inductive NetError := Unreachable (type_name : text) | Unusable (type_name : text).

(** What one connection did: the request that left, the frame that went back, the receipt, and an error
    that no handler took. *)
Record Outcome := { sent : option Request; reply : option (list Z); receipt : dict value; escaped : option Fault }.

Definition fault_name (e : Fault) : text :=
  match e with Refused _ _ => u "Refused" | ProtocolError _ => u "ProtocolError" | OSError n | ValueError n | OtherError n => n end.

(** [t.encode("utf-8")]. *)
Definition encode_strict (t : text) : result Fault (list Z) :=
  if scalar_text t then Ok (encode t) else Raise (ValueError (u "UnicodeEncodeError")).

(** [os.path.join(directory, name)] of a plain name. *)
Definition join_dir (directory name : text) : text :=
  match directory with [] => name | _ => if ends_with [47] directory then directory ++ name else directory ++ [47] ++ name end.

(** [hmac.compare_digest] of two texts. *)
Definition compare_digest (a b : text) : result Fault bool :=
  if forallb is_ascii a && forallb is_ascii b then Ok (bool_decide (a = b)) else Raise (OtherError (u "TypeError")).

(** The items of [for ... in v]. *)
Definition iterate (v : value) : result Fault (list value) :=
  match v with
  | VList l => Ok l
  | VStr t => Ok ((fun c => VStr [c]) <$> t)
  | VDict d => Ok (VStr <$> dkeys d)
  | _ => Raise (OtherError (u "TypeError"))
  end.
(** [name, value = item]. *)
Definition unpack (v : value) : result Fault (value * value) :=
  let? items := iterate v in match items with [a; b] => Ok (a, b) | _ => Raise (ValueError (u "ValueError")) end.

Fixpoint all_ok {A B} (f : A -> result Fault B) (l : list A) : result Fault (list B) :=
  match l with [] => Ok [] | x :: l' => let? y := f x in let? ys := all_ok f l' in Ok (y :: ys) end.

Section Broker.
Context {U : Unicode} (upper : text -> text) (py_str : value -> text) (py_int : value -> result Fault Z) (sha256 : list Z -> text).
Context (read_file : text -> result text (list Z)).

Definition str_of (v : value) : text := match v with VStr t => t | v => py_str v end.
Definition int_of (v : value) : result Fault Z := match v with VInt n => Ok n | VBool b => Ok (Z.b2z b) | v => py_int v end.

(** ** The configuration *)
Definition read_credential (path : text) : result Exit text :=
  match read_file path with
  | Raise e => Raise (Crash e)
  | Ok data =>
    match KeyFile.decode_utf8_sig data with
    | None => Raise (Crash (u "UnicodeDecodeError"))
    | Some t => match strip (universal_newlines t) with [] => Raise (SystemExit (u "credential file " ++ path ++ u " is empty")) | value => Ok value end
    end
  end.

(** The message of a duplicate goes on with its key. *)
Fixpoint load_upstreams (loaded : list (Destination * Upstream)) (entries : list Entry) : result Exit (list (Destination * Upstream)) :=
  match entries with
  | [] => Ok loaded
  | e :: entries' =>
    let key := {| d_scheme := uni_lower (or_else (e_scheme e) (u "https")); d_host := uni_lower (e_host e); d_port := or_else (e_port e) 443 |} in
    if negb (is_none (lookup key loaded)) then Raise (SystemExit (u "duplicate upstream"))
    else
      let? value := read_credential (e_credential_file e) in
      load_upstreams (loaded ++ [(key,
        {| methods := e_methods e; paths := e_paths e; credential := value; credential_header := or_else (e_credential_header e) (u "Authorization");
           credential_scheme := or_else (e_credential_scheme e) (u "Bearer "); base_path := or_else (e_base_path e) [] |})]) entries'
  end.
Definition load_broker (grants : text) (entries : list Entry) : result Exit Broker :=
  let? loaded := load_upstreams [] entries in Ok {| grants_dir := grants; upstreams := loaded |}.

(** ** Capability grants *)
Definition sha256_hex (t : text) : result Fault text := let? data := encode_strict t in Ok (sha256 data).
Definition cap_id (token : text) : result Fault text := let? hex := sha256_hex token in Ok (take 8 hex).

Definition UNKNOWN : Fault := Refused (u "capability") (u "capability not recognized").

Definition grant_for (b : Broker) (token : text) : result Fault (dict value) :=
  let? hex := sha256_hex token in
  match read_file (join_dir (grants_dir b) (hex ++ u ".json")) with
  | Raise _ => Raise UNKNOWN
  | Ok data =>
    match decode data with
    | None => Raise UNICODE_DECODE_ERROR
    | Some t =>
      match loads (universal_newlines t) with
      | Ok (VDict grant) =>
        let? same := compare_digest (str_of (get (u "token") grant)) token in
        if same : bool then Ok grant else Raise UNKNOWN
      | Ok _ => Raise UNKNOWN
      | Raise (ValueError n) => if bool_decide (n = u "JSONDecodeError") then Raise UNKNOWN else Raise (ValueError n)
      | Raise e => Raise e
      end
    end
  end.

(** [float(expires)]. *)
Definition expiry (v : value) : option (result Fault float) :=
  match v with
  | VInt n => Some (match float_of_int n with Some f => Ok f | None => Raise (OtherError (u "OverflowError")) end)
  | VBool b => Some (Ok (f_of_Z (Z.b2z b)))
  | VFloat f => Some (Ok f)
  | _ => None
  end.
Definition EXPIRED : Fault := Refused (u "capability") (u "capability expired").

Definition check_capability (b : Broker) (token : text) (now : float) : result Fault (dict value) :=
  let? grant := grant_for b token in
  match expiry (get (u "expires") grant) with
  | None => Raise EXPIRED
  | Some expires => let? expires := expires in if fltb expires now then Raise EXPIRED else Ok grant
  end.

(** ** The allowlist *)
Definition match_upstream (b : Broker) (scheme host : text) (port : Z) : result Fault Upstream :=
  match lookup {| d_scheme := uni_lower scheme; d_host := uni_lower host; d_port := port |} (upstreams b) with
  | Some up => Ok up
  | None => Raise (Refused (u "allowlist") (u "destination " ++ scheme ++ u "://" ++ host ++ u ":" ++ str_of_Z port ++ u " is not allowlisted"))
  end.

Definition MARKERS : list text := [u "://"; u ".."; u "@"; u "%2f"; u "%2e"; [92]; u " "].
Definition origin_form (path : text) : bool :=
  starts_with (u "/") path && negb (starts_with (u "//") path) && negb (existsb (fun m => Redact.contains m (uni_lower path)) MARKERS).

Definition check_allowlist (b : Broker) (method scheme host : text) (port : Z) (path : text) : result Fault Upstream :=
  let? up := match_upstream b scheme host port in
  if negb (mem (upper method) (upper <$> methods up)) then Raise (Refused (u "allowlist") (u "method " ++ upper method ++ u " is not allowlisted"))
  else if negb (origin_form path) then Raise (Refused (u "allowlist") (u "path " ++ take 120 path ++ u " is not origin-form"))
  else if negb (mem path (paths up)) then Raise (Refused (u "allowlist") (u "path " ++ path ++ u " is not allowlisted"))
  else Ok up.

(** ** Forwarding *)
Definition crosses (name : text) : bool :=
  let lowered := uni_lower name in
  negb (mem lowered CREDENTIAL_REQUEST_HEADERS || mem lowered HOP || mem lowered METHOD_OVERRIDE_HEADERS || bool_decide (lowered = u "accept-encoding")).
Definition strip_headers (hs : list (text * text)) : list (text * text) :=
  List.filter (fun h => crosses h.1) hs ++ [(u "Accept-Encoding", u "identity")].

(** [_redact]: each secret in the body, then in the values of the headers. *)
Definition redact_bytes (secret data : list Z) : list Z :=
  if negb (bool_decide (secret = [])) && Redact.contains secret data then replace secret REDACTED data else data.
Definition redact_value (secret : list Z) (v : text) : result Fault text :=
  if bool_decide (secret = []) then Ok v
  else let? data := encode_strict v in Ok (if Redact.contains secret data then decode_replace (replace secret REDACTED data) else v).
Definition redact_header (secret : list Z) (h : text * text) : result Fault (text * text) := let? v := redact_value secret h.2 in Ok (h.1, v).

Fixpoint redact_response (secrets : list (list Z)) (body : list Z) (hs : list (text * text)) : result Fault (list Z * list (text * text)) :=
  match secrets with
  | [] => Ok (body, hs)
  | secret :: secrets' => let? hs := all_ok (redact_header secret) hs in redact_response secrets' (redact_bytes secret body) hs
  end.

(** [response.getheader("Content-Encoding")]. *)
Definition content_encoding (hs : list (text * text)) : option text :=
  match List.filter (fun h => bool_decide (uni_lower h.1 = u "content-encoding")) hs with [] => None | found => Some (join (u ", ") found.*2) end.

Context (network : Request -> result NetError Response).

Definition request_of (up : Upstream) (method scheme host : text) (port : Z) (path : text) (hs : list (text * text)) (body : list Z) : Request :=
  {| r_https := bool_decide (uni_lower scheme = u "https"); r_host := host; r_port := port; r_method := upper method; r_path := base_path up ++ path;
     r_headers := fold_left (fun d h => dset h.1 h.2 d) (strip_headers hs ++ [(credential_header up, credential_scheme up ++ credential up)]) []; r_body := body |}.

(** What comes back of a response. *)
Definition received (b : Broker) (response : Response) : result Fault (Z * list (text * text) * list Z) :=
  let encoding := or_else (content_encoding (headers response)) [] in
  if negb (bool_decide (encoding = [])) && negb (mem (uni_lower (strip encoding)) [u "identity"; []])
  then Raise (Refused (u "upstream") (u "upstream returned " ++ strip encoding ++ u " content encoding"))
  else
    let raw := take (Z.to_nat (MAX_BODY_BYTES + 1)) (content response) in
    if MAX_BODY_BYTES <? Z.of_nat (length raw) then Raise (Refused (u "upstream") (u "upstream response exceeds the protocol cap"))
    else
      let? (body, hs) := redact_response (credentials b) raw (List.filter (fun h => negb (mem (uni_lower h.1) HOP)) (headers response)) in
      Ok (status response, hs, body).

Definition forward (b : Broker) (method scheme host : text) (port : Z) (path : text) (hs : list (text * text)) (body : list Z)
  : option Request * result Fault (Z * list (text * text) * list Z) :=
  match check_allowlist b method scheme host port path with
  | Raise e => (None, Raise e)
  | Ok up =>
    let request := request_of up method scheme host port path hs body in
    (Some request,
     match network request with
     | Ok response => received b response
     | Raise (Unreachable n) => Raise (Refused (u "upstream") (u "upstream unreachable: " ++ n))
     | Raise (Unusable n) => Raise (OtherError n)
     end)
  end.

(** ** Serving *)
(** [now] is read twice: for the receipt's [ts], already rounded, and for the capability; [gone] is the
    error of a write to a client that left. *)
Context (now : float) (ts : value) (gone : option text).

Definition pairs_of (v : value) : result Fault (list (text * text)) :=
  let? items := iterate v in all_ok (fun item => let? (n, value) := unpack item in Ok (str_of n, str_of value)) items.

Definition text_field (key : text) (default : text) (header : dict value) : text := str_of (or_else (dget key header) (VStr default)).

(** The receipt so far. *)
Definition receipt_of (header : dict value) : result Fault (dict value) :=
  let token := text_field (u "cap") [] header in
  let? cap := match token with [] => Ok (u "-") | _ => cap_id token end in
  Ok [(u "ts", ts); (u "cap", VStr cap); (u "method", VStr (text_field (u "method") [] header)); (u "host", VStr (text_field (u "host") [] header));
      (u "path", VStr (take 200 (text_field (u "path") [] header)))].

(** What the frame asks for, checked and forwarded. *)
Definition serve (b : Broker) (header : dict value) (body : list Z) : option Request * result Fault (Z * list (text * text) * list Z) :=
  match check_capability b (text_field (u "cap") [] header) now with
  | Raise e => (None, Raise e)
  | Ok _ =>
    match int_of (or_else (dget (u "port") header) (VInt 443)), pairs_of (or_else (dget (u "headers") header) (VList [])) with
    | Raise e, _ | _, Raise e => (None, Raise e)
    | Ok port, Ok hs =>
      forward b (text_field (u "method") [] header) (text_field (u "scheme") (u "https") header) (text_field (u "host") [] header) port
        (text_field (u "path") (u "/") header) hs body
    end
  end.

Definition pair_value (h : text * text) : value := VList [VStr h.1; VStr h.2].

(** [send_frame] to the client: an [OSError] of the socket, or the frame. *)
Definition send (header : dict value) (body : list Z) : result Fault (list Z) :=
  let? frame := send_frame header body in match gone with Some e => Raise (OSError e) | None => Ok frame end.

Definition internal (request : option Request) (receipt : dict value) (e : Fault) : Outcome :=
  {| sent := request; reply := None; escaped := None;
     receipt := dset (u "detail") (VStr (fault_name e)) (dset (u "refused") (VStr (u "internal")) receipt) |}.
Definition malformed (request : option Request) (cap : value) (message : text) : Outcome :=
  {| sent := request; reply := None; escaped := None;
     receipt := [(u "ts", ts); (u "cap", cap); (u "refused", VStr (u "protocol")); (u "detail", VStr message)] |}.

Definition handle (b : Broker) (s : list Piece) : Outcome :=
  match (recv_frame s).1 with
  | Raise (ProtocolError m) => malformed None (VStr (u "-")) m
  | Raise e => internal None [] e
  | Ok (header, body) =>
    match receipt_of header with
    | Raise e => internal None [] e
    | Ok receipt =>
      let '(request, served) := serve b header body in
      match served with
      | Ok (status, hs, out) =>
        let receipt := dset (u "resp_bytes") (VInt (Z.of_nat (length out))) (dset (u "status") (VInt status) receipt) in
        match send [(u "status", VInt status); (u "headers", VList (pair_value <$> hs))] out with
        | Ok frame => {| sent := request; reply := Some frame; receipt := receipt; escaped := None |}
        | Raise (ProtocolError m) => malformed request (get (u "cap") receipt) m
        | Raise e => internal request receipt e
        end
      | Raise (Refused kind detail) =>
        let receipt := dset (u "detail") (VStr detail) (dset (u "refused") (VStr kind) receipt) in
        match send [(u "error", VStr kind); (u "detail", VStr detail)] [] with
        | Ok frame => {| sent := request; reply := Some frame; receipt := receipt; escaped := None |}
        | Raise (OSError _) => {| sent := request; reply := None; receipt := receipt; escaped := None |}
        | Raise e => {| sent := request; reply := None; receipt := receipt; escaped := Some e |}
        end
      | Raise (ProtocolError m) => malformed request (get (u "cap") receipt) m
      | Raise e => internal request receipt e
      end
    end
  end.

(** ** The shim *)
(** A request as the HTTP server of the standard library hands it over, [rfile] being what the client sent
    behind the headers. *)
Record Client := { command : text; url : text; client_headers : list (text * text); rfile : list Z }.
(** What the shim answers, but for the headers the server adds to every answer. *)
Record Answer := { code : Z; answer_headers : list (text * text); answer : list Z }.

Definition ERROR_STATUS : dict Z := [(u "capability", 403); (u "allowlist", 403); (u "upstream", 502); (u "protocol", 400); (u "internal", 500)].

Definition forwarded_header (h : text * text) : bool :=
  let lowered := uni_lower h.1 in
  negb (mem lowered CREDENTIAL_REQUEST_HEADERS) && negb (mem lowered HOP_BY_HOP_HEADERS) && negb (mem lowered METHOD_OVERRIDE_HEADERS)
    && negb (bool_decide (lowered = u "host")).

(** [rfile.read(declared)]: a negative count reads to the end. *)
Definition read_body (declared : Z) (data : list Z) : list Z := if declared <? 0 then data else take (Z.to_nat declared) data.

Definition fail (status : Z) (detail : text) : Answer :=
  let payload := encode (InstallRedact.dumps_default (VDict [(u "error", vs "broker"); (u "detail", VStr detail)])) in
  {| code := status; answer := payload;
     answer_headers := [(u "Content-Type", u "application/json"); (u "Content-Length", str_of_Z (Z.of_nat (length payload)))] |}.

Definition content_length (c : Client) : result Fault Z :=
  match List.find (fun h => bool_decide (uni_lower h.1 = u "content-length")) (client_headers c) with
  | None | Some (_, []) => Ok 0
  | Some (_, v) => py_int (VStr v)
  end.

(** [_capability]: the token of the run's grant file; a file that holds no object is an [AttributeError]. *)
Definition capability (cap_path : text) : result Fault text :=
  match read_file cap_path with
  | Raise e => Raise (OSError e)
  | Ok data =>
    match decode data with
    | None => Raise UNICODE_DECODE_ERROR
    | Some t =>
      let? loaded := loads (universal_newlines t) in
      match loaded with VDict d => Ok (text_field (u "token") [] d) | _ => Raise (OtherError (u "AttributeError")) end
    end
  end.

Definition frame_header (token scheme host : text) (port : Z) (c : Client) : dict value :=
  [(u "cap", VStr token); (u "method", VStr (command c)); (u "scheme", VStr scheme); (u "host", VStr host); (u "port", VInt port);
   (u "path", VStr (url c)); (u "headers", VList (pair_value <$> List.filter forwarded_header (client_headers c)))].

(** The header and body the broker answered, or the answer the shim gives itself; [connect] is the
    connection to the broker: what comes back for the bytes that are written. *)
Definition ask_broker (upstream : text * text * Z) (cap_path : text) (connect : result text (list Z -> list Piece)) (c : Client)
  : result Fault (Answer + dict value * list Z) :=
  let? declared := content_length c in
  let oversized := Ok (inl (fail 413 (u "request body exceeds the cap"))) in
  if MAX_BODY_BYTES <? declared then oversized
  else
    let body := if bool_decide (command c = u "POST") then read_body declared (rfile c) else [] in
    if MAX_BODY_BYTES <? Z.of_nat (length body) then oversized
    else
      let '(scheme, host, port) := upstream in
      match connect with
      | Raise e => Raise (OSError e)
      | Ok exchange =>
        let? token := capability cap_path in
        let? frame := send_frame (frame_header token scheme host port c) body in
        let? answered := (recv_frame (exchange frame)).1 in Ok (inr answered)
      end.

(** [_forward]: an answer to the client, or an error no handler takes. *)
Definition shim (upstream : text * text * Z) (cap_path : text) (connect : result text (list Z -> list Piece)) (c : Client) : result Fault Answer :=
  match ask_broker upstream cap_path connect c with
  | Raise ((OSError _ | ProtocolError _ | ValueError _) as e) => Ok (fail 502 (u "broker unreachable: " ++ fault_name e))
  | Raise e => Raise e
  | Ok (inl a) => Ok a
  | Ok (inr (header, body)) =>
    match dget (u "error") header with
    | Some error => Ok (fail (or_else (dget (str_of error) ERROR_STATUS) 502) (text_field (u "detail") (u "refused") header))
    | None =>
      let? status := int_of (or_else (dget (u "status") header) (VInt 502)) in
      let? pairs := pairs_of (or_else (dget (u "headers") header) (VList [])) in
      Ok {| code := status; answer := body;
            answer_headers := List.filter (fun h => negb (mem (uni_lower h.1) HOP_BY_HOP_HEADERS || bool_decide (uni_lower h.1 = u "content-length"))) pairs
              ++ [(u "Content-Length", str_of_Z (Z.of_nat (length body)))] |}
    end
  end.

(** The upstream the command line names; the message of [SystemExit] goes on with the text. *)
Definition parse_upstream (t : text) : result Exit (text * text * Z) :=
  match split_once (u "://") t with
  | None | Some (_, []) => Raise (SystemExit (u "--upstream must be scheme://host:port"))
  | Some (scheme, rest) =>
    let '(host, port) := or_else (split_once (u ":") rest) (rest, []) in
    let scheme := match scheme with [] => u "https" | _ => scheme end in
    match port with
    | [] => Ok (scheme, host, 443)
    | _ => match py_int (VStr port) with Ok n => Ok (scheme, host, n) | Raise e => Raise (Crash (fault_name e)) end
    end
  end.
End Broker.

(** ** Facts: replacing in encoded text *)
Notation scalars t := (Forall (fun c => is_scalar c = true) t).

Lemma scalar_text_spec t : scalar_text t = true <-> scalars t.
Proof. unfold scalar_text. rewrite forallb_forall, Forall_forall. by setoid_rewrite list_elem_of_In. Qed.

Lemma encode_app a b : encode (a ++ b) = encode a ++ encode b.
Proof. apply flat_map_app. Qed.

Lemma encode_cons c t : encode (c :: t) = encode_one c ++ encode t.
Proof. done. Qed.

(** A character is a byte that continues nothing, and bytes that continue it. *)
Lemma encode_one_shape c : is_scalar c = true -> exists b bs, encode_one c = b :: bs /\ is_cont b = false /\ Forall (fun k => is_cont k = true) bs.
Proof.
  intros [Hr _]%scalar_range. unfold encode_one.
  assert (forall x, is_cont (0x80 + x mod 64) = true) as Hc by (intros x; pose proof (Z.mod_pos_bound x 64 ltac:(lia)); unfold is_cont; lia).
  destruct (c <? 0x80) eqn:E1; [exists c, []; split_and!; [done|unfold is_cont; lia|done]|].
  pose proof (Z.div_pos c 64 ltac:(lia) ltac:(lia)). pose proof (Z.div_pos c 4096 ltac:(lia) ltac:(lia)). pose proof (Z.div_pos c 262144 ltac:(lia) ltac:(lia)).
  destruct (c <? 0x800) eqn:E2; [|destruct (c <? 0x10000) eqn:E3]; eexists _, _; (split_and!; [done|unfold is_cont; lia|by repeat constructor]).
Qed.

Lemma decoded_encode_app s bs : scalars s -> decoded (encode s ++ bs) = (Some <$> s) ++ decoded bs.
Proof.
  induction 1 as [|c t Hc _ IH]; [done|]. rewrite encode_cons. destruct (encode_one_cons c) as (b & k & E). rewrite E, <- app_assoc. cbn [app]. rewrite decoded_cons.
  rewrite (decode_one_encode c _ b k Hc E). cbn [fst snd]. by rewrite drop_app_length, IH.
Qed.

Lemma starts_with_encode s t : scalars s -> scalars t -> starts_with (encode s) (encode t) = starts_with s t.
Proof.
  intros Hs Ht. destruct (starts_with s t) eqn:E.
  - apply starts_with_spec in E as [rest ->]. rewrite encode_app. apply starts_with_spec. by eexists.
  - apply not_true_iff_false. intros H. apply starts_with_spec in H as [rest H]. apply (f_equal decoded) in H.
    rewrite decoded_encode, decoded_encode_app in H by done. apply not_true_iff_false in E. apply E, starts_with_spec. clear E.
    clear Hs Ht. revert t H. induction s as [|c s IH]; intros t H; [by exists t|]. destruct t as [|d t]; [done|]. cbn in H. injection H as -> H.
    destruct (IH t H) as [rest' ->]. by exists rest'.
Qed.

Lemma replace_continuation needle by_ bs l : (forall b r, needle = b :: r -> is_cont b = false) -> needle <> [] -> Forall (fun k => is_cont k = true) bs ->
  replace needle by_ (bs ++ l) = bs ++ replace needle by_ l.
Proof.
  intros Hh Hne. induction 1 as [|k bs Hk _ IH]; [done|]. cbn [app]. rewrite replace_step; [by rewrite IH|].
  destruct needle as [|b r]; [done|]. cbn [starts_with]. specialize (Hh b r eq_refl). destruct (b =? k) eqn:E; [|done]. apply Z.eqb_eq in E as ->. congruence.
Qed.

Lemma encode_nonempty s : s <> [] -> encode s <> [].
Proof. destruct s as [|c s]; [done|]. rewrite encode_cons. by destruct (encode_one_cons c) as (b & bs & ->). Qed.

Lemma encode_head s : scalars s -> forall b r, encode s = b :: r -> is_cont b = false.
Proof.
  intros [|c s' Hc _] b r E; [done|]. rewrite encode_cons in E. destruct (encode_one_shape c Hc) as (b' & bs & Eb & H & _).
  rewrite Eb in E. by injection E as <- _.
Qed.

(** Replacing in the bytes is replacing in the text. *)
Lemma replace_encode s t : s <> [] -> scalars s -> scalars t -> replace (encode s) REDACTED (encode t) = encode (replace s REDACTED t).
Proof.
  intros Hne Hs. revert t. apply (replace_induction s REDACTED (fun t out => scalars t -> replace (encode s) REDACTED (encode t) = encode out) Hne); [done| |].
  - intros rest out IH Ht. apply Forall_app in Ht as [_ Ht]. rewrite encode_app, replace_match by by apply encode_nonempty. rewrite IH by done.
    by rewrite encode_app.
  - intros c t out E IH Ht. rewrite <- (starts_with_encode s (c :: t) Hs Ht) in E. inversion Ht as [|? ? Hc Ht']; subst.
    rewrite encode_cons in *. destruct (encode_one_shape c Hc) as (b & bs & Eb & _ & Hbs). rewrite encode_cons, Eb in *. cbn [app] in *.
    rewrite replace_step by done. rewrite replace_continuation; [by rewrite IH|by apply encode_head|by apply encode_nonempty|done].
Qed.

Lemma replace_scalars s t : s <> [] -> scalars t -> scalars (replace s REDACTED t).
Proof.
  intros Hne. revert t. apply (replace_induction s REDACTED (fun t out => scalars t -> scalars out) Hne); [done| |].
  - intros rest out IH [_ Ht]%Forall_app. apply Forall_app. split; [apply scalar_text_spec; by vm_compute|by apply IH].
  - intros c t out _ IH Ht. inversion Ht; subst. constructor; [done|by apply IH].
Qed.

Lemma occurs_encode s t : Redact.occurs s t -> Redact.occurs (encode s) (encode t).
Proof. intros (pre & post & ->). rewrite !encode_app. by eexists _, _. Qed.

(** A value goes back with the secret replaced. *)
Lemma redact_value_text s v v' : s <> [] -> scalars s -> redact_value (encode s) v = Ok v' -> scalars v /\ v' = replace s REDACTED v.
Proof.
  intros Hne Hs. unfold redact_value. rewrite bool_decide_eq_false_2 by by apply encode_nonempty. unfold encode_strict.
  destruct (scalar_text v) eqn:Ev; [|done]. apply scalar_text_spec in Ev. cbn [rbind]. intros [= <-]. split; [done|].
  destruct (Redact.contains (encode s) (encode v)) eqn:Ec.
  - rewrite replace_encode by done. apply decode_replace_of_decode, decode_encode. by apply replace_scalars.
  - symmetry. apply Redact.replace_absent. intros Ho%occurs_encode. apply Redact.contains_spec in Ho. congruence.
Qed.

(** ** Facts: what goes back *)
(** A credential the marker cannot spell, as text and as bytes. *)
Definition hideable (c : text) : Prop :=
  c <> [] /\ scalars c /\ Redact.unspelled (u "REDACTED") c /\ Redact.unspelled (u "REDACTED") (encode c).

Lemma redact_bytes_replace s data : s <> [] -> redact_bytes s data = replace s REDACTED data.
Proof.
  intros Hne. unfold redact_bytes. rewrite bool_decide_eq_false_2 by done. cbn [negb andb]. destruct (Redact.contains s data) eqn:E; [done|].
  symmetry. apply Redact.replace_absent. intros H%Redact.contains_spec. congruence.
Qed.

Lemma marker_bytes : REDACTED = Redact.marker (u "REDACTED").
Proof. done. Qed.

Lemma all_ok_Forall2 {A B} (f : A -> result Fault B) l l' : all_ok f l = Ok l' -> Forall2 (fun x y => f x = Ok y) l l'.
Proof.
  revert l'. induction l as [|x l IH]; intros l'; cbn [all_ok]; [by intros [= <-]|].
  destruct (f x) as [y|] eqn:E; [|done]. cbn [rbind]. destruct (all_ok f l) as [ys|]; [|done]. intros [= <-]. constructor; [done|by apply IH].
Qed.

(** After the redaction, no credential in the body and none in a header's value; what was not there before
    is not there after, whatever was replaced. *)
Lemma redact_response_clean creds : Forall hideable creds -> forall body hs body' hs',
  redact_response (encode <$> creds) body hs = Ok (body', hs') ->
  (forall c, hideable c -> c ∈ creds \/ ~ Redact.occurs (encode c) body -> ~ Redact.occurs (encode c) body') /\
  (forall c, hideable c -> c ∈ creds \/ Forall (fun h => ~ Redact.occurs c h.2) hs -> Forall (fun h => ~ Redact.occurs c h.2) hs').
Proof.
  induction 1 as [|c creds (Hne & Hsc & Hu & Hub) Hcs IH]; intros body hs body' hs'; cbn [fmap list_fmap redact_response].
  - intros [= <- <-]. split; intros c _ [H|H]; try done; by apply elem_of_nil in H.
  - destruct (all_ok _ hs) as [hs1|] eqn:E; [|done]. cbn [rbind]. intros [IHb IHh]%IH. rewrite redact_bytes_replace in IHb by by apply encode_nonempty.
    split; intros d Hd H.
    + apply IHb; [done|]. destruct (decide (d ∈ creds)) as [|Hn]; [by left|right]. rewrite marker_bytes.
      destruct (decide (d = c)) as [->|Hdc]; [by apply Redact.replace_removes; [apply encode_nonempty|]|].
      intros Ho%Redact.replace_occurs; [|by apply encode_nonempty|by destruct Hd as (_ & _ & _ & ?)]. destruct H as [H|H]; [|done].
      apply elem_of_cons in H as [->|H]; done.
    + apply IHh; [done|]. destruct (decide (d ∈ creds)) as [|Hn]; [by left|right]. apply all_ok_Forall2 in E.
      assert (d = c \/ Forall (fun h => ~ Redact.occurs d h.2) hs) as Hd'.
      { destruct H as [[->|H]%elem_of_cons|H]; [by left|done|by right]. }
      clear -E Hne Hsc Hu Hub Hd Hd'. induction E as [|[n v] [n' v'] hs hs1 Ev _ IHE]; [constructor|]. constructor.
      * unfold redact_header in Ev. cbn [fst snd] in Ev. destruct (redact_value (encode c) v) as [v1|] eqn:E1; [|done]. cbn [rbind] in Ev. injection Ev as <- <-.
        apply redact_value_text in E1 as [_ ->]; [|done|done]. cbn [snd]. rewrite marker_bytes.
        destruct (decide (d = c)) as [->|Hdc]; [by apply Redact.replace_removes|]. destruct Hd' as [->|Hd']; [done|]. apply Forall_cons in Hd' as [Hv _].
        intros Ho%Redact.replace_occurs; [by apply Hv|done|by destruct Hd as (_ & _ & ? & _)].
      * apply IHE. destruct Hd' as [->|Hd']; [by left|right]. by apply Forall_cons in Hd' as [_ ?].
Qed.

(** ** Facts: the guard *)
Section Facts.
Context {U : Unicode} (upper : text -> text) (py_str : value -> text) (py_int : value -> result Fault Z) (sha256 : list Z -> text).
Context (read_file : text -> result text (list Z)) (network : Request -> result NetError Response) (now : float) (ts : value) (gone : option text).
Notation handled := (handle upper py_str py_int sha256 read_file network now ts gone).
Notation served := (serve upper py_str py_int sha256 read_file network now).
Notation text_of := (str_of py_str).
Notation the_field := (text_field py_str).

(** A grant for the token that is not expired, in the file named after its hash. *)
Definition live_grant (b : Broker) (token : text) : Prop :=
  exists data t grant expires,
    read_file (join_dir (grants_dir b) (sha256 (encode token) ++ u ".json")) = Ok data /\ decode data = Some t /\
    json_loads (universal_newlines t) = Ok (VDict grant) /\ text_of (get (u "token") grant) = token /\
    expiry (get (u "expires") grant) = Some (Ok expires) /\ fltb expires now = false.

Lemma check_capability_live b token grant : check_capability py_str sha256 read_file b token now = Ok grant -> live_grant b token.
Proof.
  unfold check_capability, grant_for, sha256_hex, encode_strict, live_grant. destruct (scalar_text token); [|done]. cbn [rbind].
  destruct (read_file _) as [data|] eqn:Ef; [|done]. destruct (decode data) as [t|] eqn:Et; [|done]. unfold loads.
  unfold JSON_DECODE_ERROR.
  destruct (json_loads _) as [v|[m| |]] eqn:Ej; [|intros H; by case_bool_decide..]. destruct v as [| | | | | |d]; try done.
  unfold compare_digest. destruct (_ && _); [|done]. cbn [rbind]. case_bool_decide as Ed; [|done]. cbn [rbind].
  destruct (expiry _) as [[x|e]|] eqn:Ex; [|done..]. cbn [rbind]. destruct (fltb x now) eqn:El; [done|]. intros _. by exists data, t, d, x.
Qed.

Lemma lookup_elem key l up : lookup key l = Some up -> (key, up) ∈ l.
Proof. induction l as [|[k v] l IH]; [done|]. cbn [lookup]. case_bool_decide as E; [intros [= ->]; subst; by left|intros H%IH; by right]. Qed.

Lemma allowlisted b method scheme host port path up : check_allowlist upper b method scheme host port path = Ok up ->
  ({| d_scheme := uni_lower scheme; d_host := uni_lower host; d_port := port |}, up) ∈ upstreams b /\
  upper method ∈ upper <$> methods up /\ origin_form path = true /\ path ∈ paths up.
Proof.
  unfold check_allowlist, match_upstream. destruct (lookup _ _) as [up'|] eqn:El; [|done]. cbn [rbind].
  destruct (mem (upper method) _) eqn:Em; [|done]. cbn [negb]. destruct (origin_form path) eqn:Eo; [|done]. cbn [negb].
  destruct (mem path _) eqn:Ep; [|done]. cbn [negb]. intros [= <-]. apply lookup_elem in El. apply mem_spec in Em, Ep. done.
Qed.

(** What a request that leaves was made of. *)
Lemma serve_sent b header body r : (served b header body).1 = Some r ->
  exists port hs up, live_grant b (the_field (u "cap") [] header) /\ pairs_of py_str (or_else (dget (u "headers") header) (VList [])) = Ok hs /\
    int_of py_int (or_else (dget (u "port") header) (VInt 443)) = Ok port /\
    check_allowlist upper b (the_field (u "method") [] header) (the_field (u "scheme") (u "https") header) (the_field (u "host") [] header) port
      (the_field (u "path") (u "/") header) = Ok up /\
    r = request_of upper up (the_field (u "method") [] header) (the_field (u "scheme") (u "https") header) (the_field (u "host") [] header) port
      (the_field (u "path") (u "/") header) hs body.
Proof.
  unfold serve. destruct (check_capability _ _ _ _ _ _) as [g|] eqn:Eg; [|done]. apply check_capability_live in Eg.
  destruct (int_of _ _) as [port|]; [|done]. destruct (pairs_of _ _) as [hs|]; [|done]. unfold forward.
  destruct (check_allowlist _ _ _ _ _ _ _) as [up|] eqn:Eu; [|done]. cbn [fst]. intros [= <-]. by exists port, hs, up.
Qed.

Lemma handle_sent b s r : sent (handled b s) = Some r ->
  exists header body, (recv_frame s).1 = Ok (header, body) /\ (served b header body).1 = Some r.
Proof.
  unfold handle. destruct (recv_frame s).1 as [[header body]|e]; [|by destruct e]. destruct (receipt_of _ _ _ _) as [rc|]; [|done].
  destruct (served b header body) as [request out] eqn:E. intros H. exists header, body. split; [done|]. rewrite E. cbn [fst].
  destruct out as [[[st hs] o]|e].
  - destruct (send _ _ _) as [|e]; [done|by destruct e].
  - destruct e; try done. destruct (send _ _ _) as [|e]; [done|by destruct e].
Qed.

(** The headers of a request are those that may cross, the encoding, and the credential. *)
Definition injected (up : Upstream) : text := credential_scheme up ++ credential up.

Lemma collapse_elem (l : list (text * text)) : forall d n v, (n, v) ∈ fold_left (fun d h => dset h.1 h.2 d) l d -> (n, v) ∈ d \/ (n, v) ∈ l.
Proof.
  induction l as [|h l IH]; intros d n v H; [by left|]. cbn [fold_left] in H. apply IH in H as [H|H]; [|by right; right].
  clear IH. induction d as [|[k w] d IHd]; cbn [dset] in H; [apply list_elem_of_singleton in H as ->; right; destruct h; left|].
  case_bool_decide as E.
  - apply elem_of_cons in H as [H|H]; [right; assert ((n, v) = h) as -> by (destruct h; cbn in *; congruence); left|left; by right].
  - apply elem_of_cons in H as [->|H]; [left; by left|]. destruct (IHd H) as [?|?]; [left; by right|by right].
Qed.

Lemma request_headers up method scheme host port path hs body n v :
  (n, v) ∈ r_headers (request_of upper up method scheme host port path hs body) ->
  (n = credential_header up /\ v = injected up) \/ (n = u "Accept-Encoding" /\ v = u "identity") \/ (crosses n = true /\ (n, v) ∈ hs).
Proof.
  cbn [r_headers request_of]. intros [H|H]%collapse_elem; [by apply elem_of_nil in H|]. unfold strip_headers in H.
  apply elem_of_app in H as [[H|H]%elem_of_app|H].
  - right; right. apply list_elem_of_In, filter_In in H as [H Hc]. split; [done|by apply list_elem_of_In].
  - right; left. apply list_elem_of_singleton in H. by injection H.
  - left. apply list_elem_of_singleton in H. by injection H.
Qed.

(** C6 Nothing leaves the broker but an allowed request of a live run.  A request that a connection sends
    out comes from a well-formed frame whose token has an unexpired grant; it goes to the scheme, host
    and port of a configured upstream, by one of its methods, to one of its paths, exactly, and in origin
    form; it carries that upstream's credential, and no header of the client's that names a credential,
    a hop, another method or an encoding; and its body is the client's. *)
Theorem broker_guarded b s r : sent (handled b s) = Some r ->
  exists header body key up hs, (recv_frame s).1 = Ok (header, body) /\ live_grant b (the_field (u "cap") [] header) /\
    (key, up) ∈ upstreams b /\ uni_lower (r_host r) = d_host key /\ r_port r = d_port key /\ r_https r = bool_decide (d_scheme key = u "https") /\
    r_method r ∈ upper <$> methods up /\ (exists path, path ∈ paths up /\ origin_form path = true /\ r_path r = base_path up ++ path) /\ r_body r = body /\
    pairs_of py_str (or_else (dget (u "headers") header) (VList [])) = Ok hs /\ dget (credential_header up) (r_headers r) = Some (injected up) /\
    (forall n v, (n, v) ∈ r_headers r -> (n = credential_header up /\ v = injected up) \/ (n = u "Accept-Encoding" /\ v = u "identity") \/
       (crosses n = true /\ (n, v) ∈ hs)).
Proof.
  intros (header & body & Hf & Hs)%handle_sent. apply serve_sent in Hs as (port & hs & up & Hg & Hp & _ & Ha & ->). apply allowlisted in Ha as (Hu & Hm & Ho & Hpath).
  eexists header, body, _, up, hs. do 2 (split; [done|]). split; [exact Hu|]. split_and!; try done.
  - by eexists.
  - cbn [r_headers request_of]. rewrite fold_left_app. cbn [fold_left fst snd]. apply dget_dset_eq.
  - intros n v. apply request_headers.
Qed.

(** ** Facts: the reply *)
Lemma credentials_texts b : credentials b = encode <$> ((fun e => credential e.2) <$> upstreams b).
Proof. unfold credentials. by rewrite <- list_fmap_compose. Qed.

Lemma received_clean b response st hs out : Forall (fun e => hideable (credential e.2)) (upstreams b) -> received b response = Ok (st, hs, out) ->
  Forall (fun e => ~ Redact.occurs (encode (credential e.2)) out /\ Forall (fun h => ~ Redact.occurs (credential e.2) h.2) hs) (upstreams b).
Proof.
  intros Hc. unfold received. destruct (_ && _); [done|]. destruct (MAX_BODY_BYTES <? _); [done|].
  destruct (redact_response _ _ _) as [[body' hs']|] eqn:E; [|done]. cbn [rbind]. intros H. assert (hs' = hs) as -> by congruence. assert (body' = out) as -> by congruence.
  rewrite credentials_texts in E. apply redact_response_clean in E as [Hb Hh]; [|by apply Forall_fmap].
  apply Forall_forall. intros e He. rewrite Forall_forall in Hc. specialize (Hc e He). split; [apply Hb|apply Hh]; try done; left; by apply (list_elem_of_fmap_2 (fun e => credential e.2)).
Qed.

(** Why the network was asked and the client refused. *)
Definition refusal_after (r : Request) (detail : text) : Prop :=
  (exists n, network r = Raise (Unreachable n) /\ detail = u "upstream unreachable: " ++ n) \/
  (exists response, network r = Ok response /\
     (detail = u "upstream response exceeds the protocol cap" \/
      exists encoding, content_encoding (headers response) = Some encoding /\ detail = u "upstream returned " ++ strip encoding ++ u " content encoding")).

Lemma redact_never_refuses secrets : forall body hs k d, redact_response secrets body hs <> Raise (Refused k d).
Proof.
  induction secrets as [|s secrets IH]; intros body hs k d; cbn [redact_response]; [done|].
  assert (forall l, all_ok (redact_header s) l <> Raise (Refused k d)) as Hl.
  { induction l as [|h l IHl]; [done|]. cbn [all_ok]. unfold redact_header at 1, redact_value, encode_strict.
    case_bool_decide; [|destruct (scalar_text h.2)]; cbn [rbind]; [| |discriminate]; destruct (all_ok (redact_header s) l) as [|e]; cbn [rbind]; congruence. }
  specialize (Hl hs). destruct (all_ok (redact_header s) hs) as [hs1|e]; cbn [rbind]; [apply IH|congruence].
Qed.

Lemma redaction_refused (capped : bool) (st : Z) secrets body hs (P : Prop) kind detail :
  (if capped then Raise (Refused (u "upstream") (u "upstream response exceeds the protocol cap"))
   else let? (body, hs) := redact_response secrets body hs in Ok (st, hs, body)) = Raise (Refused kind detail) ->
  kind = u "upstream" /\ (detail = u "upstream response exceeds the protocol cap" \/ P).
Proof.
  destruct capped; [intros H; assert (kind = u "upstream" /\ detail = u "upstream response exceeds the protocol cap") as [-> ->] by (split; congruence); split; [done|by left]|].
  destruct (redact_response _ _ _) as [[body' hs']|e] eqn:E; [done|]. cbn [rbind]. intros H. exfalso. apply (redact_never_refuses secrets body hs kind detail). congruence.
Qed.

Lemma received_refused b response kind detail : received b response = Raise (Refused kind detail) ->
  kind = u "upstream" /\ (detail = u "upstream response exceeds the protocol cap" \/
    exists encoding, content_encoding (headers response) = Some encoding /\ detail = u "upstream returned " ++ strip encoding ++ u " content encoding").
Proof.
  unfold received. destruct (content_encoding (headers response)) as [encoding|] eqn:Ee; cbn [or_else].
  1: destruct (_ && _); [intros [= <- <-]; split; [done|]; right; by exists encoding|].
  2: rewrite bool_decide_eq_true_2 by done; cbn [negb andb].
  all: apply redaction_refused.
Qed.

Lemma serve_refused b header body request kind detail : served b header body = (request, Raise (Refused kind detail)) ->
  request = None \/ exists r, request = Some r /\ kind = u "upstream" /\ refusal_after r detail.
Proof.
  unfold serve. destruct (check_capability _ _ _ _ _ _) as [g|e]; [|intros [= <- _]; by left].
  destruct (int_of _ _) as [port|e]; [|intros [= <- _]; by left]. destruct (pairs_of _ _) as [hs|e]; [|intros [= <- _]; by left].
  unfold forward. destruct (check_allowlist _ _ _ _ _ _ _) as [up|e]; [|intros [= <- _]; by left].
  set (r := request_of _ _ _ _ _ _ _ _ _). clearbody r. intros H. assert (request = Some r) as -> by congruence. right. exists r. split; [done|].
  unfold refusal_after. destruct (network r) as [response|[n|n]] eqn:En.
  - assert (received b response = Raise (Refused kind detail)) as [-> Hd]%received_refused by congruence. split; [done|]. right. by exists response.
  - assert (kind = u "upstream" /\ detail = u "upstream unreachable: " ++ n) as [-> ->] by (split; congruence). split; [done|]. left. by exists n.
  - congruence.
Qed.

Lemma serve_ok b header body request st hs out : served b header body = (request, Ok (st, hs, out)) -> exists response, received b response = Ok (st, hs, out).
Proof.
  unfold serve. destruct (check_capability _ _ _ _ _ _) as [g|e]; [|done].
  destruct (int_of _ _) as [port|e]; [|done]. destruct (pairs_of _ _) as [hs'|e]; [|done].
  unfold forward. destruct (check_allowlist _ _ _ _ _ _ _) as [up|e]; [|done].
  destruct (network _) as [response|[n|n]]; [|done..]. intros H. exists response. congruence.
Qed.

Lemma send_framed h o f : send gone h o = Ok f -> send_frame h o = Ok f.
Proof. unfold send. destruct (send_frame h o); [|done]. cbn [rbind]. by destruct gone. Qed.


(** ** Facts: from the agent to the upstream and back *)
Notation shimmed := (shim py_str py_int read_file).

Lemma pairs_of_values hs : pairs_of py_str (VList (pair_value <$> hs)) = Ok hs.
Proof. unfold pairs_of. cbn [iterate rbind]. induction hs as [|[n v] hs IH]; [done|]. cbn [fmap list_fmap all_ok] in *. cbn. cbn in IH. by rewrite IH. Qed.

Lemma payload_field key header body : key <> u "v" -> key <> u "body_len" -> dget key (payload_of header body) = dget key header.
Proof. intros H1 H2. unfold payload_of. by rewrite !dget_dset_ne. Qed.

(** What the shim frames is what the broker serves. *)
Lemma serve_frame b token scheme host port c body : let header := payload_of (frame_header token scheme host port c) body in
  served b header body =
  match check_capability py_str sha256 read_file b token now with
  | Raise e => (None, Raise e)
  | Ok _ => forward upper network b (command c) scheme host port (url c) (List.filter forwarded_header (client_headers c)) body
  end.
Proof.
  intros header. unfold serve, text_field. subst header. rewrite !payload_field by done. cbn [frame_header].
  replace (dget (u "port") (frame_header token scheme host port c)) with (Some (VInt port)) by done.
  replace (dget (u "headers") (frame_header token scheme host port c)) with (Some (VList (pair_value <$> List.filter forwarded_header (client_headers c)))) by done.
  cbn [or_else int_of]. by rewrite pairs_of_values.
Qed.

(** A request of the agent's that everything on the way permits, and what the upstream made of it. *)
Definition status_header (st : Z) (hs : list (text * text)) : dict value := [(u "status", VInt st); (u "headers", VList (pair_value <$> hs))].
Definition asked (up : Upstream) (scheme host : text) (port : Z) (c : Client) (body : list Z) : Request :=
  request_of upper up (command c) scheme host port (url c) (List.filter forwarded_header (client_headers c)) body.

Record Permitted (b : Broker) (scheme host : text) (port : Z) (cap_path : text) (c : Client) (body : list Z) (token : text) (up : Upstream)
  (st : Z) (hs : list (text * text)) (out : list Z) : Prop := {
  p_body : exists n, content_length py_int c = Ok n /\ n <= MAX_BODY_BYTES /\ body = (if bool_decide (command c = u "POST") then read_body n (rfile c) else []);
  p_size : Z.of_nat (length body) <= MAX_BODY_BYTES;
  p_token : capability py_str read_file cap_path = Ok token;
  p_frame : framable (VDict (frame_header token scheme host port c)) = true;
  p_line : Z.of_nat (length (header_line (frame_header token scheme host port c) body)) < MAX_HEADER_BYTES;
  p_live : exists grant, check_capability py_str sha256 read_file b token now = Ok grant;
  p_allowed : check_allowlist upper b (command c) scheme host port (url c) = Ok up;
  p_received : exists response, network (asked up scheme host port c body) = Ok response /\ received b response = Ok (st, hs, out);
  p_reply : framable (VDict (status_header st hs)) = true;
  p_reply_size : Z.of_nat (length out) <= MAX_BODY_BYTES;
  p_reply_line : Z.of_nat (length (header_line (status_header st hs) out)) < MAX_HEADER_BYTES;
  p_there : gone = None }.

Lemma send_frame_ok header body : Z.of_nat (length body) <= MAX_BODY_BYTES -> Z.of_nat (length (header_line header body)) < MAX_HEADER_BYTES ->
  send_frame header body = Ok (header_line header body ++ [10] ++ body).
Proof. intros H1 H2. unfold send_frame. by rewrite (proj2 (Z.ltb_ge MAX_BODY_BYTES _)), (proj2 (Z.ltb_ge MAX_HEADER_BYTES _)) by lia. Qed.

(** The broker's end of a permitted request. *)
Lemma permitted_handled b scheme host port cap_path c body token up st hs out s : Permitted b scheme host port cap_path c body token up st hs out ->
  stream s = header_line (frame_header token scheme host port c) body ++ [10] ++ body ->
  sent (handled b s) = Some (asked up scheme host port c body) /\ reply (handled b s) = Some (header_line (status_header st hs) out ++ [10] ++ out).
Proof.
  intros P Hs. destruct (framed_reads (frame_header token scheme host port c) body s []) as (s' & E & _); [apply P..|by rewrite app_nil_r|].
  unfold handle. rewrite E. cbn [fst]. destruct (p_live _ _ _ _ _ _ _ _ _ _ _ _ P) as [grant Hg].
  assert (exists rc, receipt_of py_str sha256 ts (payload_of (frame_header token scheme host port c) body) = Ok rc) as [rc ->].
  { unfold receipt_of, text_field. rewrite !payload_field by done. cbn [frame_header].
    assert (exists hex, cap_id sha256 token = Ok hex) as [hex Hhex].
    { unfold check_capability, grant_for in Hg. unfold cap_id. destruct (sha256_hex sha256 token) as [hex|]; [by eexists|done]. }
    replace (str_of py_str (or_else (dget (u "cap") (frame_header token scheme host port c)) (VStr []))) with token by done.
    destruct token; cbn [rbind]; [by eexists|rewrite Hhex; by eexists]. }
  rewrite serve_frame, Hg. unfold forward. rewrite (p_allowed _ _ _ _ _ _ _ _ _ _ _ _ P). fold (asked up scheme host port c body).
  destruct (p_received _ _ _ _ _ _ _ _ _ _ _ _ P) as (response & -> & ->). fold (status_header st hs). unfold send.
  rewrite send_frame_ok by apply P. cbn [rbind]. by rewrite (p_there _ _ _ _ _ _ _ _ _ _ _ _ P).
Qed.

(** C24 A permitted request goes through, end to end.  When the shim's request is within the caps, its run's
    grant is live, its destination, method and path are allowed and the upstream's answer can cross, then,
    in whatever pieces the two frames travel, the upstream is asked for exactly what the agent asked, with
    the credential in the place of what was stripped, and the agent gets the upstream's status, body and
    headers as redacted, but for the headers of a hop. *)
Theorem confined_exchange b scheme host port cap_path c body token up st hs out (there back : list Z -> list Piece) :
  Permitted b scheme host port cap_path c body token up st hs out ->
  (forall d, stream (there d) = d) -> (forall d, stream (back d) = d) ->
  let frame := header_line (frame_header token scheme host port c) body ++ [10] ++ body in
  sent (handled b (there frame)) = Some (asked up scheme host port c body) /\
  shimmed (scheme, host, port) cap_path (Ok (fun f => back (or_else (reply (handled b (there f))) []))) c =
    Ok {| code := st; answer := out;
          answer_headers := List.filter (fun h => negb (mem (uni_lower h.1) HOP_BY_HOP_HEADERS || bool_decide (uni_lower h.1 = u "content-length"))) hs
            ++ [(u "Content-Length", str_of_Z (Z.of_nat (length out)))] |}.
Proof.
  intros P Ht Hb frame. destruct (permitted_handled b scheme host port cap_path c body token up st hs out (there frame) P (Ht frame)) as [Hs Hr]. split; [exact Hs|].
  unfold shim, ask_broker. destruct (p_body _ _ _ _ _ _ _ _ _ _ _ _ P) as (n & -> & Hn & Hbody). cbn [rbind].
  rewrite (proj2 (Z.ltb_ge MAX_BODY_BYTES n)) by lia. rewrite <- Hbody. pose proof (p_size _ _ _ _ _ _ _ _ _ _ _ _ P) as Hsize. rewrite (proj2 (Z.ltb_ge MAX_BODY_BYTES _)) by lia.
  rewrite (p_token _ _ _ _ _ _ _ _ _ _ _ _ P). cbn [rbind]. rewrite send_frame_ok by apply P. cbn [rbind]. fold frame. rewrite Hr. cbn [or_else].
  destruct (framed_reads (status_header st hs) out (back (header_line (status_header st hs) out ++ [10] ++ out)) []) as (s' & -> & _);
    [apply P..|by rewrite app_nil_r|]. cbn [fst rbind]. rewrite !payload_field by done.
  replace (dget (u "error") (status_header st hs)) with (@None value) by done. replace (dget (u "status") (status_header st hs)) with (Some (VInt st)) by done.
  replace (dget (u "headers") (status_header st hs)) with (Some (VList (pair_value <$> hs))) by done. cbn [or_else int_of rbind]. by rewrite pairs_of_values.
Qed.
End Facts.

(** ** Samples *)
Definition sample_grant : list Z := compact (VDict [(u "token", vs "tok"); (u "expires", VInt 100)]).
Definition sample_files (key : text) (path : text) : result text (list Z) :=
  or_else (Ok <$> dget path [(u "/s/key", key); (u "/g/tok.json", sample_grant); (u "/run/capability.json", sample_grant)]) (Raise (u "FileNotFoundError")).
Definition sample_entry (paths : list text) : Entry :=
  {| e_scheme := None; e_host := u "API.typesafe.ai"; e_port := None; e_methods := [u "POST"]; e_paths := paths; e_credential_file := u "/s/key";
     e_credential_header := None; e_credential_scheme := None; e_base_path := None |}.
Definition sample_load (key : text) (entries : list Entry) : result Exit Broker := load_broker (U := ascii_unicode) (sample_files key) (u "/g") entries.
Definition sample_broker (paths : list text) : Broker := match sample_load (u "sk-1") [sample_entry paths] with Ok b => b | Raise _ => {| grants_dir := []; upstreams := [] |} end.


Example loads_broker : (match sample_load (u " sk-1 " ++ [13; 10]) [sample_entry []] with Ok b => credentials b | Raise _ => [] end) = [u "sk-1"]
  /\ sample_load (u " ") [sample_entry []] = Raise (SystemExit (u "credential file /s/key is empty"))
  /\ sample_load (u "sk-1") [sample_entry []; sample_entry []] = Raise (SystemExit (u "duplicate upstream")).
Proof. vm_compute. split_and!; reflexivity. Qed.

(** An upstream that says what it was sent, with the encoding it is told to name. *)
Definition echo (encoding : text) (r : Request) : result NetError Response :=
  Ok {| status := 200; headers := [(u "X-Echo", join (u "; ") (r_headers r).*2); (u "Content-Encoding", encoding); (u "Connection", u "close")]; content := r_body r |}.
Definition sample_handle (paths : list text) (now : Z) (encoding : text) (s : list Piece) : Outcome :=
  handle (U := ascii_unicode) (fun t => t) (fun _ => u "None") (fun _ => Raise (ValueError (u "ValueError"))) (fun d => d) (sample_files (u "sk-1")) (echo encoding) (f_of_Z now) (VInt 0) None
    (sample_broker paths) s.
Definition sample_client : Client :=
  {| command := u "POST"; url := u "/v1/systemone"; client_headers := [(u "Host", u "127.0.0.1"); (u "X-Api-Key", u "placeholder"); (u "Accept", u "*/*"); (u "Content-Length", u "8")];
     rfile := u "ask sk-1" |}.
Definition sample_host : text := u "api.typesafe.ai".
Definition sample_frame (token : string) : list Piece :=
  match send_frame (frame_header (U := ascii_unicode) (u token) (u "https") sample_host 443 sample_client) (u "ask sk-1") with Ok f => pieces 7 2 f | Raise _ => [] end.
Definition refusal (o : Outcome) : value * value * bool := (get (u "refused") (receipt o), get (u "detail") (receipt o), is_none (sent o)).

(** A request that goes through, an unknown token, an expired one, and a path the allowlist has only with a
    star. *)
Example serves : let o := sample_handle [u "/v1/systemone"] 100 (u "identity") (sample_frame "tok") in
  receipt o = [(u "ts", VInt 0); (u "cap", vs "tok"); (u "method", vs "POST"); (u "host", vs "api.typesafe.ai"); (u "path", vs "/v1/systemone");
    (u "status", VInt 200); (u "resp_bytes", VInt 14)] /\
  (fun r => (r_path r, r_headers r)) <$> sent o
    = Some (u "/v1/systemone", [(u "Accept", u "*/*"); (u "Accept-Encoding", u "identity"); (u "Authorization", u "Bearer sk-1")]) /\
  (fun f => (recv_frame [Bytes f]).1) <$> reply o
    = Some (Ok (payload_of (status_header 200 [(u "X-Echo", u "*/*; identity; Bearer [REDACTED]"); (u "Content-Encoding", u "identity")]) (u "ask [REDACTED]"), u "ask [REDACTED]")).
Proof. vm_compute. split_and!; reflexivity. Qed.
Example refuses :
  refusal (sample_handle [u "/v1/systemone"] 100 [] (sample_frame "other")) = (vs "capability", vs "capability not recognized", true)
  /\ refusal (sample_handle [u "/v1/systemone"] 101 [] (sample_frame "tok")) = (vs "capability", vs "capability expired", true)
  /\ refusal (sample_handle [u "/v1/*"; u "*"] 100 [] (sample_frame "tok")) = (vs "allowlist", vs "path /v1/systemone is not allowlisted", true).
Proof. vm_compute. split_and!; reflexivity. Qed.

(** A credential in the name of an encoding goes back, and into the receipt. *)
Example encoding_leaks : refusal (sample_handle [u "/v1/systemone"] 100 (u "Bearer sk-1") (sample_frame "tok"))
  = (vs "upstream", vs "upstream returned Bearer sk-1 content encoding", false).
Proof. vm_compute. reflexivity. Qed.

(** ** Witnesses *)
Notation sample_str := (fun _ : value => u "None").
Notation sample_int := (fun _ : value => Raise (ValueError (u "ValueError")) : result Fault Z).
Definition sample_outcome : Outcome := sample_handle [u "/v1/systemone"] 100 (u "identity") (sample_frame "tok").

Lemma broker_guarded_witness :
  exists r key up, sent sample_outcome = Some r /\ (key, up) ∈ upstreams (sample_broker [u "/v1/systemone"]) /\ uni_lower (Unicode := ascii_unicode) (r_host r) = d_host key /\
    dget (credential_header up) (r_headers r) = Some (u "Bearer sk-1").
Proof.
  destruct (sent sample_outcome) as [r|] eqn:E; [|by vm_compute in E].
  destruct (broker_guarded (U := ascii_unicode) (fun t => t) sample_str sample_int (fun d => d) (sample_files (u "sk-1")) (echo (u "identity")) (f_of_Z 100) (VInt 0) None
    (sample_broker [u "/v1/systemone"]) (sample_frame "tok") r E) as (header & body & key & up & hs & _ & _ & Hu & Hh & _ & _ & _ & _ & _ & _ & Hd & _).
  exists r, key, up. split; [done|]. split; [exact Hu|]. split; [exact Hh|]. rewrite Hd.
  assert ((key, up) = hd (key, up) (upstreams (sample_broker [u "/v1/systemone"]))) as Ek.
  { revert Hu. generalize (key, up). intros e He. vm_compute in He. apply list_elem_of_singleton in He. by rewrite He. }
  rewrite (f_equal snd Ek : up = _). vm_compute. reflexivity.
Defined.

Lemma hideable_sample : Forall (fun e => hideable (credential e.2)) (upstreams (sample_broker [u "/v1/systemone"])).
Proof.
  apply (Forall_fmap (fun e => credential e.2) hideable).
  assert ((fun e => credential e.2) <$> upstreams (sample_broker [u "/v1/systemone"]) = [u "sk-1"]) as -> by (vm_compute; reflexivity).
  constructor; [|constructor]. split; [done|]. split; [by apply scalar_text_spec|]. split; apply Redact.unspelled_b_spec; by vm_compute.
Qed.


Definition sample_up : Upstream :=
  {| methods := [u "POST"]; paths := [u "/v1/systemone"]; credential := u "sk-1"; credential_header := u "Authorization"; credential_scheme := u "Bearer "; base_path := [] |}.
Definition sample_relayed : list (text * text) := [(u "X-Echo", u "*/*; identity; Bearer [REDACTED]"); (u "Content-Encoding", u "identity")].

(** The agent's request over frames cut into single bytes, and into one piece. *)
Definition each_byte (d : list Z) : list Piece := (fun b => Bytes [b]) <$> d.
Lemma each_byte_stream d : stream (each_byte d) = d.
Proof. unfold each_byte. induction d as [|b d IH]; [done|]. cbn [fmap list_fmap stream app]. by rewrite IH. Qed.

Lemma confined_exchange_witness :
  shim (U := ascii_unicode) sample_str (fun _ => Ok 8) (sample_files (u "sk-1")) (u "https", sample_host, 443) (u "/run/capability.json")
    (Ok (fun f => [Bytes (or_else (reply (handle (U := ascii_unicode) (fun t => t) sample_str (fun _ => Ok 8) (fun d => d) (sample_files (u "sk-1")) (echo (u "identity")) (f_of_Z 100) (VInt 0) None
       (sample_broker [u "/v1/systemone"]) (each_byte f))) [])])) sample_client
  = Ok {| code := 200; answer_headers := sample_relayed ++ [(u "Content-Length", u "14")]; answer := u "ask [REDACTED]" |}.
Proof.
  apply (confined_exchange (U := ascii_unicode) (fun t => t) sample_str (fun _ => Ok 8) (fun d => d) (sample_files (u "sk-1")) (echo (u "identity")) (f_of_Z 100) (VInt 0) None
    (sample_broker [u "/v1/systemone"]) (u "https") sample_host 443 (u "/run/capability.json") sample_client (u "ask sk-1") (u "tok") sample_up 200 sample_relayed (u "ask [REDACTED]")
    each_byte (fun d => [Bytes d])).
  - constructor.
    + exists 8. split; [vm_compute; reflexivity|]. split; [by vm_compute|]. vm_compute. reflexivity.
    + by vm_compute.
    + vm_compute. reflexivity.
    + vm_compute. reflexivity.
    + vm_compute. reflexivity.
    + exists [(u "token", vs "tok"); (u "expires", VInt 100)]. vm_compute. reflexivity.
    + vm_compute. reflexivity.
    + exists {| status := 200; headers := [(u "X-Echo", u "*/*; identity; Bearer sk-1"); (u "Content-Encoding", u "identity"); (u "Connection", u "close")]; content := u "ask sk-1" |}.
      split; vm_compute; reflexivity.
    + vm_compute. reflexivity.
    + by vm_compute.
    + vm_compute. reflexivity.
    + reflexivity.
  - intros d. exact (each_byte_stream d).
  - intros d. cbn. apply app_nil_r.
Defined.
